(* ===== verification/_CoqProject ===== *)
-Q . S2P
Prelude.v
GuestMem.v
VirtQueue.v
Lro.v
NetDev.v
Text.v
TextFacts.v
Egress.v
Dns.v
Utf8.v
NatRelay.v
Nat.v
NatEnv.v
NatSafety.v
SoftGic.v
VcpuRegs.v
GicDump.v
Its.v
BlockBackend.v
Overlay.v
BlockDev.v
DevCore.v
NotifyRace.v
NetPath.v
VirtioMmio.v
MmioLocks.v
VirtioPci.v
Platform.v
CpuIface.v
GicMachine.v
VtimerClock.v
ICache.v
Psci.v
RunLoop.v
Dic.v
HttpProxy.v
HttpHead.v
Base64.v
CredRules.v
OciEntry.v
OciRootfs.v
OciCpio.v
OciTar.v
OciRef.v
Der.v
ProxyCa.v
