(* ===== verification/Prelude.v ===== *)
(** * Verification of gimbal-local's Hypervisor.framework back end

    gimbal-local runs arm64 virtual machines, usually snapshots taken on a KVM
    host, on macOS. This library models the part of it that stands between an
    untrusted guest and the host: guest memory, virtqueues and the devices behind
    them, the MMIO and PCI transports, the user-mode network with its policy, the
    software GICv3, the virtual counter, the run loop with its exits, the
    maintenance of the instruction cache and the translation of KVM snapshots; the
    proxy that adds credentials to the guest's requests; and the import of container
    images, whose archives are as untrusted as the guest.
    Paths below are under [src/hypervisor/src/hvf/] unless they start with [src/].

    ** The parts and how they interact

    The guest reaches a device through the MMIO bus: a register of a transport, the
    UART or the clock. A transport holds a device core, whose queues live in guest
    RAM and are reached only through [GuestMemory]. A notification drains a queue
    into its backend: a disk over a host file or an overlay, an entropy source, or a
    network responder, which for real networking is the user-mode NAT. A completion
    becomes an interrupt: an SPI through the distributor, or an LPI through the ITS
    tables in guest memory, pushed into a vCPU's injection queue, drained at run
    entry and handed to the guest by the CPU interface. All vCPUs share one counter
    offset. Each pass of a vCPU's run loop enters the guest and serves its exit: a
    trapped register, an access to a device, a fault of a page held non-executable
    or non-writable, a call to the firmware, a halt. A resumed VM gets its registers,
    its GIC state and its transports from a snapshot, and its kernel text is repaired
    where the capture's host let it leave out cache maintenance. A flow that the NAT
    admitted may be diverted to the credential proxy, which reads the guest's
    requests and sends them to the origin with a header the guest never sees; to the
    guest it shows certificates of its own CA. An image is imported before any of
    this: its layers are read, every entry is judged, the accepted ones make up a
    root file system, and that is written as the archive the kernel unpacks.

    - [Prelude]: outcomes ([res], [io]), fuel, machine integers, bytes, vectors, loops.
    - [GuestMem] ([virtio/mod.rs]): regions over one host store. [gbyte] is the
      abstract view.
    - [VirtQueue] ([virtio/queue.rs]): [pop], [add_used], [needs_interrupt] and the
      rest of [Queue], one definition each.
    - [Lro] ([virtio/lro.rs]): receive coalescing; [NetDev] ([virtio/net.rs],
      [virtio/rng.rs]): the network device over any responder, the echo responder,
      the entropy device.
    - [Text], [TextFacts]: the string functions of the standard library that rules
      use, and the lemmas on them that the components share; [Utf8]: the encoding.
    - [Egress] ([virtio/nat/policy.rs], [virtio/nat/reserved.rs]): rules, the
      resolution cache, [decide_dns], [decide_connect], [amend].
    - [Dns] ([virtio/nat/dns.rs]): queries, names and replies.
    - [NatRelay], [Nat] ([virtio/nat/mod.rs], [virtio/nat/device.rs]): the relay and
      the responder over classes for smoltcp, the host's sockets and [f64], each with
      a class of laws that states its documented behaviour; [NatEnv]: instances of all
      of them; [NatSafety]: runs of the responder.
    - [SoftGic] ([softgic.rs]): [Distributor] and [Redistributor] register files.
    - [VcpuRegs] ([translate.rs]): KVM and HVF vCPU registers, both directions.
    - [GicDump] ([translate.rs], module gic_ingest): GIC dumps in KVM's word order.
    - [Its] ([virtio/its.rs]): table walks and the command queue of the ITS.
    - [BlockBackend], [Overlay], [BlockDev] ([virtio/block.rs]): the backend trait
      as a class, its contract as the class of laws [FlatDisk], instances for the
      host file and for [OverlayBackend], and the request processor over any
      instance.
    - [DevCore] ([virtio/devcore.rs]): the queue service of a device; [NotifyRace]:
      its loop interleaved with the driver, one memory access at a time; [NetPath]:
      frames from the rings to the responder and back.
    - [VirtioMmio], [MmioLocks] ([virtio/mmio.rs]): the MMIO transport and the locks
      of its entry points; [VirtioPci] ([virtio/pci.rs]): the restored PCI BAR.
    - [Platform] ([devices.rs]): the MMIO bus, the PL011 and the PL031.
    - [CpuIface] ([mod.rs], [UserGic]; [checkpoint.rs]): one vCPU's pending FIFO,
      active stack, wedge detector and ICC registers.
    - [GicMachine] ([mod.rs], [HvfVcpu]'s interrupt paths): all vCPUs with the
      shared distributor and frames; [machine_step] interleaves traps, register
      accesses, device deliveries, timer exits and run entries.
    - [VtimerClock] ([mod.rs]): the shared offset, its rendezvous and the vCPUs
      that adopt it; [clock_step] interleaves them with time.
    - [ICache] ([icache_wx.rs]): W^X enforcement over a class for the hypervisor's
      page permissions, RAM and the instruction cache; [wx_step] interleaves the
      vCPUs, the devices' transfers and the cache.
    - [Psci] ([src/chm/src/imp.rs], [src/chm/src/create.rs]): the power slots and the
      secondaries' threads; [psci_step] interleaves them.
    - [RunLoop] ([mod.rs], [HvfVcpu::run]): run entry, the dispatch of exits and every
      handler, composed from [GicMachine], [ICache], [Psci] and [Platform].
    - [Dic] ([dic.rs]): the page-table walk, the locator and the repair of elided
      cache maintenance over any [PhysMem], of which [GuestMemory] is an instance.
    - [HttpProxy] ([src/chm/src/credproxy/http.rs], [server.rs] there): request heads,
      the framing of bodies, the injector and the pump of a connection with its
      redial; [HttpHead]: that heads survive the rewriting.
    - [Base64] ([base64.rs] there): encoding and decoding; [CredRules] ([rules.rs],
      [secrets.rs], [nat.rs], [server.rs] there): the rules and their compilation,
      the secrets and their cache, the hook of the NAT, the preamble and the choice
      of an injector for a flow.
    - [Der], [ProxyCa] ([der.rs], [ca.rs] there): the DER encoder, with a decoder and
      a calendar to state what it writes; the CA, its leaves and PEM over a class for
      ring's keys, signatures and hash.
    - [OciRef] ([src/chm/src/oci/reference.rs]): image references; [OciTar]
      ([targz.rs] there): the tar reader; [OciEntry] ([entry.rs]): the verdict on an
      entry; [OciRootfs] ([apply.rs], [initramfs.rs]): the root file system and the
      application of layers; [OciCpio] ([initramfs.rs]): the cpio archive.

    ** Conventions

    A w-bit unsigned integer is a [Z] in [0, 2^w), with the wrap-around of a
    release build written out. A [Vec] indexed by a number is a list accessed
    by [vget] and [vset]. [Ok] and [Err] are Rust's; [Panic] is an abort;
    [NoFuel] marks a cut-off loop and is excluded by the termination theorems.
    A critical section of the code is one atomic step, except where the locks or
    the single accesses are the subject ([MmioLocks], [NotifyRace]).

    ** What the theorems show

    - Confinement: accesses stay inside one region ([with_ptr_confined]); block
      requests and ITS commands change only their own buffers or one table entry
      ([block_request_confined], [its_command_confined]).
    - Virtqueues and devices: a posted chain is decoded exactly, walks end for every
      guest memory, a notification serves everything posted and loses no wake-up,
      frames go through the rings unchanged and coalescing keeps every stream.
    - Transports: registers stay in range, a ring may be programmed in any order, a
      snapshot resumes the device, in-flight requests complete on resume, and the
      locks do not deadlock outside two named registers.
    - Disks: the overlay refines a flat array under every history, survives a
      flush and a restart, and the device's requests store and return the bytes
      they name.
    - Network: what decides a connect; nothing is dialled or resolved that the
      policy did not allow; the relay is an exact pipe within its bandwidth; caps and
      tables hold in every run; every pass returns; DNS messages cannot crash the
      parser and replies say what was decided.
    - Interrupts: the distributor reads back what was written; dumps restore;
      in every reachable VM state an interrupt is held once per vCPU and nothing
      panics; acknowledge, end of interrupt, SGIs, routed SPIs and MSIs do what
      the architecture says.
    - Time: the counter never goes back and has the exact frequency ratio; the
      console and the clock device keep their streams and their time.
    - Exits: a load or store reaches its device and only it, no exit panics or
      loops, a halted vCPU comes back, and a due timer ends the halt; [CPU_ON] starts
      a core once, with the request that was accepted.
    - Instruction cache: no stale instruction is fetched from a page under W^X, whose
      faults are bounded; the repair is all or nothing, its walk agrees with
      translation, its locator is exact, and no guarded operation it can see is left.
    - Credentials: the requests of a guest reach the origin whole, once and in order,
      each with the rule's header in it once; a rule decides alike in the NAT and in
      the proxy, which see the same destination; a rule's destinations are reachable;
      what is recorded does not depend on the secret; a minted secret does not
      outlive its time; the CA's certificates say what they should and it is the same
      one after a restart.
    - Images: an accepted entry and every path of an image stay below the root, the
      last entry that touches a path decides it, a layer is read back as written and
      within its limit, and the archive holds every file after its directories.
    - Defects: theorems named after the behaviour prove where the code contradicts
      its own documentation or intent, among them [net_tx_wakeup_lost],
      [stale_listener_outlives_denial], [status_read_deadlocks],
      [zero_size_queue_panics], [expand_indirect_diverges], [raced_store_is_lost]
      and [failed_arm_strands_guest].

    ** Bounds and fuel

    [pop] walks at most [2^17] descriptors below 16384 entries ([walk_fuel]). The
    page-table walk of [Dic] needs one unit per level, 4, for a layout of up to 48
    bits and one more than its budget of 65536 tables otherwise. A halt needs as many
    readings as its waits, of which a thousand full milliseconds are enough. An
    ITS drain visits each 32-byte slot at most once. The overlay's loops run at
    most once per byte, write-zeroes once per 1 MiB chunk and descriptor. Euclid's
    loop on 64-bit numbers needs at most 129 rounds. The relay needs one round per
    byte in the socket's buffers, a DNS name at most 128 steps. A service pass is
    shown to return for every large enough fuel, always with the same result
    ([returns_to]). The injector needs one round per byte and phase of its buffer, the
    scanner of chunks one per byte. The tar reader needs one round per block, an
    extended header one per byte, the cpio reader one per record. Links are followed
    32 times because the code follows them so often. Each bound is proved enough.

    ** Not modelled

    Calls into Hypervisor.framework and host I/O, except as the state they set
    and the results they return; serde encodings; logging and trace output; the
    managed GIC's own state; TLS and the sockets of the proxy; the registry, the
    decompression of layers and the init script of an image; the command line tools,
    and the upstream crates used on KVM. *)

From Stdlib Require Import ZArith Lia Bool.
From stdpp Require Import base numbers list list_numbers gmap option.

Declare Scope gimbal_scope.
Delimit Scope gimbal_scope with gimbal.
Global Open Scope Z_scope.

(** ** Outcomes *)

(** The outcome of a fallible Rust computation: [Ok] and [Err] are the two
    constructors of [Result]; [Panic] is an abort (an index out of range, a
    division by zero); [NoFuel] is a loop cut off by the fuel of the model. *)
Inductive res (E A : Type) : Type :=
| Ok (a : A)
| Err (e : E)
| Panic
| NoFuel.
Arguments Ok {E A} a.
Arguments Err {E A} e.
Arguments Panic {E A}.
Arguments NoFuel {E A}.

#[export] Instance res_bind_inst {E} : MBind (res E) := fun A B f m =>
  match m with
  | Ok a => f a
  | Err e => Err e
  | Panic => Panic
  | NoFuel => NoFuel
  end.
#[export] Instance res_ret_inst {E} : MRet (res E) := fun A a => Ok a.

(** [map_err] of the Rust standard library. *)
Definition map_err {E F A} (f : E -> F) (m : res E A) : res F A :=
  match m with
  | Ok a => Ok a
  | Err e => Err (f e)
  | Panic => Panic
  | NoFuel => NoFuel
  end.

Definition is_ok {E A} (m : res E A) : bool :=
  match m with Ok _ => true | _ => false end.

Lemma bind_Ok {E A B} (m : res E A) (f : A -> res E B) b :
  m ≫= f = Ok b <-> exists a, m = Ok a /\ f a = Ok b.
Proof. split; [destruct m; cbn; try discriminate; eauto | by intros (a & -> & ?)]. Qed.

(** A computation that settles returns [Ok] or [Err]. *)
Definition settles {E A} (m : res E A) : Prop :=
  match m with Ok _ | Err _ => True | _ => False end.

Lemma settles_bind {E A B} (m : res E A) (f : A -> res E B) :
  settles m -> (forall a, m = Ok a -> settles (f a)) -> settles (m ≫= f).
Proof. destruct m; cbn; intros; auto. Qed.

(** A loop cut off by fuel returns [a] when every large enough fuel gives it. *)
Definition returns_to {E A} (fn : nat -> res E A) (a : A) : Prop :=
  exists f0, forall f, (f0 <= f)%nat -> fn f = Ok a.

(** More fuel does not change a result. *)
Definition fuel_mono {E A} (fn : nat -> res E A) : Prop :=
  forall f f' a, fn f = Ok a -> (f <= f')%nat -> fn f' = Ok a.

Lemma returns_const {E A} (m : res E A) a : m = Ok a -> returns_to (fun _ => m) a.
Proof. intros ->. by exists O. Qed.

Lemma returns_mono {E A} (fn : nat -> res E A) f a : fuel_mono fn -> fn f = Ok a -> returns_to fn a.
Proof. intros Hm Hf. exists f. intros f' Hle. by eapply Hm. Qed.

Lemma returns_bind {E A B} (fn : nat -> res E A) (g : A -> nat -> res E B) a b :
  returns_to fn a -> returns_to (g a) b -> returns_to (fun f => x ← fn f; g x f) b.
Proof.
  intros [f0 Hf] [g0 Hg]. exists (Nat.max f0 g0). intros f Hle. rewrite Hf by lia. cbn. apply Hg. lia.
Qed.

Lemma fuel_mono_bind {E A B} (fn : nat -> res E A) (g : A -> nat -> res E B) :
  fuel_mono fn -> (forall a, fuel_mono (g a)) -> fuel_mono (fun f => x ← fn f; g x f).
Proof.
  intros Hf Hg f f' b (a & Ha & Hb)%bind_Ok Hle. rewrite (Hf _ _ _ Ha Hle). by eapply Hg.
Qed.

Lemma fuel_mono_const {E A} (m : res E A) : fuel_mono (fun _ => m).
Proof. by intros f f' a Hm _. Qed.

Ltac res_inv :=
  repeat match goal with
  | H : _ ≫= _ = Ok _ |- _ =>
      let a := fresh "a" in let Ha := fresh "Ha" in
      apply bind_Ok in H as (a & Ha & H)
  | H : Ok _ = Ok _ |- _ => injection H as H; try subst
  | H : mret _ = Ok _ |- _ => change (Ok (E:=_) _ = Ok _) in H
  end; simplify_eq.

(** ** Machine integers

    A [w]-bit unsigned integer is a [Z] in [0, 2^w). [u8] .. [u64] are the
    [as u8] .. [as u64] casts and the wrapping arithmetic of a release build;
    the [sat_] operations are Rust's saturating ones. *)

Definition u8 (x : Z) : Z := x mod 2 ^ 8.
Definition u16 (x : Z) : Z := x mod 2 ^ 16.
Definition u32 (x : Z) : Z := x mod 2 ^ 32.
Definition u64 (x : Z) : Z := x mod 2 ^ 64.

Definition is_u8 (x : Z) : Prop := 0 <= x < 2 ^ 8.
Definition is_u16 (x : Z) : Prop := 0 <= x < 2 ^ 16.
Definition is_u32 (x : Z) : Prop := 0 <= x < 2 ^ 32.
Definition is_u64 (x : Z) : Prop := 0 <= x < 2 ^ 64.

Definition sat_add64 (a b : Z) : Z := Z.min (a + b) (2 ^ 64 - 1).
Definition sat_add32 (a b : Z) : Z := Z.min (a + b) (2 ^ 32 - 1).
Definition sat_mul16 (a b : Z) : Z := Z.min (a * b) (2 ^ 16 - 1).
Definition sat_mul64 (a b : Z) : Z := Z.min (a * b) (2 ^ 64 - 1).
Definition sat_sub (a b : Z) : Z := Z.max 0 (a - b).

(** [checked_mul] on [u64]. *)
Definition checked_mul64 (a b : Z) : option Z :=
  if a * b <? 2 ^ 64 then Some (a * b) else None.

(** [!x] on a [w]-bit integer. *)
Definition not_w (w x : Z) : Z := Z.lxor x (Z.ones w).

(** [x & (1 << b) != 0]. *)
Definition has_bit (x b : Z) : bool := negb (Z.land x (Z.shiftl 1 b) =? 0).

Create HintDb gimbal.
#[export] Hint Unfold u8 u16 u32 u64 is_u8 is_u16 is_u32 is_u64 : gimbal.

(** [zify] with the [mod] and [div] equations, then [lia]. *)
Ltac word_lia :=
  unfold u8, u16, u32, u64, is_u8, is_u16, is_u32, is_u64,
    sat_add64, sat_add32, sat_mul16, sat_mul64, sat_sub in *;
  change (2 ^ 8) with 256 in *; change (2 ^ 16) with 65536 in *;
  change (2 ^ 32) with 4294967296 in *;
  change (2 ^ 64) with 18446744073709551616 in *;
  Z.div_mod_to_equations; lia.

Lemma has_bit_testbit x b : 0 <= b -> has_bit x b = Z.testbit x b.
Proof.
  intros Hb. unfold has_bit. rewrite Z.shiftl_1_l.
  destruct (Z.testbit x b) eqn:E.
  - apply negb_true_iff, Z.eqb_neq. intros H0.
    assert (Z.testbit (Z.land x (2 ^ b)) b = false) as Hf by (rewrite H0; apply Z.bits_0).
    rewrite Z.land_spec, Z.pow2_bits_true, E in Hf by lia. discriminate.
  - apply negb_false_iff, Z.eqb_eq. apply Z.bits_inj'. intros i Hi.
    rewrite Z.land_spec, Z.bits_0, Z.pow2_bits_eqb by lia.
    destruct (Z.eqb_spec b i) as [->|]; [by rewrite E | apply andb_false_r].
Qed.

Lemma testbit_ones w i : 0 <= w -> Z.testbit (Z.ones w) i = (0 <=? i) && (i <? w).
Proof.
  intros Hw. destruct (Z.leb_spec 0 i) as [Hi|Hi]; cbn.
  - rewrite Z.testbit_ones_nonneg by lia. by destruct (Z.ltb_spec i w).
  - by rewrite Z.testbit_neg_r.
Qed.

Lemma testbit_mod_pow2 x w i :
  0 <= w -> Z.testbit (x mod 2 ^ w) i = (i <? w) && Z.testbit x i.
Proof.
  intros Hw. destruct (Z.ltb_spec i w).
  - cbn. destruct (Z.leb_spec 0 i).
    + by apply Z.mod_pow2_bits_low.
    + by rewrite !Z.testbit_neg_r.
  - by rewrite Z.mod_pow2_bits_high by lia.
Qed.

Lemma testbit_high x w i : 0 <= x < 2 ^ w -> w <= i -> Z.testbit x i = false.
Proof.
  intros Hx Hi.
  assert (0 <= w). { destruct (Z.leb_spec 0 w); [done|]. rewrite Z.pow_neg_r in Hx; lia. }
  rewrite <- (Z.mod_small x (2 ^ w)) by done.
  by apply Z.mod_pow2_bits_high.
Qed.

Lemma bits_range w x :
  0 <= w -> 0 <= x -> (forall i, w <= i -> Z.testbit x i = false) -> x < 2 ^ w.
Proof.
  intros Hw Hx H.
  rewrite <- (Z.mod_small x (2 ^ Z.max w (Z.log2 x + 1))).
  - assert (x mod 2 ^ w = x mod 2 ^ Z.max w (Z.log2 x + 1)) as <-.
    { apply Z.bits_inj'. intros i Hi. rewrite !testbit_mod_pow2 by lia.
      destruct (Z.ltb_spec i w), (Z.ltb_spec i (Z.max w (Z.log2 x + 1))); cbn; try done.
      - lia.
      - by rewrite H. }
    apply Z.mod_pos_bound. lia.
  - split; [done|]. destruct (Z.eq_dec x 0) as [->|]; [apply Z.pow_pos_nonneg; lia|].
    eapply Z.lt_le_trans; [apply (Z.log2_spec x); lia|].
    apply Z.pow_le_mono_r; lia.
Qed.

(** Two fields packed into one word: [(hi << n) | lo] is [hi * 2^n + lo]. *)
Lemma lor_shiftl_add hi lo n :
  0 <= n -> 0 <= lo < 2 ^ n -> Z.lor (Z.shiftl hi n) lo = hi * 2 ^ n + lo.
Proof.
  intros Hn Hlo. rewrite <- Z.shiftl_mul_pow2 by done.
  symmetry. rewrite Z.add_nocarry_lxor.
  - rewrite Z.lxor_lor; [done|]. apply Z.bits_inj'. intros i Hi.
    rewrite Z.land_spec, Z.bits_0. destruct (Z.ltb_spec i n).
    + by rewrite Z.shiftl_spec_low.
    + by rewrite (testbit_high lo n), andb_false_r.
  - apply Z.bits_inj'. intros i Hi.
    rewrite Z.land_spec, Z.bits_0. destruct (Z.ltb_spec i n).
    + by rewrite Z.shiftl_spec_low.
    + by rewrite (testbit_high lo n), andb_false_r.
Qed.

Lemma lor_range w a b : 0 <= w -> 0 <= a < 2 ^ w -> 0 <= b < 2 ^ w -> 0 <= Z.lor a b < 2 ^ w.
Proof.
  intros Hw Ha Hb. assert (0 <= Z.lor a b) by (apply Z.lor_nonneg; lia).
  split; [done|]. apply bits_range; [done..|]. intros i Hi.
  by rewrite Z.lor_spec, (testbit_high a w), (testbit_high b w).
Qed.

Lemma land_range w a b : 0 <= w -> 0 <= a < 2 ^ w -> 0 <= Z.land a b < 2 ^ w.
Proof.
  intros Hw Ha. assert (0 <= Z.land a b) by (apply Z.land_nonneg; lia).
  split; [done|]. apply bits_range; [done..|]. intros i Hi.
  by rewrite Z.land_spec, (testbit_high a w).
Qed.

Lemma wrap_range w x : 0 <= w -> 0 <= x mod 2 ^ w < 2 ^ w.
Proof. intros. apply Z.mod_pos_bound. by apply Z.pow_pos_nonneg. Qed.

(** ** Bytes

    A byte is a [Z] in [0, 256); [le_bytes n x] is [x.to_le_bytes()] of an
    [8 n]-bit integer and [le_val] is [from_le_bytes]; [be_bytes] and [be_val]
    are the big-endian pair. *)

Fixpoint le_bytes (n : nat) (x : Z) : list Z :=
  match n with
  | O => []
  | S n => u8 x :: le_bytes n (x / 2 ^ 8)
  end.

Fixpoint le_val (bs : list Z) : Z :=
  match bs with
  | [] => 0
  | b :: bs => b + 2 ^ 8 * le_val bs
  end.

Definition be_bytes (n : nat) (x : Z) : list Z := rev (le_bytes n x).
Definition be_val (bs : list Z) : Z := le_val (rev bs).

Definition bytes (bs : list Z) : Prop := Forall is_u8 bs.

Definition bytesb (bs : list Z) : bool := forallb (fun b => (0 <=? b) && (b <? 2 ^ 8)) bs.

Lemma bytesb_bytes bs : bytesb bs = true -> bytes bs.
Proof.
  induction bs as [|b bs IH]; cbn; [constructor|]. rewrite !andb_true_iff, Z.leb_le, Z.ltb_lt.
  intros [? ?]. constructor; [done | by apply IH].
Qed.

Lemma forallb_bytesb ls : forallb bytesb ls = true -> Forall bytes ls.
Proof.
  induction ls as [|l ls IH]; cbn; [constructor|]. rewrite andb_true_iff.
  intros [? ?]. constructor; [by apply bytesb_bytes | by apply IH].
Qed.

Lemma length_le_bytes n x : length (le_bytes n x) = n.
Proof. revert x. induction n; intros; cbn; by rewrite ?IHn. Qed.

Lemma le_bytes_bytes n x : bytes (le_bytes n x).
Proof.
  revert x. induction n; intros x; constructor; [|apply IHn].
  apply (wrap_range 8); lia.
Qed.

Lemma le_val_bytes n x : le_val (le_bytes n x) = x mod 2 ^ (8 * Z.of_nat n).
Proof.
  revert x. induction n as [|n IH]; intros x.
  - cbn. by rewrite Z.mod_1_r.
  - cbn [le_bytes le_val]. rewrite IH. unfold u8.
    replace (8 * Z.of_nat (S n)) with (8 + 8 * Z.of_nat n) by lia.
    rewrite Z.pow_add_r by lia. symmetry. apply Z.rem_mul_r; [lia|].
    apply Z.pow_pos_nonneg; lia.
Qed.

Lemma le_val_range bs : bytes bs -> 0 <= le_val bs < 2 ^ (8 * Z.of_nat (length bs)).
Proof.
  induction 1 as [|b bs Hb _ IH]; cbn [le_val length].
  - cbn; lia.
  - replace (8 * Z.of_nat (S (length bs))) with (8 + 8 * Z.of_nat (length bs)) by lia.
    rewrite Z.pow_add_r by lia. unfold is_u8 in Hb. nia.
Qed.

Lemma le_val_app a b : le_val (a ++ b) = le_val a + 2 ^ (8 * Z.of_nat (length a)) * le_val b.
Proof.
  induction a as [|x a IH]; cbn [le_val app length]; [cbn; lia|]. rewrite IH.
  replace (8 * Z.of_nat (S (length a))) with (8 + 8 * Z.of_nat (length a)) by lia.
  rewrite Z.pow_add_r by lia. lia.
Qed.

Lemma le_bytes_val bs : bytes bs -> le_bytes (length bs) (le_val bs) = bs.
Proof.
  induction 1 as [|b bs Hb _ IH]; cbn [le_val length le_bytes]; [done|].
  unfold is_u8, u8 in *. f_equal.
  - rewrite Z.mul_comm, Z.mod_add by lia. by apply Z.mod_small.
  - rewrite Z.mul_comm, Z.div_add by lia. rewrite (Z.div_small b) by done. apply IH.
Qed.

Lemma length_be_bytes n x : length (be_bytes n x) = n.
Proof. unfold be_bytes. by rewrite length_rev, length_le_bytes. Qed.

Lemma be_val_bytes n x : be_val (be_bytes n x) = x mod 2 ^ (8 * Z.of_nat n).
Proof. unfold be_val, be_bytes. by rewrite rev_involutive, le_val_bytes. Qed.

Lemma be_bytes_bytes n x : bytes (be_bytes n x).
Proof.
  unfold be_bytes, bytes. apply Forall_rev, le_bytes_bytes.
Qed.

Lemma be_val_range bs : bytes bs -> 0 <= be_val bs < 2 ^ (8 * Z.of_nat (length bs)).
Proof.
  intros H. unfold be_val. rewrite <- length_rev. apply le_val_range.
  by apply Forall_rev.
Qed.

(** ** Vectors indexed by [usize] *)

(** [v.get(i)] for an unsigned index. *)
Definition vget {A} (l : list A) (i : Z) : option A :=
  if (0 <=? i) && (i <? Z.of_nat (length l)) then l !! Z.to_nat i else None.

(** [if let Some(p) = v.get_mut(i) { *p = x }]. *)
Definition vset {A} (i : Z) (x : A) (l : list A) : list A :=
  if (0 <=? i) && (i <? Z.of_nat (length l)) then <[Z.to_nat i := x]> l else l.

Lemma length_vset {A} i (x : A) l : length (vset i x l) = length l.
Proof. unfold vset. destruct (_ && _); [apply length_insert | done]. Qed.

Lemma vget_Some {A} (l : list A) i x :
  vget l i = Some x -> 0 <= i < Z.of_nat (length l) /\ l !! Z.to_nat i = Some x.
Proof.
  unfold vget. destruct (Z.leb_spec 0 i), (Z.ltb_spec i (Z.of_nat (length l)));
    cbn; try discriminate. intros; split; [lia|done].
Qed.

Lemma vget_lt {A} (l : list A) i : 0 <= i < Z.of_nat (length l) -> exists x, vget l i = Some x.
Proof.
  intros Hi. unfold vget.
  rewrite (proj2 (Z.leb_le _ _)), (proj2 (Z.ltb_lt _ _)) by lia. cbn.
  apply lookup_lt_is_Some. lia.
Qed.

Lemma vget_ge {A} (l : list A) i : Z.of_nat (length l) <= i -> vget l i = None.
Proof.
  intros Hi. unfold vget. rewrite (proj2 (Z.ltb_ge _ _)) by done.
  by rewrite andb_false_r.
Qed.

Lemma vget_of_lookup {A} (l : list A) n x : l !! n = Some x -> vget l (Z.of_nat n) = Some x.
Proof.
  intros H. pose proof (lookup_lt_Some _ _ _ H). unfold vget.
  rewrite (proj2 (Z.leb_le _ _)), (proj2 (Z.ltb_lt _ _)) by lia. cbn. by rewrite Nat2Z.id.
Qed.

Lemma vget_of_lookup' {A} (l : list A) i x :
  0 <= i /\ l !! Z.to_nat i = Some x -> vget l i = Some x.
Proof. intros [Hi H]. rewrite <- (Z2Nat.id i) by done. by apply vget_of_lookup. Qed.

Lemma vget_vset {A} (l : list A) i j x :
  vget (vset i x l) j =
  if (i =? j) && (0 <=? i) && (i <? Z.of_nat (length l)) then Some x else vget l j.
Proof.
  unfold vget. rewrite length_vset. unfold vset.
  destruct (Z.leb_spec 0 i), (Z.ltb_spec i (Z.of_nat (length l))); cbn;
    rewrite ?andb_false_r; try done.
  destruct (Z.eqb_spec i j) as [->|Hne]; cbn.
  - rewrite (proj2 (Z.leb_le _ _)), (proj2 (Z.ltb_lt _ _)) by lia. cbn.
    apply list_lookup_insert_eq. lia.
  - destruct (Z.leb_spec 0 j); cbn; [|done].
    destruct (j <? _); [|done]. apply list_lookup_insert_ne. lia.
Qed.

Lemma Forall_elem {A} (P : A -> Prop) (l : list A) : Forall P l <-> (forall x, x ∈ l -> P x).
Proof.
  split; [induction 1; intros y Hy; [inversion Hy|apply elem_of_cons in Hy as [->|]; auto]|].
  induction l as [|y l IH]; intros H; constructor.
  - apply H. by constructor.
  - apply IH. intros x Hx. apply H. by constructor.
Qed.

Lemma Forall_vset {A} (P : A -> Prop) l i x : Forall P l -> P x -> Forall P (vset i x l).
Proof. intros Hl Hx. unfold vset. case_match; [by apply Forall_insert|done]. Qed.

Lemma Forall_vget {A} (P : A -> Prop) l i x : Forall P l -> vget l i = Some x -> P x.
Proof.
  intros HP [_ Hx]%vget_Some. rewrite Forall_elem in HP. by eapply HP, list_elem_of_lookup_2.
Qed.

Lemma vget_vset_ne {A} (l : list A) i j x : i <> j -> vget (vset i x l) j = vget l j.
Proof. intros. rewrite vget_vset. by rewrite (proj2 (Z.eqb_neq _ _)). Qed.

Lemma vget_vset_eq {A} (l : list A) i x :
  0 <= i < Z.of_nat (length l) -> vget (vset i x l) i = Some x.
Proof.
  intros. rewrite vget_vset, Z.eqb_refl.
  by rewrite (proj2 (Z.leb_le _ _)), (proj2 (Z.ltb_lt _ _)) by lia.
Qed.

Lemma vset_vset {A} (l : list A) i x y : vset i x (vset i y l) = vset i x l.
Proof.
  unfold vset at 1 3. rewrite length_vset. unfold vset. destruct (_ && _); [|done].
  apply list_insert_insert_eq.
Qed.

Lemma vset_same {A} (l : list A) i x : vget l i = Some x -> vset i x l = l.
Proof.
  intros [_ Hx]%vget_Some. unfold vset. destruct (_ && _); [|done]. by apply list_insert_id.
Qed.

Lemma Forall2_vset {A} (Rel : relation A) `{!Reflexive Rel} l i x y :
  vget l i = Some x -> Rel x y -> Forall2 Rel l (vset i y l).
Proof.
  intros Hv Hxy. pose proof (vget_Some _ _ _ Hv) as [Hi Hx]. unfold vset.
  rewrite (proj2 (Z.leb_le _ _)), (proj2 (Z.ltb_lt _ _)) by lia. cbn [andb].
  apply Forall2_same_length_lookup. split; [by rewrite length_insert|].
  intros k a b Ha Hb. apply list_lookup_insert_Some in Hb as [(<- & <- & _)|[_ Hb]].
  - rewrite Hx in Ha. by injection Ha as <-.
  - rewrite Ha in Hb. by injection Hb as <-.
Qed.

Lemma vget_replicate {A} n (x : A) i :
  0 <= i < Z.of_nat n -> vget (replicate n x) i = Some x.
Proof.
  intros. unfold vget. rewrite length_replicate.
  rewrite (proj2 (Z.leb_le _ _)), (proj2 (Z.ltb_lt _ _)) by lia. cbn.
  apply lookup_replicate. split; [done|lia].
Qed.

(** The half-open test [(lo..hi).contains(&x)]. *)
Definition in_range (lo hi x : Z) : bool := (lo <=? x) && (x <? hi).

Lemma in_range_spec lo hi x : in_range lo hi x = true <-> lo <= x < hi.
Proof. unfold in_range. rewrite andb_true_iff, Z.leb_le, Z.ltb_lt. lia. Qed.

Lemma in_range_false lo hi x : in_range lo hi x = false <-> ~ lo <= x < hi.
Proof. rewrite <- not_true_iff_false, in_range_spec. lia. Qed.

Lemma lookup_seqZ_Some m n i x :
  seqZ m n !! i = Some x <-> x = m + Z.of_nat i /\ (Z.of_nat i < n).
Proof. rewrite lookup_seqZ. lia. Qed.

(** Iterating a state update over [0 .. n). *)
Fixpoint for_n {S : Type} (n : nat) (body : Z -> S -> S) (s : S) : S :=
  match n with
  | O => s
  | S k => body (Z.of_nat k) (for_n k body s)
  end.

Lemma for_n_inv {S : Type} (P : Z -> S -> Prop) (body : Z -> S -> S) n s :
  P 0 s ->
  (forall i s, 0 <= i < Z.of_nat n -> P i s -> P (i + 1) (body i s)) ->
  P (Z.of_nat n) (for_n n body s).
Proof.
  intros H0 Hstep. induction n as [|n IH]; [done|]. cbn [for_n].
  replace (Z.of_nat (Datatypes.S n)) with (Z.of_nat n + 1) by lia.
  apply Hstep; [lia|]. apply IH. intros. apply Hstep; [lia|done].
Qed.

Lemma for_n_ext {S : Type} (f g : Z -> S -> S) n s :
  (forall i s, f i s = g i s) -> for_n n f s = for_n n g s.
Proof. intros H. induction n as [|n IH]; cbn [for_n]; [done|]. by rewrite H, IH. Qed.

(** A loop that ors bit [pos b] into an accumulator for every [b] with [c b]. *)
Lemma gather_testbit n (pos : Z -> Z) (c : Z -> bool) v0 i :
  0 <= i -> (forall b, 0 <= b < Z.of_nat n -> 0 <= pos b) ->
  Z.testbit (for_n n (fun b v => if c b then Z.lor v (Z.shiftl 1 (pos b)) else v) v0) i = true <->
  Z.testbit v0 i = true \/ exists b, 0 <= b < Z.of_nat n /\ c b = true /\ pos b = i.
Proof.
  intros Hi. induction n as [|n IH]; intros Hpos; cbn [for_n].
  { split; [by left|]. intros [?|(b & ? & _)]; [done|lia]. }
  destruct (c (Z.of_nat n)) eqn:Ec.
  - rewrite Z.lor_spec, orb_true_iff, IH by (intros; apply Hpos; lia).
    rewrite Z.shiftl_spec by done. specialize (Hpos (Z.of_nat n) ltac:(lia)). split.
    + intros [[?|(b & Hb & ? & ?)]|Ht]; [by left|right; exists b; split_and!; [lia..|done|done]|].
      right. exists (Z.of_nat n). split_and!; [lia..|done|].
      destruct (Z.eq_dec (i - pos (Z.of_nat n)) 0); [lia|].
      destruct (Z.ltb_spec (i - pos (Z.of_nat n)) 0).
      * by rewrite Z.testbit_neg_r in Ht.
      * rewrite (testbit_high 1 1) in Ht by lia. done.
    + intros [?|(b & Hb & Hc & Hp)]; [by left; left|].
      destruct (Z.eq_dec b (Z.of_nat n)) as [->|].
      * right. by replace (i - pos (Z.of_nat n)) with 0 by lia.
      * left. right. exists b. split_and!; [lia..|done|done].
  - rewrite IH by (intros; apply Hpos; lia). split.
    + intros [?|(b & Hb & ? & ?)]; [by left|right; exists b; split_and!; [lia..|done|done]].
    + intros [?|(b & Hb & Hc & Hp)]; [by left|]. right. exists b.
      destruct (Z.eq_dec b (Z.of_nat n)) as [->|]; [congruence|]. split_and!; [lia..|done|done].
Qed.

(** The same loop with bit [b] itself, from zero. *)
Lemma gather_testbit_id n (c : Z -> bool) i :
  0 <= i ->
  Z.testbit (for_n n (fun b v => if c b then Z.lor v (Z.shiftl 1 b) else v) 0) i =
  (i <? Z.of_nat n) && c i.
Proof.
  intros Hi. apply eq_true_iff_eq. rewrite (gather_testbit n (fun b => b)) by lia.
  rewrite Z.bits_0, andb_true_iff, Z.ltb_lt. split.
  - intros [?|(b & ? & ? & ->)]; [done|]. by split; [lia|].
  - intros [? ?]. right. exists i. split_and!; [lia..|done|done].
Qed.

Lemma gather_nonneg n (pos : Z -> Z) (c : Z -> bool) v0 :
  0 <= v0 -> 0 <= for_n n (fun b v => if c b then Z.lor v (Z.shiftl 1 (pos b)) else v) v0.
Proof.
  intros H0. induction n as [|n IH]; cbn [for_n]; [done|]. destruct (c _); [|done].
  apply Z.lor_nonneg. split; [done|]. apply Z.shiftl_nonneg. lia.
Qed.

(** A loop that stores [g b] at index [base + b] for every [b] with [c b]. *)
Lemma scatter_vget {A} n base (c : Z -> bool) (g : Z -> A) (l : list A) j :
  0 <= base ->
  vget (for_n n (fun b l => if c b then vset (base + b) (g b) l else l) l) j =
  if in_range base (base + Z.of_nat n) j && c (j - base) && (j <? Z.of_nat (length l))
  then Some (g (j - base)) else vget l j.
Proof.
  intros Hb. revert j. induction n as [|n IH]; intros j; cbn [for_n].
  { assert (in_range base (base + Z.of_nat 0) j = false) as -> by (apply in_range_false; lia). done. }
  set (l' := for_n n _ l) in *.
  assert (length l' = length l) as Hlen.
  { clear IH. subst l'. induction n as [|n IH]; cbn [for_n]; [done|].
    destruct (c _); rewrite ?length_vset; done. }
  destruct (Z.eqb_spec (base + Z.of_nat n) j) as [<-|Hne].
  - assert (in_range base (base + Z.of_nat (S n)) (base + Z.of_nat n) = true) as ->
      by (apply in_range_spec; lia).
    replace (base + Z.of_nat n - base) with (Z.of_nat n) by lia.
    destruct (c (Z.of_nat n)) eqn:Ec; cbn [andb].
    + rewrite vget_vset, Z.eqb_refl, Hlen, (proj2 (Z.leb_le _ _)) by lia. cbn [andb].
      destruct (_ <? _) eqn:El; [done|]. rewrite IH.
      assert (in_range base (base + Z.of_nat n) (base + Z.of_nat n) = false) as ->
        by (apply in_range_false; lia). done.
    + rewrite IH. assert (in_range base (base + Z.of_nat n) (base + Z.of_nat n) = false) as ->
        by (apply in_range_false; lia). done.
  - assert (in_range base (base + Z.of_nat (S n)) j = in_range base (base + Z.of_nat n) j) as ->.
    { apply eq_true_iff_eq. rewrite !in_range_spec. lia. }
    rewrite <- IH. destruct (c (Z.of_nat n)); [by rewrite vget_vset_ne|done].
Qed.

Lemma scatter_length {A} n base (c : Z -> bool) (g : Z -> A) (l : list A) :
  length (for_n n (fun b l => if c b then vset (base + b) (g b) l else l) l) = length l.
Proof. induction n as [|n IH]; cbn [for_n]; [done|]. destruct (c _); rewrite ?length_vset; done. Qed.

(** ** Stateful fallible code

    [io S E A] is code over a state [S] that may fail; the state reached is
    kept on every outcome, since a Rust method that returns [Err] after a
    partial update leaves the update in place. *)

Definition io (S E A : Type) : Type := S -> res E A * S.

#[export] Instance io_bind_inst {S E} : MBind (io S E) := fun A B f m s =>
  match m s with
  | (Ok a, s') => f a s'
  | (Err e, s') => (Err e, s')
  | (Panic, s') => (Panic, s')
  | (NoFuel, s') => (NoFuel, s')
  end.
#[export] Instance io_ret_inst {S E} : MRet (io S E) := fun A a s => (Ok a, s).

Definition io_get {S E} : io S E S := fun s => (Ok s, s).
Definition io_put {S E} (s : S) : io S E unit := fun _ => (Ok tt, s).
Definition io_modify {S E} (f : S -> S) : io S E unit := fun s => (Ok tt, f s).

(** A fallible read of the state. *)
Definition io_read {S E A} (f : S -> res E A) : io S E A := fun s => (f s, s).

(** A fallible update of the state; the state is unchanged when it fails. *)
Definition io_update {S E} (f : S -> res E S) : io S E unit := fun s =>
  match f s with
  | Ok s' => (Ok tt, s')
  | Err e => (Err e, s)
  | Panic => (Panic, s)
  | NoFuel => (NoFuel, s)
  end.

Lemma io_bind_ok {S E A B} (m : io S E A) (f : A -> io S E B) s a s' :
  m s = (Ok a, s') -> (m ≫= f) s = f a s'.
Proof. intros H. unfold mbind, io_bind_inst. by rewrite H. Qed.

Lemma io_update_ok {S E} (f : S -> res E S) s s' : f s = Ok s' -> io_update f s = (Ok tt, s').
Proof. unfold io_update. by intros ->. Qed.

Lemma fmap_rev {A B} (f : A -> B) (l : list A) : f <$> rev l = rev (f <$> l).
Proof. induction l as [|x l IH]; cbn; [done|]. by rewrite fmap_app, IH. Qed.

Lemma find_None_iff {A} (p : A -> bool) (l : list A) :
  List.find p l = None <-> forall x, x ∈ l -> p x = false.
Proof.
  split.
  - intros H x Hx. apply (List.find_none _ _ H). by apply list_elem_of_In.
  - intros H. destruct (List.find p l) as [x|] eqn:E; [|done].
    apply List.find_some in E as [Hin Hx].
    rewrite H in Hx; [done|]. by apply list_elem_of_In.
Qed.

Lemma find_Some_elem {A} (p : A -> bool) (l : list A) x :
  List.find p l = Some x -> x ∈ l /\ p x = true.
Proof. intros [? ?]%List.find_some. split; [by apply list_elem_of_In|done]. Qed.

Lemma existsb_elem {A} (p : A -> bool) (l : list A) :
  existsb p l = true <-> exists x, x ∈ l /\ p x = true.
Proof. rewrite existsb_exists. split; intros (x & ? & ?); exists x; (split; [by apply list_elem_of_In|done]). Qed.
