(* ===== verification/GuestMem.v ===== *)
(** * Guest memory (hypervisor/src/hvf/virtio/mod.rs)

    The host's view of guest-physical RAM: a list of registered regions, each
    naming a range of host memory by a raw pointer, and the host bytes behind
    them. Every device access goes through [with_ptr], which picks the first
    region that holds the whole range. The host bytes are one shared store, so
    two regions registered over the same pointer alias, as they do in the
    program. The instruction-cache hook called after a write has no effect on
    the bytes and is left out.

    [gbyte] is the abstract view: a partial map from guest addresses to bytes.
    The theorems show that on a well-formed memory a successful read returns
    the bytes of that map, that a write is a pointwise update of it, and that
    which accesses succeed never depends on the bytes. *)

From Stdlib Require Import ZArith Lia Bool.
From stdpp Require Import base numbers list list_numbers gmap option.
From S2P Require Import Prelude.

(** ** State *)

Record Region := mkRegion {
  r_gpa : Z;
  r_ptr : Z;
  r_size : Z;
}.

Record GuestMemory := mkMem {
  regions : list Region;
  host : gmap Z Z;
}.

Record GuestMemError := mkMemErr {
  err_gpa : Z;
  err_len : Z;
}.

#[export] Instance GuestMemError_eq_dec : EqDecision GuestMemError.
Proof. solve_decision. Defined.

Definition mem_new : GuestMemory := mkMem [] ∅.

Definition register (m : GuestMemory) (gpa ptr size : Z) : GuestMemory :=
  mkMem (regions m ++ [mkRegion gpa ptr size]) (host m).

(** ** Access *)

(** The bounds check of one region; [r.gpa + r.size] is a wrapping [u64] sum. *)
Definition region_hit (r : Region) (gpa len : Z) : bool :=
  (r_gpa r <=? gpa) && (sat_add64 gpa len <=? u64 (r_gpa r + r_size r)).

(** The host pointer for [gpa, gpa + len), from the first region that holds it. *)
Fixpoint find_ptr (rs : list Region) (gpa len : Z) : option Z :=
  match rs with
  | [] => None
  | r :: rs =>
      if region_hit r gpa len then Some (r_ptr r + (gpa - r_gpa r))
      else find_ptr rs gpa len
  end.

Definition with_ptr (m : GuestMemory) (gpa len : Z) : res GuestMemError Z :=
  match find_ptr (regions m) gpa len with
  | Some p => Ok p
  | None => Err (mkMemErr gpa len)
  end.

Definition hbyte (h : gmap Z Z) (p : Z) : Z := default 0 (h !! p).

Definition host_read (h : gmap Z Z) (p : Z) (n : nat) : list Z :=
  (fun i => hbyte h (p + i)) <$> seqZ 0 (Z.of_nat n).

Fixpoint host_write (h : gmap Z Z) (p : Z) (bs : list Z) : gmap Z Z :=
  match bs with
  | [] => h
  | b :: bs => host_write (<[p := b]> h) (p + 1) bs
  end.

(** [read(gpa, &mut buf)] with [buf.len() = n]. *)
Definition mem_read (m : GuestMemory) (gpa : Z) (n : nat) : res GuestMemError (list Z) :=
  p ← with_ptr m gpa (Z.of_nat n);
  Ok (host_read (host m) p n).

(** [write(gpa, &buf)]. *)
Definition mem_write (m : GuestMemory) (gpa : Z) (bs : list Z) : res GuestMemError GuestMemory :=
  p ← with_ptr m gpa (Z.of_nat (length bs));
  Ok (mkMem (regions m) (host_write (host m) p bs)).

(** [with_slice(gpa, len, f)]: run [f] on the bytes in place. *)
Definition with_slice {R} (m : GuestMemory) (gpa : Z) (n : nat) (f : list Z -> R) :
    res GuestMemError R :=
  p ← with_ptr m gpa (Z.of_nat n);
  Ok (f (host_read (host m) p n)).

(** [with_slice_mut(gpa, len, f)]: [f] may rewrite the bytes in place; it
    returns its result and the new contents of the slice. *)
Definition with_slice_mut {R} (m : GuestMemory) (gpa : Z) (n : nat)
    (f : list Z -> R * list Z) : res GuestMemError (R * GuestMemory) :=
  p ← with_ptr m gpa (Z.of_nat n);
  let '(r, bs) := f (host_read (host m) p n) in
  Ok (r, mkMem (regions m) (host_write (host m) p (take n bs))).

Definition read_u16 (m : GuestMemory) (gpa : Z) : res GuestMemError Z :=
  b ← mem_read m gpa 2; Ok (le_val b).

Definition read_u32 (m : GuestMemory) (gpa : Z) : res GuestMemError Z :=
  b ← mem_read m gpa 4; Ok (le_val b).

Definition read_u64 (m : GuestMemory) (gpa : Z) : res GuestMemError Z :=
  b ← mem_read m gpa 8; Ok (le_val b).

Definition write_u16 (m : GuestMemory) (gpa v : Z) : res GuestMemError GuestMemory :=
  mem_write m gpa (le_bytes 2 v).

Definition write_u32 (m : GuestMemory) (gpa v : Z) : res GuestMemError GuestMemory :=
  mem_write m gpa (le_bytes 4 v).

Definition write_u64 (m : GuestMemory) (gpa v : Z) : res GuestMemError GuestMemory :=
  mem_write m gpa (le_bytes 8 v).

(** ** Well-formedness and the abstract view *)

Definition region_wf (r : Region) : Prop :=
  0 <= r_gpa r /\ 0 <= r_size r /\ r_gpa r + r_size r < 2 ^ 64 - 1.

(** Two regions overlap neither in guest-physical space nor in the host. *)
Definition regions_apart (r s : Region) : Prop :=
  (r_gpa r + r_size r <= r_gpa s \/ r_gpa s + r_size s <= r_gpa r) /\
  (r_ptr r + r_size r <= r_ptr s \/ r_ptr s + r_size s <= r_ptr r).

Inductive regions_wf : list Region -> Prop :=
| regions_wf_nil : regions_wf []
| regions_wf_cons r rs :
    region_wf r -> Forall (regions_apart r) rs -> regions_wf rs -> regions_wf (r :: rs).

Definition host_wf (h : gmap Z Z) : Prop := map_Forall (fun _ b => is_u8 b) h.

Definition mem_wf (m : GuestMemory) : Prop := regions_wf (regions m) /\ host_wf (host m).

(** The byte of guest memory at [a], if a region backs it. *)
Definition gbyte (m : GuestMemory) (a : Z) : option Z :=
  hbyte (host m) <$> find_ptr (regions m) a 1.

(** ** Lookup of a range *)

Lemma find_ptr_Some rs gpa len p :
  regions_wf rs -> 0 <= len -> find_ptr rs gpa len = Some p ->
  exists r, r ∈ rs /\ r_gpa r <= gpa /\ gpa + len <= r_gpa r + r_size r /\
            p = r_ptr r + (gpa - r_gpa r).
Proof.
  intros Hwf Hlen. induction Hwf as [|r rs Hr _ Hwf IH]; [discriminate|]. cbn.
  destruct (region_hit r gpa len) eqn:E; intros H.
  - injection H as <-. exists r. split; [by constructor|].
    unfold region_hit in E. apply andb_true_iff in E as [E1 E2].
    rewrite Z.leb_le in E1, E2. destruct Hr as (?&?&?).
    repeat split; try done. word_lia.
  - destruct (IH H) as (s & ? & ?). exists s. split; [by constructor|done].
Qed.

Lemma find_ptr_intro rs r gpa len :
  regions_wf rs -> r ∈ rs -> 0 < len ->
  r_gpa r <= gpa -> gpa + len <= r_gpa r + r_size r ->
  find_ptr rs gpa len = Some (r_ptr r + (gpa - r_gpa r)).
Proof.
  intros Hwf Hin Hlen H1 H2. induction Hwf as [|s rs Hs Hap Hwf IH]; [inversion Hin|]. cbn.
  apply elem_of_cons in Hin as [->|Hin].
  - unfold region_hit. destruct Hs as (?&?&?).
    rewrite (proj2 (Z.leb_le _ _)), (proj2 (Z.leb_le _ _)); [done| |done]. word_lia.
  - destruct (region_hit s gpa len) eqn:E; [|by apply IH].
    unfold region_hit in E. apply andb_true_iff in E as [E1 E2].
    rewrite Z.leb_le in E1, E2. destruct Hs as (?&?&?).
    rewrite Forall_elem in Hap. destruct (Hap r Hin) as [? _].
    exfalso. word_lia.
Qed.

Lemma regions_wf_elem rs r s :
  regions_wf rs -> r ∈ rs -> s ∈ rs -> r = s \/ regions_apart r s.
Proof.
  intros Hwf. induction Hwf as [|t rs _ Hap Hwf IH]; [inversion 1|].
  rewrite Forall_elem in Hap. rewrite !elem_of_cons.
  intros [->|Hr] [->|Hs]; auto.
  destruct (Hap r Hr) as [? ?]. right. unfold regions_apart. lia.
Qed.

(** A sub-range of an accessible range is accessible, at the matching pointer. *)
Lemma find_ptr_sub rs gpa len p a n :
  regions_wf rs -> find_ptr rs gpa len = Some p ->
  0 <= len -> 0 < n -> gpa <= a -> a + n <= gpa + len ->
  find_ptr rs a n = Some (p + (a - gpa)).
Proof.
  intros Hwf Hp ? ? ? ?. apply find_ptr_Some in Hp as (r & Hin & ? & ? & ->); [|done..].
  rewrite (find_ptr_intro rs r) by (done || lia). f_equal. lia.
Qed.

(** Distinct guest addresses are distinct host addresses. *)
Lemma find_ptr_inj rs a b p :
  regions_wf rs -> find_ptr rs a 1 = Some p -> find_ptr rs b 1 = Some p -> a = b.
Proof.
  intros Hwf Ha Hb.
  apply find_ptr_Some in Ha as (r & Hr & ? & ? & ->); [|done|lia].
  apply find_ptr_Some in Hb as (s & Hs & ? & ? & Heq); [|done|lia].
  destruct (regions_wf_elem rs r s Hwf Hr Hs) as [->|[_ ?]]; lia.
Qed.

(** ** Host bytes *)

Lemma length_host_read h p n : length (host_read h p n) = n.
Proof. unfold host_read. rewrite length_fmap, length_seqZ. lia. Qed.

Lemma vget_host_read h p n i :
  0 <= i < Z.of_nat n -> vget (host_read h p n) i = Some (hbyte h (p + i)).
Proof.
  intros Hi. unfold vget. rewrite length_host_read.
  rewrite (proj2 (Z.leb_le _ _)), (proj2 (Z.ltb_lt _ _)) by lia. cbn.
  unfold host_read. rewrite list_lookup_fmap, lookup_seqZ_lt by lia.
  cbn. do 3 f_equal. lia.
Qed.

Lemma hbyte_host_write h p bs q :
  hbyte (host_write h p bs) q =
  if in_range p (p + Z.of_nat (length bs)) q then default 0 (vget bs (q - p)) else hbyte h q.
Proof.
  revert h p. induction bs as [|b bs IH]; intros h p; cbn [host_write length].
  - rewrite (proj2 (in_range_false _ _ _)) by lia. done.
  - rewrite IH. destruct (in_range (p + 1) _ q) eqn:E.
    + apply in_range_spec in E. rewrite (proj2 (in_range_spec _ _ _)) by lia.
      unfold vget. cbn [length].
      rewrite !(proj2 (Z.leb_le _ _)), !(proj2 (Z.ltb_lt _ _)) by lia. cbn.
      replace (Z.to_nat (q - p)) with (S (Z.to_nat (q - (p + 1)))) by lia. done.
    + apply in_range_false in E. unfold hbyte. rewrite lookup_insert.
      destruct (decide (p = q)) as [->|].
      * rewrite (proj2 (in_range_spec _ _ _)) by lia.
        unfold vget. cbn [length]. rewrite Z.sub_diag, (proj2 (Z.ltb_lt _ _)) by lia. done.
      * rewrite (proj2 (in_range_false _ _ _)) by lia. done.
Qed.

Lemma host_write_wf h p bs : host_wf h -> bytes bs -> host_wf (host_write h p bs).
Proof.
  intros Hh Hb. revert h p Hh. induction Hb as [|b bs Hb _ IH]; intros h p Hh; [done|].
  cbn. apply IH. by apply map_Forall_insert_2.
Qed.

Lemma hbyte_range h p : host_wf h -> is_u8 (hbyte h p).
Proof.
  intros Hh. unfold hbyte. destruct (h !! p) as [b|] eqn:E; cbn; [by apply (Hh p)|].
  unfold is_u8. lia.
Qed.

Lemma host_read_bytes h p n : host_wf h -> bytes (host_read h p n).
Proof.
  intros Hh. apply Forall_elem. intros b Hb. unfold host_read in Hb.
  apply list_elem_of_fmap in Hb as (i & -> & _). by apply hbyte_range.
Qed.

Lemma vget_ext {A} (l1 l2 : list A) :
  length l1 = length l2 ->
  (forall i, 0 <= i < Z.of_nat (length l1) -> vget l1 i = vget l2 i) -> l1 = l2.
Proof.
  intros Hlen H. apply list_eq_same_length with (length l2); [done|done|].
  intros i x y Hi Hx Hy. specialize (H (Z.of_nat i) ltac:(lia)).
  unfold vget in H. rewrite Hlen in H.
  rewrite !(proj2 (Z.leb_le _ _)), !(proj2 (Z.ltb_lt _ _)) in H by lia.
  cbn in H. rewrite Nat2Z.id in H. congruence.
Qed.

(** ** The abstract view *)

(** Which accesses succeed depends on the registered regions alone. *)
Lemma with_ptr_regions m m' gpa len :
  regions m' = regions m -> with_ptr m' gpa len = with_ptr m gpa len.
Proof. unfold with_ptr. by intros ->. Qed.

Lemma with_ptr_Ok m gpa len p :
  with_ptr m gpa len = Ok p <-> find_ptr (regions m) gpa len = Some p.
Proof. unfold with_ptr. destruct (find_ptr _ _ _); split; congruence. Qed.

Lemma mem_read_Ok m gpa n bs :
  mem_read m gpa n = Ok bs <->
  exists p, with_ptr m gpa (Z.of_nat n) = Ok p /\ bs = host_read (host m) p n.
Proof.
  unfold mem_read. rewrite bind_Ok. split; intros (p & ? & H); exists p;
    [by injection H as <- | by subst].
Qed.

Lemma mem_write_Ok m gpa bs m' :
  mem_write m gpa bs = Ok m' <->
  exists p, with_ptr m gpa (Z.of_nat (length bs)) = Ok p /\
            m' = mkMem (regions m) (host_write (host m) p bs).
Proof.
  unfold mem_write. rewrite bind_Ok. split; intros (p & ? & H); exists p;
    [by injection H as <- | by subst].
Qed.

Lemma mem_read_gbyte m gpa n bs :
  regions_wf (regions m) -> mem_read m gpa n = Ok bs ->
  length bs = n /\
  forall i, 0 <= i < Z.of_nat n -> gbyte m (gpa + i) = vget bs i.
Proof.
  intros Hr (p & Hp & ->)%mem_read_Ok. split; [apply length_host_read|].
  intros i Hi. unfold gbyte. apply with_ptr_Ok in Hp.
  erewrite find_ptr_sub by (done || lia). cbn.
  rewrite vget_host_read by done. do 2 f_equal. lia.
Qed.

Lemma mem_write_gbyte m gpa bs m' a :
  regions_wf (regions m) -> mem_write m gpa bs = Ok m' ->
  gbyte m' a =
  if in_range gpa (gpa + Z.of_nat (length bs)) a then vget bs (a - gpa) else gbyte m a.
Proof.
  intros Hr (p & Hp & ->)%mem_write_Ok. unfold gbyte. cbn.
  apply with_ptr_Ok in Hp. destruct (in_range gpa _ a) eqn:E.
  - apply in_range_spec in E. erewrite find_ptr_sub by (done || lia). cbn.
    rewrite hbyte_host_write, (proj2 (in_range_spec _ _ _)) by lia.
    replace (p + (a - gpa) - p) with (a - gpa) by lia.
    destruct (vget_lt bs (a - gpa)) as [x ->]; [lia|done].
  - apply in_range_false in E.
    destruct (find_ptr (regions m) a 1) as [q|] eqn:Hq; [cbn|done].
    rewrite hbyte_host_write. destruct (in_range p _ q) eqn:E2; [|done].
    apply in_range_spec in E2.
    assert (find_ptr (regions m) (gpa + (q - p)) 1 = Some q) as Hq'.
    { rewrite (find_ptr_sub _ gpa (Z.of_nat (length bs)) p) by (done || lia). f_equal. lia. }
    pose proof (find_ptr_inj _ _ _ _ Hr Hq Hq'). lia.
Qed.

(** A store below an accessible range of host memory shows only in that range. *)
Lemma gbyte_host_frame m gpa n bs p a :
  regions_wf (regions m) -> with_ptr m gpa n = Ok p -> 0 <= n -> Z.of_nat (length bs) <= n ->
  ~ (gpa <= a < gpa + n) -> gbyte (mkMem (regions m) (host_write (host m) p bs)) a = gbyte m a.
Proof.
  intros Hr Hp%with_ptr_Ok Hn Hl Ha. unfold gbyte. cbn [regions host].
  destruct (find_ptr (regions m) a 1) as [q|] eqn:Hq; [cbn|done].
  rewrite hbyte_host_write. destruct (in_range p _ q) eqn:E2; [|done].
  apply in_range_spec in E2.
  assert (find_ptr (regions m) (gpa + (q - p)) 1 = Some q) as Hq'.
  { rewrite (find_ptr_sub _ gpa n p) by (done || lia). f_equal. lia. }
  pose proof (find_ptr_inj _ _ _ _ Hr Hq Hq'). lia.
Qed.

Lemma mem_write_wf m gpa bs m' :
  mem_wf m -> bytes bs -> mem_write m gpa bs = Ok m' -> mem_wf m'.
Proof.
  intros [Hr Hh] Hb (p & Hp & ->)%mem_write_Ok. split; [done|]. by apply host_write_wf.
Qed.

Lemma mem_write_regions m gpa bs m' : mem_write m gpa bs = Ok m' -> regions m' = regions m.
Proof. by intros (p & Hp & ->)%mem_write_Ok. Qed.

(** ** Memories that show the guest the same bytes

    The host bytes outside every region are invisible; [m ≡ m'] identifies
    memories with the same regions and the same guest bytes. *)

#[export] Instance mem_equiv : Equiv GuestMemory := fun m m' =>
  regions m = regions m' /\ forall a, gbyte m a = gbyte m' a.

#[export] Instance mem_equivalence : Equivalence (≡@{GuestMemory}).
Proof.
  split.
  - by intros m.
  - intros m m' [Hr Hb]. split; [done|]. intros a. by rewrite Hb.
  - intros m1 m2 m3 [Hr Hb] [Hr' Hb']. split; [congruence|]. intros a. by rewrite Hb.
Qed.

(** A read is determined by the regions and the bytes it covers. *)
Lemma mem_read_ext m m' gpa n :
  regions_wf (regions m) -> regions m = regions m' ->
  (forall i, 0 <= i < Z.of_nat n -> gbyte m (gpa + i) = gbyte m' (gpa + i)) ->
  mem_read m gpa n = mem_read m' gpa n.
Proof.
  intros Hwf Hr Hb. assert (regions_wf (regions m')) as Hwf' by (by rewrite <- Hr).
  destruct (with_ptr m gpa (Z.of_nat n)) as [p| | |] eqn:Hp;
    pose proof (eq_trans (with_ptr_regions m m' gpa (Z.of_nat n) (eq_sym Hr)) Hp) as Hp'.
  2-4: unfold mem_read; by rewrite Hp, Hp'.
  assert (mem_read m gpa n = Ok (host_read (host m) p n)) as E by (apply mem_read_Ok; eauto).
  assert (mem_read m' gpa n = Ok (host_read (host m') p n)) as E' by (apply mem_read_Ok; eauto).
  rewrite E, E'. f_equal. apply vget_ext; [by rewrite !length_host_read|].
  rewrite length_host_read. intros i Hi.
  destruct (mem_read_gbyte _ _ _ _ Hwf E) as [_ H1].
  destruct (mem_read_gbyte _ _ _ _ Hwf' E') as [_ H2].
  by rewrite <- H1, <- H2, Hb.
Qed.

(** A write leaves every read outside the written range as it was. *)
Lemma mem_read_frame m gpa bs m' a n :
  regions_wf (regions m) -> mem_write m gpa bs = Ok m' ->
  a + Z.of_nat n <= gpa \/ gpa + Z.of_nat (length bs) <= a ->
  mem_read m' a n = mem_read m a n.
Proof.
  intros Hwf Hw Hd. pose proof (mem_write_regions _ _ _ _ Hw) as Hr. apply mem_read_ext.
  - by rewrite Hr.
  - done.
  - intros i Hi. rewrite (mem_write_gbyte m gpa bs m') by done.
    by rewrite (proj2 (in_range_false _ _ _)) by lia.
Qed.

(** Reading back what was written. *)
Lemma mem_read_back m gpa bs m' :
  mem_write m gpa bs = Ok m' -> mem_read m' gpa (length bs) = Ok bs.
Proof.
  intros (p & Hp & ->)%mem_write_Ok. apply mem_read_Ok. exists p. split; [done|].
  cbn. apply vget_ext; rewrite ?length_host_read; [done|]. intros i Hi.
  rewrite vget_host_read by done. rewrite hbyte_host_write.
  rewrite (proj2 (in_range_spec _ _ _)) by lia.
  replace (p + i - p) with i by lia. destruct (vget_lt bs i) as [x ->]; done.
Qed.

Lemma read_u16_frame m gpa bs m' a :
  regions_wf (regions m) -> mem_write m gpa bs = Ok m' ->
  a + 2 <= gpa \/ gpa + Z.of_nat (length bs) <= a -> read_u16 m' a = read_u16 m a.
Proof. intros. unfold read_u16. by erewrite mem_read_frame by (done || lia). Qed.

Lemma read_u32_frame m gpa bs m' a :
  regions_wf (regions m) -> mem_write m gpa bs = Ok m' ->
  a + 4 <= gpa \/ gpa + Z.of_nat (length bs) <= a -> read_u32 m' a = read_u32 m a.
Proof. intros. unfold read_u32. by erewrite mem_read_frame by (done || lia). Qed.

Lemma read_u64_frame m gpa bs m' a :
  regions_wf (regions m) -> mem_write m gpa bs = Ok m' ->
  a + 8 <= gpa \/ gpa + Z.of_nat (length bs) <= a -> read_u64 m' a = read_u64 m a.
Proof. intros. unfold read_u64. by erewrite mem_read_frame by (done || lia). Qed.

Lemma read_u16_back m gpa v m' : write_u16 m gpa v = Ok m' -> read_u16 m' gpa = Ok (u16 v).
Proof.
  intros H%mem_read_back. rewrite length_le_bytes in H. unfold read_u16.
  rewrite H. cbn -[le_val le_bytes]. by rewrite le_val_bytes.
Qed.

Lemma read_u32_back m gpa v m' : write_u32 m gpa v = Ok m' -> read_u32 m' gpa = Ok (u32 v).
Proof.
  intros H%mem_read_back. rewrite length_le_bytes in H. unfold read_u32.
  rewrite H. cbn -[le_val le_bytes]. by rewrite le_val_bytes.
Qed.

Lemma read_u64_back m gpa v m' : write_u64 m gpa v = Ok m' -> read_u64 m' gpa = Ok (u64 v).
Proof.
  intros H%mem_read_back. rewrite length_le_bytes in H. unfold read_u64.
  rewrite H. cbn -[le_val le_bytes]. by rewrite le_val_bytes.
Qed.

(** ** Accesses inside an accessible range *)

Lemma mem_read_within m gpa len p a n :
  regions_wf (regions m) -> with_ptr m gpa len = Ok p -> 0 <= len -> (0 < n)%nat ->
  gpa <= a -> a + Z.of_nat n <= gpa + len -> exists bs, mem_read m a n = Ok bs.
Proof.
  intros Hr Hp%with_ptr_Ok ? ? ? ?. eexists. apply mem_read_Ok. eexists. split; [|done].
  apply with_ptr_Ok. eapply find_ptr_sub; (done || lia).
Qed.

Lemma mem_write_within m gpa len p a bs :
  regions_wf (regions m) -> with_ptr m gpa len = Ok p -> 0 <= len -> (0 < length bs)%nat ->
  gpa <= a -> a + Z.of_nat (length bs) <= gpa + len -> exists m', mem_write m a bs = Ok m'.
Proof.
  intros Hr Hp%with_ptr_Ok ? ? ? ?. eexists. apply mem_write_Ok. eexists. split; [|done].
  apply with_ptr_Ok. eapply find_ptr_sub; (done || lia).
Qed.

(** ** Integer reads *)

Lemma mem_read_bytes m gpa n bs : mem_wf m -> mem_read m gpa n = Ok bs -> bytes bs.
Proof. intros [_ Hh] (p & _ & ->)%mem_read_Ok. by apply host_read_bytes. Qed.

Lemma mem_read_length m gpa n bs : mem_read m gpa n = Ok bs -> length bs = n.
Proof. intros (p & _ & ->)%mem_read_Ok. apply length_host_read. Qed.

Lemma le_read_range m gpa n bs :
  mem_wf m -> mem_read m gpa n = Ok bs -> 0 <= le_val bs < 2 ^ (8 * Z.of_nat n).
Proof.
  intros Hwf H. rewrite <- (mem_read_length _ _ _ _ H).
  apply le_val_range. by eapply mem_read_bytes.
Qed.

Lemma read_u16_range m gpa v : mem_wf m -> read_u16 m gpa = Ok v -> is_u16 v.
Proof. intros Hwf (bs & H & [= <-])%bind_Ok. by apply (le_read_range m gpa 2). Qed.

Lemma read_u32_range m gpa v : mem_wf m -> read_u32 m gpa = Ok v -> is_u32 v.
Proof. intros Hwf (bs & H & [= <-])%bind_Ok. by apply (le_read_range m gpa 4). Qed.

Lemma read_u64_range m gpa v : mem_wf m -> read_u64 m gpa = Ok v -> is_u64 v.
Proof. intros Hwf (bs & H & [= <-])%bind_Ok. by apply (le_read_range m gpa 8). Qed.

(** ** Accesses settle: they return [Ok] or [Err], never an abort *)

Lemma mem_read_settles m gpa n : settles (mem_read m gpa n).
Proof. unfold mem_read, with_ptr. by destruct (find_ptr _ _ _). Qed.

Lemma mem_write_settles m gpa bs : settles (mem_write m gpa bs).
Proof. unfold mem_write, with_ptr. by destruct (find_ptr _ _ _). Qed.

Lemma read_u16_settles m gpa : settles (read_u16 m gpa).
Proof. apply settles_bind; [apply mem_read_settles | done]. Qed.
Lemma read_u32_settles m gpa : settles (read_u32 m gpa).
Proof. apply settles_bind; [apply mem_read_settles | done]. Qed.
Lemma read_u64_settles m gpa : settles (read_u64 m gpa).
Proof. apply settles_bind; [apply mem_read_settles | done]. Qed.

#[export] Hint Resolve mem_read_settles mem_write_settles read_u16_settles
  read_u32_settles read_u64_settles : gimbal.

(** ** Properties of guest memory *)

(** C2: on a well-formed memory a non-empty range is granted exactly when one
    registered region holds all of it, and the pointer handed out is that
    region's host pointer advanced by the offset; every other access is
    refused with the address and length that were asked for. *)
Theorem with_ptr_confined m gpa len :
  mem_wf m -> 0 < len ->
  (forall p, with_ptr m gpa len = Ok p <->
     exists r, r ∈ regions m /\ r_gpa r <= gpa /\ gpa + len <= r_gpa r + r_size r /\
               p = r_ptr r + (gpa - r_gpa r)) /\
  ((forall r, r ∈ regions m -> ~ (r_gpa r <= gpa /\ gpa + len <= r_gpa r + r_size r)) ->
   with_ptr m gpa len = Err (mkMemErr gpa len)).
Proof.
  intros [Hr _] Hlen. split.
  - intros p. rewrite with_ptr_Ok. split.
    + intros H. apply find_ptr_Some in H; [done|done|lia].
    + intros (r & Hin & ? & ? & ->). by apply find_ptr_intro.
  - intros Hno. unfold with_ptr. destruct (find_ptr (regions m) gpa len) eqn:E; [|done].
    apply find_ptr_Some in E as (r & Hin & ? & ? & _); [|done|lia].
    exfalso. by apply (Hno r Hin).
Qed.

Definition demo_mem : GuestMemory :=
  register (register mem_new 4096 0 4096) 65536 8192 4096.

Lemma demo_mem_wf : mem_wf demo_mem.
Proof.
  split; [|apply map_Forall_empty].
  repeat constructor; cbn; lia.
Qed.

Lemma with_ptr_confined_witness :
  with_ptr demo_mem 65540 8 = Ok 8196.
Proof.
  apply (proj1 (with_ptr_confined demo_mem 65540 8 demo_mem_wf ltac:(lia)) 8196).
  exists (mkRegion 65536 8192 4096). split; [|cbn; lia].
  right. left.
Defined.

(** A write to guest memory is a pointwise update of the guest's bytes: it
    keeps the memory well-formed and its regions unchanged, replaces exactly
    the bytes of the written range, reads back what was written, and leaves
    every read of other addresses as it was. *)
Theorem mem_write_pointwise m gpa bs m' :
  mem_wf m -> bytes bs -> mem_write m gpa bs = Ok m' ->
  mem_wf m' /\ regions m' = regions m /\
  (forall a, gbyte m' a =
     if in_range gpa (gpa + Z.of_nat (length bs)) a then vget bs (a - gpa) else gbyte m a) /\
  mem_read m' gpa (length bs) = Ok bs /\
  (forall a n, a + Z.of_nat n <= gpa \/ gpa + Z.of_nat (length bs) <= a ->
     mem_read m' a n = mem_read m a n).
Proof.
  intros Hwf Hb Hw. split_and!.
  - by eapply mem_write_wf.
  - by eapply mem_write_regions.
  - intros a. by apply mem_write_gbyte; [apply Hwf|].
  - by eapply mem_read_back.
  - intros. by eapply mem_read_frame; [apply Hwf|..].
Qed.

Lemma mem_write_pointwise_witness :
  exists m', mem_write demo_mem 4100 [1; 2; 3] = Ok m' /\ mem_read m' 4100 3 = Ok [1; 2; 3].
Proof.
  eexists. split; [reflexivity|].
  apply (mem_write_pointwise demo_mem 4100 [1; 2; 3] _ demo_mem_wf);
    [repeat constructor; cbn; lia | reflexivity].
Defined.

(** The bound on a region's end is needed. For a region that ends on the
    last [u64] address the saturating sum of the bounds check stops growing,
    and a range of any length starting inside the region is granted. *)
Theorem saturating_check_admits_any_length :
  forall len, 0 <= len < 2 ^ 64 ->
  with_ptr (register mem_new (2 ^ 64 - 17) 0 16) (2 ^ 64 - 17) len = Ok 0.
Proof.
  intros len Hlen. unfold with_ptr, register, mem_new. cbn [regions app find_ptr].
  unfold region_hit. cbn [r_gpa r_size r_ptr].
  rewrite (proj2 (Z.leb_le _ _)), (proj2 (Z.leb_le _ _)); [by rewrite Z.sub_diag| |lia].
  change (u64 (2 ^ 64 - 17 + 16)) with (2 ^ 64 - 1). unfold sat_add64. lia.
Qed.

Lemma saturating_check_admits_any_length_witness :
  with_ptr (register mem_new (2 ^ 64 - 17) 0 16) (2 ^ 64 - 17) (2 ^ 40) = Ok 0.
Proof. apply saturating_check_admits_any_length. lia. Defined.

(** ** Building a memory for an example *)

Definition poke (m : GuestMemory) (ws : list (Z * list Z)) : GuestMemory :=
  foldl (fun m w => match mem_write m (fst w) (snd w) with Ok m' => m' | _ => m end) m ws.

Lemma poke_wf m ws :
  mem_wf m -> forallb (fun w => bytesb (snd w)) ws = true -> mem_wf (poke m ws).
Proof.
  revert m. induction ws as [|w ws IH]; intros m Hm Hw; [done|].
  cbn in Hw. apply andb_true_iff in Hw as [Hw Hws].
  cbn. apply IH; [|done]. destruct (mem_write m w.1 w.2) eqn:E; try done.
  eapply mem_write_wf; [done| |done]. by apply bytesb_bytes.
Qed.
