(* ===== verification/VirtQueue.v ===== *)
(** * The split virtqueue (hypervisor/src/hvf/virtio/queue.rs)

    The engine that pops descriptor chains off the available ring, appends
    completions to the used ring and decides about interrupts and
    notifications, over the rings in guest memory. Cursors are [u16] and wrap;
    guest addresses are [u64] and wrap. [steps] of the chain walks is kept at
    the width the code gives it, which is what decides whether a walk ends. *)

From Stdlib Require Import ZArith Lia Bool.
From stdpp Require Import base numbers list list_numbers gmap option.
From S2P Require Import Prelude GuestMem.

(** ** Data *)

Definition VIRTQ_DESC_F_NEXT : Z := 1.
Definition VIRTQ_DESC_F_WRITE : Z := 2.
Definition VIRTQ_DESC_F_INDIRECT : Z := 4.
Definition DESC_SIZE : Z := 16.

Record Segment := mkSeg {
  seg_gpa : Z;
  seg_len : Z;
  seg_write : bool;
}.

#[export] Instance Segment_eq_dec : EqDecision Segment.
Proof. solve_decision. Defined.

Record DescChain := mkChain {
  head : Z;
  segments : list Segment;
}.

#[export] Instance DescChain_eq_dec : EqDecision DescChain.
Proof. solve_decision. Defined.

(** [filter(|s| !s.write)] and [filter(|s| s.write)]. *)
Definition readable (c : DescChain) : list Segment :=
  filter (fun s => seg_write s = false) (segments c).
Definition writable (c : DescChain) : list Segment :=
  filter (fun s => seg_write s = true) (segments c).

(** [u32] sum of the writable lengths, wrapping. *)
Definition writable_len (c : DescChain) : Z :=
  foldl (fun acc s => u32 (acc + seg_len s)) 0 (writable c).

Record Queue := mkQueue {
  q_size : Z;
  q_desc : Z;
  q_avail : Z;
  q_used : Z;
  q_event_idx : bool;
  q_indirect : bool;
  next_avail : Z;
  next_used : Z;
}.

#[export] Instance Queue_eq_dec : EqDecision Queue.
Proof. solve_decision. Defined.

Definition queue_default : Queue := mkQueue 0 0 0 0 false false 0 0.

Definition set_next_avail (q : Queue) (i : Z) : Queue :=
  mkQueue (q_size q) (q_desc q) (q_avail q) (q_used q) (q_event_idx q) (q_indirect q)
    i (next_used q).
Definition set_next_used (q : Queue) (i : Z) : Queue :=
  mkQueue (q_size q) (q_desc q) (q_avail q) (q_used q) (q_event_idx q) (q_indirect q)
    (next_avail q) i.

(** ** Reading the rings *)

Definition max_chain (q : Queue) : Z := q_size q.
Definition max_indirect (q : Queue) : Z := Z.max (sat_mul16 (q_size q) 4) 256.

Definition avail_idx (q : Queue) (m : GuestMemory) : res GuestMemError Z :=
  read_u16 m (u64 (q_avail q + 2)).

(** [i % self.size] panics on an empty queue. *)
Definition avail_ring (q : Queue) (m : GuestMemory) (i : Z) : res GuestMemError Z :=
  if q_size q =? 0 then Panic
  else read_u16 m (u64 (q_avail q + (4 + 2 * (i mod q_size q)))).

Definition read_desc (m : GuestMemory) (table index : Z) :
    res GuestMemError (Z * Z * Z * Z) :=
  let base := u64 (table + DESC_SIZE * index) in
  addr ← read_u64 m base;
  len ← read_u32 m (u64 (base + 8));
  flags ← read_u16 m (u64 (base + 12));
  next ← read_u16 m (u64 (base + 14));
  Ok (addr, len, flags, next).

Definition has_flag (flags f : Z) : bool := negb (Z.land flags f =? 0).

Definition desc_seg (addr len flags : Z) : Segment :=
  mkSeg addr len (has_flag flags VIRTQ_DESC_F_WRITE).

(** ** Walking a chain *)

(** The loop of [expand_indirect]; [index], [count] and [steps] are [u16]. *)
Fixpoint expand_loop (fuel : nat) (q : Queue) (m : GuestMemory) (table count : Z)
    (index steps : Z) (segs : list Segment) : res GuestMemError (list Segment) :=
  match fuel with
  | O => NoFuel
  | S fuel =>
      if (count <=? index) || (max_indirect q <? steps) then Ok segs
      else
        '(addr, dlen, flags, next) ← read_desc m table index;
        let segs := segs ++ [desc_seg addr dlen flags] in
        if has_flag flags VIRTQ_DESC_F_NEXT
        then expand_loop fuel q m table count next (u16 (steps + 1)) segs
        else Ok segs
  end.

Definition expand_indirect (fuel : nat) (q : Queue) (m : GuestMemory) (table len : Z)
    (segs : list Segment) : res GuestMemError (list Segment) :=
  expand_loop fuel q m table (u16 (len / DESC_SIZE)) 0 0 segs.

(** The loop of [collect_chain]; [index] is [u16] and [steps] is [u32]. *)
Fixpoint collect_loop (fuel : nat) (q : Queue) (m : GuestMemory)
    (index steps : Z) (segs : list Segment) : res GuestMemError (list Segment) :=
  match fuel with
  | O => NoFuel
  | S fuel' =>
      if (q_size q <=? index) || (max_chain q <? steps) then Ok segs
      else
        '(addr, len, flags, next) ← read_desc m (q_desc q) index;
        segs ← (if has_flag flags VIRTQ_DESC_F_INDIRECT
                then expand_indirect fuel q m addr len segs
                else Ok (segs ++ [desc_seg addr len flags]));
        if has_flag flags VIRTQ_DESC_F_NEXT
        then collect_loop fuel' q m next (u32 (steps + 1)) segs
        else Ok segs
  end.

Definition collect_chain (fuel : nat) (q : Queue) (m : GuestMemory) (head : Z) :
    res GuestMemError (list Segment) :=
  collect_loop fuel q m head 0 [].

(** ** The operations of the engine *)

(** [pop]; on [Err] the queue is left as it was. *)
Definition pop (fuel : nat) (q : Queue) (m : GuestMemory) :
    res GuestMemError (option DescChain * Queue) :=
  idx ← avail_idx q m;
  if next_avail q =? idx then Ok (None, q)
  else
    head ← avail_ring q m (next_avail q);
    segs ← collect_chain fuel q m head;
    Ok (Some (mkChain head segs), set_next_avail q (u16 (next_avail q + 1))).

(** [add_used]: the state reached is kept when a later write fails. *)
Definition add_used (head len : Z) : io (Queue * GuestMemory) GuestMemError unit :=
  '(q, m) ← io_get;
  if q_size q =? 0 then io_read (fun _ => Panic)
  else
    let slot := next_used q mod q_size q in
    let elem := u64 (q_used q + 4 + 8 * slot) in
    _ ← io_update (fun '(q, m) => m ← write_u32 m elem head; Ok (q, m));
    _ ← io_update (fun '(q, m) => m ← write_u32 m (u64 (elem + 4)) len; Ok (q, m));
    _ ← io_modify (fun '(q, m) => (set_next_used q (u16 (next_used q + 1)), m));
    io_update (fun '(q, m) =>
      m ← write_u16 m (u64 (q_used q + 2)) (next_used q); Ok (q, m)).

(** [vring_need_event(event, new, old)] over wrapping [u16] indices. *)
Definition need_event (event new old : Z) : bool :=
  u16 (u16 (new - event) - 1) <? u16 (new - old).

Definition needs_interrupt (q : Queue) (m : GuestMemory) (old_used new_used : Z) :
    res GuestMemError bool :=
  if q_event_idx q then
    used_event ← read_u16 m (u64 (q_avail q + 4 + 2 * q_size q));
    Ok (need_event used_event new_used old_used)
  else
    avail_flags ← read_u16 m (q_avail q);
    Ok (Z.land avail_flags 1 =? 0).

Definition arm_notification (q : Queue) (m : GuestMemory) : res GuestMemError GuestMemory :=
  if q_event_idx q then
    write_u16 m (u64 (q_used q + 4 + 8 * q_size q)) (next_avail q)
  else
    flags ← read_u16 m (q_used q);
    write_u16 m (q_used q) (Z.land flags (not_w 16 1)).

Definition has_pending (q : Queue) (m : GuestMemory) : res GuestMemError bool :=
  idx ← avail_idx q m; Ok (negb (next_avail q =? idx)).

Definition restore (q : Queue) (m : GuestMemory) : res GuestMemError Queue :=
  used ← read_u16 m (u64 (q_used q + 2));
  Ok (set_next_avail (set_next_used q used) used).

Definition avail_idx_value (q : Queue) (m : GuestMemory) : res GuestMemError Z := avail_idx q m.
Definition used_idx_value (q : Queue) (m : GuestMemory) : res GuestMemError Z :=
  read_u16 m (u64 (q_used q + 2)).

(** ** Well-formedness *)

Definition queue_wf (q : Queue) : Prop :=
  is_u16 (q_size q) /\ is_u64 (q_desc q) /\ is_u64 (q_avail q) /\ is_u64 (q_used q) /\
  is_u16 (next_avail q) /\ is_u16 (next_used q).

(** ** The walks settle *)

Lemma read_desc_settles m table index : settles (read_desc m table index).
Proof.
  unfold read_desc. repeat (apply settles_bind; [eauto with gimbal|intros ? _]). done.
Qed.

Lemma read_desc_Ok m table index a l f n :
  read_desc m table index = Ok (a, l, f, n) <->
  let base := u64 (table + DESC_SIZE * index) in
  read_u64 m base = Ok a /\ read_u32 m (u64 (base + 8)) = Ok l /\
  read_u16 m (u64 (base + 12)) = Ok f /\ read_u16 m (u64 (base + 14)) = Ok n.
Proof.
  cbv zeta. unfold read_desc. split.
  - intros (? & ? & (? & ? & (? & ? & (? & ? & [= -> -> -> ->])%bind_Ok)%bind_Ok)%bind_Ok)%bind_Ok.
    by split_and!.
  - intros (-> & H2 & H3 & H4). cbn. rewrite H2. cbn. rewrite H3. cbn. by rewrite H4.
Qed.

Lemma read_desc_range m table index a l f n :
  mem_wf m -> read_desc m table index = Ok (a, l, f, n) ->
  is_u64 a /\ is_u32 l /\ is_u16 f /\ is_u16 n.
Proof.
  intros Hwf (? & ? & ? & ?)%read_desc_Ok.
  split_and!; [by eapply read_u64_range | by eapply read_u32_range | by eapply read_u16_range ..].
Qed.

#[export] Hint Resolve read_desc_settles : gimbal.

(** Below 16384 entries the walk's [u16] step counter passes [max_indirect]
    before it wraps. *)
Lemma max_indirect_small q : 0 <= q_size q < 16384 -> 256 <= max_indirect q < 65535.
Proof. unfold max_indirect. word_lia. Qed.

Lemma expand_loop_settles fuel q m table count index steps segs :
  max_indirect q < 65535 -> 0 <= steps <= max_indirect q + 1 ->
  max_indirect q + 1 - steps < Z.of_nat fuel ->
  settles (expand_loop fuel q m table count index steps segs).
Proof.
  intros Hm. revert index steps segs. induction fuel as [|fuel IH]; intros index steps segs Hs Hf;
    [lia|]. cbn [expand_loop].
  destruct (_ || _) eqn:E; [done|]. apply orb_false_iff in E as [_ E]. apply Z.ltb_ge in E.
  apply settles_bind; [eauto with gimbal|]. intros [[[a l] f] n] _.
  destruct (has_flag f _); [|done]. unfold u16. rewrite Z.mod_small by lia.
  apply IH; lia.
Qed.

Lemma collect_loop_settles fuel q m index steps segs :
  0 <= q_size q < 16384 -> 0 <= steps <= q_size q + 1 ->
  q_size q + 1 - steps + (max_indirect q + 1) < Z.of_nat fuel ->
  settles (collect_loop fuel q m index steps segs).
Proof.
  intros Hq. revert index steps segs. induction fuel as [|fuel IH];
    intros index steps segs Hs Hf; pose proof (max_indirect_small q Hq); [lia|].
  cbn [collect_loop].
  destruct (_ || _) eqn:E; [done|]. apply orb_false_iff in E as [_ E].
  apply Z.ltb_ge in E. unfold max_chain in E.
  apply settles_bind; [eauto with gimbal|]. intros [[[a l] f] n] _.
  apply settles_bind.
  - destruct (has_flag f _); [|done]. apply expand_loop_settles; lia.
  - intros segs' _. destruct (has_flag f _); [|done].
    unfold u32. rewrite Z.mod_small by lia. apply IH; lia.
Qed.

(** The fuel that any walk of a queue of fewer than 16384 entries stays within. *)
Definition walk_fuel : Z := 2 ^ 17.

Lemma avail_ring_settles q m i : q_size q <> 0 -> settles (avail_ring q m i).
Proof. intros H. unfold avail_ring. rewrite (proj2 (Z.eqb_neq _ _) H). eauto with gimbal. Qed.

Lemma pop_settles_gen fuel q m :
  0 < q_size q < 16384 -> walk_fuel <= Z.of_nat fuel -> settles (pop fuel q m).
Proof.
  intros Hq Hf. unfold pop, avail_idx. apply settles_bind; [eauto with gimbal|].
  intros idx _. destruct (_ =? _); [done|].
  apply settles_bind; [apply avail_ring_settles; lia|]. intros h _.
  apply settles_bind; [|done]. pose proof (max_indirect_small q ltac:(lia)).
  apply collect_loop_settles; [lia|lia|]. change walk_fuel with 131072 in Hf. lia.
Qed.

(** From 16384 entries on, [max_indirect] is [u16::MAX] and the wrapping step
    counter never exceeds it, so a self-linked table is walked for ever. *)
Lemma expand_loop_runs_on fuel q m table count steps segs a l f :
  16384 <= q_size q -> 0 < count -> is_u16 steps ->
  read_desc m table 0 = Ok (a, l, f, 0) -> has_flag f VIRTQ_DESC_F_NEXT = true ->
  expand_loop fuel q m table count 0 steps segs = NoFuel.
Proof.
  intros Hq Hc Hs Hd Hf. revert steps segs Hs.
  induction fuel as [|fuel IH]; intros steps segs Hs; [done|]. cbn [expand_loop].
  assert (max_indirect q = 65535) as Hm by (unfold max_indirect; word_lia).
  rewrite (proj2 (Z.leb_gt _ _)), Hm, (proj2 (Z.ltb_ge _ _)) by word_lia. cbn [orb].
  rewrite Hd. cbn [mbind res_bind_inst]. rewrite Hf. apply IH. apply (wrap_range 16). lia.
Qed.

(** ** Chains as the driver posts them *)

(** Entry [i] of the descriptor table at [table], field by field at the offsets
    of the virtio layout: address, length, flags, next. *)
Definition desc_at (m : GuestMemory) (table i a l f n : Z) : Prop :=
  let base := u64 (table + 16 * i) in
  read_u64 m base = Ok a /\ read_u32 m (u64 (base + 8)) = Ok l /\
  read_u16 m (u64 (base + 12)) = Ok f /\ read_u16 m (u64 (base + 14)) = Ok n.

(** The descriptors reached from [i] by following [next] links in a table of
    [bound] entries, ending at the first one without [NEXT]. *)
Inductive linked (m : GuestMemory) (table bound : Z) : Z -> list (Z * Z * Z) -> Prop :=
| linked_last i a l f n :
    i < bound -> desc_at m table i a l f n ->
    has_flag f VIRTQ_DESC_F_NEXT = false ->
    linked m table bound i [(a, l, f)]
| linked_next i a l f n ds :
    i < bound -> desc_at m table i a l f n ->
    has_flag f VIRTQ_DESC_F_NEXT = true ->
    linked m table bound n ds ->
    linked m table bound i ((a, l, f) :: ds).

Definition plain (d : Z * Z * Z) : Segment := let '(a, l, f) := d in desc_seg a l f.

(** What one descriptor of the queue's own table contributes to the chain: its
    buffer, or the buffers of the indirect table it points at. *)
Definition contributes (q : Queue) (m : GuestMemory) (d : Z * Z * Z) (segs : list Segment) : Prop :=
  let '(a, l, f) := d in
  if has_flag f VIRTQ_DESC_F_INDIRECT then
    exists ds, linked m a (u16 (l / DESC_SIZE)) 0 ds /\
               Z.of_nat (length ds) <= max_indirect q + 1 /\ segs = plain <$> ds
  else segs = [desc_seg a l f].

Lemma expand_loop_linked fuel q m table count index steps segs ds :
  linked m table count index ds ->
  max_indirect q <= 65535 -> 0 <= steps ->
  steps + Z.of_nat (length ds) <= max_indirect q + 1 ->
  (length ds <= fuel)%nat ->
  expand_loop fuel q m table count index steps segs = Ok (segs ++ (plain <$> ds)).
Proof.
  intros Hl Hm. revert fuel steps segs.
  induction Hl as [i a l f n Hi Hd%read_desc_Ok Hf | i a l f n ds Hi Hd%read_desc_Ok Hf Hl IH];
    intros [|fuel] steps segs Hs Hb Hle; cbn [length] in *; try lia;
    cbn [expand_loop]; rewrite (proj2 (Z.leb_gt _ _)), (proj2 (Z.ltb_ge _ _)) by lia;
    cbn [orb]; rewrite Hd; cbn [mbind res_bind_inst]; rewrite Hf; [done|].
  destruct Hl; cbn [length] in *; unfold u16; rewrite Z.mod_small by lia;
    rewrite IH by (cbn [length]; lia); cbn; by rewrite <- app_assoc.
Qed.

Lemma collect_loop_linked fuel q m index steps segs ds segss :
  linked m (q_desc q) (q_size q) index ds -> Forall2 (contributes q m) ds segss ->
  0 <= q_size q <= 65535 -> 0 <= steps ->
  steps + Z.of_nat (length ds) <= q_size q + 1 ->
  Z.of_nat (length ds) + (max_indirect q + 1) <= Z.of_nat fuel ->
  collect_loop fuel q m index steps segs = Ok (segs ++ concat segss).
Proof.
  intros Hl Hc Hq. revert fuel steps segs segss Hc.
  assert (256 <= max_indirect q <= 65535) as Hm by (unfold max_indirect; word_lia).
  assert (forall fuel a l f c segs, contributes q m (a, l, f) c ->
    max_indirect q + 1 <= Z.of_nat fuel ->
    (if has_flag f VIRTQ_DESC_F_INDIRECT then expand_indirect fuel q m a l segs
     else Ok (segs ++ [desc_seg a l f])) = Ok (segs ++ c)) as Hone.
  { intros fuel a l f c segs Hc Hf. unfold contributes in Hc.
    destruct (has_flag f VIRTQ_DESC_F_INDIRECT); [|by subst c].
    destruct Hc as (ds' & Hl' & Hlen & ->). apply expand_loop_linked; (done || lia). }
  induction Hl as [i a l f n Hi Hd%read_desc_Ok Hf | i a l f n ds Hi Hd%read_desc_Ok Hf Hl IH];
    intros [|fuel] steps segs segss Hc Hs Hb Hle; cbn [length] in *; try lia;
    apply Forall2_cons_inv_l in Hc as (c & segss' & Hc & Hcs & ->);
    cbn [collect_loop]; unfold max_chain;
    rewrite (proj2 (Z.leb_gt _ _)), (proj2 (Z.ltb_ge _ _)) by lia;
    cbn [orb]; rewrite Hd; cbn [mbind res_bind_inst]; rewrite (Hone _ _ _ _ c) by (done || lia);
    cbn [mbind res_bind_inst]; rewrite Hf.
  - apply Forall2_nil_inv_l in Hcs as ->. cbn. by rewrite app_nil_r.
  - unfold u32. rewrite Z.mod_small by lia. rewrite (IH _ _ _ segss') by (done || lia).
    cbn. by rewrite <- app_assoc.
Qed.

(** ** The window of an event index *)

Lemma need_event_window e new old :
  is_u16 e -> is_u16 new -> is_u16 old ->
  need_event e new old = true <-> exists j, 0 <= j < u16 (new - old) /\ e = u16 (old + j).
Proof.
  intros He Hn Ho. unfold need_event. rewrite Z.ltb_lt. split.
  - intros H. exists (u16 (e - old)). word_lia.
  - intros (j & Hj & ->). word_lia.
Qed.

Lemma need_event_empty e i : is_u16 e -> is_u16 i -> need_event e i i = false.
Proof.
  intros. apply not_true_iff_false. rewrite need_event_window by done.
  intros (j & ? & _). word_lia.
Qed.

(** ** Publishing a completion *)

Lemma write_u16_within m gpa len p a v :
  regions_wf (regions m) -> with_ptr m gpa len = Ok p -> 0 <= len -> gpa <= a -> a + 2 <= gpa + len ->
  exists m', write_u16 m a v = Ok m'.
Proof.
  intros. eapply mem_write_within; try done; rewrite length_le_bytes; lia.
Qed.

Lemma write_u32_within m gpa len p a v :
  regions_wf (regions m) -> with_ptr m gpa len = Ok p -> 0 <= len -> gpa <= a -> a + 4 <= gpa + len ->
  exists m', write_u32 m a v = Ok m'.
Proof.
  intros. eapply mem_write_within; try done; rewrite length_le_bytes; lia.
Qed.

Lemma with_ptr_end m gpa len p :
  regions_wf (regions m) -> 0 <= len -> with_ptr m gpa len = Ok p -> 0 <= gpa /\ gpa + len < 2 ^ 64 - 1.
Proof.
  intros Hr Hl H%with_ptr_Ok.
  apply find_ptr_Some in H as (r & Hin & ? & ? & _); [|done..].
  enough (region_wf r) as (?&?&?) by lia. clear -Hr Hin.
  induction Hr; [inversion Hin|]. apply elem_of_cons in Hin as [->|]; auto.
Qed.

Definition used_elem (q : Queue) : Z := q_used q + 4 + 8 * (next_used q mod q_size q).

Lemma add_used_spec q m head len p :
  regions_wf (regions m) -> queue_wf q -> 0 < q_size q ->
  with_ptr m (q_used q) (4 + 8 * q_size q) = Ok p ->
  exists m',
    add_used head len (q, m) = (Ok tt, (set_next_used q (u16 (next_used q + 1)), m')) /\
    (mem_wf m -> mem_wf m') /\ regions m' = regions m /\
    read_u32 m' (used_elem q) = Ok (u32 head) /\
    read_u32 m' (used_elem q + 4) = Ok (u32 len) /\
    read_u16 m' (q_used q + 2) = Ok (u16 (next_used q + 1)) /\
    forall a, ~ (q_used q + 2 <= a < q_used q + 4) -> ~ (used_elem q <= a < used_elem q + 8) ->
      gbyte m' a = gbyte m a.
Proof.
  intros Hwf (Hsz & _ & _ & Hu & _ & Hnu) Hpos Hp.
  assert (0 <= 4 + 8 * q_size q) as Hlen by lia.
  pose proof (with_ptr_end _ _ _ _ Hwf Hlen Hp) as [_ Hend].
  pose proof (Z.mod_pos_bound (next_used q) (q_size q) Hpos) as Hslot.
  unfold used_elem. set (slot := next_used q mod q_size q) in *.
  set (elem := q_used q + 4 + 8 * slot).
  assert (u64 elem = elem) as Ee by (apply Z.mod_small; unfold is_u64 in Hu; unfold elem; lia).
  assert (u64 (elem + 4) = elem + 4) as Ee4
    by (apply Z.mod_small; unfold is_u64 in Hu; unfold elem; lia).
  assert (u64 (q_used q + 2) = q_used q + 2) as Eu2
    by (apply Z.mod_small; unfold is_u64 in Hu; lia).
  destruct (write_u32_within m (q_used q) _ p elem head Hwf Hp Hlen) as [m1 H1];
    [unfold elem; lia..|].
  pose proof (mem_write_regions _ _ _ _ H1) as Hr1.
  assert (regions_wf (regions m1)) as Hwf1 by (by rewrite Hr1).
  rewrite <- (with_ptr_regions m m1) in Hp by done.
  destruct (write_u32_within m1 (q_used q) _ p (elem + 4) len Hwf1 Hp Hlen) as [m2 H2];
    [unfold elem; lia..|].
  pose proof (mem_write_regions _ _ _ _ H2) as Hr2.
  assert (regions_wf (regions m2)) as Hwf2 by (by rewrite Hr2).
  rewrite <- (with_ptr_regions m1 m2) in Hp by done.
  destruct (write_u16_within m2 (q_used q) _ p (q_used q + 2) (u16 (next_used q + 1)) Hwf2 Hp
    Hlen) as [m3 H3]; [lia..|].
  pose proof (mem_write_regions _ _ _ _ H3) as Hr3.
  exists m3. split_and!.
  - unfold add_used. erewrite io_bind_ok by reflexivity. cbn beta iota.
    rewrite (proj2 (Z.eqb_neq _ _)) by lia. fold slot. fold elem. rewrite Ee, Ee4.
    erewrite io_bind_ok by (apply io_update_ok; cbn; by rewrite H1). cbn beta.
    erewrite io_bind_ok by (apply io_update_ok; cbn; by rewrite H2). cbn beta.
    erewrite io_bind_ok by reflexivity. apply io_update_ok. cbn.
    by rewrite Eu2, H3.
  - intros Hm. eapply mem_write_wf; [|apply le_bytes_bytes|exact H3].
    eapply mem_write_wf; [|apply le_bytes_bytes|exact H2].
    eapply mem_write_wf; [done|apply le_bytes_bytes|exact H1].
  - congruence.
  - rewrite (read_u32_frame m2 (q_used q + 2) _ m3) by
      (first [done | rewrite ?length_le_bytes; unfold elem; lia]).
    rewrite (read_u32_frame m1 (elem + 4) _ m2) by
      (first [done | rewrite ?length_le_bytes; unfold elem; lia]).
    by apply (read_u32_back m).
  - rewrite (read_u32_frame m2 (q_used q + 2) _ m3) by
      (first [done | rewrite ?length_le_bytes; unfold elem; lia]).
    by apply (read_u32_back m1).
  - rewrite (read_u16_back m2 _ _ m3) by done. f_equal. word_lia.
  - intros a Ha Hb.
    rewrite (mem_write_gbyte m2 _ _ m3 a Hwf2 H3), (mem_write_gbyte m1 _ _ m2 a Hwf1 H2),
      (mem_write_gbyte m _ _ m1 a Hwf H1), !length_le_bytes.
    by rewrite !(proj2 (in_range_false _ _ _)) by lia.
Qed.

Lemma read_u16_after_write m gpa v m' : is_u16 v -> write_u16 m gpa v = Ok m' -> read_u16 m' gpa = Ok v.
Proof. intros Hv H. rewrite (read_u16_back m _ v m') by done. f_equal. by apply Z.mod_small. Qed.

Lemma pop_posted fuel q m idx head ds segss :
  queue_wf q -> 0 < q_size q ->
  avail_idx q m = Ok idx -> idx <> next_avail q ->
  avail_ring q m (next_avail q) = Ok head ->
  linked m (q_desc q) (q_size q) head ds -> Z.of_nat (length ds) <= q_size q + 1 ->
  Forall2 (contributes q m) ds segss -> walk_fuel <= Z.of_nat fuel ->
  pop fuel q m =
    Ok (Some (mkChain head (concat segss)), set_next_avail q (u16 (next_avail q + 1))).
Proof.
  intros (Hsz & _) Hpos Hi Hne Hh Hl Hlen Hc Hf. unfold pop. rewrite Hi. cbn [mbind res_bind_inst].
  rewrite (proj2 (Z.eqb_neq _ _)) by congruence. rewrite Hh. cbn [mbind res_bind_inst].
  unfold collect_chain.
  assert (max_indirect q <= 65535) by (unfold max_indirect; word_lia).
  change walk_fuel with 131072 in Hf. unfold is_u16 in Hsz.
  rewrite (collect_loop_linked _ _ _ _ _ _ ds segss) by (done || lia). done.
Qed.

(** ** Properties of the virtqueue *)

Definition demo_q : Queue := mkQueue 4 4096 4352 4608 true true 0 0.

(** Descriptors 0 -> 1 -> 2, with descriptor 1 an indirect table of two
    entries; one chain made available. *)
Definition demo_qmem : GuestMemory := poke demo_mem
  [(4096, le_bytes 8 6000 ++ le_bytes 4 16 ++ le_bytes 2 1 ++ le_bytes 2 1);
   (4112, le_bytes 8 4864 ++ le_bytes 4 32 ++ le_bytes 2 5 ++ le_bytes 2 2);
   (4128, le_bytes 8 6700 ++ le_bytes 4 1 ++ le_bytes 2 2 ++ le_bytes 2 0);
   (4864, le_bytes 8 6100 ++ le_bytes 4 100 ++ le_bytes 2 3 ++ le_bytes 2 1);
   (4880, le_bytes 8 6300 ++ le_bytes 4 200 ++ le_bytes 2 2 ++ le_bytes 2 0);
   (4352, le_bytes 2 0 ++ le_bytes 2 1 ++ le_bytes 2 0)].

Lemma demo_qmem_wf : mem_wf demo_qmem.
Proof. apply poke_wf; [apply demo_mem_wf | reflexivity]. Qed.

Lemma demo_q_wf : queue_wf demo_q.
Proof. unfold queue_wf; cbn; unfold is_u16, is_u64; lia. Qed.

(** C35: for every guest memory, popping a queue of 1 to 16383 entries ends: the
    walk of the chain and of each indirect table stops, whatever links the
    driver wrote, and [pop] returns a chain, reports an empty ring or reports a
    memory error, within [walk_fuel] steps. *)
Theorem pop_settles fuel q m :
  0 < q_size q < 16384 -> walk_fuel <= Z.of_nat fuel -> settles (pop fuel q m).
Proof. apply pop_settles_gen. Qed.

Lemma pop_settles_witness : settles (pop (Z.to_nat walk_fuel) demo_q demo_qmem).
Proof. apply pop_settles; [cbn; lia | reflexivity || (rewrite Z2Nat.id; [lia|discriminate])]. Defined.

(** C1: when the driver has made a chain available, [pop] returns it exactly:
    the head in the ring slot of the cursor modulo the queue size, the buffers of the linked
    descriptors in order with each indirect table replaced by its own
    buffers, and the available cursor moved on by one. *)
Theorem pop_decodes_posted_chain fuel q m idx head ds segss :
  queue_wf q -> 0 < q_size q ->
  read_u16 m (u64 (q_avail q + 2)) = Ok idx -> idx <> next_avail q ->
  read_u16 m (u64 (q_avail q + 4 + 2 * (next_avail q mod q_size q))) = Ok head ->
  linked m (q_desc q) (q_size q) head ds -> Z.of_nat (length ds) <= q_size q + 1 ->
  Forall2 (contributes q m) ds segss -> walk_fuel <= Z.of_nat fuel ->
  pop fuel q m =
    Ok (Some (mkChain head (concat segss)), set_next_avail q (u16 (next_avail q + 1))).
Proof.
  intros Hq Hpos Hi Hne Hh. apply pop_posted with idx; try done.
  unfold avail_ring. rewrite (proj2 (Z.eqb_neq _ _)) by lia. by rewrite Z.add_assoc.
Qed.

Lemma pop_decodes_posted_chain_witness :
  pop (Z.to_nat walk_fuel) demo_q demo_qmem =
    Ok (Some (mkChain 0 [mkSeg 6000 16 false; mkSeg 6100 100 true;
                         mkSeg 6300 200 true; mkSeg 6700 1 true]),
        mkQueue 4 4096 4352 4608 true true 1 0).
Proof.
  refine (pop_decodes_posted_chain (Z.to_nat walk_fuel) demo_q demo_qmem 1 0
    [(6000, 16, 1); (4864, 32, 5); (6700, 1, 2)]
    [[mkSeg 6000 16 false]; [mkSeg 6100 100 true; mkSeg 6300 200 true]; [mkSeg 6700 1 true]]
    demo_q_wf _ _ _ _ _ _ _ _).
  - reflexivity.
  - vm_compute; reflexivity.
  - discriminate.
  - vm_compute; reflexivity.
  - eapply linked_next; [reflexivity|by vm_compute|reflexivity|].
    eapply linked_next; [reflexivity|by vm_compute|reflexivity|].
    eapply linked_last; [reflexivity|by vm_compute|reflexivity].
  - cbn; lia.
  - repeat constructor. exists [(6100, 100, 3); (6300, 200, 2)]. split_and!; [|vm_compute; discriminate|reflexivity].
    eapply linked_next; [reflexivity|by vm_compute|reflexivity|].
    eapply linked_last; [reflexivity|by vm_compute|reflexivity].
  - rewrite Z2Nat.id; [lia|discriminate].
Defined.

(** Completing a chain on a used ring that guest memory backs succeeds and
    publishes it: the ring slot of the old cursor holds the head and the
    length, the used index in the ring is the new cursor, the cursor moved on
    by one modulo 2^16, and no other byte of guest memory changed. *)
Theorem add_used_publishes q m head len p :
  mem_wf m -> queue_wf q -> 0 < q_size q ->
  with_ptr m (q_used q) (4 + 8 * q_size q) = Ok p ->
  exists m',
    add_used head len (q, m) = (Ok tt, (set_next_used q (u16 (next_used q + 1)), m')) /\
    mem_wf m' /\ regions m' = regions m /\
    read_u32 m' (used_elem q) = Ok (u32 head) /\
    read_u32 m' (used_elem q + 4) = Ok (u32 len) /\
    read_u16 m' (q_used q + 2) = Ok (u16 (next_used q + 1)) /\
    forall a, ~ (q_used q + 2 <= a < q_used q + 4) -> ~ (used_elem q <= a < used_elem q + 8) ->
      gbyte m' a = gbyte m a.
Proof.
  intros Hm Hq Hs Hp. destruct (add_used_spec q m head len p) as (m' & E & W & F);
    [apply Hm|done..|].
  exists m'. split; [exact E|]. split; [by apply W|exact F].
Qed.

Lemma add_used_publishes_witness :
  exists m', add_used 0 301 (demo_q, demo_qmem) = (Ok tt, (set_next_used demo_q 1, m')) /\
             read_u32 m' 4612 = Ok 0 /\ read_u32 m' 4616 = Ok 301.
Proof.
  destruct (add_used_publishes demo_q demo_qmem 0 301 512 demo_qmem_wf demo_q_wf)
    as (m' & H1 & _ & _ & H2 & H3 & _); [reflexivity|vm_compute; reflexivity|].
  exists m'. split_and!; [exact H1|exact H2|exact H3].
Defined.

(** With [VIRTIO_RING_F_EVENT_IDX] the interrupt decision is exact: the
    guest is interrupted after the used cursor moved from [old] to [new] if and
    only if the event index it published names one of the entries completed in
    between, counting modulo 2^16. *)
Theorem needs_interrupt_iff_crossed q m old new event :
  mem_wf m -> q_event_idx q = true -> is_u16 old -> is_u16 new ->
  read_u16 m (u64 (q_avail q + 4 + 2 * q_size q)) = Ok event ->
  exists b, needs_interrupt q m old new = Ok b /\
    (b = true <-> exists j, 0 <= j < u16 (new - old) /\ event = u16 (old + j)).
Proof.
  intros Hwf He Ho Hn Hr. exists (need_event event new old). unfold needs_interrupt.
  rewrite He, Hr. split; [done|]. apply need_event_window; [by eapply read_u16_range|done..].
Qed.

Lemma needs_interrupt_iff_crossed_witness :
  exists b, needs_interrupt demo_q demo_qmem 65535 1 = Ok b /\
    (b = true <-> exists j, 0 <= j < 2 /\ 0 = u16 (65535 + j)).
Proof.
  apply (needs_interrupt_iff_crossed demo_q demo_qmem 65535 1 0 demo_qmem_wf);
    [reflexivity|unfold is_u16; lia..|vm_compute; reflexivity].
Defined.

(** Re-arming never loses the next submission. After [arm_notification] the
    entry the driver kicks on is the first one the device has not consumed:
    under event indices, any submission that covers that entry makes
    [vring_need_event] say "kick"; without them the no-notify flag is clear. *)
Theorem arm_notification_rearms q m m' :
  mem_wf m -> queue_wf q -> arm_notification q m = Ok m' ->
  (q_event_idx q = true ->
     forall old new, is_u16 old -> is_u16 new ->
     (exists j, 0 <= j < u16 (new - old) /\ next_avail q = u16 (old + j)) ->
     exists event, read_u16 m' (u64 (q_used q + 4 + 8 * q_size q)) = Ok event /\
                   need_event event new old = true) /\
  (q_event_idx q = false ->
     exists flags, read_u16 m' (q_used q) = Ok flags /\ Z.land flags 1 = 0).
Proof.
  intros Hwf (Hsz & _ & _ & _ & Hna & _) Harm. unfold arm_notification in Harm. split; intros He; rewrite He in Harm.
  - intros old new Ho Hn Hj. exists (next_avail q). split.
    + by eapply read_u16_after_write.
    + by apply need_event_window.
  - apply bind_Ok in Harm as (fl & Hfl & Hw).
    exists (Z.land fl (not_w 16 1)). pose proof (read_u16_range _ _ _ Hwf Hfl) as Hr. split.
    + eapply read_u16_after_write; [|done]. by apply (land_range 16).
    + rewrite <- Z.land_assoc. change (Z.land (not_w 16 1) 1) with 0. apply Z.land_0_r.
Qed.

Lemma arm_notification_rearms_witness :
  exists m', arm_notification demo_q demo_qmem = Ok m' /\
  exists event, read_u16 m' 4644 = Ok event /\ need_event event 2 0 = true.
Proof.
  eexists. split; [reflexivity|].
  refine (proj1 (arm_notification_rearms demo_q demo_qmem _ demo_qmem_wf demo_q_wf eq_refl)
    eq_refl 0 2 _ _ _); [unfold is_u16; lia|unfold is_u16; lia|].
  exists 0. split; [vm_compute; split; [discriminate|reflexivity] | reflexivity].
Defined.

(** On a queue of 16384 entries or more the bound on the indirect walk is
    [u16::MAX], which the wrapping [u16] step counter never exceeds: a table
    whose first descriptor links to itself is walked for ever, whatever the
    fuel. *)
Theorem expand_indirect_diverges fuel q m table len segs a l f :
  16384 <= q_size q -> 16 <= len < 2 ^ 20 ->
  read_desc m table 0 = Ok (a, l, f, 0) -> has_flag f VIRTQ_DESC_F_NEXT = true ->
  expand_indirect fuel q m table len segs = NoFuel.
Proof.
  intros Hq Hl Hd Hf. eapply expand_loop_runs_on; try done.
  unfold DESC_SIZE. assert (1 <= len / 16 < 65536) by (Z.div_mod_to_equations; lia).
  unfold u16. rewrite Z.mod_small; lia.
Qed.

Lemma expand_indirect_diverges_witness :
  expand_indirect 1000 (mkQueue 16384 4096 4352 4608 true true 0 0)
    (poke demo_mem [(4864, le_bytes 8 6100 ++ le_bytes 4 100 ++ le_bytes 2 1 ++ le_bytes 2 0)])
    4864 16 [] = NoFuel.
Proof.
  eapply expand_indirect_diverges with (a := 6100) (l := 100) (f := 1).
  - cbn; lia.
  - lia.
  - vm_compute; reflexivity.
  - reflexivity.
Defined.

(** A queue the driver left at size zero is never popped safely: as soon as
    its available index differs from the cursor, [pop] aborts on the division
    by the queue size. *)
Theorem pop_empty_queue_panics fuel q m idx :
  q_size q = 0 -> avail_idx q m = Ok idx -> idx <> next_avail q -> pop fuel q m = Panic.
Proof.
  intros Hs Hi Hne. unfold pop. rewrite Hi. cbn [mbind res_bind_inst].
  rewrite (proj2 (Z.eqb_neq _ _)) by congruence. unfold avail_ring. by rewrite Hs.
Qed.
