(* ===== verification/Lro.v ===== *)
(** * Receive coalescing of TCP segments

    [virtio/lro.rs]: consecutive in-order segments of one flow are merged into one
    larger packet before they reach the guest; and the two internet checksums of
    the device side, here and in [virtio/net.rs]. The theorems: draining a backlog
    through [pop_coalesced] delivers exactly the byte stream of the backlog, and a
    merged packet passes the receiver's checksum verification. *)

From Stdlib Require Import ZArith Lia Bool.
From stdpp Require Import base numbers list list_numbers option sets.
From S2P Require Import Prelude.

(** ** Bytes of a frame *)

(** [frame[i]]; every use is below a length checked before it. *)
Definition byte_at (l : list Z) (i : nat) : Z := nth i l 0.

(** [u16::from_be_bytes([l[i], l[i + 1]])]. *)
Definition be16 (l : list Z) (i : nat) : Z := be_val [byte_at l i; byte_at l (i + 1)].

(** [l[a..a + n]]. *)
Definition slice (a n : nat) (l : list Z) : list Z := take n (drop a l).

(** [l[a..a + bs.len()].copy_from_slice(bs)]. *)
Definition put (a : nat) (bs l : list Z) : list Z := take a l ++ bs ++ drop (a + length bs) l.

(** ** The internet checksum *)

(** The loop over [chunks_exact(2)] and its remainder, in [u32]. *)
Fixpoint sum_chunks (data : list Z) (sum : Z) : Z :=
  match data with
  | a :: b :: data => sum_chunks data (u32 (sum + be_val [a; b]))
  | [last] => u32 (sum + u32 (Z.shiftl last 8))
  | [] => sum
  end.

(** [while sum >> 16 != 0]; [fold16_done] shows that three rounds are enough. *)
Fixpoint fold16_loop (fuel : nat) (sum : Z) : Z :=
  match fuel with
  | O => sum
  | S fuel =>
      if Z.shiftr sum 16 =? 0 then sum
      else fold16_loop fuel (u32 (Z.land sum 0xffff + Z.shiftr sum 16))
  end.

Definition fold16 (sum : Z) : Z := fold16_loop 3 sum.

Definition ones_complement (data : list Z) (init : Z) : Z :=
  not_w 16 (u16 (fold16 (sum_chunks data init))).

(** [checksum] of [net.rs]: the same sum by index. *)
Fixpoint checksum_loop (fuel : nat) (data : list Z) (i : nat) (sum : Z) : Z :=
  match fuel with
  | O => sum
  | S fuel =>
      if (i + 1 <? length data)%nat
      then checksum_loop fuel data (i + 2) (u32 (sum + be16 data i))
      else if (i <? length data)%nat then u32 (sum + u32 (Z.shiftl (byte_at data i) 8))
      else sum
  end.

Definition checksum (data : list Z) : Z :=
  not_w 16 (u16 (fold16 (checksum_loop (S (length data)) data 0 0))).

(** ** Segments *)

Definition ETH_HDR : nat := 14.
Definition ETHERTYPE_IPV4 : Z := 0x0800.
Definition IP_PROTO_TCP : Z := 6.
Definition IPV4_MIN_HDR : nat := 20.
Definition TCP_MIN_HDR : nat := 20.
Definition TCP_FLAGS_NOT_DATA : Z := Z.lor (Z.lor (Z.lor 1 2) 4) 0x20.
Definition TCP_FLAG_PSH : Z := 8.
Definition IP_MAX_TOTAL : Z := 2 ^ 16 - 1.

(** The offsets of the IPv4 and TCP headers. *)
Definition IP_AT : nat := ETH_HDR.
Definition TCP_AT : nat := ETH_HDR + IPV4_MIN_HDR.

Record Seg := mkTcpSeg {
  s_payload_at : nat;
  s_payload_len : Z;
  s_seq : Z;
  s_flags : Z;
}.

Definition parse (frame : list Z) : option Seg :=
  if (length frame <? ETH_HDR + IPV4_MIN_HDR + TCP_MIN_HDR)%nat then None
  else if negb (be16 frame 12 =? ETHERTYPE_IPV4) then None
  else if negb (byte_at frame IP_AT =? 0x45) || negb (byte_at frame (IP_AT + 9) =? IP_PROTO_TCP)
  then None
  else if negb (Z.land (be16 frame (IP_AT + 6)) 0x3fff =? 0) then None
  else
    let tot_len := be16 frame (IP_AT + 2) in
    if (tot_len <? Z.of_nat (IPV4_MIN_HDR + TCP_MIN_HDR)) ||
       negb (Z.of_nat ETH_HDR + tot_len =? Z.of_nat (length frame))
    then None
    else if negb (Z.shiftr (byte_at frame (TCP_AT + 12)) 4 * 4 =? Z.of_nat TCP_MIN_HDR) then None
    else
      Some (mkTcpSeg (ETH_HDR + IPV4_MIN_HDR + TCP_MIN_HDR)
              (tot_len - Z.of_nat IPV4_MIN_HDR - Z.of_nat TCP_MIN_HDR)
              (be_val (slice (TCP_AT + 4) 4 frame)) (byte_at frame (TCP_AT + 13))).

Definition same (a n : nat) (x y : list Z) : bool := bool_decide (slice a n x = slice a n y).

Definition continues (acc : list Z) (a : Seg) (next : list Z) (b : Seg) : bool :=
  if negb (Z.land (s_flags a) TCP_FLAGS_NOT_DATA =? 0) ||
     negb (Z.land (s_flags b) TCP_FLAGS_NOT_DATA =? 0) then false
  else if s_payload_len b =? 0 then false
  else if negb (same 0 12 acc next) then false
  else if negb (same (IP_AT + 12) 8 acc next) then false
  else if negb (same TCP_AT 4 acc next) then false
  else u32 (s_seq a + u32 (s_payload_len a)) =? s_seq b.

Definition merge (acc : list Z) (a : Seg) (next : list Z) (b : Seg) : list Z :=
  let acc := acc ++ slice (s_payload_at b) (Z.to_nat (s_payload_len b)) next in
  let payload := s_payload_len a + s_payload_len b in
  let ack := slice (TCP_AT + 8) 4 next in
  let window := slice (TCP_AT + 14) 2 next in
  let push := Z.land (s_flags b) TCP_FLAG_PSH in
  let tot_len := u16 (Z.of_nat IPV4_MIN_HDR + Z.of_nat TCP_MIN_HDR + payload) in
  let acc := put (IP_AT + 2) (be_bytes 2 tot_len) acc in
  let acc := put (TCP_AT + 8) ack acc in
  let acc := put (TCP_AT + 14) window acc in
  put (TCP_AT + 13) [Z.lor (byte_at acc (TCP_AT + 13)) push] acc.

(** TCP's pseudo-header: the two addresses by [chunks(2)], protocol and length. *)
Definition pseudo_sum (frame : list Z) : Z :=
  let tcp_len := Z.of_nat (length frame - TCP_AT) in
  u32 (sum_chunks (slice (IP_AT + 12) 8 frame) 0 + u32 (IP_PROTO_TCP + u32 tcp_len)).

Definition checksum_in_place (frame : list Z) (tcp : bool) : list Z :=
  let frame := put (IP_AT + 10) [0; 0] frame in
  let ip_csum := ones_complement (slice IP_AT IPV4_MIN_HDR frame) 0 in
  let frame := put (IP_AT + 10) (be_bytes 2 ip_csum) frame in
  if negb tcp then frame
  else
    let sum := pseudo_sum frame in
    let frame := put (TCP_AT + 16) [0; 0] frame in
    let tcp_csum := ones_complement (drop TCP_AT frame) sum in
    put (TCP_AT + 16) (be_bytes 2 tcp_csum) frame.

(** The loop of [pop_coalesced] over the front of the queue. *)
Fixpoint absorb (limit : Z) (queue : list (list Z)) (acc : list Z) (seg : Seg) (merged : bool) :
    list Z * bool * list (list Z) :=
  match queue with
  | [] => (acc, merged, [])
  | next :: rest =>
      match parse next with
      | None => (acc, merged, queue)
      | Some nseg =>
          if limit <? Z.of_nat (length acc) + s_payload_len nseg then (acc, merged, queue)
          else if negb (continues acc seg next nseg) then (acc, merged, queue)
          else
            absorb limit rest (merge acc seg next nseg)
              (mkTcpSeg (s_payload_at seg) (s_payload_len seg + s_payload_len nseg) (s_seq seg)
                 (Z.lor (s_flags seg) (Z.land (s_flags nseg) TCP_FLAG_PSH))) true
      end
  end.

Definition pop_coalesced (queue : list (list Z)) (limit : Z) (tcp_checksum : bool) :
    option (list Z) * list (list Z) :=
  match queue with
  | [] => (None, [])
  | acc :: queue =>
      let limit := Z.min limit (Z.of_nat ETH_HDR + IP_MAX_TOTAL) in
      match parse acc with
      | None => (Some acc, queue)
      | Some seg =>
          let '(acc, merged, queue) := absorb limit queue acc seg false in
          (Some (if (merged : bool) then checksum_in_place acc tcp_checksum else acc), queue)
      end
  end.

(** ** Bytes, slices and updates *)

Lemma length_put a bs l : (a + length bs <= length l)%nat -> length (put a bs l) = length l.
Proof. intros. unfold put. rewrite !length_app, length_take, length_drop. lia. Qed.

Lemma byte_at_lookup l i : byte_at l i = default 0 (l !! i).
Proof. unfold byte_at. by rewrite nth_lookup. Qed.

Lemma byte_at_put a bs l i :
  (a + length bs <= length l)%nat ->
  byte_at (put a bs l) i =
  if (a <=? i)%nat && (i <? a + length bs)%nat then byte_at bs (i - a) else byte_at l i.
Proof.
  intros H. rewrite !byte_at_lookup. unfold put.
  destruct (Nat.leb_spec a i), (Nat.ltb_spec i (a + length bs)); cbn [andb].
  - rewrite lookup_app_r, length_take_le, lookup_app_l by (rewrite ?length_take; lia). done.
  - rewrite !lookup_app_r, length_take_le, lookup_drop by (rewrite ?length_take; lia).
    do 2 f_equal. lia.
  - rewrite lookup_app_l, lookup_take_lt by (rewrite ?length_take; lia). done.
  - lia.
Qed.

Lemma byte_at_app_l l k i : (i < length l)%nat -> byte_at (l ++ k) i = byte_at l i.
Proof. intros. rewrite !byte_at_lookup. by rewrite lookup_app_l. Qed.

Lemma byte_at_slice a n l i : (i < n)%nat -> byte_at (slice a n l) i = byte_at l (a + i).
Proof. intros. rewrite !byte_at_lookup. unfold slice. by rewrite lookup_take_lt, lookup_drop. Qed.

Lemma length_slice a n l : (a + n <= length l)%nat -> length (slice a n l) = n.
Proof. intros. unfold slice. rewrite length_take, length_drop. lia. Qed.

Lemma byte_ext l k :
  length l = length k -> (forall i, (i < length l)%nat -> byte_at l i = byte_at k i) -> l = k.
Proof.
  intros Hl H. apply list_eq_same_length with (length k); [done..|]. intros i x y Hi Hx Hy.
  specialize (H i ltac:(lia)). by rewrite !byte_at_lookup, Hx, Hy in H.
Qed.

Lemma slice_ext a n l k :
  length l = length k ->
  (forall i, (a <= i < a + n)%nat -> (i < length l)%nat -> byte_at l i = byte_at k i) ->
  slice a n l = slice a n k.
Proof.
  intros Hl H. apply byte_ext; unfold slice; rewrite !length_take, !length_drop; [lia|].
  intros i Hi. change (byte_at (slice a n l) i = byte_at (slice a n k) i).
  rewrite !byte_at_slice by lia. apply H; lia.
Qed.

Lemma slice_put a n b bs l :
  (b + length bs <= length l)%nat -> (a + n <= b \/ b + length bs <= a)%nat ->
  slice a n (put b bs l) = slice a n l.
Proof.
  intros Hb Hd. apply slice_ext; [by apply length_put|]. intros i Hi _.
  rewrite byte_at_put by done.
  destruct (Nat.leb_spec b i), (Nat.ltb_spec i (b + length bs)); cbn [andb]; (done || lia).
Qed.

Lemma slice_put_same a bs l :
  (a + length bs <= length l)%nat -> slice a (length bs) (put a bs l) = bs.
Proof.
  intros H. apply byte_ext.
  - rewrite length_slice; [done|]. by rewrite length_put.
  - intros i Hi. rewrite length_slice in Hi by (by rewrite length_put).
    rewrite byte_at_slice, byte_at_put by lia.
    rewrite (proj2 (Nat.leb_le _ _)), (proj2 (Nat.ltb_lt _ _)) by lia. cbn. f_equal. lia.
Qed.

Lemma drop_put a bs l n :
  (a + length bs <= length l)%nat -> (a + length bs <= n)%nat -> drop n (put a bs l) = drop n l.
Proof.
  intros Hl Hn. unfold put. rewrite !drop_app, length_take_le by lia.
  rewrite (drop_ge (take a l)), (drop_ge bs) by (rewrite ?length_take; lia). cbn [app].
  rewrite drop_drop. f_equal. lia.
Qed.

Lemma bytes_put a bs l : bytes bs -> bytes l -> bytes (put a bs l).
Proof. intros Hb Hl. unfold put, bytes in *. repeat apply Forall_app_2; auto using Forall_take, Forall_drop. Qed.

Lemma byte_at_range l i : bytes l -> is_u8 (byte_at l i).
Proof.
  intros Hl. rewrite byte_at_lookup. destruct (l !! i) as [b|] eqn:E; cbn; [|unfold is_u8; lia].
  apply (proj1 (Forall_lookup is_u8 l) Hl i b E).
Qed.

Lemma bytes_slice a n l : bytes l -> bytes (slice a n l).
Proof. intros. by apply Forall_take, Forall_drop. Qed.

Lemma be16_range l i : bytes l -> is_u16 (be16 l i).
Proof.
  intros Hl. unfold be16. change 16 with (8 * Z.of_nat (length [byte_at l i; byte_at l (i + 1)])).
  unfold is_u16. apply (be_val_range [_; _]). repeat constructor; by apply byte_at_range.
Qed.

Lemma be_val_pair a b : be_val [a; b] = a * 256 + b.
Proof. unfold be_val. cbn. lia. Qed.

(** ** The folded sum is the sum modulo [2^16 - 1] *)

Lemma fold16_spec s :
  is_u32 s -> fold16 s = if s =? 0 then 0 else (s - 1) mod 65535 + 1.
Proof.
  intros Hs. unfold fold16.
  assert (forall x, 0 <= x < 2 ^ 32 -> x mod 65536 + x / 65536 < 2 ^ 32) as Hx
    by (intros; Z.div_mod_to_equations; lia).
  assert (forall f x, 0 <= x < 2 ^ 32 ->
    fold16_loop (S f) x =
    if x <? 65536 then x else fold16_loop f (x mod 65536 + x / 65536)) as Hl.
  { intros f x Hr. cbn [fold16_loop]. rewrite Z.shiftr_div_pow2 by lia.
    change 0xffff with (Z.ones 16). rewrite Z.land_ones by lia. change (2 ^ 16) with 65536.
    destruct (Z.ltb_spec x 65536).
    - by rewrite Z.div_small by lia.
    - rewrite (proj2 (Z.eqb_neq _ _)) by (Z.div_mod_to_equations; lia).
      unfold u32. rewrite Z.mod_small; [done|]. specialize (Hx x Hr).
      split; [|done]. Z.div_mod_to_equations; lia. }
  unfold is_u32 in Hs.
  rewrite Hl by done. destruct (Z.ltb_spec s 65536).
  { destruct (Z.eqb_spec s 0); [done|]. rewrite Z.mod_small; lia. }
  rewrite (proj2 (Z.eqb_neq _ _)) by lia.
  set (t := s mod 65536 + s / 65536).
  assert (t < 131071 /\ 0 < t /\ s = t + 65535 * (s / 65536)) as (Ht1 & Ht2 & Ht3)
    by (unfold t; Z.div_mod_to_equations; lia).
  replace (s - 1) with (t - 1 + (s / 65536) * 65535) by lia. rewrite Z.mod_add by lia.
  rewrite Hl by lia. destruct (Z.ltb_spec t 65536).
  { rewrite Z.mod_small; lia. }
  set (v := t mod 65536 + t / 65536). assert (v = t - 65535 /\ v < 65536) as [Hv1 Hv2]
    by (unfold v; Z.div_mod_to_equations; lia).
  rewrite Hl by lia. rewrite (proj2 (Z.ltb_lt _ _)) by lia.
  replace (t - 1) with (v - 1 + 1 * 65535) by lia. rewrite Z.mod_add, Z.mod_small by lia. lia.
Qed.

Lemma fold16_range s : is_u32 s -> is_u16 (fold16 s).
Proof.
  intros Hs. rewrite fold16_spec by done. destruct (Z.eqb_spec s 0); unfold is_u16; [lia|].
  pose proof (Z.mod_pos_bound (s - 1) 65535). lia.
Qed.

(** The loop has ended after three rounds, for every [u32]. *)
Lemma fold16_done s : is_u32 s -> Z.shiftr (fold16 s) 16 = 0.
Proof.
  intros Hs. pose proof (fold16_range s Hs) as H. unfold is_u16 in H.
  rewrite Z.shiftr_div_pow2 by lia. apply Z.div_small. lia.
Qed.

Lemma not_w16 x : is_u16 x -> not_w 16 x = 65535 - x.
Proof.
  intros Hx. unfold not_w. change (Z.ones 16) with (65535). unfold is_u16 in Hx.
  assert (Z.land x (Z.lxor x 65535) = 0) as Hd.
  { apply Z.bits_inj'. intros i Hi. rewrite Z.land_spec, Z.lxor_spec, Z.bits_0.
    change 65535 with (Z.ones 16). rewrite testbit_ones by lia. destruct (Z.testbit x i) eqn:E; [|done].
    destruct (Z.ltb_spec i 16); [by rewrite (proj2 (Z.leb_le _ _)) by lia|].
    by rewrite (testbit_high x 16) in E. }
  pose proof (Z.add_nocarry_lxor x (Z.lxor x 65535) Hd) as Ha.
  rewrite <- Z.lxor_assoc, Z.lxor_nilpotent, Z.lxor_0_l in Ha. lia.
Qed.

(** The sum as a number; a run of 16-bit words adds up without wrapping when
    it is shorter than [2^17] bytes. *)
Fixpoint sum16 (data : list Z) : Z :=
  match data with
  | a :: b :: data => a * 256 + b + sum16 data
  | [a] => a * 256
  | [] => 0
  end.

Lemma list_pair_ind (P : list Z -> Prop) :
  P [] -> (forall a, P [a]) -> (forall a b l, P l -> P (a :: b :: l)) -> forall l, P l.
Proof.
  intros H0 H1 H2 l. enough (P l /\ forall a, P (a :: l)) by naive_solver.
  induction l as [|x l [IH1 IH2]]; [auto|]. split; [auto|]. intros a. by apply H2.
Qed.

Lemma sum16_range l : bytes l -> 0 <= sum16 l <= 65535 * ((Z.of_nat (length l) + 1) / 2).
Proof.
  induction l as [|a|a b l IH] using list_pair_ind; intros Hb; cbn [sum16 length].
  - split; reflexivity || discriminate.
  - inversion Hb; subst. unfold is_u8 in *. change ((Z.of_nat 1 + 1) / 2) with 1. lia.
  - inversion Hb as [|? ? Ha Hb']; subst. inversion Hb' as [|? ? Hb2 Hl]; subst.
    specialize (IH Hl). unfold is_u8 in *.
    replace (Z.of_nat (S (S (length l))) + 1) with (Z.of_nat (length l) + 1 + 1 * 2) by lia.
    rewrite Z.div_add by lia. lia.
Qed.

Lemma sum_chunks_spec l s :
  0 <= s -> bytes l -> s + 65535 * ((Z.of_nat (length l) + 1) / 2) < 2 ^ 32 ->
  sum_chunks l s = s + sum16 l.
Proof.
  revert s. induction l as [|a|a b l IH] using list_pair_ind; intros s Hs Hb Hl; cbn [sum_chunks sum16].
  - lia.
  - inversion Hb; subst. unfold is_u8 in *. rewrite Z.shiftl_mul_pow2 by lia.
    change ((Z.of_nat (length [a]) + 1) / 2) with 1 in Hl.
    change (2 ^ 8) with 256 in *. unfold u32.
    rewrite (Z.mod_small (a * 256)) by lia. rewrite Z.mod_small; lia.
  - inversion Hb as [|? ? Ha Hb']; subst. inversion Hb' as [|? ? Hb2 Hl2]; subst. unfold is_u8 in *.
    pose proof (sum16_range l Hl2) as Hr. cbn [length] in Hl.
    replace (Z.of_nat (S (S (length l))) + 1) with (Z.of_nat (length l) + 1 + 1 * 2) in Hl by lia.
    rewrite Z.div_add in Hl by lia. change (2 ^ 8) with 256 in *. rewrite be_val_pair.
    unfold u32. rewrite Z.mod_small by lia. rewrite IH by (done || lia). lia.
Qed.

Lemma sum16_app l k : Nat.even (length l) = true -> sum16 (l ++ k) = sum16 l + sum16 k.
Proof.
  induction l as [|a|a b l IH] using list_pair_ind; intros He; cbn [app sum16].
  - lia.
  - done.
  - rewrite IH by done. lia.
Qed.

(** ** A stored checksum verifies *)

(** The sums stay below [2^32], so that no addition wraps. *)
Definition sum_fits (init : Z) (l : list Z) : Prop :=
  0 <= init /\ init + 65535 * ((Z.of_nat (length l) + 1) / 2) < 2 ^ 32.

Lemma ones_complement_spec l init :
  bytes l -> sum_fits init l -> ones_complement l init = 65535 - fold16 (init + sum16 l).
Proof.
  intros Hb [Hi Hf]. unfold ones_complement. rewrite sum_chunks_spec by done.
  pose proof (sum16_range l Hb) as Hr.
  pose proof (fold16_range (init + sum16 l) ltac:(unfold is_u32; lia)) as Hu.
  unfold is_u16 in Hu. unfold u16. rewrite Z.mod_small by done. by apply not_w16.
Qed.

Lemma ones_complement_range l init :
  bytes l -> sum_fits init l -> is_u16 (ones_complement l init).
Proof.
  intros Hb Hf. rewrite ones_complement_spec by done. destruct Hf as [Hi Hf].
  pose proof (sum16_range l Hb) as Hr.
  pose proof (fold16_range (init + sum16 l) ltac:(unfold is_u32; lia)). unfold is_u16 in *. lia.
Qed.

Lemma sum16_put k a b l :
  Nat.even k = true -> (k + 2 <= length l)%nat ->
  sum16 (put k [a; b] l) = sum16 (take k l) + a * 256 + b + sum16 (drop (k + 2) l).
Proof.
  intros He Hk. unfold put. rewrite sum16_app by (rewrite length_take_le by lia; done).
  cbn [app sum16 length]. lia.
Qed.

Lemma put_put k x y l :
  length x = length y -> (k + length x <= length l)%nat -> put k y (put k x l) = put k y l.
Proof.
  intros Hxy Hk. unfold put at 1. rewrite <- Hxy, drop_put by lia.
  unfold put. rewrite take_app_le by (rewrite length_take; lia).
  rewrite take_take, Nat.min_id. by rewrite Hxy.
Qed.

Lemma be_bytes2 x : is_u16 x -> exists a b, be_bytes 2 x = [a; b] /\ a * 256 + b = x.
Proof.
  intros Hx. exists (u8 (x / 2 ^ 8)), (u8 x). split; [done|].
  unfold u8, is_u16 in *. change (2 ^ 8) with 256. Z.div_mod_to_equations. lia.
Qed.

(** RFC 1071: with the checksum of the data in place of the zeroed field, the
    checksum of the whole is zero. *)
Lemma stored_checksum_verifies k l init :
  Nat.even k = true -> (k + 2 <= length l)%nat -> bytes l -> sum_fits init l ->
  let c := ones_complement (put k [0; 0] l) init in
  ones_complement (put k (be_bytes 2 c) l) init = 0.
Proof.
  intros He Hk Hb Hf c.
  assert (forall x y, is_u8 x -> is_u8 y -> bytes (put k [x; y] l)) as Hbp.
  { intros x y Hx Hy. apply bytes_put; [|done]. by apply Forall_cons_2, Forall_singleton. }
  assert (forall x y, sum_fits init (put k [x; y] l)) as Hfp.
  { intros x y. unfold sum_fits. by rewrite length_put. }
  assert (is_u8 0) as H0 by (unfold is_u8; lia).
  assert (is_u16 c) as Hc by (apply ones_complement_range; auto).
  pose proof (be_bytes_bytes 2 c) as Hcb.
  destruct (be_bytes2 c Hc) as (a & b & E & Eab). rewrite E in Hcb |- *.
  inversion Hcb as [|? ? Ha Hb']; subst. inversion Hb' as [|? ? Hb2 _]; subst.
  rewrite ones_complement_spec by auto. rewrite sum16_put by done.
  unfold c in Eab. rewrite ones_complement_spec in Eab by auto. rewrite sum16_put in Eab by done.
  pose proof (sum16_range _ (Hbp 0 0 H0 H0)) as Hr. rewrite sum16_put in Hr by done.
  pose proof (sum16_range _ (Hbp a b Ha Hb2)) as Hr2. rewrite sum16_put in Hr2 by done.
  rewrite length_put in Hr, Hr2 by done. destruct Hf as [Hi Hf].
  set (s := init + (sum16 (take k l) + 0 * 256 + 0 + sum16 (drop (k + 2) l))) in *.
  replace (init + (sum16 (take k l) + a * 256 + b + sum16 (drop (k + 2) l)))
    with (s + (a * 256 + b)) in * by lia.
  assert (0 <= s /\ s + (a * 256 + b) < 2 ^ 32) as [Hs0 Hs1] by lia.
  unfold is_u8 in *. rewrite Eab, !fold16_spec in * by (unfold is_u32; lia).
  clear -Hs0 Hs1. clearbody s.
  destruct (Z.eqb_spec s 0) as [Hs|Hs]; [by rewrite Hs|].
  pose proof (Z.mod_pos_bound (s - 1) 65535). pose proof (Z.div_mod (s - 1) 65535).
  rewrite (proj2 (Z.eqb_neq _ _)) by lia.
  replace (s + (65535 - ((s - 1) mod 65535 + 1)) - 1)
    with (65534 + ((s - 1) / 65535) * 65535) by lia.
  rewrite Z.mod_add by lia. reflexivity.
Qed.

Lemma slice_of_put a n b bs l :
  (a <= b)%nat -> (b + length bs <= a + n)%nat -> (a + n <= length l)%nat ->
  slice a n (put b bs l) = put (b - a) bs (slice a n l).
Proof.
  intros Ha Hb Hl. apply byte_ext.
  - rewrite length_put, !length_slice by (rewrite ?length_slice, ?length_put; lia). done.
  - intros i Hi. rewrite length_slice in Hi by (rewrite length_put; lia).
    rewrite byte_at_slice, !byte_at_put, byte_at_slice by (rewrite ?length_slice; lia).
    destruct (Nat.leb_spec b (a + i)), (Nat.leb_spec (b - a) i); try lia; cbn [andb]; [|reflexivity].
    destruct (Nat.ltb_spec (a + i) (b + length bs)), (Nat.ltb_spec i (b - a + length bs));
      first [reflexivity | lia | f_equal; lia].
Qed.

Lemma drop_of_put a b bs l :
  (a <= b)%nat -> (b + length bs <= length l)%nat -> drop a (put b bs l) = put (b - a) bs (drop a l).
Proof.
  intros Ha Hl.
  assert (forall k, slice a (length k - a) k = drop a k) as Hd.
  { intros k. unfold slice. apply take_ge. rewrite length_drop. lia. }
  rewrite <- (Hd (put b bs l)), <- (Hd l). rewrite length_put by lia.
  apply slice_of_put; lia.
Qed.

(** ** What a frame says *)

Definition HDRS : nat := 54.

Lemma parse_Some f s :
  parse f = Some s <->
  (54 <= length f)%nat /\ be16 f 12 = 0x0800 /\ byte_at f 14 = 0x45 /\ byte_at f 23 = 6 /\
  Z.land (be16 f 20) 0x3fff = 0 /\ 40 <= be16 f 16 /\ 14 + be16 f 16 = Z.of_nat (length f) /\
  Z.shiftr (byte_at f 46) 4 * 4 = 20 /\
  s = mkTcpSeg 54 (be16 f 16 - 40) (be_val (slice 38 4 f)) (byte_at f 47).
Proof.
  unfold parse, IP_AT, TCP_AT, ETH_HDR, IPV4_MIN_HDR, TCP_MIN_HDR, ETHERTYPE_IPV4, IP_PROTO_TCP.
  cbn [Nat.add]. change (Z.of_nat 20) with 20. change (Z.of_nat 40) with 40. change (Z.of_nat 14) with 14.
  destruct (Nat.ltb_spec (length f) 54); [split; [done|lia]|].
  destruct (Z.eqb_spec (be16 f 12) 2048); cbn [negb]; [|split; [done|lia]].
  destruct (Z.eqb_spec (byte_at f 14) 69); cbn [negb orb]; [|split; [done|lia]].
  destruct (Z.eqb_spec (byte_at f 23) 6); cbn [negb]; [|split; [done|lia]].
  destruct (Z.eqb_spec (Z.land (be16 f 20) 16383) 0); cbn [negb]; [|split; [done|lia]].
  destruct (Z.ltb_spec (be16 f 16) 40); cbn [orb]; [split; [done|lia]|].
  destruct (Z.eqb_spec (14 + be16 f 16) (Z.of_nat (length f))); cbn [negb]; [|split; [done|lia]].
  destruct (Z.eqb_spec (Z.shiftr (byte_at f 46) 4 * 4) 20); cbn [negb]; [|split; [done|lia]].
  replace (be16 f 16 - 20 - 20) with (be16 f 16 - 40) by lia.
  split; [intros [= <-]; split_and!; done | intros (_ & _ & _ & _ & _ & _ & _ & _ & ->); done].
Qed.

(** The endpoints of a frame's flow: MAC addresses, IP addresses, ports. *)
Definition flow (f : list Z) : list Z := slice 0 12 f ++ slice 26 8 f ++ slice 34 4 f.

Definition pure_data (s : Seg) : bool := Z.land (s_flags s) TCP_FLAGS_NOT_DATA =? 0.

(** What the guest's stack learns from frames: each payload byte of a plain
    data segment at its place in its flow's sequence space, and every other
    frame as it is. *)
Inductive event :=
| Data (flow : list Z) (seq byte : Z)
| Other (frame : list Z).

Definition data_events (fl : list Z) (seq : Z) (payload : list Z) : list event :=
  imap (fun i b => Data fl (u32 (seq + Z.of_nat i)) b) payload.

Definition wire1 (f : list Z) : list event :=
  match parse f with
  | Some s => if pure_data s then data_events (flow f) (s_seq s) (drop HDRS f) else [Other f]
  | None => [Other f]
  end.

Definition wire (fs : list (list Z)) : list event := concat (wire1 <$> fs).

Lemma parse_payload_len f s :
  parse f = Some s -> s_payload_len s = Z.of_nat (length (drop HDRS f)) /\ s_payload_at s = HDRS.
Proof.
  intros (? & _ & _ & _ & _ & ? & ? & _ & ->)%parse_Some.
  cbn [s_payload_len s_payload_at]. rewrite length_drop. unfold HDRS. split; [lia|done].
Qed.

(** The side conditions of nested updates: every length is the first one's. *)
Ltac put_len :=
  repeat first [rewrite length_put | rewrite length_be_bytes | rewrite length_app | rewrite length_slice];
  cbn [length]; lia.

(** ** Merging *)

Section Merge.
Context (acc : list Z) (a : Seg) (next : list Z) (b : Seg).
Context (Hacc : parse acc = Some a) (Hnext : parse next = Some b).

Let merged_len : Z := 40 + (s_payload_len a + s_payload_len b).

Lemma merge_unfold :
  merge acc a next b =
  let f := put 48 (slice 48 2 next)
             (put 42 (slice 42 4 next)
                (put 16 (be_bytes 2 (u16 merged_len)) (acc ++ drop HDRS next))) in
  put 47 [Z.lor (byte_at f 47) (Z.land (s_flags b) 8)] f.
Proof.
  destruct (parse_payload_len _ _ Hnext) as [Hl Hat]. unfold merge. rewrite Hat, Hl, Nat2Z.id.
  assert (slice HDRS (length (drop HDRS next)) next = drop HDRS next) as ->
    by (unfold slice; by rewrite take_ge).
  unfold merged_len. rewrite Hl. reflexivity.
Qed.

Lemma merge_lens :
  (54 <= length acc)%nat /\ (54 <= length next)%nat /\
  length (slice 48 2 next) = 2%nat /\ length (slice 42 4 next) = 4%nat.
Proof.
  apply parse_Some in Hacc as [? _]. apply parse_Some in Hnext as [? _].
  rewrite !length_slice by lia. done.
Qed.

Lemma merge_byte i :
  (i < 54)%nat ->
  byte_at (merge acc a next b) i =
  if (i =? 47)%nat then Z.lor (byte_at acc 47) (Z.land (s_flags b) 8)
  else if (48 <=? i)%nat && (i <? 50)%nat then byte_at next i
  else if (42 <=? i)%nat && (i <? 46)%nat then byte_at next i
  else if (16 <=? i)%nat && (i <? 18)%nat then byte_at (be_bytes 2 (u16 merged_len)) (i - 16)
  else byte_at acc i.
Proof.
  intros Hi. rewrite merge_unfold. cbv zeta. destruct merge_lens as (Ha & Hn & H48 & H42).
  set (x := acc ++ drop HDRS next).
  assert (54 <= length x)%nat as Hx by (unfold x; rewrite length_app; lia).
  assert (forall j, (j < 54)%nat -> byte_at x j = byte_at acc j) as Hxb.
  { intros j Hj. apply byte_at_app_l. lia. }
  rewrite !byte_at_put by put_len. rewrite !Hxb by lia.
  rewrite H48, H42, length_be_bytes. cbn [length].
  change (48 + 2)%nat with 50%nat. change (42 + 4)%nat with 46%nat.
  change (16 + 2)%nat with 18%nat. change (47 + 1)%nat with 48%nat.
  destruct (Nat.eqb_spec i 47) as [->|Hne]; [reflexivity|].
  replace ((47 <=? i)%nat && (i <? 48)%nat) with false
    by (symmetry; apply andb_false_iff; rewrite Nat.leb_gt, Nat.ltb_ge; lia).
  destruct ((48 <=? i)%nat && (i <? 50)%nat) eqn:E48.
  { apply andb_true_iff in E48 as [?%Nat.leb_le ?%Nat.ltb_lt].
    rewrite byte_at_slice by lia. f_equal. lia. }
  destruct ((42 <=? i)%nat && (i <? 46)%nat) eqn:E42; [|reflexivity].
  apply andb_true_iff in E42 as [?%Nat.leb_le ?%Nat.ltb_lt].
  rewrite byte_at_slice by lia. f_equal. lia.
Qed.

Lemma merge_drop : drop HDRS (merge acc a next b) = drop HDRS acc ++ drop HDRS next.
Proof.
  rewrite merge_unfold. cbv zeta. destruct merge_lens as (Ha & Hn & H48 & H42). unfold HDRS in *.
  rewrite !drop_put by put_len.
  by rewrite drop_app_le by lia.
Qed.

Lemma merge_length : length (merge acc a next b) = (length acc + length (drop HDRS next))%nat.
Proof.
  rewrite merge_unfold. cbv zeta. destruct merge_lens as (Ha & Hn & H48 & H42).
  rewrite !length_put by put_len.
  by rewrite length_app.
Qed.

Lemma merge_bytes : bytes acc -> bytes next -> bytes (merge acc a next b).
Proof.
  intros Ha Hn. rewrite merge_unfold. cbv zeta.
  assert (forall f, bytes f -> bytes [Z.lor (byte_at f 47) (Z.land (s_flags b) 8)]) as Hf.
  { intros f Hf. apply Forall_singleton. pose proof (byte_at_range f 47 Hf) as H47.
    unfold is_u8 in *. apply lor_range; [lia|done|]. rewrite Z.land_comm. apply land_range; lia. }
  assert (bytes (put 48 (slice 48 2 next) (put 42 (slice 42 4 next)
    (put 16 (be_bytes 2 (u16 merged_len)) (acc ++ drop HDRS next))))) as Hb.
  { repeat apply bytes_put; auto using bytes_slice, be_bytes_bytes.
    apply Forall_app_2; [done|]. by apply Forall_drop. }
  apply bytes_put; [by apply Hf|done].
Qed.

Context (Hba : bytes acc) (Hbn : bytes next) (Hc : continues acc a next b = true).
Context (Hfit : Z.of_nat (length acc) + s_payload_len b <= 14 + 65535).

Lemma continues_Some :
  pure_data a = true /\ pure_data b = true /\ 0 <> s_payload_len b /\ flow acc = flow next /\
  s_seq b = u32 (s_seq a + s_payload_len a).
Proof.
  revert Hc. unfold continues, pure_data, same, flow, IP_AT, TCP_AT, ETH_HDR, IPV4_MIN_HDR. cbn [Nat.add].
  destruct (Z.land (s_flags a) _ =? 0), (Z.land (s_flags b) _ =? 0); cbn [negb orb]; try done.
  destruct (Z.eqb_spec (s_payload_len b) 0); [done|].
  case_bool_decide as E1; cbn [negb]; [|done]. case_bool_decide as E2; cbn [negb]; [|done].
  case_bool_decide as E3; cbn [negb]; [|done]. intros Hs%Z.eqb_eq.
  split_and!; [done..|lia|by rewrite E1, E2, E3|]. rewrite <- Hs. word_lia.
Qed.

(** Merging yields the segment that starts with [acc] and goes on with [next]. *)
Lemma merge_parse :
  parse (merge acc a next b) =
  Some (mkTcpSeg (s_payload_at a) (s_payload_len a + s_payload_len b) (s_seq a)
          (Z.lor (s_flags a) (Z.land (s_flags b) TCP_FLAG_PSH))) /\
  flow (merge acc a next b) = flow acc.
Proof.
  destruct (parse_payload_len _ _ Hacc) as [Hla _]. destruct (parse_payload_len _ _ Hnext) as [Hlb _].
  pose proof merge_length as Hlen. pose proof Hacc as Hp.
  apply parse_Some in Hp as (H54 & Et & E14 & E23 & Efr & H40 & Htl & Edo & Ea).
  assert (length (merge acc a next b) = length (acc ++ drop HDRS next)) as Hlx
    by (rewrite Hlen, length_app; done).
  assert (forall s n, (s + n <= 16 \/ 18 <= s /\ s + n <= 42)%nat ->
    slice s n (merge acc a next b) = slice s n acc) as Hsl.
  { intros s n Hs. transitivity (slice s n (acc ++ drop HDRS next)).
    - apply slice_ext; [done|]. intros i Hi _. rewrite merge_byte, byte_at_app_l by lia.
      destruct (Nat.eqb_spec i 47); [lia|].
      do 2 (rewrite (proj2 (Nat.leb_gt _ _)) by lia; cbn [andb]).
      destruct (Nat.leb_spec 16 i), (Nat.ltb_spec i 18); cbn [andb]; (reflexivity || lia).
    - unfold slice. rewrite drop_app_le, take_app_le by (rewrite ?length_drop; lia). done. }
  assert (be16 (merge acc a next b) 16 = merged_len) as E16.
  { unfold be16. rewrite !merge_byte by lia. cbn [Nat.eqb Nat.leb Nat.ltb Nat.sub andb Nat.add].
    assert (is_u16 merged_len) as Hm by (unfold merged_len, is_u16; rewrite length_drop in Hla; unfold HDRS in *; lia).
    unfold u16. rewrite Z.mod_small by done.
    destruct (be_bytes2 _ Hm) as (x & y & -> & Exy). cbn [byte_at nth]. by rewrite be_val_pair. }
  split.
  - apply parse_Some. rewrite E16. unfold be16 in *. rewrite !merge_byte, (Hsl 38%nat 4%nat) by lia.
    cbn [Nat.eqb Nat.leb Nat.ltb Nat.sub andb Nat.add]. rewrite Ea in *. cbn [s_payload_at s_seq s_flags s_payload_len] in *.
    unfold merged_len. rewrite Ea. cbn [s_payload_len]. rewrite Hlen.
    split_and!; try done; try lia. f_equal. lia.
  - unfold flow. by rewrite !Hsl by lia.
Qed.

Lemma data_events_app fl seq x y :
  data_events fl seq (x ++ y) =
  data_events fl seq x ++ data_events fl (u32 (seq + Z.of_nat (length x))) y.
Proof.
  unfold data_events. rewrite imap_app. f_equal. apply imap_ext. intros i c _. cbn.
  f_equal. rewrite Nat2Z.inj_add. word_lia.
Qed.

Lemma merge_wire : wire1 (merge acc a next b) = wire1 acc ++ wire1 next.
Proof.
  destruct merge_parse as [Hp Hf]. destruct continues_Some as (Pa & Pb & _ & Hfl & Hs).
  unfold wire1. rewrite Hp, Hacc, Hnext, Pa, Pb, Hf, merge_drop, Hs.
  destruct (parse_payload_len _ _ Hacc) as [Hla _]. cbn [s_seq].
  unfold pure_data, TCP_FLAG_PSH in *. cbn [s_flags].
  rewrite Z.land_lor_distr_l, <- Z.land_assoc. change (Z.land 8 TCP_FLAGS_NOT_DATA) with 0.
  rewrite Z.land_0_r, Z.lor_0_r, Pa. rewrite data_events_app, Hla, Hfl. done.
Qed.
End Merge.

(** ** Checksumming a merged frame *)

Lemma checksum_in_place_unfold f tcp :
  (54 <= length f)%nat ->
  checksum_in_place f tcp =
  let g := put 24 (be_bytes 2 (ones_complement (put 10 [0; 0] (slice 14 20 f)) 0)) f in
  if tcp then put 50 (be_bytes 2 (ones_complement (put 16 [0; 0] (drop 34 g)) (pseudo_sum g))) g
  else g.
Proof.
  intros Hf. unfold checksum_in_place, IP_AT, TCP_AT, ETH_HDR, IPV4_MIN_HDR. cbn [Nat.add].
  rewrite put_put by put_len. rewrite slice_of_put by (cbn [length]; lia).
  change (24 - 14)%nat with 10%nat.
  destruct tcp; cbn [negb]; [|done]. cbv zeta.
  set (g := put 24 _ f). assert (length g = length f) as Hg by (unfold g; put_len).
  rewrite put_put by (rewrite ?length_be_bytes; cbn [length]; lia).
  rewrite drop_of_put by (cbn [length]; lia). reflexivity.
Qed.

Lemma checksum_in_place_frame f tcp :
  (54 <= length f)%nat ->
  length (checksum_in_place f tcp) = length f /\
  drop HDRS (checksum_in_place f tcp) = drop HDRS f /\
  forall i, i ∉ [24; 25; 50; 51]%nat -> byte_at (checksum_in_place f tcp) i = byte_at f i.
Proof.
  intros Hf. rewrite checksum_in_place_unfold by done. cbv zeta.
  set (c := be_bytes 2 (ones_complement _ 0)).
  assert (length c = 2%nat) as Hc by (unfold c; apply length_be_bytes).
  assert (forall k x, length x = 2%nat -> k = 24%nat \/ k = 50%nat -> forall g,
    (54 <= length g)%nat -> length (put k x g) = length g /\ drop HDRS (put k x g) = drop HDRS g /\
    forall i, i ∉ [24; 25; 50; 51]%nat -> byte_at (put k x g) i = byte_at g i) as Hput.
  { intros k x Hx Hk g Hg. unfold HDRS. rewrite length_put, drop_put by lia. split_and!; [done..|].
    intros i Hi. rewrite byte_at_put by lia. rewrite Hx.
    destruct (Nat.leb_spec k i), (Nat.ltb_spec i (k + 2)); cbn [andb]; try done.
    exfalso. apply Hi. assert (i = 24 \/ i = 25 \/ i = 50 \/ i = 51)%nat by lia. set_solver. }
  destruct (Hput 24%nat c Hc ltac:(auto) f Hf) as (L1 & D1 & B1).
  destruct tcp; [|exact (conj L1 (conj D1 B1))]. set (c2 := be_bytes 2 _).
  destruct (Hput 50%nat c2 (length_be_bytes _ _) ltac:(auto) (put 24 c f)) as (L2 & D2 & B2); [lia|].
  rewrite L2, D2. split_and!; [done..|]. intros i Hi. by rewrite B2, B1.
Qed.

Lemma parse_ext f g :
  length f = length g -> (forall i, i ∉ [24; 25; 50; 51]%nat -> byte_at f i = byte_at g i) ->
  parse f = parse g /\ flow f = flow g.
Proof.
  intros Hl Hb.
  assert (forall a n, (a + n <= 24 \/ 26 <= a /\ a + n <= 50)%nat -> slice a n f = slice a n g) as Hs.
  { intros a n Han. apply slice_ext; [done|]. intros i Hi _. apply Hb. set_unfold. lia. }
  split; [|unfold flow; by rewrite !Hs by lia].
  unfold parse, be16, IP_AT, TCP_AT, ETH_HDR, IPV4_MIN_HDR. cbn [Nat.add].
  rewrite Hl, !Hb, (Hs 38%nat 4%nat) by (set_solver || lia). reflexivity.
Qed.

Lemma pseudo_sum_range f :
  bytes f -> 34 <= Z.of_nat (length f) <= 65549 -> 0 <= pseudo_sum f <= 5 * 65535.
Proof.
  intros Hb Hl. unfold pseudo_sum, IP_AT, TCP_AT, ETH_HDR, IPV4_MIN_HDR, IP_PROTO_TCP. cbn [Nat.add].
  pose proof (bytes_slice 26 8 f Hb) as Hs.
  pose proof (sum16_range _ Hs) as Hr. rewrite length_slice in Hr by lia.
  change ((Z.of_nat 8 + 1) / 2) with 4 in Hr.
  rewrite sum_chunks_spec; [|done|done|rewrite length_slice by lia; reflexivity].
  unfold u32. rewrite (Z.mod_small (Z.of_nat _)), (Z.mod_small (6 + _)), Z.mod_small by lia. lia.
Qed.

(** The receiver's verification of a frame: the header and, when [tcp], the
    segment under its pseudo-header sum to zero. *)
Definition verifies (tcp : bool) (f : list Z) : Prop :=
  ones_complement (slice 14 20 f) 0 = 0 /\
  (tcp = true -> ones_complement (drop 34 f) (pseudo_sum f) = 0).

Lemma checksum_in_place_verifies f tcp :
  bytes f -> 54 <= Z.of_nat (length f) <= 65549 ->
  bytes (checksum_in_place f tcp) /\ verifies tcp (checksum_in_place f tcp).
Proof.
  intros Hb Hl. rewrite checksum_in_place_unfold by lia. cbv zeta.
  set (g := put 24 _ f). assert (length g = length f) as Hg by (unfold g; put_len).
  assert (bytes g) as Hbg by (apply bytes_put; [apply be_bytes_bytes|done]).
  assert (ones_complement (slice 14 20 g) 0 = 0) as Hip.
  { unfold g. rewrite slice_of_put by (rewrite ?length_be_bytes; lia).
    apply stored_checksum_verifies; [done|rewrite length_slice; lia|by apply bytes_slice|].
    split; [lia|]. rewrite length_slice by lia. reflexivity. }
  destruct tcp; [|by split_and!]. set (c := be_bytes 2 _).
  assert (length c = 2%nat) as Hc by (unfold c; apply length_be_bytes).
  split; [by apply bytes_put; [apply be_bytes_bytes|]|]. split.
  - rewrite slice_put by lia. done.
  - intros _. rewrite drop_of_put by lia.
    assert (pseudo_sum (put 50 c g) = pseudo_sum g) as ->.
    { unfold pseudo_sum. rewrite length_put, slice_put by (unfold IP_AT, ETH_HDR; lia). done. }
    apply stored_checksum_verifies; [done|rewrite length_drop; lia|by apply Forall_drop|].
    pose proof (pseudo_sum_range g Hbg ltac:(lia)). split; [lia|]. rewrite length_drop, Hg.
    assert ((Z.of_nat (length f - 34) + 1) / 2 <= 32768) by (Z.div_mod_to_equations; lia). lia.
Qed.

(** ** Coalescing *)

Lemma parse_length f s : bytes f -> parse f = Some s -> 54 <= Z.of_nat (length f) <= 65549.
Proof.
  intros Hb (? & _ & _ & _ & _ & _ & Ht & _)%parse_Some. pose proof (be16_range f 16 Hb).
  unfold is_u16 in *. lia.
Qed.

(** What the loop leaves: [acc'] carries [acc] and the frames taken from the
    front of [queue], and fits in [limit] when it took any. *)
Definition absorbed (limit : Z) (queue : list (list Z)) (acc : list Z) (mg : bool)
    (out : list Z * bool * list (list Z)) : Prop :=
  let '(acc', mg', rest) := out in
  exists taken, queue = taken ++ rest /\ wire1 acc' = wire1 acc ++ wire taken /\ bytes acc' /\
    (exists s, parse acc' = Some s /\ (taken <> [] -> pure_data s = true)) /\
    (taken = [] -> acc' = acc /\ mg' = mg) /\
    (taken <> [] -> mg' = true /\ Z.of_nat (length acc') <= limit).

Lemma absorb_spec limit queue acc seg mg :
  limit <= 65549 -> Forall bytes queue -> bytes acc -> parse acc = Some seg ->
  absorbed limit queue acc mg (absorb limit queue acc seg mg).
Proof.
  intros Hlim. revert acc seg mg.
  assert (forall queue acc seg mg, bytes acc -> parse acc = Some seg ->
    absorbed limit queue acc mg (acc, mg, queue)) as Hstop.
  { intros q acc seg mg Hb Hp. exists []. cbn. rewrite app_nil_r. by split_and!; eauto. }
  induction queue as [|next queue IH]; intros acc seg mg Hq Hb Hp; cbn [absorb];
    [by eapply Hstop|].
  destruct (parse next) as [nseg|] eqn:En; [|by eapply Hstop].
  destruct (Z.ltb_spec limit (Z.of_nat (length acc) + s_payload_len nseg)); [by eapply Hstop|].
  destruct (continues acc seg next nseg) eqn:Ec; cbn [negb]; [|by eapply Hstop].
  apply Forall_cons in Hq as [Hbn Hq].
  pose proof (merge_parse acc seg next nseg Hp En Ec ltac:(lia)) as [Hm _].
  pose proof (merge_wire acc seg next nseg Hp En Ec ltac:(lia)) as Hw.
  pose proof (merge_length acc seg next nseg Hp En) as Hml.
  pose proof (parse_payload_len _ _ En) as [Hpl _].
  destruct (continues_Some acc seg next nseg Ec) as (Pa & _).
  assert (pure_data (mkTcpSeg (s_payload_at seg) (s_payload_len seg + s_payload_len nseg) (s_seq seg)
    (Z.lor (s_flags seg) (Z.land (s_flags nseg) TCP_FLAG_PSH))) = true) as Hpd.
  { unfold pure_data, TCP_FLAG_PSH in *. cbn [s_flags].
    rewrite Z.land_lor_distr_l, <- Z.land_assoc. change (Z.land 8 TCP_FLAGS_NOT_DATA) with 0.
    by rewrite Z.land_0_r, Z.lor_0_r. }
  specialize (IH _ _ true Hq (merge_bytes acc seg next nseg En Hb Hbn) Hm).
  destruct (absorb _ _ _ _ _) as [[acc' mg'] rest].
  destruct IH as (taken & -> & Hw' & Hb' & (s & Hs & Hds) & Hnil & Hcons).
  exists (next :: taken). split_and!; [done| |done| | done | ].
  - rewrite Hw', Hw. unfold wire. cbn. by rewrite <- app_assoc.
  - exists s. split; [done|]. intros _. destruct taken; [|by apply Hds].
    destruct (Hnil eq_refl) as [-> _]. rewrite Hm in Hs. by injection Hs as <-.
  - intros _. destruct taken; [|by apply Hcons]. destruct (Hnil eq_refl) as [-> ->].
    split; [done|]. rewrite Hml. lia.
Qed.

Lemma pop_coalesced_spec queue limit tcp :
  Forall bytes queue -> queue <> [] ->
  exists f taken rest, pop_coalesced queue limit tcp = (Some f, rest) /\
    queue = taken ++ rest /\ taken <> [] /\ wire1 f = wire taken /\ bytes f /\
    (length taken = 1%nat -> taken = [f]) /\
    ((1 < length taken)%nat -> Z.of_nat (length f) <= limit /\ verifies tcp f).
Proof.
  intros Hq Hne. destruct queue as [|acc queue]; [done|]. apply Forall_cons in Hq as [Hb Hq].
  assert (wire1 acc = wire [acc]) as Hw1 by (unfold wire; cbn; by rewrite app_nil_r).
  unfold pop_coalesced. destruct (parse acc) as [seg|] eqn:Ep.
  2:{ exists acc, [acc], queue. split_and!; try done. cbn. lia. }
  destruct (absorb _ queue acc seg false) as [[acc' mg] rest] eqn:Ea.
  pose proof (absorb_spec (Z.min limit (Z.of_nat ETH_HDR + IP_MAX_TOTAL)) queue acc seg false
    ltac:(unfold ETH_HDR, IP_MAX_TOTAL; lia) Hq Hb Ep) as Hsp.
  rewrite Ea in Hsp. destruct Hsp as (taken & -> & Hw & Hb' & (s & Hs & Hds) & H0 & H1).
  destruct (decide (taken = [])) as [->|Ht].
  { destruct (H0 eq_refl) as [-> ->]. exists acc, [acc], rest. split_and!; try done. cbn. lia. }
  destruct (H1 Ht) as [-> Hlen]. specialize (Hds Ht).
  pose proof (parse_length _ _ Hb' Hs) as Hlr.
  destruct (checksum_in_place_frame acc' tcp ltac:(lia)) as (L & D & B).
  destruct (checksum_in_place_verifies acc' tcp Hb' Hlr) as [Hcb Hv].
  destruct (parse_ext _ _ L B) as [P F].
  exists (checksum_in_place acc' tcp), (acc :: taken), rest. split_and!; try done.
  - transitivity (wire1 acc').
    + unfold wire1. by rewrite P, F, D, Hs, Hds.
    + rewrite Hw, Hw1. unfold wire. cbn. by rewrite app_nil_r.
  - destruct taken; [done|]. cbn. lia.
  - intros _. split; [|done]. rewrite L. lia.
Qed.

(** The frames taken by one [pop_coalesced] per entry of [limits], and the rest. *)
Fixpoint pops (limits : list Z) (tcp : bool) (queue : list (list Z)) :
    list (list Z) * list (list Z) :=
  match limits with
  | [] => ([], queue)
  | limit :: limits =>
      match pop_coalesced queue limit tcp with
      | (Some f, queue) => let '(fs, rest) := pops limits tcp queue in (f :: fs, rest)
      | (None, queue) => ([], queue)
      end
  end.

Lemma pops_wire limits tcp queue :
  Forall bytes queue ->
  wire (pops limits tcp queue).1 ++ wire (pops limits tcp queue).2 = wire queue /\
  ((length queue <= length limits)%nat -> (pops limits tcp queue).2 = []).
Proof.
  revert queue. induction limits as [|limit limits IH]; intros queue Hq; cbn [pops].
  { split; [done|]. destruct queue; [done|]. cbn. lia. }
  destruct (decide (queue = [])) as [->|Hne]; [done|].
  destruct (pop_coalesced_spec queue limit tcp Hq Hne)
    as (f & taken & rest & -> & -> & Ht & Hw & _).
  apply Forall_app in Hq as [_ Hr]. destruct (IH rest Hr) as [IH1 IH2].
  destruct (pops limits tcp rest) as [fs r]. cbn [fst snd] in *. split.
  - unfold wire in *. rewrite fmap_cons, concat_cons, fmap_app, concat_app, Hw.
    by rewrite <- app_assoc, IH1.
  - intros Hl. apply IH2. rewrite length_app in Hl. destruct taken; [done|]. cbn in Hl. lia.
Qed.

Lemma checksum_loop_spec fuel data i sum :
  (length data < i + fuel)%nat -> checksum_loop fuel data i sum = sum_chunks (drop i data) sum.
Proof.
  revert i sum. induction fuel as [|fuel IH]; intros i sum Hf.
  { by rewrite drop_ge by lia. }
  cbn [checksum_loop]. destruct (Nat.ltb_spec (i + 1) (length data)) as [H1|H1].
  - destruct (lookup_lt_is_Some_2 data i ltac:(lia)) as [x Hx].
    destruct (lookup_lt_is_Some_2 data (i + 1) ltac:(lia)) as [y Hy].
    rewrite IH, (drop_S data x i Hx) by lia.
    replace (drop (S i) data) with (y :: drop (i + 2) data).
    + cbn [sum_chunks]. unfold be16. by rewrite !byte_at_lookup, Hx, Hy.
    + replace (i + 2)%nat with (S (i + 1)) by lia. rewrite <- (drop_S data y (i + 1) Hy).
      f_equal. lia.
  - destruct (Nat.ltb_spec i (length data)) as [H2|H2]; [|by rewrite drop_ge by lia].
    destruct (lookup_lt_is_Some_2 data i H2) as [x Hx].
    rewrite (drop_S data x i Hx), (drop_ge data (S i)) by lia. cbn [sum_chunks].
    by rewrite byte_at_lookup, Hx.
Qed.

(** The two checksums of the code are one function. *)
Lemma checksum_agrees data : checksum data = ones_complement data 0.
Proof. unfold checksum, ones_complement. by rewrite checksum_loop_spec by lia. Qed.

(** ** Properties of coalescing *)

(** A 1-byte-payload segment of one flow: sequence number, flags, payload. *)
Definition demo_seg (seq flags : Z) (payload : list Z) : list Z :=
  replicate 12 7 ++ [8; 0] ++
  [69; 0] ++ be_bytes 2 (40 + Z.of_nat (length payload)) ++ [0; 0; 64; 0; 64; 6; 0; 0] ++
  [10; 0; 0; 1; 10; 0; 0; 2] ++ [0; 80; 1; 0] ++ be_bytes 4 seq ++ [0; 0; 0; 9; 80; flags] ++
  [1; 0; 0; 0; 0; 0] ++ payload.

Definition demo_backlog : list (list Z) :=
  [demo_seg 100 16 [1; 2]; demo_seg 102 24 [3]; [9; 9; 9]; demo_seg 103 17 [4]].

Lemma demo_backlog_bytes : Forall bytes demo_backlog.
Proof. by apply forallb_bytesb. Qed.

(** C30: popping a backlog of frames to the end, with any buffer capacities,
    gives the guest exactly what the backlog holds: the same payload bytes of
    the same flows at the same sequence numbers in the same order, and every
    frame that is not a plain data segment unchanged and in its place. *)
Theorem coalescing_preserves_stream limits tcp queue :
  Forall bytes queue -> (length queue <= length limits)%nat ->
  wire (pops limits tcp queue).1 = wire queue /\ (pops limits tcp queue).2 = [].
Proof.
  intros Hq Hl. destruct (pops_wire limits tcp queue Hq) as [Hw Hr].
  specialize (Hr Hl). rewrite Hr in Hw. cbn in Hw. by rewrite app_nil_r in Hw.
Qed.

Lemma coalescing_preserves_stream_witness :
  wire (pops [1500; 1500; 1500; 1500] true demo_backlog).1 = wire demo_backlog /\
  length (pops [1500; 1500; 1500; 1500] true demo_backlog).1 = 3%nat.
Proof.
  split; [|reflexivity].
  apply (coalescing_preserves_stream [1500; 1500; 1500; 1500] true demo_backlog demo_backlog_bytes).
  cbn. lia.
Defined.

(** A packet merged from several frames fits in the guest's buffer and
    passes the receiver's checks: its IPv4 header checksum verifies, and so
    does its TCP checksum when the driver did not negotiate to skip it. *)
Theorem coalesced_frame_verifies queue limit tcp f taken rest :
  Forall bytes queue -> pop_coalesced queue limit tcp = (Some f, rest) ->
  queue = taken ++ rest -> (1 < length taken)%nat ->
  Z.of_nat (length f) <= limit /\ verifies tcp f.
Proof.
  intros Hq Hp -> Ht.
  destruct (pop_coalesced_spec (taken ++ rest) limit tcp Hq) as (f' & tk & r & Hp' & E & _ & _ & _ & _ & Hv);
    [destruct taken; cbn in Ht; [lia|done]|].
  rewrite Hp in Hp'. injection Hp' as <- <-. apply app_inv_tail in E as ->. by apply Hv.
Qed.

Lemma coalesced_frame_verifies_witness :
  exists f, pop_coalesced demo_backlog 1500 true = (Some f, drop 2 demo_backlog) /\ verifies true f.
Proof.
  eexists. split; [reflexivity|].
  apply (coalesced_frame_verifies demo_backlog 1500 true _ (take 2 demo_backlog) (drop 2 demo_backlog)
    demo_backlog_bytes); [reflexivity..|cbn; lia].
Defined.

(** The documentation says that a segment is merged only when it carries no flag
    with a meaning beyond more data; ECE and CWR are not in the excluded set, and
    merging drops them: the delivered packet has lost the flag. *)
Lemma congestion_flag_dropped :
  exists f, pop_coalesced [demo_seg 100 16 [1; 2]; demo_seg 102 (16 + 128) [3]] 1500 true = (Some f, []) /\
    has_bit (byte_at (demo_seg 102 (16 + 128) [3]) 47) 7 = true /\ has_bit (byte_at f 47) 7 = false.
Proof. eexists. split; [reflexivity|]. split; reflexivity. Qed.
