(* ===== verification/NetDev.v ===== *)
(** * The virtio-net device and its responder

    [virtio/net.rs]: the backlog of frames for the guest, the responder behind it
    as a class with [EchoResponder] as an instance, and the bounded service burst;
    [virtio/rng.rs]: the entropy device. The theorems: a service pass neither loses
    nor reorders a frame and is bounded, and the echo responder's answer is
    well-formed and verifies. *)

From Stdlib Require Import ZArith Lia Bool.
From stdpp Require Import base numbers list list_numbers option.
From S2P Require Import Prelude GuestMem VirtQueue Lro.

Definition VIRTIO_NET_HDR_LEN : Z := 12.
Definition SERVICE_BURST_PASSES : nat := 32.
Definition VIRTIO_NET_HDR_F_DATA_VALID : Z := 2.
Definition VIRTIO_NET_F_GUEST_CSUM : Z := Z.shiftl 1 1.
Definition ETHERTYPE_ARP : Z := 0x0806.
Definition ARP_OP_REQUEST : Z := 1.
Definition ARP_OP_REPLY : Z := 2.
Definition IP_PROTO_ICMP : Z := 1.
Definition ICMP_ECHO_REQUEST : Z := 8.
Definition ICMP_ECHO_REPLY : Z := 0.

(** The data path of the trait [NetResponder]. *)
Class NetResponder (R : Type) := {
  accept : R -> list Z -> R;
  service : R -> list (list Z) * R;
}.

(** ** The echo responder *)

Record EchoResponder := mkEcho {
  gateway_ip : list Z;
  gateway_mac : list Z;
  replies : list (list Z);
}.

Definition echo_new (ip mac : list Z) : EchoResponder := mkEcho ip mac [].

Definition handle_arp (r : EchoResponder) (frame : list Z) : option (list Z) :=
  if (length frame <? 14 + 28)%nat then None
  else
    let arp := slice 14 28 frame in
    if negb (be16 arp 6 =? ARP_OP_REQUEST) then None
    else
      let sha := slice 8 6 arp in
      let spa := slice 14 4 arp in
      let tpa := slice 24 4 arp in
      if negb (bool_decide (tpa = gateway_ip r)) then None
      else
        Some (sha ++ gateway_mac r ++ be_bytes 2 ETHERTYPE_ARP ++
              be_bytes 2 1 ++ be_bytes 2 ETHERTYPE_IPV4 ++ [6] ++ [4] ++ be_bytes 2 ARP_OP_REPLY ++
              gateway_mac r ++ gateway_ip r ++ sha ++ spa).

Definition handle_ipv4 (r : EchoResponder) (frame : list Z) : option (list Z) :=
  if (length frame <? 14 + 20)%nat then None
  else
    let eth_src := slice 6 6 frame in
    let ip := drop 14 frame in
    let ihl := (Z.to_nat (Z.land (byte_at ip 0) 0x0f) * 4)%nat in
    if (ihl <? 20)%nat || (length ip <? ihl)%nat then None
    else if negb (byte_at ip 9 =? IP_PROTO_ICMP) then None
    else
      let src_ip := slice 12 4 ip in
      let dst_ip := slice 16 4 ip in
      if negb (bool_decide (dst_ip = gateway_ip r)) then None
      else
        let icmp := drop ihl ip in
        if (length icmp <? 8)%nat || negb (byte_at icmp 0 =? ICMP_ECHO_REQUEST) then None
        else
          let out_ip := put 12 dst_ip ip in
          let out_ip := put 16 src_ip out_ip in
          let out_ip := put 10 [0] out_ip in
          let out_ip := put 11 [0] out_ip in
          let ip_csum := checksum (take ihl out_ip) in
          let out_ip := put 10 (be_bytes 2 ip_csum) out_ip in
          let out_ip := put ihl [ICMP_ECHO_REPLY] out_ip in
          let out_ip := put (ihl + 2) [0] out_ip in
          let out_ip := put (ihl + 3) [0] out_ip in
          let icmp_csum := checksum (drop ihl out_ip) in
          let out_ip := put (ihl + 2) (be_bytes 2 icmp_csum) out_ip in
          Some (eth_src ++ gateway_mac r ++ be_bytes 2 ETHERTYPE_IPV4 ++ out_ip).

Definition echo_accept (r : EchoResponder) (frame : list Z) : EchoResponder :=
  if (length frame <? 14)%nat then r
  else
    let ethertype := be16 frame 12 in
    let reply :=
      if ethertype =? ETHERTYPE_ARP then handle_arp r frame
      else if ethertype =? ETHERTYPE_IPV4 then handle_ipv4 r frame
      else None in
    mkEcho (gateway_ip r) (gateway_mac r)
      (replies r ++ match reply with Some f => [f] | None => [] end).

Definition echo_service (r : EchoResponder) : list (list Z) * EchoResponder :=
  (replies r, mkEcho (gateway_ip r) (gateway_mac r) []).

#[export] Instance echo_responder : NetResponder EchoResponder :=
  {| accept := echo_accept; service := echo_service |}.

(** ** The device *)

Record NetDevice (R : Type) := mkNet {
  responder : R;
  pending_rx : list (list Z);
  rx_capacity : option Z;
  guest_csum : bool;
}.
Arguments mkNet {R} _ _ _ _.
Arguments responder {R} _.
Arguments pending_rx {R} _.
Arguments rx_capacity {R} _.
Arguments guest_csum {R} _.

Definition net_new {R} (r : R) : NetDevice R := mkNet r [] None false.

Definition apply_features {R} (acked : Z) (n : NetDevice R) : NetDevice R :=
  mkNet (responder n) (pending_rx n) (rx_capacity n)
    (negb (Z.land acked VIRTIO_NET_F_GUEST_CSUM =? 0)).

Definition with_features {R} (n : NetDevice R) (acked : Z) : NetDevice R := apply_features acked n.

Definition rx_header_flags {R} (n : NetDevice R) : Z :=
  if guest_csum n then VIRTIO_NET_HDR_F_DATA_VALID else 0.

Definition observe_rx_capacity {R} (bytes : Z) (n : NetDevice R) : NetDevice R :=
  mkNet (responder n) (pending_rx n)
    (Some match rx_capacity n with Some prev => Z.min prev bytes | None => bytes end) (guest_csum n).

(** [cap.saturating_sub(VIRTIO_NET_HDR_LEN)], zero before a chain was seen. *)
Definition rx_room {R} (n : NetDevice R) : Z :=
  match rx_capacity n with Some cap => sat_sub cap VIRTIO_NET_HDR_LEN | None => 0 end.

Definition has_pending_rx {R} (n : NetDevice R) : bool :=
  match pending_rx n with [] => false | _ => true end.

Definition pop_rx {R} (n : NetDevice R) : option (list Z) * NetDevice R :=
  let '(f, q) := pop_coalesced (pending_rx n) (rx_room n) (negb (guest_csum n)) in
  (f, mkNet (responder n) q (rx_capacity n) (guest_csum n)).

Definition requeue_rx {R} (frame : list Z) (n : NetDevice R) : NetDevice R :=
  mkNet (responder n) (frame :: pending_rx n) (rx_capacity n) (guest_csum n).

Definition frames_len (fs : list (list Z)) : Z := foldr (fun f s => Z.of_nat (length f) + s) 0 fs.

Section Device.
Context `{NetResponder R}.

Definition handle_tx_frame (frame : list Z) (n : NetDevice R) : NetDevice R :=
  mkNet (accept (responder n) frame) (pending_rx n) (rx_capacity n) (guest_csum n).

(** The burst: [passes] rounds at most, until a round is idle or the backlog
    holds [target] bytes. *)
Fixpoint service_loop (passes : nat) (target : Z) (r : R) (q : list (list Z))
    (pending_bytes : Z) (produced : bool) : R * list (list Z) * bool :=
  match passes with
  | O => (r, q, produced)
  | S passes =>
      let '(out, r) := service r in
      let pending_bytes := pending_bytes + frames_len out in
      let any := match out with [] => false | _ => true end in
      let q := q ++ out in
      let produced := produced || any in
      if negb any || (target <=? pending_bytes) then (r, q, produced)
      else service_loop passes target r q pending_bytes produced
  end.

Definition net_service (n : NetDevice R) : bool * NetDevice R :=
  let '(r, q, produced) :=
    service_loop SERVICE_BURST_PASSES (rx_room n) (responder n) (pending_rx n)
      (frames_len (pending_rx n)) false in
  (produced, mkNet r q (rx_capacity n) (guest_csum n)).

(** The frames of [k] calls of [service] in a row, and the responder after them. *)
Fixpoint serviced (k : nat) (r : R) : list (list Z) * R :=
  match k with
  | O => ([], r)
  | S k => let '(out, r) := service r in let '(outs, r) := serviced k r in (out ++ outs, r)
  end.

Lemma frames_len_app a b : frames_len (a ++ b) = frames_len a + frames_len b.
Proof. unfold frames_len. induction a as [|f a IH]; cbn; lia. Qed.

Lemma service_loop_spec passes target r q produced :
  exists k, (k <= passes)%nat /\
    service_loop passes target r q (frames_len q) produced =
      ((serviced k r).2, q ++ (serviced k r).1,
       produced || match (serviced k r).1 with [] => false | _ => true end) /\
    (forall j, (0 < j < k)%nat -> frames_len (q ++ (serviced j r).1) < target).
Proof.
  revert r q produced. induction passes as [|passes IH]; intros r q produced.
  { exists 0%nat. cbn. rewrite app_nil_r, orb_false_r. split_and!; [lia|done|lia]. }
  cbn [service_loop]. destruct (service r) as [out r1] eqn:E.
  assert (serviced 1 r = (out, r1)) as E1 by (cbn; by rewrite E, app_nil_r).
  rewrite <- frames_len_app. destruct (negb _ || (target <=? _)) eqn:Es.
  - exists 1%nat. rewrite E1. split_and!; [lia|done|lia].
  - apply orb_false_iff in Es as [Hany Ht%Z.leb_gt].
    destruct (IH r1 (q ++ out) (produced || match out with [] => false | _ => true end))
      as (k & Hk & Hl & Hb).
    exists (S k). cbn [serviced]. rewrite E.
    destruct (serviced k r1) as [outs r2] eqn:Ek. cbn [fst snd] in *. split_and!; [lia| |].
    + rewrite Hl. destruct out; [done|]. cbn. rewrite <- app_assoc, !orb_true_r. done.
    + intros j Hj. destruct j as [|j]; [lia|]. cbn [serviced]. rewrite E.
      destruct (decide (j = 0%nat)) as [->|Hj0]; [cbn; by rewrite app_nil_r|].
      specialize (Hb j ltac:(lia)). destruct (serviced j r1) as [outs' r']. cbn [fst] in *.
      by rewrite app_assoc.
Qed.

End Device.

(** ** The entropy device *)

(** The trait [EntropySource]: fill a buffer. *)
Class EntropySource (E : Type) := fill : E -> list Z -> list Z * E.

Section Rng.
Context `{EntropySource E}.

Fixpoint rng_loop (segs : list Segment) (e : E) (m : GuestMemory) (written : Z) :
    Z * E * GuestMemory :=
  match segs with
  | [] => (written, e, m)
  | seg :: segs =>
      let '(buf, e) := fill e (replicate (Z.to_nat (seg_len seg)) 0) in
      match mem_write m (seg_gpa seg) buf with
      | Ok m => rng_loop segs e m (sat_add32 written (seg_len seg))
      | _ => (written, e, m)
      end
  end.

Definition rng_process (e : E) (m : GuestMemory) (c : DescChain) : Z * E * GuestMemory :=
  rng_loop (writable c) e m 0.
End Rng.

(** ** The echo reply *)

Lemma put_pair a x y l :
  (a + 2 <= length l)%nat -> put (a + 1) [y] (put a [x] l) = put a [x; y] l.
Proof.
  intros Hl. apply byte_ext; [rewrite !length_put by (rewrite ?length_put; cbn [length]; lia); done|].
  intros i _. rewrite !byte_at_put by (rewrite ?length_put; cbn [length]; lia). cbn [length].
  destruct (Nat.eq_dec i (a + 1)%nat) as [->|H1].
  - rewrite !(proj2 (Nat.leb_le _ _)), (proj2 (Nat.ltb_lt _ (a + 1 + 1)%nat)), (proj2 (Nat.ltb_lt _ (a + 2)%nat)) by lia.
    cbn [andb].
    replace (a + 1 - (a + 1))%nat with 0%nat by lia. by replace (a + 1 - a)%nat with 1%nat by lia.
  - replace ((a + 1 <=? i)%nat && (i <? a + 1 + 1)%nat) with false
      by (symmetry; apply andb_false_iff; rewrite Nat.leb_gt, Nat.ltb_ge; lia).
    destruct (Nat.eq_dec i a) as [->|H2].
    + rewrite Nat.leb_refl, (proj2 (Nat.ltb_lt _ (a + 1)%nat)), (proj2 (Nat.ltb_lt _ (a + 2)%nat)) by lia.
      cbn [andb]. by rewrite Nat.sub_diag.
    + replace ((a <=? i)%nat && (i <? a + 1)%nat) with false
        by (symmetry; apply andb_false_iff; rewrite Nat.leb_gt, Nat.ltb_ge; lia).
      by replace ((a <=? i)%nat && (i <? a + 2)%nat) with false
        by (symmetry; apply andb_false_iff; rewrite Nat.leb_gt, Nat.ltb_ge; lia).
Qed.

(** What the responder sends back, in one update per field. *)
Definition echo_ip (ihl : nat) (ip : list Z) : list Z :=
  let a := put 16 (slice 12 4 ip) (put 12 (slice 16 4 ip) ip) in
  let c := put 10 (be_bytes 2 (ones_complement (put 10 [0; 0] (take ihl a)) 0)) a in
  let d := put ihl [0] c in
  put (ihl + 2) (be_bytes 2 (ones_complement (put 2 [0; 0] (drop ihl d)) 0)) d.

Lemma take_of_put n b bs l :
  (b + length bs <= n)%nat -> (n <= length l)%nat -> take n (put b bs l) = put b bs (take n l).
Proof.
  intros Hb Hn. pose proof (slice_of_put 0 n b bs l ltac:(lia) Hb Hn) as E.
  unfold slice in E. rewrite !drop_0, Nat.sub_0_r in E. exact E.
Qed.

Lemma take_put_ge n b bs l :
  (n <= b)%nat -> (b + length bs <= length l)%nat -> take n (put b bs l) = take n l.
Proof.
  intros Hb Hl. pose proof (slice_put 0 n b bs l Hl ltac:(lia)) as E.
  unfold slice in E. by rewrite !drop_0 in E.
Qed.

Definition echo_ihl (frame : list Z) : nat := (Z.to_nat (Z.land (byte_at frame 14) 0x0f) * 4)%nat.

Lemma byte_at_drop a l i : byte_at (drop a l) i = byte_at l (a + i).
Proof. rewrite !byte_at_lookup. by rewrite lookup_drop. Qed.

Lemma handle_ipv4_Some r frame reply :
  handle_ipv4 r frame = Some reply ->
  (20 <= echo_ihl frame)%nat /\ (14 + echo_ihl frame + 8 <= length frame)%nat /\
  slice 30 4 frame = gateway_ip r /\ byte_at frame 23 = 1 /\ byte_at frame (14 + echo_ihl frame) = 8 /\
  reply = slice 6 6 frame ++ gateway_mac r ++ [8; 0] ++ echo_ip (echo_ihl frame) (drop 14 frame).
Proof.
  unfold handle_ipv4. destruct (Nat.ltb_spec (length frame) (14 + 20)) as [|Hl]; [done|].
  rewrite !byte_at_drop. change (14 + 0)%nat with 14%nat. change (14 + 9)%nat with 23%nat.
  fold (echo_ihl frame). set (ihl := echo_ihl frame).
  destruct (Nat.ltb_spec ihl 20) as [|Hi]; cbn [orb]; [done|].
  destruct (Nat.ltb_spec (length (drop 14 frame)) ihl) as [|Hd]; [done|].
  unfold IP_PROTO_ICMP. destruct (Z.eqb_spec (byte_at frame 23) 1) as [Ep|]; cbn [negb]; [|done].
  case_bool_decide as Eg; cbn [negb]; [|done].
  destruct (Nat.ltb_spec (length (drop ihl (drop 14 frame))) 8) as [|H8]; cbn [orb]; [done|].
  unfold ICMP_ECHO_REQUEST. replace (ihl + 0)%nat with ihl by lia. destruct (Z.eqb_spec (byte_at frame (14 + ihl)) 8) as [E8|]; cbn [negb]; [|done].
  rewrite !length_drop in *. set (ip := drop 14 frame) in *.
  assert (length ip = length frame - 14)%nat as Hip by (unfold ip; apply length_drop).
  intros [= <-]. split_and!; try lia; try done.
  { rewrite <- Eg. unfold ip, slice. by rewrite drop_drop. }
  do 3 f_equal. unfold echo_ip, ICMP_ECHO_REPLY.
  set (a := put 16 _ (put 12 _ ip)).
  assert (length a = length ip) as Ha by (unfold a; put_len).
  change (put 11 [0]) with (put (10 + 1) [0]). rewrite put_pair by lia.
  rewrite !checksum_agrees, take_of_put by (cbn [length]; lia).
  rewrite put_put by (rewrite ?length_be_bytes; cbn [length]; lia).
  set (c := put 10 _ a). assert (length c = length ip) as Hc by (unfold c; put_len).
  set (d := put ihl [0] c). assert (length d = length ip) as Hd2 by (unfold d; put_len).
  replace (ihl + 3)%nat with (ihl + 2 + 1)%nat by lia. rewrite put_pair by lia.
  rewrite drop_of_put by (cbn [length]; lia). replace (ihl + 2 - ihl)%nat with 2%nat by lia.
  rewrite put_put by (rewrite ?length_be_bytes; cbn [length]; lia). done.
Qed.

Lemma echo_ip_spec ihl ip :
  bytes ip -> Nat.even ihl = true -> (20 <= ihl)%nat -> (ihl + 8 <= length ip)%nat ->
  Z.of_nat (length ip) <= 65535 ->
  let out := echo_ip ihl ip in
  length out = length ip /\
  ones_complement (take ihl out) 0 = 0 /\ ones_complement (drop ihl out) 0 = 0 /\
  slice 12 4 out = slice 16 4 ip /\ slice 16 4 out = slice 12 4 ip /\
  byte_at out ihl = 0 /\ drop (ihl + 4) out = drop (ihl + 4) ip.
Proof.
  intros Hb He Hi Hl Hz out.
  set (a := put 16 (slice 12 4 ip) (put 12 (slice 16 4 ip) ip)).
  set (c1 := be_bytes 2 (ones_complement (put 10 [0; 0] (take ihl a)) 0)).
  set (c := put 10 c1 a). set (d := put ihl [0] c).
  set (c2 := be_bytes 2 (ones_complement (put 2 [0; 0] (drop ihl d)) 0)).
  assert (out = put (ihl + 2) c2 d) as -> by reflexivity.
  assert (length c1 = 2%nat) as H1 by apply length_be_bytes.
  assert (length c2 = 2%nat) as H2 by apply length_be_bytes.
  assert (length a = length ip) as Ha by (unfold a; put_len).
  assert (length c = length ip) as Hc by (unfold c; rewrite length_put; lia).
  assert (length d = length ip) as Hd by (unfold d; rewrite length_put; cbn [length]; lia).
  assert (bytes a) as Hba by (repeat apply bytes_put; auto using bytes_slice).
  assert (bytes d) as Hbd.
  { apply bytes_put; [by apply bytesb_bytes|]. apply bytes_put; [apply be_bytes_bytes|done]. }
  assert (forall l, (length l <= length ip)%nat -> sum_fits 0 l) as Hfit.
  { intros l Hll. split; [lia|].
    assert ((Z.of_nat (length l) + 1) / 2 <= 32768) by (Z.div_mod_to_equations; lia). lia. }
  split_and!.
  - rewrite length_put; lia.
  - rewrite take_put_ge by lia. unfold d. rewrite take_put_ge by (cbn [length]; lia).
    unfold c. rewrite take_of_put by lia.
    apply stored_checksum_verifies; [done|rewrite length_take; lia|by apply Forall_take|].
    apply Hfit. rewrite length_take. lia.
  - rewrite drop_of_put by lia. replace (ihl + 2 - ihl)%nat with 2%nat by lia.
    apply stored_checksum_verifies; [done|rewrite length_drop; lia|by apply Forall_drop|].
    apply Hfit. rewrite length_drop. lia.
  - rewrite slice_put by lia. unfold d, c, a. rewrite !slice_put by put_len.
    assert (length (slice 16 4 ip) = 4%nat) as E4 by (rewrite length_slice; lia).
    pose proof (slice_put_same 12 (slice 16 4 ip) ip ltac:(lia)) as E. by rewrite E4 in E.
  - rewrite slice_put by lia. unfold d, c, a. rewrite !slice_put by put_len.
    assert (length (slice 12 4 ip) = 4%nat) as E4 by (rewrite length_slice; lia).
    pose proof (slice_put_same 16 (slice 12 4 ip) (put 12 (slice 16 4 ip) ip) ltac:(put_len)) as E.
    by rewrite E4 in E.
  - rewrite byte_at_put by lia. rewrite (proj2 (Nat.leb_gt _ _)) by lia. cbn [andb].
    unfold d. rewrite byte_at_put by (cbn [length]; lia).
    rewrite Nat.leb_refl, (proj2 (Nat.ltb_lt _ _)) by (cbn [length]; lia).
    cbn [andb]. by rewrite Nat.sub_diag.
  - rewrite drop_put by lia. unfold d. rewrite drop_put by (cbn [length]; lia).
    unfold c. rewrite drop_put by lia. unfold a. by rewrite !drop_put by put_len.
Qed.

(** ** Properties of the device *)

(** A service pass calls the responder at most 32 times and queues the
    frames of those calls behind the backlog, none lost and none reordered; it
    goes on past a call only while the backlog is too small to fill the guest's
    receive chain, and reports a frame exactly when a call produced one. *)
Theorem service_burst_bounded {R} `{NetResponder R} (n : NetDevice R) :
  exists k, (k <= 32)%nat /\
    pending_rx (net_service n).2 = pending_rx n ++ (serviced k (responder n)).1 /\
    responder (net_service n).2 = (serviced k (responder n)).2 /\
    ((net_service n).1 = true <-> (serviced k (responder n)).1 <> []) /\
    (forall j, (0 < j < k)%nat ->
       frames_len (pending_rx n ++ (serviced j (responder n)).1) < rx_room n).
Proof.
  unfold net_service.
  destruct (service_loop_spec SERVICE_BURST_PASSES (rx_room n) (responder n) (pending_rx n) false)
    as (k & Hk & -> & Hb).
  exists k. split_and!; [done|done|done| |done]. cbn. by destruct (serviced k _).1.
Qed.

(** An answered ping comes back addressed to the sender, from the gateway,
    as an echo reply whose IPv4 and ICMP checksums verify and whose identifier,
    sequence number and data are those of the request. *)
Theorem echo_reply_verifies r frame reply :
  bytes frame -> Z.of_nat (length frame) <= 65549 -> length (gateway_mac r) = 6%nat ->
  handle_ipv4 r frame = Some reply ->
  let ihl := echo_ihl frame in
  slice 0 6 reply = slice 6 6 frame /\ slice 6 6 reply = gateway_mac r /\
  slice 26 4 reply = gateway_ip r /\ slice 30 4 reply = slice 26 4 frame /\
  byte_at reply (14 + ihl) = ICMP_ECHO_REPLY /\
  ones_complement (slice 14 ihl reply) 0 = 0 /\ ones_complement (drop (14 + ihl) reply) 0 = 0 /\
  drop (14 + ihl + 4) reply = drop (14 + ihl + 4) frame.
Proof.
  intros Hb Hl Hm (H20 & H8 & Hg & _ & _ & ->)%handle_ipv4_Some. cbv zeta.
  set (ihl := echo_ihl frame) in *.
  assert (Nat.even ihl = true) as He.
  { unfold ihl, echo_ihl. rewrite Nat.even_mul. apply orb_true_r. }
  destruct (echo_ip_spec ihl (drop 14 frame)) as (HL & C1 & C2 & S12 & S16 & B & D);
    [by apply Forall_drop|done|done|rewrite length_drop; lia|rewrite length_drop; lia|].
  set (out := echo_ip ihl (drop 14 frame)) in *. set (src := slice 6 6 frame).
  assert (length src = 6%nat) as Hs by (unfold src; rewrite length_slice; lia).
  assert (forall k, drop (14 + k) (src ++ gateway_mac r ++ [8; 0] ++ out) = drop k out) as Hdrop.
  { intros k. rewrite <- drop_drop. f_equal. rewrite !app_assoc. apply drop_app_length'.
    rewrite !length_app. cbn [length]. lia. }
  assert (forall k n, slice (14 + k) n (src ++ gateway_mac r ++ [8; 0] ++ out) = slice k n out) as Hsl
    by (intros; unfold slice; by rewrite Hdrop).
  split_and!.
  - unfold slice. rewrite drop_0. by apply take_app_length'.
  - unfold slice. rewrite (drop_app_length' src) by done. by apply take_app_length'.
  - change 26%nat with (14 + 12)%nat. rewrite Hsl, S12, <- Hg. unfold slice. by rewrite drop_drop.
  - change 30%nat with (14 + 16)%nat. rewrite Hsl, S16. unfold slice. by rewrite drop_drop.
  - rewrite <- (byte_at_drop 14). specialize (Hdrop 0%nat). rewrite Nat.add_0_r, drop_0 in Hdrop.
    by rewrite Hdrop, B.
  - change 14%nat with (14 + 0)%nat. rewrite Hsl. unfold slice. by rewrite drop_0.
  - by rewrite Hdrop.
  - rewrite <- Nat.add_assoc, Hdrop, D, drop_drop. f_equal.
Qed.

Definition demo_ping : list Z :=
  replicate 6 2 ++ [1; 2; 3; 4; 5; 6] ++ [8; 0] ++
  [69; 0; 0; 32; 0; 0; 0; 0; 64; 1; 0; 0] ++ [10; 0; 0; 2] ++ [10; 0; 0; 1] ++
  [8; 0; 0; 0; 18; 52; 0; 1; 222; 173; 190; 239].

Lemma echo_reply_verifies_witness :
  exists reply, handle_ipv4 (echo_new [10; 0; 0; 1] [9; 9; 9; 9; 9; 9]) demo_ping = Some reply /\
    ones_complement (drop 34 reply) 0 = 0.
Proof.
  eexists. split; [reflexivity|].
  apply (echo_reply_verifies (echo_new [10; 0; 0; 1] [9; 9; 9; 9; 9; 9]) demo_ping _);
    [by apply bytesb_bytes|cbn; lia|reflexivity..].
Defined.
