(* ===== verification/Text.v ===== *)
(** * Text

    Rust strings as lists of Unicode scalar values, with the [str] methods the
    policy code uses: trimming, ASCII case, prefixes and suffixes, splitting,
    and the number and IPv4 parsers of the standard library. *)

From Stdlib Require Import ZArith Lia Bool String Ascii.
From stdpp Require Import base numbers list list_numbers option.
From S2P Require Import Prelude.

Definition str : Type := list Z.

#[export] Instance str_eq_dec : EqDecision str := _.

(** A literal of the source. *)
Fixpoint lit (s : string) : str :=
  match s with
  | EmptyString => []
  | String c s => Z.of_N (N_of_ascii c) :: lit s
  end.

Arguments lit _%_string.
Export String.StringSyntax.

Definition str_eqb (a b : str) : bool := bool_decide (a = b).

(** Unicode [White_Space]. *)
Definition is_whitespace (c : Z) : bool :=
  in_range 9 14 c || (c =? 32) || (c =? 133) || (c =? 160) || (c =? 5760) ||
  in_range 8192 8203 c || (c =? 8232) || (c =? 8233) || (c =? 8239) || (c =? 8287) ||
  (c =? 12288).

Fixpoint trim_start_matches (p : Z -> bool) (s : str) : str :=
  match s with
  | [] => []
  | c :: s' => if p c then trim_start_matches p s' else s
  end.

Definition trim_end_matches (p : Z -> bool) (s : str) : str :=
  rev (trim_start_matches p (rev s)).

Definition trim (s : str) : str :=
  trim_end_matches is_whitespace (trim_start_matches is_whitespace s).

Definition ascii_lower (c : Z) : Z := if in_range 65 91 c then c + 32 else c.
Definition to_ascii_lowercase (s : str) : str := ascii_lower <$> s.
Definition eq_ignore_ascii_case (a b : str) : bool :=
  str_eqb (to_ascii_lowercase a) (to_ascii_lowercase b).

Fixpoint strip_prefix (p s : str) : option str :=
  match p, s with
  | [], _ => Some s
  | _, [] => None
  | c :: p, d :: s => if c =? d then strip_prefix p s else None
  end.

Definition ends_with (suf s : str) : bool :=
  match strip_prefix (rev suf) (rev s) with Some _ => true | None => false end.

(** [split_once(c)] and [rsplit_once(c)]. *)
Fixpoint split_once (c : Z) (s : str) : option (str * str) :=
  match s with
  | [] => None
  | d :: s =>
      if c =? d then Some ([], s)
      else match split_once c s with Some (a, b) => Some (d :: a, b) | None => None end
  end.

Definition rsplit_once (c : Z) (s : str) : option (str * str) :=
  match split_once c (rev s) with
  | Some (b, a) => Some (rev a, rev b)
  | None => None
  end.

(** [split(c)]. *)
Fixpoint split (c : Z) (s : str) : list str :=
  match s with
  | [] => [[]]
  | d :: s =>
      if c =? d then [] :: split c s
      else match split c s with
           | [] => [[d]]
           | w :: ws => (d :: w) :: ws
           end
  end.

Fixpoint join (sep : str) (ws : list str) : str :=
  match ws with
  | [] => []
  | [w] => w
  | w :: ws => w ++ sep ++ join sep ws
  end.

(** ** Numbers *)

Definition is_digit (c : Z) : bool := in_range 48 58 c.

Definition digits_val (s : str) : Z := foldl (fun acc c => acc * 10 + (c - 48)) 0 s.

(** [str::parse::<u16>]: an optional [+], then at least one digit, in range. *)
Definition parse_u16 (s : str) : option Z :=
  let ds := match strip_prefix [43] s with Some ds => ds | None => s end in
  if (match ds with [] => false | _ => true end) && forallb is_digit ds &&
     (digits_val ds <? 2 ^ 16)
  then Some (digits_val ds) else None.

(** One octet of [str::parse::<Ipv4Addr>]: one to three digits, no leading
    zero unless it is the only digit, at most 255. *)
Definition parse_octet (s : str) : option Z :=
  if (match s with [] => false | _ => true end) && (Z.of_nat (length s) <=? 3) &&
     forallb is_digit s &&
     negb ((match s with c :: _ => c =? 48 | [] => false end) && (1 <? Z.of_nat (length s))) &&
     (digits_val s <? 256)
  then Some (digits_val s) else None.

Definition ip4 (a b c d : Z) : Z := ((a * 256 + b) * 256 + c) * 256 + d.

Definition parse_ipv4 (s : str) : option Z :=
  match split 46 s with
  | [a; b; c; d] =>
      a ← parse_octet a; b ← parse_octet b; c ← parse_octet c; d ← parse_octet d;
      Some (ip4 a b c d)
  | _ => None
  end.

(** Decimal rendering of an unsigned integer of at most 20 digits. *)
Fixpoint dec_digits (fuel : nat) (n : Z) (acc : str) : str :=
  match fuel with
  | O => acc
  | S fuel =>
      let acc := (48 + n mod 10) :: acc in
      if n <? 10 then acc else dec_digits fuel (n / 10) acc
  end.
Definition dec (n : Z) : str := dec_digits 20 n [].

Arguments lit : simpl never.
Arguments dec : simpl never.

(** ** Facts *)

Lemma str_eqb_eq a b : str_eqb a b = true <-> a = b.
Proof. unfold str_eqb. apply bool_decide_eq_true. Qed.

Lemma dec_digits_val fuel n acc :
  0 <= n < 10 ^ Z.of_nat fuel ->
  digits_val (dec_digits fuel n acc) = foldl (fun a c => a * 10 + (c - 48)) n acc.
Proof.
  revert n acc. induction fuel as [|fuel IH]; intros n acc Hn.
  - cbn in Hn. assert (n = 0) as -> by lia. done.
  - cbn [dec_digits]. destruct (Z.ltb_spec n 10).
    + unfold digits_val. cbn [foldl]. f_equal. rewrite Z.mod_small; lia.
    + rewrite IH.
      * cbn [foldl]. f_equal. pose proof (Z.div_mod n 10). lia.
      * split; [apply Z.div_pos; lia|]. apply Z.div_lt_upper_bound; [lia|].
        rewrite Nat2Z.inj_succ, Z.pow_succ_r in Hn by lia. lia.
Qed.

Lemma digits_val_dec n : 0 <= n < 10 ^ 20 -> digits_val (dec n) = n.
Proof. intros. unfold dec. by rewrite dec_digits_val. Qed.

Lemma dec_inj a b : 0 <= a < 10 ^ 20 -> 0 <= b < 10 ^ 20 -> dec a = dec b -> a = b.
Proof. intros Ha Hb H. by rewrite <- (digits_val_dec a), <- (digits_val_dec b), H. Qed.

Lemma ascii_lower_idem c : ascii_lower (ascii_lower c) = ascii_lower c.
Proof.
  unfold ascii_lower. destruct (in_range 65 91 c) eqn:E; [|by rewrite E].
  apply in_range_spec in E. by rewrite (proj2 (in_range_false _ _ _)) by lia.
Qed.

Lemma to_ascii_lowercase_idem s : to_ascii_lowercase (to_ascii_lowercase s) = to_ascii_lowercase s.
Proof.
  unfold to_ascii_lowercase. rewrite <- list_fmap_compose.
  apply list_fmap_ext. intros i c _. apply ascii_lower_idem.
Qed.

(** Trimming by a predicate that ignores ASCII case commutes with lowering. *)
Lemma trim_start_lower p s :
  (forall c, p (ascii_lower c) = p c) ->
  trim_start_matches p (to_ascii_lowercase s) = to_ascii_lowercase (trim_start_matches p s).
Proof. intros Hp. induction s as [|c s IH]; cbn; [done|]. rewrite Hp. by destruct (p c). Qed.

Lemma trim_end_lower p s :
  (forall c, p (ascii_lower c) = p c) ->
  trim_end_matches p (to_ascii_lowercase s) = to_ascii_lowercase (trim_end_matches p s).
Proof.
  intros Hp. unfold trim_end_matches, to_ascii_lowercase.
  rewrite <- fmap_rev. change (ascii_lower <$> rev s) with (to_ascii_lowercase (rev s)).
  rewrite trim_start_lower by done. unfold to_ascii_lowercase. by rewrite fmap_rev.
Qed.

Lemma is_whitespace_lower c : is_whitespace (ascii_lower c) = is_whitespace c.
Proof.
  unfold ascii_lower. destruct (in_range 65 91 c) eqn:E; [|done].
  apply in_range_spec in E. unfold is_whitespace, in_range. lia.
Qed.

Lemma trim_lower s : trim (to_ascii_lowercase s) = to_ascii_lowercase (trim s).
Proof.
  unfold trim. rewrite trim_start_lower by apply is_whitespace_lower.
  by rewrite trim_end_lower by apply is_whitespace_lower.
Qed.
