(* ===== verification/TextFacts.v ===== *)
(** * Facts about texts

    What the components that read and write texts share: splitting and joining,
    trimming, prefixes, and the decimal numbers of [Text]. *)

From Stdlib Require Import ZArith Lia Bool.
From stdpp Require Import base numbers list list_numbers option.
From S2P Require Import Prelude Text.

(** ** Splitting and trimming *)

Lemma split_once_app c a b : Forall (fun x => x <> c) a -> split_once c (a ++ c :: b) = Some (a, b).
Proof.
  induction 1 as [|x a Hx _ IH]; cbn [app split_once]; [by rewrite Z.eqb_refl|].
  rewrite (proj2 (Z.eqb_neq _ _)) by congruence. by rewrite IH.
Qed.

Lemma split_once_inv c s : forall a b, split_once c s = Some (a, b) -> s = a ++ c :: b /\ Forall (fun x => x <> c) a.
Proof.
  induction s as [|x s IH]; intros a b; [done|]. cbn [split_once]. destruct (Z.eqb_spec c x) as [->|Hx].
  { by intros [= <- <-]. }
  destruct (split_once c s) as [[a' b']|]; [|done]. intros [= <- <-]. destruct (IH _ _ eq_refl) as [-> Ha]. split; [done|]. by constructor.
Qed.

Lemma split_nonnil c s : split c s <> [].
Proof. destruct s as [|x s]; [done|]. cbn. destruct (c =? x); [done|]. by destruct (split c s). Qed.

Lemma join_split c s : join [c] (split c s) = s.
Proof.
  induction s as [|x s IH]; [done|]. cbn [split]. pose proof (split_nonnil c s) as Hne. destruct (Z.eqb_spec c x) as [->|].
  - destruct (split x s) as [|w ws]; [done|]. change (join [x] ([] :: w :: ws)) with (x :: join [x] (w :: ws)). by rewrite IH.
  - destruct (split c s) as [|w ws]; [done|]. rewrite <- IH. by destruct ws.
Qed.

Lemma trim_start_suffix p s : exists a, s = a ++ trim_start_matches p s.
Proof.
  induction s as [|c s [a IH]]; [by exists []|]. cbn. destruct (p c); [|by exists []]. exists (c :: a). cbn. by f_equal.
Qed.

Lemma trim_start_head p s c t : trim_start_matches p s = c :: t -> p c = false.
Proof. induction s as [|d s IH]; [done|]. cbn. destruct (p d) eqn:E; [done|]. by intros [= <- <-]. Qed.

Lemma trim_start_idem p s : trim_start_matches p (trim_start_matches p s) = trim_start_matches p s.
Proof.
  destruct (trim_start_matches p s) as [|c t] eqn:E; [done|]. apply trim_start_head in E. cbn. by rewrite E.
Qed.

Lemma trim_end_prefix p s : exists b, s = trim_end_matches p s ++ b.
Proof.
  unfold trim_end_matches. destruct (trim_start_suffix p (rev s)) as [a E]. exists (rev a).
  by rewrite <- rev_app_distr, <- E, rev_involutive.
Qed.

Lemma trim_idem s : trim (trim s) = trim s.
Proof.
  unfold trim. set (u := trim_start_matches is_whitespace s).
  assert (trim_start_matches is_whitespace (trim_end_matches is_whitespace u) = trim_end_matches is_whitespace u) as ->.
  { destruct (trim_end_prefix is_whitespace u) as [b E]. destruct (trim_end_matches is_whitespace u) as [|c t]; [done|].
    apply trim_start_head in E. cbn. by rewrite E. }
  unfold trim_end_matches. by rewrite rev_involutive, trim_start_idem.
Qed.

Lemma trim_infix s : exists a b, s = a ++ trim s ++ b.
Proof.
  destruct (trim_start_suffix is_whitespace s) as [a E]. destruct (trim_end_prefix is_whitespace (trim_start_matches is_whitespace s)) as [b E2].
  exists a, b. unfold trim. by rewrite <- E2.
Qed.

Lemma split_app c a b : Forall (fun x => x <> c) a -> split c (a ++ c :: b) = a :: split c b.
Proof.
  induction 1 as [|x a Hx _ IH]; cbn [app split]; [by rewrite Z.eqb_refl|].
  rewrite (proj2 (Z.eqb_neq _ _)) by congruence. by rewrite IH.
Qed.

Lemma split_none c a : Forall (fun x => x <> c) a -> split c a = [a].
Proof.
  induction 1 as [|x a Hx _ IH]; [done|]. cbn [split]. rewrite (proj2 (Z.eqb_neq _ _)) by congruence. by rewrite IH.
Qed.

(** ** Numbers *)

Lemma dec_digits_digits fuel n acc :
  0 <= n -> Forall (fun c => 48 <= c < 58) acc -> Forall (fun c => 48 <= c < 58) (dec_digits fuel n acc).
Proof.
  revert n acc. induction fuel as [|fuel IH]; intros n acc Hn Ha; [done|]. cbn [dec_digits]. cbv zeta.
  assert (Forall (fun c => 48 <= c < 58) ((48 + n mod 10) :: acc)).
  { constructor; [|done]. pose proof (Z.mod_pos_bound n 10 ltac:(lia)). lia. }
  destruct (n <? 10); [done|]. apply IH; [apply Z.div_pos; lia|done].
Qed.

Lemma dec_range n : 0 <= n -> Forall (fun c => 48 <= c < 58) (dec n).
Proof. intros Hn. apply dec_digits_digits; [done|constructor]. Qed.

Lemma dec_nonnil n : dec n <> [].
Proof.
  assert (forall f n acc, acc <> [] -> dec_digits f n acc <> []) as H.
  { induction f as [|f IH]; intros m acc Ha; [done|]. cbn [dec_digits]. cbv zeta. destruct (m <? 10); [done|by apply IH]. }
  assert (forall f, dec_digits (S f) n [] <> []) as H1; [|exact (H1 19%nat)].
  intros f. cbn [dec_digits]. cbv zeta. destruct (n <? 10); [done|by apply H].
Qed.

Lemma digits_forallb s : Forall (fun c => 48 <= c < 58) s -> forallb is_digit s = true.
Proof. induction 1 as [|c s Hc _ IH]; [done|]. cbn. rewrite IH, andb_true_r. by apply in_range_spec. Qed.

Lemma parse_u16_dec p : is_u16 p -> parse_u16 (dec p) = Some p.
Proof.
  unfold is_u16. intros Hp. pose proof (dec_range p ltac:(lia)) as Hd. pose proof (dec_nonnil p). unfold parse_u16.
  assert (strip_prefix [43] (dec p) = None) as ->.
  { destruct (dec p) as [|c s]; [done|]. apply list.Forall_cons in Hd as [Hc _]. cbn [strip_prefix].
    by rewrite (proj2 (Z.eqb_neq _ _)) by lia. }
  rewrite digits_forallb, digits_val_dec by (done || lia). rewrite (proj2 (Z.ltb_lt _ _)) by lia. by destruct (dec p).
Qed.

Lemma parse_octet_dec n : 0 <= n < 256 -> parse_octet (dec n) = Some n.
Proof.
  intros Hn. assert (forallb (fun k => bool_decide (parse_octet (dec (Z.of_nat k)) = Some (Z.of_nat k))) (seq 0 256) = true)
    as H by (vm_compute; reflexivity).
  rewrite forallb_forall in H. specialize (H (Z.to_nat n)). rewrite in_seq in H. specialize (H ltac:(lia)).
  apply bool_decide_eq_true in H. by rewrite Z2Nat.id in H by lia.
Qed.

Lemma dec_free c n : 0 <= n -> ~ 48 <= c < 58 -> Forall (fun x => x <> c) (dec n).
Proof. intros Hn Hc. eapply list.Forall_impl; [by apply dec_range|]. cbn. intros x Hx ->. done. Qed.

Lemma dec_digits_length fuel n acc : (length (dec_digits fuel n acc) <= fuel + length acc)%nat.
Proof.
  revert n acc. induction fuel as [|fuel IH]; intros n acc; [done|]. cbn [dec_digits]. cbv zeta.
  destruct (n <? 10); [cbn; lia|]. specialize (IH (n / 10) ((48 + n mod 10) :: acc)). cbn [length] in IH. lia.
Qed.

(** ** Texts that are trimmed already *)

Lemma trim_fixed c a b : is_whitespace c = false -> b <> [] -> trim b = b -> trim (c :: a ++ b) = c :: a ++ b.
Proof.
  intros Hc Hb Ht. unfold trim. cbn [trim_start_matches]. rewrite Hc. unfold trim_end_matches.
  replace (c :: a ++ b) with ((c :: a) ++ b) by done. rewrite rev_app_distr.
  assert (exists x t, rev b = x :: t /\ is_whitespace x = false) as (x & t & Er & Hx).
  { unfold trim in Ht. set (u := trim_start_matches is_whitespace b) in *. unfold trim_end_matches in Ht.
    destruct (trim_start_matches is_whitespace (rev u)) as [|x t] eqn:E; [by rewrite <- Ht in Hb|].
    exists x, t. split; [|by eapply trim_start_head]. by rewrite <- Ht, rev_involutive. }
  rewrite Er. cbn [app trim_start_matches]. rewrite Hx. change (x :: t ++ rev (c :: a)) with ((x :: t) ++ rev (c :: a)).
  by rewrite <- Er, <- rev_app_distr, rev_involutive.
Qed.

Lemma strip_prefix_app a b s t : strip_prefix a s = Some t -> strip_prefix (a ++ b) s = strip_prefix b t.
Proof.
  revert s. induction a as [|c a IH]; intros s; [by intros [= ->]|]. destruct s as [|d s]; [done|]. cbn [app strip_prefix].
  destruct (c =? d); [apply IH|done].
Qed.

Lemma strip_prefix_inv a s t : strip_prefix a s = Some t -> s = a ++ t.
Proof.
  revert s. induction a as [|c a IH]; intros s; [by intros [= ->]|]. destruct s as [|d s]; [done|]. cbn [strip_prefix].
  destruct (Z.eqb_spec c d) as [->|]; [|done]. intros E%IH. cbn. by f_equal.
Qed.

Lemma trim_end_snoc p t x : trim_end_matches p (t ++ [x]) = if p x then trim_end_matches p t else t ++ [x].
Proof.
  unfold trim_end_matches. rewrite rev_app_distr. cbn [rev app trim_start_matches]. destruct (p x); [done|].
  cbn [rev]. by rewrite rev_involutive.
Qed.

Lemma trimmed_head c w : trim (c :: w) = c :: w -> is_whitespace c = false.
Proof.
  intros Ht. destruct (is_whitespace c) eqn:E; [|done]. exfalso. unfold trim in Ht. cbn [trim_start_matches] in Ht. rewrite E in Ht.
  apply (f_equal length) in Ht. destruct (trim_end_prefix is_whitespace (trim_start_matches is_whitespace w)) as [q Eq].
  destruct (trim_start_suffix is_whitespace w) as [q2 Eq2]. apply (f_equal length) in Eq, Eq2. rewrite length_app in *. cbn in *. lia.
Qed.

Lemma trim_ends c m z : is_whitespace c = false -> is_whitespace z = false -> trim (c :: m ++ [z]) = c :: m ++ [z].
Proof.
  intros Hc Hz. unfold trim. cbn [trim_start_matches]. rewrite Hc. change (c :: m ++ [z]) with ((c :: m) ++ [z]).
  by rewrite trim_end_snoc, Hz.
Qed.

Lemma trimmed_last t z : trim (t ++ [z]) = t ++ [z] -> is_whitespace z = false.
Proof.
  intros H. destruct (is_whitespace z) eqn:E; [|done]. exfalso. unfold trim in H.
  destruct (trim_start_suffix is_whitespace (t ++ [z])) as [a Ea]. set (u := trim_start_matches is_whitespace (t ++ [z])) in *.
  destruct u as [|y u _] using rev_ind; [by destruct t|]. rewrite trim_end_snoc in H.
  rewrite app_assoc in Ea. apply app_inj_tail in Ea as [-> ->]. rewrite E in H.
  destruct (trim_end_prefix is_whitespace u) as [b Eb]. apply (f_equal length) in H, Eb. rewrite !length_app in *. cbn in H. lia.
Qed.

(** What ends as a trimmed text does and starts with a visible character. *)
Lemma trim_joined c m a b : is_whitespace c = false -> b <> [] -> trim (a ++ b) = a ++ b -> trim (c :: m ++ b) = c :: m ++ b.
Proof.
  intros Hc Hb Ht. destruct b as [|z b _] using rev_ind; [done|]. rewrite app_assoc in Ht. apply trimmed_last in Ht.
  rewrite app_assoc. by apply trim_ends.
Qed.

Lemma trim_visible s : Forall (fun c => is_whitespace c = false) s -> trim s = s.
Proof.
  intros H. destruct s as [|c s]; [done|]. apply list.Forall_cons in H as [Hc H]. destruct s as [|z s _] using rev_ind.
  - unfold trim, trim_end_matches. cbn [trim_start_matches]. rewrite Hc. cbn [rev app trim_start_matches]. by rewrite Hc.
  - apply Forall_app in H as [_ [Hz _]%list.Forall_cons]. by apply trim_ends.
Qed.

Lemma visible_range c : 33 <= c < 127 -> is_whitespace c = false.
Proof. intros H. unfold is_whitespace, in_range. lia. Qed.

(** ** Numbers in other bases *)

(** [char::to_digit]. *)
Definition to_digit (radix c : Z) : option Z :=
  let d := if in_range 48 58 c then c - 48
           else if in_range 97 123 c then c - 87
           else if in_range 65 91 c then c - 55
           else radix in
  if d <? radix then Some d else None.

(** [from_str_radix] of an unsigned integer of [w] bits. *)
Definition push_digit (radix w : Z) (acc : option Z) (c : Z) : option Z :=
  v ← acc; d ← to_digit radix c; if v * radix + d <? 2 ^ w then Some (v * radix + d) else None.

Definition from_str_radix (radix w : Z) (s : str) : option Z :=
  let ds := match strip_prefix [43] s with Some ds => ds | None => s end in
  match ds with
  | [] => None
  | _ => foldl (push_digit radix w) (Some 0) ds
  end.

Lemma to_digit_range radix c d : 0 <= radix -> to_digit radix c = Some d -> 0 <= d < radix.
Proof.
  intros Hr. unfold to_digit, in_range.
  repeat match goal with |- context [if ?b then _ else _] => destruct b eqn:? end; try done; intros [= <-]; lia.
Qed.

Lemma push_digits_none radix w s : foldl (push_digit radix w) None s = None.
Proof. by induction s. Qed.

Lemma push_digits_range radix w s : 0 <= radix -> forall v n,
  0 <= v < 2 ^ w -> foldl (push_digit radix w) (Some v) s = Some n -> 0 <= n < 2 ^ w.
Proof.
  intros Hr. induction s as [|c s IH]; intros v n Hv; cbn [foldl]; [by intros [= <-]|].
  unfold push_digit at 2. cbn. destruct (to_digit radix c) as [d|] eqn:Ed; cbn; [|by rewrite push_digits_none].
  destruct (Z.ltb_spec (v * radix + d) (2 ^ w)) as [Hl|]; [|by rewrite push_digits_none].
  apply to_digit_range in Ed; [|done]. apply IH. nia.
Qed.

Lemma from_str_radix_range radix w s n : 0 <= radix -> 0 <= w -> from_str_radix radix w s = Some n -> 0 <= n < 2 ^ w.
Proof.
  intros Hr Hw. unfold from_str_radix. destruct (match strip_prefix [43] s with Some ds => ds | None => s end) as [|c ds]; [done|].
  apply push_digits_range; [done|]. pose proof (Z.pow_pos_nonneg 2 w). lia.
Qed.

(** Base ten is the base of [digits_val]. *)
Lemma digits_grow s : Forall (fun c => 48 <= c < 58) s -> forall v, 0 <= v -> v <= foldl (fun acc c => acc * 10 + (c - 48)) v s.
Proof. induction 1 as [|c s Hc _ IH]; intros v Hv; cbn [foldl]; [lia|]. specialize (IH (v * 10 + (c - 48)) ltac:(lia)). lia. Qed.

Lemma push_digits_ten w s : Forall (fun c => 48 <= c < 58) s -> forall v, 0 <= v ->
  foldl (fun acc c => acc * 10 + (c - 48)) v s < 2 ^ w ->
  foldl (push_digit 10 w) (Some v) s = Some (foldl (fun acc c => acc * 10 + (c - 48)) v s).
Proof.
  induction 1 as [|c s Hc Hs IH]; intros v Hv Hl; cbn [foldl] in *; [done|].
  pose proof (digits_grow s Hs (v * 10 + (c - 48)) ltac:(lia)). assert (to_digit 10 c = Some (c - 48)) as Hd.
  { unfold to_digit, in_range. rewrite (proj2 (Z.leb_le 48 c)), (proj2 (Z.ltb_lt c 58)) by lia. cbn [andb].
    by rewrite (proj2 (Z.ltb_lt _ 10)) by lia. }
  unfold push_digit at 2. cbn [mbind option_bind]. rewrite Hd. cbn [mbind option_bind].
  rewrite (proj2 (Z.ltb_lt _ _)) by lia. apply IH; [lia|done].
Qed.

Lemma from_str_radix_dec n : 0 <= n < 10 ^ 19 -> from_str_radix 10 64 (dec n) = Some n.
Proof.
  intros Hn. pose proof (dec_range n ltac:(lia)) as Hd. pose proof (dec_nonnil n) as H0. unfold from_str_radix.
  assert (strip_prefix [43] (dec n) = None) as ->.
  { destruct (dec n) as [|c s]; [done|]. apply list.Forall_cons in Hd as [Hc _]. cbn [strip_prefix].
    by rewrite (proj2 (Z.eqb_neq 43 c)) by lia. }
  pose proof (digits_val_dec n ltac:(lia)) as Hv. unfold digits_val in Hv.
  pose proof (push_digits_ten 64 (dec n) Hd 0 ltac:(lia)) as Hp. rewrite Hv in Hp. destruct (dec n); [done|]. apply Hp. lia.
Qed.
