(* ===== verification/Egress.v ===== *)
(** * The egress policy (hypervisor/src/hvf/virtio/nat/policy.rs, reserved.rs)

    The allow/deny policy the userspace NAT consults before it asks the host
    resolver for a name and before it opens a host socket. Times are
    nanoseconds on the host's monotonic clock and are arguments of the
    definitions that call [Instant::now]; an IPv4 address is a [u32]. *)

From Stdlib Require Import ZArith Lia Bool.
From stdpp Require Import base numbers list list_numbers gmap option.
From S2P Require Import Prelude Text.

(** ** Decisions and amendments *)

Inductive Decision :=
| Allow (rule : str)
| Deny (rule : str).

#[export] Instance Decision_eq_dec : EqDecision Decision.
Proof. solve_decision. Defined.

Definition is_allow (d : Decision) : bool :=
  match d with Allow _ => true | Deny _ => false end.
Definition decision_rule (d : Decision) : str :=
  match d with Allow r | Deny r => r end.

Inductive Amendment :=
| AmendAllow (entry : str)
| AmendDeny (entry : str).

Definition amend_entry (a : Amendment) : str :=
  match a with AmendAllow e | AmendDeny e => e end.
Definition amend_is_allow (a : Amendment) : bool :=
  match a with AmendAllow _ => true | AmendDeny _ => false end.

Record AmendOutcome := mkOutcome {
  out_label : str;
  out_rule : str;
  out_allowed : bool;
  out_superseded : list str;
  out_established_retained : Z;
}.

(** ** Rules *)

Inductive HostMatch :=
| Any
| Exact (host : str)
| Suffix (dom : str)
| Ip (ip : Z).

#[export] Instance HostMatch_eq_dec : EqDecision HostMatch.
Proof. solve_decision. Defined.

(** [trim().trim_end_matches('.').to_ascii_lowercase()]. *)
Definition normalize_host (h : str) : str :=
  to_ascii_lowercase (trim_end_matches (fun c => c =? 46) (trim h)).

Definition host_parse (host : str) : HostMatch :=
  let h := normalize_host host in
  if str_eqb h (lit "*") || (match h with [] => true | _ => false end) then Any
  else match strip_prefix (lit "*.") h with
       | Some rest => Suffix rest
       | None => match parse_ipv4 h with Some ip => Ip ip | None => Exact h end
       end.

Definition matches_host (hm : HostMatch) (host : str) : bool :=
  let h := normalize_host host in
  match hm with
  | Any => true
  | Exact e => str_eqb e h
  | Suffix dom => str_eqb h dom || ends_with (lit "." ++ dom) h
  | Ip _ => false
  end.

Definition matches_ip (hm : HostMatch) (ip : Z) : bool :=
  match hm with
  | Any => true
  | Ip rule_ip => rule_ip =? ip
  | Exact _ | Suffix _ => false
  end.

Record Rule := mkRule {
  rule_host : HostMatch;
  rule_port : option Z;
  rule_raw : str;
  rule_note : option str;
}.

#[export] Instance Rule_eq_dec : EqDecision Rule.
Proof. solve_decision. Defined.

Definition rule_parse (raw : str) : Rule :=
  let text := trim raw in
  let '(host, port) :=
    match rsplit_once 58 text with
    | Some (h, p) =>
        match h, parse_u16 p with
        | _ :: _, Some n => (h, Some n)
        | _, _ => (text, None)
        end
    | None => (text, None)
    end in
  mkRule (host_parse host) port text None.

Definition port_matches (r : Rule) (port : Z) : bool :=
  match rule_port r with None => true | Some p => p =? port end.

Definition describe (r : Rule) : str :=
  match rule_note r with
  | Some note => rule_raw r ++ lit " (" ++ note ++ lit ")"
  | None => rule_raw r
  end.

(** ** The resolve cache *)

Record ResolveCache := mkCache {
  entries : gmap Z (str * Z);
  ttl : option Z;
}.

Definition cache_record (c : ResolveCache) (ip : Z) (host : str) (now : Z) : ResolveCache :=
  mkCache (<[ip := (to_ascii_lowercase host, now)]> (entries c)) (ttl c).

(** [now.duration_since(at)] is zero when [at] is later. *)
Definition cache_lookup (c : ResolveCache) (ip now : Z) : option str :=
  match entries c !! ip with
  | None => None
  | Some (host, at_) =>
      match ttl c with
      | Some t => if t <? sat_sub now at_ then None else Some host
      | None => Some host
      end
  end.

(** ** Reserved ranges *)

Definition octet (ip i : Z) : Z := u8 (ip / 2 ^ (8 * (3 - i))).

Definition is_private (ip : Z) : bool :=
  (octet ip 0 =? 10) ||
  ((octet ip 0 =? 172) && in_range 16 32 (octet ip 1)) ||
  ((octet ip 0 =? 192) && (octet ip 1 =? 168)).
Definition is_loopback (ip : Z) : bool := octet ip 0 =? 127.
Definition is_link_local (ip : Z) : bool := (octet ip 0 =? 169) && (octet ip 1 =? 254).
Definition is_multicast (ip : Z) : bool := in_range 224 240 (octet ip 0).
Definition is_broadcast (ip : Z) : bool := ip =? 2 ^ 32 - 1.
Definition is_unspecified (ip : Z) : bool := ip =? 0.
Definition is_documentation (ip : Z) : bool :=
  ((octet ip 0 =? 192) && (octet ip 1 =? 0) && (octet ip 2 =? 2)) ||
  ((octet ip 0 =? 198) && (octet ip 1 =? 51) && (octet ip 2 =? 100)) ||
  ((octet ip 0 =? 203) && (octet ip 1 =? 0) && (octet ip 2 =? 113)).

Definition is_reserved_egress_ip (ip : Z) : bool :=
  let a := octet ip 0 in
  let b := octet ip 1 in
  is_private ip || is_loopback ip || is_link_local ip || is_multicast ip ||
  is_broadcast ip || is_unspecified ip || is_documentation ip ||
  (a =? 0) ||
  ((a =? 100) && in_range 64 128 b) ||
  ((a =? 192) && (b =? 0)) ||
  ((a =? 198) && ((b =? 18) || (b =? 19))) ||
  (240 <=? a).

(** ** The policy *)

Record EgressPolicy := mkPolicy {
  default_allow : bool;
  allow : list Rule;
  deny : list Rule;
  resolve_cache : ResolveCache;
  label : str;
  base_label : str;
  amendments : Z;
  allow_local_egress : bool;
}.

Definition allow_all : EgressPolicy :=
  mkPolicy true [] [] (mkCache ∅ None) (lit "allow-all") (lit "allow-all") 0 false.

Definition from_profile (dflt : str) (allow deny : list str) (label : str) : EgressPolicy :=
  mkPolicy (negb (eq_ignore_ascii_case dflt (lit "deny")))
    (rule_parse <$> allow) (rule_parse <$> deny)
    (mkCache ∅ (Some (600 * 10 ^ 9))) label label 0 false.

Definition set_allow_local_egress (p : EgressPolicy) (b : bool) : EgressPolicy :=
  mkPolicy (default_allow p) (allow p) (deny p) (resolve_cache p) (label p) (base_label p)
    (amendments p) b.

Definition allow_implied (p : EgressPolicy) (es : list str) (source : str) : EgressPolicy :=
  let implied e :=
    let r := rule_parse e in mkRule (rule_host r) (rule_port r) (rule_raw r) (Some source) in
  mkPolicy (default_allow p) (allow p ++ (implied <$> es)) (deny p) (resolve_cache p)
    (label p) (base_label p) (amendments p) (allow_local_egress p).

(** [r.host == rule.host && r.port == rule.port]. *)
Definition same_target (rule r : Rule) : bool :=
  bool_decide (rule_host r = rule_host rule) && bool_decide (rule_port r = rule_port rule).

Definition amend (p : EgressPolicy) (a : Amendment) : EgressPolicy * AmendOutcome :=
  let rule := rule_parse (amend_entry a) in
  let allowed := amend_is_allow a in
  let losers := if allowed then deny p else allow p in
  let kept := filter (fun r => same_target rule r = false) losers in
  let superseded := describe <$> filter (fun r => same_target rule r = true) losers in
  let winners := (if allowed then allow p else deny p) ++ [rule] in
  let n := u32 (amendments p + 1) in
  let lbl := base_label p ++ lit "+live" ++ dec n in
  (mkPolicy (default_allow p)
     (if allowed then winners else kept) (if allowed then kept else winners)
     (resolve_cache p) lbl (base_label p) n (allow_local_egress p),
   mkOutcome lbl (rule_raw rule) allowed superseded 0).

Definition is_restrictive (p : EgressPolicy) : bool :=
  negb (default_allow p) || (match deny p with [] => false | _ => true end).

Definition record_resolution (p : EgressPolicy) (host : str) (ip now : Z) : EgressPolicy :=
  mkPolicy (default_allow p) (allow p) (deny p) (cache_record (resolve_cache p) ip host now)
    (label p) (base_label p) (amendments p) (allow_local_egress p).

Definition resolved_host (p : EgressPolicy) (ip now : Z) : option str :=
  cache_lookup (resolve_cache p) ip now.

Definition default_decision (p : EgressPolicy) : Decision :=
  if default_allow p then Allow (lit "default-allow") else Deny (lit "default-deny").

Definition decide_dns (p : EgressPolicy) (host : str) : Decision :=
  match List.find (fun r => matches_host (rule_host r) host) (deny p) with
  | Some r => Deny (lit "deny " ++ describe r)
  | None =>
      match List.find (fun r => matches_host (rule_host r) host) (allow p) with
      | Some r => Allow (lit "allow " ++ describe r)
      | None => default_decision p
      end
  end.

(** The test both loops of [decide_connect] apply to a rule. *)
Definition rule_covers (host : option str) (ip port : Z) (r : Rule) : bool :=
  port_matches r port &&
  (matches_ip (rule_host r) ip ||
   match host with Some h => matches_host (rule_host r) h | None => false end).

Definition decide_connect (p : EgressPolicy) (ip port now : Z) : Decision :=
  let host := cache_lookup (resolve_cache p) ip now in
  match List.find (rule_covers host ip port) (deny p) with
  | Some r => Deny (lit "deny " ++ describe r)
  | None =>
      if negb (allow_local_egress p) && is_reserved_egress_ip ip &&
         negb (existsb (fun r => port_matches r port && matches_ip (rule_host r) ip) (allow p))
      then Deny (lit "reserved-address")
      else
        match List.find (rule_covers host ip port) (allow p) with
        | Some r => Allow (lit "allow " ++ describe r)
        | None => default_decision p
        end
  end.

(** ** Reporting *)

Definition render_rules (rules : list Rule) : str :=
  let shown := rule_raw <$> take 4 rules in
  if (4 <? length rules)%nat
  then join (lit ", ") shown ++ lit " and " ++ dec (Z.of_nat (length rules - 4)) ++ lit " more"
  else join (lit ", ") shown.

Definition posture_summary (p : EgressPolicy) : str :=
  let s :=
    if default_allow p then
      match deny p with
      | [] => lit "the public internet is reachable"
      | _ => lit "the public internet is reachable except " ++ render_rules (deny p)
      end
    else
      match allow p with
      | [] => lit "nothing is reachable"
      | _ => lit "only " ++ render_rules (allow p) ++ lit " " ++
             (if (length (allow p) =? 1)%nat then lit "is" else lit "are") ++ lit " reachable"
      end in
  let s := if allow_local_egress p
           then s ++ lit "; the host, this LAN and cloud metadata are reachable too" else s in
  if 0 <? amendments p
  then s ++ lit "; changed live since start (" ++ dec (amendments p) ++ lit " amendment" ++
       (if amendments p =? 1 then [] else lit "s") ++ lit ", policy " ++ label p ++
       lit " was " ++ base_label p ++ lit ")"
  else s.

(** ** Facts *)

(** [decide_connect] with the cached name as an argument. *)
Definition decide_with_host (p : EgressPolicy) (host : option str) (ip port : Z) : Decision :=
  match List.find (rule_covers host ip port) (deny p) with
  | Some r => Deny (lit "deny " ++ describe r)
  | None =>
      if negb (allow_local_egress p) && is_reserved_egress_ip ip &&
         negb (existsb (fun r => port_matches r port && matches_ip (rule_host r) ip) (allow p))
      then Deny (lit "reserved-address")
      else
        match List.find (rule_covers host ip port) (allow p) with
        | Some r => Allow (lit "allow " ++ describe r)
        | None => default_decision p
        end
  end.

Lemma decide_connect_host p ip port now :
  decide_connect p ip port now =
  decide_with_host p (cache_lookup (resolve_cache p) ip now) ip port.
Proof. done. Qed.

Lemma normalize_host_lower h : normalize_host (to_ascii_lowercase h) = normalize_host h.
Proof.
  unfold normalize_host. rewrite trim_lower, trim_end_lower.
  - apply to_ascii_lowercase_idem.
  - intros c. unfold ascii_lower, in_range. destruct (_ && _) eqn:E; [lia|done].
Qed.

Lemma matches_host_lower hm h : matches_host hm (to_ascii_lowercase h) = matches_host hm h.
Proof. unfold matches_host. by rewrite normalize_host_lower. Qed.

Lemma find_ext {A} (p q : A -> bool) (l : list A) :
  (forall x, p x = q x) -> List.find p l = List.find q l.
Proof. intros H. induction l as [|x l IH]; cbn; [done|]. by rewrite H, IH. Qed.

Lemma decide_with_host_lower p h ip port :
  decide_with_host p (Some (to_ascii_lowercase h)) ip port = decide_with_host p (Some h) ip port.
Proof.
  unfold decide_with_host.
  rewrite !(find_ext (rule_covers (Some (to_ascii_lowercase h)) ip port)
                     (rule_covers (Some h) ip port)); [done|..];
    intros r; unfold rule_covers; by rewrite matches_host_lower.
Qed.

(** The rules that let a flow through a given name, address and port. *)
Definition admits (p : EgressPolicy) (host : option str) (ip port : Z) : Prop :=
  (forall r, r ∈ deny p -> rule_covers host ip port r = false) /\
  (allow_local_egress p = true \/ is_reserved_egress_ip ip = false \/
   exists r, r ∈ allow p /\ port_matches r port = true /\ matches_ip (rule_host r) ip = true) /\
  (default_allow p = true \/ exists r, r ∈ allow p /\ rule_covers host ip port r = true).

Lemma decide_with_host_admits p host ip port :
  is_allow (decide_with_host p host ip port) = true <-> admits p host ip port.
Proof.
  unfold decide_with_host, admits.
  destruct (List.find (rule_covers host ip port) (deny p)) as [r|] eqn:Ed.
  { apply find_Some_elem in Ed as [Hin Hr]. split; [done|]. intros [H _].
    rewrite (H r Hin) in Hr. done. }
  rewrite find_None_iff in Ed.
  destruct (_ && _ && _) eqn:Eg.
  - rewrite !andb_true_iff, !negb_true_iff in Eg. destruct Eg as [[Eg1 Eg2] Eg3].
    split; [done|]. intros (_ & [H|[H|(r & Hin & H1 & H2)]] & _); [congruence|congruence|].
    apply not_true_iff_false in Eg3. contradict Eg3. apply existsb_elem.
    exists r. by rewrite H1, H2.
  - assert (allow_local_egress p = true \/ is_reserved_egress_ip ip = false \/
      exists r, r ∈ allow p /\ port_matches r port = true /\ matches_ip (rule_host r) ip = true) as Hg.
    { destruct (allow_local_egress p); [by left|]. destruct (is_reserved_egress_ip ip); [|by right; left].
      cbn in Eg. apply negb_false_iff, existsb_elem in Eg as (r & Hin & Hr).
      apply andb_true_iff in Hr as [? ?]. right; right. by exists r. }
    destruct (List.find (rule_covers host ip port) (allow p)) as [r|] eqn:Ea.
    + apply find_Some_elem in Ea as [Hin Hr]. split; [|done]. intros _.
      split_and!; [done|done|]. right. by exists r.
    + rewrite find_None_iff in Ea. unfold default_decision.
      destruct (default_allow p) eqn:Eda; cbn.
      * split; [|done]. intros _. split_and!; [done|done|by left].
      * split; [done|]. intros (_ & _ & [?|(r & Hin & Hr)]); [done|].
        rewrite (Ea r Hin) in Hr. done.
Qed.

(** A sequence of live amendments. *)
Definition amend_all (p : EgressPolicy) (l : list Amendment) : EgressPolicy :=
  foldl (fun p a => fst (amend p a)) p l.

Lemma amend_all_label p l :
  l <> [] -> amendments p + Z.of_nat (length l) < 2 ^ 32 -> 0 <= amendments p ->
  base_label (amend_all p l) = base_label p /\
  amendments (amend_all p l) = amendments p + Z.of_nat (length l) /\
  label (amend_all p l) =
    base_label p ++ lit "+live" ++ dec (amendments p + Z.of_nat (length l)).
Proof.
  revert p. induction l as [|a l IH]; intros p Hne Hlt Hp; [done|]. clear Hne.
  cbn [amend_all foldl length] in *. change (foldl _ ?q l) with (amend_all q l).
  assert (amendments (amend p a).1 = amendments p + 1) as Hn.
  { cbn. unfold u32. apply Z.mod_small. lia. }
  assert (base_label (amend p a).1 = base_label p) as Hb by done.
  destruct l as [|b l].
  - cbn [amend_all foldl length]. rewrite Hn, Hb. split_and!; [done|lia|].
    change (label (amend p a).1) with
      (base_label p ++ lit "+live" ++ dec (u32 (amendments p + 1))).
    do 3 f_equal. unfold u32. apply Z.mod_small. lia.
  - destruct (IH (amend p a).1) as (H1 & H2 & H3); [done|rewrite Hn; cbn [length] in *; lia..|].
    rewrite H1, H2, H3, Hn, Hb. split_and!; [done|lia|]. do 3 f_equal. lia.
Qed.

(** ** CIDR blocks *)

Definition in_cidr (base len ip : Z) : Prop := base <= ip < base + 2 ^ (32 - len).

Lemma octet0 ip : is_u32 ip -> octet ip 0 = ip / 2 ^ 24.
Proof. intros. unfold octet. cbn [Z.sub Z.opp Z.add Z.pos_sub Z.mul Pos.mul]. word_lia. Qed.

Lemma octet1 ip : octet ip 1 = (ip / 2 ^ 16) mod 2 ^ 8.
Proof. done. Qed.

Lemma octet2 ip : octet ip 2 = (ip / 2 ^ 8) mod 2 ^ 8.
Proof. done. Qed.

(** The blocks [is_reserved_egress_ip] refuses. *)
Definition reserved_block (ip : Z) : Prop :=
  in_cidr (ip4 127 0 0 0) 8 ip \/
  in_cidr (ip4 10 0 0 0) 8 ip \/ in_cidr (ip4 172 16 0 0) 12 ip \/
  in_cidr (ip4 192 168 0 0) 16 ip \/
  in_cidr (ip4 169 254 0 0) 16 ip \/
  in_cidr (ip4 0 0 0 0) 8 ip \/
  in_cidr (ip4 100 64 0 0) 10 ip \/
  in_cidr (ip4 192 0 0 0) 16 ip \/
  in_cidr (ip4 198 18 0 0) 15 ip \/
  in_cidr (ip4 198 51 100 0) 24 ip \/ in_cidr (ip4 203 0 113 0) 24 ip \/
  in_cidr (ip4 224 0 0 0) 4 ip \/ in_cidr (ip4 240 0 0 0) 4 ip.

Ltac reserved_lia :=
  unfold in_cidr, ip4, in_range, is_u32 in *;
  repeat match goal with |- context [2 ^ (?a - ?b)] =>
    let e := eval compute in (2 ^ (a - b)) in change (2 ^ (a - b)) with e end;
  change (2 ^ 24) with 16777216 in *; change (2 ^ 16) with 65536 in *;
  change (2 ^ 8) with 256 in *; change (2 ^ 32) with 4294967296 in *;
  Z.div_mod_to_equations; lia.

Lemma octet0_block ip a :
  is_u32 ip -> octet ip 0 = a <-> a * 2 ^ 24 <= ip < (a + 1) * 2 ^ 24.
Proof. intros H. rewrite octet0 by done. reserved_lia. Qed.

Lemma octet01_block ip a b :
  is_u32 ip -> 0 <= b < 256 ->
  (octet ip 0 = a /\ octet ip 1 = b) <->
  (a * 256 + b) * 2 ^ 16 <= ip < (a * 256 + b + 1) * 2 ^ 16.
Proof. intros H Hb. rewrite octet0, octet1 by done. reserved_lia. Qed.

Lemma octet01_range ip a b c :
  is_u32 ip -> 0 <= b -> b < c <= 256 ->
  (octet ip 0 = a /\ b <= octet ip 1 < c) <->
  (a * 256 + b) * 2 ^ 16 <= ip < (a * 256 + c) * 2 ^ 16.
Proof. intros H Hb Hc. rewrite octet0, octet1 by done. reserved_lia. Qed.

Lemma octet012_block ip a b c :
  is_u32 ip -> 0 <= b < 256 -> 0 <= c < 256 ->
  ((octet ip 0 = a /\ octet ip 1 = b) /\ octet ip 2 = c) <->
  ((a * 256 + b) * 256 + c) * 2 ^ 8 <= ip < ((a * 256 + b) * 256 + c + 1) * 2 ^ 8.
Proof. intros H Hb Hc. rewrite octet0, octet1, octet2 by done. reserved_lia. Qed.

Lemma reserved_block_iff ip :
  is_u32 ip -> is_reserved_egress_ip ip = true <-> reserved_block ip.
Proof.
  intros H. unfold is_reserved_egress_ip, is_private, is_loopback, is_link_local, is_multicast,
    is_broadcast, is_unspecified, is_documentation, in_range, reserved_block, in_cidr, ip4.
  rewrite ?orb_true_iff, ?andb_true_iff, ?orb_true_iff, ?andb_true_iff,
    ?Z.eqb_eq, ?Z.leb_le, ?Z.ltb_lt.
  rewrite !(octet012_block ip) by (done || lia).
  rewrite !(octet01_range ip) by (done || lia).
  rewrite !(octet01_block ip) by (done || lia).
  rewrite (octet0_block ip 10), (octet0_block ip 127), (octet0_block ip 0) by done.
  assert (224 <= octet ip 0 < 240 <-> 224 * 2 ^ 24 <= ip < 240 * 2 ^ 24) as ->
    by (rewrite octet0 by done; reserved_lia).
  assert (240 <= octet ip 0 <-> 240 * 2 ^ 24 <= ip) as -> by (rewrite octet0 by done; reserved_lia).
  pose proof (octet01_block ip 198 18 H ltac:(lia)).
  pose proof (octet01_block ip 198 19 H ltac:(lia)).
  unfold is_u32 in H. lia.
Qed.

(** ** Properties of the egress policy *)

Definition demo_policy : EgressPolicy :=
  from_profile (lit "deny") [lit "*.example.com:443"; lit "93.184.216.34"]
    [lit "bad.example.com"] (lit "sha256:1").


(** A name cannot open the host's own networks. Unless local egress was
    opted into, a connect to a reserved address is refused under every
    default, every resolver cache and every time, as long as the allow rules
    name hosts by name: a rebound allow-listed name gains nothing. *)
Theorem reserved_address_refused p ip port now :
  allow_local_egress p = false -> is_reserved_egress_ip ip = true ->
  (forall r, r ∈ allow p -> exists h, rule_host r = Exact h \/ rule_host r = Suffix h) ->
  is_allow (decide_connect p ip port now) = false.
Proof.
  intros Hl Hres Hnames. apply not_true_iff_false. rewrite decide_connect_host,
    decide_with_host_admits. intros (_ & [?|[?|(r & Hin & _ & Hm)]] & _); [congruence..|].
  destruct (Hnames r Hin) as (h & [E|E]); rewrite E in Hm; discriminate.
Qed.

Lemma reserved_address_refused_witness :
  is_allow (decide_connect
    (record_resolution (from_profile (lit "allow") [lit "*.example.com"] [] (lit "p"))
       (lit "evil.example.com") (ip4 169 254 169 254) 0) (ip4 169 254 169 254) 80 1) = false.
Proof.
  apply reserved_address_refused; [reflexivity|reflexivity|].
  intros r Hr. cbn in Hr. apply elem_of_cons in Hr as [->|Hr]; [|inversion Hr].
  exists (lit "example.com"). right. reflexivity.
Defined.

(** A connect to an address the guest was just given is judged by the name
    it asked for: within the cache's lifetime the decision is the one for that
    name, in whatever case and with whatever trailing dot it was spelled;
    afterwards only rules about addresses apply. *)
Theorem connect_judged_by_resolved_name p h ip port t now :
  ttl (resolve_cache p) = Some (600 * 10 ^ 9) -> t <= now ->
  decide_connect (record_resolution p h ip t) ip port now =
  decide_with_host p (if now - t <=? 600 * 10 ^ 9 then Some h else None) ip port.
Proof.
  intros Httl Ht. rewrite decide_connect_host.
  transitivity (decide_with_host p
    (cache_lookup (resolve_cache (record_resolution p h ip t)) ip now) ip port); [done|].
  unfold cache_lookup, record_resolution, cache_record.
  cbn [resolve_cache entries ttl]. rewrite lookup_insert_eq, Httl.
  unfold sat_sub. rewrite Z.max_r by lia.
  destruct (Z.leb_spec (now - t) (600 * 10 ^ 9)).
  - rewrite (proj2 (Z.ltb_ge _ _)) by lia. apply decide_with_host_lower.
  - by rewrite (proj2 (Z.ltb_lt _ _)) by lia.
Qed.

Lemma connect_judged_by_resolved_name_witness :
  decide_connect (record_resolution demo_policy (lit "API.Example.com.") (ip4 93 184 215 14) 5)
    (ip4 93 184 215 14) 443 100 = Allow (lit "allow *.example.com:443").
Proof.
  etransitivity; [apply (connect_judged_by_resolved_name demo_policy);
    [reflexivity|lia] | vm_compute; reflexivity].
Defined.

(** A live amendment takes effect. After a deny, every flow the new rule
    covers is refused; after an allow, no deny rule for the same host and port
    is left, and a flow the new rule covers is permitted unless another deny
    rule covers it or the address is reserved. *)
Theorem amend_takes_effect p entry host ip port :
  let r := rule_parse entry in
  rule_covers host ip port r = true ->
  is_allow (decide_with_host (amend p (AmendDeny entry)).1 host ip port) = false /\
  (forall d, d ∈ deny (amend p (AmendAllow entry)).1 ->
     d ∈ deny p /\ ~ (rule_host d = rule_host r /\ rule_port d = rule_port r)) /\
  ((forall d, d ∈ deny p -> same_target r d = false -> rule_covers host ip port d = false) ->
   allow_local_egress p = true \/ is_reserved_egress_ip ip = false ->
   is_allow (decide_with_host (amend p (AmendAllow entry)).1 host ip port) = true).
Proof.
  intros r Hr. split_and!.
  - apply not_true_iff_false. rewrite decide_with_host_admits. intros (Hd & _).
    specialize (Hd r). cbn in Hd. fold r in Hd. rewrite Hd in Hr; [done|].
    apply elem_of_app. right. by left.
  - intros d Hd. cbn in Hd. apply list_elem_of_filter in Hd as [Hs Hin].
    split; [done|]. intros [Eh Ep]. unfold same_target in Hs. fold r in Hs.
    rewrite Eh, Ep, !bool_decide_eq_true_2 in Hs by done. done.
  - intros Hd Hg. rewrite decide_with_host_admits. split_and!.
    + intros d Hin. cbn in Hin. apply list_elem_of_filter in Hin as [Hs Hin]. by apply Hd.
    + destruct Hg; [by left | by right; left].
    + right. exists r. split; [|done]. cbn. fold r. apply elem_of_app. right. by left.
Qed.

Lemma amend_takes_effect_witness :
  is_allow (decide_with_host (amend demo_policy (AmendAllow (lit "bad.example.com"))).1
    (Some (lit "bad.example.com")) (ip4 8 8 8 8) 443) = true.
Proof.
  apply (amend_takes_effect demo_policy (lit "bad.example.com") (Some (lit "bad.example.com"))
    (ip4 8 8 8 8) 443); [vm_compute; reflexivity| |right; vm_compute; reflexivity].
  intros d Hd Hs. cbn in Hd. apply elem_of_cons in Hd as [->|Hd]; [|inversion Hd].
  vm_compute in Hs. discriminate Hs.
Defined.

(** A policy label names one rule set. Two policies obtained from the same
    base by a different number of live amendments carry different labels, so
    an audit record is never attributed to a policy that did not decide it. *)
Theorem amended_labels_differ p l1 l2 :
  amendments p = 0 -> l1 <> [] -> l2 <> [] ->
  Z.of_nat (length l1) < 2 ^ 32 -> Z.of_nat (length l2) < 2 ^ 32 ->
  length l1 <> length l2 ->
  label (amend_all p l1) <> label (amend_all p l2).
Proof.
  intros H0 Hn1 Hn2 Hl1 Hl2 Hne Heq.
  destruct (amend_all_label p l1) as (_ & _ & E1); [done|lia..|].
  destruct (amend_all_label p l2) as (_ & _ & E2); [done|lia..|].
  rewrite E1, E2 in Heq. apply app_inv_head, app_inv_head, dec_inj in Heq; lia.
Qed.

(** The reserved-address guard refuses exactly these blocks: loopback, the
    RFC 1918 ranges, link-local, 0/8, 100.64/10, 192.0.0.0/16, 198.18/15, the
    documentation blocks, multicast and 240/4. *)
Theorem reserved_ranges_exact ip :
  is_u32 ip -> is_reserved_egress_ip ip = true <-> reserved_block ip.
Proof. apply reserved_block_iff. Qed.

Lemma reserved_ranges_exact_witness : is_reserved_egress_ip (ip4 192 0 66 7) = true.
Proof.
  apply reserved_ranges_exact; [unfold is_u32, ip4; lia|].
  do 7 right. left. unfold in_cidr, ip4. lia.
Defined.

(** A wildcard allow rule lifts the reserved-address guard as an address
    rule does: under a default-deny profile with the one rule ["*:443"], the
    host's loopback and the cloud metadata address are reachable on port 443
    without any opt-in. *)
Theorem wildcard_rule_lifts_guard now :
  let p := from_profile (lit "deny") [lit "*:443"] [] (lit "sha256:1") in
  allow_local_egress p = false /\
  decide_connect p (ip4 127 0 0 1) 443 now = Allow (lit "allow *:443") /\
  decide_connect p (ip4 169 254 169 254) 443 now = Allow (lit "allow *:443").
Proof. split_and!; reflexivity. Qed.

(** A live amendment can open the host's own networks: allowing an address
    literal on a running default-deny policy permits a connect to the cloud
    metadata address, although local egress was never opted into. *)
Theorem amendment_reaches_reserved_address now :
  let p := (amend (from_profile (lit "deny") [] [] (lit "sha256:1"))
              (AmendAllow (lit "169.254.169.254"))).1 in
  allow_local_egress p = false /\
  is_reserved_egress_ip (ip4 169 254 169 254) = true /\
  is_allow (decide_connect p (ip4 169 254 169 254) 80 now) = true.
Proof. split_and!; reflexivity. Qed.
