(* ===== verification/Dns.v ===== *)
(** * The DNS codec of the user-mode network

    [virtio/nat/dns.rs]: parsing a guest's query, reading and writing names, and
    building the reply. Messages are byte lists, names are strings of Unicode
    scalar values as in [Text], and an index out of range is a [Panic]. *)

From Stdlib Require Import ZArith Lia Bool.
From stdpp Require Import base numbers list list_numbers option.
From S2P Require Import Prelude Text.

(** ** UTF-8 *)

Definition is_cont (b : Z) : bool := in_range 0x80 0xc0 b.

Definition REPLACEMENT : Z := 0xfffd.

(** The byte at the head of a list, zero past its end. *)
Definition peek (i : nat) (l : list Z) : Z := default 0 (l !! i).

(** Whether [b1] may follow the first byte [b0] of a three or four byte sequence. *)
Definition second3 (b0 b1 : Z) : bool :=
  if b0 =? 0xe0 then in_range 0xa0 0xc0 b1
  else if b0 =? 0xed then in_range 0x80 0xa0 b1
  else is_cont b1.
Definition second4 (b0 b1 : Z) : bool :=
  if b0 =? 0xf0 then in_range 0x90 0xc0 b1
  else if b0 =? 0xf4 then in_range 0x80 0x90 b1
  else is_cont b1.

(** The scalar value at the head of a nonempty list, the replacement character
    for an ill-formed sequence, and the number of bytes it stands for. *)
Definition utf8_head (l : list Z) : Z * nat :=
  let b0 := peek 0 l in
  let b1 := peek 1 l in
  let b2 := peek 2 l in
  let b3 := peek 3 l in
  if b0 <? 0x80 then (b0, 1%nat)
  else if in_range 0xc2 0xe0 b0 then
    if is_cont b1 then (Z.land b0 0x1f * 64 + Z.land b1 0x3f, 2%nat) else (REPLACEMENT, 1%nat)
  else if in_range 0xe0 0xf0 b0 then
    if negb (second3 b0 b1) then (REPLACEMENT, 1%nat)
    else if negb (is_cont b2) then (REPLACEMENT, 2%nat)
    else ((Z.land b0 0x0f * 64 + Z.land b1 0x3f) * 64 + Z.land b2 0x3f, 3%nat)
  else if in_range 0xf0 0xf5 b0 then
    if negb (second4 b0 b1) then (REPLACEMENT, 1%nat)
    else if negb (is_cont b2) then (REPLACEMENT, 2%nat)
    else if negb (is_cont b3) then (REPLACEMENT, 3%nat)
    else (((Z.land b0 0x07 * 64 + Z.land b1 0x3f) * 64 + Z.land b2 0x3f) * 64 + Z.land b3 0x3f, 4%nat)
  else (REPLACEMENT, 1%nat).

(** [String::from_utf8_lossy]. *)
Fixpoint utf8_lossy_loop (fuel : nat) (l : list Z) : str :=
  match fuel, l with
  | O, _ | _, [] => []
  | S fuel, _ => let '(c, n) := utf8_head l in c :: utf8_lossy_loop fuel (drop n l)
  end.
Definition utf8_lossy (l : list Z) : str := utf8_lossy_loop (length l) l.

(** [as_bytes]. *)
Definition utf8_char (c : Z) : list Z :=
  if c <? 0x80 then [c]
  else if c <? 0x800 then [0xc0 + c / 64; 0x80 + c mod 64]
  else if c <? 0x10000 then [0xe0 + c / 4096; 0x80 + c / 64 mod 64; 0x80 + c mod 64]
  else [0xf0 + c / 262144; 0x80 + c / 4096 mod 64; 0x80 + c / 64 mod 64; 0x80 + c mod 64].
Definition as_bytes (s : str) : list Z := concat (utf8_char <$> s).

(** ** Messages *)

Definition QTYPE_A : Z := 1.
Definition QTYPE_AAAA : Z := 28.
Definition HEADER_LEN : Z := 12.
Definition RCODE_NXDOMAIN : Z := 3.
Definition RCODE_REFUSED : Z := 5.

Record Query := mkQuery {
  dq_id : Z;
  recursion_desired : bool;
  dq_name : str;
  dq_qtype : Z;
  dq_qclass : Z;
}.

Inductive Outcome :=
| Answers (ips : list Z)
| Refused
| NoData
| NxDomain.

(** [msg.get(a..b)]. *)
Definition get_range (msg : list Z) (a b : Z) : option (list Z) :=
  if (a <=? b) && (b <=? Z.of_nat (length msg))
  then Some (take (Z.to_nat (b - a)) (drop (Z.to_nat a) msg)) else None.

(** The loop of [read_name], [guard] iterations from its end. *)
Fixpoint read_name_loop (guard : nat) (msg : list Z) (off : Z) (jumped : bool) (linear_end : Z)
    (labels : list str) : option (list str * Z) :=
  match guard with
  | O => None
  | S guard =>
      len ← vget msg off;
      if len =? 0 then Some (labels, if jumped then linear_end else off + 1)
      else if Z.land len 0xc0 =? 0xc0 then
        b2 ← vget msg (off + 1);
        let ptr := Z.lor (Z.shiftl (Z.land len 0x3f) 8) b2 in
        read_name_loop guard msg ptr true (if jumped then linear_end else off + 2) labels
      else if negb (Z.land len 0xc0 =? 0) then None
      else
        let start := off + 1 in
        let end_ := start + len in
        label ← get_range msg start end_;
        read_name_loop guard msg end_ jumped (if jumped then linear_end else end_)
          (labels ++ [to_ascii_lowercase (utf8_lossy label)])
  end.

Definition read_name (msg : list Z) (off : Z) : option (str * Z) :=
  '(labels, next) ← read_name_loop 128 msg off false off [];
  Some (join [46] labels, next).

(** [msg[i]]. *)
Definition index (msg : list Z) (i : Z) : res unit Z :=
  match vget msg i with Some b => Ok b | None => Panic end.

Definition index16 (msg : list Z) (i : Z) : res unit Z :=
  a ← index msg i; b ← index msg (i + 1); Ok (be_val [a; b]).

Definition parse_query (msg : list Z) : res unit (option Query) :=
  if Z.of_nat (length msg) <? HEADER_LEN then Ok None
  else
    id ← index16 msg 0;
    flags ← index16 msg 2;
    if negb (Z.land (Z.shiftr flags 15) 1 =? 0) then Ok None
    else
      qdcount ← index16 msg 4;
      if qdcount =? 0 then Ok None
      else
        let rd := Z.land (Z.shiftr flags 8) 1 =? 1 in
        match read_name msg HEADER_LEN with
        | None => Ok None
        | Some (name, next) =>
            if Z.of_nat (length msg) <? next + 4 then Ok None
            else
              qtype ← index16 msg next;
              qclass ← index16 msg (next + 2);
              Ok (Some (mkQuery id rd name qtype qclass))
        end.

Definition encode_label (label : str) : list Z :=
  let bs := as_bytes label in
  let n := Nat.min (length bs) 63 in
  Z.of_nat n :: take n bs.

(** [name.split('.').filter(|l| !l.is_empty())]. *)
Fixpoint nonempty (ls : list str) : list str :=
  match ls with
  | [] => []
  | [] :: ls => nonempty ls
  | l :: ls => l :: nonempty ls
  end.

Definition encode_name (name : str) : list Z :=
  concat (encode_label <$> nonempty (split 46 name)) ++ [0].

Definition outcome_rcode (o : Outcome) : Z :=
  match o with Answers _ | NoData => 0 | Refused => RCODE_REFUSED | NxDomain => RCODE_NXDOMAIN end.

Definition outcome_answers (o : Outcome) : list Z := match o with Answers ips => ips | _ => [] end.

Definition response_flags (q : Query) (o : Outcome) : Z :=
  let flags := 0x8000 in
  let flags := if recursion_desired q then Z.lor flags 0x0100 else flags in
  let flags := Z.lor flags 0x0080 in
  Z.lor flags (outcome_rcode o).

Definition answer_record (ip : Z) : list Z :=
  [0xc0; HEADER_LEN] ++ be_bytes 2 QTYPE_A ++ be_bytes 2 1 ++ be_bytes 4 60 ++ be_bytes 2 4 ++ be_bytes 4 ip.

Definition build_response (q : Query) (o : Outcome) : list Z :=
  let answers := outcome_answers o in
  be_bytes 2 (dq_id q) ++ be_bytes 2 (response_flags q o) ++
  be_bytes 2 1 ++ be_bytes 2 (u16 (Z.of_nat (length answers))) ++ be_bytes 2 0 ++ be_bytes 2 0 ++
  encode_name (dq_name q) ++ be_bytes 2 (dq_qtype q) ++ be_bytes 2 (dq_qclass q) ++
  concat (answer_record <$> answers).

(** ** Indexing *)

Lemma index_ok msg i : 0 <= i < Z.of_nat (length msg) -> exists b, index msg i = Ok b.
Proof. intros Hi. destruct (vget_lt msg i Hi) as [b Hb]. exists b. unfold index. by rewrite Hb. Qed.

Lemma index16_ok msg i : 0 <= i -> i + 1 < Z.of_nat (length msg) -> exists v, index16 msg i = Ok v.
Proof.
  intros Hi Hl. unfold index16. destruct (index_ok msg i) as [a ->]; [lia|].
  destruct (index_ok msg (i + 1)) as [b ->]; [lia|]. cbn. by eexists.
Qed.

Lemma read_name_loop_end guard : forall msg off jumped le labels r next,
  0 <= off -> 0 <= le -> Forall is_u8 msg ->
  read_name_loop guard msg off jumped le labels = Some (r, next) -> 0 <= next.
Proof.
  induction guard as [|guard IH]; intros msg off jumped le labels r next Ho Hle Hm; cbn [read_name_loop]; [done|].
  destruct (vget msg off) as [len|] eqn:El; [|done]. cbn [mbind option_bind].
  assert (is_u8 len) as Hlen by (by eapply Forall_vget). unfold is_u8 in Hlen.
  destruct (len =? 0); [intros [= _ <-]; destruct jumped; lia|].
  destruct (_ =? 0xc0).
  - destruct (vget msg (off + 1)) as [b2|] eqn:Eb; [|done]. cbn [mbind option_bind].
    assert (is_u8 b2) as Hb2 by (by eapply Forall_vget). unfold is_u8 in Hb2.
    apply IH; [|destruct jumped; lia|done]. apply Z.lor_nonneg.
    split; [|lia]. apply Z.shiftl_nonneg, Z.land_nonneg. lia.
  - destruct (negb _); [done|]. destruct (get_range _ _ _) as [label|]; [|done]. cbn [mbind option_bind].
    apply IH; [lia|destruct jumped; lia|done].
Qed.

Lemma read_name_end msg off name next :
  0 <= off -> bytes msg -> read_name msg off = Some (name, next) -> 0 <= next.
Proof.
  unfold read_name. generalize 128%nat. intros guard Ho Hb (r & Hl & Hx)%bind_Some.
  destruct r as [ls nx]. injection Hx as _ <-. by eapply (read_name_loop_end guard msg off false off []).
Qed.

(** ** Names *)

(** A label as resolvers use them: lowercase ASCII without dots, 1 to 63 bytes. *)
Definition label_ok (l : str) : Prop :=
  l <> [] /\ Z.of_nat (length l) <= 63 /\ Forall (fun c => 0 <= c < 128 /\ c <> 46 /\ ascii_lower c = c) l.

Lemma as_bytes_ascii l : Forall (fun c => 0 <= c < 128) l -> as_bytes l = l.
Proof.
  unfold as_bytes. induction 1 as [|c l Hc _ IH]; [done|]. cbn. rewrite IH. unfold utf8_char.
  by rewrite (proj2 (Z.ltb_lt _ _)) by lia.
Qed.

Lemma utf8_lossy_ascii l : Forall (fun c => 0 <= c < 128) l -> utf8_lossy l = l.
Proof.
  unfold utf8_lossy. induction 1 as [|c l Hc _ IH]; [done|].
  change (utf8_lossy_loop (length (c :: l)) (c :: l))
    with (let '(x, n) := utf8_head (c :: l) in x :: utf8_lossy_loop (length l) (drop n (c :: l))).
  assert (utf8_head (c :: l) = (c, 1%nat)) as ->.
  { unfold utf8_head, peek. cbn [lookup list_lookup default]. unfold id.
    by rewrite (proj2 (Z.ltb_lt _ _)) by lia. }
  change (drop 1 (c :: l)) with l. by rewrite IH.
Qed.

Lemma label_ascii l : label_ok l -> Forall (fun c => 0 <= c < 128) l.
Proof. intros (_ & _ & Hl). rewrite Forall_elem in *. intros c Hc. by apply Hl. Qed.

Lemma lower_id l : Forall (fun c => ascii_lower c = c) l -> to_ascii_lowercase l = l.
Proof. unfold to_ascii_lowercase. induction 1 as [|c l Hc _ IH]; [done|]. cbn. by rewrite Hc, IH. Qed.

Lemma encode_label_ok l : label_ok l -> encode_label l = Z.of_nat (length l) :: l.
Proof.
  intros Hl. unfold encode_label. rewrite (as_bytes_ascii l) by (by apply label_ascii).
  destruct Hl as (_ & Hlen & _). rewrite Nat.min_l by lia. by rewrite take_ge.
Qed.

Lemma split_join_label l ls : label_ok l -> Forall label_ok ls -> split 46 (join [46] (l :: ls)) = l :: ls.
Proof.
  revert l. induction ls as [|l2 ls IH]; intros l Hl Hls.
  - cbn [join]. destruct Hl as (_ & _ & Hl). induction Hl as [|c l (_ & Hc & _) _ IHl]; [done|].
    cbn [split]. rewrite (proj2 (Z.eqb_neq _ _)) by congruence.
    destruct l as [|d l]; [done|]. by rewrite IHl.
  - apply list.Forall_cons in Hls as [Hl2 Hls]. change (join [46] (l :: l2 :: ls)) with (l ++ [46] ++ join [46] (l2 :: ls)).
    destruct Hl as (_ & _ & Hl). induction Hl as [|c l (_ & Hc & _) _ IHl]; cbn [app split].
    + by rewrite Z.eqb_refl, IH.
    + rewrite (proj2 (Z.eqb_neq _ _)) by congruence. cbn [app] in IHl. by rewrite IHl.
Qed.

(** A name of labels that fits the walk, with room for one pointer. *)
Definition name_ok (labels : list str) : Prop := Forall label_ok labels /\ (length labels <= 126)%nat.

Definition wire_name (labels : list str) : list Z :=
  concat ((fun l => Z.of_nat (length l) :: l) <$> labels) ++ [0].

Lemma wire_name_cons l labels : wire_name (l :: labels) = (Z.of_nat (length l) :: l) ++ wire_name labels.
Proof. unfold wire_name. rewrite fmap_cons. cbn [concat]. by rewrite <- app_assoc. Qed.

Lemma encode_name_ok labels : Forall label_ok labels -> encode_name (join [46] labels) = wire_name labels.
Proof.
  intros Hl. unfold encode_name, wire_name. f_equal. destruct labels as [|l ls]; [done|].
  apply list.Forall_cons in Hl as [Hl Hls]. rewrite split_join_label by done.
  assert (Forall label_ok (l :: ls)) as Hall by (by constructor). clear Hl Hls.
  revert Hall. generalize (l :: ls). clear l ls. intros ls Hall. f_equal.
  induction Hall as [|l ls Hl _ IH]; [done|].
  replace (nonempty (l :: ls)) with (l :: nonempty ls) by (destruct l; [by destruct Hl|done]).
  rewrite fmap_cons, IH, encode_label_ok by done. done.
Qed.

(** ** Reading back what was written *)

(** A message with the name [labels] written at [off]. *)
Definition holds_name (msg : list Z) (off : Z) (labels : list str) : Prop :=
  exists pre post, msg = pre ++ wire_name labels ++ post /\ off = Z.of_nat (length pre).

Lemma vget_app_r {A} (pre post : list A) x : vget (pre ++ x :: post) (Z.of_nat (length pre)) = Some x.
Proof. apply vget_of_lookup. by rewrite lookup_app_r, Nat.sub_diag by lia. Qed.

Lemma get_range_app pre (l post : list Z) :
  get_range (pre ++ l ++ post) (Z.of_nat (length pre)) (Z.of_nat (length pre) + Z.of_nat (length l)) = Some l.
Proof.
  unfold get_range. rewrite !length_app, (proj2 (Z.leb_le _ _)), (proj2 (Z.leb_le _ _)) by lia. cbn [andb].
  rewrite Nat2Z.id, drop_app_length. f_equal.
  replace (Z.to_nat _) with (length l) by lia. by rewrite take_app_length.
Qed.

Lemma label_len_bits n : 0 < n <= 63 -> Z.land n 0xc0 = 0.
Proof.
  intros Hn. assert (forallb (fun k => Z.land k 0xc0 =? 0) (seqZ 1 63) = true) as Hall by done.
  rewrite forallb_forall in Hall. apply Z.eqb_eq, Hall, list_elem_of_In, elem_of_seqZ. lia.
Qed.

Lemma read_name_loop_wire labels : forall guard msg off jumped le acc,
  Forall label_ok labels -> (length labels < guard)%nat -> holds_name msg off labels ->
  read_name_loop guard msg off jumped le acc =
    Some (acc ++ labels, if jumped then le else off + Z.of_nat (length (wire_name labels))).
Proof.
  induction labels as [|l labels IH]; intros guard msg off jumped le acc Hl Hg (pre & post & -> & ->);
    (destruct guard as [|guard]; [cbn in Hg; lia|]); cbn [read_name_loop].
  - change (wire_name [] ++ post) with (0 :: post). rewrite vget_app_r. cbn. by rewrite app_nil_r.
  - apply list.Forall_cons in Hl as [Hl Hls].
    pose proof Hl as (Hne & Hlen & Hch).
    rewrite wire_name_cons, <- app_assoc. change ((Z.of_nat (length l) :: l) ++ wire_name labels ++ post)
      with (Z.of_nat (length l) :: l ++ wire_name labels ++ post).
    rewrite vget_app_r. cbn [mbind option_bind].
    assert (0 < Z.of_nat (length l)) by (destruct l; [done|cbn; lia]).
    rewrite (proj2 (Z.eqb_neq _ 0)) by lia. rewrite label_len_bits by lia. cbn [Z.eqb negb].
    replace (pre ++ Z.of_nat (length l) :: l ++ wire_name labels ++ post)
      with ((pre ++ [Z.of_nat (length l)]) ++ l ++ wire_name labels ++ post) by (by rewrite <- app_assoc).
    assert (Z.of_nat (length pre) + 1 = Z.of_nat (length (pre ++ [Z.of_nat (length l)]))) as Hoff
      by (rewrite length_app; cbn; lia).
    rewrite Hoff, get_range_app. cbn [mbind option_bind].
    rewrite utf8_lossy_ascii by (by apply label_ascii).
    rewrite lower_id by (eapply Forall_impl; [|exact Hch]; by intros c (_ & _ & ?)).
    rewrite (IH guard); [|done|cbn in Hg; lia|].
    + rewrite <- app_assoc. f_equal. f_equal. destruct jumped; [done|].
      rewrite !length_app. cbn [length]. lia.
    + exists ((pre ++ [Z.of_nat (length l)]) ++ l), post. split; [by rewrite <- !app_assoc|].
      rewrite !length_app. lia.
Qed.

Lemma read_name_wire msg off labels :
  name_ok labels -> holds_name msg off labels ->
  read_name msg off = Some (join [46] labels, off + Z.of_nat (length (wire_name labels))).
Proof.
  intros [Hl Hn] Hm. unfold read_name. by rewrite (read_name_loop_wire labels) by (done || lia).
Qed.

(** Following a pointer. *)
Lemma read_name_loop_pointer guard msg off len b2 le labels :
  vget msg off = Some len -> Z.land len 0xc0 = 0xc0 -> vget msg (off + 1) = Some b2 ->
  read_name_loop (S guard) msg off false le labels =
    read_name_loop guard msg (Z.lor (Z.shiftl (Z.land len 0x3f) 8) b2) true (off + 2) labels.
Proof.
  intros Hl Hp Hb. cbn [read_name_loop]. rewrite Hl. cbn [mbind option_bind].
  destruct (Z.eqb_spec len 0) as [->|_]; [done|]. by rewrite Hp, Hb.
Qed.

(** A pointer to the name of the question. *)
Lemma read_name_pointer msg pre post labels :
  name_ok labels -> msg = pre ++ [0xc0; HEADER_LEN] ++ post -> holds_name msg HEADER_LEN labels ->
  read_name msg (Z.of_nat (length pre)) = Some (join [46] labels, Z.of_nat (length pre) + 2).
Proof.
  intros [Hl Hn] Em Hm. unfold read_name.
  assert (vget msg (Z.of_nat (length pre)) = Some 0xc0) as H1 by (rewrite Em; apply vget_app_r).
  assert (vget msg (Z.of_nat (length pre) + 1) = Some HEADER_LEN) as H2.
  { rewrite Em. replace (Z.of_nat (length pre) + 1) with (Z.of_nat (length (pre ++ [0xc0])))
      by (rewrite length_app; cbn; lia).
    replace (pre ++ [0xc0; HEADER_LEN] ++ post) with ((pre ++ [0xc0]) ++ HEADER_LEN :: post)
      by (by rewrite <- app_assoc). apply vget_app_r. }
  rewrite (read_name_loop_pointer 127 _ _ _ _ _ _ H1 eq_refl H2).
  change (Z.lor (Z.shiftl (Z.land 0xc0 0x3f) 8) HEADER_LEN) with HEADER_LEN.
  by rewrite (read_name_loop_wire labels) by (done || lia).
Qed.

(** ** The client's side

    A stub resolver reading a reply: the header, the question, then as many
    records as the header counts, each an address record of the internet class. *)

Definition get16 (msg : list Z) (i : Z) : option Z := bs ← get_range msg i (i + 2); Some (be_val bs).

Fixpoint read_records (n : nat) (msg : list Z) (off : Z) : option (list (str * Z)) :=
  match n with
  | O => Some []
  | S n =>
      '(name, next) ← read_name msg off;
      ty ← get16 msg next;
      cl ← get16 msg (next + 2);
      rdlen ← get16 msg (next + 8);
      if (ty =? QTYPE_A) && (cl =? 1) && (rdlen =? 4) then
        addr ← get_range msg (next + 10) (next + 14);
        rest ← read_records n msg (next + 14);
        Some ((name, be_val addr) :: rest)
      else None
  end.

Record Reply := mkReply {
  rep_id : Z;
  rep_flags : Z;
  rep_name : str;
  rep_qtype : Z;
  rep_records : list (str * Z);
}.

Definition read_reply (msg : list Z) : option Reply :=
  id ← get16 msg 0;
  flags ← get16 msg 2;
  qdcount ← get16 msg 4;
  ancount ← get16 msg 6;
  '(name, next) ← read_name msg HEADER_LEN;
  qtype ← get16 msg next;
  if qdcount =? 1 then
    records ← read_records (Z.to_nat ancount) msg (next + 4);
    Some (mkReply id flags name qtype records)
  else None.

Lemma get_range_in msg p1 (l p2 : list Z) a b :
  msg = p1 ++ l ++ p2 -> a = Z.of_nat (length p1) -> b = a + Z.of_nat (length l) ->
  get_range msg a b = Some l.
Proof. intros -> -> ->. apply get_range_app. Qed.

Lemma get16_in msg p1 p2 a v :
  msg = p1 ++ be_bytes 2 v ++ p2 -> a = Z.of_nat (length p1) -> is_u16 v -> get16 msg a = Some v.
Proof.
  intros Hm Ha Hv. unfold get16. rewrite (get_range_in msg p1 (be_bytes 2 v) p2) by (done || by rewrite length_be_bytes).
  cbn [mbind option_bind]. f_equal. rewrite be_val_bytes. unfold is_u16 in Hv. by rewrite Z.mod_small.
Qed.

Ltac at_offset :=
  rewrite ?length_app, ?length_be_bytes; cbn [length]; lia.

(** One record, wherever it stands in a message that holds the question's name. *)
Lemma read_record_ok labels msg pre ip rest n :
  name_ok labels -> is_u32 ip -> msg = pre ++ answer_record ip ++ rest -> holds_name msg HEADER_LEN labels ->
  read_records (S n) msg (Z.of_nat (length pre)) =
    (rs ← read_records n msg (Z.of_nat (length (pre ++ answer_record ip)));
     Some ((join [46] labels, ip) :: rs)).
Proof.
  intros Hn Hip Hm Hq. cbn [read_records]. unfold answer_record in *. rewrite <- !app_assoc in Hm.
  rewrite (read_name_pointer msg pre _ labels Hn Hm Hq). cbn [mbind option_bind].
  rewrite (get16_in msg (pre ++ [0xc0; HEADER_LEN]) (be_bytes 2 1 ++ be_bytes 4 60 ++ be_bytes 2 4 ++ be_bytes 4 ip ++ rest)
    (Z.of_nat (length pre) + 2) QTYPE_A) by (first [rewrite Hm, <- ?app_assoc; reflexivity | at_offset | unfold is_u16, QTYPE_A; lia]).
  rewrite (get16_in msg (pre ++ [0xc0; HEADER_LEN] ++ be_bytes 2 QTYPE_A) (be_bytes 4 60 ++ be_bytes 2 4 ++ be_bytes 4 ip ++ rest)
    (Z.of_nat (length pre) + 2 + 2) 1) by (first [rewrite Hm, <- ?app_assoc; reflexivity | at_offset | unfold is_u16, QTYPE_A; lia]).
  rewrite (get16_in msg (pre ++ [0xc0; HEADER_LEN] ++ be_bytes 2 QTYPE_A ++ be_bytes 2 1 ++ be_bytes 4 60) (be_bytes 4 ip ++ rest)
    (Z.of_nat (length pre) + 2 + 8) 4) by (first [rewrite Hm, <- ?app_assoc; reflexivity | at_offset | unfold is_u16, QTYPE_A; lia]).
  cbn [mbind option_bind Z.eqb andb QTYPE_A Pos.eqb].
  rewrite (get_range_in msg (pre ++ [0xc0; HEADER_LEN] ++ be_bytes 2 QTYPE_A ++ be_bytes 2 1 ++ be_bytes 4 60 ++ be_bytes 2 4)
    (be_bytes 4 ip) rest) by (first [rewrite Hm, <- ?app_assoc; reflexivity | at_offset | unfold is_u16, QTYPE_A; lia]).
  cbn [mbind option_bind]. rewrite be_val_bytes. unfold is_u32 in Hip. rewrite Z.mod_small by done.
  do 2 f_equal. at_offset.
Qed.

Lemma read_records_ok labels msg ips : forall pre post,
  name_ok labels -> Forall is_u32 ips -> msg = pre ++ concat (answer_record <$> ips) ++ post ->
  holds_name msg HEADER_LEN labels ->
  read_records (length ips) msg (Z.of_nat (length pre)) = Some ((fun ip => (join [46] labels, ip)) <$> ips).
Proof.
  induction ips as [|ip ips IH]; intros pre post Hn Hips Hm Hq; [done|].
  apply list.Forall_cons in Hips as [Hip Hips]. rewrite fmap_cons in Hm. cbn [concat] in Hm.
  rewrite <- app_assoc in Hm. cbn [length].
  rewrite (read_record_ok labels msg pre ip (concat (answer_record <$> ips) ++ post)) by done.
  rewrite (IH (pre ++ answer_record ip) post); [done|done|done| |done]. by rewrite <- app_assoc.
Qed.

Lemma read_reply_intro msg id fl an name next qt recs :
  get16 msg 0 = Some id -> get16 msg 2 = Some fl -> get16 msg 4 = Some 1 -> get16 msg 6 = Some an ->
  read_name msg HEADER_LEN = Some (name, next) -> get16 msg next = Some qt ->
  read_records (Z.to_nat an) msg (next + 4) = Some recs ->
  read_reply msg = Some (mkReply id fl name qt recs).
Proof. intros E0 E1 E2 E3 E4 E5 E6. unfold read_reply. by rewrite E0, E1, E2, E3, E4; cbn; rewrite E5; cbn; rewrite E6. Qed.

(** ** Queries *)

(** A query as a stub resolver sends it. *)
Definition query_message (q : Query) (labels : list str) : list Z :=
  be_bytes 2 (dq_id q) ++ be_bytes 2 (if recursion_desired q then 0x0100 else 0) ++
  be_bytes 2 1 ++ be_bytes 2 0 ++ be_bytes 2 0 ++ be_bytes 2 0 ++
  wire_name labels ++ be_bytes 2 (dq_qtype q) ++ be_bytes 2 (dq_qclass q).

Lemma index16_in msg p1 p2 a v :
  msg = p1 ++ be_bytes 2 v ++ p2 -> a = Z.of_nat (length p1) -> is_u16 v -> index16 msg a = Ok v.
Proof.
  intros -> -> Hv. pose proof (length_be_bytes 2 v) as Hl.
  pose proof (be_val_bytes 2 v) as Hb. rewrite Z.mod_small in Hb by (by unfold is_u16 in Hv).
  destruct (be_bytes 2 v) as [|b0 [|b1 [|]]]; try done. unfold index16, index.
  change (p1 ++ [b0; b1] ++ p2) with (p1 ++ b0 :: b1 :: p2). rewrite vget_app_r. cbn [mbind res_bind_inst].
  replace (p1 ++ b0 :: b1 :: p2) with ((p1 ++ [b0]) ++ b1 :: p2) by (by rewrite <- app_assoc).
  replace (Z.of_nat (length p1) + 1) with (Z.of_nat (length (p1 ++ [b0]))) by at_offset.
  rewrite vget_app_r. cbn [mbind res_bind_inst]. by rewrite Hb.
Qed.

Definition query_wf (q : Query) : Prop := is_u16 (dq_id q) /\ is_u16 (dq_qtype q) /\ is_u16 (dq_qclass q).

Lemma length_header a b c d e f :
  Z.of_nat (length (be_bytes 2 a ++ be_bytes 2 b ++ be_bytes 2 c ++ be_bytes 2 d ++ be_bytes 2 e ++ be_bytes 2 f)) =
  HEADER_LEN.
Proof. rewrite !length_app, !length_be_bytes. done. Qed.

Ltac regroup := rewrite <- ?app_assoc; reflexivity.

(** ** Properties of the codec *)

Lemma parse_query_returns msg : bytes msg -> exists r, parse_query msg = Ok r.
Proof.
  intros Hb. unfold parse_query. destruct (Z.ltb_spec (Z.of_nat (length msg)) HEADER_LEN) as [|Hl]; [by eexists|].
  unfold HEADER_LEN in Hl.
  destruct (index16_ok msg 0) as [id ->]; [lia|lia|]. destruct (index16_ok msg 2) as [fl ->]; [lia|lia|].
  cbn [mbind res_bind_inst]. destruct (negb _); [by eexists|].
  destruct (index16_ok msg 4) as [qd ->]; [lia|lia|]. cbn [mbind res_bind_inst].
  destruct (qd =? 0); [by eexists|]. destruct (read_name msg HEADER_LEN) as [[name next]|] eqn:En; [|by eexists].
  pose proof (read_name_end msg HEADER_LEN name next ltac:(unfold HEADER_LEN; lia) Hb En) as Hnext.
  destruct (Z.ltb_spec (Z.of_nat (length msg)) (next + 4)); [by eexists|].
  destruct (index16_ok msg next) as [qt ->]; [lia|lia|]. destruct (index16_ok msg (next + 2)) as [qc ->]; [lia|lia|].
  by eexists.
Qed.

(** No message from the guest can stop the monitor in the parser: every
    access of [parse_query] is in range, whatever lengths, pointers and counts the
    message has, and the parser returns. *)
Theorem parse_query_total msg : bytes msg -> exists r, parse_query msg = Ok r.
Proof. intros Hb. exact (parse_query_returns msg Hb). Qed.

(** An ordinary query is understood exactly: for a name of lowercase labels,
    the query a resolver sends parses back to its identifier, its recursion bit,
    its dotted name, its type and its class. *)
Theorem parse_query_roundtrip q labels :
  query_wf q -> name_ok labels -> dq_name q = join [46] labels ->
  parse_query (query_message q labels) = Ok (Some q).
Proof.
  intros (Hid & Hqt & Hqc) Hn Hname. set (msg := query_message q labels).
  set (fl := if recursion_desired q then 0x0100 else 0).
  assert (is_u16 fl) as Hfl by (unfold fl, is_u16; destruct (recursion_desired q); lia).
  assert (is_u16 1 /\ is_u16 0) as [H1 H0] by (unfold is_u16; lia).
  set (hdr := be_bytes 2 (dq_id q) ++ be_bytes 2 fl ++ be_bytes 2 1 ++ be_bytes 2 0 ++ be_bytes 2 0 ++ be_bytes 2 0).
  assert (msg = hdr ++ wire_name labels ++ be_bytes 2 (dq_qtype q) ++ be_bytes 2 (dq_qclass q)) as Hm
    by (unfold msg, query_message; fold fl; unfold hdr; regroup).
  assert (Z.of_nat (length hdr) = HEADER_LEN) as Hh by apply length_header.
  assert (Z.of_nat (length msg) = HEADER_LEN + Z.of_nat (length (wire_name labels)) + 4) as Hlen.
  { rewrite Hm, !length_app, !length_be_bytes. lia. }
  unfold parse_query. rewrite (proj2 (Z.ltb_ge _ _)) by (rewrite Hlen; lia).
  erewrite (index16_in msg [] _ 0 (dq_id q)); [|rewrite Hm; unfold hdr; regroup|at_offset|assumption].
  erewrite (index16_in msg (be_bytes 2 (dq_id q)) _ 2 fl); [|rewrite Hm; unfold hdr; regroup|at_offset|assumption].
  cbn [mbind res_bind_inst].
  assert ((Z.land (Z.shiftr fl 15) 1 =? 0) = true /\ (Z.land (Z.shiftr fl 8) 1 =? 1) = recursion_desired q) as [-> ->]
    by (unfold fl; by destruct (recursion_desired q)). cbn [negb].
  erewrite (index16_in msg (be_bytes 2 (dq_id q) ++ be_bytes 2 fl) _ 4 1); [|rewrite Hm; unfold hdr; regroup|at_offset|assumption].
  cbn [mbind res_bind_inst Z.eqb].
  rewrite (read_name_wire msg HEADER_LEN labels Hn) by (exists hdr; eexists; split; [exact Hm|done]).
  rewrite (proj2 (Z.ltb_ge _ _)) by (rewrite Hlen; lia).
  set (next := HEADER_LEN + Z.of_nat (length (wire_name labels))).
  rewrite (index16_in msg (hdr ++ wire_name labels) (be_bytes 2 (dq_qclass q)) next (dq_qtype q));
    [|rewrite Hm; regroup|rewrite length_app; lia|assumption].
  rewrite (index16_in msg (hdr ++ wire_name labels ++ be_bytes 2 (dq_qtype q)) [] (next + 2) (dq_qclass q));
    [|rewrite Hm, app_nil_r; regroup|rewrite !length_app, length_be_bytes; lia|assumption].
  cbn [mbind res_bind_inst]. rewrite <- Hname. by destruct q.
Qed.

(** The reply says what was decided. A client that reads the reply to a query
    finds the query's identifier, a response with the query's recursion bit and
    the outcome's code, the question's name and type, and exactly the addresses of
    the outcome, each under the question's name. *)
Theorem reply_reads_back q labels o :
  query_wf q -> name_ok labels -> dq_name q = join [46] labels ->
  Forall is_u32 (outcome_answers o) -> Z.of_nat (length (outcome_answers o)) < 65536 ->
  read_reply (build_response q o) =
    Some (mkReply (dq_id q) (response_flags q o) (dq_name q) (dq_qtype q)
            ((fun ip => (dq_name q, ip)) <$> outcome_answers o)).
Proof.
  intros (Hid & Hqt & Hqc) Hn Hname Hips Hcount. set (msg := build_response q o).
  set (an := Z.of_nat (length (outcome_answers o))) in *.
  assert (is_u16 (response_flags q o)) as Hfl.
  { unfold response_flags, is_u16. destruct (recursion_desired q), o; by split; vm_compute. }
  assert (u16 an = an) as Ean by (unfold an in *; word_lia).
  assert (is_u16 an /\ is_u16 1) as [Hanr H1] by (unfold is_u16, an in *; lia).
  set (hdr := be_bytes 2 (dq_id q) ++ be_bytes 2 (response_flags q o) ++ be_bytes 2 1 ++ be_bytes 2 an ++
    be_bytes 2 0 ++ be_bytes 2 0).
  set (recs := concat (answer_record <$> outcome_answers o)).
  assert (msg = hdr ++ wire_name labels ++ be_bytes 2 (dq_qtype q) ++ be_bytes 2 (dq_qclass q) ++ recs) as Hm.
  { unfold msg, build_response. rewrite Hname, encode_name_ok by apply Hn. unfold hdr. fold an. rewrite Ean. regroup. }
  assert (Z.of_nat (length hdr) = HEADER_LEN) as Hh by apply length_header.
  assert (holds_name msg HEADER_LEN labels) as Hq by (exists hdr; eexists; split; [exact Hm|done]).
  set (pre := hdr ++ wire_name labels ++ be_bytes 2 (dq_qtype q) ++ be_bytes 2 (dq_qclass q)).
  assert (HEADER_LEN + Z.of_nat (length (wire_name labels)) + 4 = Z.of_nat (length pre)) as Hpre
    by (unfold pre; rewrite !length_app, !length_be_bytes; lia).
  apply (read_reply_intro msg _ _ an _ (HEADER_LEN + Z.of_nat (length (wire_name labels)))).
  - eapply (get16_in msg []); [rewrite Hm; unfold hdr; regroup|at_offset|assumption].
  - eapply (get16_in msg (be_bytes 2 (dq_id q))); [rewrite Hm; unfold hdr; regroup|at_offset|assumption].
  - eapply (get16_in msg (be_bytes 2 (dq_id q) ++ be_bytes 2 (response_flags q o)));
      [rewrite Hm; unfold hdr; regroup|at_offset|assumption].
  - eapply (get16_in msg (be_bytes 2 (dq_id q) ++ be_bytes 2 (response_flags q o) ++ be_bytes 2 1));
      [rewrite Hm; unfold hdr; regroup|at_offset|assumption].
  - rewrite Hname. by apply read_name_wire.
  - eapply (get16_in msg (hdr ++ wire_name labels)); [rewrite Hm; regroup|rewrite length_app; lia|assumption].
  - rewrite Hpre, Hname. unfold an. rewrite Nat2Z.id.
    apply (read_records_ok labels msg _ pre []); [done|done| |done].
    fold recs. rewrite app_nil_r, Hm. unfold pre. regroup.
Qed.

(** ** Concrete messages *)

(** The labels of [api.github.com]. *)
Definition demo_labels : list str := [[97; 112; 105]; [103; 105; 116; 104; 117; 98]; [99; 111; 109]].

Definition demo_query : Query := mkQuery 0x1234 true (join [46] demo_labels) QTYPE_A 1.

Lemma demo_query_wf : query_wf demo_query.
Proof. unfold query_wf, is_u16. cbn [demo_query dq_id dq_qtype dq_qclass]. unfold QTYPE_A. lia. Qed.

Lemma demo_labels_ok : name_ok demo_labels.
Proof.
  split; [|cbn; lia]. repeat apply Forall_cons_2; [..|apply Forall_nil_2];
    (split; [done|split; [cbn; lia|]]; repeat apply Forall_cons_2; [..|apply Forall_nil_2];
     (split; [lia|split; [lia|reflexivity]])).
Qed.

(** A name that points at itself. *)
Definition pointer_loop : list Z := [0; 1; 1; 0; 0; 1; 0; 0; 0; 0; 0; 0; 0xc0; 12; 0; 1; 0; 1].

Lemma parse_query_total_witness : bytes pointer_loop /\ exists r, parse_query pointer_loop = Ok r.
Proof.
  assert (bytes pointer_loop) as Hb by (apply bytesb_bytes; vm_compute; reflexivity).
  split; [exact Hb|]. exact (parse_query_total pointer_loop Hb).
Defined.

Lemma parse_query_roundtrip_witness :
  parse_query (query_message demo_query demo_labels) = Ok (Some demo_query).
Proof. apply parse_query_roundtrip; [exact demo_query_wf|exact demo_labels_ok|reflexivity]. Defined.

Definition demo_outcome : Outcome := Answers [0x0a000203; 0x7f000001].

Lemma reply_reads_back_witness :
  read_reply (build_response demo_query demo_outcome) =
    Some (mkReply (dq_id demo_query) (response_flags demo_query demo_outcome) (dq_name demo_query)
            (dq_qtype demo_query) ((fun ip => (dq_name demo_query, ip)) <$> outcome_answers demo_outcome)).
Proof.
  exact (reply_reads_back demo_query demo_labels demo_outcome demo_query_wf demo_labels_ok eq_refl
           ltac:(unfold demo_outcome; cbn [outcome_answers]; repeat apply Forall_cons_2; [..|apply Forall_nil_2];
                 unfold is_u32; lia)
           ltac:(cbn; lia)).
Defined.

(** Pointers are followed through as many levels as the walk has steps: here a
    pointer to a pointer. *)
Lemma nested_pointer_followed :
  read_name [0xc0; 2; 0xc0; 4; 1; 120; 0] 0 = Some ([120], 2).
Proof. reflexivity. Qed.

(** The question of a reply is the parsed name written again, not the bytes of the
    query: the letters of the query are not kept. *)
Lemma question_case_not_echoed :
  let ask := [0; 1; 1; 0; 0; 1; 0; 0; 0; 0; 0; 0; 1; 88; 0; 0; 1; 0; 1] in
  exists q, parse_query ask = Ok (Some q) /\
    get_range ask 12 15 = Some [1; 88; 0] /\
    get_range (build_response q NoData) 12 15 = Some [1; 120; 0].
Proof. exists (mkQuery 1 true [120] 1 1). split; [|split]; vm_compute; reflexivity. Qed.
