(* ===== verification/Utf8.v ===== *)
(** * UTF-8

    [str::from_utf8] and what [as_bytes] and the decoders of [Dns] do to each
    other: a text of scalar values comes back whole. *)

From Stdlib Require Import ZArith Lia Bool.
From stdpp Require Import base numbers list list_numbers option.
From S2P Require Import Prelude Text Dns.

(** [str::from_utf8]: the decoding that replaces nothing. *)
Definition from_utf8 (bs : list Z) : option str :=
  let s := utf8_lossy bs in if bool_decide (as_bytes s = bs) then Some s else None.

(** A Unicode scalar value. *)
Definition scalar (c : Z) : Prop := 0 <= c < 0xd800 \/ 0xe000 <= c < 0x110000.

(** The payload bits of a byte with its tag. *)
Lemma payload t k q : 0 <= q < 2 ^ k -> 0 <= k -> Z.land (t * 2 ^ k + q) (Z.ones k) = q.
Proof. intros Hq Hk. rewrite Z.land_ones, Z.add_comm, Z.mod_add, Z.mod_small by lia. done. Qed.

Lemma cont_payload q : 0 <= q < 64 -> Z.land (0x80 + q) 0x3f = q.
Proof. intros Hq. exact (payload 2 6 q Hq ltac:(lia)). Qed.

Lemma is_cont_tag q : 0 <= q < 64 -> is_cont (0x80 + q) = true.
Proof. intros Hq. apply in_range_spec. lia. Qed.

Lemma utf8_head_2 q r l : 2 <= q < 32 -> 0 <= r < 64 -> utf8_head (0xc0 + q :: 0x80 + r :: l) = (q * 64 + r, 2%nat).
Proof.
  intros Hq Hr. unfold utf8_head, peek. cbn [lookup list_lookup default]. unfold id. rewrite (proj2 (Z.ltb_ge _ _)) by lia.
  rewrite (proj2 (in_range_spec 0xc2 _ _)), is_cont_tag, cont_payload by lia. by rewrite (payload 6 5 q ltac:(lia) ltac:(lia) : Z.land (0xc0 + q) 0x1f = q).
Qed.

Lemma utf8_head_3 q r s l :
  0 <= q < 16 -> 0 <= r < 64 -> 0 <= s < 64 -> (q = 0 -> 32 <= r) -> (q = 13 -> r < 32) ->
  utf8_head (0xe0 + q :: 0x80 + r :: 0x80 + s :: l) = ((q * 64 + r) * 64 + s, 3%nat).
Proof.
  intros Hq Hr Hs Hlo Hhi. unfold utf8_head, peek. cbn [lookup list_lookup default]. unfold id. rewrite (proj2 (Z.ltb_ge _ _)) by lia.
  assert (in_range 0xc2 0xe0 (0xe0 + q) = false) as -> by (apply not_true_iff_false; rewrite in_range_spec; lia).
  rewrite (proj2 (in_range_spec 0xe0 _ _)) by lia.
  assert (second3 (0xe0 + q) (0x80 + r) = true) as ->.
  { unfold second3. destruct (Z.eqb_spec (0xe0 + q) 0xe0); [apply in_range_spec; lia|].
    destruct (Z.eqb_spec (0xe0 + q) 0xed); [apply in_range_spec; lia|by apply is_cont_tag]. }
  rewrite is_cont_tag, !cont_payload by lia. cbn [negb].
  by rewrite (payload 14 4 q ltac:(lia) ltac:(lia) : Z.land (0xe0 + q) 0x0f = q).
Qed.

Lemma utf8_head_4 q r s t l :
  0 <= q < 5 -> 0 <= r < 64 -> 0 <= s < 64 -> 0 <= t < 64 -> (q = 0 -> 16 <= r) -> (q = 4 -> r < 16) ->
  utf8_head (0xf0 + q :: 0x80 + r :: 0x80 + s :: 0x80 + t :: l) = (((q * 64 + r) * 64 + s) * 64 + t, 4%nat).
Proof.
  intros Hq Hr Hs Ht Hlo Hhi. unfold utf8_head, peek. cbn [lookup list_lookup default]. unfold id. rewrite (proj2 (Z.ltb_ge _ _)) by lia.
  assert (in_range 0xc2 0xe0 (0xf0 + q) = false) as -> by (apply not_true_iff_false; rewrite in_range_spec; lia).
  assert (in_range 0xe0 0xf0 (0xf0 + q) = false) as -> by (apply not_true_iff_false; rewrite in_range_spec; lia).
  rewrite (proj2 (in_range_spec 0xf0 _ _)) by lia.
  assert (second4 (0xf0 + q) (0x80 + r) = true) as ->.
  { unfold second4. destruct (Z.eqb_spec (0xf0 + q) 0xf0); [apply in_range_spec; lia|].
    destruct (Z.eqb_spec (0xf0 + q) 0xf4); [apply in_range_spec; lia|by apply is_cont_tag]. }
  rewrite !is_cont_tag, !cont_payload by lia. cbn [negb].
  by rewrite (payload 30 3 q ltac:(lia) ltac:(lia) : Z.land (0xf0 + q) 0x07 = q).
Qed.

(** A character decodes from its encoding. *)
Lemma utf8_head_char c l : scalar c -> utf8_head (utf8_char c ++ l) = (c, length (utf8_char c)).
Proof.
  intros Hc. unfold scalar in Hc. unfold utf8_char.
  destruct (Z.ltb_spec c 0x80).
  { unfold utf8_head, peek. cbn [app lookup list_lookup default length]. unfold id. by rewrite (proj2 (Z.ltb_lt _ _)) by lia. }
  destruct (Z.ltb_spec c 0x800); [|destruct (Z.ltb_spec c 0x10000)]; cbn [app length].
  - rewrite utf8_head_2 by (Z.div_mod_to_equations; lia). f_equal. Z.div_mod_to_equations; lia.
  - rewrite utf8_head_3 by (Z.div_mod_to_equations; lia). f_equal. Z.div_mod_to_equations; lia.
  - rewrite utf8_head_4 by (Z.div_mod_to_equations; lia). f_equal. Z.div_mod_to_equations; lia.
Qed.

Lemma utf8_char_length c : (1 <= length (utf8_char c))%nat.
Proof. unfold utf8_char. repeat case_match; cbn; lia. Qed.

Lemma as_bytes_cons c s : as_bytes (c :: s) = utf8_char c ++ as_bytes s.
Proof. done. Qed.

Lemma as_bytes_app a b : as_bytes (a ++ b) = as_bytes a ++ as_bytes b.
Proof. unfold as_bytes. by rewrite fmap_app, concat_app. Qed.

Lemma utf8_lossy_loop_bytes s : forall fuel,
  Forall scalar s -> (length (as_bytes s) <= fuel)%nat -> utf8_lossy_loop fuel (as_bytes s) = s.
Proof.
  induction s as [|c s IH]; intros fuel Hs Hf; [by destruct fuel|]. apply list.Forall_cons in Hs as [Hc Hs].
  rewrite as_bytes_cons in *. rewrite length_app in Hf. pose proof (utf8_char_length c). destruct fuel as [|fuel]; [lia|].
  assert (utf8_lossy_loop (S fuel) (utf8_char c ++ as_bytes s) =
    let '(x, n) := utf8_head (utf8_char c ++ as_bytes s) in x :: utf8_lossy_loop fuel (drop n (utf8_char c ++ as_bytes s))) as ->.
  { destruct (utf8_char c); [cbn in *; lia|done]. }
  rewrite utf8_head_char, drop_app_length by done. f_equal. apply IH; [done|lia].
Qed.

Lemma from_utf8_bytes s : Forall scalar s -> from_utf8 (as_bytes s) = Some s.
Proof.
  intros Hs. unfold from_utf8, utf8_lossy. rewrite utf8_lossy_loop_bytes by done. by rewrite bool_decide_true.
Qed.

(** What is decoded is text. *)
Lemma utf8_head_scalar l : bytes l -> scalar (utf8_head l).1.
Proof.
  intros Hl. assert (forall i, 0 <= peek i l < 256) as Hp.
  { intros i. unfold peek. destruct (l !! i) eqn:E; cbn; [|lia]. apply (Forall_lookup_1 _ _ _ _ Hl E). }
  pose proof (Hp 0%nat) as H0. pose proof (Hp 1%nat) as H1. pose proof (Hp 2%nat) as H2. pose proof (Hp 3%nat) as H3.
  unfold utf8_head. generalize dependent (peek 0 l). generalize dependent (peek 1 l). generalize dependent (peek 2 l).
  generalize dependent (peek 3 l). clear. intros b3 H3 b2 H2 b1 H1 b0 H0.
  assert (scalar REPLACEMENT) as Hr by (right; unfold REPLACEMENT; lia). unfold second3, second4, is_cont.
  change 0x1f with (Z.ones 5). change 0x3f with (Z.ones 6). change 0x0f with (Z.ones 4). change 0x07 with (Z.ones 3). rewrite !Z.land_ones by lia.
  repeat match goal with |- context[if ?b then _ else _] => destruct b eqn:? end; try done; cbn [fst];
    repeat match goal with H : negb _ = false |- _ => apply negb_false_iff in H end;
    repeat match goal with H : (if ?b then _ else _) = true |- _ => destruct b eqn:? end;
    repeat match goal with H : in_range _ _ _ = true |- _ => apply in_range_spec in H end;
    repeat match goal with
           | H : (_ =? _) = true |- _ => apply Z.eqb_eq in H
           | H : (_ =? _) = false |- _ => apply Z.eqb_neq in H
           | H : (_ <? _) = true |- _ => apply Z.ltb_lt in H
           | H : (_ <? _) = false |- _ => apply Z.ltb_ge in H
           end;
    unfold scalar; Z.div_mod_to_equations; lia.
Qed.

Lemma utf8_lossy_loop_scalar fuel : forall l, bytes l -> Forall scalar (utf8_lossy_loop fuel l).
Proof.
  induction fuel as [|fuel IH]; intros l Hl; [constructor|]. destruct l as [|b l]; [constructor|]. cbn [utf8_lossy_loop].
  pose proof (utf8_head_scalar _ Hl) as Hs. destruct (utf8_head (b :: l)) as [c n]. constructor; [done|].
  apply IH. by apply Forall_drop.
Qed.

Lemma from_utf8_scalar bs s : bytes bs -> from_utf8 bs = Some s -> Forall scalar s /\ as_bytes s = bs.
Proof.
  intros Hb. unfold from_utf8. case_bool_decide as E; [|done]. injection 1 as <-. split; [|done]. by apply utf8_lossy_loop_scalar.
Qed.

Lemma utf8_char_high c : scalar c -> 128 <= c -> Forall (fun b => 128 <= b) (utf8_char c).
Proof.
  intros Hs Hc. unfold scalar in Hs. unfold utf8_char. rewrite (proj2 (Z.ltb_ge c 0x80)) by lia.
  destruct (c <? 0x800); [|destruct (c <? 0x10000)]; repeat (apply list.Forall_cons; split); try constructor;
    Z.div_mod_to_equations; lia.
Qed.

Lemma utf8_char_low c : 0 <= c < 128 -> utf8_char c = [c].
Proof. intros Hc. unfold utf8_char. by rewrite (proj2 (Z.ltb_lt _ _)) by lia. Qed.

Lemma ascii_scalar s : forallb (in_range 0 128) s = true -> Forall scalar s.
Proof.
  induction s as [|c s IH]; [constructor|]. cbn. intros [Hc%in_range_spec Hs]%andb_true_iff. constructor; [left; lia|by apply IH].
Qed.
