(* ===== verification/NatRelay.v ===== *)
(** * The relay of the user-mode network

    [virtio/nat/mod.rs], [NatResponder::relay]: moving bytes between a guest-facing
    smoltcp socket and a non-blocking host stream under a byte budget. The socket
    and the stream are not part of the sources: each is a class of operations with
    its documented behaviour as a class of laws over what its buffers hold. *)

From Stdlib Require Import ZArith Lia Bool.
From stdpp Require Import base numbers list list_numbers option.
From S2P Require Import Prelude.

Definition HOST_READ_CHUNK : Z := 16 * 1024.
Definition TCP_BUF : Z := 64 * 1024.

(** ** The host stream *)

(** [std::io::Result] of a non-blocking socket. *)
Inductive IoResult (A : Type) :=
| IoOk (a : A)
| WouldBlock
| IoErr.
Arguments IoOk {A}.
Arguments WouldBlock {A}.
Arguments IoErr {A}.

Class HostStream (X : Type) := {
  stream_write : X -> list Z -> IoResult Z * X;
  stream_read : X -> Z -> IoResult (list Z) * X;
}.

(** What [Write] and [Read] promise: a write takes a prefix, a read gives at most
    what was asked for, and a failed call moves nothing. [host_got] is what the
    host took so far, [host_gave] what it was read. *)
Class HostStreamLaws (X : Type) `{HostStream X} := {
  host_got : X -> list Z;
  host_gave : X -> list Z;
  stream_write_ok x bs n x' : stream_write x bs = (IoOk n, x') ->
    0 <= n <= Z.of_nat (length bs) /\
    host_got x' = host_got x ++ take (Z.to_nat n) bs /\ host_gave x' = host_gave x;
  stream_write_none x bs r x' : stream_write x bs = (r, x') -> (forall n, r <> IoOk n) ->
    host_got x' = host_got x /\ host_gave x' = host_gave x;
  stream_read_ok x cap bs x' : stream_read x cap = (IoOk bs, x') ->
    Z.of_nat (length bs) <= cap /\
    host_gave x' = host_gave x ++ bs /\ host_got x' = host_got x;
  stream_read_none x cap r x' : stream_read x cap = (r, x') -> (forall bs, r <> IoOk bs) ->
    host_got x' = host_got x /\ host_gave x' = host_gave x;
}.

(** ** The guest-facing socket *)

(** [tcp::Socket]. [recv] runs its closure on the octets at the front of the receive
    buffer and dequeues as many as the closure says; an error of [recv] or
    [send_slice] is [None]. *)
Class TcpSocket (T : Type) := {
  can_recv : T -> bool;
  can_send : T -> bool;
  is_open : T -> bool;
  is_active : T -> bool;
  recv : forall A : Type, T -> (list Z -> Z * A) -> option A * T;
  send_slice : T -> list Z -> option Z * T;
  close : T -> T;
  abort : T -> T;
}.
Arguments recv {T _ A}.

Class TcpSocketLaws (T : Type) `{TcpSocket T} := {
  rx_queue : T -> list Z;
  tx_queue : T -> list Z;
  tx_room : T -> nat;
  rx_slice : T -> list Z;
  recv_slice t : can_recv t = true -> rx_slice t <> [] /\ rx_slice t `prefix_of` rx_queue t;
  recv_ok t A (f : list Z -> Z * A) : can_recv t = true ->
    0 <= (f (rx_slice t)).1 <= Z.of_nat (length (rx_slice t)) ->
    exists t', recv t f = (Some (f (rx_slice t)).2, t') /\
      rx_queue t = take (Z.to_nat (f (rx_slice t)).1) (rx_slice t) ++ rx_queue t' /\
      tx_queue t' = tx_queue t /\ tx_room t' = tx_room t;
  send_slice_ok t bs n t' : send_slice t bs = (Some n, t') ->
    0 <= n <= Z.of_nat (length bs) /\ tx_queue t' = tx_queue t ++ take (Z.to_nat n) bs /\
    tx_room t = (Z.to_nat n + tx_room t')%nat /\ rx_queue t' = rx_queue t;
  send_slice_none t bs t' : send_slice t bs = (None, t') ->
    tx_queue t' = tx_queue t /\ tx_room t' = tx_room t /\ rx_queue t' = rx_queue t;
  can_send_room t : can_send t = true -> (0 < tx_room t)%nat;
  close_keeps t : rx_queue (close t) = rx_queue t /\ tx_queue (close t) = tx_queue t /\
    tx_room (close t) = tx_room t;
}.

(** ** The relay *)

(** What one call of [relay] works on. *)
Record Relay (T X : Type) := mkRelay {
  r_sock : T;
  r_stream : X;
  r_pending : list Z;
  r_host_eof : bool;
  r_budget : option Z;
}.
Arguments mkRelay {T X}.
Arguments r_sock {T X}.
Arguments r_stream {T X}.
Arguments r_pending {T X}.
Arguments r_host_eof {T X}.
Arguments r_budget {T X}.

Definition usize_max : Z := 2 ^ 64 - 1.

Definition spend (n : Z) (budget : option Z) : option Z := (fun b => sat_sub b n) <$> budget.

Section Relay.
Context {T X : Type} `{TcpSocket T} `{HostStream X}.

(** The closure that [recv] runs: the octets it takes, whether it failed, how many
    it moved, and the stream after it. *)
Definition write_some (x : X) (cap : Z) (buf : list Z) : Z * (bool * Z * X) :=
  match buf with
  | [] => (0, (true, 0, x))
  | _ =>
      let take_ := Z.min (Z.of_nat (length buf)) cap in
      if take_ =? 0 then (0, (true, 0, x))
      else match stream_write x (take (Z.to_nat take_) buf) with
           | (IoOk n, x) => if n =? 0 then (0, (false, 0, x)) else (n, (true, n, x))
           | (WouldBlock, x) => (0, (true, 0, x))
           | (IoErr, x) => (0, (false, 0, x))
           end
  end.

Fixpoint guest_to_host (fuel : nat) (t : T) (x : X) (budget : option Z) : res unit (T * X * option Z) :=
  match fuel with
  | O => NoFuel
  | S fuel =>
      if negb (can_recv t) then Ok (t, x, budget)
      else if bool_decide (budget = Some 0) then Ok (t, x, budget)
      else
        let cap := default usize_max budget in
        match recv t (write_some x cap) with
        | (None, t) => Ok (close t, x, budget)
        | (Some (false, _, x), t) => Ok (close t, x, budget)
        | (Some (true, moved, x), t) =>
            if moved =? 0 then Ok (t, x, budget)
            else guest_to_host fuel t x (spend moved budget)
        end
  end.

(** [pending.drain(..sent)] after [send_slice(pending).unwrap_or(0)]. *)
Definition flush_pending (t : T) (pending : list Z) : T * list Z :=
  match pending with
  | [] => (t, [])
  | _ => let '(sent, t) := send_slice t pending in (t, drop (Z.to_nat (default 0 sent)) pending)
  end.

Fixpoint host_to_guest (fuel : nat) (r : Relay T X) : res unit (Relay T X) :=
  match fuel with
  | O => NoFuel
  | S fuel =>
      let '(mkRelay t x pending eof budget) := r in
      if bool_decide (pending = []) && negb eof && can_send t then
        let cap := match budget with Some n => Z.min n HOST_READ_CHUNK | None => HOST_READ_CHUNK end in
        if cap =? 0 then Ok r
        else
          match stream_read x cap with
          | (IoOk [], x) => Ok (mkRelay t x pending true budget)
          | (IoOk bs, x) =>
              let n := Z.of_nat (length bs) in
              let '(sent, t) := send_slice t bs in
              let pending := pending ++ drop (Z.to_nat (default 0 sent)) bs in
              let r := mkRelay t x pending eof (spend n budget) in
              if n <? cap then Ok r else host_to_guest fuel r
          | (WouldBlock, x) => Ok (mkRelay t x pending eof budget)
          | (IoErr, x) => Ok (mkRelay t x pending true budget)
          end
      else Ok r
  end.

Definition is_empty (l : list Z) : bool := bool_decide (l = []).

Definition relay (fuel : nat) (r : Relay T X) : res unit (bool * Relay T X) :=
  '(t, x, budget) ← guest_to_host fuel (r_sock r) (r_stream r) (r_budget r);
  let '(t, pending) := flush_pending t (r_pending r) in
  r ← host_to_guest fuel (mkRelay t x pending (r_host_eof r) budget);
  let t := if r_host_eof r && is_empty (r_pending r) then close (r_sock r) else r_sock r in
  Ok (negb (is_open t) && is_empty (r_pending r),
      mkRelay t (r_stream r) (r_pending r) (r_host_eof r) (r_budget r)).

(** ** Fuel *)

Lemma guest_to_host_mono t x b : fuel_mono (fun fuel => guest_to_host fuel t x b).
Proof.
  intros f. revert t x b. induction f as [|f IH]; intros t x b [|f'] r; cbn [guest_to_host]; try done; [lia|].
  destruct (negb (can_recv t)); [done|]. case_bool_decide; [done|].
  destruct (recv t _) as [[[[[] moved] x']|] t']; try done. destruct (moved =? 0); [done|].
  intros Hr Hle. apply (IH _ _ _ f' r Hr). lia.
Qed.

Lemma host_to_guest_mono r : fuel_mono (fun fuel => host_to_guest fuel r).
Proof.
  intros f. revert r. induction f as [|f IH]; intros [t x p eof b] [|f'] r; cbn [host_to_guest]; try done; [lia|].
  destruct (_ && _); [|done]. cbv zeta. destruct (_ =? 0); [done|].
  destruct (stream_read x _) as [[[|c bs]| |] x']; try done. destruct (send_slice t _) as [sent t'].
  destruct (_ <? _); [done|]. intros Hr Hle. apply (IH _ f' r Hr). lia.
Qed.

Lemma relay_mono r : fuel_mono (fun fuel => relay fuel r).
Proof.
  unfold relay. apply fuel_mono_bind; [apply guest_to_host_mono|]. intros [[t x] b].
  destruct (flush_pending t (r_pending r)) as [t1 p1]. apply fuel_mono_bind; [apply host_to_guest_mono|].
  intros r1. apply fuel_mono_const.
Qed.

(** ** What is moved *)

Context `{!TcpSocketLaws T} `{!HostStreamLaws X}.

(** [budget] covers [n] bytes and leaves [budget']. *)
Definition spent (budget budget' : option Z) (n : nat) : Prop :=
  match budget with
  | None => budget' = None
  | Some b => budget' = Some (b - Z.of_nat n) /\ Z.of_nat n <= b
  end.

Definition budget_ok (budget : option Z) : Prop := match budget with Some b => 0 <= b | None => True end.

Lemma spent_0 budget : budget_ok budget -> spent budget budget 0.
Proof. destruct budget; cbn; [|done]. intros. split; [f_equal; lia|lia]. Qed.

Lemma spent_step budget budget' n m :
  Z.of_nat n <= default usize_max budget -> spent (spend (Z.of_nat n) budget) budget' m ->
  spent budget budget' (n + m).
Proof.
  destruct budget as [b|]; cbn; [|done]. unfold sat_sub. intros Hn [-> Hm].
  split; [f_equal; lia|lia].
Qed.

Lemma spend_ok n budget : budget_ok (spend n budget).
Proof. destruct budget; cbn; [unfold sat_sub; lia|done]. Qed.

Lemma write_some_spec x cap buf k ok moved x' :
  0 <= cap -> write_some x cap buf = (k, (ok, moved, x')) ->
  k = moved /\ 0 <= k <= Z.of_nat (length buf) /\ k <= cap /\
  host_got x' = host_got x ++ take (Z.to_nat k) buf /\ host_gave x' = host_gave x.
Proof.
  intros Hcap. unfold write_some.
  assert (forall y, (0, (true, 0, y)) = (k, (ok, moved, x')) -> host_got y = host_got x -> host_gave y = host_gave x ->
    k = moved /\ 0 <= k <= Z.of_nat (length buf) /\ k <= cap /\
    host_got x' = host_got x ++ take (Z.to_nat k) buf /\ host_gave x' = host_gave x) as Hnone.
  { intros y [= <- <- <- <-] -> ->. rewrite take_0, app_nil_r. repeat split; lia. }
  destruct buf as [|b buf]; [intros Hx; by apply (Hnone x)|]. cbv zeta.
  destruct (Z.eqb_spec (Z.min (Z.of_nat (length (b :: buf))) cap) 0) as [|Hmin]; [intros Hx; by apply (Hnone x)|].
  destruct (stream_write x _) as [[n| |] y] eqn:Ew.
  - apply stream_write_ok in Ew as (Hn & Hg & Hv). rewrite length_take in Hn.
    rewrite take_take in Hg. destruct (Z.eqb_spec n 0) as [->|Hn0].
    + intros [= <- <- <- <-]. rewrite Hg, Hv. repeat split; lia.
    + intros [= <- <- <- <-]. rewrite Nat.min_l in Hg by lia. repeat split; (done || lia).
  - destruct (stream_write_none _ _ _ _ Ew) as [Hg Hv]; [done|]. intros Hx. by apply (Hnone y).
  - destruct (stream_write_none _ _ _ _ Ew) as [Hg Hv]; [done|]. intros [= <- <- <- <-].
    rewrite take_0, app_nil_r. repeat split; (done || lia).
Qed.

(** From [(t, x, budget)] to [(t', x', budget')] exactly [gh] went to the host. *)
Definition upstream (t : T) (x : X) (b : option Z) (gh : list Z) (t' : T) (x' : X) (b' : option Z) : Prop :=
  rx_queue t = gh ++ rx_queue t' /\ tx_queue t' = tx_queue t /\ tx_room t' = tx_room t /\
  host_got x' = host_got x ++ gh /\ host_gave x' = host_gave x /\ spent b b' (length gh).

Lemma upstream_none t x b : budget_ok b -> upstream t x b [] t x b.
Proof. intros Hb. unfold upstream. rewrite app_nil_r. repeat split; try done. by apply spent_0. Qed.

Lemma upstream_close t x b gh t' x' b' : upstream t x b gh t' x' b' -> upstream t x b gh (close t') x' b'.
Proof. unfold upstream. by destruct (close_keeps t') as (-> & -> & ->). Qed.

Lemma recv_write t x budget :
  can_recv t = true -> budget_ok budget ->
  exists ok moved x' t',
    recv t (write_some x (default usize_max budget)) = (Some (ok, moved, x'), t') /\
    0 <= moved <= default usize_max budget /\
    upstream t x budget (take (Z.to_nat moved) (rx_slice t)) t' x' (spend moved budget) /\
    Z.of_nat (length (take (Z.to_nat moved) (rx_slice t))) = moved /\
    (ok = false -> moved = 0).
Proof.
  intros Hc Hb. set (cap := default usize_max budget).
  assert (0 <= cap) as Hcap by (subst cap; destruct budget; cbn in *; [done|by vm_compute]).
  destruct (write_some x cap (rx_slice t)) as [k [[ok moved] x']] eqn:Ew.
  pose proof (write_some_spec _ _ _ _ _ _ _ Hcap Ew) as (-> & Hk & Hkc & Hg & Hv).
  destruct (recv_ok t _ (write_some x cap) Hc) as (t' & Hr & Hq & Htx & Hroom);
    [rewrite Ew; cbn; lia|]. rewrite Ew in Hr, Hq. cbn [fst snd] in Hr, Hq.
  exists ok, moved, x', t'. rewrite length_take. split; [done|]. split; [lia|]. split; [|split; [lia|]].
  - unfold upstream. repeat (split; [done|]). rewrite length_take.
    replace (Z.to_nat moved `min` length (rx_slice t))%nat with (Z.to_nat moved) by lia.
    replace (Z.to_nat moved) with (Z.to_nat moved + 0)%nat by lia. apply spent_step.
    + rewrite Z2Nat.id by lia. done.
    + rewrite Z2Nat.id by lia. apply spent_0, spend_ok.
  - intros ->. unfold write_some in Ew. revert Ew. destruct (rx_slice t); [by intros [= _ <-]|]. cbv zeta.
    destruct (_ =? 0); [by intros [= _ <-]|]. destruct (stream_write _ _) as [[n| |] y].
    + destruct (n =? 0); by intros [= <-].
    + by intros [= <-].
    + by intros [= <-].
Qed.

Lemma upstream_trans t x b gh t1 x1 b1 gh' t2 x2 b2 n :
  upstream t x b gh t1 x1 b1 -> b1 = spend n b -> n = Z.of_nat (length gh) -> n <= default usize_max b ->
  upstream t1 x1 b1 gh' t2 x2 b2 -> upstream t x b (gh ++ gh') t2 x2 b2.
Proof.
  intros (Hq & Htx & Hr & Hg & Hv & _) -> -> Hn (Hq' & Htx' & Hr' & Hg' & Hv' & Hs'). unfold upstream.
  rewrite Hq, Hq', Htx', Htx, Hr', Hr, Hg', Hg, Hv', Hv, !app_assoc, length_app.
  repeat (split; [done|]). by apply spent_step.
Qed.

Lemma guest_to_host_spec fuel : forall t x budget,
  (length (rx_queue t) < fuel)%nat -> budget_ok budget ->
  exists gh t' x' budget', guest_to_host fuel t x budget = Ok (t', x', budget') /\
    upstream t x budget gh t' x' budget' /\ budget_ok budget'.
Proof.
  induction fuel as [|fuel IH]; intros t x budget Hf Hb; [lia|]. cbn [guest_to_host].
  destruct (can_recv t) eqn:Hc; cbn [negb];
    [|exists [], t, x, budget; split; [done|]; split; [by apply upstream_none|done]].
  case_bool_decide; [exists [], t, x, budget; split; [done|]; split; [by apply upstream_none|done]|].
  destruct (recv_write t x budget Hc Hb) as (ok & moved & x' & t' & -> & Hm & Hup & Hlen & Hok).
  set (gh := take (Z.to_nat moved) (rx_slice t)) in *.
  assert (moved = 0 -> upstream t x budget gh t' x' budget) as Hstill.
  { intros ->. replace (spend 0 budget) with budget in Hup; [done|].
    destruct budget; cbn in *; [unfold sat_sub; f_equal; lia|done]. }
  destruct ok.
  - destruct (Z.eqb_spec moved 0) as [->|Hm0].
    + exists gh, t', x', budget. split; [done|]. split; [by apply Hstill|done].
    + destruct (IH t' x' (spend moved budget)) as (gh' & t2 & x2 & b2 & -> & Hup' & Hb2).
      { pose proof Hup as (Hq & _). apply (f_equal length) in Hq. rewrite length_app in Hq. lia. }
      { apply spend_ok. }
      exists (gh ++ gh'), t2, x2, b2. split; [done|]. split; [|done].
      eapply (upstream_trans _ _ _ _ _ _ _ _ _ _ _ moved); [exact Hup|done|done|lia|exact Hup'].
  - specialize (Hok eq_refl). exists gh, (close t'), x', budget. split; [done|].
    split; [apply upstream_close, Hstill; done|done].
Qed.

(** From [r] to [r'] exactly [hg] came from the host and is queued or held for the guest. *)
Definition downstream (r : Relay T X) (hg : list Z) (r' : Relay T X) : Prop :=
  tx_queue (r_sock r') ++ r_pending r' = tx_queue (r_sock r) ++ r_pending r ++ hg /\
  rx_queue (r_sock r') = rx_queue (r_sock r) /\
  host_gave (r_stream r') = host_gave (r_stream r) ++ hg /\
  host_got (r_stream r') = host_got (r_stream r) /\
  spent (r_budget r) (r_budget r') (length hg).

Lemma downstream_none r x' pending' eof' :
  budget_ok (r_budget r) -> pending' = r_pending r ->
  host_got x' = host_got (r_stream r) -> host_gave x' = host_gave (r_stream r) ->
  downstream r [] (mkRelay (r_sock r) x' pending' eof' (r_budget r)).
Proof.
  intros Hb -> Hg Hv. unfold downstream. cbn [r_sock r_stream r_pending r_budget]. rewrite Hg, Hv, !app_nil_r.
  repeat (split; [done|]). by apply spent_0.
Qed.

(** One read from the host, passed on. *)
Lemma downstream_read t x eof budget bs sent t' x' :
  budget_ok budget -> Z.of_nat (length bs) <= default usize_max budget ->
  host_gave x' = host_gave x ++ bs -> host_got x' = host_got x -> send_slice t bs = (sent, t') ->
  downstream (mkRelay t x [] eof budget) bs
    (mkRelay t' x' (drop (Z.to_nat (default 0 sent)) bs) eof (spend (Z.of_nat (length bs)) budget)) /\
  (default 0 sent = Z.of_nat (length bs) -> tx_room t = (length bs + tx_room t')%nat).
Proof.
  intros Hb Hn Hv Hg Hs. unfold downstream. cbn [r_sock r_stream r_pending r_budget].
  assert (tx_queue t' ++ drop (Z.to_nat (default 0 sent)) bs = tx_queue t ++ bs /\
    rx_queue t' = rx_queue t /\
    (default 0 sent = Z.of_nat (length bs) -> tx_room t = (length bs + tx_room t')%nat)) as (Hq & Hrx & Hroom).
  { destruct sent as [n|].
    - change (default 0 (Some n)) with n. destruct (send_slice_ok _ _ _ _ Hs) as (Hr & Htx & Hroom & Hrx). rewrite Htx, <- app_assoc, take_drop.
      repeat split; [done|]. intros ->. by rewrite Nat2Z.id in Hroom.
    - destruct (send_slice_none _ _ _ Hs) as (Htx & Hroom & Hrx). rewrite Htx, Hroom. change (default 0 None) with 0. cbn [Z.to_nat]. rewrite drop_0.
      repeat split; [done|]. intros Hl. destruct bs; [done|cbn in Hl; lia]. }
  rewrite Hq, Hrx, Hv, Hg. split; [|done]. repeat (split; [done|]).
  replace (length bs) with (length bs + 0)%nat at 2 by lia. apply spent_step; [done|]. apply spent_0, spend_ok.
Qed.

Lemma downstream_trans r bs r1 hg r2 n :
  downstream r bs r1 -> r_budget r1 = spend n (r_budget r) -> n = Z.of_nat (length bs) ->
  n <= default usize_max (r_budget r) -> downstream r1 hg r2 -> downstream r (bs ++ hg) r2.
Proof.
  intros (Hq & Hrx & Hv & Hg & _) Hb -> Hn (Hq' & Hrx' & Hv' & Hg' & Hs'). unfold downstream.
  rewrite Hq', app_assoc, Hq, Hrx', Hrx, Hv', Hv, Hg', Hg, length_app, <- !app_assoc.
  repeat (split; [done|]). apply spent_step; [done|]. by rewrite <- Hb.
Qed.

Lemma flush_pending_spec t x pending eof budget t' pending' :
  budget_ok budget -> flush_pending t pending = (t', pending') ->
  downstream (mkRelay t x pending eof budget) [] (mkRelay t' x pending' eof budget) /\
  (tx_room t' <= tx_room t)%nat.
Proof.
  intros Hb. unfold flush_pending. destruct pending as [|p ps].
  { intros [= <- <-]. split; [|lia]. by apply (downstream_none (mkRelay t x [] eof budget)). }
  generalize (p :: ps). clear p ps. intros pending. destruct (send_slice t pending) as [sent s] eqn:Es. intros [= <- <-].
  unfold downstream. cbn [r_sock r_stream r_pending r_budget]. rewrite !app_nil_r. cbn [length].
  destruct sent as [n|].
  - change (default 0 (Some n)) with n. destruct (send_slice_ok _ _ _ _ Es) as (Hr & Htx & Hroom & Hrx).
    rewrite Htx, <- app_assoc, take_drop, Hrx. split; [|lia]. repeat (split; [done|]). by apply spent_0.
  - change (default 0 None) with 0. destruct (send_slice_none _ _ _ Es) as (Htx & Hroom & Hrx).
    cbn [Z.to_nat]. rewrite drop_0, Htx, Hrx. split; [|lia]. repeat (split; [done|]). by apply spent_0.
Qed.

Lemma read_cap budget : budget_ok budget ->
  0 <= match budget with Some n => Z.min n HOST_READ_CHUNK | None => HOST_READ_CHUNK end <=
       default usize_max budget.
Proof. unfold HOST_READ_CHUNK. destruct budget; cbn; [lia|]. intros _. unfold usize_max. lia. Qed.

Lemma downstream_end t x eof budget y eof' :
  budget_ok budget -> host_got y = host_got x -> host_gave y = host_gave x ->
  exists hg r', Ok (E:=unit) (mkRelay t y [] eof' budget) = Ok r' /\
    downstream (mkRelay t x [] eof budget) hg r'.
Proof.
  intros Hb Hg Hv. exists [], (mkRelay t y [] eof' budget). split; [done|].
  by apply (downstream_none (mkRelay t x [] eof budget)).
Qed.

(** A full read with nothing held back took its bytes from the room of the socket. *)
Lemma all_sent_room t bs sent t' :
  send_slice t bs = (sent, t') -> bs <> [] -> drop (Z.to_nat (default 0 sent)) bs = [] ->
  default 0 sent = Z.of_nat (length bs).
Proof.
  intros Hs Hne Hd. apply (f_equal length) in Hd. rewrite length_drop in Hd. cbn [length] in Hd.
  assert (0 < length bs)%nat by (destruct bs; [done|cbn; lia]).
  destruct sent as [n|]; [|cbn in Hd; lia]. destruct (send_slice_ok _ _ _ _ Hs) as (Hr & _).
  change (default 0 (Some n)) with n in *. lia.
Qed.

Lemma host_to_guest_spec fuel : forall r,
  (tx_room (r_sock r) < fuel)%nat -> budget_ok (r_budget r) ->
  exists hg r', host_to_guest fuel r = Ok r' /\ downstream r hg r'.
Proof.
  induction fuel as [|fuel IH]; intros [t x pending eof budget] Hf Hb; [cbn in Hf; lia|]. cbn [host_to_guest].
  cbn [r_sock r_budget] in Hf, Hb.
  destruct (bool_decide (pending = []) && negb eof && can_send t) eqn:Hgo.
  2: { exists [], (mkRelay t x pending eof budget). split; [done|].
       by apply (downstream_none (mkRelay t x pending eof budget)). }
  apply andb_true_iff in Hgo as [[Hp _]%andb_true_iff Hroom0%can_send_room]. apply bool_decide_eq_true in Hp as ->.
  pose proof (read_cap budget Hb) as Hcap. revert Hcap.
  set (cap := match budget with Some n => Z.min n HOST_READ_CHUNK | None => HOST_READ_CHUNK end). intros Hcap.
  destruct (cap =? 0); [by apply downstream_end|].
  destruct (stream_read x cap) as [[bs| |] y] eqn:Er.
  2,3: destruct (stream_read_none _ _ _ _ Er) as [Hg Hv]; [done|]; by apply downstream_end.
  apply stream_read_ok in Er as (Hl & Hv & Hg).
  destruct bs as [|b bs]; [apply downstream_end; [done|done|by rewrite Hv, app_nil_r]|].
  revert Hl Hv. set (data := b :: bs). intros Hl Hv. cbv zeta. destruct (send_slice t data) as [sent t'] eqn:Es.
  destruct (downstream_read t x eof budget data sent t' y) as [Hd Hroom]; [done|lia|done|done|done|].
  rewrite app_nil_l. destruct (Z.ltb_spec (Z.of_nat (length data)) cap) as [|Hge]; [eexists data, _; by split|].
  set (r1 := mkRelay t' y _ eof _) in *. destruct (decide (r_pending r1 = [])) as [Hp|Hp].
  - specialize (Hroom (all_sent_room _ _ _ _ Es ltac:(done) Hp)). cbn [data length] in Hroom.
    destruct (IH r1) as (hg & r2 & -> & Hd'); [cbn [r1 r_sock]; lia|apply spend_ok|].
    exists (data ++ hg), r2. split; [done|].
    eapply (downstream_trans _ _ r1 _ _ (Z.of_nat (length data))); [exact Hd|done|done|cbn [r_budget]; lia|done].
  - exists data, r1. split; [|done]. destruct fuel; [lia|]. cbn [host_to_guest r1].
    by rewrite bool_decide_eq_false_2.
Qed.

(** ** The relay theorem *)

Lemma relay_spec fuel r :
  (length (rx_queue (r_sock r)) < fuel)%nat -> (tx_room (r_sock r) < fuel)%nat -> budget_ok (r_budget r) ->
  exists done r' gh hg, relay fuel r = Ok (done, r') /\
    rx_queue (r_sock r) = gh ++ rx_queue (r_sock r') /\
    host_got (r_stream r') = host_got (r_stream r) ++ gh /\
    host_gave (r_stream r') = host_gave (r_stream r) ++ hg /\
    tx_queue (r_sock r') ++ r_pending r' = tx_queue (r_sock r) ++ r_pending r ++ hg /\
    spent (r_budget r) (r_budget r') (length gh + length hg) /\
    (done = true -> r_pending r' = []).
Proof.
  intros Hrx Htx Hb. unfold relay.
  destruct (guest_to_host_spec fuel (r_sock r) (r_stream r) (r_budget r) Hrx Hb) as (gh & t & x & b & -> & Hup & Hb1).
  cbn [mbind res_bind_inst]. destruct (flush_pending t (r_pending r)) as [t1 p1] eqn:Ef.
  destruct (flush_pending_spec t x (r_pending r) (r_host_eof r) b t1 p1 Hb1 Ef) as [Hfl Hroom1].
  destruct Hup as (Hq & Htxq & Hroom & Hg & Hv & Hs).
  destruct (host_to_guest_spec fuel (mkRelay t1 x p1 (r_host_eof r) b)) as (hg & r2 & -> & Hd);
    [cbn [r_sock]; lia|done|]. cbn [mbind res_bind_inst].
  destruct Hfl as (Hfq & Hfrx & _ & _ & _). destruct Hd as (Hdq & Hdrx & Hdv & Hdg & Hds).
  cbn [r_sock r_stream r_pending r_budget] in *.
  set (t2 := if r_host_eof r2 && is_empty (r_pending r2) then close (r_sock r2) else r_sock r2).
  assert (rx_queue t2 = rx_queue (r_sock r2) /\ tx_queue t2 = tx_queue (r_sock r2)) as [Hc1 Hc2].
  { unfold t2. destruct (_ && _); [|done]. by destruct (close_keeps (r_sock r2)) as (-> & -> & _). }
  do 2 eexists. exists gh, hg. split; [done|]. cbn [r_sock r_stream r_pending r_budget].
  rewrite Hc1, Hdrx, Hfrx, Hdg, Hg, Hdv, Hv, Hc2, Hdq, app_assoc, Hfq, app_nil_r, Htxq, <- app_assoc.
  repeat (split; [done|]). split.
  - destruct (r_budget r) as [n|]; cbn in Hs |- *; [|by rewrite Hs in Hds]. destruct Hs as [-> Hn].
    destruct Hds as [-> Hn2]. split; [f_equal; lia|lia].
  - intros [_ He]%andb_true_iff. by apply bool_decide_eq_true in He.
Qed.

(** The same for any fuel on which the relay returns. *)
Lemma relay_result fuel r d r' :
  budget_ok (r_budget r) -> relay fuel r = Ok (d, r') ->
  exists gh hg,
    host_got (r_stream r') = host_got (r_stream r) ++ gh /\
    host_gave (r_stream r') = host_gave (r_stream r) ++ hg /\
    spent (r_budget r) (r_budget r') (length gh + length hg).
Proof.
  intros Hb Hr. set (big := (fuel + length (rx_queue (r_sock r)) + tx_room (r_sock r) + 1)%nat).
  destruct (relay_spec big r) as (d1 & r1 & gh & hg & Hr1 & _ & Hg & Hv & _ & Hs & _); [lia|lia|done|].
  apply (relay_mono r fuel big) in Hr; [|lia]. cbn beta in Hr. rewrite Hr1 in Hr. injection Hr as <- <-.
  by exists gh, hg.
Qed.

Lemma relay_returns r : budget_ok (r_budget r) -> exists d r', returns_to (fun fuel => relay fuel r) (d, r') /\ budget_ok (r_budget r').
Proof.
  intros Hb. set (big := (length (rx_queue (r_sock r)) + tx_room (r_sock r) + 1)%nat).
  destruct (relay_spec big r) as (d & r' & gh & hg & Hr & _ & _ & _ & _ & Hs & _); [lia|lia|done|].
  exists d, r'. split; [eapply returns_mono; [apply relay_mono|exact Hr]|].
  destruct (r_budget r) as [b|]; cbn in Hs; [destruct Hs as [-> ?]; cbn; lia|by rewrite Hs].
Qed.

(** C18: the relay is a faithful pipe. With more fuel than the socket's buffers have
    bytes it ends. What left the guest's receive buffer is exactly what the host
    stream took, in order; what the host was read is exactly what was added to the
    bytes queued or held for the guest, in order; and both together are charged to
    the budget, which is never overdrawn. *)
Theorem relay_conserves_streams fuel r :
  (length (rx_queue (r_sock r)) < fuel)%nat -> (tx_room (r_sock r) < fuel)%nat -> budget_ok (r_budget r) ->
  exists done r' gh hg, relay fuel r = Ok (done, r') /\
    rx_queue (r_sock r) = gh ++ rx_queue (r_sock r') /\
    host_got (r_stream r') = host_got (r_stream r) ++ gh /\
    host_gave (r_stream r') = host_gave (r_stream r) ++ hg /\
    tx_queue (r_sock r') ++ r_pending r' = tx_queue (r_sock r) ++ r_pending r ++ hg /\
    spent (r_budget r) (r_budget r') (length gh + length hg) /\
    (done = true -> r_pending r' = []).
Proof. intros Hrx Htx Hb. exact (relay_spec fuel r Hrx Htx Hb). Qed.

End Relay.

(** ** Sockets in memory *)

(** A guest-facing socket that is its two buffers, with [I] on the side. *)
Record MemSocket (I : Type) := mkMemSocket {
  ms_rx : list Z;
  ms_tx : list Z;
  ms_room : nat;
  ms_open : bool;
  ms_info : I;
}.
Arguments mkMemSocket {I}.
Arguments ms_rx {I}.
Arguments ms_tx {I}.
Arguments ms_room {I}.
Arguments ms_open {I}.
Arguments ms_info {I}.

#[export] Instance mem_socket {I} : TcpSocket (MemSocket I) := {
  can_recv t := negb (is_empty (ms_rx t));
  can_send t := ms_open t && (0 <? ms_room t)%nat;
  is_open := ms_open;
  is_active := ms_open;
  recv A t f :=
    let '(n, a) := f (ms_rx t) in
    (Some a, mkMemSocket (drop (Z.to_nat n) (ms_rx t)) (ms_tx t) (ms_room t) (ms_open t) (ms_info t));
  send_slice t bs :=
    if ms_open t then
      let n := Nat.min (length bs) (ms_room t) in
      (Some (Z.of_nat n),
       mkMemSocket (ms_rx t) (ms_tx t ++ take n bs) (ms_room t - n) (ms_open t) (ms_info t))
    else (None, t);
  close t := mkMemSocket (ms_rx t) (ms_tx t) (ms_room t) false (ms_info t);
  abort t := mkMemSocket [] [] (ms_room t) false (ms_info t);
}.

#[export] Instance mem_socket_laws {I} : TcpSocketLaws (MemSocket I).
Proof.
  refine {| rx_queue := ms_rx; tx_queue := ms_tx; tx_room := ms_room; rx_slice := ms_rx |}.
  - intros t Ht. cbn in Ht. unfold is_empty in Ht. rewrite negb_true_iff, bool_decide_eq_false in Ht. by split.
  - intros t A f _ Hn. cbn. destruct (f (ms_rx t)) as [n a]. eexists. split; [done|]. cbn. by rewrite take_drop.
  - intros t bs n t'. cbn. destruct (ms_open t); [|done]. intros [= <- <-]. cbn. rewrite Nat2Z.id.
    split; [lia|]. split; [done|]. split; [lia|done].
  - intros t bs t'. cbn. destruct (ms_open t); [done|]. by intros [= <-].
  - intros t. cbn. intros [_ Hr]%andb_true_iff. by apply Nat.ltb_lt.
  - by intros t.
Defined.

(** A host stream that takes [hs_room] more bytes and then blocks, and gives what it holds. *)
Record MemStream := mkMemStream { hs_got : list Z; hs_gave : list Z; hs_incoming : list Z; hs_room : nat }.

#[export] Instance mem_stream : HostStream MemStream := {
  stream_write x bs :=
    let n := Nat.min (length bs) (hs_room x) in
    if (n =? 0)%nat then (WouldBlock, x)
    else (IoOk (Z.of_nat n),
          mkMemStream (hs_got x ++ take n bs) (hs_gave x) (hs_incoming x) (hs_room x - n));
  stream_read x cap :=
    let bs := take (Z.to_nat cap) (hs_incoming x) in
    if is_empty bs || (cap <? 0) then (WouldBlock, x)
    else (IoOk bs, mkMemStream (hs_got x) (hs_gave x ++ bs) (drop (Z.to_nat cap) (hs_incoming x)) (hs_room x));
}.

#[export] Instance mem_stream_laws : HostStreamLaws MemStream.
Proof.
  refine {| host_got := hs_got; host_gave := hs_gave |}.
  - intros x bs n x'. cbn. destruct (_ =? 0)%nat; [done|]. intros [= <- <-]. cbn. rewrite Nat2Z.id. split; [lia|done].
  - intros x bs r x'. cbn. destruct (_ =? 0)%nat; [by intros [= <- <-]|]. intros [= <- <-] Hn. by destruct (Hn _ eq_refl).
  - intros x cap bs x'. cbn. destruct (is_empty _ || (cap <? 0)) eqn:E; [done|]. intros [= <- <-]. cbn.
    apply orb_false_iff in E as [_ E%Z.ltb_ge]. rewrite length_take. split; [lia|done].
  - intros x cap r x'. cbn. destruct (_ || _); [by intros [= <- <-]|]. intros [= <- <-] Hn. by destruct (Hn _ eq_refl).
Defined.

(** Five bytes for the host, of which it takes four, and three for the guest, under a
    budget of six. *)
Definition demo_relay : Relay (MemSocket unit) MemStream :=
  mkRelay (mkMemSocket [1; 2; 3; 4; 5] [] 64 true tt) (mkMemStream [] [] [7; 8; 9] 4) [] false (Some 6).

Lemma relay_conserves_streams_witness :
  exists done r' gh hg, relay 100 demo_relay = Ok (done, r') /\
    rx_queue (r_sock demo_relay) = gh ++ rx_queue (r_sock r') /\
    host_got (r_stream r') = host_got (r_stream demo_relay) ++ gh /\
    host_gave (r_stream r') = host_gave (r_stream demo_relay) ++ hg /\
    tx_queue (r_sock r') ++ r_pending r' = tx_queue (r_sock demo_relay) ++ r_pending demo_relay ++ hg /\
    spent (r_budget demo_relay) (r_budget r') (length gh + length hg) /\
    (done = true -> r_pending r' = []).
Proof. apply (relay_conserves_streams 100 demo_relay); cbn; lia. Defined.
