(* ===== verification/Nat.v ===== *)
(** * The user-mode network responder

    [virtio/nat/mod.rs] and [virtio/nat/device.rs]: [NatResponder], which ends the
    guest's flows in a smoltcp stack and relays them to host sockets under the
    egress policy. smoltcp and the host's sockets are classes of operations; the
    responder's own state and every handler are definitions. Times are nanoseconds
    of the host's monotonic clock, one instant per call. *)

From Stdlib Require Import ZArith Lia Bool String.
From stdpp Require Import base numbers list list_numbers gmap sets option.
From S2P Require Import Prelude Text Egress Dns NatRelay.

Definition CONNECT_TIMEOUT : Z := 8 * 10 ^ 9.
Definition INGRESS_BIND_ADDR : Z := ip4 127 0 0 1.
Definition INGRESS_PORT_LO : Z := 49152.
Definition INGRESS_PORT_HI : Z := 65535.
Definition NAT_MTU : Z := 1500.

(** [SocketAddrV4]. *)
Notation SocketAddrV4 := (Z * Z)%type.

(** [SocketAddr]; an IPv6 address is given by its text. *)
Inductive SocketAddr :=
| SockV4 (a : SocketAddrV4)
| SockV6 (text : str).

Definition show_ip (ip : Z) : str :=
  dec (octet ip 0) ++ lit "." ++ dec (octet ip 1) ++ lit "." ++ dec (octet ip 2) ++ lit "." ++ dec (octet ip 3).

Definition show_v4 (a : SocketAddrV4) : str := show_ip a.1 ++ lit ":" ++ dec a.2.

Definition show_addr (a : SocketAddr) : str := match a with SockV4 a => show_v4 a | SockV6 t => t end.

(** ** The link *)

Record FrameDevice := mkFrames { from_guest : list (list Z); to_guest : list (list Z) }.

Definition push_from_guest (frame : list Z) (d : FrameDevice) : FrameDevice :=
  mkFrames (from_guest d ++ [frame]) (to_guest d).

Definition pop_to_guest (d : FrameDevice) : option (list Z) * FrameDevice :=
  match to_guest d with
  | [] => (None, d)
  | f :: fs => (Some f, mkFrames (from_guest d) fs)
  end.

(** [receive] and the receive token: the next frame of the guest. *)
Definition frame_receive (d : FrameDevice) : option (list Z * FrameDevice) :=
  match from_guest d with
  | [] => None
  | f :: fs => Some (f, mkFrames fs (to_guest d))
  end.

(** A transmit token consumed: the filled buffer is queued for the guest. *)
Definition frame_transmit (fill : list Z -> list Z) (len : nat) (d : FrameDevice) : FrameDevice :=
  mkFrames (from_guest d) (to_guest d ++ [fill (replicate len 0)]).

(** ** What the responder is built on *)

Inductive TcpState :=
| TcpClosed | TcpListen | SynSent | SynReceived | Established | FinWait1 | FinWait2
| CloseWait | Closing | LastAck | TimeWait.

#[export] Instance TcpState_eq_dec : EqDecision TcpState.
Proof. solve_decision. Defined.

(** smoltcp: the interface with its socket set [K], TCP sockets [T] addressed by
    handles, the DNS socket with its packet metadata [M]. *)
Class Smoltcp (K T M : Type) `{TcpSocket T} := {
  stack_new : Z -> list Z -> K;
  stack_poll : Z -> K -> FrameDevice -> K * FrameDevice;
  tcp_new : Z -> Z -> T;
  tcp_listen : T -> SocketAddrV4 -> option T;
  tcp_state : T -> TcpState;
  remote_endpoint : T -> option SocketAddrV4;
  timeout : T -> option Z;
  set_timeout : option Z -> T -> T;
  sockets_add : K -> T -> Z * K;
  sockets_get : K -> Z -> option T;
  sockets_put : K -> Z -> T -> K;
  sockets_remove : K -> Z -> K;
  tcp_connect : K -> Z -> SocketAddrV4 -> Z -> option K;
  dns_recv : K -> option (list Z * M) * K;
  dns_send : K -> list Z -> M -> K;
}.

Inductive TryRecv (A : Type) :=
| Received (r : option A)
| Empty
| Disconnected.
Arguments Received {A}.
Arguments Empty {A}.
Arguments Disconnected {A}.

(** The host [W]: streams [X], the channel [C] on which a connecting thread reports,
    listeners [L]. A string is the text of a host error. *)
Class HostNet (W X C L : Type) `{HostStream X} := {
  listener_bind : W -> SocketAddrV4 -> (str + L) * W;
  listener_nonblocking : L -> option str;
  listener_port : L -> str + Z;
  listener_accept : L -> option X * L;
  stream_nonblocking : X -> bool;
  connect_spawn : W -> SocketAddr -> option (list Z) -> C * W;
  try_recv : C -> TryRecv X * C;
  to_socket_addrs : W -> str -> option (list SocketAddr) * W;
}.

(** [f64] as the bandwidth bucket uses it. *)
Class F64 (F : Type) := {
  f_of_u64 : Z -> F;
  f_to_u64 : F -> Z;
  f_secs : Z -> F;
  f_add : F -> F -> F;
  f_mul : F -> F -> F;
  f_min : F -> F -> F;
  f_max : F -> F -> F;
}.

(** ** State *)

Record NatLimits := mkLimits { max_connections : option Z; max_bytes_per_sec : option Z }.

Record EgressEvent := mkEvent {
  ev_domain : str;
  ev_target : str;
  ev_allowed : bool;
  ev_rule : str;
  ev_policy : str;
}.

Inductive HostSide (X C : Type) :=
| Connecting (rx : C)
| Relaying (stream : X) (pending : list Z) (host_eof : bool).
Arguments Connecting {X C}.
Arguments Relaying {X C}.

Record Flow (X C : Type) := mkFlow { handle : Z; host : HostSide X C; ingress_port : option Z }.
Arguments mkFlow {X C}.
Arguments handle {X C}.
Arguments host {X C}.
Arguments ingress_port {X C}.

Record Ingress (L : Type) := mkIngress { ing_guest : SocketAddrV4; ing_listener : L; ing_host_port : Z }.
Arguments mkIngress {L}.
Arguments ing_guest {L}.
Arguments ing_listener {L}.
Arguments ing_host_port {L}.

Record Exposure := mkExposure { exp_host_port : Z; exp_guest : SocketAddrV4 }.

Definition exposure_describe (e : Exposure) : str :=
  lit "ingress " ++ show_v4 (INGRESS_BIND_ADDR, exp_host_port e) ++ lit " -> guest " ++
  show_v4 (exp_guest e) ++ lit " (loopback only)".

Record Divert := mkDivert { d_addr : SocketAddr; d_preamble : list Z }.

(** [InterceptDecider::divert]. *)
Definition InterceptDecider : Type := Z -> Z -> option str -> option Divert.

Record NatResponder (K X C L W F : Type) := mkNat {
  stack : K;
  device : FrameDevice;
  nat_policy : EgressPolicy;
  listeners : gmap SocketAddrV4 Z;
  flows : list (Flow X C);
  ingress : list (Ingress L);
  ingress_ports : gset Z;
  next_ingress_port : Z;
  events : list EgressEvent;
  logged_denials : gset str;
  gateway_ip : Z;
  boot : Z;
  limits : NatLimits;
  bw_tokens : F;
  bw_last_refill : Z;
  intercept : option InterceptDecider;
  net : W;
}.
Arguments mkNat {K X C L W F}.
Arguments stack {K X C L W F}.
Arguments device {K X C L W F}.
Arguments nat_policy {K X C L W F}.
Arguments listeners {K X C L W F}.
Arguments flows {K X C L W F}.
Arguments ingress {K X C L W F}.
Arguments ingress_ports {K X C L W F}.
Arguments next_ingress_port {K X C L W F}.
Arguments events {K X C L W F}.
Arguments logged_denials {K X C L W F}.
Arguments gateway_ip {K X C L W F}.
Arguments boot {K X C L W F}.
Arguments limits {K X C L W F}.
Arguments bw_tokens {K X C L W F}.
Arguments bw_last_refill {K X C L W F}.
Arguments intercept {K X C L W F}.
Arguments net {K X C L W F}.

(** ** Frames *)

(** [parse_tcp_syn_dst]: the destination of a SYN without ACK. *)
Definition parse_tcp_syn_dst (frame : list Z) : res unit (option SocketAddrV4) :=
  let eth := 14 in
  if Z.of_nat (length frame) <? eth + 20 then Ok None
  else
    ethertype ← index16 frame 12;
    if negb (ethertype =? 0x0800) then Ok None
    else
      let ip_len := Z.of_nat (length frame) - eth in
      b0 ← index frame eth;
      if negb (Z.shiftr b0 4 =? 4) then Ok None
      else
        let ihl := Z.land b0 0x0f * 4 in
        if (ihl <? 20) || (ip_len <? ihl + 20) then Ok None
        else
          proto ← index frame (eth + 9);
          if negb (proto =? 6) then Ok None
          else
            a ← index frame (eth + 16);
            b ← index frame (eth + 17);
            c ← index frame (eth + 18);
            d ← index frame (eth + 19);
            dst_port ← index16 frame (eth + ihl + 2);
            fl ← index frame (eth + ihl + 13);
            let syn := negb (Z.land fl 0x02 =? 0) in
            let ack := negb (Z.land fl 0x10 =? 0) in
            if syn && negb ack then Ok (Some (ip4 a b c d, dst_port)) else Ok None.

Section Responder.
Context {K T M X C L W F : Type}.
Context `{Smoltcp K T M} `{HostNet W X C L} `{F64 F}.

Local Notation Nat := (NatResponder K X C L W F).

Definition set_stack (k : K) (n : Nat) : Nat :=
  mkNat k (device n) (nat_policy n) (listeners n) (flows n) (ingress n) (ingress_ports n)
    (next_ingress_port n) (events n) (logged_denials n) (gateway_ip n) (boot n) (limits n)
    (bw_tokens n) (bw_last_refill n) (intercept n) (net n).
Definition set_device (d : FrameDevice) (n : Nat) : Nat :=
  mkNat (stack n) d (nat_policy n) (listeners n) (flows n) (ingress n) (ingress_ports n)
    (next_ingress_port n) (events n) (logged_denials n) (gateway_ip n) (boot n) (limits n)
    (bw_tokens n) (bw_last_refill n) (intercept n) (net n).
Definition set_policy (p : EgressPolicy) (n : Nat) : Nat :=
  mkNat (stack n) (device n) p (listeners n) (flows n) (ingress n) (ingress_ports n)
    (next_ingress_port n) (events n) (logged_denials n) (gateway_ip n) (boot n) (limits n)
    (bw_tokens n) (bw_last_refill n) (intercept n) (net n).
Definition set_listeners (ls : gmap SocketAddrV4 Z) (n : Nat) : Nat :=
  mkNat (stack n) (device n) (nat_policy n) ls (flows n) (ingress n) (ingress_ports n)
    (next_ingress_port n) (events n) (logged_denials n) (gateway_ip n) (boot n) (limits n)
    (bw_tokens n) (bw_last_refill n) (intercept n) (net n).
Definition set_flows (fs : list (Flow X C)) (n : Nat) : Nat :=
  mkNat (stack n) (device n) (nat_policy n) (listeners n) fs (ingress n) (ingress_ports n)
    (next_ingress_port n) (events n) (logged_denials n) (gateway_ip n) (boot n) (limits n)
    (bw_tokens n) (bw_last_refill n) (intercept n) (net n).
Definition set_ingress (ings : list (Ingress L)) (n : Nat) : Nat :=
  mkNat (stack n) (device n) (nat_policy n) (listeners n) (flows n) ings (ingress_ports n)
    (next_ingress_port n) (events n) (logged_denials n) (gateway_ip n) (boot n) (limits n)
    (bw_tokens n) (bw_last_refill n) (intercept n) (net n).
Definition set_ports (ps : gset Z) (n : Nat) : Nat :=
  mkNat (stack n) (device n) (nat_policy n) (listeners n) (flows n) (ingress n) ps
    (next_ingress_port n) (events n) (logged_denials n) (gateway_ip n) (boot n) (limits n)
    (bw_tokens n) (bw_last_refill n) (intercept n) (net n).
Definition set_next_port (p : Z) (n : Nat) : Nat :=
  mkNat (stack n) (device n) (nat_policy n) (listeners n) (flows n) (ingress n) (ingress_ports n) p
    (events n) (logged_denials n) (gateway_ip n) (boot n) (limits n) (bw_tokens n) (bw_last_refill
    n) (intercept n) (net n).
Definition set_events (es : list EgressEvent) (n : Nat) : Nat :=
  mkNat (stack n) (device n) (nat_policy n) (listeners n) (flows n) (ingress n) (ingress_ports n)
    (next_ingress_port n) es (logged_denials n) (gateway_ip n) (boot n) (limits n) (bw_tokens n)
    (bw_last_refill n) (intercept n) (net n).
Definition set_denials (ds : gset str) (n : Nat) : Nat :=
  mkNat (stack n) (device n) (nat_policy n) (listeners n) (flows n) (ingress n) (ingress_ports n)
    (next_ingress_port n) (events n) ds (gateway_ip n) (boot n) (limits n) (bw_tokens n)
    (bw_last_refill n) (intercept n) (net n).
Definition set_bw (tokens : F) (last : Z) (n : Nat) : Nat :=
  mkNat (stack n) (device n) (nat_policy n) (listeners n) (flows n) (ingress n) (ingress_ports n)
    (next_ingress_port n) (events n) (logged_denials n) (gateway_ip n) (boot n) (limits n) tokens
    last (intercept n) (net n).
Definition set_intercept (i : option InterceptDecider) (n : Nat) : Nat :=
  mkNat (stack n) (device n) (nat_policy n) (listeners n) (flows n) (ingress n) (ingress_ports n)
    (next_ingress_port n) (events n) (logged_denials n) (gateway_ip n) (boot n) (limits n)
    (bw_tokens n) (bw_last_refill n) i (net n).
Definition set_net (w : W) (n : Nat) : Nat :=
  mkNat (stack n) (device n) (nat_policy n) (listeners n) (flows n) (ingress n) (ingress_ports n)
    (next_ingress_port n) (events n) (logged_denials n) (gateway_ip n) (boot n) (limits n)
    (bw_tokens n) (bw_last_refill n) (intercept n) w.

Definition push_event (e : EgressEvent) (n : Nat) : Nat := set_events (events n ++ [e]) n.

Definition BW_BURST_SECS : F := f_of_u64 1.

(** The bucket of [r] bytes per second, full. *)
Definition burst (rate : Z) : F := f_mul (f_of_u64 rate) BW_BURST_SECS.

Definition nat_new (gateway : Z) (mac : list Z) (p : EgressPolicy) (lim : NatLimits) (now : Z) (w : W) : Nat :=
  mkNat (stack_new gateway mac) (mkFrames [] []) p ∅ [] [] ∅ INGRESS_PORT_LO [] ∅ gateway now lim
    (match max_bytes_per_sec lim with Some r => burst r | None => f_of_u64 0 end) now None w.

Definition drain_events (n : Nat) : list EgressEvent * Nat := (events n, set_events [] n).

Definition describe_amendment (o : AmendOutcome) : str :=
  lit "amend " ++ (if out_allowed o then lit "allow" else lit "deny") ++ lit " " ++ out_rule o ++
  (match out_superseded o with
   | [] => []
   | s => lit " (superseded " ++ join (lit ", ") s ++ lit ")"
   end) ++
  (if 0 <? out_established_retained o
   then lit " (" ++ dec (out_established_retained o) ++ lit " established flow(s) retained)" else []).

Definition amend_policy (a : Amendment) (n : Nat) : AmendOutcome * Nat :=
  let '(p, o) := amend (nat_policy n) a in
  let o := mkOutcome (out_label o) (out_rule o) (out_allowed o) (out_superseded o)
             (Z.of_nat (length (flows n))) in
  (o, push_event (mkEvent (lit "policy") (out_rule o) (out_allowed o) (describe_amendment o) (out_label o))
        (set_policy p n)).

Definition note_denial (domain target : str) (n : Nat) : Nat :=
  set_denials ({[ domain ++ lit " " ++ target ]} ∪ logged_denials n) n.

(** An event under the policy in force. *)
Definition event (domain target : str) (allowed : bool) (rule : str) (n : Nat) : EgressEvent :=
  mkEvent domain target allowed rule (label (nat_policy n)).

Definition at_connection_limit (n : Nat) : bool :=
  match max_connections (limits n) with
  | Some max => max <=? Z.of_nat (length (flows n)) + Z.of_nat (size (listeners n))
  | None => false
  end.

(** ** Ingress *)

Definition already_exposed (guest : SocketAddrV4) (n : Nat) : option (Ingress L) :=
  List.find (fun i => bool_decide (ing_guest i = guest)) (ingress n).

Definition expose (guest : SocketAddrV4) (n : Nat) : res str Exposure * Nat :=
  if guest.2 =? 0 then
    (Err (lit "cannot expose port 0: it is not a port a guest can listen on, it is the OS's word for " ++
          [34] ++ lit "choose one" ++ [34]), n)
  else match already_exposed guest n with
  | Some prev =>
      (Err (lit "guest port " ++ dec guest.2 ++ lit " is already exposed on 127.0.0.1:" ++ dec (ing_host_port prev) ++
            lit "; exposing it twice would give it two host ports and no way to say which one is meant"), n)
  | None =>
      let '(bound, w) := listener_bind (net n) (INGRESS_BIND_ADDR, 0) in
      let n := set_net w n in
      match bound with
      | inl e => (Err (lit "binding a host port for guest " ++ show_v4 guest ++ lit ": " ++ e), n)
      | inr l =>
          match listener_nonblocking l with
          | Some e =>
              (Err (lit "making the ingress listener for " ++ show_v4 guest ++ lit " non-blocking: " ++ e), n)
          | None =>
              match listener_port l with
              | inl e => (Err (lit "reading the ingress port for " ++ show_v4 guest ++ lit ": " ++ e), n)
              | inr p => (Ok (mkExposure p guest), set_ingress (ingress n ++ [mkIngress guest l p]) n)
              end
          end
      end
  end.

Definition exposures (n : Nat) : list Exposure :=
  (fun i => mkExposure (ing_host_port i) (ing_guest i)) <$> ingress n.

Definition next_port (port : Z) : Z := if port =? INGRESS_PORT_HI then INGRESS_PORT_LO else port + 1.

(** The search of [free_ingress_port], [k] ports from its end. *)
Fixpoint port_search (k : nat) (used : gset Z) (port : Z) : option Z * Z :=
  match k with
  | O => (None, port)
  | S k =>
      if bool_decide (port ∈ used) then port_search k used (next_port port)
      else (Some port, next_port port)
  end.

Definition free_ingress_port (n : Nat) : option Z * Nat :=
  let span := INGRESS_PORT_HI - INGRESS_PORT_LO + 1 in
  let '(p, next) := port_search (Z.to_nat span) (ingress_ports n) (next_ingress_port n) in
  (p, set_next_port next n).

Definition get_sock (k : K) (h : Z) : res unit T :=
  match sockets_get k h with Some t => Ok t | None => Panic end.

Definition new_tcp_socket : T := tcp_new TCP_BUF TCP_BUF.

Definition dial_guest (guest : SocketAddrV4) (x : X) (n : Nat) : res unit Nat :=
  let target := show_v4 guest in
  let refuse rule n := push_event (event (lit "ingress") target false rule n) n in
  if at_connection_limit n then
    Ok (note_denial (lit "ingress") target (refuse (lit "connection-limit") n))
  else
    match free_ingress_port n with
    | (None, n) => Ok (note_denial (lit "ingress") target (refuse (lit "ingress-ports-exhausted") n))
    | (Some local_port, n) =>
        if negb (stream_nonblocking x) then Ok n
        else
          let '(h, k) := sockets_add (stack n) new_tcp_socket in
          _ ← get_sock k h;
          match tcp_connect k h guest local_port with
          | None => Ok (refuse (lit "connect-failed") (set_stack (sockets_remove k h) n))
          | Some k =>
              t ← get_sock k h;
              let k := sockets_put k h (set_timeout (Some CONNECT_TIMEOUT) t) in
              let n := set_ports ({[local_port]} ∪ ingress_ports n) (set_stack k n) in
              let n := push_event (event (lit "ingress") target true (lit "exposed") n) n in
              Ok (set_flows (flows n ++ [mkFlow h (Relaying x [] false) (Some local_port)]) n)
          end
    end.

(** The connections waiting on one listener. *)
Fixpoint accept_all (fuel : nat) (l : L) : res unit (list X * L) :=
  match fuel with
  | O => NoFuel
  | S fuel =>
      match listener_accept l with
      | (None, l) => Ok ([], l)
      | (Some x, l) => '(xs, l) ← accept_all fuel l; Ok (x :: xs, l)
      end
  end.

Fixpoint accept_each (fuel : nat) (ings : list (Ingress L)) : res unit (list (SocketAddrV4 * X) * list (Ingress L)) :=
  match ings with
  | [] => Ok ([], [])
  | i :: ings =>
      '(xs, l) ← accept_all fuel (ing_listener i);
      '(rest, ings) ← accept_each fuel ings;
      Ok (((fun x => (ing_guest i, x)) <$> xs) ++ rest, mkIngress (ing_guest i) l (ing_host_port i) :: ings)
  end.

Fixpoint dial_all (xs : list (SocketAddrV4 * X)) (n : Nat) : res unit Nat :=
  match xs with
  | [] => Ok n
  | (guest, x) :: xs => n ← dial_guest guest x n; dial_all xs n
  end.

Definition accept_ingress (fuel : nat) (n : Nat) : res unit Nat :=
  '(accepted, ings) ← accept_each fuel (ingress n);
  dial_all accepted (set_ingress ings n).

(** ** Egress *)

Definition admit_syn (now : Z) (dst : SocketAddrV4) (n : Nat) : bool * Nat :=
  let decision := decide_connect (nat_policy n) dst.1 dst.2 now in
  let target := show_v4 dst in
  let n := push_event (event (lit "tcp") target (is_allow decision) (decision_rule decision) n) n in
  if negb (is_allow decision) then (false, note_denial (lit "tcp") target n)
  else if bool_decide (is_Some (listeners n !! dst)) then (true, n)
  else if at_connection_limit n then
    (false, note_denial (lit "tcp") target
              (push_event (event (lit "tcp") target false (lit "connection-limit") n) n))
  else
    match tcp_listen new_tcp_socket dst with
    | None => (true, n)
    | Some t =>
        let '(h, k) := sockets_add (stack n) t in
        (true, set_listeners (<[dst := h]> (listeners n)) (set_stack k n))
    end.

(** [NetResponder::accept]. *)
Definition nat_accept (now : Z) (frame : list Z) (n : Nat) : res unit Nat :=
  dst ← parse_tcp_syn_dst frame;
  let n := match dst with Some dst => (admit_syn now dst n).2 | None => n end in
  Ok (set_device (push_from_guest frame (device n)) n).

Definition v4_ips (addrs : list SocketAddr) : list Z :=
  omap (fun a => match a with SockV4 a => Some a.1 | SockV6 _ => None end) addrs.

Definition host_resolve_a (w : W) (name : str) : option (list Z) * W :=
  let '(r, w) := to_socket_addrs w name in (v4_ips <$> r, w).

Definition resolve (now : Z) (q : Query) (n : Nat) : Outcome * Nat :=
  if dq_qtype q =? QTYPE_AAAA then (NoData, n)
  else if negb (dq_qtype q =? QTYPE_A) then (NoData, n)
  else
    let name := dq_name q in
    let decision := decide_dns (nat_policy n) name in
    let n := push_event (event (lit "dns") name (is_allow decision) (decision_rule decision) n) n in
    if negb (is_allow decision) then (Refused, note_denial (lit "dns") name n)
    else
      let '(r, w) := host_resolve_a (net n) name in
      let n := set_net w n in
      match r with
      | None => (NxDomain, n)
      | Some [] => (NoData, n)
      | Some ips =>
          let allow_local := allow_local_egress (nat_policy n) in
          let public := List.filter (fun ip => allow_local || negb (is_reserved_egress_ip ip)) ips in
          match public with
          | [] =>
              (NoData, note_denial (lit "dns") name
                         (push_event (event (lit "dns") name false (lit "reserved-address") n) n))
          | _ => (Answers public,
                  set_policy (foldl (fun p ip => record_resolution p name ip now) (nat_policy n) public) n)
          end
      end.

Fixpoint service_dns (fuel : nat) (now : Z) (n : Nat) : res unit Nat :=
  match fuel with
  | O => NoFuel
  | S fuel =>
      match dns_recv (stack n) with
      | (None, k) => Ok (set_stack k n)
      | (Some (msg, meta), k) =>
          let n := set_stack k n in
          q ← parse_query msg;
          match q with
          | None => service_dns fuel now n
          | Some q =>
              let '(o, n) := resolve now q n in
              service_dns fuel now (set_stack (dns_send (stack n) (build_response q o) meta) n)
          end
      end
  end.

(** The listeners that smoltcp has accepted a connection on, in the order in which
    the table is walked. *)
Fixpoint accepted_listeners (k : K) (ls : list (SocketAddrV4 * Z)) : res unit (list (SocketAddrV4 * Z)) :=
  match ls with
  | [] => Ok []
  | (dst, h) :: ls =>
      t ← get_sock k h;
      rest ← accepted_listeners k ls;
      Ok (if bool_decide (is_Some (remote_endpoint t)) && negb (bool_decide (tcp_state t = TcpListen))
          then (dst, h) :: rest else rest)
  end.

Definition promote_one (now : Z) (dst : SocketAddrV4) (h : Z) (n : Nat) : Nat :=
  let n := set_listeners (delete dst (listeners n)) n in
  let divert :=
    match intercept n with
    | Some d => d dst.1 dst.2 (resolved_host (nat_policy n) dst.1 now)
    | None => None
    end in
  let n :=
    match divert with
    | Some d => push_event (event (lit "tcp") (show_v4 dst) true (lit "divert " ++ show_addr (d_addr d)) n) n
    | None => n
    end in
  let '(rx, w) :=
    connect_spawn (net n) (match divert with Some d => d_addr d | None => SockV4 dst end) (d_preamble <$> divert) in
  let n := set_net w n in
  set_flows (flows n ++ [mkFlow h (Connecting rx) None]) n.

Definition promote_listeners (order : gmap SocketAddrV4 Z -> list (SocketAddrV4 * Z)) (now : Z) (n : Nat) :
    res unit Nat :=
  accepted ← accepted_listeners (stack n) (order (listeners n));
  Ok (foldl (fun n '(dst, h) => promote_one now dst h n) n accepted).

(** ** Flows *)

Definition advance_connect (f : Flow X C) (k : K) : res unit (Flow X C * K) :=
  match host f with
  | Relaying _ _ _ => Ok (f, k)
  | Connecting rx =>
      let '(r, rx) := try_recv rx in
      let f' := mkFlow (handle f) (Connecting rx) (ingress_port f) in
      let fail := t ← get_sock k (handle f); Ok (f', sockets_put k (handle f) (abort t)) in
      match r with
      | Empty => Ok (f', k)
      | Received (Some x) => Ok (mkFlow (handle f) (Relaying x [] false) (ingress_port f), k)
      | Received None | Disconnected => fail
      end
  end.

(** An established ingress flow loses the deadline of its connect. *)
Definition clear_deadline (f : Flow X C) (k : K) : res unit K :=
  match ingress_port f with
  | None => Ok k
  | Some _ =>
      t ← get_sock k (handle f);
      Ok (if bool_decide (tcp_state t = Established) && bool_decide (is_Some (timeout t))
          then sockets_put k (handle f) (set_timeout None t) else k)
  end.

Definition relay_flow (fuel : nat) (f : Flow X C) (k : K) (budget : option Z) :
    res unit (bool * Flow X C * K * option Z) :=
  match host f with
  | Connecting _ => Ok (false, f, k, budget)
  | Relaying x pending eof =>
      t ← get_sock k (handle f);
      '(d, r) ← relay fuel (mkRelay t x pending eof budget);
      Ok (d, mkFlow (handle f) (Relaying (r_stream r) (r_pending r) (r_host_eof r)) (ingress_port f),
          sockets_put k (handle f) (r_sock r), r_budget r)
  end.

Definition service_flow (fuel : nat) (f : Flow X C) (k : K) (budget : option Z) :
    res unit (bool * Flow X C * K * option Z) :=
  '(f, k) ← advance_connect f k;
  k ← clear_deadline f k;
  '(d, f, k, budget) ← relay_flow fuel f k budget;
  t ← get_sock k (handle f);
  Ok (d || (negb (is_active t) && negb (is_open t)), f, k, budget).

Fixpoint service_each (fuel : nat) (fs : list (Flow X C)) (k : K) (budget : option Z) :
    res unit (list (bool * Flow X C) * K * option Z) :=
  match fs with
  | [] => Ok ([], k, budget)
  | f :: fs =>
      '(d, f, k, budget) ← service_flow fuel f k budget;
      '(rest, k, budget) ← service_each fuel fs k budget;
      Ok ((d, f) :: rest, k, budget)
  end.

(** Removing the retired flows, last first. *)
Fixpoint retire (done : list (Flow X C)) (ports : gset Z) (k : K) : res unit (gset Z * K) :=
  match done with
  | [] => Ok (ports, k)
  | f :: fs =>
      '(ports, k) ← retire fs ports k;
      let ports := match ingress_port f with Some p => ports ∖ {[p]} | None => ports end in
      t ← get_sock k (handle f);
      Ok (ports, sockets_remove (sockets_put k (handle f) (abort t)) (handle f))
  end.

Definition kept (served : list (bool * Flow X C)) : list (Flow X C) :=
  snd <$> List.filter (fun df => negb df.1) served.
Definition retired (served : list (bool * Flow X C)) : list (Flow X C) :=
  snd <$> List.filter fst served.

Definition tick_budget (n : Nat) : option Z :=
  match max_bytes_per_sec (limits n) with
  | Some _ => Some (f_to_u64 (f_max (bw_tokens n) (f_of_u64 0)))
  | None => None
  end.

Definition service_flows (fuel : nat) (n : Nat) : res unit Nat :=
  '(served, k, budget) ← service_each fuel (flows n) (stack n) (tick_budget n);
  let n := match budget with Some left_ => set_bw (f_of_u64 left_) (bw_last_refill n) n | None => n end in
  '(ports, k) ← retire (retired served) (ingress_ports n) k;
  Ok (set_ports ports (set_stack k (set_flows (kept served) n))).

(** ** A service pass *)

Definition refill (now : Z) (n : Nat) : Nat :=
  match max_bytes_per_sec (limits n) with
  | Some rate =>
      let dt := f_secs (sat_sub now (bw_last_refill n)) in
      set_bw (f_min (f_add (bw_tokens n) (f_mul (f_of_u64 rate) dt)) (burst rate)) now n
  | None => n
  end.

(** [iface.poll] at the responder's own clock. *)
Definition poll (now : Z) (n : Nat) : Nat :=
  let '(k, d) := stack_poll ((now - boot n) / 1000) (stack n) (device n) in
  set_device d (set_stack k n).

Definition nat_service (order : gmap SocketAddrV4 Z -> list (SocketAddrV4 * Z)) (fuel : nat) (now : Z) (n : Nat) :
    res unit (list (list Z) * Nat) :=
  let n := poll now (refill now n) in
  n ← service_dns fuel now n;
  n ← accept_ingress fuel n;
  n ← promote_listeners order now n;
  n ← service_flows fuel n;
  let n := poll now n in
  Ok (to_guest (device n), set_device (mkFrames (from_guest (device n)) []) n).

End Responder.

(** ** What smoltcp and the host promise *)

(** Handles name sockets of the set; only [add] and [remove] change which there are. *)
Class SmoltcpLaws (K T M : Type) `{Smoltcp K T M} := {
  socket_handles : K -> gset Z;
  dns_backlog : K -> nat;
  sockets_get_handle k h : is_Some (sockets_get k h) <-> h ∈ socket_handles k;
  sockets_add_handle k t h k' : sockets_add k t = (h, k') ->
    h ∉ socket_handles k /\ socket_handles k' = {[h]} ∪ socket_handles k;
  sockets_put_handles k h t : socket_handles (sockets_put k h t) = socket_handles k;
  sockets_remove_handles k h : socket_handles (sockets_remove k h) = socket_handles k ∖ {[h]};
  tcp_connect_handles k h a p k' : tcp_connect k h a p = Some k' -> socket_handles k' = socket_handles k;
  stack_poll_handles now k d k' d' : stack_poll now k d = (k', d') -> socket_handles k' = socket_handles k;
  dns_recv_handles k r k' : dns_recv k = (r, k') -> socket_handles k' = socket_handles k;
  dns_recv_next k msg meta k' : dns_recv k = (Some (msg, meta), k') ->
    bytes msg /\ (dns_backlog k' < dns_backlog k)%nat;
  dns_send_handles k msg meta : socket_handles (dns_send k msg meta) = socket_handles k;
  dns_send_backlog k msg meta : dns_backlog (dns_send k msg meta) = dns_backlog k;
}.

(** [dialled] is what the host was asked to connect to, [asked] the names it was asked
    to resolve; a listener has finitely many connections waiting. *)
Class HostNetLaws (W X C L : Type) `{HostNet W X C L} := {
  dialled : W -> list (SocketAddr * option (list Z));
  asked : W -> list str;
  waiting : L -> nat;
  listener_bind_silent w a r w' : listener_bind w a = (r, w') -> dialled w' = dialled w /\ asked w' = asked w;
  listener_accept_next l x l' : listener_accept l = (Some x, l') -> (waiting l' < waiting l)%nat;
  connect_spawn_dials w a p c w' : connect_spawn w a p = (c, w') ->
    dialled w' = dialled w ++ [(a, p)] /\ asked w' = asked w;
  to_socket_addrs_asks w s r w' : to_socket_addrs w s = (r, w') ->
    dialled w' = dialled w /\ asked w' = asked w ++ [s];
}.

(** [f64] of the bucket: conversions and the arithmetic of small values are exact, [as u64]
    truncates and saturates, and [min] is below its second argument. *)
Class F64Laws (F : Type) `{F64 F} := {
  f_to_u64_range x : is_u64 (f_to_u64 x);
  f_of_u64_exact n : 0 <= n <= 2 ^ 53 -> f_to_u64 (f_of_u64 n) = n;
  f_max_zero x : f_to_u64 (f_max x (f_of_u64 0)) = f_to_u64 x;
  f_min_bound x n : 0 <= n <= 2 ^ 53 -> f_to_u64 (f_min x (f_mul (f_of_u64 n) (f_of_u64 1))) <= n;
  f_min_small m r d n : 0 <= n <= 2 ^ 53 ->
    f_to_u64 (f_add (f_of_u64 m) (f_mul (f_of_u64 r) (f_secs d))) <= n ->
    f_to_u64 (f_min (f_add (f_of_u64 m) (f_mul (f_of_u64 r) (f_secs d))) (f_mul (f_of_u64 n) (f_of_u64 1))) =
    f_to_u64 (f_add (f_of_u64 m) (f_mul (f_of_u64 r) (f_secs d)));
  f_add_zero x : f_to_u64 (f_add (f_of_u64 0) x) = f_to_u64 x;
}.
