(* ===== verification/NatEnv.v ===== *)
(** * An environment for the user-mode network

    Concrete instances of what [Nat] is built on: a stack that accepts a SYN on a
    listening socket when the IPv4 header verifies, a host of in-memory streams, and
    rational numbers for the bandwidth bucket. They show that the laws can hold and
    run the responder on examples. *)

From Stdlib Require Import ZArith Lia Bool String QArith Qminmax Qround.
From stdpp Require Import base numbers list list_numbers gmap sets fin_sets fin_maps option.
From S2P Require Import Prelude Text Egress Lro Dns NatRelay Nat.
Local Open Scope Z_scope.

(** ** The stack *)

Record SockInfo := mkInfo {
  si_state : TcpState;
  si_local : option SocketAddrV4;
  si_remote : option SocketAddrV4;
  si_timeout : option Z;
}.

Notation Sock := (MemSocket SockInfo).

Definition with_info (i : SockInfo) (t : Sock) : Sock := mkMemSocket (ms_rx t) (ms_tx t) (ms_room t) (ms_open t) i.

Record MemStack := mkStack {
  st_socks : gmap Z Sock;
  st_dns_in : list (list Z);
  st_dns_out : list (list Z);
}.

Definition set_socks (m : gmap Z Sock) (k : MemStack) : MemStack := mkStack m (st_dns_in k) (st_dns_out k).

Definition new_handle (m : gmap Z Sock) : Z := 1 + foldr Z.max 0 (elements (dom m)).

Definition src_of (frame : list Z) : SocketAddrV4 :=
  (be_val (slice 26 4 frame), be_val (slice 34 2 frame)).

(** A SYN whose header verifies connects the sockets that listen on its destination. *)
Definition syn_accepted (frame : list Z) (dst : SocketAddrV4) (t : Sock) : Sock :=
  let i := ms_info t in
  if bool_decide (si_state i = TcpListen /\ si_local i = Some dst)
  then with_info (mkInfo SynReceived (si_local i) (Some (src_of frame)) (si_timeout i)) t else t.

Definition frame_in (frame : list Z) (m : gmap Z Sock) : gmap Z Sock :=
  match parse_tcp_syn_dst frame with
  | Ok (Some dst) => if checksum (slice 14 20 frame) =? 0 then syn_accepted frame dst <$> m else m
  | _ => m
  end.

#[export] Instance mem_stack : Smoltcp MemStack Sock unit := {
  stack_new _ _ := mkStack ∅ [] [];
  stack_poll _ k d := (set_socks (foldl (fun m f => frame_in f m) (st_socks k) (from_guest d)) k, mkFrames [] (to_guest d));
  tcp_new _ _ := mkMemSocket [] [] 64 true (mkInfo TcpClosed None None None);
  tcp_listen t a := if a.2 =? 0 then None else Some (with_info (mkInfo TcpListen (Some a) None None) t);
  tcp_state t := si_state (ms_info t);
  remote_endpoint t := si_remote (ms_info t);
  timeout t := si_timeout (ms_info t);
  set_timeout d t := let i := ms_info t in with_info (mkInfo (si_state i) (si_local i) (si_remote i) d) t;
  sockets_add k t := let h := new_handle (st_socks k) in (h, set_socks (<[h := t]> (st_socks k)) k);
  sockets_get k h := st_socks k !! h;
  sockets_put k h t := set_socks (alter (fun _ => t) h (st_socks k)) k;
  sockets_remove k h := set_socks (delete h (st_socks k)) k;
  tcp_connect k h a p :=
    Some (set_socks (alter (fun t => with_info (mkInfo SynSent (Some (0, p)) (Some a) None) t) h (st_socks k)) k);
  dns_recv k :=
    match st_dns_in k with
    | [] => (None, k)
    | m :: ms => (Some (u8 <$> m, tt), mkStack (st_socks k) ms (st_dns_out k))
    end;
  dns_send k m _ := mkStack (st_socks k) (st_dns_in k) (st_dns_out k ++ [m]);
}.

Lemma le_foldr_max l (x : Z) : x ∈ l -> x <= foldr Z.max 0 l.
Proof. induction 1 as [x l|x y l _ IH]; cbn; lia. Qed.

Lemma new_handle_fresh m : new_handle m ∉ dom m.
Proof. intros Hin%elem_of_elements%le_foldr_max. unfold new_handle in Hin. lia. Qed.

Lemma dom_frame_in f m : dom (frame_in f m) = dom m.
Proof.
  unfold frame_in. destruct (parse_tcp_syn_dst f) as [[dst|]| | |]; try done.
  destruct (_ =? 0); [|done]. apply dom_fmap_L.
Qed.

#[export] Instance mem_stack_laws : SmoltcpLaws MemStack Sock unit.
Proof.
  refine {| socket_handles k := dom (st_socks k); dns_backlog k := length (st_dns_in k) |}.
  - intros k h. cbn. by rewrite elem_of_dom.
  - intros k t h k' [= <- <-]. cbn. split; [apply new_handle_fresh|]. by rewrite dom_insert_L.
  - intros k h t. cbn. apply dom_alter_L.
  - intros k h. cbn. apply dom_delete_L.
  - intros k h a p k' [= <-]. cbn. apply dom_alter_L.
  - intros now k d k' d' [= <- <-]. cbn. generalize (st_socks k). induction (from_guest d) as [|f fs IH]; intros m; [done|].
    cbn. by rewrite IH, dom_frame_in.
  - intros k r k'. cbn. destruct (st_dns_in k); by intros [= <- <-].
  - intros k msg meta k'. cbn. destruct (st_dns_in k) as [|m ms]; [done|]. intros [= <- <- <-]. cbn. split; [|lia].
    apply Forall_fmap, Forall_true. intros x. unfold is_u8, u8. cbn. apply Z.mod_pos_bound. lia.
  - done.
  - done.
Defined.

(** ** The host *)

Record MemListener := mkListener { ml_port : Z; ml_waiting : list MemStream }.

Record MemHost := mkHost {
  mh_dialled : list (SocketAddr * option (list Z));
  mh_asked : list str;
  mh_names : str -> option (list SocketAddr);
}.

#[export] Instance mem_host : HostNet MemHost MemStream MemStream MemListener := {
  listener_bind w _ := (inr (mkListener 50000 []), w);
  listener_nonblocking _ := None;
  listener_port l := inr (ml_port l);
  listener_accept l :=
    match ml_waiting l with
    | [] => (None, l)
    | x :: xs => (Some x, mkListener (ml_port l) xs)
    end;
  stream_nonblocking _ := true;
  connect_spawn w a p :=
    (mkMemStream (default [] p) [] [] 64, mkHost (mh_dialled w ++ [(a, p)]) (mh_asked w) (mh_names w));
  try_recv c := (Received (Some c), c);
  to_socket_addrs w s := (mh_names w s, mkHost (mh_dialled w) (mh_asked w ++ [s]) (mh_names w));
}.

#[export] Instance mem_host_laws : HostNetLaws MemHost MemStream MemStream MemListener.
Proof.
  refine {| dialled := mh_dialled; asked := mh_asked; waiting l := length (ml_waiting l) |}.
  - by intros w a r w' [= _ <-].
  - intros l x l'. cbn. destruct (ml_waiting l); [done|]. intros [= _ <-]. cbn. lia.
  - by intros w a p c w' [= _ <-].
  - by intros w s r w' [= _ <-].
Defined.

(** ** Numbers *)

#[export] Instance q_f64 : F64 Q := {
  f_of_u64 n := inject_Z n;
  f_to_u64 q := Z.max 0 (Z.min (2 ^ 64 - 1) (Qfloor q));
  f_secs ns := (ns # 1000000000)%Q;
  f_add := Qplus;
  f_mul := Qmult;
  f_min := Qmin;
  f_max := Qmax;
}.

Lemma Qfloor_min a b : Qfloor (Qmin a b) = Z.min (Qfloor a) (Qfloor b).
Proof.
  destruct (Qlt_le_dec a b) as [Hlt|Hle].
  - rewrite Q.min_l by (by apply Qlt_le_weak). rewrite Z.min_l; [done|]. by apply Qfloor_resp_le, Qlt_le_weak.
  - rewrite Q.min_r by done. rewrite Z.min_r; [done|]. by apply Qfloor_resp_le.
Qed.

Lemma Qfloor_burst n : Qfloor (inject_Z n * inject_Z 1) = n.
Proof. change (inject_Z 1) with 1%Q. rewrite Qmult_1_r. apply Qfloor_Z. Qed.

#[export] Instance q_f64_laws : F64Laws Q.
Proof.
  split; cbn [f_of_u64 f_to_u64 f_secs f_add f_mul f_min f_max q_f64].
  - intros x. unfold is_u64. lia.
  - intros n Hn. rewrite Qfloor_Z. lia.
  - intros x. destruct (Qlt_le_dec x (inject_Z 0)) as [Hlt|Hle].
    + rewrite Q.max_r by (by apply Qlt_le_weak). rewrite Qfloor_Z.
      assert (Qfloor x <= Qfloor (inject_Z 0)) as Hf by (by apply Qfloor_resp_le, Qlt_le_weak). rewrite Qfloor_Z in Hf. lia.
    + by rewrite Q.max_l.
  - intros x n Hn. rewrite Qfloor_min, Qfloor_burst. lia.
  - intros m r d n Hn Hle. rewrite Qfloor_min, Qfloor_burst. lia.
  - intros x. change (inject_Z 0) with 0%Q. by rewrite Qplus_0_l.
Qed.
