(* ===== verification/NatSafety.v ===== *)
(** * What the user-mode network keeps

    The responder of [Nat] under every sequence of its operations: the caps and
    tables it maintains, that nothing leaves the host that the policy has not
    allowed, and that a service pass returns. *)

From Stdlib Require Import ZArith Lia Bool String QArith_base.
From stdpp Require Import base numbers list list_numbers gmap sets fin_sets fin_maps option.
From S2P Require Import Prelude Text Egress Lro Dns NatRelay Nat NatEnv.
Local Open Scope Z_scope.

(** ** Operations *)

Inductive nat_op :=
| OpAccept (frame : list Z)
| OpService (order : gmap SocketAddrV4 Z -> list (SocketAddrV4 * Z)) (fuel : nat)
| OpAmend (a : Amendment)
| OpExpose (guest : SocketAddrV4)
| OpIntercept (i : option InterceptDecider)
| OpDrain.

Section Safety.
Context {K T M X C L W F : Type}.
Context `{SmoltcpLaws K T M} `{HostNetLaws W X C L} `{F64 F}.

Local Notation Nat := (NatResponder K X C L W F).

Definition nat_do (now : Z) (op : nat_op) (n : Nat) : res unit Nat :=
  match op with
  | OpAccept frame => nat_accept now frame n
  | OpService order fuel => '(_, n) ← nat_service order fuel now n; Ok n
  | OpAmend a => Ok (amend_policy a n).2
  | OpExpose guest => Ok (expose guest n).2
  | OpIntercept i => Ok (set_intercept i n)
  | OpDrain => Ok (drain_events n).2
  end.

(** A run: the states visited, each with the time and the operation done there. *)
Inductive nat_run (n0 : Nat) : list (Nat * Z * nat_op) -> Nat -> Prop :=
| run_start : nat_run n0 [] n0
| run_step tr n now op n' :
    nat_run n0 tr n -> nat_do now op n = Ok n' ->
    (forall order fuel, op = OpService order fuel -> forall m, order m ≡ₚ map_to_list m) ->
    nat_run n0 (tr ++ [(n, now, op)]) n'.

(** The policy in force allowed a SYN for [dst] when the guest sent it. *)
Definition admitted (tr : list (Nat * Z * nat_op)) (dst : SocketAddrV4) : Prop :=
  exists n now frame, (n, now, OpAccept frame) ∈ tr /\ parse_tcp_syn_dst frame = Ok (Some dst) /\
    is_allow (decide_connect (nat_policy n) dst.1 dst.2 now) = true.

(** The interception hook in place sent a flow for [dst] elsewhere. *)
Definition diverted (tr : list (Nat * Z * nat_op)) (dst : SocketAddrV4) (dial : SocketAddr * option (list Z)) : Prop :=
  exists n now order fuel i host d, (n, now, OpService order fuel) ∈ tr /\ intercept n = Some i /\
    i dst.1 dst.2 host = Some d /\ dial = (d_addr d, Some (d_preamble d)).

(** The policy in force allowed [name] when the guest asked for it. *)
Definition named (tr : list (Nat * Z * nat_op)) (name : str) : Prop :=
  exists n now order fuel, (n, now, OpService order fuel) ∈ tr /\
    is_allow (decide_dns (nat_policy n) name) = true.

(** ** The invariant *)

Definition held (ls : gmap SocketAddrV4 Z) (fs : list (Flow X C)) : list Z :=
  (map_to_list ls).*2 ++ (handle <$> fs).

Definition socks_ok (ls : gmap SocketAddrV4 Z) (fs : list (Flow X C)) (k : K) : Prop :=
  NoDup (held ls fs) /\ forall h, h ∈ held ls fs -> h ∈ socket_handles k.

Definition cap_ok (lim : NatLimits) (ls : gmap SocketAddrV4 Z) (fs : list (Flow X C)) : Prop :=
  match max_connections lim with
  | Some max => Z.of_nat (length fs) + Z.of_nat (size ls) <= max
  | None => True
  end.

Definition port_ok (p : Z) : Prop := INGRESS_PORT_LO <= p <= INGRESS_PORT_HI.

Definition flow_ports (fs : list (Flow X C)) : list Z := omap ingress_port fs.

Definition ports_ok (fs : list (Flow X C)) (ports : gset Z) (next : Z) : Prop :=
  NoDup (flow_ports fs) /\ ports = list_to_set (flow_ports fs) /\
  (forall p, p ∈ ports -> port_ok p) /\ port_ok next.

Definition dials_ok (adm : SocketAddrV4 -> Prop) (div : SocketAddrV4 -> SocketAddr * option (list Z) -> Prop)
    (w : W) : Prop :=
  forall x, x ∈ dialled w -> exists d, adm d /\ (x = (SockV4 d, None) \/ div d x).

Definition nat_ok adm div (nam : str -> Prop) (n : Nat) : Prop :=
  socks_ok (listeners n) (flows n) (stack n) /\
  cap_ok (limits n) (listeners n) (flows n) /\
  ports_ok (flows n) (ingress_ports n) (next_ingress_port n) /\
  (forall d h, listeners n !! d = Some h -> adm d) /\
  dials_ok adm div (net n) /\
  (forall s, s ∈ asked (net n) -> nam s).

Lemma nat_ok_mono (adm adm' : SocketAddrV4 -> Prop) div div' (nam nam' : str -> Prop) n :
  (forall d, adm d -> adm' d) -> (forall d x, div d x -> div' d x) -> (forall s, nam s -> nam' s) ->
  nat_ok adm div nam n -> nat_ok adm' div' nam' n.
Proof.
  intros Ha Hd Hn (Hs & Hc & Hp & Hl & Hx & Hq). split; [done|]. split; [done|]. split; [done|].
  split; [naive_solver|]. split; [|naive_solver].
  intros x (d & Hd' & Hcase)%Hx. exists d. split; [by apply Ha|]. destruct Hcase; [by left|right; by apply Hd].
Qed.

(** ** Source ports *)

Lemma next_port_ok p : port_ok p -> port_ok (next_port p).
Proof. unfold port_ok, next_port, INGRESS_PORT_LO, INGRESS_PORT_HI. destruct (Z.eqb_spec p 65535); lia. Qed.

Lemma port_search_Some used : forall k p q nx,
  port_search k used p = (Some q, nx) -> port_ok p -> q ∉ used /\ port_ok q /\ port_ok nx.
Proof.
  induction k as [|k IH]; intros p q nx; cbn [port_search]; [done|].
  case_bool_decide as Hin; [intros Hs Hp; apply (IH _ _ _ Hs); by apply next_port_ok|].
  intros [= <- <-] Hp. split; [done|]. split; [done|by apply next_port_ok].
Qed.

Lemma port_search_None used : forall k p nx,
  port_search k used p = (None, nx) -> port_ok p ->
  port_ok nx /\ forall i, (i < k)%nat -> Nat.iter i next_port p ∈ used.
Proof.
  induction k as [|k IH]; intros p nx; cbn [port_search].
  { intros [= <-] Hp. split; [done|lia]. }
  case_bool_decide as Hin; [|done]. intros Hs Hp. destruct (IH _ _ Hs) as [Hnx Hi]; [by apply next_port_ok|].
  split; [done|]. intros [|i] Hik; [done|]. rewrite Nat.iter_succ_r. apply Hi. lia.
Qed.

Lemma iter_next_port i p : port_ok p ->
  Nat.iter i next_port p = INGRESS_PORT_LO + (p - INGRESS_PORT_LO + Z.of_nat i) mod 16384.
Proof.
  unfold port_ok, INGRESS_PORT_LO, INGRESS_PORT_HI. intros Hp. induction i as [|i IH].
  - cbn. rewrite Z.add_0_r, Z.mod_small; lia.
  - change (Nat.iter (S i) next_port p) with (next_port (Nat.iter i next_port p)).
    rewrite IH. unfold next_port, INGRESS_PORT_LO, INGRESS_PORT_HI.
    destruct (Z.eqb_spec (49152 + (p - 49152 + Z.of_nat i) mod 16384) 65535) as [E|E];
      pose proof (Z.mod_pos_bound (p - 49152 + Z.of_nat i) 16384 ltac:(lia));
      rewrite Nat2Z.inj_succ; unfold Z.succ; rewrite Z.add_assoc;
      rewrite <- (Z.add_mod_idemp_l (p - 49152 + Z.of_nat i)) by lia.
    + replace ((p - 49152 + Z.of_nat i) mod 16384) with 16383 by lia. done.
    + rewrite (Z.mod_small (_ + 1)) by lia. lia.
Qed.

(** The search fails only when every port of the range is taken. *)
Lemma port_search_exhausted used k p nx q :
  Z.of_nat k = 16384 -> port_search k used p = (None, nx) -> port_ok p -> port_ok q -> q ∈ used.
Proof.
  intros Hk Hs Hp Hq. destruct (port_search_None _ _ _ _ Hs Hp) as [_ Hi].
  pose proof (Z.mod_pos_bound (q - p) 16384 ltac:(lia)) as Hb.
  specialize (Hi (Z.to_nat ((q - p) mod 16384)) ltac:(lia)). rewrite iter_next_port in Hi by done.
  rewrite Z2Nat.id, Z.add_mod_idemp_r in Hi by lia. unfold port_ok, INGRESS_PORT_LO, INGRESS_PORT_HI in *.
  replace (p - 49152 + (q - p)) with (q - 49152) in Hi by lia. rewrite Z.mod_small in Hi by lia.
  by replace (49152 + (q - 49152)) with q in Hi by lia.
Qed.

Lemma free_ingress_port_spec (n : Nat) r n1 :
  free_ingress_port n = (r, n1) -> port_ok (next_ingress_port n) ->
  exists nx, n1 = set_next_port nx n /\ port_ok nx /\
    match r with
    | Some q => q ∉ ingress_ports n /\ port_ok q
    | None => forall q, port_ok q -> q ∈ ingress_ports n
    end.
Proof.
  unfold free_ingress_port. remember (Z.to_nat (INGRESS_PORT_HI - INGRESS_PORT_LO + 1)) as k eqn:Ek.
  assert (Z.of_nat k = 16384) as Hk by (subst k; unfold INGRESS_PORT_HI, INGRESS_PORT_LO; lia). clear Ek.
  destruct (port_search _ _ _) as [p nx] eqn:Es. intros [= <- <-] Hp. exists nx. split; [done|]. destruct p as [q|].
  - destruct (port_search_Some _ _ _ _ _ Es Hp) as (? & ? & ?). done.
  - split; [by destruct (port_search_None _ _ _ _ Es Hp)|]. intros q Hq. exact (port_search_exhausted _ _ _ _ _ Hk Es Hp Hq).
Qed.

(** ** Ingress *)

Lemma cap_ok_flow lim ls fs f :
  match max_connections lim with
  | Some max => max <=? Z.of_nat (length fs) + Z.of_nat (size ls)
  | None => false
  end = false -> cap_ok lim ls (fs ++ [f]).
Proof. unfold cap_ok. destruct (max_connections lim); [|done]. rewrite Z.leb_gt, length_app. cbn. lia. Qed.

Lemma socks_ok_flow ls fs k k' f :
  socks_ok ls fs k -> handle f ∉ socket_handles k -> socket_handles k' = {[handle f]} ∪ socket_handles k ->
  socks_ok ls (fs ++ [f]) k'.
Proof.
  intros [Hnd Hin] Hf Hk. unfold socks_ok, held. rewrite fmap_app, app_assoc. fold (held ls fs). cbn [fmap list_fmap].
  split.
  - apply list.NoDup_app. split; [done|]. split; [|apply NoDup_singleton].
    intros h Hh ->%list_elem_of_singleton. by apply Hf, Hin.
  - intros h [Hh| ->%list_elem_of_singleton]%elem_of_app; set_solver.
Qed.

Lemma ports_ok_flow fs ports next f p next' :
  ports_ok fs ports next -> ingress_port f = Some p -> p ∉ ports -> port_ok p -> port_ok next' ->
  ports_ok (fs ++ [f]) ({[p]} ∪ ports) next'.
Proof.
  intros (Hnd & -> & Hr & _) Hf Hp Hok Hn. unfold ports_ok, flow_ports. rewrite omap_app. cbn [omap list_omap].
  rewrite Hf. split; [|split; [|split; [|done]]].
  - apply list.NoDup_app. split; [done|]. split; [|apply NoDup_singleton].
    intros q Hq ->%list_elem_of_singleton. by apply Hp, elem_of_list_to_set.
  - rewrite list_to_set_app_L. cbn. set_solver.
  - set_solver.
Qed.

Lemma ports_ok_next fs ports next next' : ports_ok fs ports next -> port_ok next' -> ports_ok fs ports next'.
Proof. by intros (Hnd & Hs & Hr & _). Qed.

Lemma get_sock_Ok k h t : get_sock (T:=T) k h = Ok t <-> sockets_get k h = Some t.
Proof. unfold get_sock. destruct (sockets_get k h); split; congruence. Qed.

Lemma still_held (s : gset Z) h h' : h ∉ s -> h' ∈ s -> h' ∈ ({[h]} ∪ s) ∖ {[h]}.
Proof. set_solver. Qed.

Lemma dial_guest_ok adm div nam guest x n n' :
  nat_ok adm div nam n -> dial_guest guest x n = Ok n' -> nat_ok adm div nam n' /\ intercept n' = intercept n.
Proof.
  intros Hok. pose proof Hok as (Hs & Hc & Hp & Hl & Hd & Hq). unfold dial_guest.
  destruct (at_connection_limit n) eqn:Elim; [by intros [= <-]|].
  destruct (free_ingress_port n) as [r n1'] eqn:Ef.
  apply free_ingress_port_spec in Ef as (nx & -> & Hnx & Hr); [|apply Hp]. set (n1 := set_next_port nx n).
  assert (nat_ok adm div nam n1) as Hok1
    by (split; [done|]; split; [done|]; split; [by eapply ports_ok_next|done]).
  destruct r as [port|]; [|by intros [= <-]]. destruct Hr as [Hport Hpok].
  destruct (negb (stream_nonblocking x)); [by intros [= <-]|].
  destruct (sockets_add (stack n1) new_tcp_socket) as [h k] eqn:Ea.
  apply sockets_add_handle in Ea as [Hfresh Hk]. cbn [n1 set_next_port stack] in Hfresh, Hk.
  intros (t & Ht & Hres)%bind_Ok. destruct (tcp_connect k h guest port) as [k1|] eqn:Ec.
  - apply tcp_connect_handles in Ec. apply bind_Ok in Hres as (t1 & Ht1 & [= <-]). split; [|done].
    split; [|split; [by apply cap_ok_flow|split; [by eapply ports_ok_flow|done]]].
    eapply (socks_ok_flow _ _ (stack n)); [done|done|]. cbn. by rewrite sockets_put_handles, Ec, Hk.
  - injection Hres as <-. split; [|done]. split; [|by destruct Hok1].
    destruct Hs as [Hnd Hin]. split; [done|]. intros h' Hh'. cbn. rewrite sockets_remove_handles, Hk.
    exact (still_held _ _ _ Hfresh (Hin _ Hh')).
Qed.

Lemma dial_all_ok adm div nam xs : forall n n',
  nat_ok adm div nam n -> dial_all xs n = Ok n' -> nat_ok adm div nam n' /\ intercept n' = intercept n.
Proof.
  induction xs as [|[g x] xs IH]; intros n n' Hok; cbn [dial_all]; [by intros [= <-]|].
  intros (n1 & Hd1 & Hd2)%bind_Ok. destruct (dial_guest_ok _ _ _ _ _ _ _ Hok Hd1) as [Hok1 <-]. by apply IH.
Qed.

Lemma accept_ingress_ok adm div nam fuel n n' :
  nat_ok adm div nam n -> accept_ingress fuel n = Ok n' -> nat_ok adm div nam n' /\ intercept n' = intercept n.
Proof.
  intros Hok. unfold accept_ingress. intros ([xs is_] & _ & Hd)%bind_Ok.
  by apply (dial_all_ok adm div nam xs (set_ingress is_ n)).
Qed.

(** ** Admission *)

Lemma held_insert ls (fs : list (Flow X C)) d h :
  ls !! d = None -> held (<[d := h]> ls) fs ≡ₚ h :: held ls fs.
Proof. intros Hd. unfold held. by rewrite map_to_list_insert. Qed.

Lemma socks_ok_listen ls fs k k' d h :
  socks_ok ls fs k -> ls !! d = None -> h ∉ socket_handles k -> socket_handles k' = {[h]} ∪ socket_handles k ->
  socks_ok (<[d := h]> ls) fs k'.
Proof.
  intros [Hnd Hin] Hd Hf Hk. pose proof (held_insert ls fs d h Hd) as Hp. split; [rewrite Hp|].
  - apply list.NoDup_cons. split; [|done]. intros Hh. by apply Hf, Hin.
  - intros h'. rewrite Hp, Hk. intros [->|Hh]%elem_of_cons; [set_solver|]. apply elem_of_union. right. by apply Hin.
Qed.

Lemma admit_syn_ok adm div nam now dst n :
  nat_ok adm div nam n -> (is_allow (decide_connect (nat_policy n) dst.1 dst.2 now) = true -> adm dst) ->
  nat_ok adm div nam (admit_syn now dst n).2.
Proof.
  intros Hok Hadm. unfold admit_syn. set (n1 := push_event _ n). assert (nat_ok adm div nam n1) as Hok1 by exact Hok.
  destruct (is_allow _) eqn:Ea; cbn [negb]; [|exact Hok1]. specialize (Hadm eq_refl).
  case_bool_decide as Hl; [exact Hok1|]. destruct (at_connection_limit n1) eqn:Elim; [exact Hok1|].
  destruct (tcp_listen _ _) as [t|]; [|exact Hok1]. destruct (sockets_add _ _) as [h k] eqn:Es.
  apply sockets_add_handle in Es as [Hf Hk]. destruct Hok as (Hs & Hc & Hp & Hld & Hd & Hq). cbn [snd].
  assert (listeners n !! dst = None) as Hnone by (by apply eq_None_not_Some).
  split; [by eapply socks_ok_listen|]. split.
  - unfold cap_ok, at_connection_limit in *. cbn in *. destruct (max_connections _); [|done].
    rewrite map_size_insert_None by done. apply Z.leb_gt in Elim. lia.
  - split; [done|]. split; [|done]. cbn. intros d h'. rewrite lookup_insert_Some. intros [[<- _]|[_ Hd']]; [done|].
    by eapply Hld.
Qed.

(** ** Names *)

Definition same_rules (p q : EgressPolicy) : Prop :=
  default_allow p = default_allow q /\ allow p = allow q /\ deny p = deny q.

Lemma same_rules_dns p q s : same_rules p q -> decide_dns p s = decide_dns q s.
Proof. intros (Hd & Ha & Hy). unfold decide_dns, default_decision. by rewrite Hd, Ha, Hy. Qed.

Lemma same_rules_recorded s now ips : forall p, same_rules (foldl (fun p ip => record_resolution p s ip now) p ips) p.
Proof. induction ips as [|ip ips IH]; intros p; [done|]. exact (IH (record_resolution p s ip now)). Qed.

Lemma resolve_ok adm div nam now q n o n' :
  nat_ok adm div nam n -> (forall s, is_allow (decide_dns (nat_policy n) s) = true -> nam s) ->
  resolve now q n = (o, n') ->
  nat_ok adm div nam n' /\ same_rules (nat_policy n') (nat_policy n) /\
  intercept n' = intercept n /\ stack n' = stack n.
Proof.
  intros Hok Hnam. unfold resolve. destruct (_ =? QTYPE_AAAA); [by intros [= <- <-]|].
  destruct (negb (_ =? QTYPE_A)); [by intros [= <- <-]|]. cbv zeta. set (n1 := push_event _ n).
  destruct (is_allow _) eqn:Ea; cbn [negb]; [|by intros [= <- <-]]. apply Hnam in Ea.
  unfold host_resolve_a. destruct (to_socket_addrs _ _) as [r w] eqn:Er.
  apply to_socket_addrs_asks in Er as [Hdl Hak]. set (n2 := set_net w n1).
  assert (nat_ok adm div nam n2) as Hok2.
  { destruct Hok as (Hs & Hc & Hp & Hl & Hd & Hq). split; [done|]. split; [done|]. split; [done|]. split; [done|].
    cbn in Hdl, Hak. split; cbn.
    - unfold dials_ok. by rewrite Hdl.
    - intros s. rewrite Hak. intros [Hin| ->%list_elem_of_singleton]%elem_of_app; [by apply Hq|done]. }
  destruct r as [addrs|]; cbn [fmap option_fmap option_map]; [|by intros [= <- <-]].
  destruct (v4_ips addrs) as [|ip ips]; [by intros [= <- <-]|].
  destruct (List.filter _ _) as [|a public]; [by intros [= <- <-]|]. intros [= <- <-].
  split; [exact Hok2|]. split; [|done]. apply (same_rules_recorded (dq_name q) now (a :: public) (nat_policy n)).
Qed.

Lemma resolve_stack now q (n : Nat) o n' : resolve now q n = (o, n') -> stack n' = stack n.
Proof.
  unfold resolve. destruct (_ =? QTYPE_AAAA); [by intros [= <- <-]|].
  destruct (negb (_ =? QTYPE_A)); [by intros [= <- <-]|]. cbv zeta.
  destruct (is_allow _); cbn [negb]; [|by intros [= <- <-]]. destruct (host_resolve_a _ _) as [r w].
  destruct r as [[|ip ips]|]; [by intros [= <- <-]| |by intros [= <- <-]].
  destruct (List.filter _ _); by intros [= <- <-].
Qed.

Lemma nat_ok_stack adm div nam n k :
  nat_ok adm div nam n -> socket_handles k = socket_handles (stack n) -> nat_ok adm div nam (set_stack k n).
Proof.
  intros ((Hnd & Hin) & Hrest) Hk. split; [|done]. split; [done|]. intros h Hh. cbn. rewrite Hk. by apply Hin.
Qed.

Lemma service_dns_ok adm div nam now p fuel : forall n n',
  nat_ok adm div nam n -> same_rules (nat_policy n) p ->
  (forall s, is_allow (decide_dns p s) = true -> nam s) -> service_dns fuel now n = Ok n' ->
  nat_ok adm div nam n' /\ intercept n' = intercept n.
Proof.
  induction fuel as [|fuel IH]; intros n n' Hok Hr Hnam; cbn [service_dns]; [done|].
  destruct (dns_recv (stack n)) as [[[msg meta]|] k] eqn:Ed; pose proof Ed as Hk; apply dns_recv_handles in Hk.
  2: { intros [= <-]. split; [by apply nat_ok_stack|done]. }
  set (n1 := set_stack k n). assert (nat_ok adm div nam n1) as Hok1 by (by apply nat_ok_stack).
  intros ([q|] & _ & Hs)%bind_Ok; [|by apply (IH n1)].
  destruct (resolve now q n1) as [o n2] eqn:Er.
  assert (forall s, is_allow (decide_dns (nat_policy n1) s) = true -> nam s) as Hnam1.
  { intros s. change (nat_policy n1) with (nat_policy n). rewrite (same_rules_dns _ p s Hr). apply Hnam. }
  destruct (resolve_ok adm div nam _ _ _ _ _ Hok1 Hnam1 Er) as (Hok2 & Hr2 & Hi2 & Hk2).
  apply IH in Hs as [Hok' Hi']; [split; [done|]; rewrite Hi'; exact Hi2|..].
  - apply nat_ok_stack; [done|]. by rewrite dns_send_handles.
  - destruct Hr2 as (Ha & Hb & Hc). unfold same_rules. cbn. rewrite Ha, Hb, Hc. exact Hr.
  - done.
Qed.

(** ** Promotion *)

Lemma held_promote ls (fs : list (Flow X C)) d h hs p :
  ls !! d = Some h -> held (delete d ls) (fs ++ [mkFlow h hs p]) ≡ₚ held ls fs.
Proof.
  intros Hd. unfold held. rewrite fmap_app. cbn [fmap list_fmap handle].
  rewrite <- (map_to_list_delete ls d h Hd). cbn [fmap list_fmap].
  rewrite <- Permutation_cons_append, <- Permutation_middle. cbn. by rewrite Permutation_middle.
Qed.

Lemma promote_one_ok adm div nam now dst h n :
  nat_ok adm div nam n -> listeners n !! dst = Some h ->
  (forall i hst d, intercept n = Some i -> i dst.1 dst.2 hst = Some d -> div dst (d_addr d, Some (d_preamble d))) ->
  nat_ok adm div nam (promote_one now dst h n) /\
  listeners (promote_one now dst h n) = delete dst (listeners n) /\
  intercept (promote_one now dst h n) = intercept n.
Proof.
  intros (Hs & Hc & Hp & Hl & Hd & Hq) Hdst Hdiv. unfold promote_one.
  set (dv := match intercept _ with Some d => _ | None => None end).
  set (n1 := match dv with Some _ => _ | None => _ end).
  assert (forall A (f : Nat -> A), (forall e n, f (push_event e n) = f n) ->
    f n1 = f (set_listeners (delete dst (listeners n)) n)) as Hn1 by (intros A f Hf; unfold n1; by destruct dv).
  destruct (connect_spawn _ _ _) as [rx w] eqn:Ec. apply connect_spawn_dials in Ec as [Hdl Hak].
  rewrite (Hn1 _ net) in Hdl, Hak by done. cbn in Hdl, Hak. split; [|cbn; by rewrite (Hn1 _ listeners), (Hn1 _ intercept)].
  split; [|split; [|split; [|split; [|split]]]]; cbn; rewrite ?(Hn1 _ listeners), ?(Hn1 _ flows), ?(Hn1 _ stack),
    ?(Hn1 _ limits), ?(Hn1 _ ingress_ports), ?(Hn1 _ next_ingress_port) by done; cbn.
  - destruct Hs as [Hnd Hin]. pose proof (held_promote (listeners n) (flows n) dst h (Connecting rx) None Hdst) as Hperm.
    split; [by rewrite Hperm|]. intros h'. rewrite Hperm. apply Hin.
  - unfold cap_ok in *. destruct (max_connections _); [|done]. rewrite length_app, map_size_delete_Some by eauto.
    assert (size (listeners n) <> 0%nat) by (intros E%map_size_empty_inv; by rewrite E in Hdst). cbn. lia.
  - unfold ports_ok, flow_ports in *. rewrite omap_app. cbn. by rewrite app_nil_r.
  - intros d h'. rewrite lookup_delete_Some. intros [_ Hd']. by eapply Hl.
  - intros x. rewrite Hdl. intros [Hin| ->%list_elem_of_singleton]%elem_of_app; [by apply Hd|].
    exists dst. split; [by eapply Hl|]. destruct dv as [d|] eqn:Edv; [right|by left]. cbn.
    unfold dv in Edv. cbn in Edv. destruct (intercept n) as [i|] eqn:Ei; [|done]. by eapply Hdiv.
  - by rewrite Hak.
Qed.

Lemma promote_all_ok adm div nam now : forall acc n,
  nat_ok adm div nam n -> NoDup acc.*1 -> (forall d h, (d, h) ∈ acc -> listeners n !! d = Some h) ->
  (forall i hst d dst, intercept n = Some i -> i dst.1 dst.2 hst = Some d -> div dst (d_addr d, Some (d_preamble d))) ->
  nat_ok adm div nam (foldl (fun n '(dst, h) => promote_one now dst h n) n acc).
Proof.
  induction acc as [|[d h] acc IH]; intros n Hok Hnd Hin Hdiv; cbn [foldl]; [done|].
  cbn [fmap list_fmap fst] in Hnd. apply list.NoDup_cons in Hnd as [Hd Hnd].
  destruct (promote_one_ok adm div nam now d h n) as (Hok1 & Hl1 & Hi1);
    [done|apply Hin; by left|intros i hst dv; apply Hdiv|].
  apply IH; [done|done| |by rewrite Hi1].
  intros d' h' Hd'. rewrite Hl1, lookup_delete_ne; [apply Hin; by right|].
  intros ->. apply Hd, list_elem_of_fmap. by exists (d', h').
Qed.

Lemma accepted_sublist k : forall ls acc, accepted_listeners k ls = Ok acc -> sublist acc ls.
Proof.
  induction ls as [|[d h] ls IH]; intros acc; cbn [accepted_listeners]; [by intros [= <-]|].
  intros (t & _ & (rest & Hr & [= <-])%bind_Ok)%bind_Ok. specialize (IH _ Hr). destruct (_ && _); by constructor.
Qed.

Lemma promote_listeners_ok adm div nam order now n n' :
  nat_ok adm div nam n -> (forall m, order m ≡ₚ map_to_list m) ->
  (forall i hst d dst, intercept n = Some i -> i dst.1 dst.2 hst = Some d -> div dst (d_addr d, Some (d_preamble d))) ->
  promote_listeners order now n = Ok n' -> nat_ok adm div nam n'.
Proof.
  intros Hok Ho Hdiv (acc & Ha%accepted_sublist & [= <-])%bind_Ok. apply promote_all_ok; [done| | |done].
  - eapply sublist_NoDup; [|by eapply (fmap_sublist fst)]. rewrite Ho. apply NoDup_fst_map_to_list.
  - intros d h Hin. eapply elem_of_sublist in Hin; [|done]. rewrite Ho in Hin. by apply elem_of_map_to_list.
Qed.

(** ** Relaying *)

Lemma advance_connect_keeps f k f' k' :
  advance_connect f k = Ok (f', k') ->
  handle f' = handle f /\ ingress_port f' = ingress_port f /\ socket_handles k' = socket_handles k.
Proof.
  unfold advance_connect. destruct (host f) as [rx|]; [|by intros [= <- <-]].
  destruct (try_recv rx) as [[[x|]| |] rx']; cbn [mbind res_bind_inst];
    [by intros [= <- <-]|intros Hx|by intros [= <- <-]|intros Hx];
    apply bind_Ok in Hx as (t & _ & [= <- <-]); by rewrite sockets_put_handles.
Qed.

Lemma clear_deadline_keeps (f : Flow X C) k k' :
  clear_deadline f k = Ok k' -> socket_handles k' = socket_handles k.
Proof.
  unfold clear_deadline. destruct (ingress_port f); [|by intros [= <-]].
  intros (t & _ & [= <-])%bind_Ok. destruct (_ && _); by rewrite ?sockets_put_handles.
Qed.

Lemma relay_flow_keeps fuel (f : Flow X C) k b d f' k' b' :
  relay_flow fuel f k b = Ok (d, f', k', b') ->
  handle f' = handle f /\ ingress_port f' = ingress_port f /\ socket_handles k' = socket_handles k.
Proof.
  unfold relay_flow. destruct (host f) as [rx|x pending eof]; [by intros [= <- <- <- <-]|].
  intros (t & _ & ([d1 r] & _ & [= <- <- <- <-])%bind_Ok)%bind_Ok. by rewrite sockets_put_handles.
Qed.

Lemma service_flow_keeps fuel f k b d f' k' b' :
  service_flow fuel f k b = Ok (d, f', k', b') ->
  handle f' = handle f /\ ingress_port f' = ingress_port f /\ socket_handles k' = socket_handles k.
Proof.
  intros ([f1 k1] & Ha & (k2 & Hc & ([[[d1 f2] k3] b2] & Hr & (t & _ & [= <- <- <- <-])%bind_Ok)%bind_Ok)%bind_Ok)%bind_Ok.
  apply advance_connect_keeps in Ha as (H1a & H2a & H3a). apply clear_deadline_keeps in Hc.
  apply relay_flow_keeps in Hr as (H1r & H2r & H3r). split; [congruence|]. split; congruence.
Qed.

Lemma service_each_keeps fuel : forall fs k b served k' b',
  service_each fuel fs k b = Ok (served, k', b') ->
  handle <$> (snd <$> served) = handle <$> fs /\ flow_ports (snd <$> served) = flow_ports fs /\
  socket_handles k' = socket_handles k.
Proof.
  induction fs as [|f fs IH]; intros k b served k' b'; cbn [service_each]; [by intros [= <- <- <-]|].
  intros ([[[d f'] k1] b1] & Hf%service_flow_keeps & ([[rest k2] b2] & He & [= <- <- <-])%bind_Ok)%bind_Ok.
  apply IH in He as (Hh & Hp & Hk). destruct Hf as (Hfh & Hfp & Hfk).
  unfold flow_ports in *. cbn [fmap list_fmap snd omap list_omap] in *. rewrite Hh, Hfh, Hfp, Hp, Hk, Hfk. done.
Qed.

Lemma retire_keeps : forall done ports k ports' k',
  retire (X:=X) (C:=C) done ports k = Ok (ports', k') ->
  ports' = ports ∖ list_to_set (flow_ports done) /\
  socket_handles k' = socket_handles k ∖ list_to_set (handle <$> done).
Proof.
  induction done as [|f done IH]; intros ports k ports' k'; cbn [retire].
  { intros [= <- <-]. cbn. split; set_solver. }
  intros ([ps k1] & Hr & (t & _ & [= <- <-])%bind_Ok)%bind_Ok. apply IH in Hr as [-> Hk].
  rewrite sockets_remove_handles, sockets_put_handles, Hk. unfold flow_ports. cbn [omap list_omap fmap list_fmap list_to_set].
  split; [|set_solver]. destruct (ingress_port f); cbn [list_to_set]; set_solver.
Qed.

Lemma kept_retired (served : list (bool * Flow X C)) : snd <$> served ≡ₚ kept served ++ retired served.
Proof.
  unfold kept, retired. induction served as [|[[] f] served IH]; cbn [fmap list_fmap List.filter fst snd negb]; [done| |].
  - by rewrite IH, <- Permutation_middle.
  - by rewrite IH.
Qed.

Lemma socks_ok_retire ls fs k k' (done kept_ : list (Flow X C)) :
  socks_ok ls fs k -> handle <$> fs ≡ₚ (handle <$> kept_) ++ (handle <$> done) ->
  socket_handles k' = socket_handles k ∖ list_to_set (handle <$> done) -> socks_ok ls kept_ k'.
Proof.
  intros [Hnd Hin] Hp Hk.
  assert (held ls fs ≡ₚ held ls kept_ ++ (handle <$> done)) as Hh by (unfold held; by rewrite Hp, app_assoc).
  rewrite Hh in Hnd. apply list.NoDup_app in Hnd as (Hn1 & Hn2 & _). split; [done|]. intros h Hh'.
  rewrite Hk, elem_of_difference, elem_of_list_to_set. split; [|by apply Hn2]. apply Hin. rewrite Hh.
  apply elem_of_app. by left.
Qed.

Lemma ports_ok_retire fs ports next done kept_ :
  ports_ok fs ports next -> flow_ports fs ≡ₚ flow_ports kept_ ++ flow_ports done ->
  ports_ok kept_ (ports ∖ list_to_set (flow_ports done)) next.
Proof.
  intros (Hnd & Hs & Hr & Hn) Hp. rewrite Hp in Hnd. apply list.NoDup_app in Hnd as (Hn1 & Hn2 & _).
  split; [done|]. split; [|split; [|done]].
  - rewrite Hs, Hp, list_to_set_app_L. apply set_eq. intros p.
    rewrite elem_of_difference, elem_of_union, !elem_of_list_to_set. naive_solver.
  - intros p [Hin _]%elem_of_difference. by apply Hr.
Qed.

Lemma service_flows_ok adm div nam fuel n n' :
  nat_ok adm div nam n -> service_flows fuel n = Ok n' -> nat_ok adm div nam n'.
Proof.
  intros Hok ([[served k] b] & He & ([ports k1] & Hr & [= <-])%bind_Ok)%bind_Ok.
  apply service_each_keeps in He as (Hh & Hfp & Hk). apply retire_keeps in Hr as [-> Hk1].
  pose proof (kept_retired served) as Hkr.
  assert (handle <$> flows n ≡ₚ (handle <$> kept served) ++ (handle <$> retired served)) as Hhp
    by (by rewrite <- Hh, Hkr, fmap_app).
  assert (flow_ports (flows n) ≡ₚ flow_ports (kept served) ++ flow_ports (retired served)) as Hpp
    by (rewrite <- Hfp; unfold flow_ports; by rewrite Hkr, omap_app).
  set (n1 := match b with Some _ => _ | None => n end).
  assert (nat_ok adm div nam n1) as Hok1 by (unfold n1; by destruct b).
  destruct Hok1 as (Hs1 & Hc1 & Hp1 & Hrest1).
  assert (flows n1 = flows n /\ stack n1 = stack n) as [Hf1 Hst1] by (unfold n1; by destruct b).
  rewrite Hf1, Hst1 in *. split; [|split; [|split; [|done]]]; cbn.
  - eapply socks_ok_retire; [exact Hs1|done|by rewrite Hk1, Hk].
  - unfold cap_ok in *. destruct (max_connections _); [|done].
    apply Permutation_length in Hhp. rewrite length_app, !length_fmap in Hhp. lia.
  - by eapply ports_ok_retire.
Qed.

(** ** A pass *)

Lemma poll_ok adm div nam now n : nat_ok adm div nam n -> nat_ok adm div nam (poll now n).
Proof.
  intros Hok. unfold poll. destruct (stack_poll _ _ _) as [k d] eqn:E.
  apply (nat_ok_stack _ _ _ n); [done|]. by eapply stack_poll_handles.
Qed.

Lemma refill_ok adm div nam now n : nat_ok adm div nam n -> nat_ok adm div nam (refill now n).
Proof. unfold refill. by destruct (max_bytes_per_sec _). Qed.

Lemma service_start now (n : Nat) : intercept (poll now (refill now n)) = intercept n /\
  nat_policy (poll now (refill now n)) = nat_policy n.
Proof.
  unfold poll. destruct (stack_poll _ _ _). unfold refill. by destruct (max_bytes_per_sec _).
Qed.

Lemma nat_service_ok adm div nam order fuel now n out n' :
  nat_ok adm div nam n -> (forall m, order m ≡ₚ map_to_list m) ->
  (forall s, is_allow (decide_dns (nat_policy n) s) = true -> nam s) ->
  (forall i hst d dst, intercept n = Some i -> i dst.1 dst.2 hst = Some d -> div dst (d_addr d, Some (d_preamble d))) ->
  nat_service order fuel now n = Ok (out, n') -> nat_ok adm div nam n'.
Proof.
  intros Hok Ho Hnam Hdiv. unfold nat_service. destruct (service_start now n) as [Hi0 Hp0].
  assert (nat_ok adm div nam (poll now (refill now n))) as Hok0 by (by apply poll_ok, refill_ok). revert Hok0 Hi0 Hp0.
  generalize (poll now (refill now n)). intros n0 Hok0 Hi0 Hp0.
  intros (n1 & Hd & (n2 & Ha & (n3 & Hpr & (n4 & Hf & [= _ <-])%bind_Ok)%bind_Ok)%bind_Ok)%bind_Ok.
  eapply (service_dns_ok adm div nam now (nat_policy n)) in Hd as [Hok1 Hi1]; [|done|by rewrite Hp0|done].
  eapply accept_ingress_ok in Ha as [Hok2 Hi2]; [|done].
  eapply promote_listeners_ok in Hpr; [|done|done|by rewrite Hi2, Hi1, Hi0].
  eapply service_flows_ok in Hf; [|done]. by apply (poll_ok adm div nam now n4).
Qed.

(** ** Runs *)

Lemma expose_ok adm div nam guest n : nat_ok adm div nam n -> nat_ok adm div nam (expose guest n).2.
Proof.
  intros Hok. unfold expose. destruct (_ =? 0); [exact Hok|]. destruct (already_exposed _ _); [exact Hok|].
  destruct (listener_bind _ _) as [r w] eqn:Eb. apply listener_bind_silent in Eb as [Hd Ha].
  assert (nat_ok adm div nam (set_net w n)) as Hok1.
  { destruct Hok as (Hs & Hc & Hp & Hl & Hdl & Hq). repeat (split; [done|]). cbn.
    split; [|by rewrite Ha]. unfold dials_ok. by rewrite Hd. }
  destruct r as [e|l]; [exact Hok1|]. destruct (listener_nonblocking l); [exact Hok1|].
  destruct (listener_port l); exact Hok1.
Qed.

Lemma amend_policy_ok adm div nam a n : nat_ok adm div nam n -> nat_ok adm div nam (amend_policy a n).2.
Proof. intros Hok. unfold amend_policy. destruct (amend _ _). exact Hok. Qed.

Lemma admitted_app tr x d : admitted tr d -> admitted (tr ++ [x]) d.
Proof. intros (n & now & frame & Hin & Hrest). exists n, now, frame. rewrite elem_of_app. naive_solver. Qed.

Lemma diverted_app tr x d y : diverted tr d y -> diverted (tr ++ [x]) d y.
Proof.
  intros (n & now & o & fu & i & h & dv & Hin & Hrest). exists n, now, o, fu, i, h, dv.
  rewrite elem_of_app. naive_solver.
Qed.

Lemma named_app tr x s : named tr s -> named (tr ++ [x]) s.
Proof. intros (n & now & o & fu & Hin & Hrest). exists n, now, o, fu. rewrite elem_of_app. naive_solver. Qed.

Lemma last_in {A} (tr : list A) x : x ∈ tr ++ [x].
Proof. apply elem_of_app. right. by left. Qed.

(** A responder just built over a host that was asked nothing yet. *)
Definition fresh (n : Nat) : Prop :=
  listeners n = ∅ /\ flows n = [] /\ ingress_ports n = ∅ /\ next_ingress_port n = INGRESS_PORT_LO /\
  dialled (net n) = [] /\ asked (net n) = [] /\
  match max_connections (limits n) with Some m => 0 <= m | None => True end.

Lemma nat_new_fresh gw mac p lim now w :
  dialled w = [] -> asked w = [] -> match max_connections lim with Some m => 0 <= m | None => True end ->
  fresh (nat_new gw mac p lim now w).
Proof. intros Hd Ha Hm. by repeat (split; [done|]). Qed.

Lemma fresh_ok n : fresh n -> nat_ok (admitted []) (diverted []) (named []) n.
Proof.
  intros (Hl & Hf & Hp & Hx & Hd & Ha & Hm). unfold nat_ok, socks_ok, held, cap_ok, ports_ok, dials_ok.
  rewrite Hl, Hf, Hp, Hx, Hd, Ha, map_to_list_empty. split; [split; [constructor|by intros h ?%not_elem_of_nil]|].
  split; [by destruct (max_connections _)|]. split; [|split; [done|split; by intros ? ?%not_elem_of_nil]].
  split; [constructor|]. split; [done|]. split; [set_solver|]. unfold port_ok, INGRESS_PORT_LO, INGRESS_PORT_HI. lia.
Qed.

Lemma nat_do_ok tr now op n n' :
  nat_ok (admitted tr) (diverted tr) (named tr) n -> nat_do now op n = Ok n' ->
  (forall order fuel, op = OpService order fuel -> forall m, order m ≡ₚ map_to_list m) ->
  nat_ok (admitted (tr ++ [(n, now, op)])) (diverted (tr ++ [(n, now, op)])) (named (tr ++ [(n, now, op)])) n'.
Proof.
  intros Hok Hdo Hord. set (tr' := tr ++ [_]).
  assert (nat_ok (admitted tr') (diverted tr') (named tr') n) as Hok'.
  { eapply nat_ok_mono; [..|exact Hok]; intros; [by apply admitted_app|by apply diverted_app|by apply named_app]. }
  pose proof (last_in tr (n, now, op)) as Hin. fold tr' in Hin. destruct op as [frame|order fuel|a|guest|i|].
  - apply bind_Ok in Hdo as (dst & Hp & [= <-]). destruct dst as [dst|]; [|exact Hok'].
    apply (admit_syn_ok (admitted tr') (diverted tr') (named tr') now dst n Hok').
    intros Ha. by exists n, now, frame.
  - apply bind_Ok in Hdo as ([out n1] & Hs & [= <-]).
    eapply nat_service_ok in Hs; [exact Hs|exact Hok'|by eapply Hord|..].
    + intros s Hs'. by exists n, now, order, fuel.
    + intros i hst d dst Hi Hd. by exists n, now, order, fuel, i, hst, d.
  - injection Hdo as <-. by apply amend_policy_ok.
  - injection Hdo as <-. by apply expose_ok.
  - by injection Hdo as <-.
  - by injection Hdo as <-.
Qed.

Lemma nat_run_ok n0 tr n :
  fresh n0 -> nat_run n0 tr n -> nat_ok (admitted tr) (diverted tr) (named tr) n.
Proof. intros Hf. induction 1 as [|tr n now op n' _ IH Hdo Ho]; [by apply fresh_ok|]. by apply nat_do_ok. Qed.

(** C3: nothing leaves the host that the policy has not allowed. In every run of a
    fresh responder, each host connection is for a destination whose SYN the policy
    in force at that moment allowed, dialled directly or where the interception
    hook sent it; and each name asked of the host resolver is one that the policy
    in force allowed. *)
Theorem egress_only_allowed n0 tr n :
  fresh n0 -> nat_run n0 tr n ->
  (forall x, x ∈ dialled (net n) -> exists d, admitted tr d /\ (x = (SockV4 d, None) \/ diverted tr d x)) /\
  (forall s, s ∈ asked (net n) -> named tr s).
Proof. intros Hf Hr. by destruct (nat_run_ok n0 tr n Hf Hr) as (_ & _ & _ & _ & Hd & Ha). Qed.

(** C33: the responder's tables stay sound under every run: armed listeners and flows
    together respect the connection cap; each has a socket of its own in the set;
    the ingress flows dial from distinct ports of the dynamic range, and the port
    table is exactly those ports. *)
Theorem nat_tables_invariant n0 tr n :
  fresh n0 -> nat_run n0 tr n ->
  cap_ok (limits n) (listeners n) (flows n) /\
  NoDup (held (listeners n) (flows n)) /\
  (forall h, h ∈ held (listeners n) (flows n) -> is_Some (sockets_get (stack n) h)) /\
  NoDup (flow_ports (flows n)) /\ ingress_ports n = list_to_set (flow_ports (flows n)) /\
  (forall p, p ∈ ingress_ports n -> INGRESS_PORT_LO <= p <= INGRESS_PORT_HI).
Proof.
  intros Hf Hr. destruct (nat_run_ok n0 tr n Hf Hr) as ((Hnd & Hin) & Hc & (Hp1 & Hp2 & Hp3 & _) & _).
  split; [done|]. split; [done|]. split; [intros h Hh; by apply sockets_get_handle, Hin|]. done.
Qed.

(** ** Every operation returns *)

Context `{!TcpSocketLaws T} `{!HostStreamLaws X} `{!F64Laws F}.

Lemma parse_tcp_syn_dst_returns frame : exists r, parse_tcp_syn_dst frame = Ok r.
Proof.
  unfold parse_tcp_syn_dst. cbv zeta. destruct (Z.ltb_spec (Z.of_nat (length frame)) (14 + 20)); [by eexists|].
  destruct (index16_ok frame 12) as [et ->]; [lia|lia|]. cbn [mbind res_bind_inst]. destruct (negb _); [by eexists|].
  destruct (index_ok frame 14) as [b0 ->]; [lia|]. cbn [mbind res_bind_inst]. destruct (negb _); [by eexists|].
  destruct ((_ <? 20) || _) eqn:Eh; [by eexists|]. apply orb_false_iff in Eh as [Hi%Z.ltb_ge Hl%Z.ltb_ge].
  revert Hi Hl. generalize (Z.land b0 0x0f * 4). intros ihl Hi Hl.
  destruct (index_ok frame (14 + 9)) as [pr ->]; [lia|]. cbn [mbind res_bind_inst]. destruct (negb _); [by eexists|].
  destruct (index_ok frame (14 + 16)) as [a ->]; [lia|]. destruct (index_ok frame (14 + 17)) as [b ->]; [lia|].
  destruct (index_ok frame (14 + 18)) as [c ->]; [lia|]. destruct (index_ok frame (14 + 19)) as [d ->]; [lia|].
  destruct (index16_ok frame (14 + ihl + 2)) as [p ->]; [lia|lia|].
  destruct (index_ok frame (14 + ihl + 13)) as [fl ->]; [lia|]. cbn [mbind res_bind_inst].
  destruct (_ && _); by eexists.
Qed.

Lemma get_sock_in k h : h ∈ socket_handles k -> exists t, get_sock (T:=T) k h = Ok t.
Proof. intros [t Ht]%sockets_get_handle. exists t. by apply get_sock_Ok. Qed.

Lemma dial_guest_returns guest x (n : Nat) : exists n', dial_guest guest x n = Ok n'.
Proof.
  unfold dial_guest. destruct (at_connection_limit n); [by eexists|].
  destruct (free_ingress_port n) as [[port|] n1]; [|by eexists]. destruct (negb _); [by eexists|].
  destruct (sockets_add _ _) as [h k] eqn:Ea. apply sockets_add_handle in Ea as [_ Hk].
  assert (h ∈ socket_handles k) as Hh by (rewrite Hk; set_solver).
  destruct (get_sock_in k h Hh) as [t ->]. cbn [mbind res_bind_inst].
  destruct (tcp_connect _ _ _ _) as [k1|] eqn:Ec; [|by eexists]. apply tcp_connect_handles in Ec.
  destruct (get_sock_in k1 h ltac:(by rewrite Ec)) as [t1 ->]. by eexists.
Qed.

Lemma dial_all_returns xs : forall n : Nat, exists n', dial_all xs n = Ok n'.
Proof.
  induction xs as [|[g x] xs IH]; intros n; cbn [dial_all]; [by eexists|].
  destruct (dial_guest_returns g x n) as [n1 ->]. cbn. apply IH.
Qed.

Lemma accept_all_returns l : exists r, returns_to (fun fuel => accept_all fuel l) r.
Proof.
  remember (waiting l) as m eqn:Em. revert l Em. induction (lt_wf m) as [m _ IH]. intros l ->.
  destruct (listener_accept l) as [[x|] l1] eqn:Ea.
  - pose proof (listener_accept_next _ _ _ Ea) as Hlt. destruct (IH _ Hlt l1 eq_refl) as [[xs l2] [f0 Hf]].
    exists (x :: xs, l2), (S f0). intros [|f] Hle; [lia|]. cbn [accept_all]. rewrite Ea, Hf by lia. done.
  - exists ([], l1), 1%nat. intros [|f] Hle; [lia|]. cbn [accept_all]. by rewrite Ea.
Qed.

Lemma accept_each_returns is_ : exists r, returns_to (fun fuel => accept_each fuel is_) r.
Proof.
  induction is_ as [|i is_ [[rest is1] IH]]; [by exists ([], []), O|].
  destruct (accept_all_returns (ing_listener i)) as [[xs l] Hl]. cbn [accept_each].
  eexists. eapply returns_bind; [exact Hl|]. eapply returns_bind; [exact IH|]. by apply returns_const.
Qed.

Lemma accept_ingress_returns (n : Nat) : exists n', returns_to (fun fuel => accept_ingress fuel n) n'.
Proof.
  destruct (accept_each_returns (ingress n)) as [[xs is_] Ha].
  destruct (dial_all_returns xs (set_ingress is_ n)) as [n' Hn]. exists n'.
  eapply returns_bind; [exact Ha|]. by apply returns_const.
Qed.

Lemma service_dns_returns now (n : Nat) : exists n', returns_to (fun fuel => service_dns fuel now n) n'.
Proof.
  remember (dns_backlog (stack n)) as m eqn:Em. revert n Em. induction (lt_wf m) as [m _ IH]. intros n ->.
  destruct (dns_recv (stack n)) as [[[msg meta]|] k] eqn:Ed.
  2: { exists (set_stack k n), 1%nat. intros [|f] Hle; [lia|]. cbn [service_dns]. by rewrite Ed. }
  destruct (dns_recv_next _ _ _ _ Ed) as [Hb Hlt]. destruct (parse_query_returns msg Hb) as [q Hq].
  set (n1 := match q with
             | None => set_stack k n
             | Some q => let '(o, n) := resolve now q (set_stack k n) in
                         set_stack (dns_send (stack n) (build_response q o) meta) n
             end).
  assert (dns_backlog (stack n1) = dns_backlog k) as Hb1.
  { unfold n1. destruct q as [q|]; [|done]. destruct (resolve now q (set_stack k n)) as [o n2] eqn:Er. cbn.
    rewrite dns_send_backlog. by rewrite (resolve_stack _ _ _ _ _ Er). }
  destruct (IH _ Hlt n1) as [n' [f0 Hf]]; [by rewrite Hb1|]. exists n', (S f0). intros [|f] Hle; [lia|].
  cbn [service_dns]. rewrite Ed, Hq. cbn [mbind res_bind_inst]. specialize (Hf f ltac:(lia)). unfold n1 in Hf.
  destruct q as [q|]; [|done]. by destruct (resolve now q (set_stack k n)).
Qed.

Lemma accepted_returns k ls :
  (forall h, h ∈ ls.*2 -> h ∈ socket_handles k) -> exists acc, accepted_listeners k ls = Ok acc.
Proof.
  induction ls as [|[d h] ls IH]; intros Hin; cbn [accepted_listeners]; [by eexists|].
  destruct (get_sock_in k h) as [t ->]; [apply Hin; by left|]. cbn [mbind res_bind_inst].
  destruct IH as [acc ->]; [intros h' Hh'; apply Hin; by right|]. by eexists.
Qed.

Lemma promote_returns order now (n : Nat) :
  socks_ok (listeners n) (flows n) (stack n) -> (forall m, order m ≡ₚ map_to_list m) ->
  exists n', promote_listeners order now n = Ok n'.
Proof.
  intros [_ Hin] Ho. unfold promote_listeners.
  destruct (accepted_returns (stack n) (order (listeners n))) as [acc ->]; [|by eexists].
  intros h Hh. apply Hin. unfold held. rewrite elem_of_app. left. by rewrite <- (Ho (listeners n)).
Qed.

Lemma advance_connect_returns f k :
  handle f ∈ socket_handles k -> exists r, advance_connect (X:=X) (C:=C) f k = Ok r.
Proof.
  intros [t Ht]%get_sock_in. unfold advance_connect. destruct (host f) as [rx|]; [|by eexists].
  destruct (try_recv rx) as [[[x|]| |] rx']; rewrite ?Ht; by eexists.
Qed.

Lemma clear_deadline_returns (f : Flow X C) k : handle f ∈ socket_handles k -> exists k', clear_deadline f k = Ok k'.
Proof.
  intros [t Ht]%get_sock_in. unfold clear_deadline. destruct (ingress_port f); [|by eexists]. rewrite Ht. by eexists.
Qed.

Lemma relay_flow_returns (f : Flow X C) k b :
  handle f ∈ socket_handles k -> budget_ok b ->
  exists d f' k' b', returns_to (fun fuel => relay_flow fuel f k b) (d, f', k', b') /\ budget_ok b'.
Proof.
  intros [t Ht]%get_sock_in Hb. unfold relay_flow. destruct (host f) as [rx|x p e].
  { eexists _, _, _, _. split; [by apply returns_const|done]. }
  destruct (relay_returns (mkRelay t x p e b) Hb) as (d & r & Hr & Hb'). eexists _, _, _, _. split; [|exact Hb'].
  eapply returns_bind; [by apply returns_const|]. eapply returns_bind; [exact Hr|]. by apply returns_const.
Qed.

Lemma service_flow_returns (f : Flow X C) k b :
  handle f ∈ socket_handles k -> budget_ok b ->
  exists d f' k' b', returns_to (fun fuel => service_flow fuel f k b) (d, f', k', b') /\ budget_ok b'.
Proof.
  intros Hh Hb. destruct (advance_connect_returns f k Hh) as [[f1 k1] Ha].
  pose proof (advance_connect_keeps _ _ _ _ Ha) as (Hf1 & _ & Hk1). rewrite <- Hf1, <- Hk1 in Hh.
  destruct (clear_deadline_returns f1 k1 Hh) as [k2 Hc].
  pose proof (clear_deadline_keeps _ _ _ Hc) as Hk2. rewrite <- Hk2 in Hh.
  destruct (relay_flow_returns f1 k2 b Hh Hb) as (d & f3 & k3 & b3 & Hr & Hb3).
  assert (exists t, get_sock (T:=T) k3 (handle f3) = Ok t) as [t Ht].
  { pose proof Hr as [f0 Hr0]. specialize (Hr0 f0 ltac:(lia)). apply relay_flow_keeps in Hr0 as (Hf3 & _ & Hk3).
    apply get_sock_in. by rewrite Hk3, Hf3. }
  eexists _, _, _, _. split; [|exact Hb3].
  eapply returns_bind; [apply returns_const; exact Ha|]. eapply returns_bind; [apply returns_const; exact Hc|].
  eapply returns_bind; [exact Hr|]. eapply returns_bind; [apply returns_const; exact Ht|]. by apply returns_const.
Qed.

Lemma service_each_returns (fs : list (Flow X C)) : forall k b,
  (forall f, f ∈ fs -> handle f ∈ socket_handles k) -> budget_ok b ->
  exists served k' b', returns_to (fun fuel => service_each fuel fs k b) (served, k', b').
Proof.
  induction fs as [|f fs IH]; intros k b Hin Hb; cbn [service_each]; [eexists _, _, _; by apply returns_const|].
  destruct (service_flow_returns f k b) as (d & f' & k1 & b1 & Hf & Hb1); [apply Hin; by left|done|].
  assert (socket_handles k1 = socket_handles k) as Hk1.
  { pose proof Hf as [f0 Hf0]. specialize (Hf0 f0 ltac:(lia)). by apply service_flow_keeps in Hf0 as (_ & _ & ?). }
  destruct (IH k1 b1) as (rest & k2 & b2 & He); [intros g Hg; rewrite Hk1; apply Hin; by right|done|].
  eexists _, _, _. eapply returns_bind; [exact Hf|]. eapply returns_bind; [exact He|]. by apply returns_const.
Qed.

Lemma retire_returns done : forall ports k,
  NoDup (handle <$> done) -> (forall f, f ∈ done -> handle f ∈ socket_handles k) ->
  exists r, retire (X:=X) (C:=C) done ports k = Ok r.
Proof.
  induction done as [|f done IH]; intros ports k Hnd Hin; cbn [retire]; [by eexists|].
  cbn [fmap list_fmap] in Hnd. apply list.NoDup_cons in Hnd as [Hf Hnd].
  destruct (IH ports k Hnd) as [[ps k1] Hr]; [intros g Hg; apply Hin; by right|]. rewrite Hr. cbn [mbind res_bind_inst].
  apply retire_keeps in Hr as [_ Hk1]. destruct (get_sock_in k1 (handle f)) as [t ->]; [|by eexists].
  rewrite Hk1. apply elem_of_difference. split; [apply Hin; by left|]. by rewrite elem_of_list_to_set.
Qed.

Lemma tick_budget_ok (n : Nat) : budget_ok (tick_budget n).
Proof.
  unfold tick_budget. destruct (max_bytes_per_sec _); [|done]. cbn.
  destruct (f_to_u64_range (f_max (bw_tokens n) (f_of_u64 0))). lia.
Qed.

Lemma service_flows_returns (n : Nat) :
  socks_ok (listeners n) (flows n) (stack n) -> exists n', returns_to (fun fuel => service_flows fuel n) n'.
Proof.
  intros [Hnd Hin]. apply list.NoDup_app in Hnd as (_ & _ & Hnd).
  destruct (service_each_returns (flows n) (stack n) (tick_budget n)) as (served & k & b & He);
    [|apply tick_budget_ok|].
  { intros f Hf. apply Hin. unfold held. apply elem_of_app. right. apply list_elem_of_fmap. by exists f. }
  pose proof He as [f0 He0]. specialize (He0 f0 ltac:(lia)). apply service_each_keeps in He0 as (Hh & _ & Hk).
  pose proof (kept_retired served) as Hkr.
  assert (handle <$> flows n ≡ₚ (handle <$> kept served) ++ (handle <$> retired served)) as Hhp
    by (by rewrite <- Hh, Hkr, fmap_app).
  set (n1 := match b with Some left_ => set_bw (f_of_u64 left_) (bw_last_refill n) n | None => n end).
  destruct (retire_returns (retired served) (ingress_ports n1) k) as [[ports k1] Hr].
  { rewrite Hhp in Hnd. by apply list.NoDup_app in Hnd as (_ & _ & ?). }
  { intros f Hf. rewrite Hk. apply Hin. unfold held. apply elem_of_app. right. rewrite Hhp.
    apply elem_of_app. right. apply list_elem_of_fmap. by exists f. }
  eexists. eapply returns_bind; [exact He|]. eapply returns_bind; [apply returns_const; exact Hr|].
  by apply returns_const.
Qed.

Lemma returns_at {A} (fn : nat -> res unit A) a : returns_to fn a -> exists f, fn f = Ok a.
Proof. intros [f Hf]. exists f. by apply Hf. Qed.

Definition any_dst (_ : SocketAddrV4) : Prop := True.
Definition any_dial (_ : SocketAddrV4) (_ : SocketAddr * option (list Z)) : Prop := True.
Definition any_name (_ : str) : Prop := True.

Lemma nat_service_returns_ok order now n :
  nat_ok any_dst any_dial any_name n -> (forall m, order m ≡ₚ map_to_list m) ->
  exists out n', returns_to (fun fuel => nat_service order fuel now n) (out, n').
Proof.
  intros Hok Ho. set (n0 := poll now (refill now n)).
  assert (nat_ok any_dst any_dial any_name n0) as Hok0 by (by apply poll_ok, refill_ok).
  destruct (service_dns_returns now n0) as [n1 Hr1]. pose proof (returns_at _ _ Hr1) as [f1 Hf1].
  apply (service_dns_ok any_dst any_dial any_name now (nat_policy n0)) in Hf1 as [Hok1 _]; [|done|done|done].
  destruct (accept_ingress_returns n1) as [n2 Hr2]. pose proof (returns_at _ _ Hr2) as [f2 Hf2].
  apply (accept_ingress_ok any_dst any_dial any_name) in Hf2 as [Hok2 _]; [|done].
  destruct (promote_returns order now n2) as [n3 Hr3]; [by destruct Hok2|done|].
  pose proof (promote_listeners_ok any_dst any_dial any_name order now n2 n3 Hok2 Ho ltac:(done) Hr3) as Hok3.
  destruct (service_flows_returns n3) as [n4 Hr4]; [by destruct Hok3|].
  eexists _, _. unfold nat_service. fold n0. eapply returns_bind; [exact Hr1|]. eapply returns_bind; [exact Hr2|].
  eapply returns_bind; [apply returns_const; exact Hr3|]. eapply returns_bind; [exact Hr4|]. by apply returns_const.
Qed.


(** ** Names handed to the guest *)

Lemma recorded_lookup s now ips : forall p ip,
  (ip ∈ ips \/ resolved_host p ip now = Some (to_ascii_lowercase s)) ->
  match ttl (resolve_cache p) with Some d => 0 <= d | None => True end ->
  resolved_host (foldl (fun p ip => record_resolution p s ip now) p ips) ip now = Some (to_ascii_lowercase s).
Proof.
  induction ips as [|a ips IH]; intros p ip Hin Ht; cbn [foldl].
  - destruct Hin as [?%not_elem_of_nil|Hin]; done.
  - apply IH; [|exact Ht]. destruct (decide (ip = a)) as [->|Hne].
    + right. unfold resolved_host, cache_lookup, record_resolution, cache_record. cbn.
      rewrite lookup_insert_eq. destruct (ttl _) as [d|]; [|done]. unfold sat_sub. rewrite Z.sub_diag. cbn.
      by rewrite (proj2 (Z.ltb_ge _ _)).
    + destruct Hin as [[Ha|Ha]%elem_of_cons|Hin]; [done|by left|right].
      unfold resolved_host, cache_lookup, record_resolution, cache_record in *. cbn. by rewrite lookup_insert_ne.
Qed.

(** The guest learns an address only for a name the policy allows, it is never one
    of the host's own networks unless local egress is on, and from then on a connect
    to it is judged by that name. *)
Theorem dns_answers_public now q (n : Nat) ips n' :
  match ttl (resolve_cache (nat_policy n)) with Some d => 0 <= d | None => True end ->
  resolve now q n = (Answers ips, n') ->
  ips <> [] /\ is_allow (decide_dns (nat_policy n) (dq_name q)) = true /\
  forall ip, ip ∈ ips ->
    (allow_local_egress (nat_policy n) = true \/ is_reserved_egress_ip ip = false) /\
    resolved_host (nat_policy n') ip now = Some (to_ascii_lowercase (dq_name q)).
Proof.
  intros Ht. unfold resolve. destruct (_ =? QTYPE_AAAA); [done|]. destruct (negb (_ =? QTYPE_A)); [done|]. cbv zeta.
  destruct (is_allow _) eqn:Ea; cbn [negb]; [|done]. destruct (host_resolve_a _ _) as [[[|a addrs]|] w]; [done| |done].
  destruct (List.filter _ _) as [|i public] eqn:Ef; [done|]. intros [= <- <-]. split; [done|]. split; [done|].
  intros ip Hip. split.
  - assert (In ip (i :: public)) as Hin by (by apply list_elem_of_In). rewrite <- Ef in Hin.
    apply filter_In in Hin as [_ [Hl|Hr%negb_true_iff]%orb_true_iff]; [by left|by right].
  - apply (recorded_lookup (dq_name q) now (i :: public)); [by left|exact Ht].
Qed.

(** ** Bandwidth *)

Definition relayed (f : Flow X C) : nat :=
  match host f with
  | Relaying x _ _ => length (host_got x) + length (host_gave x)
  | Connecting _ => 0
  end.

(** A flow once its connect has reported. *)
Definition advanced (f : Flow X C) : Flow X C :=
  match host f with
  | Connecting rx =>
      match try_recv rx with
      | (Received (Some x), _) => mkFlow (handle f) (Relaying x [] false) (ingress_port f)
      | (_, rx) => mkFlow (handle f) (Connecting rx) (ingress_port f)
      end
  | Relaying _ _ _ => f
  end.

Definition total (fs : list (Flow X C)) : nat := foldr (fun f s => relayed f + s)%nat 0%nat fs.

Lemma advance_connect_advanced f k f' k' : advance_connect f k = Ok (f', k') -> f' = advanced f.
Proof.
  unfold advance_connect, advanced. destruct (host f) as [rx|]; [|by intros [= <- _]].
  destruct (try_recv rx) as [[[x|]| |] rx']; cbn [mbind res_bind_inst];
    [by intros [= <- _]|intros Hx|by intros [= <- _]|intros Hx];
    by apply bind_Ok in Hx as (t & _ & [= <- _]).
Qed.

Lemma service_flow_moves fuel f k b d f' k' b' :
  budget_ok b -> service_flow fuel f k b = Ok (d, f', k', b') ->
  exists m, relayed f' = (relayed (advanced f) + m)%nat /\ spent b b' m.
Proof.
  intros Hb ([f1 k1] & Ha & (k2 & _ & ([[[d1 f2] k3] b2] & Hr & (t & _ & [= _ <- _ <-])%bind_Ok)%bind_Ok)%bind_Ok)%bind_Ok.
  apply advance_connect_advanced in Ha as ->. unfold relay_flow in Hr.
  destruct (host (advanced f)) as [rx|x p e] eqn:Eh.
  - injection Hr as _ <- _ <-. exists 0%nat. split; [lia|by apply spent_0].
  - apply bind_Ok in Hr as (s & _ & ([d2 r] & Hr & [= _ <- _ <-])%bind_Ok).
    apply relay_result in Hr as (gh & hg & Hg & Hv & Hs); [|done]. exists (length gh + length hg)%nat.
    split; [|exact Hs]. unfold relayed. rewrite Eh. cbn [host]. cbn [r_stream] in Hg, Hv.
    rewrite Hg, Hv, !length_app. lia.
Qed.

Lemma spent_trans b b1 b2 m1 m2 : spent b b1 m1 -> spent b1 b2 m2 -> spent b b2 (m1 + m2).
Proof.
  destruct b as [n|]; cbn; [|by intros ->]. intros [-> Hm1]. cbn. intros [-> Hm2]. split; [f_equal; lia|lia].
Qed.

Lemma spent_ok b b' m : spent b b' m -> budget_ok b'.
Proof. destruct b; cbn; [intros [-> ?]; cbn; lia|by intros ->]. Qed.

Lemma service_each_moves fuel : forall fs k b served k' b',
  budget_ok b -> service_each fuel fs k b = Ok (served, k', b') ->
  exists m, total (snd <$> served) = (total (advanced <$> fs) + m)%nat /\ spent b b' m.
Proof.
  induction fs as [|f fs IH]; intros k b served k' b' Hb; cbn [service_each].
  { intros [= <- _ <-]. exists 0%nat. split; [done|by apply spent_0]. }
  intros ([[[d f'] k1] b1] & Hf & ([[rest k2] b2] & He & [= <- _ <-])%bind_Ok)%bind_Ok.
  destruct (service_flow_moves _ _ _ _ _ _ _ _ Hb Hf) as (m1 & Hm1 & Hs1).
  destruct (IH _ _ _ _ _ (spent_ok _ _ _ Hs1) He) as (m2 & Hm2 & Hs2). exists (m1 + m2)%nat. split.
  - unfold total in *. cbn [fmap list_fmap snd foldr]. rewrite Hm1, Hm2. lia.
  - by eapply spent_trans.
Qed.

Lemma refill_budget now (n : Nat) rate :
  max_bytes_per_sec (limits n) = Some rate -> 0 <= rate <= 2 ^ 53 ->
  exists b, tick_budget (refill now n) = Some b /\ 0 <= b <= rate.
Proof.
  intros Hl Hr. unfold refill. rewrite Hl. unfold tick_budget. cbn. rewrite Hl. eexists. split; [done|].
  rewrite f_max_zero. split; [apply f_to_u64_range|]. unfold burst, BW_BURST_SECS. by apply f_min_bound.
Qed.

(** The bandwidth cap holds. In one pass after a refill, however many flows there
    are and however long the pause was, the bytes relayed in both directions of all
    flows together are at most one second of the configured rate, and what is left of
    the budget is what was not relayed. *)
Theorem pass_within_rate fuel now (n : Nat) rate fs k served k' b' :
  max_bytes_per_sec (limits n) = Some rate -> 0 <= rate <= 2 ^ 53 ->
  service_each fuel fs k (tick_budget (refill now n)) = Ok (served, k', b') ->
  exists m left_, total (snd <$> served) = (total (advanced <$> fs) + m)%nat /\ b' = Some left_ /\
    0 <= left_ /\ Z.of_nat m + left_ <= rate.
Proof.
  intros Hl Hr He. destruct (refill_budget now n rate Hl Hr) as (b & Hb & Hbr). rewrite Hb in He.
  apply service_each_moves in He as (m & Hm & -> & Hle); [|cbn; lia]. exists m, (b - Z.of_nat m).
  repeat split; [done|lia|lia].
Qed.

(** A slow bucket never fills. Once the bucket is empty, a pass that comes so soon
    that the rate has earned less than one byte relays nothing and leaves the bucket
    empty again: the fraction is lost, so at short intervals a low rate moves no
    bytes at all, for as long as the passes keep coming. *)
Theorem short_passes_starve fuel now (n : Nat) rate n' :
  max_bytes_per_sec (limits n) = Some rate -> 0 <= rate <= 2 ^ 53 -> bw_tokens n = f_of_u64 0 ->
  f_to_u64 (f_mul (f_of_u64 rate) (f_secs (sat_sub now (bw_last_refill n)))) = 0 ->
  service_flows fuel (refill now n) = Ok n' ->
  bw_tokens n' = f_of_u64 0 /\ bw_last_refill n' = now /\
  exists served, total (snd <$> served) = total (advanced <$> flows n) /\ flows n' = kept served.
Proof.
  intros Hl Hr Ht Hdt. assert (tick_budget (refill now n) = Some 0) as Hb.
  { unfold refill. rewrite Hl. unfold tick_budget. cbn. rewrite Hl, f_max_zero. f_equal. rewrite Ht. unfold burst, BW_BURST_SECS.
    rewrite f_min_small; [by rewrite f_add_zero|done|]. rewrite f_add_zero, Hdt. lia. }
  unfold service_flows. rewrite Hb. intros ([[served k] b] & He & ([ports k1] & _ & [= <-])%bind_Ok)%bind_Ok.
  apply service_each_moves in He as (m & Hm & -> & Hle); [|cbn; lia]. assert (m = 0%nat) as -> by lia.
  split; [done|]. unfold refill in *. rewrite Hl in *. split; [done|]. exists served. split; [by rewrite Hm, Nat.add_0_r|done].
Qed.

End Safety.

(** ** Runs of the responder *)

Notation MemNat := (NatResponder MemStack MemStream MemStream MemListener MemHost Q).

(** A SYN from 10.0.2.15:40000 to 1.2.3.4:80 with the given header checksum. *)
Definition syn_frame (ck : list Z) : list Z :=
  replicate 12 0 ++ [8; 0] ++ [0x45; 0; 0; 40; 0; 0; 0; 0; 64; 6] ++ ck ++ [10; 0; 2; 15] ++ [1; 2; 3; 4] ++
  [0x9c; 0x40; 0; 80; 0; 0; 0; 0; 0; 0; 0; 0; 0x50; 2; 0; 0; 0; 0; 0; 0].

Definition good_syn : list Z := syn_frame (be_bytes 2 (checksum (slice 14 20 (syn_frame [0; 0])))).
Definition bad_syn : list Z := syn_frame [0; 0].

Definition web_dst : SocketAddrV4 := (ip4 1 2 3 4, 80).

Definition demo_host : MemHost := mkHost [] [] (fun _ => Some [SockV4 (ip4 127 0 0 1, 0); SockV4 web_dst]).

Definition demo_nat : MemNat :=
  nat_new (ip4 192 168 249 1) [2; 0; 0; 0; 0; 1] allow_all (mkLimits (Some 4) (Some 1000)) 0 demo_host.

Definition walk : gmap SocketAddrV4 Z -> list (SocketAddrV4 * Z) := map_to_list.

Definition after (now : Z) (op : nat_op) (n : MemNat) : MemNat :=
  match nat_do now op n with Ok n => n | _ => n end.

(** A SYN that the stack drops, a live denial of its destination, the SYN again, a pass. *)
Definition stale1 : MemNat := after 1 (OpAccept bad_syn) demo_nat.
Definition stale2 : MemNat := after 2 (OpAmend (AmendDeny (lit "1.2.3.4"))) stale1.
Definition stale3 : MemNat := after 3 (OpAccept good_syn) stale2.
Definition stale4 : MemNat := after 4 (OpService walk 10) stale3.

Lemma demo_nat_fresh : fresh demo_nat.
Proof. apply nat_new_fresh; [done|done|cbn; lia]. Qed.

Lemma stale_run : nat_run demo_nat
  [(demo_nat, 1, OpAccept bad_syn); (stale1, 2, OpAmend (AmendDeny (lit "1.2.3.4")));
   (stale2, 3, OpAccept good_syn); (stale3, 4, OpService walk 10)] stale4.
Proof.
  apply (run_step _ [_; _; _] stale3); [|vm_compute; reflexivity|by intros order fuel [= <- _]].
  apply (run_step _ [_; _] stale2); [|vm_compute; reflexivity|done].
  apply (run_step _ [_] stale1); [|vm_compute; reflexivity|done].
  apply (run_step _ [] demo_nat); [apply run_start|vm_compute; reflexivity|done].
Qed.

(** A denial does not disarm a listener. There is a run in which the guest's SYN is
    refused by the policy in force, after a live amendment, and the next pass opens
    the host connection all the same: the listener armed for an earlier SYN that the
    stack dropped is still there, and promotion does not ask the policy again. *)
Theorem stale_listener_outlives_denial :
  exists (n0 : MemNat) tr n1 n2 n3,
    fresh n0 /\ nat_run n0 tr n3 /\
    tr = [(n0, 1, OpAccept bad_syn); (stale1, 2, OpAmend (AmendDeny (lit "1.2.3.4")));
          (n1, 3, OpAccept good_syn); (n2, 4, OpService walk 10)] /\
    parse_tcp_syn_dst good_syn = Ok (Some web_dst) /\
    is_allow (decide_connect (nat_policy n1) web_dst.1 web_dst.2 3) = false /\
    nat_policy n2 = nat_policy n1 /\
    dialled (net n2) = [] /\ dialled (net n3) = [(SockV4 web_dst, None)].
Proof.
  exists demo_nat, [(demo_nat, 1, OpAccept bad_syn); (stale1, 2, OpAmend (AmendDeny (lit "1.2.3.4")));
    (stale2, 3, OpAccept good_syn); (stale3, 4, OpService walk 10)], stale2, stale3, stale4.
  split; [exact demo_nat_fresh|]. split; [exact stale_run|]. split; [reflexivity|].
  repeat split; vm_compute; reflexivity.
Qed.

(** A second SYN for a destination that has a listener arms nothing: two connections to
    one destination in the same batch of frames share one socket. *)
Lemma second_syn_arms_nothing {K T M X C L W F} `{Smoltcp K T M} `{HostNet W X C L} `{F64 F}
    now dst h (n : NatResponder K X C L W F) :
  listeners n !! dst = Some h ->
  listeners (admit_syn now dst n).2 = listeners n /\ stack (admit_syn now dst n).2 = stack n.
Proof.
  intros Hl. unfold admit_syn. destruct (is_allow _); cbn [negb]; [|done].
  rewrite bool_decide_eq_true_2; [done|]. by exists h.
Qed.

Definition web_dial : SocketAddr * option (list Z) := (SockV4 web_dst, None).

Lemma egress_only_allowed_witness :
  exists tr, nat_run demo_nat tr stale4 /\ web_dial ∈ dialled (net stale4) /\
    exists d, admitted tr d /\ (web_dial = (SockV4 d, None) \/ diverted tr d web_dial).
Proof.
  assert (web_dial ∈ dialled (net stale4)) as Hin.
  { assert (dialled (net stale4) = [web_dial]) as -> by (vm_compute; reflexivity). by left. }
  eexists. split; [exact stale_run|]. split; [exact Hin|].
  exact (proj1 (egress_only_allowed demo_nat _ stale4 demo_nat_fresh stale_run) _ Hin).
Defined.

Lemma nat_tables_invariant_witness :
  cap_ok (limits stale4) (listeners stale4) (flows stale4) /\
  NoDup (held (listeners stale4) (flows stale4)) /\
  (forall h, h ∈ held (listeners stale4) (flows stale4) -> is_Some (sockets_get (stack stale4) h)) /\
  NoDup (flow_ports (flows stale4)) /\ ingress_ports stale4 = list_to_set (flow_ports (flows stale4)) /\
  (forall p, p ∈ ingress_ports stale4 -> INGRESS_PORT_LO <= p <= INGRESS_PORT_HI).
Proof. exact (nat_tables_invariant demo_nat _ stale4 demo_nat_fresh stale_run). Defined.

Lemma walk_order m : walk m ≡ₚ map_to_list m.
Proof. reflexivity. Qed.


(** The resolver knows a loopback and a public address: only the second is handed out. *)
Definition demo_asked : Query := mkQuery 7 true (lit "example.com") QTYPE_A 1.

Definition demo_resolved : MemNat := (resolve 3 demo_asked demo_nat).2.

Lemma demo_resolves : resolve 3 demo_asked demo_nat = (Answers [ip4 1 2 3 4], demo_resolved).
Proof. vm_compute. reflexivity. Qed.

Lemma dns_answers_public_witness :
  [ip4 1 2 3 4] <> [] /\ is_allow (decide_dns (nat_policy demo_nat) (dq_name demo_asked)) = true /\
  forall ip, ip ∈ [ip4 1 2 3 4] ->
    (allow_local_egress (nat_policy demo_nat) = true \/ is_reserved_egress_ip ip = false) /\
    resolved_host (nat_policy demo_resolved) ip 3 = Some (to_ascii_lowercase (dq_name demo_asked)).
Proof. exact (dns_answers_public 3 demo_asked demo_nat [ip4 1 2 3 4] demo_resolved I demo_resolves). Defined.

(** One flow with three bytes from the guest, and no tokens. *)
Definition starved : MemNat :=
  set_flows [mkFlow 1 (Relaying (mkMemStream [] [] [] 64) [] false) None]
    (set_stack (mkStack {[1 := mkMemSocket [1; 2; 3] [] 64 true (mkInfo Established None None None)]} [] [])
       (set_bw (f_of_u64 0) 0 demo_nat)).

Definition starved_after : MemNat :=
  match service_flows 10 (refill 500000 starved) with Ok n => n | _ => starved end.

Lemma short_passes_starve_witness :
  bw_tokens starved_after = f_of_u64 0 /\ bw_last_refill starved_after = 500000 /\
  exists served, total (snd <$> served) = total (advanced <$> flows starved) /\ flows starved_after = kept served.
Proof.
  apply (short_passes_starve 10 500000 starved 1000 starved_after);
    [reflexivity|lia|reflexivity|vm_compute; reflexivity|vm_compute; reflexivity].
Defined.

(** The same flow half a second later. *)
Definition served_flows : list (bool * Flow MemStream MemStream) :=
  match service_each 10 (flows starved) (stack starved) (tick_budget (refill 500000000 starved)) with
  | Ok (fs, _, _) => fs
  | _ => []
  end.

Definition served_stack : MemStack :=
  match service_each 10 (flows starved) (stack starved) (tick_budget (refill 500000000 starved)) with
  | Ok (_, k, _) => k
  | _ => stack starved
  end.

Lemma pass_within_rate_witness :
  exists m left_, total (snd <$> served_flows) = (total (advanced <$> flows starved) + m)%nat /\
    Some 497 = Some left_ /\ 0 <= left_ /\ Z.of_nat m + left_ <= 1000.
Proof.
  apply (pass_within_rate 10 500000000 starved 1000 (flows starved) (stack starved) served_flows served_stack);
    [reflexivity|lia|vm_compute; reflexivity].
Defined.
