(* ===== verification/SoftGic.v ===== *)
(** * The software GICv3 register model

    [src/hypervisor/src/hvf/softgic.rs]: the VM-global distributor (GICD) and
    the per-vCPU redistributor (GICR) as register files. A [Vec] indexed by
    INTID is a list; [Vec::get_mut] followed by a store is [vset]. *)

From Stdlib Require Import ZArith Lia Bool.
From stdpp Require Import base numbers list list_numbers option relations.
From S2P Require Import Prelude.

Definition SPI_BASE : Z := 32.
Definition INTID_LIMIT : Z := 1020.
Definition GIC_PIDR2_ARCH_GICV3 : Z := 0x30.
Definition GICR_SGI_OFFSET : Z := 0x10000.

(** ** Distributor *)

Record Distributor := mkDist {
  d_ctlr : Z;
  num_irqs : Z;
  enabled : list bool;
  group1 : list bool;
  priority : list Z;
  pending : list bool;
  edge : list bool;
  routes : list Z;
}.

Inductive BitField := Enable | Group | Pending.

Definition set_ctlr (v : Z) (d : Distributor) : Distributor :=
  mkDist v (num_irqs d) (enabled d) (group1 d) (priority d) (pending d) (edge d) (routes d).

Definition set_priority (l : list Z) (d : Distributor) : Distributor :=
  mkDist (d_ctlr d) (num_irqs d) (enabled d) (group1 d) l (pending d) (edge d) (routes d).

Definition set_edge (l : list bool) (d : Distributor) : Distributor :=
  mkDist (d_ctlr d) (num_irqs d) (enabled d) (group1 d) (priority d) (pending d) l (routes d).

Definition set_routes (l : list Z) (d : Distributor) : Distributor :=
  mkDist (d_ctlr d) (num_irqs d) (enabled d) (group1 d) (priority d) (pending d) (edge d) l.

(** The vector a [BitField] selects, and its update. *)
Definition field_get (f : BitField) (d : Distributor) : list bool :=
  match f with Enable => enabled d | Group => group1 d | Pending => pending d end.

Definition field_upd (f : BitField) (g : list bool -> list bool) (d : Distributor) : Distributor :=
  match f with
  | Enable => mkDist (d_ctlr d) (num_irqs d) (g (enabled d)) (group1 d) (priority d)
                (pending d) (edge d) (routes d)
  | Group => mkDist (d_ctlr d) (num_irqs d) (enabled d) (g (group1 d)) (priority d)
               (pending d) (edge d) (routes d)
  | Pending => mkDist (d_ctlr d) (num_irqs d) (enabled d) (group1 d) (priority d)
                 (g (pending d)) (edge d) (routes d)
  end.

(** [u32::next_multiple_of(32)]. *)
Definition next_multiple_of_32 (n : Z) : Z :=
  if n mod 32 =? 0 then n else u32 (n + (32 - n mod 32)).

Definition dist_new (n : Z) : Distributor :=
  let n := Z.max 32 (Z.min INTID_LIMIT (next_multiple_of_32 n)) in
  let k := Z.to_nat n in
  mkDist 0 n (replicate k false) (replicate k true) (replicate k 0xA0)
    (replicate k false) (replicate k false) (replicate k 0).

Definition dist_default : Distributor := dist_new 256.

Definition is_enabled (d : Distributor) (intid : Z) : bool :=
  default false (vget (enabled d) intid).

Definition spi_target_affinity (d : Distributor) (intid : Z) : option Z :=
  match vget (routes d) intid with
  | None => None
  | Some r => if has_bit r 31 then None else Some (Z.land r 0xff00ffffff)
  end.

Definition router (d : Distributor) (intid : Z) : Z := default 0 (vget (routes d) intid).

Definition read_bitmap (bits : list bool) (reg_off : Z) : Z :=
  let base := reg_off / 4 * 32 in
  for_n 32 (fun b v =>
    if default false (vget bits (base + b)) then Z.lor v (Z.shiftl 1 b) else v) 0.

Definition write_bitmap_set (f : BitField) (reg_off value : Z) (set : bool)
    (d : Distributor) : Distributor :=
  let base := reg_off / 4 * 32 in
  for_n 32 (fun b d =>
    if has_bit value b then field_upd f (vset (base + b) set) d else d) d.

Definition read_priority (d : Distributor) (reg_off : Z) : Z :=
  for_n 4 (fun b v =>
    match vget (priority d) (reg_off + b) with
    | Some p => Z.lor v (Z.shiftl p (b * 8))
    | None => v
    end) 0.

Definition write_priority (reg_off value : Z) (d : Distributor) : Distributor :=
  for_n 4 (fun b d =>
    set_priority (vset (reg_off + b) (u8 (Z.shiftr value (b * 8))) (priority d)) d) d.

Definition read_cfgr (d : Distributor) (reg_off : Z) : Z :=
  let base := reg_off / 4 * 16 in
  for_n 16 (fun i v =>
    if default false (vget (edge d) (base + i)) then Z.lor v (Z.shiftl 1 (i * 2 + 1)) else v) 0.

Definition write_cfgr (reg_off value : Z) (d : Distributor) : Distributor :=
  let base := reg_off / 4 * 16 in
  for_n 16 (fun i d =>
    set_edge (vset (base + i) (negb (Z.land (Z.shiftr value (i * 2 + 1)) 1 =? 0)) (edge d)) d) d.

Definition dist_read (d : Distributor) (offset : Z) : Z :=
  if offset =? 0x0 then Z.lor (Z.lor (d_ctlr d) (Z.shiftl 1 4)) (Z.shiftl 1 5)
  else if offset =? 0x4 then u32 (num_irqs d / 32 - 1)
  else if offset =? 0x8 then 0x43B0
  else if offset =? 0xFFE8 then GIC_PIDR2_ARCH_GICV3
  else if in_range 0x80 0x100 offset then read_bitmap (group1 d) (offset - 0x80)
  else if in_range 0x100 0x180 offset then read_bitmap (enabled d) (offset - 0x100)
  else if in_range 0x180 0x200 offset then read_bitmap (enabled d) (offset - 0x180)
  else if in_range 0x200 0x280 offset then read_bitmap (pending d) (offset - 0x200)
  else if in_range 0x280 0x300 offset then read_bitmap (pending d) (offset - 0x280)
  else if in_range 0x400 0x800 offset then read_priority d (offset - 0x400)
  else if in_range 0xC00 0xD00 offset then read_cfgr d (offset - 0xC00)
  else if in_range 0x6000 0x8000 offset then
    let route := router d (u32 ((offset - 0x6000) / 8)) in
    if 4 <=? (offset - 0x6000) mod 8 then u32 (Z.shiftr route 32) else u32 route
  else 0.

(** The 64-bit register written as two 32-bit halves. *)
Definition write_router (off value : Z) (d : Distributor) : Distributor :=
  let intid := off / 8 in
  match vget (routes d) intid with
  | Some cur =>
      set_routes (vset intid
        (if 4 <=? off mod 8
         then Z.lor (Z.land cur 0xffffffff) (Z.shiftl value 32)
         else Z.lor (Z.land cur 0xffffffff00000000) value) (routes d)) d
  | None => d
  end.

Definition dist_write (d : Distributor) (offset value : Z) : Distributor :=
  if offset =? 0x0 then set_ctlr value d
  else if in_range 0x80 0x100 offset then write_bitmap_set Group (offset - 0x80) value true d
  else if in_range 0x100 0x180 offset then write_bitmap_set Enable (offset - 0x100) value true d
  else if in_range 0x180 0x200 offset then write_bitmap_set Enable (offset - 0x180) value false d
  else if in_range 0x200 0x280 offset then write_bitmap_set Pending (offset - 0x200) value true d
  else if in_range 0x280 0x300 offset then write_bitmap_set Pending (offset - 0x280) value false d
  else if in_range 0x400 0x800 offset then write_priority (offset - 0x400) value d
  else if in_range 0xC00 0xD00 offset then write_cfgr (offset - 0xC00) value d
  else if in_range 0x6000 0x8000 offset then write_router (offset - 0x6000) value d
  else d.

(** [self.enabled[i]] is an index, and panics past the end. *)
Definition assert_spi (d : Distributor) (intid : Z) : res unit (bool * Distributor) :=
  if Z.of_nat (length (pending d)) <=? intid then Ok (false, d)
  else
    let d' := field_upd Pending (vset intid true) d in
    match vget (enabled d') intid with
    | Some b => Ok (b, d')
    | None => Panic
    end.

Definition clear_pending (d : Distributor) (intid : Z) : Distributor :=
  field_upd Pending (vset intid false) d.

Definition seed_bitmap (f : BitField) (reg_off value : Z) (d : Distributor) : Distributor :=
  let base := reg_off / 4 * 32 in
  for_n 32 (fun b d => field_upd f (vset (base + b) (has_bit value b)) d) d.

Definition dist_seed_reg (d : Distributor) (r : Z * Z) : Distributor :=
  let '(off, val) := r in
  let v := u32 val in
  if off =? 0x0 then set_ctlr v d
  else if in_range 0x80 0x100 off then seed_bitmap Group (off - 0x80) v d
  else if in_range 0x100 0x180 off then seed_bitmap Enable (off - 0x100) v d
  else if in_range 0x400 0x800 off then write_priority (off - 0x400) v d
  else if in_range 0xC00 0xD00 off then write_cfgr (off - 0xC00) v d
  else if in_range 0x6000 0x8000 off then
    set_routes (vset ((off - 0x6000) / 8) val (routes d)) d
  else d.

Definition dist_seed_from_kvm (d : Distributor) (regs : list (Z * Z)) : Distributor :=
  foldl dist_seed_reg d regs.

(** ** Redistributor *)

Record Redistributor := mkRedist {
  r_ctlr : Z;
  waker : Z;
  propbaser : Z;
  pendbaser : Z;
  ppi_enabled : list bool;
  ppi_cfg0 : Z;
  ppi_cfg1 : Z;
  cpu_id : Z;
  last : bool;
}.

Definition for_cpu (cpu : Z) (lst : bool) : Redistributor :=
  mkRedist 0 0 0 0 (replicate 32 false) 0xaaaaaaaa 0 cpu lst.

Definition redist_new : Redistributor := for_cpu 0 true.

Definition set_identity (r : Redistributor) (cpu : Z) (lst : bool) : Redistributor :=
  mkRedist (r_ctlr r) (waker r) (propbaser r) (pendbaser r) (ppi_enabled r)
    (ppi_cfg0 r) (ppi_cfg1 r) cpu lst.

Definition lpis_enabled (r : Redistributor) : bool := negb (Z.land (r_ctlr r) 1 =? 0).

Definition prop_table (r : Redistributor) : option Z :=
  let base := Z.land (propbaser r) 0x0000fffffffff000 in
  if base =? 0 then None else Some base.

Definition is_ppi_enabled (r : Redistributor) (intid : Z) : bool :=
  (intid <? 32) && default false (vget (ppi_enabled r) intid).

Definition redist_read (r : Redistributor) (offset : Z) : Z :=
  if offset =? 0x0 then r_ctlr r
  else if offset =? 0x4 then 0x43B0
  else if offset =? 0x8 then
    Z.lor (Z.lor (Z.shiftl 1 0) (if last r then Z.shiftl 1 4 else 0))
          (Z.shiftl (Z.land (cpu_id r) 0xffff) 8)
  else if offset =? 0xC then cpu_id r
  else if offset =? GICR_SGI_OFFSET + 0xC00 then ppi_cfg0 r
  else if offset =? GICR_SGI_OFFSET + 0xC04 then ppi_cfg1 r
  else if offset =? 0x14 then waker r
  else if offset =? 0x70 then u32 (propbaser r)
  else if offset =? 0x74 then u32 (Z.shiftr (propbaser r) 32)
  else if offset =? 0x78 then u32 (pendbaser r)
  else if offset =? 0x7C then u32 (Z.shiftr (pendbaser r) 32)
  else if (offset =? GICR_SGI_OFFSET + 0x100) || (offset =? GICR_SGI_OFFSET + 0x180) then
    for_n (length (ppi_enabled r)) (fun b v =>
      if default false (vget (ppi_enabled r) b) then Z.lor v (Z.shiftl 1 b) else v) 0
  else if offset =? 0xFFE8 then GIC_PIDR2_ARCH_GICV3
  else 0.

Definition ppi_bits (value : Z) (set : bool) (l : list bool) : list bool :=
  for_n 32 (fun b l => if has_bit value b then vset b set l else l) l.

Definition set_ppi_bits (value : Z) (set : bool) (r : Redistributor) : Redistributor :=
  mkRedist (r_ctlr r) (waker r) (propbaser r) (pendbaser r) (ppi_bits value set (ppi_enabled r))
    (ppi_cfg0 r) (ppi_cfg1 r) (cpu_id r) (last r).

Definition low_half (cur value : Z) : Z := Z.lor (Z.land cur (not_w 64 0xffffffff)) value.
Definition high_half (cur value : Z) : Z := Z.lor (Z.land cur 0xffffffff) (Z.shiftl value 32).

Definition redist_write (r : Redistributor) (offset value : Z) : Redistributor :=
  let upd c w p q cfg1 :=
    mkRedist c w p q (ppi_enabled r) (ppi_cfg0 r) cfg1 (cpu_id r) (last r) in
  if offset =? 0x0 then upd value (waker r) (propbaser r) (pendbaser r) (ppi_cfg1 r)
  else if offset =? 0x14 then
    upd (r_ctlr r) (if Z.land value 2 =? 0 then 0 else value) (propbaser r) (pendbaser r) (ppi_cfg1 r)
  else if offset =? GICR_SGI_OFFSET + 0xC04 then
    upd (r_ctlr r) (waker r) (propbaser r) (pendbaser r) value
  else if offset =? 0x70 then
    upd (r_ctlr r) (waker r) (low_half (propbaser r) value) (pendbaser r) (ppi_cfg1 r)
  else if offset =? 0x74 then
    upd (r_ctlr r) (waker r) (high_half (propbaser r) value) (pendbaser r) (ppi_cfg1 r)
  else if offset =? 0x78 then
    upd (r_ctlr r) (waker r) (propbaser r) (low_half (pendbaser r) value) (ppi_cfg1 r)
  else if offset =? 0x7C then
    upd (r_ctlr r) (waker r) (propbaser r) (high_half (pendbaser r) value) (ppi_cfg1 r)
  else if offset =? GICR_SGI_OFFSET + 0x100 then set_ppi_bits value true r
  else if offset =? GICR_SGI_OFFSET + 0x180 then set_ppi_bits value false r
  else r.

Definition redist_seed_reg (r : Redistributor) (reg : Z * Z) : Redistributor :=
  let '(off, val) := reg in
  let r := redist_write r off (u32 val) in
  if (off =? 0x70) || (off =? 0x78) then redist_write r (off + 4) (u32 (Z.shiftr val 32)) else r.

Definition redist_seed_from_kvm (r : Redistributor) (regs : list (Z * Z)) : Redistributor :=
  foldl redist_seed_reg r regs.

Arguments read_bitmap : simpl never.
Arguments read_priority : simpl never.
Arguments read_cfgr : simpl never.
Arguments write_bitmap_set : simpl never.
Arguments write_priority : simpl never.
Arguments write_cfgr : simpl never.
Arguments seed_bitmap : simpl never.
Arguments router : simpl never.
Arguments ppi_bits : simpl never.

(** ** Well-formedness *)

Record dist_wf (d : Distributor) : Prop := {
  wf_num : 32 <= num_irqs d <= INTID_LIMIT;
  wf_ctlr : is_u32 (d_ctlr d);
  wf_enabled : Z.of_nat (length (enabled d)) = num_irqs d;
  wf_group1 : Z.of_nat (length (group1 d)) = num_irqs d;
  wf_priority : Z.of_nat (length (priority d)) = num_irqs d;
  wf_pending : Z.of_nat (length (pending d)) = num_irqs d;
  wf_edge : Z.of_nat (length (edge d)) = num_irqs d;
  wf_routes : Z.of_nat (length (routes d)) = num_irqs d;
  wf_priority_u8 : forall i p, vget (priority d) i = Some p -> is_u8 p;
  wf_routes_u64 : forall i r, vget (routes d) i = Some r -> is_u64 r;
}.

Lemma wf_field d f : dist_wf d -> Z.of_nat (length (field_get f d)) = num_irqs d.
Proof. intros []. by destruct f. Qed.

(** ** Loops as vector updates *)

Definition scatter {A} (n : nat) (base : Z) (c : Z -> bool) (g : Z -> A) (l : list A) : list A :=
  for_n n (fun b l => if c b then vset (base + b) (g b) l else l) l.

Lemma length_scatter {A} n base c (g : Z -> A) l : length (scatter n base c g l) = length l.
Proof. apply scatter_length. Qed.

Lemma vget_scatter {A} n base c (g : Z -> A) l j :
  0 <= base ->
  vget (scatter n base c g l) j =
  if in_range base (base + Z.of_nat n) j && c (j - base) && (j <? Z.of_nat (length l))
  then Some (g (j - base)) else vget l j.
Proof. apply scatter_vget. Qed.

Lemma write_bitmap_set_eq f o v s d :
  write_bitmap_set f o v s d =
  field_upd f (scatter 32 (o / 4 * 32) (has_bit v) (fun _ => s)) d.
Proof.
  unfold write_bitmap_set, scatter. generalize 32%nat. intros n. induction n as [|n IH]; cbn [for_n].
  - by destruct f, d.
  - rewrite IH. destruct (has_bit v (Z.of_nat n)); by destruct f.
Qed.

Lemma seed_bitmap_eq f o v d :
  seed_bitmap f o v d =
  field_upd f (scatter 32 (o / 4 * 32) (fun _ => true) (has_bit v)) d.
Proof.
  unfold seed_bitmap, scatter. generalize 32%nat. intros n. induction n as [|n IH]; cbn [for_n].
  - by destruct f, d.
  - rewrite IH. by destruct f.
Qed.

Lemma write_priority_eq o v d :
  write_priority o v d =
  set_priority (scatter 4 o (fun _ => true) (fun b => u8 (Z.shiftr v (b * 8))) (priority d)) d.
Proof.
  unfold write_priority, scatter. generalize 4%nat. intros n. induction n as [|n IH]; cbn [for_n].
  - by destruct d.
  - by rewrite IH.
Qed.

Lemma write_cfgr_eq o v d :
  write_cfgr o v d =
  set_edge (scatter 16 (o / 4 * 16) (fun _ => true)
    (fun i => negb (Z.land (Z.shiftr v (i * 2 + 1)) 1 =? 0)) (edge d)) d.
Proof.
  unfold write_cfgr, scatter. generalize 16%nat. intros n. induction n as [|n IH]; cbn [for_n].
  - by destruct d.
  - by rewrite IH.
Qed.

(** ** Reads bit by bit *)

Lemma read_bitmap_testbit bits o i :
  0 <= i ->
  Z.testbit (read_bitmap bits o) i = (i <? 32) && default false (vget bits (o / 4 * 32 + i)).
Proof. intros Hi. unfold read_bitmap. by rewrite gather_testbit_id. Qed.

Lemma read_bitmap_nonneg bits o : 0 <= read_bitmap bits o.
Proof. unfold read_bitmap. by apply (gather_nonneg 32 (fun b => b)). Qed.

Lemma read_bitmap_range bits o : is_u32 (read_bitmap bits o).
Proof.
  pose proof (read_bitmap_nonneg bits o). split; [done|]. apply bits_range; [lia..|].
  intros i Hi. rewrite read_bitmap_testbit by lia. by rewrite (proj2 (Z.ltb_ge _ _)).
Qed.

Lemma read_cfgr_testbit d o i :
  0 <= i ->
  Z.testbit (read_cfgr d o) i =
  (i <? 32) && (i mod 2 =? 1) && default false (vget (edge d) (o / 4 * 16 + i / 2)).
Proof.
  intros Hi. apply eq_true_iff_eq. unfold read_cfgr.
  rewrite (gather_testbit 16 (fun i => i * 2 + 1)
    (fun i => default false (vget (edge d) (o / 4 * 16 + i)))) by lia.
  rewrite Z.bits_0, !andb_true_iff, Z.ltb_lt, Z.eqb_eq. split.
  - intros [?|(b & Hb & Hc & <-)]; [done|].
    replace ((b * 2 + 1) / 2) with b by (Z.div_mod_to_equations; lia).
    split_and!; [lia| |done]. Z.div_mod_to_equations; lia.
  - intros ((? & ?) & Hc). right. exists (i / 2).
    split_and!; [Z.div_mod_to_equations; lia..|done|Z.div_mod_to_equations; lia].
Qed.

Lemma read_cfgr_range d o : is_u32 (read_cfgr d o).
Proof.
  assert (0 <= read_cfgr d o) by (unfold read_cfgr; by apply (gather_nonneg 16 (fun i => i * 2 + 1)
    (fun i => default false (vget (edge d) (o / 4 * 16 + i))))).
  split; [done|]. apply bits_range; [lia..|]. intros i Hi.
  rewrite read_cfgr_testbit by lia. by rewrite (proj2 (Z.ltb_ge _ _)).
Qed.

(** Four priority bytes are one little-endian word. *)
Lemma read_priority_val d o (a b c e : Z) :
  0 <= o ->
  vget (priority d) (o + 0) = Some a -> vget (priority d) (o + 1) = Some b ->
  vget (priority d) (o + 2) = Some c -> vget (priority d) (o + 3) = Some e ->
  is_u8 a -> is_u8 b -> is_u8 c -> is_u8 e ->
  read_priority d o = le_val [a; b; c; e].
Proof.
  intros Ho Ha Hb Hc He ? ? ? ?. unfold read_priority. cbn [for_n].
  change (Z.of_nat 0) with 0. change (Z.of_nat 1) with 1. change (Z.of_nat 2) with 2.
  change (Z.of_nat 3) with 3. rewrite Ha, Hb, Hc, He.
  rewrite Z.lor_0_l, Z.shiftl_0_r. unfold is_u8 in *.
  rewrite (Z.lor_comm a), lor_shiftl_add by lia.
  rewrite (Z.lor_comm (b * _ + a)), lor_shiftl_add by lia.
  rewrite (Z.lor_comm (c * _ + _)), lor_shiftl_add by lia.
  cbn [le_val]. lia.
Qed.

Lemma shiftr_bits v k : is_u32 v -> 0 <= k -> u8 (Z.shiftr v (k * 8)) = v / 2 ^ (8 * k) mod 256.
Proof. intros. unfold u8. rewrite Z.shiftr_div_pow2 by lia. by rewrite Z.mul_comm. Qed.

Lemma read_bitmap_scatter bits o c g o' i :
  0 <= o -> 0 <= i < 32 ->
  Z.testbit (read_bitmap (scatter 32 (o / 4 * 32) c g bits) o') i =
  if (o / 4 =? o' / 4) && c i && (o / 4 * 32 + i <? Z.of_nat (length bits)) then g i
  else Z.testbit (read_bitmap bits o') i.
Proof.
  intros Ho Hi. rewrite !read_bitmap_testbit by lia. rewrite (proj2 (Z.ltb_lt i 32)) by lia.
  cbn [andb]. rewrite vget_scatter by (Z.div_mod_to_equations; lia).
  destruct (Z.eqb_spec (o / 4) (o' / 4)) as [E|E]; cbn [andb].
  - rewrite <- E. replace (o / 4 * 32 + i - o / 4 * 32) with i by lia.
    rewrite (proj2 (in_range_spec _ _ _)) by lia. cbn [andb].
    by destruct (c i), (_ <? _).
  - assert (in_range (o / 4 * 32) (o / 4 * 32 + Z.of_nat 32) (o' / 4 * 32 + i) = false) as ->
      by (apply in_range_false; lia). done.
Qed.

Lemma read_bitmap_beyond bits o :
  Z.of_nat (length bits) <= o / 4 * 32 -> read_bitmap bits o = 0.
Proof.
  intros H. apply Z.bits_inj'. intros i Hi. rewrite read_bitmap_testbit, Z.bits_0 by done.
  rewrite vget_ge by lia. apply andb_false_r.
Qed.

Lemma u32_bits_ext x y :
  is_u32 x -> is_u32 y -> (forall i, 0 <= i < 32 -> Z.testbit x i = Z.testbit y i) -> x = y.
Proof.
  intros Hx Hy H. apply Z.bits_inj'. intros i Hi. destruct (Z.ltb_spec i 32); [apply H; lia|].
  rewrite (testbit_high x 32), (testbit_high y 32) by done. done.
Qed.

(** ** Words after a write *)

Lemma word_after_set bits o v o' :
  0 <= o -> is_u32 v -> Z.of_nat (length bits) mod 32 = 0 ->
  read_bitmap (scatter 32 (o / 4 * 32) (has_bit v) (fun _ => true) bits) o' =
  if o / 4 =? o' / 4
  then if o / 4 * 32 <? Z.of_nat (length bits) then Z.lor (read_bitmap bits o') v else 0
  else read_bitmap bits o'.
Proof.
  intros Ho Hv Hm. destruct (Z.eqb_spec (o / 4) (o' / 4)) as [E|E].
  - destruct (Z.ltb_spec (o / 4 * 32) (Z.of_nat (length bits))).
    + apply u32_bits_ext; [apply read_bitmap_range| |].
      { apply lor_range; [lia|apply read_bitmap_range|done]. }
      intros i Hi. rewrite read_bitmap_scatter by done. rewrite E, Z.eqb_refl. cbn [andb].
      rewrite has_bit_testbit, Z.lor_spec by lia.
      rewrite (proj2 (Z.ltb_lt (_ + i) _)) by (Z.div_mod_to_equations; lia).
      by destruct (Z.testbit v i), (Z.testbit (read_bitmap bits o') i).
    + apply read_bitmap_beyond. rewrite length_scatter. lia.
  - apply u32_bits_ext; [apply read_bitmap_range..|].
    intros i Hi. rewrite read_bitmap_scatter by done. by rewrite (proj2 (Z.eqb_neq _ _)).
Qed.

Lemma word_after_clear bits o v o' :
  0 <= o -> is_u32 v ->
  read_bitmap (scatter 32 (o / 4 * 32) (has_bit v) (fun _ => false) bits) o' =
  if o / 4 =? o' / 4 then Z.ldiff (read_bitmap bits o') v else read_bitmap bits o'.
Proof.
  intros Ho Hv. destruct (Z.eqb_spec (o / 4) (o' / 4)) as [E|E].
  - apply Z.bits_inj'. intros i Hi. rewrite Z.ldiff_spec.
    destruct (Z.ltb_spec i 32).
    2:{ rewrite !read_bitmap_testbit by lia. by rewrite (proj2 (Z.ltb_ge _ _)). }
    rewrite read_bitmap_scatter by done. rewrite E, Z.eqb_refl. cbn [andb].
    rewrite has_bit_testbit by lia. destruct (Z.ltb_spec (o' / 4 * 32 + i) (Z.of_nat (length bits))).
    + by destruct (Z.testbit v i), (Z.testbit (read_bitmap bits o') i).
    + rewrite read_bitmap_testbit, vget_ge by lia. rewrite !andb_false_r. done.
  - apply u32_bits_ext; [apply read_bitmap_range..|].
    intros i Hi. rewrite read_bitmap_scatter by done. by rewrite (proj2 (Z.eqb_neq _ _)).
Qed.

Lemma word_after_seed bits o v o' :
  0 <= o -> is_u32 v -> Z.of_nat (length bits) mod 32 = 0 ->
  read_bitmap (scatter 32 (o / 4 * 32) (fun _ => true) (has_bit v) bits) o' =
  if o / 4 =? o' / 4
  then if o / 4 * 32 <? Z.of_nat (length bits) then v else 0
  else read_bitmap bits o'.
Proof.
  intros Ho Hv Hm. destruct (Z.eqb_spec (o / 4) (o' / 4)) as [E|E].
  - destruct (Z.ltb_spec (o / 4 * 32) (Z.of_nat (length bits))).
    + apply u32_bits_ext; [apply read_bitmap_range|done|].
      intros i Hi. rewrite read_bitmap_scatter by done. rewrite E, Z.eqb_refl. cbn [andb].
      rewrite has_bit_testbit by lia.
      by rewrite (proj2 (Z.ltb_lt (_ + i) _)) by (Z.div_mod_to_equations; lia).
    + apply read_bitmap_beyond. rewrite length_scatter. lia.
  - apply u32_bits_ext; [apply read_bitmap_range..|].
    intros i Hi. rewrite read_bitmap_scatter by done. by rewrite (proj2 (Z.eqb_neq _ _)).
Qed.

Lemma cfgr_bit v i : 0 <= i -> negb (Z.land (Z.shiftr v i) 1 =? 0) = Z.testbit v i.
Proof.
  intros Hi. transitivity (has_bit (Z.shiftr v i) 0); [done|].
  rewrite has_bit_testbit, Z.shiftr_spec by lia. done.
Qed.

Lemma testbit_aaaa i : 0 <= i < 32 -> Z.testbit 0xAAAAAAAA i = (i mod 2 =? 1).
Proof.
  intros Hi.
  assert (forallb (fun i => eqb (Z.testbit 0xAAAAAAAA i) (i mod 2 =? 1)) (seqZ 0 32) = true) as H
    by reflexivity.
  rewrite forallb_forall in H. apply eqb_prop, H, list_elem_of_In, elem_of_seqZ. lia.
Qed.

Lemma cfgr_after_write d o v o' :
  0 <= o -> is_u32 v -> Z.of_nat (length (edge d)) mod 32 = 0 ->
  read_cfgr (write_cfgr o v d) o' =
  if o / 4 =? o' / 4
  then if o / 4 * 16 <? Z.of_nat (length (edge d)) then Z.land v 0xAAAAAAAA else 0
  else read_cfgr d o'.
Proof.
  intros Ho Hv Hm. rewrite write_cfgr_eq.
  apply u32_bits_ext; [apply read_cfgr_range| |].
  { repeat case_match; [by apply land_range|unfold is_u32; lia|apply read_cfgr_range]. }
  intros i Hi. rewrite read_cfgr_testbit by lia. cbn [set_edge edge]. 
  rewrite vget_scatter by (Z.div_mod_to_equations; lia).
  rewrite (proj2 (Z.ltb_lt i 32)) by lia. cbn [andb].
  destruct (Z.eqb_spec (o / 4) (o' / 4)) as [E|E].
  - rewrite <- E. rewrite (proj2 (in_range_spec _ _ _)) by (Z.div_mod_to_equations; lia).
    replace (o / 4 * 16 + i / 2 - o / 4 * 16) with (i / 2) by lia. cbn [andb].
    destruct (Z.ltb_spec (o / 4 * 16) (Z.of_nat (length (edge d)))).
    + rewrite (proj2 (Z.ltb_lt (_ + i / 2) _)) by (Z.div_mod_to_equations; lia). cbn [default].
      rewrite Z.land_spec, testbit_aaaa, cfgr_bit by (Z.div_mod_to_equations; lia).
      destruct (Z.eqb_spec (i mod 2) 1) as [Ei|]; [|by rewrite andb_false_r].
      cbn [andb]. rewrite andb_true_r. cbn. f_equal. Z.div_mod_to_equations; lia.
    + rewrite (proj2 (Z.ltb_ge (_ + i / 2) _)), vget_ge by (Z.div_mod_to_equations; lia).
      by rewrite andb_false_r, Z.bits_0.
  - assert (in_range (o / 4 * 16) (o / 4 * 16 + Z.of_nat 16) (o' / 4 * 16 + i / 2) = false) as ->
      by (apply in_range_false; Z.div_mod_to_equations; lia).
    cbn [andb]. rewrite read_cfgr_testbit by lia. by rewrite (proj2 (Z.ltb_lt i 32)) by lia.
Qed.

Lemma read_priority_ext d d' o :
  (forall b, 0 <= b < 4 -> vget (priority d) (o + b) = vget (priority d') (o + b)) ->
  read_priority d o = read_priority d' o.
Proof.
  intros H. unfold read_priority. cbn [for_n].
  rewrite !H by (cbn; lia). done.
Qed.

Lemma read_priority_beyond d o : Z.of_nat (length (priority d)) <= o -> read_priority d o = 0.
Proof. intros H. unfold read_priority. cbn [for_n]. by rewrite !vget_ge by lia. Qed.

Lemma priority_after_write d o v o' :
  0 <= o -> o mod 4 = 0 -> o' mod 4 = 0 -> is_u32 v ->
  Z.of_nat (length (priority d)) mod 32 = 0 ->
  read_priority (write_priority o v d) o' =
  if o =? o' then if o <? Z.of_nat (length (priority d)) then v else 0 else read_priority d o'.
Proof.
  intros Ho Ha Ha' Hv Hm. rewrite write_priority_eq.
  destruct (Z.eqb_spec o o') as [<-|Hne].
  - destruct (Z.ltb_spec o (Z.of_nat (length (priority d)))).
    + assert (forall b, 0 <= b < 4 ->
        vget (scatter 4 o (fun _ => true) (fun b => u8 (Z.shiftr v (b * 8))) (priority d)) (o + b) =
        Some (u8 (Z.shiftr v (b * 8)))) as Hb.
      { intros b Hb. rewrite vget_scatter by done. rewrite (proj2 (in_range_spec _ _ _)) by lia.
        rewrite (proj2 (Z.ltb_lt _ _)) by (Z.div_mod_to_equations; lia). cbn [andb].
        do 4 f_equal. lia. }
      rewrite (read_priority_val (set_priority (scatter 4 o (fun _ => true)
        (fun b => u8 (Z.shiftr v (b * 8))) (priority d)) d) o _ _ _ _ Ho (Hb 0 ltac:(lia)) (Hb 1 ltac:(lia))
        (Hb 2 ltac:(lia)) (Hb 3 ltac:(lia))) by (apply (wrap_range 8); lia).
      cbn [le_val]. unfold is_u32, u8 in *. rewrite !Z.shiftr_div_pow2 by lia.
      change (2 ^ (0 * 8)) with 1. rewrite Z.div_1_r.
      change (2 ^ (1 * 8)) with (2 ^ 8). change (2 ^ (2 * 8)) with (2 ^ 16).
      change (2 ^ (3 * 8)) with (2 ^ 24). Z.div_mod_to_equations; lia.
    + apply read_priority_beyond. cbn [set_priority priority]. rewrite length_scatter. lia.
  - apply read_priority_ext. intros b Hb. cbn [priority set_priority]. rewrite vget_scatter by done.
    assert (in_range o (o + Z.of_nat 4) (o' + b) = false) as ->; [|done].
    apply in_range_false. Z.div_mod_to_equations; lia.
Qed.

(** Replacing one half of a 64-bit word. *)
Lemma half_low cur v : is_u64 cur -> is_u32 v ->
  Z.lor (Z.land cur 0xffffffff00000000) v = cur / 2 ^ 32 * 2 ^ 32 + v.
Proof.
  intros Hc Hv. assert (Z.land cur 0xffffffff00000000 = Z.shiftl (cur / 2 ^ 32) 32) as ->.
  { apply Z.bits_inj'. intros i Hi. rewrite Z.land_spec, Z.shiftl_spec by done.
    change 0xffffffff00000000 with (Z.shiftl (Z.ones 32) 32). rewrite Z.shiftl_spec by done.
    rewrite testbit_ones by lia. destruct (Z.ltb_spec i 32).
    - rewrite (proj2 (Z.leb_gt 0 (i - 32))) by lia. rewrite (Z.testbit_neg_r _ (i - 32)) by lia. apply andb_false_r.
    - rewrite <- Z.shiftr_div_pow2, Z.shiftr_spec by lia. replace (i - 32 + 32) with i by lia.
      rewrite (proj2 (Z.leb_le 0 _)) by lia. destruct (Z.ltb_spec (i - 32) 32); cbn [andb].
      + by rewrite andb_true_r.
      + by rewrite (testbit_high cur 64) by (unfold is_u64 in Hc; lia). }
  by apply lor_shiftl_add.
Qed.

Lemma half_high cur v : is_u64 cur -> is_u32 v ->
  Z.lor (Z.land cur 0xffffffff) (Z.shiftl v 32) = v * 2 ^ 32 + cur mod 2 ^ 32.
Proof.
  intros Hc Hv. change 0xffffffff with (Z.ones 32). rewrite Z.land_ones by lia.
  rewrite Z.lor_comm. apply lor_shiftl_add; [lia|]. apply Z.mod_pos_bound. lia.
Qed.

Definition router_word (d : Distributor) (off : Z) : Z :=
  let route := router d (off / 8) in
  if 4 <=? off mod 8 then u32 (Z.shiftr route 32) else u32 route.

Lemma router_after_write d off v off' :
  dist_wf d -> 0 <= off -> off mod 4 = 0 -> off' mod 4 = 0 -> is_u32 v ->
  router_word (write_router off v d) off' =
  if off =? off' then if off / 8 <? num_irqs d then v else 0 else router_word d off'.
Proof.
  intros Hwf Ho Ha Ha' Hv. unfold router_word, write_router, router.
  pose proof (wf_routes d Hwf) as Hl.
  destruct (Z.ltb_spec (off / 8) (num_irqs d)) as [Hlt|Hge].
  - destruct (vget_lt (routes d) (off / 8)) as (cur & Hcur); [Z.div_mod_to_equations; lia|].
    rewrite Hcur. cbn [set_routes routes]. pose proof (wf_routes_u64 d Hwf _ _ Hcur) as Hc.
    rewrite vget_vset. rewrite (proj2 (Z.leb_le 0 (off / 8))) by (Z.div_mod_to_equations; lia).
    rewrite Hl, (proj2 (Z.ltb_lt _ _)) by lia. rewrite !andb_true_r.
    rewrite half_low, half_high by done. unfold is_u32, is_u64 in *.
    destruct (Z.eqb_spec off off') as [<-|Hne].
    + rewrite Z.eqb_refl. cbn. destruct (4 <=? off mod 8).
      * rewrite Z.shiftr_div_pow2 by lia. word_lia.
      * word_lia.
    + destruct (Z.eqb_spec (off / 8) (off' / 8)) as [E|E]; [|done].
      rewrite <- E, Hcur. cbn. rewrite !Z.shiftr_div_pow2 by lia.
      destruct (Z.leb_spec 4 (off mod 8)), (Z.leb_spec 4 (off' mod 8));
        try (exfalso; Z.div_mod_to_equations; lia); word_lia.
  - rewrite (vget_ge (routes d)) by lia. destruct (Z.eqb_spec off off') as [<-|]; [|done].
    rewrite vget_ge by lia. cbn. by destruct (4 <=? _).
Qed.

(** ** Which register reads which field *)

Definition field_window (f : BitField) (o : Z) : bool :=
  match f with
  | Group => in_range 0x80 0x100 o
  | Enable => in_range 0x100 0x200 o
  | Pending => in_range 0x200 0x300 o
  end.

(** Decide the guards of a register match whose outcome the context fixes. *)
Ltac offs :=
  repeat match goal with
  | |- context [in_range ?a ?b ?x] =>
      first [ rewrite (proj2 (in_range_false a b x)) by lia
            | rewrite (proj2 (in_range_spec a b x)) by lia ]
  | |- context [?x =? ?c] =>
      first [ rewrite (proj2 (Z.eqb_neq x c)) by lia
            | rewrite (proj2 (Z.eqb_eq x c)) by lia ]
  end; cbn [orb andb].

Lemma dist_read_ext d d' o :
  (o = 0 -> d_ctlr d = d_ctlr d') -> num_irqs d = num_irqs d' ->
  (0x80 <= o < 0x100 -> group1 d = group1 d') ->
  (0x100 <= o < 0x200 -> enabled d = enabled d') ->
  (0x200 <= o < 0x300 -> pending d = pending d') ->
  (0x400 <= o < 0x800 -> priority d = priority d') ->
  (0xC00 <= o < 0xD00 -> edge d = edge d') ->
  (0x6000 <= o < 0x8000 -> routes d = routes d') ->
  dist_read d o = dist_read d' o.
Proof.
  intros Hc Hn Hg He Hp Hpr Hed Hr. unfold dist_read.
  repeat (case_match;
    [rewrite ?in_range_spec, ?Z.eqb_eq in *; unfold read_priority, read_cfgr, router;
     first [rewrite Hc by lia|rewrite Hn|rewrite Hg by lia|rewrite He by lia|rewrite Hp by lia
           |rewrite Hpr by lia|rewrite Hed by lia|rewrite Hr by lia|idtac]; reflexivity|]).
  reflexivity.
Qed.

Lemma read_field f g d o :
  field_window f o = true ->
  dist_read (field_upd f g d) o = read_bitmap (g (field_get f d)) (o mod 0x80).
Proof.
  intros Hw. unfold dist_read.
  assert (0x80 <= o < 0x300) by (destruct f; apply in_range_spec in Hw; lia).
  destruct f; cbn [field_window] in Hw; apply in_range_spec in Hw.
  - destruct (Z.ltb_spec o 0x180); offs; cbn; f_equal; Z.div_mod_to_equations; lia.
  - offs; cbn; f_equal; Z.div_mod_to_equations; lia.
  - destruct (Z.ltb_spec o 0x280); offs; cbn; f_equal; Z.div_mod_to_equations; lia.
Qed.

Lemma read_field_other f g d o :
  field_window f o = false -> dist_read (field_upd f g d) o = dist_read d o.
Proof.
  intros Hw. apply dist_read_ext; destruct f; cbn [field_window] in Hw;
    apply in_range_false in Hw; intros; (lia || reflexivity).
Qed.

Lemma read_field_get f d o :
  field_window f o = true -> dist_read d o = read_bitmap (field_get f d) (o mod 0x80).
Proof.
  intros Hw. transitivity (dist_read (field_upd f (fun l => l) d) o).
  - by destruct f, d.
  - by apply read_field.
Qed.

Lemma read_prio_window d o :
  0x400 <= o < 0x800 -> dist_read d o = read_priority d (o - 0x400).
Proof. intros. unfold dist_read. offs. reflexivity. Qed.

Lemma read_cfgr_window d o :
  0xC00 <= o < 0xD00 -> dist_read d o = read_cfgr d (o - 0xC00).
Proof. intros. unfold dist_read. offs. reflexivity. Qed.

Lemma read_router_window d o :
  0x6000 <= o < 0x8000 -> dist_read d o = router_word d (o - 0x6000).
Proof.
  intros. unfold dist_read, router_word. offs.
  assert (u32 ((o - 0x6000) / 8) = (o - 0x6000) / 8) as -> by word_lia. done.
Qed.

Lemma read_prio_other l d o :
  ~ 0x400 <= o < 0x800 -> dist_read (set_priority l d) o = dist_read d o.
Proof. intros. apply dist_read_ext; intros; (lia || reflexivity). Qed.

Lemma read_edge_other l d o :
  ~ 0xC00 <= o < 0xD00 -> dist_read (set_edge l d) o = dist_read d o.
Proof. intros. apply dist_read_ext; intros; (lia || reflexivity). Qed.

Lemma read_routes_other l d o :
  ~ 0x6000 <= o < 0x8000 -> dist_read (set_routes l d) o = dist_read d o.
Proof. intros. apply dist_read_ext; intros; (lia || reflexivity). Qed.

Lemma read_ctlr_other v d o : o <> 0 -> dist_read (set_ctlr v d) o = dist_read d o.
Proof. intros. apply dist_read_ext; intros; (lia || reflexivity). Qed.

(** ** The register file a guest sees *)

(** Two word offsets that name the same state: equal, or the set and clear
    registers of one enable or pending word. *)
Definition gicd_alias (o o' : Z) : bool :=
  (o =? o') ||
  (((o / 0x100 =? 1) || (o / 0x100 =? 2)) && (o / 0x100 =? o' / 0x100) && (o mod 0x80 =? o' mod 0x80)).

(** What a read returns after [v] was written to word [o]. *)
Definition gicd_after (d : Distributor) (o v : Z) : Z :=
  if o =? 0 then Z.lor v 0x30
  else if in_range 0x80 0x180 o || in_range 0x200 0x280 o then
    if o mod 0x80 / 4 * 32 <? num_irqs d then Z.lor (dist_read d o) v else 0
  else if in_range 0x180 0x200 o || in_range 0x280 0x300 o then Z.ldiff (dist_read d o) v
  else if in_range 0x400 0x800 o then if o - 0x400 <? num_irqs d then v else 0
  else if in_range 0xC00 0xD00 o then
    if (o - 0xC00) / 4 * 16 <? num_irqs d then Z.land v 0xAAAAAAAA else 0
  else if in_range 0x6000 0x8000 o then if (o - 0x6000) / 8 <? num_irqs d then v else 0
  else dist_read d o.

(** The set and clear writes of a bitmap word. *)
Lemma bitmap_write_read f d (set : bool) o v o' :
  dist_wf d -> num_irqs d mod 32 = 0 -> 0 <= o -> o mod 4 = 0 -> o' mod 4 = 0 -> is_u32 v ->
  field_window f o = true ->
  dist_read (write_bitmap_set f (o mod 0x80) v set d) o' =
  if field_window f o' && (o mod 0x80 =? o' mod 0x80)
  then if set
       then if o mod 0x80 / 4 * 32 <? num_irqs d then Z.lor (dist_read d o) v else 0
       else Z.ldiff (dist_read d o) v
  else dist_read d o'.
Proof.
  intros Hwf Hm Ho Ha Ha' Hv Hw. rewrite write_bitmap_set_eq.
  assert (0 <= o mod 0x80) by (apply Z.mod_pos_bound; lia).
  destruct (field_window f o') eqn:Hw'; cbn [andb]; [|by apply read_field_other].
  rewrite read_field by done. rewrite (read_field_get f d o), (read_field_get f d o') by done.
  pose proof (wf_field d f Hwf) as Hl.
  assert ((o mod 0x80 / 4 =? o' mod 0x80 / 4) = (o mod 0x80 =? o' mod 0x80)) as E.
  { apply eq_true_iff_eq. rewrite !Z.eqb_eq. Z.div_mod_to_equations; lia. }
  destruct set.
  - rewrite word_after_set, Hl, E by (done || by rewrite Hl).
    destruct (Z.eqb_spec (o mod 0x80) (o' mod 0x80)) as [->|]; done.
  - rewrite word_after_clear, E by done.
    destruct (Z.eqb_spec (o mod 0x80) (o' mod 0x80)) as [->|]; done.
Qed.

(** A write to the set register at [base] or the clear register at
    [base + 0x80] of one bitmap. *)
Lemma alias_window f o o' :
  0 <= o -> 0 <= o' -> o mod 4 = 0 -> o' mod 4 = 0 -> field_window f o = true ->
  field_window f o' && (o mod 0x80 =? o' mod 0x80) = gicd_alias o o'.
Proof.
  intros Ho Ho' Ha Ha' Hw. apply eq_true_iff_eq. unfold gicd_alias.
  rewrite orb_true_iff, !andb_true_iff, orb_true_iff, !Z.eqb_eq.
  destruct f; cbn [field_window] in *; apply in_range_spec in Hw; rewrite in_range_spec;
    Z.div_mod_to_equations; lia.
Qed.

Lemma gicd_alias_high o o' :
  0 <= o -> ~ 0x100 <= o < 0x300 -> gicd_alias o o' = (o =? o').
Proof.
  intros Ho H. unfold gicd_alias. apply eq_true_iff_eq.
  rewrite orb_true_iff, !andb_true_iff, orb_true_iff, !Z.eqb_eq. Z.div_mod_to_equations; lia.
Qed.

Section ReadBack.
Context (d : Distributor) (o v o' : Z).
Context (Hwf : dist_wf d) (Hm : num_irqs d mod 32 = 0).
Context (Ho : 0 <= o) (Ho' : 0 <= o') (Ha : o mod 4 = 0) (Ha' : o' mod 4 = 0) (Hv : is_u32 v).

Lemma bitmap_read_back f (set : bool) :
  field_window f o = true ->
  dist_read (write_bitmap_set f (o mod 0x80) v set d) o' =
  if gicd_alias o o'
  then if set
       then if o mod 0x80 / 4 * 32 <? num_irqs d then Z.lor (dist_read d o) v else 0
       else Z.ldiff (dist_read d o) v
  else dist_read d o'.
Proof. intros Hw. rewrite bitmap_write_read by done. by rewrite (alias_window f). Qed.

Lemma priority_read_back :
  0x400 <= o < 0x800 ->
  dist_read (write_priority (o - 0x400) v d) o' =
  if o =? o' then if o - 0x400 <? num_irqs d then v else 0 else dist_read d o'.
Proof.
  intros Hw. pose proof (wf_priority d Hwf) as Hl.
  destruct (decide (0x400 <= o' < 0x800)).
  - rewrite !read_prio_window by done.
    rewrite priority_after_write by (try rewrite Hl; done || lia || (Z.div_mod_to_equations; lia)).
    rewrite Hl. replace (o - 0x400 =? o' - 0x400) with (o =? o')
      by (apply eq_true_iff_eq; rewrite !Z.eqb_eq; lia). done.
  - rewrite write_priority_eq, read_prio_other by done. by rewrite (proj2 (Z.eqb_neq _ _)) by lia.
Qed.

Lemma cfgr_read_back :
  0xC00 <= o < 0xD00 ->
  dist_read (write_cfgr (o - 0xC00) v d) o' =
  if o =? o' then if (o - 0xC00) / 4 * 16 <? num_irqs d then Z.land v 0xAAAAAAAA else 0
  else dist_read d o'.
Proof.
  intros Hw. pose proof (wf_edge d Hwf) as Hl.
  destruct (decide (0xC00 <= o' < 0xD00)).
  - rewrite !read_cfgr_window by done.
    rewrite cfgr_after_write by (try rewrite Hl; done || lia).
    rewrite Hl. replace ((o - 0xC00) / 4 =? (o' - 0xC00) / 4) with (o =? o')
      by (apply eq_true_iff_eq; rewrite !Z.eqb_eq; Z.div_mod_to_equations; lia). done.
  - rewrite write_cfgr_eq, read_edge_other by done. by rewrite (proj2 (Z.eqb_neq _ _)) by lia.
Qed.

Lemma router_read_back :
  0x6000 <= o < 0x8000 ->
  dist_read (write_router (o - 0x6000) v d) o' =
  if o =? o' then if (o - 0x6000) / 8 <? num_irqs d then v else 0 else dist_read d o'.
Proof.
  intros Hw. destruct (decide (0x6000 <= o' < 0x8000)).
  - rewrite !read_router_window by done.
    rewrite router_after_write by (done || lia || (Z.div_mod_to_equations; lia)).
    replace (o - 0x6000 =? o' - 0x6000) with (o =? o')
      by (apply eq_true_iff_eq; rewrite !Z.eqb_eq; lia). done.
  - rewrite (proj2 (Z.eqb_neq _ _)) by lia. unfold write_router. case_match; [|done].
    by apply read_routes_other.
Qed.

Ltac bits_branch o base f :=
  offs; replace (o - base) with (o mod 0x80) by (Z.div_mod_to_equations; lia);
  rewrite (bitmap_read_back f) by (cbn [field_window]; apply in_range_spec; lia); reflexivity.

Lemma dist_write_read_gen :
  dist_read (dist_write d o v) o' =
  if gicd_alias o o' then gicd_after d o v else dist_read d o'.
Proof.
  unfold dist_write, gicd_after.
  destruct (Z.eqb_spec o 0) as [->|].
  { rewrite gicd_alias_high by lia. destruct (Z.eqb_spec 0 o') as [<-|]; [|by apply read_ctlr_other].
    unfold dist_read. cbn [Z.eqb set_ctlr d_ctlr]. by rewrite <- Z.lor_assoc. }
  destruct (decide (0x80 <= o < 0x300)) as [Hr|Hr].
  - destruct (decide (o < 0x100)); [bits_branch o 0x80 Group|].
    destruct (decide (o < 0x180)); [bits_branch o 0x100 Enable|].
    destruct (decide (o < 0x200)); [bits_branch o 0x180 Enable|].
    destruct (decide (o < 0x280)); [bits_branch o 0x200 Pending|bits_branch o 0x280 Pending].
  - rewrite gicd_alias_high by lia.
    destruct (decide (0x400 <= o < 0x800)); [offs; by apply priority_read_back|].
    destruct (decide (0xC00 <= o < 0xD00)); [offs; by apply cfgr_read_back|].
    destruct (decide (0x6000 <= o < 0x8000)); [offs; by apply router_read_back|].
    rewrite !(proj2 (in_range_false _ _ _)) by lia. cbn [orb].
    by destruct (Z.eqb_spec o o') as [<-|].
Qed.

End ReadBack.

(** ** The invariant *)

Lemma next_multiple_range n : is_u32 n -> 0 <= next_multiple_of_32 n.
Proof. intros. unfold next_multiple_of_32. destruct (_ =? _); word_lia. Qed.

Lemma dist_new_wf n : is_u32 n -> dist_wf (dist_new n).
Proof.
  intros Hn. unfold dist_new. set (k := Z.max 32 _).
  assert (32 <= k <= INTID_LIMIT) by (subst k; unfold INTID_LIMIT; lia).
  constructor; cbn [num_irqs d_ctlr enabled group1 priority pending edge routes];
    rewrite ?length_replicate; try lia; try (unfold is_u32; lia); unfold INTID_LIMIT in *.
  - intros i p Hp. apply vget_Some in Hp as [_ Hp]. apply lookup_replicate in Hp as [-> _].
    unfold is_u8. lia.
  - intros i p Hp. apply vget_Some in Hp as [_ Hp]. apply lookup_replicate in Hp as [-> _].
    unfold is_u64. lia.
Qed.

Lemma field_upd_wf f g d :
  (forall l, length (g l) = length l) -> dist_wf d -> dist_wf (field_upd f g d).
Proof. intros Hg []. destruct f; constructor; cbn; rewrite ?Hg; done. Qed.

Lemma set_priority_wf l d :
  length l = length (priority d) -> (forall i p, vget l i = Some p -> is_u8 p) ->
  dist_wf d -> dist_wf (set_priority l d).
Proof. intros Hl Hp []. constructor; cbn; rewrite ?Hl; done. Qed.

Lemma set_edge_wf l d :
  length l = length (edge d) -> dist_wf d -> dist_wf (set_edge l d).
Proof. intros Hl []. constructor; cbn; rewrite ?Hl; done. Qed.

Lemma set_routes_wf l d :
  length l = length (routes d) -> (forall i p, vget l i = Some p -> is_u64 p) ->
  dist_wf d -> dist_wf (set_routes l d).
Proof. intros Hl Hp []. constructor; cbn; rewrite ?Hl; done. Qed.

Lemma vget_vset_inv {A} (l : list A) i x j y :
  vget (vset i x l) j = Some y -> y = x \/ vget l j = Some y.
Proof. rewrite vget_vset. case_match; intros; simplify_eq; auto. Qed.

Lemma write_priority_wf o v d : 0 <= o -> dist_wf d -> dist_wf (write_priority o v d).
Proof.
  intros Ho Hwf. rewrite write_priority_eq. apply set_priority_wf; [apply length_scatter| |done].
  intros i p. rewrite vget_scatter by done. case_match; [|apply wf_priority_u8, Hwf].
  intros; simplify_eq. apply (wrap_range 8). lia.
Qed.

Lemma write_router_wf off v d :
  is_u32 v -> dist_wf d -> dist_wf (write_router off v d).
Proof.
  intros Hv Hwf. unfold write_router. destruct (vget (routes d) (off / 8)) as [cur|] eqn:Hc; [|done].
  pose proof (wf_routes_u64 d Hwf _ _ Hc) as Hcur.
  apply set_routes_wf; [apply length_vset| |done].
  intros i p [->|H]%vget_vset_inv; [|by apply (wf_routes_u64 d Hwf i)].
  rewrite half_low, half_high by done. unfold is_u32, is_u64 in *.
  case_match; word_lia.
Qed.

Lemma dist_write_wf d o v : is_u32 v -> dist_wf d -> dist_wf (dist_write d o v).
Proof.
  intros Hv Hwf. unfold dist_write. rewrite !write_bitmap_set_eq.
  repeat case_match; rewrite ?in_range_spec in *;
    try (apply field_upd_wf; [intros; apply length_scatter|done]); try done.
  - destruct Hwf. by constructor.
  - apply write_priority_wf; [lia|done].
  - rewrite write_cfgr_eq. by apply set_edge_wf; [apply length_scatter|].
  - by apply write_router_wf.
Qed.

Lemma dist_seed_reg_wf d r : is_u64 r.2 -> dist_wf d -> dist_wf (dist_seed_reg d r).
Proof.
  destruct r as [o v]. cbn [snd]. intros Hv Hwf. unfold dist_seed_reg. rewrite !seed_bitmap_eq.
  repeat case_match; rewrite ?in_range_spec in *;
    try (apply field_upd_wf; [intros; apply length_scatter|done]); try done.
  - destruct Hwf. constructor; try done. apply (wrap_range 32). lia.
  - apply write_priority_wf; [lia|done].
  - rewrite write_cfgr_eq. by apply set_edge_wf; [apply length_scatter|].
  - apply set_routes_wf; [apply length_vset| |done].
    intros i p [->|H']%vget_vset_inv; [done|]. by apply (wf_routes_u64 d Hwf i).
Qed.

(** What guests and devices do to a distributor. *)
Inductive dist_step : Distributor -> Distributor -> Prop :=
| step_mmio_write d o v : is_u32 v -> dist_step d (dist_write d o v)
| step_seed d regs : Forall (fun r => is_u64 r.2) regs -> dist_step d (dist_seed_from_kvm d regs)
| step_assert d i b d' : 0 <= i -> assert_spi d i = Ok (b, d') -> dist_step d d'
| step_clear d i : dist_step d (clear_pending d i).

Lemma assert_spi_ok d i :
  dist_wf d -> 0 <= i ->
  assert_spi d i =
  Ok (is_enabled d i, if i <? num_irqs d then field_upd Pending (vset i true) d else d).
Proof.
  intros Hwf Hi. unfold assert_spi, is_enabled. rewrite (wf_pending d Hwf).
  destruct (Z.leb_spec (num_irqs d) i).
  - rewrite (vget_ge (enabled d)) by (rewrite (wf_enabled d Hwf); lia).
    by rewrite (proj2 (Z.ltb_ge _ _)).
  - rewrite (proj2 (Z.ltb_lt _ _)) by done. cbn [field_upd enabled].
    destruct (vget_lt (enabled d) i) as (b & ->); [rewrite (wf_enabled d Hwf); lia|done].
Qed.

Lemma dist_step_wf d d' : dist_step d d' -> dist_wf d -> dist_wf d' /\ num_irqs d' = num_irqs d.
Proof.
  destruct 1 as [d o v Hv|d regs Hregs|d i b d' Hi Ha|d i]; intros Hwf.
  - split; [by apply dist_write_wf|]. unfold dist_write.
    rewrite !write_bitmap_set_eq, write_priority_eq, write_cfgr_eq. unfold write_router.
    repeat case_match; done.
  - revert d Hwf. induction Hregs as [|r regs Hr _ IH]; intros d Hwf; [done|].
    cbn [dist_seed_from_kvm foldl]. destruct (IH (dist_seed_reg d r)) as [H1 H2].
    { by apply dist_seed_reg_wf. }
    split; [done|]. etransitivity; [apply H2|]. destruct r as [o v]. unfold dist_seed_reg.
    rewrite !seed_bitmap_eq, write_priority_eq, write_cfgr_eq. repeat case_match; done.
  - rewrite assert_spi_ok in Ha by done. injection Ha as _ <-. case_match; [|done].
    split; [|done]. apply (field_upd_wf Pending (vset i true)); [intros; apply length_vset|done].
  - split; [|done]. apply (field_upd_wf Pending (vset i false)); [intros; apply length_vset|done].
Qed.

Lemma dist_steps_wf d d' :
  rtc dist_step d d' -> dist_wf d -> dist_wf d' /\ num_irqs d' = num_irqs d.
Proof.
  induction 1 as [d|d d1 d2 Hs _ IH]; intros Hwf; [done|].
  destruct (dist_step_wf _ _ Hs Hwf) as [Hwf1 <-]. by apply IH.
Qed.

(** ** Properties of the distributor *)

(** The distributor is the register file a GICv3 driver reads back. After
    a 32-bit write of [v] to word [o], a read of any word [o'] returns: the
    value the register class prescribes when [o'] names the same state (set
    registers or the bits in, clear registers take them out, ICFGR keeps its
    writable bits, priorities and routes are stored, words past the last
    modelled interrupt read zero), and the old value everywhere else. *)
Theorem gicd_write_read d o v o' :
  dist_wf d -> num_irqs d mod 32 = 0 ->
  0 <= o -> 0 <= o' -> o mod 4 = 0 -> o' mod 4 = 0 -> is_u32 v ->
  dist_read (dist_write d o v) o' =
  if gicd_alias o o' then gicd_after d o v else dist_read d o'.
Proof. intros. by apply dist_write_read_gen. Qed.

Lemma gicd_write_read_witness :
  dist_read (dist_write (dist_write dist_default 0x104 0xF0F0) 0x184 0xFF) 0x104 = 0xF000.
Proof.
  assert (dist_wf dist_default) by (apply dist_new_wf; unfold is_u32; lia).
  rewrite gicd_write_read; [vm_compute; reflexivity|..]; try reflexivity; try lia;
    try (unfold is_u32; lia).
  apply dist_write_wf; [unfold is_u32; lia|done].
Defined.

(** Every distributor reachable from a fresh one by guest writes, seeding
    from a snapshot, device assertions and acknowledgements keeps its vectors
    at the interrupt count it was built with; so asserting an interrupt never
    indexes out of range, marks exactly a modelled interrupt pending, and asks
    for delivery exactly when that interrupt is enabled. *)
Theorem dist_reachable_assert n d i :
  is_u32 n -> rtc dist_step (dist_new n) d -> 0 <= i ->
  num_irqs d = num_irqs (dist_new n) /\
  exists d', assert_spi d i = Ok (is_enabled d i, d') /\
    forall j, vget (pending d') j =
      if (i =? j) && (i <? num_irqs d) then Some true else vget (pending d) j.
Proof.
  intros Hn Hr Hi.
  assert (dist_wf d /\ num_irqs d = num_irqs (dist_new n)) as [Hwf Hnum].
  { apply (dist_steps_wf (dist_new n)); [done|by apply dist_new_wf]. }
  split; [done|]. eexists. split; [by apply assert_spi_ok|]. intros j.
  destruct (Z.ltb_spec i (num_irqs d)) as [Hlt|Hge]; [|by rewrite andb_false_r].
  cbn [field_upd pending]. rewrite vget_vset, (wf_pending d Hwf).
  by rewrite (proj2 (Z.leb_le 0 i)), (proj2 (Z.ltb_lt _ _)), !andb_true_r by done.
Qed.

Lemma dist_reachable_assert_witness :
  num_irqs (dist_write (dist_new 64) 0x104 1) = 64 /\
  exists d', assert_spi (dist_write (dist_new 64) 0x104 1) 32 = Ok (true, d') /\
    vget (pending d') 32 = Some true.
Proof.
  destruct (dist_reachable_assert 64 (dist_write (dist_new 64) 0x104 1) 32) as (H1 & d' & H2 & H3).
  - unfold is_u32. lia.
  - eapply rtc_l; [apply (step_mmio_write _ 0x104 1); unfold is_u32; lia|apply rtc_refl].
  - lia.
  - split; [reflexivity|]. exists d'. split; [rewrite H2; vm_compute; reflexivity|].
    rewrite H3. reflexivity.
Defined.
