(* ===== verification/VcpuRegs.v ===== *)
(** * KVM and HVF vCPU register state

    [src/hypervisor/src/hvf/translate.rs] up to [kvm_ingest], with the state
    records of [src/hypervisor/src/hvf/mod.rs]: the two register-file encodings
    of a vCPU and the translations between them. A [Vec] of pairs searched by
    id is an association list. *)

From Stdlib Require Import ZArith Lia Bool.
From stdpp Require Import base numbers list list_numbers option.
From S2P Require Import Prelude.

Definition KVM_REG_ARM64 : Z := 0x6000000000000000.
Definition KVM_REG_SIZE_U64 : Z := 0x0030000000000000.
Definition KVM_REG_ARM_CORE : Z := 0x00100000.
Definition KVM_REG_ARM64_SYSREG : Z := 0x00130000.
Definition KVM_REG_ARM_COPROC_MASK : Z := 0x0fff0000.
Definition SYSREG_ENC_MASK : Z := 0xffff.

Definition OFF_REGS0 : Z := 0.
Definition OFF_SP_EL0 : Z := 31 * 8.
Definition OFF_PC : Z := 32 * 8.
Definition OFF_PSTATE : Z := 33 * 8.
Definition OFF_SP_EL1 : Z := 34 * 8.
Definition OFF_ELR_EL1 : Z := 35 * 8.
Definition OFF_SPSR0 : Z := 36 * 8.
Definition OFF_FP_VREGS : Z := 336.

Definition SYSREG_SPSR_EL1 : Z := 0xc200.
Definition SYSREG_ELR_EL1 : Z := 0xc201.
Definition SYSREG_SP_EL0 : Z := 0xc208.
Definition SYSREG_SP_EL1 : Z := 0xe208.

Definition kvm_fp_vreg_offset (index : Z) : Z := OFF_FP_VREGS + index * 16.

Definition kvm_core_reg_id (byte_offset : Z) : Z :=
  Z.lor (Z.lor (Z.lor KVM_REG_ARM64 KVM_REG_SIZE_U64) KVM_REG_ARM_CORE) (byte_offset / 4).

Definition kvm_core_reg_offset (id : Z) : option Z :=
  let is_arm64 := Z.land id 0xff00000000000000 =? KVM_REG_ARM64 in
  let is_u64 := Z.land id KVM_REG_SIZE_U64 =? KVM_REG_SIZE_U64 in
  let is_core := Z.land id KVM_REG_ARM_COPROC_MASK =? KVM_REG_ARM_CORE in
  if is_arm64 && is_u64 && is_core then Some (Z.land id SYSREG_ENC_MASK * 4) else None.

Definition kvm_sysreg_id (enc16 : Z) : Z :=
  Z.lor (Z.lor (Z.lor KVM_REG_ARM64 KVM_REG_SIZE_U64) KVM_REG_ARM64_SYSREG) enc16.

Definition kvm_sysreg_to_hvf (id : Z) : option Z :=
  let is_arm64 := Z.land id 0xff00000000000000 =? KVM_REG_ARM64 in
  let is_u64 := Z.land id KVM_REG_SIZE_U64 =? KVM_REG_SIZE_U64 in
  let is_sysreg := Z.land id KVM_REG_ARM_COPROC_MASK =? KVM_REG_ARM64_SYSREG in
  if is_arm64 && is_u64 && is_sysreg then Some (u16 (Z.land id SYSREG_ENC_MASK)) else None.

Record VcpuFpState := mkFp {
  vregs : list (list Z);
  fpsr : Z;
  fpcr : Z;
}.

Record VcpuHvfState := mkHvf {
  gpr : list Z;
  pc : Z;
  cpsr : Z;
  sp_el1 : Z;
  sysregs : list (Z * Z);
  hvf_gic_icc : list (Z * Z);
  hvf_fp : option VcpuFpState;
  mp_state_running : bool;
}.

Record KvmArm64VcpuRegs := mkKvm {
  core : list (Z * Z);
  sys : list (Z * Z);
  kvm_gic_icc : list (Z * Z);
  kvm_fp : option VcpuFpState;
}.

(** [iter().find(|(i, _)| *i == id).map(|(_, v)| *v)]. *)
Definition assoc (id : Z) (l : list (Z * Z)) : option Z :=
  snd <$> List.find (fun p => fst p =? id) l.

Definition core_value (kvm : KvmArm64VcpuRegs) (id : Z) : option Z := assoc id (core kvm).

Definition sysreg_value (hvf : VcpuHvfState) (enc : Z) : option Z := assoc enc (sysregs hvf).

Definition HVF_SYSREGS_THAT_ARE_KVM_CORE : list Z :=
  [SYSREG_SP_EL0; SYSREG_ELR_EL1; SYSREG_SPSR_EL1; SYSREG_SP_EL1].

(** [if let Some(v) = o { vec.push((id, v)) }]. *)
Definition push_opt (id : Z) (o : option Z) : list (Z * Z) :=
  match o with Some v => [(id, v)] | None => [] end.

Definition gpr_entries (regs : list Z) : list (Z * Z) :=
  imap (fun i v => (kvm_core_reg_id (OFF_REGS0 + Z.of_nat i * 8), v)) regs.

Definition lower_to_kvm (hvf : VcpuHvfState) : KvmArm64VcpuRegs :=
  mkKvm
    (gpr_entries (gpr hvf) ++
     [(kvm_core_reg_id OFF_PC, pc hvf);
      (kvm_core_reg_id OFF_PSTATE, cpsr hvf);
      (kvm_core_reg_id OFF_SP_EL1, sp_el1 hvf)] ++
     push_opt (kvm_core_reg_id OFF_SP_EL0) (sysreg_value hvf SYSREG_SP_EL0) ++
     push_opt (kvm_core_reg_id OFF_ELR_EL1) (sysreg_value hvf SYSREG_ELR_EL1) ++
     push_opt (kvm_core_reg_id OFF_SPSR0) (sysreg_value hvf SYSREG_SPSR_EL1))
    ((fun p => (kvm_sysreg_id p.1, p.2)) <$>
     filter (fun p => p.1 ∉ HVF_SYSREGS_THAT_ARE_KVM_CORE) (sysregs hvf))
    ((fun p => (kvm_sysreg_id p.1, p.2)) <$> hvf_gic_icc hvf)
    (hvf_fp hvf).

Definition raise_pair (p : Z * Z) : option (Z * Z) :=
  (fun enc => (enc, p.2)) <$> kvm_sysreg_to_hvf p.1.

Definition raise_from_kvm (kvm : KvmArm64VcpuRegs) : VcpuHvfState :=
  let cv off := core_value kvm (kvm_core_reg_id off) in
  let sp_el1 := default 0 (cv OFF_SP_EL1) in
  mkHvf
    ((fun i => default 0 (cv (OFF_REGS0 + i * 8))) <$> seqZ 0 31)
    (default 0 (cv OFF_PC)) (default 0 (cv OFF_PSTATE)) sp_el1
    (omap raise_pair (sys kvm) ++
     push_opt SYSREG_SP_EL0 (cv OFF_SP_EL0) ++
     push_opt SYSREG_ELR_EL1 (cv OFF_ELR_EL1) ++
     push_opt SYSREG_SPSR_EL1 (cv OFF_SPSR0) ++
     [(SYSREG_SP_EL1, sp_el1)])
    (omap raise_pair (kvm_gic_icc kvm))
    (kvm_fp kvm) true.

(** ** Ingesting a serialized KVM vCPU

    [kvm_regs] and [kvm_one_reg] are structs of the [kvm-bindings] crate; the
    class lists the fields the ingest reads. *)

Class KvmRegs (T : Type) := {
  k_regs : T -> list Z;
  k_sp : T -> Z;
  k_pc : T -> Z;
  k_pstate : T -> Z;
  k_sp_el1 : T -> Z;
  k_elr_el1 : T -> Z;
  k_spsr0 : T -> Z;
  k_vregs : T -> list Z;
  k_fpsr : T -> Z;
  k_fpcr : T -> Z;
}.

(** [sys_regs]: the [(id, addr)] pairs of the [kvm_one_reg] list. *)
Definition from_kvm {T} `{KvmRegs T} (core_regs : T) (sys_regs : list (Z * Z)) : KvmArm64VcpuRegs :=
  mkKvm
    (gpr_entries (k_regs core_regs) ++
     [(kvm_core_reg_id OFF_SP_EL0, k_sp core_regs);
      (kvm_core_reg_id OFF_PC, k_pc core_regs);
      (kvm_core_reg_id OFF_PSTATE, k_pstate core_regs);
      (kvm_core_reg_id OFF_SP_EL1, k_sp_el1 core_regs);
      (kvm_core_reg_id OFF_ELR_EL1, k_elr_el1 core_regs);
      (kvm_core_reg_id OFF_SPSR0, k_spsr0 core_regs)])
    (omap (fun r => (fun _ => r) <$> kvm_sysreg_to_hvf r.1) sys_regs)
    []
    (Some (mkFp (le_bytes 16 <$> k_vregs core_regs) (k_fpsr core_regs) (k_fpcr core_regs))).

Definition kvm_to_hvf {T} `{KvmRegs T} (core_regs : T) (sys_regs : list (Z * Z)) : VcpuHvfState :=
  raise_from_kvm (from_kvm core_regs sys_regs).

(** ** Register ids *)

Lemma land_high_mask x m n : 0 <= n -> 0 <= x < 2 ^ n -> Z.land x (Z.shiftl m n) = 0.
Proof.
  intros Hn Hx. apply Z.bits_inj'. intros i Hi. rewrite Z.land_spec, Z.shiftl_spec, Z.bits_0 by done.
  destruct (Z.ltb_spec i n).
  - by rewrite (Z.testbit_neg_r m) by lia; rewrite andb_false_r.
  - by rewrite (testbit_high x n).
Qed.

Lemma land_field hi m x n :
  0 <= n -> 0 <= x < 2 ^ n ->
  Z.land (Z.lor (Z.shiftl hi n) x) (Z.shiftl m n) = Z.shiftl (Z.land hi m) n.
Proof.
  intros Hn Hx. rewrite Z.land_lor_distr_l, (land_high_mask x) by done.
  by rewrite Z.lor_0_r, Z.shiftl_land.
Qed.

Lemma land_low hi x n :
  0 <= n -> 0 <= x < 2 ^ n -> Z.land (Z.lor (Z.shiftl hi n) x) (Z.ones n) = x.
Proof.
  intros Hn Hx. rewrite Z.land_ones, lor_shiftl_add by done.
  rewrite Z.add_comm, Z.mod_add by (apply Z.pow_nonzero; lia). by apply Z.mod_small.
Qed.

Lemma core_id_val off :
  0 <= off < 2 ^ 18 -> kvm_core_reg_id off = 0x6030000000100000 + off / 4.
Proof.
  intros H. unfold kvm_core_reg_id.
  change (Z.lor (Z.lor KVM_REG_ARM64 KVM_REG_SIZE_U64) KVM_REG_ARM_CORE) with
    (Z.shiftl 0x60300000001 20).
  rewrite lor_shiftl_add by (Z.div_mod_to_equations; lia). done.
Qed.

Lemma sysreg_id_roundtrip enc : is_u16 enc -> kvm_sysreg_to_hvf (kvm_sysreg_id enc) = Some enc.
Proof.
  intros He. unfold kvm_sysreg_to_hvf, kvm_sysreg_id.
  change (Z.lor (Z.lor KVM_REG_ARM64 KVM_REG_SIZE_U64) KVM_REG_ARM64_SYSREG) with
    (Z.shiftl 0x603000000013 16).
  change 0xff00000000000000 with (Z.shiftl 0xff0000000000 16).
  change KVM_REG_SIZE_U64 with (Z.shiftl 0x003000000000 16).
  change KVM_REG_ARM_COPROC_MASK with (Z.shiftl 0x0fff 16).
  change SYSREG_ENC_MASK with (Z.ones 16).
  unfold is_u16 in He. rewrite !land_field, land_low by lia. cbn -[u16].
  unfold u16. by rewrite Z.mod_small.
Qed.

(** The offset an id names is the offset it was built from. *)
Lemma core_id_roundtrip off :
  0 <= off < 2 ^ 18 -> off mod 4 = 0 -> kvm_core_reg_offset (kvm_core_reg_id off) = Some off.
Proof.
  intros H Ha. unfold kvm_core_reg_offset, kvm_core_reg_id.
  change (Z.lor (Z.lor KVM_REG_ARM64 KVM_REG_SIZE_U64) KVM_REG_ARM_CORE) with
    (Z.shiftl 0x603000000010 16).
  change 0xff00000000000000 with (Z.shiftl 0xff0000000000 16).
  change KVM_REG_SIZE_U64 with (Z.shiftl 0x003000000000 16).
  change KVM_REG_ARM_COPROC_MASK with (Z.shiftl 0x0fff 16).
  change SYSREG_ENC_MASK with (Z.ones 16).
  rewrite !land_field, land_low by (Z.div_mod_to_equations; lia). cbn -[Z.div Z.mul].
  f_equal. Z.div_mod_to_equations; lia.
Qed.

(** ** Association lists *)

Lemma assoc_app_l id l k v : assoc id l = Some v -> assoc id (l ++ k) = Some v.
Proof.
  unfold assoc. induction l as [|p l IH]; cbn; [done|]. by destruct (_ =? _).
Qed.

Lemma assoc_app_r id l k : id ∉ l.*1 -> assoc id (l ++ k) = assoc id k.
Proof.
  unfold assoc. induction l as [|p l IH]; cbn; [done|].
  rewrite not_elem_of_cons. intros [? ?]. rewrite (proj2 (Z.eqb_neq _ _)) by congruence. by apply IH.
Qed.

Lemma assoc_None id l : id ∉ l.*1 -> assoc id l = None.
Proof. intros H. rewrite <- (app_nil_r l). by rewrite assoc_app_r. Qed.

Lemma assoc_elem id v l : NoDup l.*1 -> assoc id l = Some v <-> (id, v) ∈ l.
Proof.
  unfold assoc. induction l as [|[i w] l IH]; cbn; intros Hnd.
  - split; [done|]. intros H. inversion H.
  - inversion Hnd as [|? ? Hi Hnd']; subst. rewrite elem_of_cons.
    destruct (Z.eqb_spec i id) as [->|Hne]; cbn.
    + split; [by intros [= ->]; left|]. intros [[= ->]|Hin]; [done|]. contradict Hi.
      apply list_elem_of_fmap. by exists (id, v).
    + rewrite IH by done. split; [by right|]. intros [[= ? ?]|]; [congruence|done].
Qed.

Lemma assoc_gpr_entries regs i x k :
  Z.of_nat (length regs) <= 2 ^ 12 -> regs !! i = Some x ->
  assoc (kvm_core_reg_id (OFF_REGS0 + Z.of_nat i * 8)) (gpr_entries regs ++ k) = Some x.
Proof.
  intros Hl Hi. apply assoc_app_l. unfold gpr_entries. apply assoc_elem.
  - apply NoDup_alt. intros j1 j2 y H1 H2.
    rewrite list_lookup_fmap, list_lookup_imap in H1, H2.
    destruct (regs !! j1) as [v1|] eqn:E1, (regs !! j2) as [v2|] eqn:E2; cbn in H1, H2; try done.
    apply lookup_lt_Some in E1, E2. injection H1 as <-. injection H2 as H2. unfold OFF_REGS0 in H2.
    rewrite !core_id_val in H2 by lia. Z.div_mod_to_equations; lia.
  - apply list_elem_of_lookup. exists i. by rewrite list_lookup_imap, Hi.
Qed.

Lemma assoc_past_gprs regs off k :
  length regs = 31%nat -> 248 <= off < 2 ^ 18 ->
  assoc (kvm_core_reg_id off) (gpr_entries regs ++ k) = assoc (kvm_core_reg_id off) k.
Proof.
  intros Hl Ho. apply assoc_app_r. intros Hin.
  apply list_elem_of_fmap in Hin as ([i v] & E & Hin). cbn in E. subst i.
  apply list_elem_of_lookup in Hin as (i & Hi). unfold gpr_entries in Hi.
  rewrite list_lookup_imap in Hi. destruct (regs !! i) as [w|] eqn:Ew; [|done]. cbn in Hi.
  injection Hi as Hi _. apply lookup_lt_Some in Ew. unfold OFF_REGS0 in Hi.
  rewrite !core_id_val in Hi by lia. Z.div_mod_to_equations; lia.
Qed.

Lemma gprs_raised regs k :
  length regs = 31%nat ->
  ((fun i => default 0 (assoc (kvm_core_reg_id (OFF_REGS0 + i * 8)) (gpr_entries regs ++ k)))
     <$> seqZ 0 31) = regs.
Proof.
  intros Hl. apply list_eq. intros i. rewrite list_lookup_fmap.
  destruct (regs !! i) as [x|] eqn:Ei.
  - pose proof (lookup_lt_Some _ _ _ Ei). rewrite lookup_seqZ_lt, Z.add_0_l by lia.
    change (Some (default 0 (assoc (kvm_core_reg_id (OFF_REGS0 + Z.of_nat i * 8))
      (gpr_entries regs ++ k))) = Some x).
    by rewrite (assoc_gpr_entries _ _ x) by (done || lia).
  - apply lookup_ge_None in Ei. rewrite lookup_seqZ_ge by lia. done.
Qed.

(** ** Sets of system registers *)

Lemma raise_lowered l :
  Forall (fun p => is_u16 p.1) l ->
  omap raise_pair ((fun p => (kvm_sysreg_id p.1, p.2)) <$> l) = l.
Proof.
  induction 1 as [|[i v] l Hi _ IH]; cbn [fmap list_fmap]; [done|].
  change (omap raise_pair (?x :: ?k)) with
    (match raise_pair x with Some y => y :: omap raise_pair k | None => omap raise_pair k end).
  unfold raise_pair at 1. cbn [fst snd] in *. rewrite sysreg_id_roundtrip by done. cbn.
  f_equal. apply IH.
Qed.

Lemma elem_of_push_opt p id o : p ∈ push_opt id o <-> exists v, o = Some v /\ p = (id, v).
Proof.
  destruct o as [v|]; cbn.
  - rewrite list_elem_of_singleton. split; [by intros ->; exists v|]. by intros (? & [= ->] & ->).
  - split; [intros H; inversion H|]. by intros (? & ? & _).
Qed.

(** The lists of the two sides are one list up to order. *)
Lemma sysregs_permutation l sp :
  NoDup l.*1 -> assoc SYSREG_SP_EL1 l = Some sp ->
  filter (fun p => p.1 ∉ HVF_SYSREGS_THAT_ARE_KVM_CORE) l ++
  push_opt SYSREG_SP_EL0 (assoc SYSREG_SP_EL0 l) ++
  push_opt SYSREG_ELR_EL1 (assoc SYSREG_ELR_EL1 l) ++
  push_opt SYSREG_SPSR_EL1 (assoc SYSREG_SPSR_EL1 l) ++ [(SYSREG_SP_EL1, sp)] ≡ₚ l.
Proof.
  intros Hnd Hsp.
  assert (push_opt SYSREG_SP_EL1 (assoc SYSREG_SP_EL1 l) = [(SYSREG_SP_EL1, sp)]) as <- by by rewrite Hsp.
  assert (forall p id, p ∈ push_opt id (assoc id l) <-> p ∈ l /\ p.1 = id) as Hpush.
  { intros [i v] id. rewrite elem_of_push_opt. cbn. split.
    - intros (w & Hw & [= -> ->]). split; [by apply assoc_elem|done].
    - intros [Hin ->]. exists v. split; [by apply assoc_elem|done]. }
  assert (forall id, NoDup (push_opt id (assoc id l))) as Hone.
  { intros id. destruct (assoc id l); cbn; [apply NoDup_singleton|constructor]. }
  assert (NoDup l) as Hl by by eapply NoDup_fmap_1.
  apply NoDup_Permutation; [|done|].
  - repeat (apply list.NoDup_app; split_and!); try apply Hone; [by apply list.NoDup_filter|..].
    all: intros [i v] H1 H2; rewrite ?list_elem_of_filter, ?Hpush in H1;
      rewrite ?elem_of_app, ?Hpush in H2; cbn [fst] in H1, H2; clear Hpush Hone; destruct_and?; destruct_or?; destruct_and?; subst;
      try done.
    all: match goal with H : _ ∉ _ |- _ => apply H; unfold HVF_SYSREGS_THAT_ARE_KVM_CORE end;
      rewrite !elem_of_cons; auto 6.
  - intros [i v]. rewrite !elem_of_app, list_elem_of_filter, !Hpush. cbn.
    clear Hpush Hone. split; [tauto|]. intros Hin.
    destruct (decide (i ∈ HVF_SYSREGS_THAT_ARE_KVM_CORE)) as [Hc|Hc]; [|tauto].
    unfold HVF_SYSREGS_THAT_ARE_KVM_CORE in Hc. rewrite !elem_of_cons in Hc.
    destruct Hc as [->|[->|[->|[->|Hc]]]]; [tauto..|]. by apply not_elem_of_nil in Hc.
Qed.

Lemma Forall_filtered {A} (P Q : A -> Prop) `{forall x, Decision (Q x)} (l : list A) :
  Forall P l -> Forall P (filter Q l).
Proof. rewrite !Forall_elem. intros HP x [_ Hx]%list_elem_of_filter. by apply HP. Qed.

Lemma omap_refine {A B} (f : A -> option B) (g : A -> option A) (l : list A) :
  (forall r, g r ≫= f = f r) -> omap f (omap g l) = omap f l.
Proof.
  intros H. induction l as [|r l IH]; cbn; [done|]. rewrite <- (H r).
  destruct (g r) as [x|]; cbn; [|done]. destruct (f x); [by f_equal|done].
Qed.

(** Every pair of a KVM system-register list comes across under its encoding. *)
Lemma raise_ingested (sys_regs : list (Z * Z)) :
  omap raise_pair (omap (fun r => (fun _ => r) <$> kvm_sysreg_to_hvf r.1) sys_regs) =
  omap raise_pair sys_regs.
Proof.
  apply omap_refine. intros r. unfold raise_pair.
  destruct (kvm_sysreg_to_hvf r.1) eqn:E; cbn; [by rewrite E|done].
Qed.

(** ** Properties of the register translation *)

Definition demo_hvf : VcpuHvfState :=
  mkHvf (seqZ 100 31) 0x80000 0x3c5 0x9000
    [(0xc005, 1); (SYSREG_SP_EL0, 2); (SYSREG_SP_EL1, 0x9000); (SYSREG_ELR_EL1, 4)]
    [(0xc230, 0xf0)] None true.

(** Lowering an HVF vCPU to its KVM form and raising it again loses
    nothing. The general registers, PC, PSTATE, SP_EL1, the interrupt
    controller registers and the vector file come back equal, and the system
    registers come back as the same set, the ones KVM keeps in its core block
    included. *)
Theorem lower_raise_roundtrip hvf :
  length (gpr hvf) = 31%nat ->
  NoDup (sysregs hvf).*1 -> Forall (fun p => is_u16 p.1) (sysregs hvf) ->
  Forall (fun p => is_u16 p.1) (hvf_gic_icc hvf) ->
  sysreg_value hvf SYSREG_SP_EL1 = Some (sp_el1 hvf) ->
  let r := raise_from_kvm (lower_to_kvm hvf) in
  gpr r = gpr hvf /\ pc r = pc hvf /\ cpsr r = cpsr hvf /\ sp_el1 r = sp_el1 hvf /\
  sysregs r ≡ₚ sysregs hvf /\ hvf_gic_icc r = hvf_gic_icc hvf /\ hvf_fp r = hvf_fp hvf.
Proof.
  intros Hg Hnd Hs Hi Hsp r. subst r. unfold raise_from_kvm, core_value.
  cbn [gpr pc cpsr sp_el1 sysregs hvf_gic_icc hvf_fp lower_to_kvm core sys kvm_gic_icc kvm_fp].
  rewrite gprs_raised, !raise_lowered by (done || by apply Forall_filtered).
  rewrite !assoc_past_gprs by (done || (vm_compute; split; congruence)).
  destruct hvf as [g p c sp sr icc fp mp]. unfold sysreg_value in *.
  cbn [gpr pc cpsr sp_el1 sysregs hvf_gic_icc hvf_fp] in *. split_and!; try done.
  etransitivity; [|by apply (sysregs_permutation sr sp)].
  destruct (assoc SYSREG_SP_EL0 sr), (assoc SYSREG_ELR_EL1 sr), (assoc SYSREG_SPSR_EL1 sr); done.
Qed.

Lemma lower_raise_roundtrip_witness :
  sysregs (raise_from_kvm (lower_to_kvm demo_hvf)) ≡ₚ sysregs demo_hvf.
Proof.
  apply (lower_raise_roundtrip demo_hvf); try reflexivity.
  - cbn. apply (bool_decide_unpack (NoDup _)). reflexivity.
  - repeat constructor; cbn; (lia || (intros H; discriminate H)).
  - repeat constructor; cbn; (lia || (intros H; discriminate H)).
Defined.

(** Ingesting a serialized KVM vCPU gives the HVF state the same machine:
    every core field lands in the register that HVF names for it, the vector
    registers keep their 16 little-endian bytes, and a system register of the
    list comes across with its value under its 16-bit encoding. *)
Theorem kvm_ingest_faithful {T} `{KvmRegs T} (core_regs : T) (sys_regs : list (Z * Z)) :
  length (k_regs core_regs) = 31%nat ->
  let r := kvm_to_hvf core_regs sys_regs in
  gpr r = k_regs core_regs /\ pc r = k_pc core_regs /\ cpsr r = k_pstate core_regs /\
  sp_el1 r = k_sp_el1 core_regs /\
  sysregs r = omap raise_pair sys_regs ++
    [(SYSREG_SP_EL0, k_sp core_regs); (SYSREG_ELR_EL1, k_elr_el1 core_regs);
     (SYSREG_SPSR_EL1, k_spsr0 core_regs); (SYSREG_SP_EL1, k_sp_el1 core_regs)] /\
  (forall enc v, is_u16 enc -> (kvm_sysreg_id enc, v) ∈ sys_regs -> (enc, v) ∈ sysregs r) /\
  hvf_fp r = Some (mkFp (le_bytes 16 <$> k_vregs core_regs) (k_fpsr core_regs) (k_fpcr core_regs)).
Proof.
  intros Hg r.
  assert (sysregs r = omap raise_pair sys_regs ++
    [(SYSREG_SP_EL0, k_sp core_regs); (SYSREG_ELR_EL1, k_elr_el1 core_regs);
     (SYSREG_SPSR_EL1, k_spsr0 core_regs); (SYSREG_SP_EL1, k_sp_el1 core_regs)]) as Hs.
  { subst r. unfold kvm_to_hvf, raise_from_kvm, core_value. cbn [sysregs from_kvm core sys].
    rewrite raise_ingested, !assoc_past_gprs by (done || (vm_compute; split; congruence)). done. }
  split_and!; [| | | |done| |done].
  1-4: subst r; unfold kvm_to_hvf, raise_from_kvm, core_value; cbn [gpr pc cpsr sp_el1 from_kvm core].
  - by apply gprs_raised.
  - by rewrite assoc_past_gprs by (done || (vm_compute; split; congruence)).
  - by rewrite assoc_past_gprs by (done || (vm_compute; split; congruence)).
  - by rewrite assoc_past_gprs by (done || (vm_compute; split; congruence)).
  - intros enc v He Hin. rewrite Hs. apply elem_of_app. left. apply list_elem_of_omap.
    exists (kvm_sysreg_id enc, v). split; [done|]. unfold raise_pair. cbn [fst].
    by rewrite sysreg_id_roundtrip.
Qed.

(** A [kvm_regs] with the given general registers and zero elsewhere. *)
Definition demo_kvm_regs : KvmRegs (list Z) :=
  {| k_regs := fun l => l; k_sp := fun _ => 0; k_pc := fun _ => 0x80000; k_pstate := fun _ => 0x3c5;
     k_sp_el1 := fun _ => 0; k_elr_el1 := fun _ => 0; k_spsr0 := fun _ => 0;
     k_vregs := fun _ => replicate 32 0; k_fpsr := fun _ => 0; k_fpcr := fun _ => 0 |}.

Lemma kvm_ingest_faithful_witness :
  (0xc005, 7) ∈ sysregs (@kvm_to_hvf (list Z) demo_kvm_regs (seqZ 0 31) [(kvm_sysreg_id 0xc005, 7)]).
Proof.
  apply (@kvm_ingest_faithful (list Z) demo_kvm_regs (seqZ 0 31) [(kvm_sysreg_id 0xc005, 7)]).
  - reflexivity.
  - unfold is_u16. lia.
  - by left.
Defined.
