(* ===== verification/GicDump.v ===== *)
(** * KVM VGIC dumps

    [gic_ingest] of [src/hypervisor/src/hvf/translate.rs]: the CPU-interface,
    distributor and redistributor vectors a KVM snapshot carries, read into
    per-register writes and written back from the software GIC of [SoftGic].
    A loop that pushes onto a vector is the list it builds; a walk that reads
    a vector by a running index keeps the index explicit. *)

From Stdlib Require Import ZArith Lia Bool.
From stdpp Require Import base numbers list list_numbers option.
From S2P Require Import Prelude SoftGic VcpuRegs.

(** ** CPU interface *)

Definition ICC_SRE_EL1 : Z := 0xc665.
Definition ICC_CTLR_EL1 : Z := 0xc664.
Definition ICC_IGRPEN0_EL1 : Z := 0xc666.
Definition ICC_IGRPEN1_EL1 : Z := 0xc667.
Definition ICC_PMR_EL1 : Z := 0xc230.
Definition ICC_BPR0_EL1 : Z := 0xc643.
Definition ICC_BPR1_EL1 : Z := 0xc663.
Definition ICC_AP0R0_EL1 : Z := 0xc644.
Definition ICC_AP0R1_EL1 : Z := 0xc645.
Definition ICC_AP0R2_EL1 : Z := 0xc646.
Definition ICC_AP0R3_EL1 : Z := 0xc647.
Definition ICC_AP1R0_EL1 : Z := 0xc648.
Definition ICC_AP1R1_EL1 : Z := 0xc649.
Definition ICC_AP1R2_EL1 : Z := 0xc64a.
Definition ICC_AP1R3_EL1 : Z := 0xc64b.

Definition VGIC_ICC_ORDER : list Z :=
  [ICC_SRE_EL1; ICC_CTLR_EL1; ICC_IGRPEN0_EL1; ICC_IGRPEN1_EL1; ICC_PMR_EL1; ICC_BPR0_EL1;
   ICC_BPR1_EL1; ICC_AP0R0_EL1; ICC_AP0R1_EL1; ICC_AP0R2_EL1; ICC_AP0R3_EL1; ICC_AP1R0_EL1;
   ICC_AP1R1_EL1; ICC_AP1R2_EL1; ICC_AP1R3_EL1].

Definition is_ap_r1 (enc : Z) : bool := (enc =? ICC_AP0R1_EL1) || (enc =? ICC_AP1R1_EL1).

Definition is_ap_r2_or_r3 (enc : Z) : bool :=
  (enc =? ICC_AP0R2_EL1) || (enc =? ICC_AP0R3_EL1) || (enc =? ICC_AP1R2_EL1) ||
  (enc =? ICC_AP1R3_EL1).

Definition pribits_of (ctlr : Z) : Z := Z.land (Z.shiftr ctlr 8) 7 + 1.

Fixpoint icc_walk (pribits : Z) (icc order : list Z) (idx : Z) (out : list (Z * Z)) :
    option (list (Z * Z) * Z) :=
  match order with
  | [] => Some (out, idx)
  | enc :: order =>
      if is_ap_r1 enc && (pribits <? 6) then icc_walk pribits icc order idx out
      else if is_ap_r2_or_r3 enc && (pribits <? 7) then icc_walk pribits icc order idx out
      else v ← vget icc idx; icc_walk pribits icc order (idx + 1) (out ++ [(enc, v)])
  end.

Definition icc_to_hvf (icc : list Z) : option (list (Z * Z)) :=
  ctlr ← vget icc 1;
  '(out, idx) ← icc_walk (pribits_of ctlr) icc VGIC_ICC_ORDER 0 [];
  if idx =? Z.of_nat (length icc) then Some out else None.

Definition icc_from_hvf (icc : list (Z * Z)) : option (list Z) :=
  ctlr ← assoc ICC_CTLR_EL1 icc;
  let pribits := pribits_of ctlr in
  Some (omap (fun enc =>
    if is_ap_r1 enc && (pribits <? 6) then None
    else if is_ap_r2_or_r3 enc && (pribits <? 7) then None
    else Some (u32 (default 0 (assoc enc icc)))) VGIC_ICC_ORDER).

(** ** Distributor *)

Definition REG_SIZE : Z := 4.

Record DistReg := mkDistReg {
  dr_base : Z;
  dr_bpi : Z;
  dr_length : Z;
  dr_restore : bool;
}.

Definition VGIC_DIST_REGS : list DistReg :=
  [mkDistReg 0x0010 0 4 false;
   mkDistReg 0x0180 1 0 true;
   mkDistReg 0x0100 1 0 true;
   mkDistReg 0x0080 1 0 true;
   mkDistReg 0x6000 64 0 true;
   mkDistReg 0x0c00 2 0 true;
   mkDistReg 0x0280 1 0 true;
   mkDistReg 0x0200 1 0 true;
   mkDistReg 0x0380 1 0 true;
   mkDistReg 0x0300 1 0 true;
   mkDistReg 0x0400 8 0 true].

Definition dist_reg_words (reg : DistReg) (num_irq : Z) : Z :=
  if 0 <? dr_length reg then dr_length reg / REG_SIZE
  else
    let bits := u32 (dr_bpi reg * u32 (num_irq - SPI_BASE)) in
    let bytes := bits / 8 in
    let bytes := if bits mod 8 =? 0 then bytes else bytes + REG_SIZE in
    bytes / REG_SIZE.

Definition dist_total_words (num_irq : Z) : Z :=
  foldr Z.add 0 ((fun r => dist_reg_words r num_irq) <$> VGIC_DIST_REGS).

Definition num_irq_from_dist_len (len : Z) : option Z :=
  List.find (fun n => dist_total_words n =? len) ((fun k => k * 32) <$> seqZ 1 32).

Definition reg_start (reg : DistReg) : Z := dr_base reg + REG_SIZE * dr_bpi reg.

(** Iterations of [while w < words { ..; w += 2 }]. *)
Definition pair_count (words : Z) : nat := Z.to_nat ((words + 1) / 2).

(** The 64-bit loop of [dist_to_hvf]. *)
Fixpoint walk_pairs (n : nat) (dist : list Z) (restore : bool) (off idx : Z)
    (out : list (Z * Z)) : option (list (Z * Z) * Z) :=
  match n with
  | O => Some (out, idx)
  | S n =>
      lo ← vget dist idx;
      hi ← vget dist (idx + 1);
      let out := if restore then out ++ [(off, Z.lor lo (Z.shiftl hi 32))] else out in
      walk_pairs n dist restore (off + 8) (idx + 2) out
  end.

(** The 32-bit loop of [dist_to_hvf]. *)
Fixpoint walk_words (n : nat) (dist : list Z) (restore : bool) (off idx : Z)
    (out : list (Z * Z)) : option (list (Z * Z) * Z) :=
  match n with
  | O => Some (out, idx)
  | S n =>
      v ← vget dist idx;
      let out := if restore then out ++ [(off, v)] else out in
      walk_words n dist restore (off + REG_SIZE) (idx + 1) out
  end.

Fixpoint dist_walk (regs : list DistReg) (num_irq : Z) (dist : list Z) (idx : Z)
    (out : list (Z * Z)) : option (list (Z * Z) * Z) :=
  match regs with
  | [] => Some (out, idx)
  | reg :: regs =>
      let words := dist_reg_words reg num_irq in
      '(out, idx) ←
        (if dr_bpi reg =? 64
         then walk_pairs (pair_count words) dist (dr_restore reg) (reg_start reg) idx out
         else walk_words (Z.to_nat words) dist (dr_restore reg) (reg_start reg) idx out);
      dist_walk regs num_irq dist idx out
  end.

Definition dist_to_hvf (dist : list Z) : option (list (Z * Z)) :=
  num_irq ← num_irq_from_dist_len (Z.of_nat (length dist));
  '(out, idx) ← dist_walk VGIC_DIST_REGS num_irq dist 0 [];
  if idx =? Z.of_nat (length dist) then Some out else None.

(** The words one register contributes to the dump. *)
Definition dump_reg (d : Distributor) (reg : DistReg) : list Z :=
  let words := dist_reg_words reg (num_irqs d) in
  if dr_bpi reg =? 64 then
    seqZ SPI_BASE (Z.of_nat (pair_count words)) ≫= fun intid =>
      [u32 (router d intid); u32 (Z.shiftr (router d intid) 32)]
  else (fun k => dist_read d (reg_start reg + k * REG_SIZE)) <$> seqZ 0 words.

Definition dist_from_softgic (d : Distributor) : option (list Z) :=
  let out := VGIC_DIST_REGS ≫= dump_reg d in
  if bool_decide (num_irq_from_dist_len (Z.of_nat (length out)) = Some (num_irqs d))
  then Some out else None.

Definition reg_offsets (num_irq : Z) (reg : DistReg) : list Z :=
  let words := dist_reg_words reg num_irq in
  if negb (dr_restore reg) then []
  else if dr_bpi reg =? 64
  then (fun w => reg_start reg + w * 8) <$> seqZ 0 (Z.of_nat (pair_count words))
  else (fun k => reg_start reg + k * REG_SIZE) <$> seqZ 0 words.

Definition dist_capture_offsets (num_irq : Z) : list Z :=
  VGIC_DIST_REGS ≫= reg_offsets num_irq.

(** ** Redistributor *)

Record RdistReg := mkRdistReg { rr_base : Z; rr_length : Z }.

Definition VGIC_RDIST_REGS : list RdistReg :=
  [mkRdistReg 0x0010 4; mkRdistReg 0x0014 4; mkRdistReg 0x0070 8; mkRdistReg 0x0078 8;
   mkRdistReg 0x0000 4;
   mkRdistReg (GICR_SGI_OFFSET + 0x0080) 4; mkRdistReg (GICR_SGI_OFFSET + 0x0180) 4;
   mkRdistReg (GICR_SGI_OFFSET + 0x0100) 4; mkRdistReg (GICR_SGI_OFFSET + 0x0c00) 8;
   mkRdistReg (GICR_SGI_OFFSET + 0x0280) 4; mkRdistReg (GICR_SGI_OFFSET + 0x0200) 4;
   mkRdistReg (GICR_SGI_OFFSET + 0x0380) 4; mkRdistReg (GICR_SGI_OFFSET + 0x0300) 4;
   mkRdistReg (GICR_SGI_OFFSET + 0x0400) 32].

Definition redist_words_per_vcpu : Z :=
  foldr Z.add 0 ((fun r => rr_length r / REG_SIZE) <$> VGIC_RDIST_REGS).

Definition redist_rd_base_words : Z :=
  foldr Z.add 0 ((fun r => rr_length r / REG_SIZE) <$>
    filter (fun r => rr_base r < GICR_SGI_OFFSET) VGIC_RDIST_REGS).

Definition rdist_offsets (reg : RdistReg) : list Z :=
  (fun k => rr_base reg + k * REG_SIZE) <$> seqZ 0 (rr_length reg / REG_SIZE).

Fixpoint rdist_walk (offs : list (bool * Z)) (rdist : list Z) (idx : Z) (out : list (Z * Z)) :
    option (list (Z * Z)) :=
  match offs with
  | [] => Some out
  | (sgi, off) :: offs =>
      v ← vget rdist idx;
      rdist_walk offs rdist (idx + 1) (if sgi : bool then out ++ [(off, v)] else out)
  end.

(** The words of the walk, each with whether its register is in the SGI frame. *)
Definition rdist_plan : list (bool * Z) :=
  VGIC_RDIST_REGS ≫= fun reg =>
    (fun o => (GICR_SGI_OFFSET <=? rr_base reg, o)) <$> rdist_offsets reg.

Definition redist_to_hvf (rdist : list Z) : option (list (Z * Z)) :=
  if Z.of_nat (length rdist) =? redist_words_per_vcpu then rdist_walk rdist_plan rdist 0 []
  else None.

Definition redist_from_softgic (rd : Redistributor) : list Z :=
  VGIC_RDIST_REGS ≫= fun reg => redist_read rd <$> rdist_offsets reg.

Definition rdist_capture_offsets : list Z :=
  VGIC_RDIST_REGS ≫= fun reg =>
    if rr_base reg <? GICR_SGI_OFFSET then [] else rdist_offsets reg.

(** ** Facts: CPU interface *)

(** The registers KVM serializes for a priority width. *)
Definition kept (pribits enc : Z) : bool :=
  negb (is_ap_r1 enc && (pribits <? 6)) && negb (is_ap_r2_or_r3 enc && (pribits <? 7)).

Definition selected (pribits : Z) (order : list Z) : list Z :=
  filter (fun enc => kept pribits enc = true) order.

Arguments selected : simpl never.

Lemma selected_cons p enc order :
  selected p (enc :: order) =
  if kept p enc then enc :: selected p order else selected p order.
Proof. unfold selected. rewrite filter_cons. by destruct (kept p enc). Qed.

Lemma icc_walk_cons p icc enc order idx out :
  icc_walk p icc (enc :: order) idx out =
  if kept p enc then v ← vget icc idx; icc_walk p icc order (idx + 1) (out ++ [(enc, v)])
  else icc_walk p icc order idx out.
Proof. cbn [icc_walk]. unfold kept. by destruct (is_ap_r1 enc && _), (is_ap_r2_or_r3 enc && _). Qed.

Lemma vget_app_mid {A} (l : list A) x k : vget (l ++ x :: k) (Z.of_nat (length l)) = Some x.
Proof.
  unfold vget. rewrite length_app. cbn [length].
  rewrite (proj2 (Z.leb_le _ _)), (proj2 (Z.ltb_lt _ _)) by lia. cbn [andb].
  by rewrite Nat2Z.id, list_lookup_middle.
Qed.

Lemma icc_walk_complete p order pre vs post out :
  length vs = length (selected p order) ->
  icc_walk p (pre ++ vs ++ post) order (Z.of_nat (length pre)) out =
  Some (out ++ zip (selected p order) vs, Z.of_nat (length pre + length vs)).
Proof.
  revert pre vs out. induction order as [|enc order IH]; intros pre vs out Hl.
  - destruct vs; [|done]. cbn. by rewrite app_nil_r, Nat.add_0_r.
  - rewrite icc_walk_cons. rewrite selected_cons in *. destruct (kept p enc); [|by apply IH].
    destruct vs as [|v vs]; [done|]. cbn [app]. rewrite vget_app_mid. cbn [mbind option_bind].
    specialize (IH (pre ++ [v]) vs (out ++ [(enc, v)])).
    rewrite length_app in IH. cbn [length] in *.
    replace (Z.of_nat (length pre + 1)) with (Z.of_nat (length pre) + 1) in IH by lia.
    rewrite <- app_assoc in IH. cbn [app] in IH. rewrite IH by lia.
    rewrite <- app_assoc. cbn. do 2 f_equal. lia.
Qed.

Lemma icc_walk_sound p icc order idx out out' idx' :
  icc_walk p icc order idx out = Some (out', idx') -> 0 <= idx <= Z.of_nat (length icc) ->
  idx' = idx + Z.of_nat (length (selected p order)) /\ idx' <= Z.of_nat (length icc).
Proof.
  revert idx out. induction order as [|enc order IH]; intros idx out H Hi.
  - change (selected p []) with (@nil Z). cbn in *. simplify_eq. lia.
  - rewrite icc_walk_cons in H. rewrite selected_cons. destruct (kept p enc); [|by apply (IH _ out)].
    destruct (vget icc idx) as [v|] eqn:Ev; [|done]. cbn [mbind option_bind] in H.
    apply vget_Some in Ev as [Hr _]. apply IH in H; [|lia]. cbn [length]. lia.
Qed.

Lemma omap_kept {A} p (f : Z -> A) order :
  omap (fun enc =>
    if is_ap_r1 enc && (p <? 6) then None
    else if is_ap_r2_or_r3 enc && (p <? 7) then None else Some (f enc)) order =
  f <$> selected p order.
Proof.
  induction order as [|enc order IH]; [done|]. rewrite selected_cons. cbn [omap list_omap].
  unfold kept. destruct (is_ap_r1 enc && _), (is_ap_r2_or_r3 enc && _); cbn; by rewrite <- IH.
Qed.

Lemma assoc_zip ks vs i k v :
  NoDup ks -> length ks = length vs -> ks !! i = Some k -> vs !! i = Some v ->
  assoc k (zip ks vs) = Some v.
Proof.
  intros Hnd Hl Hk Hv. apply assoc_elem.
  - change (NoDup (zip ks vs).*1). by rewrite fst_zip by lia.
  - apply list_elem_of_lookup. exists i. by rewrite lookup_zip_with, Hk, Hv.
Qed.

Lemma values_of_zip ks vs :
  NoDup ks -> length ks = length vs -> Forall is_u32 vs ->
  ((fun k => u32 (default 0 (assoc k (zip ks vs)))) <$> ks) = vs.
Proof.
  intros Hnd Hl Hu. apply list_eq. intros i. rewrite list_lookup_fmap.
  destruct (ks !! i) as [k|] eqn:Ek.
  - destruct (vs !! i) as [v|] eqn:Ev.
    + rewrite Forall_lookup in Hu. specialize (Hu _ _ Ev).
      change (Some (u32 (default 0 (assoc k (zip ks vs)))) = Some v).
      rewrite (assoc_zip ks vs i k v) by done. f_equal. by apply Z.mod_small.
    + apply lookup_lt_Some in Ek. apply lookup_ge_None in Ev. lia.
  - apply lookup_ge_None in Ek. symmetry. apply lookup_ge_None. lia.
Qed.

Lemma selected_NoDup p : NoDup (selected p VGIC_ICC_ORDER).
Proof.
  apply list.NoDup_filter. apply (bool_decide_unpack (NoDup VGIC_ICC_ORDER)). reflexivity.
Qed.

(** The control register is always the second one. *)
Lemma selected_ctlr p : selected p VGIC_ICC_ORDER !! 1%nat = Some ICC_CTLR_EL1.
Proof. done. Qed.

Lemma icc_walk_all p order icc :
  length icc = length (selected p order) ->
  icc_walk p icc order 0 [] = Some (zip (selected p order) icc, Z.of_nat (length icc)).
Proof.
  intros Hl. pose proof (icc_walk_complete p order [] icc [] [] Hl) as Hc.
  cbn [app length] in Hc. by rewrite app_nil_r in Hc.
Qed.

Lemma icc_walk_exact p order icc out :
  icc_walk p icc order 0 [] = Some (out, Z.of_nat (length icc)) ->
  length icc = length (selected p order) /\ out = zip (selected p order) icc.
Proof.
  intros H. pose proof H as Hs. apply icc_walk_sound in Hs as [Hi _]; [|lia].
  assert (length icc = length (selected p order)) as Hl by lia.
  split; [done|]. rewrite icc_walk_all in H by done. by injection H.
Qed.

Lemma icc_to_hvf_zip icc out :
  icc_to_hvf icc = Some out ->
  exists ctlr, vget icc 1 = Some ctlr /\
    length icc = length (selected (pribits_of ctlr) VGIC_ICC_ORDER) /\
    out = zip (selected (pribits_of ctlr) VGIC_ICC_ORDER) icc.
Proof.
  unfold icc_to_hvf. generalize VGIC_ICC_ORDER. intros order.
  destruct (vget icc 1) as [ctlr|] eqn:Ec; [|done]. cbn [mbind option_bind].
  destruct (icc_walk _ _ _ _ _) as [[o idx]|] eqn:Ew; [|done]. cbn [mbind option_bind].
  destruct (Z.eqb_spec idx (Z.of_nat (length icc))) as [->|]; [|done]. intros [= <-].
  exists ctlr. split; [done|]. by apply icc_walk_exact.
Qed.

Lemma zip_icc_to_hvf icc ctlr :
  vget icc 1 = Some ctlr ->
  length icc = length (selected (pribits_of ctlr) VGIC_ICC_ORDER) ->
  icc_to_hvf icc = Some (zip (selected (pribits_of ctlr) VGIC_ICC_ORDER) icc).
Proof.
  unfold icc_to_hvf. generalize VGIC_ICC_ORDER. intros order Hc Hl.
  rewrite Hc. cbn [mbind option_bind]. rewrite icc_walk_all by done. cbn [mbind option_bind].
  by rewrite Z.eqb_refl.
Qed.

Lemma pribits_u32 ctlr : pribits_of (u32 ctlr) = pribits_of ctlr.
Proof.
  unfold pribits_of. f_equal. apply Z.bits_inj'. intros i Hi.
  rewrite !Z.land_spec, !Z.shiftr_spec by done. unfold u32. rewrite testbit_mod_pow2 by lia.
  destruct (Z.ltb_spec (i + 8) 32); [done|].
  by rewrite (testbit_high 7 3 i), !andb_false_r by lia.
Qed.

(** ** Properties of the CPU-interface vector *)

Definition demo_icc : list (Z * Z) :=
  [(ICC_PMR_EL1, 0xf0); (ICC_CTLR_EL1, 0x400); (ICC_IGRPEN1_EL1, 1)].

(** The CPU-interface translations are inverse to each other. What the
    reader accepts the writer reproduces word for word; and what the writer
    emits the reader accepts, recovering every register KVM would have dumped
    for that priority width with its 32-bit value, zero where none was known. *)
Theorem icc_translations_inverse :
  (forall icc out, Forall is_u32 icc -> icc_to_hvf icc = Some out -> icc_from_hvf out = Some icc) /\
  (forall x ctlr, assoc ICC_CTLR_EL1 x = Some ctlr ->
    exists icc out, icc_from_hvf x = Some icc /\ icc_to_hvf icc = Some out /\
      forall enc, enc ∈ selected (pribits_of ctlr) VGIC_ICC_ORDER ->
        assoc enc out = Some (u32 (default 0 (assoc enc x)))).
Proof.
  split.
  - intros icc out Hu H. apply icc_to_hvf_zip in H as (ctlr & Hc & Hl & ->).
    apply vget_Some in Hc as [_ Hc]. change (Z.to_nat 1) with 1%nat in Hc. unfold icc_from_hvf.
    rewrite (assoc_zip _ _ 1 _ ctlr (selected_NoDup _) (eq_sym Hl) (selected_ctlr _) Hc).
    cbn [mbind option_bind]. f_equal. rewrite omap_kept.
    apply values_of_zip; [apply selected_NoDup|done|done].
  - intros x ctlr Hc. unfold icc_from_hvf. rewrite Hc. cbn [mbind option_bind].
    rewrite omap_kept. set (sel := selected (pribits_of ctlr) VGIC_ICC_ORDER).
    set (icc := (fun enc => u32 (default 0 (assoc enc x))) <$> sel).
    assert (vget icc 1 = Some (u32 ctlr)) as H1.
    { apply (vget_of_lookup icc 1). subst icc sel.
      rewrite list_lookup_fmap, selected_ctlr. cbn. by rewrite Hc. }
    assert (length icc = length (selected (pribits_of (u32 ctlr)) VGIC_ICC_ORDER)) as Hl.
    { rewrite pribits_u32. apply length_fmap. }
    exists icc. eexists. split_and!; [done|by apply zip_icc_to_hvf|].
    rewrite pribits_u32 in *. intros enc Hin. apply list_elem_of_lookup in Hin as (i & Hi).
    apply (assoc_zip _ _ i); [apply selected_NoDup|done|done|].
    subst icc. by rewrite list_lookup_fmap, Hi.
Qed.

Lemma icc_translations_inverse_witness :
  exists icc out, icc_from_hvf demo_icc = Some icc /\ icc_to_hvf icc = Some out /\
    assoc ICC_PMR_EL1 out = Some 0xf0 /\ icc_from_hvf out = Some icc.
Proof.
  destruct icc_translations_inverse as [Hto Hfrom].
  destruct (Hfrom demo_icc 0x400 eq_refl) as (icc & out & H1 & H2 & H3).
  exists icc, out. split_and!; [exact H1|exact H2| |].
  - rewrite H3; [reflexivity|]. apply (bool_decide_unpack (_ ∈ _)). reflexivity.
  - apply Hto; [|exact H2]. vm_compute in H1. injection H1 as <-.
    apply (bool_decide_unpack (Forall (fun x => 0 <= x < 2 ^ 32) _)). vm_compute. reflexivity.
Defined.

(** ** Facts: the distributor walk *)

Fixpoint strided (step : Z) (n : nat) (off : Z) : list Z :=
  match n with
  | O => []
  | S n => off :: strided step n (off + step)
  end.

Lemma strided_seqZ step n off :
  (fun k => off + k * step) <$> seqZ 0 (Z.of_nat n) = strided step n off.
Proof.
  revert off. induction n as [|n IH]; intros off; [done|].
  rewrite seqZ_cons by lia. cbn [fmap list_fmap strided]. f_equal; [lia|]. rewrite <- IH.
  apply list_eq. intros i. rewrite !list_lookup_fmap.
  replace (Z.pred (Z.of_nat (S n))) with (Z.of_nat n) by lia.
  destruct (decide (i < n)%nat).
  - rewrite !lookup_seqZ_lt by lia. cbn. f_equal. lia.
  - rewrite !lookup_seqZ_ge by lia. done.
Qed.

Lemma elem_of_strided step n off o :
  o ∈ strided step n off <-> exists k, 0 <= k < Z.of_nat n /\ o = off + k * step.
Proof.
  rewrite <- strided_seqZ, list_elem_of_fmap. split.
  - intros (k & -> & Hk%elem_of_seqZ). exists k. split; [lia|done].
  - intros (k & Hk & ->). exists k. split; [done|]. apply elem_of_seqZ. lia.
Qed.

Lemma length_strided step n off : length (strided step n off) = n.
Proof. revert off. induction n as [|n IH]; intros; cbn; [done|]. by rewrite IH. Qed.

Lemma walk_words_dump n (f : Z -> Z) pre post restore off out :
  walk_words n (pre ++ (f <$> strided REG_SIZE n off) ++ post) restore off
    (Z.of_nat (length pre)) out =
  Some (out ++ (if restore : bool then (fun o => (o, f o)) <$> strided REG_SIZE n off else []),
        Z.of_nat (length pre + n)).
Proof.
  revert pre off out. induction n as [|n IH]; intros pre off out.
  - cbn. rewrite Nat.add_0_r. by destruct restore; rewrite app_nil_r.
  - cbn [walk_words strided fmap list_fmap app]. rewrite vget_app_mid. cbn [mbind option_bind].
    specialize (IH (pre ++ [f off]) (off + REG_SIZE)
      (if restore then out ++ [(off, f off)] else out)).
    rewrite length_app, <- app_assoc in IH. cbn [app length] in IH.
    replace (Z.of_nat (length pre) + 1) with (Z.of_nat (length pre + 1)) by lia. rewrite IH.
    f_equal. f_equal; [|lia]. destruct restore; [by rewrite <- app_assoc|done].
Qed.

Definition halves (v : Z) : list Z := [u32 v; u32 (Z.shiftr v 32)].

Lemma halves_join v : is_u64 v -> Z.lor (u32 v) (Z.shiftl (u32 (Z.shiftr v 32)) 32) = v.
Proof.
  intros Hv. rewrite Z.lor_comm, lor_shiftl_add by (try lia; apply Z.mod_pos_bound; lia).
  rewrite Z.shiftr_div_pow2 by lia. word_lia.
Qed.

Lemma walk_pairs_dump n (f : Z -> Z) pre post restore off out :
  (forall o, is_u64 (f o)) ->
  walk_pairs n (pre ++ (strided 8 n off ≫= fun o => halves (f o)) ++ post) restore off
    (Z.of_nat (length pre)) out =
  Some (out ++ (if restore : bool then (fun o => (o, f o)) <$> strided 8 n off else []),
        Z.of_nat (length pre + 2 * n)).
Proof.
  intros Hf. revert pre off out. induction n as [|n IH]; intros pre off out.
  - cbn. rewrite Nat.add_0_r. by destruct restore; rewrite app_nil_r.
  - cbn [walk_pairs strided mbind list_bind halves app fmap list_fmap].
    rewrite vget_app_mid. cbn [mbind option_bind].
    specialize (IH (pre ++ halves (f off)) (off + 8)
      (if restore then out ++ [(off, f off)] else out)).
    rewrite length_app, <- app_assoc in IH. cbn [halves app length mbind] in IH.
    replace (Z.of_nat (length pre) + 1) with (Z.of_nat (length (pre ++ [u32 (f off)])))
      by (rewrite length_app; cbn; lia).
    assert (forall k, pre ++ u32 (f off) :: u32 (Z.shiftr (f off) 32) :: k =
      (pre ++ [u32 (f off)]) ++ u32 (Z.shiftr (f off) 32) :: k) as Hs
      by (intros; by rewrite <- app_assoc).
    rewrite Hs at 1. rewrite vget_app_mid. cbn [mbind option_bind]. rewrite halves_join by done.
    replace (Z.of_nat (length pre) + 2) with (Z.of_nat (length pre + 2)) by lia. rewrite IH.
    f_equal. f_equal; [|lia]. destruct restore; [by rewrite <- app_assoc|done].
Qed.

(** What a dump holds for the register at [o]. *)
Definition dist_value (d : Distributor) (o : Z) : Z :=
  if in_range 0x6000 0x8000 o then router d ((o - 0x6000) / 8) else dist_read d o.

(** The registers of the walk: the router is the only 64-bit one. *)
Definition walkable (num_irq : Z) (reg : DistReg) : Prop :=
  0 <= dist_reg_words reg num_irq /\
  if dr_bpi reg =? 64 then dr_base reg = 0x6000 /\ dist_reg_words reg num_irq = 2 * (num_irq - 32)
  else reg_start reg + dist_reg_words reg num_irq * 4 <= 0x6000.

Lemma router_range d i : dist_wf d -> is_u64 (router d i).
Proof.
  intros Hwf. unfold router. destruct (vget (routes d) i) eqn:E; cbn.
  - by apply (wf_routes_u64 d Hwf i).
  - unfold is_u64. lia.
Qed.

Lemma dump_router_words d n :
  (seqZ SPI_BASE (Z.of_nat n) ≫= fun intid =>
     [u32 (router d intid); u32 (Z.shiftr (router d intid) 32)]) =
  (strided 8 n 0x6100 ≫= fun o => halves (router d ((o - 0x6000) / 8))).
Proof.
  rewrite <- strided_seqZ. unfold SPI_BASE.
  replace (seqZ 32 (Z.of_nat n)) with ((fun k => 32 + k * 1) <$> seqZ 0 (Z.of_nat n)).
  - unfold mbind. induction (seqZ 0 (Z.of_nat n)) as [|k l IH]; [done|].
    cbn [fmap list_fmap list_bind]. rewrite IH.
    replace ((0x6100 + k * 8 - 0x6000) / 8) with (32 + k * 1) by (Z.div_mod_to_equations; lia). done.
  - apply list_eq. intros i. rewrite list_lookup_fmap. destruct (decide (i < n)%nat).
    + rewrite !lookup_seqZ_lt by lia. cbn. f_equal. lia.
    + by rewrite !lookup_seqZ_ge by lia.
Qed.

Lemma length_pairs n off (f : Z -> Z) :
  length (strided 8 n off ≫= fun o => halves (f o)) = (2 * n)%nat.
Proof.
  revert off. induction n as [|n IH]; intros off; [done|]. specialize (IH (off + 8)).
  unfold mbind in *. cbn in *. lia.
Qed.

(** Pairing an offset list with values that agree on it. *)
Lemma paired_ext step n off (f g : Z -> Z) :
  (forall k, 0 <= k < Z.of_nat n -> f (off + k * step) = g (off + k * step)) ->
  (fun o => (o, f o)) <$> strided step n off = (fun o => (o, g o)) <$> strided step n off.
Proof.
  intros H. apply list_fmap_ext. intros i o Ho.
  assert (o ∈ strided step n off) as (k & Hk & ->)%elem_of_strided
    by (apply list_elem_of_lookup; by exists i).
  by rewrite H.
Qed.

Section DumpReg.
Context (d : Distributor) (reg : DistReg) (pre post : list Z) (out : list (Z * Z)).
Context (Hwf : dist_wf d) (Hwalk : walkable (num_irqs d) reg).

Lemma dump_router_walk :
  dr_bpi reg = 64 ->
  walk_pairs (pair_count (dist_reg_words reg (num_irqs d))) (pre ++ dump_reg d reg ++ post)
    (dr_restore reg) (reg_start reg) (Z.of_nat (length pre)) out =
  Some (out ++ ((fun o => (o, dist_value d o)) <$> reg_offsets (num_irqs d) reg),
        Z.of_nat (length pre + length (dump_reg d reg))).
Proof.
  intros H64. destruct Hwalk as [Hn Hw]. unfold dump_reg, reg_offsets. rewrite H64 in *.
  cbn [Z.eqb Pos.eqb] in *. destruct Hw as [Hb Hw].
  set (n := pair_count _). assert (Z.of_nat n <= 992).
  { pose proof (wf_num d Hwf). subst n. unfold pair_count, INTID_LIMIT in *.
    rewrite Z2Nat.id; Z.div_mod_to_equations; lia. }
  assert (reg_start reg = 0x6100) as -> by (unfold reg_start, REG_SIZE; lia).
  rewrite dump_router_words, length_pairs.
  rewrite (walk_pairs_dump n (fun o => router d ((o - 0x6000) / 8)))
    by (intros; by apply router_range).
  do 3 f_equal. destruct (dr_restore reg); cbn [negb]; [|done]. rewrite strided_seqZ.
  apply paired_ext. intros k Hk. unfold dist_value.
  by rewrite (proj2 (in_range_spec 0x6000 0x8000 (0x6100 + k * 8))) by lia.
Qed.

Lemma dump_words_walk :
  dr_bpi reg <> 64 ->
  walk_words (Z.to_nat (dist_reg_words reg (num_irqs d))) (pre ++ dump_reg d reg ++ post)
    (dr_restore reg) (reg_start reg) (Z.of_nat (length pre)) out =
  Some (out ++ ((fun o => (o, dist_value d o)) <$> reg_offsets (num_irqs d) reg),
        Z.of_nat (length pre + length (dump_reg d reg))).
Proof.
  intros H64. destruct Hwalk as [Hn Hw]. unfold dump_reg, reg_offsets.
  rewrite (proj2 (Z.eqb_neq _ _)) in * by done.
  destruct (Z_of_nat_complete (dist_reg_words reg (num_irqs d)) Hn) as (n & En). rewrite En in *.
  rewrite Nat2Z.id, length_fmap, length_seqZ, Nat2Z.id.
  change (fun k => dist_read d (reg_start reg + k * REG_SIZE)) with
    (dist_read d ∘ (fun k => reg_start reg + k * REG_SIZE)).
  rewrite list_fmap_compose, strided_seqZ, walk_words_dump. do 3 f_equal.
  destruct (dr_restore reg); cbn [negb]; [|done]. apply paired_ext. intros k Hk.
  unfold dist_value, REG_SIZE in *. rewrite (proj2 (in_range_false 0x6000 0x8000 _)); [done|]. lia.
Qed.

Lemma dump_reg_walk :
  (let words := dist_reg_words reg (num_irqs d) in
   if dr_bpi reg =? 64
   then walk_pairs (pair_count words) (pre ++ dump_reg d reg ++ post) (dr_restore reg)
          (reg_start reg) (Z.of_nat (length pre)) out
   else walk_words (Z.to_nat words) (pre ++ dump_reg d reg ++ post) (dr_restore reg)
          (reg_start reg) (Z.of_nat (length pre)) out) =
  Some (out ++ ((fun o => (o, dist_value d o)) <$> reg_offsets (num_irqs d) reg),
        Z.of_nat (length pre + length (dump_reg d reg))).
Proof.
  cbv zeta. destruct (Z.eqb_spec (dr_bpi reg) 64);
    [by apply dump_router_walk|by apply dump_words_walk].
Qed.

End DumpReg.

Lemma dist_walk_dump d regs pre post out :
  dist_wf d -> Forall (walkable (num_irqs d)) regs ->
  dist_walk regs (num_irqs d) (pre ++ (regs ≫= dump_reg d) ++ post) (Z.of_nat (length pre)) out =
  Some (out ++ ((fun o => (o, dist_value d o)) <$> (regs ≫= reg_offsets (num_irqs d))),
        Z.of_nat (length pre + length (regs ≫= dump_reg d))).
Proof.
  intros Hwf Hw. revert pre out. induction Hw as [|reg regs Hr _ IH]; intros pre out.
  - cbn. by rewrite app_nil_r, Nat.add_0_r.
  - cbn [dist_walk]. change ((reg :: regs) ≫= dump_reg d) with (dump_reg d reg ++ (regs ≫= dump_reg d)).
    change ((reg :: regs) ≫= reg_offsets (num_irqs d)) with
      (reg_offsets (num_irqs d) reg ++ (regs ≫= reg_offsets (num_irqs d))).
    rewrite <- (app_assoc (dump_reg d reg)). pose proof (dump_reg_walk d reg pre
      ((regs ≫= dump_reg d) ++ post) out Hwf Hr) as Hstep. cbv zeta in Hstep. rewrite Hstep.
    cbn [mbind option_bind]. specialize (IH (pre ++ dump_reg d reg)
      (out ++ ((fun o => (o, dist_value d o)) <$> reg_offsets (num_irqs d) reg))).
    rewrite length_app, <- app_assoc in IH. change (mbind (dump_reg d) regs) with
      (regs ≫= dump_reg d) in IH. rewrite IH. f_equal. f_equal.
    + by rewrite fmap_app, app_assoc.
    + rewrite length_app. lia.
Qed.

(** The interrupt widths of a KVM dump below the special INTIDs. *)
Lemma width_cases (P : Z -> bool) n :
  forallb P ((fun k => k * 32) <$> seqZ 1 31) = true ->
  32 <= n <= INTID_LIMIT -> n mod 32 = 0 -> P n = true.
Proof.
  intros H Hn Hm. rewrite forallb_forall in H. apply H, list_elem_of_In, list_elem_of_fmap.
  exists (n / 32). unfold INTID_LIMIT in Hn. rewrite elem_of_seqZ. Z.div_mod_to_equations; lia.
Qed.

Lemma width_recovered n :
  32 <= n <= INTID_LIMIT -> n mod 32 = 0 ->
  num_irq_from_dist_len (dist_total_words n) = Some n.
Proof.
  intros Hn Hm. apply (bool_decide_eq_true_1 _).
  apply (width_cases (fun n => bool_decide (num_irq_from_dist_len (dist_total_words n) = Some n)) n);
    [vm_compute; reflexivity|done|done].
Qed.

Definition walkableb (n : Z) (reg : DistReg) : bool :=
  (0 <=? dist_reg_words reg n) &&
  if dr_bpi reg =? 64 then (dr_base reg =? 0x6000) && (dist_reg_words reg n =? 2 * (n - 32))
  else reg_start reg + dist_reg_words reg n * 4 <=? 0x6000.

Lemma all_walkable n :
  32 <= n <= INTID_LIMIT -> n mod 32 = 0 -> Forall (walkable n) VGIC_DIST_REGS.
Proof.
  intros Hn Hm.
  assert (forallb (walkableb n) VGIC_DIST_REGS = true) as H
    by (apply (width_cases (fun n => forallb (walkableb n) VGIC_DIST_REGS) n);
        [vm_compute; reflexivity|done|done]).
  apply Forall_elem. intros reg Hr. rewrite forallb_forall in H.
  specialize (H reg ltac:(by apply list_elem_of_In)). unfold walkableb, walkable in *.
  destruct (dr_bpi reg =? 64); rewrite !andb_true_iff, ?Z.leb_le, ?Z.eqb_eq in H; lia.
Qed.

Lemma length_dump_reg d reg :
  walkable (num_irqs d) reg -> Z.of_nat (length (dump_reg d reg)) = dist_reg_words reg (num_irqs d).
Proof.
  intros [Hn Hw]. unfold dump_reg. destruct (dr_bpi reg =? 64).
  - rewrite dump_router_words, length_pairs. destruct Hw as [_ Hw]. unfold pair_count.
    rewrite Hw in *. Z.div_mod_to_equations; lia.
  - rewrite length_fmap, length_seqZ. lia.
Qed.

Lemma length_dump d regs :
  Forall (walkable (num_irqs d)) regs ->
  Z.of_nat (length (regs ≫= dump_reg d)) =
  foldr Z.add 0 ((fun r => dist_reg_words r (num_irqs d)) <$> regs).
Proof.
  induction 1 as [|reg regs Hr _ IH]; [done|].
  change ((reg :: regs) ≫= dump_reg d) with (dump_reg d reg ++ (regs ≫= dump_reg d)).
  rewrite length_app, Nat2Z.inj_add, IH, length_dump_reg by done. done.
Qed.

(** Writing the dump and reading it back gives the registers of the model. *)
Lemma dump_read_back d :
  dist_wf d -> num_irqs d mod 32 = 0 ->
  exists dump, dist_from_softgic d = Some dump /\
    dist_to_hvf dump = Some ((fun o => (o, dist_value d o)) <$> dist_capture_offsets (num_irqs d)).
Proof.
  intros Hwf Hm. pose proof (wf_num d Hwf) as Hn.
  pose proof (all_walkable _ Hn Hm) as Hw. pose proof (length_dump d _ Hw) as Hl.
  change (foldr _ _ _) with (dist_total_words (num_irqs d)) in Hl.
  pose proof (width_recovered _ Hn Hm) as Hr. rewrite <- Hl in Hr.
  exists (VGIC_DIST_REGS ≫= dump_reg d). unfold dist_from_softgic, dist_to_hvf.
  rewrite bool_decide_eq_true_2 by done. split; [done|]. rewrite Hr. cbn [mbind option_bind].
  pose proof (dist_walk_dump d VGIC_DIST_REGS [] [] [] Hwf Hw) as Hd.
  cbn [app length] in Hd. rewrite app_nil_r in Hd. change (Z.of_nat 0) with 0 in Hd.
  rewrite Hd. cbn [mbind option_bind]. rewrite Nat.add_0_l, Z.eqb_refl. done.
Qed.

(** ** Facts: seeding a distributor from another one's registers *)

Lemma field_get_upd f g d : field_get f (field_upd f g d) = g (field_get f d).
Proof. by destruct f. Qed.

Lemma read_priority_range d o : dist_wf d -> num_irqs d mod 32 = 0 -> 0 <= o -> o mod 4 = 0 ->
  is_u32 (read_priority d o) /\
  forall b, 0 <= b < 4 -> o < num_irqs d ->
    vget (priority d) (o + b) = Some (u8 (Z.shiftr (read_priority d o) (b * 8))).
Proof.
  intros Hwf Hm Ho Ha. pose proof (wf_priority d Hwf) as Hl.
  destruct (Z.ltb_spec o (num_irqs d)) as [Hlt|Hge].
  2:{ rewrite read_priority_beyond by lia. split; [unfold is_u32; lia|lia]. }
  assert (forall b, 0 <= b < 4 -> exists p, vget (priority d) (o + b) = Some p /\ is_u8 p) as Hp.
  { intros b Hb. destruct (vget_lt (priority d) (o + b)) as (p & Hp).
    - rewrite Hl. Z.div_mod_to_equations; lia.
    - exists p. split; [done|]. by apply (wf_priority_u8 d Hwf (o + b)). }
  destruct (Hp 0) as (p0 & H0 & R0); [lia|]. destruct (Hp 1) as (p1 & H1 & R1); [lia|].
  destruct (Hp 2) as (p2 & H2 & R2); [lia|]. destruct (Hp 3) as (p3 & H3 & R3); [lia|].
  rewrite (read_priority_val d o p0 p1 p2 p3) by done. split.
  - unfold is_u8, is_u32 in *. cbn [le_val]. lia.
  - intros b Hb _. rewrite Z.shiftr_div_pow2 by lia.
    assert (b = 0 \/ b = 1 \/ b = 2 \/ b = 3) as [->|[->|[->| ->]]] by lia;
      rewrite ?H0, ?H1, ?H2, ?H3; f_equal; unfold is_u8, u8 in *; cbn [le_val];
      [change (2 ^ (0 * 8)) with 1|change (2 ^ (1 * 8)) with (2 ^ 8)
      |change (2 ^ (2 * 8)) with (2 ^ 16)|change (2 ^ (3 * 8)) with (2 ^ 24)];
      Z.div_mod_to_equations; lia.
Qed.

Lemma u32_id v : is_u32 v -> u32 v = v.
Proof. apply Z.mod_small. Qed.

Section Seed.
Context (d d' : Distributor) (off i : Z).
Context (Hwf : dist_wf d) (Hwf' : dist_wf d') (Hnum : num_irqs d' = num_irqs d).
Context (Hm : num_irqs d mod 32 = 0) (Hoff : 0 <= off) (Hi : 0 <= i < num_irqs d).

Lemma seed_bitmap_from f :
  vget (field_get f (seed_bitmap f off (u32 (read_bitmap (field_get f d) off)) d')) i =
  if off / 4 =? i / 32 then vget (field_get f d) i else vget (field_get f d') i.
Proof.
  rewrite u32_id by apply read_bitmap_range. rewrite seed_bitmap_eq, field_get_upd.
  rewrite vget_scatter by (Z.div_mod_to_equations; lia).
  rewrite (wf_field d' f Hwf'), Hnum, (proj2 (Z.ltb_lt i _)), !andb_true_r by lia.
  destruct (Z.eqb_spec (off / 4) (i / 32)) as [E|E].
  - rewrite (proj2 (in_range_spec _ _ _)) by (Z.div_mod_to_equations; lia).
    rewrite has_bit_testbit, read_bitmap_testbit by (Z.div_mod_to_equations; lia).
    replace (off / 4 * 32 + (i - off / 4 * 32)) with i by lia.
    rewrite (proj2 (Z.ltb_lt (i - _) 32)) by (Z.div_mod_to_equations; lia).
    destruct (vget_lt (field_get f d) i) as (b & ->); [by rewrite (wf_field d f Hwf)|done].
  - assert (in_range (off / 4 * 32) (off / 4 * 32 + Z.of_nat 32) i = false) as ->; [|done].
    apply in_range_false. Z.div_mod_to_equations; lia.
Qed.

Lemma seed_cfgr_from :
  vget (edge (write_cfgr off (u32 (read_cfgr d off)) d')) i =
  if off / 4 =? i / 16 then vget (edge d) i else vget (edge d') i.
Proof.
  rewrite u32_id by apply read_cfgr_range. rewrite write_cfgr_eq. cbn [edge set_edge].
  rewrite vget_scatter by (Z.div_mod_to_equations; lia).
  rewrite (wf_edge d' Hwf'), Hnum, (proj2 (Z.ltb_lt i _)), !andb_true_r by lia.
  destruct (Z.eqb_spec (off / 4) (i / 16)) as [E|E].
  - rewrite (proj2 (in_range_spec _ _ _)) by (Z.div_mod_to_equations; lia).
    set (k := i - off / 4 * 16). assert (0 <= k < 16) by (subst k; Z.div_mod_to_equations; lia).
    rewrite cfgr_bit, read_cfgr_testbit by lia.
    replace ((k * 2 + 1) / 2) with k by (Z.div_mod_to_equations; lia).
    rewrite (proj2 (Z.ltb_lt (k * 2 + 1) 32)) by lia.
    rewrite (proj2 (Z.eqb_eq ((k * 2 + 1) mod 2) 1)) by (Z.div_mod_to_equations; lia).
    replace (off / 4 * 16 + k) with i by lia.
    destruct (vget_lt (edge d) i) as (b & ->); [by rewrite (wf_edge d Hwf)|done].
  - assert (in_range (off / 4 * 16) (off / 4 * 16 + Z.of_nat 16) i = false) as ->; [|done].
    apply in_range_false. Z.div_mod_to_equations; lia.
Qed.

Lemma seed_priority_from :
  off mod 4 = 0 ->
  vget (priority (write_priority off (u32 (read_priority d off)) d')) i =
  if off / 4 =? i / 4 then vget (priority d) i else vget (priority d') i.
Proof.
  intros Ha. destruct (read_priority_range d off) as [Hr Hp]; [done..|].
  rewrite u32_id by done. rewrite write_priority_eq. cbn [priority set_priority].
  rewrite vget_scatter by done.
  rewrite (wf_priority d' Hwf'), Hnum, (proj2 (Z.ltb_lt i _)), !andb_true_r by lia.
  destruct (Z.eqb_spec (off / 4) (i / 4)) as [E|E].
  - rewrite (proj2 (in_range_spec _ _ _)) by (Z.div_mod_to_equations; lia).
    rewrite <- Hp by (Z.div_mod_to_equations; lia). f_equal. lia.
  - assert (in_range off (off + Z.of_nat 4) i = false) as ->; [|done].
    apply in_range_false. Z.div_mod_to_equations; lia.
Qed.

End Seed.

(** What seeding register [o] with the value [d] holds there does to the five
    configuration vectors. *)
Record seeded (d d' : Distributor) (o : Z) (r : Distributor) : Prop := {
  seeded_wf : dist_wf r;
  seeded_num : num_irqs r = num_irqs d;
  seeded_enabled i : 0 <= i < num_irqs d ->
    vget (enabled r) i =
    if in_range 0x100 0x180 o && ((o - 0x100) / 4 =? i / 32) then vget (enabled d) i
    else vget (enabled d') i;
  seeded_group1 i : 0 <= i < num_irqs d ->
    vget (group1 r) i =
    if in_range 0x80 0x100 o && ((o - 0x80) / 4 =? i / 32) then vget (group1 d) i
    else vget (group1 d') i;
  seeded_priority i : 0 <= i < num_irqs d ->
    vget (priority r) i =
    if in_range 0x400 0x800 o && ((o - 0x400) / 4 =? i / 4) then vget (priority d) i
    else vget (priority d') i;
  seeded_edge i : 0 <= i < num_irqs d ->
    vget (edge r) i =
    if in_range 0xC00 0xD00 o && ((o - 0xC00) / 4 =? i / 16) then vget (edge d) i
    else vget (edge d') i;
  seeded_routes i : 0 <= i < num_irqs d ->
    vget (routes r) i =
    if in_range 0x6000 0x8000 o && ((o - 0x6000) / 8 =? i) then vget (routes d) i
    else vget (routes d') i;
}.

Lemma dist_read_range d o :
  dist_wf d -> num_irqs d mod 32 = 0 -> o mod 4 = 0 -> is_u32 (dist_read d o).
Proof.
  intros Hwf Hm Ha. pose proof (wf_ctlr d Hwf). unfold dist_read.
  repeat (case_match; [match goal with
    | |- is_u32 (u32 _) => apply (wrap_range 32); lia
    | |- is_u32 (read_bitmap _ _) => apply read_bitmap_range
    | |- is_u32 (read_cfgr _ _) => apply read_cfgr_range
    | |- is_u32 (Z.lor _ _) => apply (lor_range 32); [lia|apply (lor_range 32)|]; done
    | |- is_u32 (read_priority _ _) => idtac
    | |- _ => done
    end|]).
  - rewrite in_range_spec in *. apply read_priority_range; [done|done|lia|].
    Z.div_mod_to_equations; lia.
  - repeat case_match; [apply (wrap_range 32); lia..|done].
Qed.

Lemma dist_value_range d o :
  dist_wf d -> num_irqs d mod 32 = 0 -> o mod 4 = 0 -> is_u64 (dist_value d o).
Proof.
  intros Hwf Hm Ha. unfold dist_value. case_match; [by apply router_range|].
  pose proof (dist_read_range d o Hwf Hm Ha). unfold is_u32, is_u64 in *. lia.
Qed.

Lemma seeded_frame d d' o r :
  dist_wf r -> num_irqs r = num_irqs d ->
  (0x100 <= o < 0x180 -> forall i, 0 <= i < num_irqs d -> vget (enabled r) i =
    if (o - 0x100) / 4 =? i / 32 then vget (enabled d) i else vget (enabled d') i) ->
  (~ 0x100 <= o < 0x180 -> enabled r = enabled d') ->
  (0x80 <= o < 0x100 -> forall i, 0 <= i < num_irqs d -> vget (group1 r) i =
    if (o - 0x80) / 4 =? i / 32 then vget (group1 d) i else vget (group1 d') i) ->
  (~ 0x80 <= o < 0x100 -> group1 r = group1 d') ->
  (0x400 <= o < 0x800 -> forall i, 0 <= i < num_irqs d -> vget (priority r) i =
    if (o - 0x400) / 4 =? i / 4 then vget (priority d) i else vget (priority d') i) ->
  (~ 0x400 <= o < 0x800 -> priority r = priority d') ->
  (0xC00 <= o < 0xD00 -> forall i, 0 <= i < num_irqs d -> vget (edge r) i =
    if (o - 0xC00) / 4 =? i / 16 then vget (edge d) i else vget (edge d') i) ->
  (~ 0xC00 <= o < 0xD00 -> edge r = edge d') ->
  (0x6000 <= o < 0x8000 -> forall i, 0 <= i < num_irqs d -> vget (routes r) i =
    if (o - 0x6000) / 8 =? i then vget (routes d) i else vget (routes d') i) ->
  (~ 0x6000 <= o < 0x8000 -> routes r = routes d') ->
  seeded d d' o r.
Proof.
  intros Hw Hn He He' Hg Hg' Hp Hp' Hc Hc' Hr Hr'.
  assert (forall a b, in_range a b o = true /\ a <= o < b \/ in_range a b o = false /\ ~ a <= o < b)
    as Hin.
  { intros a b. destruct (in_range a b o) eqn:E;
      [left; by apply in_range_spec in E|right; by apply in_range_false in E]. }
  constructor; [done|done|intros i Hi..].
  - destruct (Hin 0x100 0x180) as [[-> ?]|[-> ?]]; [by apply He|by rewrite He'].
  - destruct (Hin 0x80 0x100) as [[-> ?]|[-> ?]]; [by apply Hg|by rewrite Hg'].
  - destruct (Hin 0x400 0x800) as [[-> ?]|[-> ?]]; [by apply Hp|by rewrite Hp'].
  - destruct (Hin 0xC00 0xD00) as [[-> ?]|[-> ?]]; [by apply Hc|by rewrite Hc'].
  - destruct (Hin 0x6000 0x8000) as [[-> ?]|[-> ?]]; [by apply Hr|by rewrite Hr'].
Qed.

Lemma seed_step d d' o :
  dist_wf d -> dist_wf d' -> num_irqs d' = num_irqs d -> num_irqs d mod 32 = 0 ->
  0 <= o -> o mod 4 = 0 ->
  seeded d d' o (dist_seed_reg d' (o, dist_value d o)).
Proof.
  intros Hwf Hwf' Hnum Hm Ho Ha.
  assert (dist_step d' (dist_seed_reg d' (o, dist_value d o))) as Hstep.
  { apply (step_seed d' [(o, dist_value d o)]). constructor; [|constructor].
    by apply dist_value_range. }
  apply dist_step_wf in Hstep as [Hw Hn]; [|done].
  apply seeded_frame; [done|congruence|..]; clear Hw Hn;
    unfold dist_seed_reg, dist_value; intros Hr.
  - intros i Hi. offs. unfold dist_read. offs.
    by apply (seed_bitmap_from d d' (o - 0x100) i Hwf Hwf' Hnum ltac:(lia) Hi Enable).
  - rewrite !seed_bitmap_eq, write_priority_eq, write_cfgr_eq. offs.
    repeat case_match; reflexivity.
  - intros i Hi. offs. unfold dist_read. offs.
    by apply (seed_bitmap_from d d' (o - 0x80) i Hwf Hwf' Hnum ltac:(lia) Hi Group).
  - rewrite !seed_bitmap_eq, write_priority_eq, write_cfgr_eq. offs.
    repeat case_match; reflexivity.
  - intros i Hi. offs. rewrite read_prio_window by done.
    apply seed_priority_from; try done; [lia|Z.div_mod_to_equations; lia].
  - rewrite !seed_bitmap_eq, write_cfgr_eq. offs. repeat case_match; reflexivity.
  - intros i Hi. offs. rewrite read_cfgr_window by done. apply seed_cfgr_from; try done. lia.
  - rewrite !seed_bitmap_eq, write_priority_eq. offs. repeat case_match; reflexivity.
  - intros i Hi. offs. cbn [routes set_routes]. rewrite vget_vset, (wf_routes d' Hwf'), Hnum.
    destruct (Z.eqb_spec ((o - 0x6000) / 8) i) as [<-|]; [|done].
    rewrite (proj2 (Z.leb_le _ _)), (proj2 (Z.ltb_lt _ _)) by lia. cbn [andb]. unfold router.
    destruct (vget_lt (routes d) ((o - 0x6000) / 8)) as (r & ->); [by rewrite (wf_routes d Hwf)|done].
  - rewrite !seed_bitmap_eq, write_priority_eq, write_cfgr_eq. offs.
    repeat case_match; reflexivity.
Qed.

(** Seeding from a list of registers brings over every vector entry that some
    register of the list covers. *)
Lemma seed_fold {A} (g : Distributor -> A) (h : Z -> bool) d O d0 :
  (forall d' o r, seeded d d' o r -> g r = if h o then g d else g d') ->
  dist_wf d -> num_irqs d mod 32 = 0 -> Forall (fun o => 0 <= o /\ o mod 4 = 0) O ->
  dist_wf d0 -> num_irqs d0 = num_irqs d ->
  (exists o, o ∈ O /\ h o = true) \/ g d0 = g d ->
  g (dist_seed_from_kvm d0 ((fun o => (o, dist_value d o)) <$> O)) = g d.
Proof.
  intros Hg Hwf Hm HO. revert d0. induction HO as [|o O [Ho Ha] _ IH]; intros d0 Hw0 Hn0 Hc.
  - destruct Hc as [(o & Hin & _)|Hc]; [inversion Hin|done].
  - cbn [fmap list_fmap dist_seed_from_kvm foldl].
    pose proof (seed_step d d0 o Hwf Hw0 Hn0 Hm Ho Ha) as Hs.
    apply IH; [apply Hs|apply Hs|]. pose proof (Hg _ _ _ Hs) as Hg'.
    destruct (h o) eqn:Eh; [by right|]. destruct Hc as [(o' & Hin & Ho')|Hc].
    + left. exists o'. split; [|done]. apply elem_of_cons in Hin as [->|]; [congruence|done].
    + right. by rewrite Hg'.
Qed.

Lemma reg_words_val base bpi r n :
  0 <= bpi <= 64 -> 32 <= n <= INTID_LIMIT -> n mod 32 = 0 ->
  dist_reg_words (mkDistReg base bpi 0 r) n = bpi * (n / 32 - 1).
Proof.
  intros Hb Hn Hm. unfold dist_reg_words, INTID_LIMIT, SPI_BASE, REG_SIZE in *.
  cbn [dr_length dr_bpi Z.ltb Z.compare].
  assert (exists m, n / 32 = m /\ n = 32 * m) as (m & -> & ->)
    by (exists (n / 32); Z.div_mod_to_equations; lia).
  assert (u32 (32 * m - 32) = 32 * m - 32) as -> by (apply Z.mod_small; lia).
  replace (bpi * (32 * m - 32)) with (bpi * (m - 1) * 32) by lia.
  assert (0 <= bpi * (m - 1) <= 64 * 30) by nia. set (t := bpi * (m - 1)) in *. clearbody t.
  assert (u32 (t * 32) = t * 32) as -> by (apply Z.mod_small; lia).
  rewrite (proj2 (Z.eqb_eq (t * 32 mod 8) 0)) by (Z.div_mod_to_equations; lia).
  Z.div_mod_to_equations; lia.
Qed.

Lemma capture_word base bpi n k :
  mkDistReg base bpi 0 true ∈ VGIC_DIST_REGS -> 0 <= bpi < 64 ->
  32 <= n <= INTID_LIMIT -> n mod 32 = 0 -> 0 <= k < bpi * (n / 32 - 1) ->
  base + 4 * bpi + k * 4 ∈ dist_capture_offsets n.
Proof.
  intros Hr Hb Hn Hm Hk. unfold dist_capture_offsets. apply list_elem_of_bind.
  eexists. split; [|exact Hr]. unfold reg_offsets.
  rewrite reg_words_val by (done || lia). cbn [dr_restore dr_bpi negb].
  rewrite (proj2 (Z.eqb_neq _ _)) by lia. apply list_elem_of_fmap. exists k.
  split; [done|]. apply elem_of_seqZ. lia.
Qed.

Lemma capture_router n k :
  32 <= n <= INTID_LIMIT -> n mod 32 = 0 -> 0 <= k < n - 32 ->
  0x6100 + k * 8 ∈ dist_capture_offsets n.
Proof.
  intros Hn Hm Hk. unfold dist_capture_offsets. apply list_elem_of_bind.
  exists (mkDistReg 0x6000 64 0 true). split.
  - unfold reg_offsets. rewrite reg_words_val by (done || lia). cbn [dr_restore dr_bpi negb Z.eqb Pos.eqb].
    apply list_elem_of_fmap. exists k. split; [done|]. apply elem_of_seqZ. unfold pair_count.
    Z.div_mod_to_equations; lia.
  - unfold VGIC_DIST_REGS. rewrite !elem_of_cons. auto 10.
Qed.

Lemma capture_aligned n :
  32 <= n <= INTID_LIMIT -> n mod 32 = 0 ->
  Forall (fun o => 0 <= o /\ o mod 4 = 0) (dist_capture_offsets n).
Proof.
  intros Hn Hm.
  assert (forallb (fun o => (0 <=? o) && (o mod 4 =? 0)) (dist_capture_offsets n) = true) as H
    by (apply (width_cases (fun n => forallb (fun o => (0 <=? o) && (o mod 4 =? 0))
          (dist_capture_offsets n)) n); [vm_compute; reflexivity|done|done]).
  apply Forall_elem. intros o Ho. rewrite forallb_forall in H.
  specialize (H o ltac:(by apply list_elem_of_In)). lia.
Qed.

(** A captured word that covers the interrupt, by arithmetic. *)
Ltac covered :=
  split;
  [apply capture_word; try done;
   [unfold VGIC_DIST_REGS; rewrite !elem_of_cons; auto 12|Z.div_mod_to_equations; lia]
  |apply andb_true_iff; rewrite in_range_spec, Z.eqb_eq; Z.div_mod_to_equations; lia].

(** A snapshot keeps the interrupt configuration. Dumping a distributor in
    the KVM encoding, reading the dump back and seeding a fresh distributor of
    the same width restores, for every shared interrupt, its enable bit, group,
    priority, trigger and route; and the registers the reader emits are the
    ones a live capture reads, in order. *)
Theorem dist_dump_restores d i :
  dist_wf d -> num_irqs d mod 32 = 0 -> 32 <= i < num_irqs d ->
  exists dump regs, dist_from_softgic d = Some dump /\ dist_to_hvf dump = Some regs /\
    regs.*1 = dist_capture_offsets (num_irqs d) /\
    let d' := dist_seed_from_kvm (dist_new (num_irqs d)) regs in
    is_enabled d' i = is_enabled d i /\ vget (group1 d') i = vget (group1 d) i /\
    vget (priority d') i = vget (priority d) i /\ vget (edge d') i = vget (edge d) i /\
    router d' i = router d i.
Proof.
  intros Hwf Hm Hi. pose proof (wf_num d Hwf) as Hn.
  destruct (dump_read_back d Hwf Hm) as (dump & H1 & H2). exists dump. eexists.
  split_and!; [done|done| |].
  { rewrite <- list_fmap_compose. apply list_fmap_id. }
  pose proof (capture_aligned _ Hn Hm) as Hal.
  assert (num_irqs (dist_new (num_irqs d)) = num_irqs d) as Hnum.
  { cbn. unfold next_multiple_of_32, INTID_LIMIT in *. rewrite (proj2 (Z.eqb_eq _ _)) by done. lia. }
  assert (dist_wf (dist_new (num_irqs d))) as Hw0.
  { apply dist_new_wf. unfold is_u32, INTID_LIMIT in *. lia. }
  pose proof (fun (A : Type) (g : Distributor -> A) h Hg =>
    seed_fold g h d _ _ Hg Hwf Hm Hal Hw0 Hnum) as Hfold.
  assert (0 <= i < num_irqs d) as Hi' by lia. unfold is_enabled, router, INTID_LIMIT in *.
  cbv zeta. split_and!; [f_equal| | | |f_equal].
  - apply (Hfold _ (fun d => vget (enabled d) i)
      (fun o => in_range 0x100 0x180 o && ((o - 0x100) / 4 =? i / 32))); [intros; by apply H|left].
    exists (0x100 + 4 * 1 + (i / 32 - 1) * 4). covered.
  - apply (Hfold _ (fun d => vget (group1 d) i)
      (fun o => in_range 0x80 0x100 o && ((o - 0x80) / 4 =? i / 32))); [intros; by apply H|left].
    exists (0x80 + 4 * 1 + (i / 32 - 1) * 4). covered.
  - apply (Hfold _ (fun d => vget (priority d) i)
      (fun o => in_range 0x400 0x800 o && ((o - 0x400) / 4 =? i / 4))); [intros; by apply H|left].
    exists (0x400 + 4 * 8 + (i / 4 - 8) * 4). covered.
  - apply (Hfold _ (fun d => vget (edge d) i)
      (fun o => in_range 0xC00 0xD00 o && ((o - 0xC00) / 4 =? i / 16))); [intros; by apply H|left].
    exists (0xC00 + 4 * 2 + (i / 16 - 2) * 4). covered.
  - apply (Hfold _ (fun d => vget (routes d) i)
      (fun o => in_range 0x6000 0x8000 o && ((o - 0x6000) / 8 =? i))); [intros; by apply H|left].
    exists (0x6100 + (i - 32) * 8). split; [apply capture_router; done || lia|].
    apply andb_true_iff. rewrite in_range_spec, Z.eqb_eq. Z.div_mod_to_equations; lia.
Qed.

Lemma dist_dump_restores_witness :
  exists dump regs,
    dist_from_softgic (dist_write (dist_new 64) 0x104 1) = Some dump /\
    dist_to_hvf dump = Some regs /\
    is_enabled (dist_seed_from_kvm (dist_new 64) regs) 32 = true.
Proof.
  destruct (dist_dump_restores (dist_write (dist_new 64) 0x104 1) 32)
    as (dump & regs & H1 & H2 & _ & H3 & _).
  - apply dist_write_wf; [unfold is_u32; lia|]. apply dist_new_wf. unfold is_u32. lia.
  - reflexivity.
  - split; [lia|reflexivity].
  - exists dump, regs. split; [exact H1|]. split; [exact H2|].
    etransitivity; [exact H3|reflexivity].
Defined.

(** ** Redistributor *)

Record redist_wf (r : Redistributor) : Prop := {
  rwf_ppi : length (ppi_enabled r) = 32%nat;
  rwf_cfg1 : is_u32 (ppi_cfg1 r);
}.

(** The word [GICR_ISENABLER0] reads. *)
Definition ppi_word (r : Redistributor) : Z :=
  for_n (length (ppi_enabled r)) (fun b v =>
    if default false (vget (ppi_enabled r) b) then Z.lor v (Z.shiftl 1 b) else v) 0.

Lemma ppi_word_testbit r i :
  redist_wf r -> 0 <= i ->
  Z.testbit (ppi_word r) i = (i <? 32) && default false (vget (ppi_enabled r) i).
Proof. intros Hwf Hi. unfold ppi_word. rewrite gather_testbit_id by done. by rewrite (rwf_ppi r Hwf). Qed.

Lemma ppi_word_range r : redist_wf r -> is_u32 (ppi_word r).
Proof.
  intros Hwf. assert (0 <= ppi_word r) by (by apply (gather_nonneg _ (fun b => b)
    (fun b => default false (vget (ppi_enabled r) b)))).
  split; [done|]. apply bits_range; [lia..|]. intros i Hi.
  rewrite ppi_word_testbit by (done || lia). by rewrite (proj2 (Z.ltb_ge _ _)).
Qed.

Arguments ppi_word : simpl never.

(** The SGI-frame registers the reader emits for a model's dump. *)
Definition sgi_regs (r : Redistributor) : list (Z * Z) :=
  [(0x10080, 0); (0x10180, ppi_word r); (0x10100, ppi_word r); (0x10C00, ppi_cfg0 r);
   (0x10C04, ppi_cfg1 r)] ++ ((fun o => (o, 0)) <$> [0x10280; 0x10200; 0x10380; 0x10300]) ++
  ((fun k => (0x10400 + k * 4, 0)) <$> seqZ 0 8).

Lemma redist_dump_read_back r : redist_to_hvf (redist_from_softgic r) = Some (sgi_regs r).
Proof. reflexivity. Qed.

Lemma seed_sgi_ppi r r0 :
  ppi_enabled (redist_seed_from_kvm r0 (sgi_regs r)) =
  ppi_bits (u32 (ppi_word r)) true (ppi_bits (u32 (ppi_word r)) false (ppi_enabled r0)).
Proof. reflexivity. Qed.

Lemma seed_sgi_cfg1 r r0 :
  ppi_cfg1 (redist_seed_from_kvm r0 (sgi_regs r)) = u32 (ppi_cfg1 r).
Proof. reflexivity. Qed.

Lemma ppi_bits_scatter v set l : ppi_bits v set l = scatter 32 0 (has_bit v) (fun _ => set) l.
Proof. apply for_n_ext. intros b k. by rewrite Z.add_0_l. Qed.

Lemma vget_ppi_bits v set l i :
  length l = 32%nat -> 0 <= i < 32 ->
  vget (ppi_bits v set l) i = if has_bit v i then Some set else vget l i.
Proof.
  intros Hl Hi. rewrite ppi_bits_scatter, vget_scatter, Hl, (proj2 (in_range_spec _ _ _)),
    (proj2 (Z.ltb_lt _ _)), Z.sub_0_r by lia.
  by rewrite andb_true_r.
Qed.

Lemma length_ppi_bits v set l : length (ppi_bits v set l) = length l.
Proof. rewrite ppi_bits_scatter. apply length_scatter. Qed.

Lemma seeded_ppi r l0 i :
  redist_wf r -> length l0 = 32%nat -> vget l0 i = Some false -> 0 <= i < 32 ->
  vget (ppi_bits (u32 (ppi_word r)) true (ppi_bits (u32 (ppi_word r)) false l0)) i =
  vget (ppi_enabled r) i.
Proof.
  intros Hwf Hl0 H0 Hi. rewrite u32_id by by apply ppi_word_range.
  rewrite !vget_ppi_bits by (rewrite ?length_ppi_bits; done).
  rewrite has_bit_testbit, ppi_word_testbit, (proj2 (Z.ltb_lt i 32)) by (done || lia). cbn [andb].
  destruct (vget_lt (ppi_enabled r) i) as (b & ->); [rewrite (rwf_ppi r Hwf); lia|].
  destruct b; cbn [default from_option id]; [reflexivity|exact H0].
Qed.

Lemma fresh_ppi cpu lst i : 0 <= i < 32 -> vget (ppi_enabled (for_cpu cpu lst)) i = Some false.
Proof. intros Hi. by apply (vget_replicate 32). Qed.

(** A snapshot keeps a vCPU's private interrupts. Dumping a redistributor
    and seeding a fresh one from the dump restores every private interrupt's
    enable bit and the trigger word of the private peripheral interrupts. *)
Theorem redist_dump_restores r cpu lst i :
  redist_wf r -> 0 <= i < 32 ->
  exists regs, redist_to_hvf (redist_from_softgic r) = Some regs /\
    regs.*1 = rdist_capture_offsets /\
    let r' := redist_seed_from_kvm (for_cpu cpu lst) regs in
    is_ppi_enabled r' i = is_ppi_enabled r i /\ ppi_cfg1 r' = ppi_cfg1 r /\ cpu_id r' = cpu.
Proof.
  intros Hwf Hi. exists (sgi_regs r). split_and!; [apply redist_dump_read_back|reflexivity|].
  cbv zeta. unfold is_ppi_enabled. rewrite seed_sgi_ppi, seed_sgi_cfg1.
  split_and!; [|apply u32_id, Hwf|reflexivity].
  rewrite (seeded_ppi r); [reflexivity|done|reflexivity|by apply fresh_ppi|done].
Qed.

Lemma redist_dump_restores_witness :
  exists regs,
    redist_to_hvf (redist_from_softgic (redist_write (for_cpu 1 false) 0x10100 (Z.shiftl 1 27))) =
      Some regs /\ is_ppi_enabled (redist_seed_from_kvm (for_cpu 1 false) regs) 27 = true.
Proof.
  destruct (redist_dump_restores (redist_write (for_cpu 1 false) 0x10100 (Z.shiftl 1 27)) 1 false 27)
    as (regs & H1 & _ & H2 & _).
  - split; [reflexivity|]. vm_compute. split; congruence.
  - lia.
  - exists regs. split; [exact H1|]. etransitivity; [exact H2|reflexivity].
Defined.
