(* ===== verification/Its.v ===== *)
(** * The user-space interrupt translation service

    [src/hypervisor/src/hvf/virtio/its.rs]: table descriptors, the walk of the
    device, translation and collection tables in guest memory, the ITS command
    queue, and the injector that turns an MSI-X vector into an LPI. The JSON
    value a snapshot carries is a parameter with its two accessors; addresses
    are 64-bit and wrap. *)

From Stdlib Require Import ZArith Lia Bool.
From stdpp Require Import base numbers list list_numbers gmap option.
From S2P Require Import Prelude GuestMem Text.

Definition GICV3_LPI_INTID_BASE : Z := 8192.
Definition ITE_SIZE : Z := 8.

(** [Malformed] carries the key it names, [Memory] the address. *)
Inductive ItsError :=
| Malformed (key : str)
| MemoryErr (gpa : Z).

Record Lpi := mkLpi { lpi_intid : Z; lpi_rdbase : Z }.

Record Baser := mkBaser {
  indirect : bool;
  typ : Z;
  entry_size : Z;
  page_size : Z;
  num_pages : Z;
  bs_base : Z;
}.

Definition decode_base (raw page_size : Z) : Z :=
  if page_size =? 65536
  then Z.lor (Z.land raw 0x0000ffffffff0000) (Z.shiftl (Z.land raw 0xf000) 36)
  else Z.land raw 0x0000fffffffff000.

Definition baser_parse (raw : Z) : option Baser :=
  if Z.land (Z.shiftr raw 63) 1 =? 0 then None
  else
    let low := Z.land raw 0x3 in
    let page_size := if low =? 0 then 4096 else if low =? 1 then 16384 else 65536 in
    Some (mkBaser
      (negb (Z.land (Z.shiftr raw 62) 1 =? 0))
      (Z.land (Z.shiftr raw 56) 0x7)
      (Z.land (Z.shiftr raw 48) 0xff + 1)
      page_size
      (Z.land raw 0xff + 1)
      (decode_base raw page_size)).

Definition flat_entries (b : Baser) : Z := num_pages b * page_size b / entry_size b.

Record ItsConfig := mkItsConfig {
  its_enabled : bool;
  device_baser : option Baser;
  collection_baser : option Baser;
  cmd_base : Z;
  cmd_size : Z;
  cwriter : Z;
  creadr : Z;
}.

(** The table registers in order; a later one of the same type wins. *)
Definition pick_basers (raws : list (option Z)) : option Baser * option Baser :=
  foldl (fun '(dev, coll) raw =>
    match baser_parse raw with
    | Some b =>
        if typ b =? 1 then (Some b, coll) else if typ b =? 4 then (dev, Some b) else (dev, coll)
    | None => (dev, coll)
    end) (None, None) (omap id raws).

(** [get k] is [kvm.get(k).and_then(Value::as_u64)]; [arr k] is
    [kvm.get(k).and_then(Value::as_array)] with [as_u64] on its elements. *)
Definition parse_kvm (get : str -> option Z) (arr : str -> option (list (option Z))) :
    res ItsError ItsConfig :=
  let u key : res ItsError Z :=
    match get key with Some v => Ok v | None => Err (Malformed key) end in
  ctlr ← u (lit "its_ctlr");
  basers ← (match arr (lit "its_baser") with
            | Some l => Ok l | None => Err (Malformed (lit "its_baser")) end);
  let '(dev, coll) := pick_basers basers in
  cbaser ← u (lit "its_cbaser");
  cw ← u (lit "its_cwriter");
  cr ← u (lit "its_creadr");
  Ok (mkItsConfig (negb (Z.land ctlr 1 =? 0)) dev coll
        (Z.land cbaser 0x0000fffffffff000) ((Z.land cbaser 0xff + 1) * 4096) cw cr).

Record DeviceEntry := mkDeviceEntry { itt : Z; eventid_bits : Z }.

Definition its_read_u64 (m : GuestMemory) (gpa : Z) : res ItsError Z :=
  map_err (fun _ => MemoryErr gpa) (read_u64 m gpa).

Definition its_write_u64 (gpa v : Z) : io GuestMemory ItsError unit :=
  io_update (fun m => map_err (fun _ => MemoryErr gpa) (write_u64 m gpa v)).

Definition valid_bit (x : Z) : bool := negb (Z.land (Z.shiftr x 63) 1 =? 0).

Definition dte_addr (c : ItsConfig) (m : GuestMemory) (device_id : Z) : res ItsError (option Z) :=
  match device_baser c with
  | None => Ok None
  | Some b =>
      if indirect b then
        let per_l2 := page_size b / entry_size b in
        let l1_idx := device_id / per_l2 in
        let l2_idx := device_id mod per_l2 in
        let l1_entries := num_pages b * page_size b / 8 in
        if l1_entries <=? l1_idx then Ok None
        else
          l1e ← its_read_u64 m (u64 (bs_base b + l1_idx * 8));
          if negb (valid_bit l1e) then Ok None
          else Ok (Some (u64 (Z.land l1e 0x000fffffffff0000 + l2_idx * entry_size b)))
      else if device_id <? flat_entries b
      then Ok (Some (u64 (bs_base b + device_id * entry_size b)))
      else Ok None
  end.

Definition device_entry (c : ItsConfig) (m : GuestMemory) (device_id : Z) :
    res ItsError (option DeviceEntry) :=
  match device_baser c with
  | None => Ok None
  | Some b =>
      dte ←
        (if indirect b then
           let per_l2 := page_size b / entry_size b in
           let l1_idx := device_id / per_l2 in
           let l2_idx := device_id mod per_l2 in
           let l1_entries := num_pages b * page_size b / 8 in
           if l1_entries <=? l1_idx then Ok None
           else
             l1e ← its_read_u64 m (u64 (bs_base b + l1_idx * 8));
             if negb (valid_bit l1e) then Ok None
             else
               dte ← its_read_u64 m (u64 (Z.land l1e 0x000fffffffff0000 + l2_idx * entry_size b));
               Ok (Some dte)
         else if flat_entries b <=? device_id then Ok None
         else dte ← its_read_u64 m (u64 (bs_base b + device_id * entry_size b)); Ok (Some dte));
      match dte with
      | None => Ok None
      | Some dte =>
          if negb (valid_bit dte) then Ok None
          else Ok (Some (mkDeviceEntry
                 (Z.shiftl (Z.land (Z.shiftr dte 5) (2 ^ 44 - 1)) 8)
                 (Z.land dte 0x1f + 1)))
      end
  end.

Definition collection_rdbase (c : ItsConfig) (m : GuestMemory) (icid : Z) :
    res ItsError (option Z) :=
  match collection_baser c with
  | None => Ok None
  | Some b =>
      cte ←
        (if indirect b then
           let per_l2 := page_size b / entry_size b in
           let l1_idx := icid / per_l2 in
           let l2_idx := icid mod per_l2 in
           l1e ← its_read_u64 m (u64 (bs_base b + l1_idx * 8));
           if negb (valid_bit l1e) then Ok None
           else
             cte ← its_read_u64 m (u64 (Z.land l1e 0x000fffffffff0000 + l2_idx * entry_size b));
             Ok (Some cte)
         else if flat_entries b <=? icid then Ok None
         else cte ← its_read_u64 m (u64 (bs_base b + icid * entry_size b)); Ok (Some cte));
      match cte with
      | None => Ok None
      | Some cte =>
          if negb (valid_bit cte) then Ok None
          else Ok (Some (u32 (Z.land (Z.shiftr cte 16) 0x7ffffffff)))
      end
  end.

Definition ite_addr (dev : DeviceEntry) (event : Z) : option Z :=
  if 2 ^ Z.min (eventid_bits dev) 32 <=? event then None
  else Some (u64 (itt dev + event * ITE_SIZE)).

Definition its_translate (c : ItsConfig) (m : GuestMemory) (device_id event_id : Z) :
    res ItsError (option Lpi) :=
  dev ← device_entry c m device_id;
  match dev with
  | None => Ok None
  | Some dev =>
      match ite_addr dev event_id with
      | None => Ok None
      | Some a =>
          ite ← its_read_u64 m a;
          let intid := u32 (Z.land (Z.shiftr ite 16) 0xffffffff) in
          let icid := u16 (Z.land ite 0xffff) in
          if intid <? GICV3_LPI_INTID_BASE then Ok None
          else
            rd ← collection_rdbase c m icid;
            match rd with
            | None => Ok None
            | Some rdbase => Ok (Some (mkLpi intid rdbase))
            end
      end
  end.

(** One mapping command of the replay: device, event, LPI and collection. *)
Definition replay_one (m : GuestMemory) (base : Z) : res ItsError (list (Z * Z * Z * Z)) :=
  dw0 ← its_read_u64 m base;
  dw1 ← its_read_u64 m (u64 (base + 8));
  let cmd := Z.land dw0 0xff in
  let dev := u32 (Z.shiftr dw0 32) in
  let event := u32 (Z.land dw1 0xffffffff) in
  if cmd =? 0x0a then
    dw2 ← its_read_u64 m (u64 (base + 16));
    Ok [(dev, event, u32 (Z.shiftr dw1 32), u16 (Z.land dw2 0xffff))]
  else if cmd =? 0x0b then
    dw2 ← its_read_u64 m (u64 (base + 16));
    Ok [(dev, event, event, u16 (Z.land dw2 0xffff))]
  else Ok [].

Fixpoint replay_loop (fuel : nat) (c : ItsConfig) (m : GuestMemory) (off end_ : Z)
    (out : list (Z * Z * Z * Z)) : res ItsError (list (Z * Z * Z * Z)) :=
  match fuel with
  | O => NoFuel
  | S fuel =>
      if off =? end_ then Ok out
      else
        new ← replay_one m (u64 (cmd_base c + off));
        replay_loop fuel c m ((off + 32) mod cmd_size c) end_ (out ++ new)
  end.

Definition replay_commands (fuel : nat) (c : ItsConfig) (m : GuestMemory) (start end_ : Z) :
    res ItsError (list (Z * Z * Z * Z)) :=
  if cmd_size c =? 0 then Ok []
  else replay_loop fuel c m (start mod cmd_size c) (end_ mod cmd_size c) [].

Definition replay_history (fuel : nat) (c : ItsConfig) (m : GuestMemory) :=
  replay_commands fuel c m 0 (cwriter c).

Definition replay_pending (fuel : nat) (c : ItsConfig) (m : GuestMemory) :=
  replay_commands fuel c m (creadr c) (cwriter c).

(** [if let Some(d) = self.device_entry(mem, dev)? && let Some(a) = ite_addr(&d, event)]. *)
Definition with_ite (c : ItsConfig) (dev event : Z) (k : Z -> io GuestMemory ItsError unit) :
    io GuestMemory ItsError unit :=
  d ← io_read (fun m => device_entry c m dev);
  match d with
  | Some d => match ite_addr d event with Some a => k a | None => mret tt end
  | None => mret tt
  end.

(** The dispatch on one command's three double words. *)
Definition apply_cmd (c : ItsConfig) (dw0 dw1 dw2 : Z) : io GuestMemory ItsError unit :=
  let cmd := Z.land dw0 0xff in
  let dev := u32 (Z.shiftr dw0 32) in
  let event := Z.land dw1 0xffffffff in
  let icid := Z.land dw2 0xffff in
  if cmd =? 0x08 then
    addr ← io_read (fun m => dte_addr c m dev);
    match addr with
    | Some addr =>
        its_write_u64 addr
          (if negb (valid_bit dw2) then 0
           else
             let itt := Z.land dw2 0x000fffffffffff00 in
             let sz := Z.land dw1 0x1f in
             Z.lor (Z.lor (Z.shiftl 1 63) (Z.shiftl (Z.land (Z.shiftr itt 8) (2 ^ 44 - 1)) 5)) sz)
    | None => mret tt
    end
  else if cmd =? 0x09 then
    match collection_baser c with
    | Some b =>
        if negb (indirect b) && (icid <? flat_entries b) then
          its_write_u64 (u64 (bs_base b + icid * entry_size b))
            (if negb (valid_bit dw2) then 0
             else
               let rdbase := Z.land (Z.shiftr dw2 16) 0x7ffffffff in
               Z.lor (Z.lor (Z.shiftl 1 63) (Z.shiftl rdbase 16)) icid)
        else mret tt
    | None => mret tt
    end
  else if cmd =? 0x0a then
    with_ite c dev event (fun a =>
      its_write_u64 a (Z.lor (Z.shiftl (Z.land (Z.shiftr dw1 32) 0xffffffff) 16) icid))
  else if cmd =? 0x01 then
    with_ite c dev event (fun a =>
      ite ← io_read (fun m => its_read_u64 m a);
      its_write_u64 a (Z.lor (Z.land ite (not_w 64 0xffff)) icid))
  else if cmd =? 0x0f then with_ite c dev event (fun a => its_write_u64 a 0)
  else mret tt.

Definition apply_one (c : ItsConfig) (base : Z) : io GuestMemory ItsError unit :=
  dw0 ← io_read (fun m => its_read_u64 m base);
  dw1 ← io_read (fun m => its_read_u64 m (u64 (base + 8)));
  dw2 ← io_read (fun m => its_read_u64 m (u64 (base + 16)));
  apply_cmd c dw0 dw1 dw2.

Fixpoint apply_loop (fuel : nat) (c : ItsConfig) (off end_ : Z) : io GuestMemory ItsError unit :=
  match fuel with
  | O => fun m => (NoFuel, m)
  | S fuel =>
      if off =? end_ then mret tt
      else
        _ ← apply_one c (u64 (cmd_base c + off));
        apply_loop fuel c ((off + 32) mod cmd_size c) end_
  end.

Definition apply_commands (fuel : nat) (c : ItsConfig) (start end_ : Z) :
    io GuestMemory ItsError unit :=
  if cmd_size c =? 0 then mret tt
  else apply_loop fuel c (start mod cmd_size c) (end_ mod cmd_size c).

(** ** Delivery *)

(** [LpiSink::deliver] as an effect on the sink's state. *)
Class LpiSink (S : Type) := deliver : Lpi -> S -> S.

(** [LoggingLpiSink]. *)
#[export] Instance logging_sink : LpiSink (list Lpi) := fun lpi l => l ++ [lpi].

Record ItsInjector := mkInjector {
  inj_its : ItsConfig;
  inj_device_id : Z;
  vector_events : list Z;
}.

Definition resolve (i : ItsInjector) (m : GuestMemory) (vector : Z) : option Lpi :=
  match vget (vector_events i) vector with
  | None => None
  | Some event =>
      match its_translate (inj_its i) m (inj_device_id i) event with
      | Ok r => r
      | _ => None
      end
  end.

Definition signal {S} `{LpiSink S} (i : ItsInjector) (m : GuestMemory) (vector : Z) (s : S) : S :=
  match vget (vector_events i) vector with
  | None => s
  | Some event =>
      match its_translate (inj_its i) m (inj_device_id i) event with
      | Ok (Some lpi) => deliver lpi s
      | _ => s
      end
  end.

Inductive CompletionRouting := DeliverableSpi | ItsLpi.

(** [from_snapshot_state] is JSON navigation; its outcome is an argument. *)
Definition classify_routing (parsed : res ItsError ItsConfig) (wired_devices : Z) :
    CompletionRouting :=
  if wired_devices =? 0 then DeliverableSpi
  else
    match parsed with
    | Ok cfg => if its_enabled cfg then ItsLpi else DeliverableSpi
    | _ => DeliverableSpi
    end.

(** ** Packed words *)

Lemma land_mask x n : 0 <= n -> Z.land x (2 ^ n - 1) = x mod 2 ^ n.
Proof. intros. replace (2 ^ n - 1) with (Z.ones n) by (rewrite Z.ones_equiv; lia). by apply Z.land_ones. Qed.

Lemma valid_bit_val x : is_u64 x -> valid_bit x = (2 ^ 63 <=? x).
Proof.
  intros Hx. unfold valid_bit. rewrite Z.shiftr_div_pow2 by lia.
  change 1 with (2 ^ 1 - 1) at 1. rewrite land_mask by lia. unfold is_u64 in Hx.
  destruct (Z.leb_spec (2 ^ 63) x).
  - rewrite (proj2 (Z.eqb_neq _ _)); [done|]. Z.div_mod_to_equations; lia.
  - rewrite (proj2 (Z.eqb_eq _ _)); [done|]. Z.div_mod_to_equations; lia.
Qed.

(** A device table entry as MAPD builds it. *)
Lemma dte_value dw1 dw2 :
  Z.lor (Z.lor (Z.shiftl 1 63)
    (Z.shiftl (Z.land (Z.shiftr (Z.land dw2 0x000fffffffffff00) 8) (2 ^ 44 - 1)) 5)) (Z.land dw1 0x1f) =
  2 ^ 63 + (dw2 / 2 ^ 8 mod 2 ^ 44) * 2 ^ 5 + dw1 mod 2 ^ 5.
Proof.
  assert (Z.land (Z.shiftr (Z.land dw2 0x000fffffffffff00) 8) (2 ^ 44 - 1) = dw2 / 2 ^ 8 mod 2 ^ 44) as ->.
  { rewrite Z.shiftr_land. change (Z.shiftr 0x000fffffffffff00 8) with (2 ^ 44 - 1).
    rewrite <- Z.land_assoc, Z.land_diag, land_mask by lia. by rewrite Z.shiftr_div_pow2. }
  change 0x1f with (2 ^ 5 - 1). rewrite land_mask by lia.
  change (Z.shiftl 1 63) with (Z.shiftl (Z.shiftl 1 58) 5). rewrite <- Z.shiftl_lor.
  rewrite lor_shiftl_add by (try apply Z.mod_pos_bound; lia).
  rewrite lor_shiftl_add by (try (pose proof (Z.mod_pos_bound (dw2 / 2 ^ 8) (2 ^ 44))); lia). lia.
Qed.

(** A collection table entry as MAPC builds it. *)
Lemma cte_value dw2 :
  Z.lor (Z.lor (Z.shiftl 1 63) (Z.shiftl (Z.land (Z.shiftr dw2 16) 0x7ffffffff) 16))
    (Z.land dw2 0xffff) =
  2 ^ 63 + (dw2 / 2 ^ 16 mod 2 ^ 35) * 2 ^ 16 + dw2 mod 2 ^ 16.
Proof.
  change 0x7ffffffff with (2 ^ 35 - 1). change 0xffff with (2 ^ 16 - 1).
  rewrite !land_mask, Z.shiftr_div_pow2 by lia.
  change (Z.shiftl 1 63) with (Z.shiftl (Z.shiftl 1 47) 16). rewrite <- Z.shiftl_lor.
  rewrite lor_shiftl_add by (try apply Z.mod_pos_bound; lia).
  rewrite lor_shiftl_add by (try (pose proof (Z.mod_pos_bound (dw2 / 2 ^ 16) (2 ^ 35))); lia). lia.
Qed.

Lemma ite_value dw1 dw2 :
  is_u64 dw1 ->
  Z.lor (Z.shiftl (Z.land (Z.shiftr dw1 32) 0xffffffff) 16) (Z.land dw2 0xffff) =
  (dw1 / 2 ^ 32) * 2 ^ 16 + dw2 mod 2 ^ 16.
Proof.
  intros H. change 0xffffffff with (2 ^ 32 - 1). change 0xffff with (2 ^ 16 - 1).
  rewrite !land_mask, Z.shiftr_div_pow2 by lia.
  rewrite lor_shiftl_add by (try apply Z.mod_pos_bound; lia). unfold is_u64 in H.
  rewrite (Z.mod_small (dw1 / 2 ^ 32)) by (Z.div_mod_to_equations; lia). done.
Qed.

(** ** Table accesses *)

Lemma its_read_Ok m a v : its_read_u64 m a = Ok v <-> read_u64 m a = Ok v.
Proof. unfold its_read_u64. destruct (read_u64 m a); cbn; split; congruence. Qed.

Lemma its_read_settles m a : settles (its_read_u64 m a).
Proof.
  unfold its_read_u64. pose proof (read_u64_settles m a) as H.
  destruct (read_u64 m a); cbn in *; done.
Qed.

Lemma its_write_spec a v m :
  (exists m', write_u64 m a v = Ok m' /\ its_write_u64 a v m = (Ok tt, m')) \/
  its_write_u64 a v m = (Err (MemoryErr a), m).
Proof.
  unfold its_write_u64, io_update. pose proof (mem_write_settles m a (le_bytes 8 v)) as H.
  unfold write_u64. destruct (mem_write m a (le_bytes 8 v)) as [m'| | |] eqn:E; cbn in *;
    [left; by exists m'|by right|done..].
Qed.

(** The words the walk to a device's entry reads. *)
Definition device_words (c : ItsConfig) (m : GuestMemory) (dev : Z) : list Z :=
  match device_baser c with
  | None => []
  | Some b =>
      if indirect b then
        let l1 := u64 (bs_base b + dev / (page_size b / entry_size b) * 8) in
        match its_read_u64 m l1 with
        | Ok l1e => [l1; u64 (Z.land l1e 0x000fffffffff0000 +
                              dev mod (page_size b / entry_size b) * entry_size b)]
        | _ => [l1]
        end
      else [u64 (bs_base b + dev * entry_size b)]
  end.

Definition collection_words (c : ItsConfig) (m : GuestMemory) (icid : Z) : list Z :=
  match collection_baser c with
  | None => []
  | Some b =>
      if indirect b then
        let l1 := u64 (bs_base b + icid / (page_size b / entry_size b) * 8) in
        match its_read_u64 m l1 with
        | Ok l1e => [l1; u64 (Z.land l1e 0x000fffffffff0000 +
                              icid mod (page_size b / entry_size b) * entry_size b)]
        | _ => [l1]
        end
      else [u64 (bs_base b + icid * entry_size b)]
  end.

Definition same_word (m m' : GuestMemory) (a : Z) : Prop := its_read_u64 m' a = its_read_u64 m a.

Lemma device_entry_frame c m m' dev :
  Forall (same_word m m') (device_words c m dev) -> device_entry c m' dev = device_entry c m dev.
Proof.
  unfold device_words, device_entry. destruct (device_baser c) as [b|]; [|done].
  destruct (indirect b).
  - destruct (its_read_u64 m _) as [l1e| | |] eqn:E1; intros H;
      inversion H as [|? ? Hw Hs]; subst; unfold same_word in Hw; rewrite Hw, E1; try done.
    inversion Hs as [|? ? Hw2 _]; subst. unfold same_word in Hw2.
    cbn [mbind res_bind_inst]. destruct (valid_bit l1e); cbn [negb]; [|done]. by rewrite Hw2.
  - intros H. inversion H as [|? ? Hw _]; subst. unfold same_word in Hw. by rewrite Hw.
Qed.

Lemma collection_rdbase_frame c m m' icid :
  Forall (same_word m m') (collection_words c m icid) ->
  collection_rdbase c m' icid = collection_rdbase c m icid.
Proof.
  unfold collection_words, collection_rdbase. destruct (collection_baser c) as [b|]; [|done].
  destruct (indirect b).
  - destruct (its_read_u64 m _) as [l1e| | |] eqn:E1; intros H;
      inversion H as [|? ? Hw Hs]; subst; unfold same_word in Hw; rewrite Hw, E1; try done.
    inversion Hs as [|? ? Hw2 _]; subst. unfold same_word in Hw2.
    cbn [mbind res_bind_inst]. destruct (valid_bit l1e); cbn [negb]; [|done]. by rewrite Hw2.
  - intros H. inversion H as [|? ? Hw _]; subst. unfold same_word in Hw. by rewrite Hw.
Qed.

(** Words apart from an 8-byte store keep their value. *)
Definition apart_from (a w : Z) : Prop := w + 8 <= a \/ a + 8 <= w.

Lemma write_same_words m a v m' ws :
  mem_wf m -> write_u64 m a v = Ok m' -> Forall (apart_from a) ws -> Forall (same_word m m') ws.
Proof.
  intros Hwf Hw. apply Forall_impl. intros w Hap. unfold same_word, its_read_u64. f_equal.
  eapply read_u64_frame; [apply Hwf|exact Hw|].
  rewrite length_le_bytes. unfold apart_from in Hap. lia.
Qed.

(** ** Commands *)

Lemma io_read_ok {S E A} (f : S -> res E A) s a : f s = Ok a -> io_read f s = (Ok a, s).
Proof. unfold io_read. by intros ->. Qed.

Lemma with_ite_ok c dev event k m d a :
  device_entry c m dev = Ok (Some d) -> ite_addr d event = Some a ->
  with_ite c dev event k m = k a m.
Proof.
  intros Hd Ha. unfold with_ite. erewrite io_bind_ok by (apply io_read_ok, Hd).
  cbv beta iota. by rewrite Ha.
Qed.

Lemma its_write_ok a v m m' : write_u64 m a v = Ok m' -> its_write_u64 a v m = (Ok tt, m').
Proof. intros H. unfold its_write_u64, io_update. by rewrite H. Qed.

Section MapTi.
Context (c : ItsConfig) (m : GuestMemory) (dw0 dw1 dw2 : Z).
Context (Hwf : mem_wf m) (H1 : is_u64 dw1) (H2 : is_u64 dw2) (Hop : Z.land dw0 0xff = 0x0a).
Context (d : DeviceEntry) (a rd : Z).
Let dev := u32 (Z.shiftr dw0 32).
Let event := Z.land dw1 0xffffffff.
Let intid := dw1 / 2 ^ 32.
Let icid := dw2 mod 2 ^ 16.

Lemma mapti_effect m' :
  device_entry c m dev = Ok (Some d) -> ite_addr d event = Some a ->
  write_u64 m a (intid * 2 ^ 16 + icid) = Ok m' ->
  collection_rdbase c m icid = Ok (Some rd) -> GICV3_LPI_INTID_BASE <= intid ->
  Forall (apart_from a) (device_words c m dev ++ collection_words c m icid) ->
  apply_cmd c dw0 dw1 dw2 m = (Ok tt, m') /\
  its_translate c m' dev event = Ok (Some (mkLpi intid rd)).
Proof.
  intros Hd Ha Hw Hc Hlpi Hap. apply Forall_app in Hap as [Hapd Hapc]. split.
  - unfold apply_cmd. fold dev event. rewrite Hop. cbn [Z.eqb Pos.eqb].
    rewrite (with_ite_ok _ _ _ _ _ d a) by done. rewrite ite_value by done. by apply its_write_ok.
  - unfold its_translate. rewrite (device_entry_frame c m m'), Hd
      by (by eapply write_same_words). cbn [mbind res_bind_inst]. rewrite Ha.
    pose proof (read_u64_back _ _ _ _ Hw) as Hb. apply its_read_Ok in Hb. rewrite Hb.
    cbn [mbind res_bind_inst]. unfold is_u64 in *.
    assert (0 <= intid < 2 ^ 32) by (subst intid; Z.div_mod_to_equations; lia).
    assert (0 <= icid < 2 ^ 16) by (subst icid; apply Z.mod_pos_bound; lia).
    assert (u64 (intid * 2 ^ 16 + icid) = intid * 2 ^ 16 + icid) as -> by (apply Z.mod_small; lia).
    change 0xffffffff with (2 ^ 32 - 1). change 0xffff with (2 ^ 16 - 1).
    rewrite !land_mask, Z.shiftr_div_pow2 by lia.
    assert (u32 ((intid * 2 ^ 16 + icid) / 2 ^ 16 mod 2 ^ 32) = intid) as -> by word_lia.
    assert (u16 ((intid * 2 ^ 16 + icid) mod 2 ^ 16) = icid) as -> by word_lia.
    rewrite (proj2 (Z.ltb_ge _ _)) by done.
    rewrite (collection_rdbase_frame c m m'), Hc by (by eapply write_same_words). done.
Qed.

End MapTi.

(** The entry MAPD writes is the entry the walk finds. *)
Lemma dte_addr_word c m dev addr :
  dte_addr c m dev = Ok (Some addr) -> addr ∈ device_words c m dev.
Proof.
  unfold dte_addr, device_words. destruct (device_baser c) as [b|]; [|done].
  destruct (indirect b).
  - case_match; [done|]. destruct (its_read_u64 m _) as [l1e| | |]; try done.
    cbn [mbind res_bind_inst]. case_match; [done|]. intros [= <-]. right. left.
  - case_match; [|done]. intros [= <-]. left.
Qed.

(** The first-level word of an indirect device table. *)
Definition level1_words (c : ItsConfig) (dev : Z) : list Z :=
  match device_baser c with
  | Some b =>
      if indirect b then [u64 (bs_base b + dev / (page_size b / entry_size b) * 8)] else []
  | None => []
  end.

Lemma dte_addr_frame c m m' dev :
  Forall (same_word m m') (level1_words c dev) -> dte_addr c m' dev = dte_addr c m dev.
Proof.
  unfold level1_words, dte_addr. destruct (device_baser c) as [b|]; [|done].
  destruct (indirect b); [|done]. intros H. inversion H as [|? ? Hw _]; subst.
  unfold same_word in Hw. by rewrite Hw.
Qed.

Definition decode_dte (dte : Z) : option DeviceEntry :=
  if negb (valid_bit dte) then None
  else Some (mkDeviceEntry (Z.shiftl (Z.land (Z.shiftr dte 5) (2 ^ 44 - 1)) 8) (Z.land dte 0x1f + 1)).

Lemma device_entry_at c m dev addr dte :
  dte_addr c m dev = Ok (Some addr) -> its_read_u64 m addr = Ok dte ->
  device_entry c m dev = Ok (decode_dte dte).
Proof.
  unfold dte_addr, device_entry, decode_dte. destruct (device_baser c) as [b|]; [|done].
  destruct (indirect b).
  - case_match; [done|]. destruct (its_read_u64 m (u64 (bs_base b + _))) as [l1e| | |]; try done.
    cbn [mbind res_bind_inst]. destruct (valid_bit l1e); cbn [negb]; [|done].
    intros [= <-] Hr. rewrite Hr. cbn [mbind res_bind_inst]. by destruct (valid_bit dte).
  - destruct (Z.ltb_spec dev (flat_entries b)); [|done]. intros [= <-] Hr.
    rewrite (proj2 (Z.leb_gt _ _)), Hr by lia. cbn [mbind res_bind_inst]. by destruct (valid_bit dte).
Qed.

Lemma decode_dte_mapd itt_field sz :
  0 <= itt_field < 2 ^ 44 -> 0 <= sz < 2 ^ 5 ->
  decode_dte (u64 (2 ^ 63 + itt_field * 2 ^ 5 + sz)) =
  Some (mkDeviceEntry (itt_field * 2 ^ 8) (sz + 1)).
Proof.
  intros Hi Hs. unfold decode_dte.
  assert (u64 (2 ^ 63 + itt_field * 2 ^ 5 + sz) = 2 ^ 63 + itt_field * 2 ^ 5 + sz) as ->
    by (apply Z.mod_small; lia).
  rewrite valid_bit_val by (unfold is_u64; lia). rewrite (proj2 (Z.leb_le _ _)) by lia. cbn [negb].
  change 0x1f with (2 ^ 5 - 1). rewrite !land_mask, Z.shiftr_div_pow2, Z.shiftl_mul_pow2 by lia.
  f_equal. f_equal; Z.div_mod_to_equations; lia.
Qed.

Lemma mapd_effect c m dw0 dw1 dw2 addr m' :
  mem_wf m -> is_u64 dw1 -> is_u64 dw2 -> Z.land dw0 0xff = 0x08 -> 2 ^ 63 <= dw2 ->
  let dev := u32 (Z.shiftr dw0 32) in
  dte_addr c m dev = Ok (Some addr) -> Forall (apart_from addr) (level1_words c dev) ->
  write_u64 m addr (2 ^ 63 + (dw2 / 2 ^ 8 mod 2 ^ 44) * 2 ^ 5 + dw1 mod 2 ^ 5) = Ok m' ->
  apply_cmd c dw0 dw1 dw2 m = (Ok tt, m') /\
  device_entry c m' dev =
    Ok (Some (mkDeviceEntry (dw2 / 2 ^ 8 mod 2 ^ 44 * 2 ^ 8) (dw1 mod 2 ^ 5 + 1))).
Proof.
  intros Hwf H1 H2 Hop Hv dev Ha Hap Hw. split.
  - unfold apply_cmd. fold dev. rewrite Hop. cbn [Z.eqb Pos.eqb].
    erewrite io_bind_ok by (apply io_read_ok, Ha). cbv beta iota.
    rewrite valid_bit_val by done. rewrite (proj2 (Z.leb_le _ _)) by done. cbn [negb].
    rewrite dte_value. by apply its_write_ok.
  - rewrite (device_entry_at c m' dev addr (u64 (2 ^ 63 + (dw2 / 2 ^ 8 mod 2 ^ 44) * 2 ^ 5 + dw1 mod 2 ^ 5))).
    + f_equal. apply decode_dte_mapd; apply Z.mod_pos_bound; lia.
    + rewrite (dte_addr_frame c m m'); [done|]. by eapply write_same_words.
    + apply its_read_Ok. by eapply read_u64_back.
Qed.

Lemma mapc_effect c b m dw0 dw1 dw2 m' :
  mem_wf m -> is_u64 dw2 -> Z.land dw0 0xff = 0x09 -> 2 ^ 63 <= dw2 ->
  collection_baser c = Some b -> indirect b = false ->
  let icid := dw2 mod 2 ^ 16 in
  icid < flat_entries b ->
  write_u64 m (u64 (bs_base b + icid * entry_size b))
    (2 ^ 63 + (dw2 / 2 ^ 16 mod 2 ^ 35) * 2 ^ 16 + icid) = Ok m' ->
  apply_cmd c dw0 dw1 dw2 m = (Ok tt, m') /\
  collection_rdbase c m' icid = Ok (Some (dw2 / 2 ^ 16 mod 2 ^ 32)).
Proof.
  intros Hwf H2 Hop Hv Hb Hf icid Hi Hw. split.
  - unfold apply_cmd. rewrite Hop, Hb, Hf. cbn [Z.eqb Pos.eqb negb andb].
    rewrite cte_value. change 0xffff with (2 ^ 16 - 1). rewrite land_mask by lia. fold icid.
    rewrite (proj2 (Z.ltb_lt _ _)) by done. rewrite valid_bit_val by done.
    rewrite (proj2 (Z.leb_le _ _)) by done. by apply its_write_ok.
  - unfold collection_rdbase. rewrite Hb, Hf. rewrite (proj2 (Z.leb_gt _ _)) by done.
    pose proof (read_u64_back _ _ _ _ Hw) as Hr. apply its_read_Ok in Hr. rewrite Hr.
    cbn [mbind res_bind_inst].
    set (rd := dw2 / 2 ^ 16 mod 2 ^ 35) in *.
    assert (0 <= rd < 2 ^ 35) by (apply Z.mod_pos_bound; lia).
    assert (0 <= icid < 2 ^ 16) by (apply Z.mod_pos_bound; lia).
    assert (u64 (2 ^ 63 + rd * 2 ^ 16 + icid) = 2 ^ 63 + rd * 2 ^ 16 + icid) as ->
      by (apply Z.mod_small; lia).
    rewrite valid_bit_val by (unfold is_u64; lia). rewrite (proj2 (Z.leb_le _ _)) by lia. cbn [negb].
    change 0x7ffffffff with (2 ^ 35 - 1). rewrite land_mask, Z.shiftr_div_pow2 by lia.
    do 2 f_equal. assert ((2 ^ 63 + rd * 2 ^ 16 + icid) / 2 ^ 16 mod 2 ^ 35 = rd) as ->
      by (Z.div_mod_to_equations; lia).
    subst rd. unfold u32. clear. Z.div_mod_to_equations; lia.
Qed.

(** ** Commands settle *)

Definition io_settles {S E A} (c : io S E A) : Prop := forall s, settles (c s).1.

Lemma io_settles_bind {S E A B} (c : io S E A) (k : A -> io S E B) :
  io_settles c -> (forall a, io_settles (k a)) -> io_settles (c ≫= k).
Proof.
  intros Hc Hk s. unfold mbind, io_bind_inst. specialize (Hc s).
  destruct (c s) as [[a|e| |] s']; cbn in *; [apply Hk|done..].
Qed.

Lemma io_settles_read {S E A} (f : S -> res E A) : (forall s, settles (f s)) -> io_settles (io_read f).
Proof. intros H s. apply H. Qed.

Lemma io_settles_ret {S E A} (a : A) : io_settles (mret a : io S E A).
Proof. by intros s. Qed.

Lemma its_write_settles a v : io_settles (its_write_u64 a v).
Proof. intros m. destruct (its_write_spec a v m) as [(m' & _ & ->)| ->]; done. Qed.

Lemma device_entry_settles c m dev : settles (device_entry c m dev).
Proof.
  unfold device_entry. destruct (device_baser c) as [b|]; [|done].
  apply settles_bind.
  - destruct (indirect b); [case_match; [done|]|case_match; [done|]];
      repeat (apply settles_bind; [apply its_read_settles|intros]); repeat case_match;
      repeat (apply settles_bind; [apply its_read_settles|intros]); done.
  - intros o _. repeat case_match; done.
Qed.

Lemma dte_addr_settles c m dev : settles (dte_addr c m dev).
Proof.
  unfold dte_addr. destruct (device_baser c) as [b|]; [|done].
  destruct (indirect b); [|by case_match]. case_match; [done|].
  apply settles_bind; [apply its_read_settles|]. intros. by case_match.
Qed.

#[export] Hint Resolve its_read_settles device_entry_settles dte_addr_settles : gimbal.

Lemma with_ite_settles c dev event k : (forall a, io_settles (k a)) -> io_settles (with_ite c dev event k).
Proof.
  intros Hk. unfold with_ite. apply io_settles_bind.
  - apply io_settles_read. auto with gimbal.
  - intros [d|]; [|apply io_settles_ret]. case_match; [apply Hk|apply io_settles_ret].
Qed.

Lemma apply_one_settles c base : io_settles (apply_one c base).
Proof.
  unfold apply_one, apply_cmd.
  repeat (apply io_settles_bind; [apply io_settles_read; auto with gimbal|intros ?]).
  destruct (_ =? 0x08).
  { apply io_settles_bind; [apply io_settles_read; auto with gimbal|].
    intros [w|]; [apply its_write_settles|apply io_settles_ret]. }
  destruct (_ =? 0x09).
  { destruct (collection_baser c) as [b|]; [|apply io_settles_ret].
    destruct (_ && _); [apply its_write_settles|apply io_settles_ret]. }
  repeat (destruct (_ =? _); [apply with_ite_settles; intros; try apply its_write_settles|]);
    [|apply io_settles_ret].
  apply io_settles_bind; [apply io_settles_read; auto with gimbal|]. intros. apply its_write_settles.
Qed.

Lemma replay_one_settles m base : settles (replay_one m base).
Proof.
  unfold replay_one. repeat (apply settles_bind; [apply its_read_settles|intros ? _]).
  repeat case_match; try done; (apply settles_bind; [apply its_read_settles|done]).
Qed.

(** ** The command queue as a ring of 32-byte slots *)

Lemma ring_step size off end_ n :
  0 < size -> 0 <= n -> (end_ - off) mod size = 32 * (n + 1) ->
  (end_ - (off + 32) mod size) mod size = 32 * n.
Proof.
  intros Hs Hn H. rewrite Zminus_mod_idemp_r.
  pose proof (Z.mod_pos_bound (end_ - off) size Hs).
  symmetry. apply (Z.mod_unique_pos _ _ ((end_ - off) / size)); [lia|].
  pose proof (Z.div_mod (end_ - off) size ltac:(lia)). lia.
Qed.

Lemma ring_done size off end_ :
  0 <= off < size -> 0 <= end_ < size -> (end_ - off) mod size = 0 -> off = end_.
Proof.
  intros Ho He H. pose proof (Z.div_mod (end_ - off) size ltac:(lia)) as Hd. rewrite H in Hd.
  assert ((end_ - off) / size = 0) by nia. nia.
Qed.

Lemma apply_loop_settles fuel c off end_ n m :
  0 <= off < cmd_size c -> 0 <= end_ < cmd_size c ->
  (end_ - off) mod cmd_size c = 32 * Z.of_nat n -> (n < fuel)%nat ->
  settles (apply_loop fuel c off end_ m).1.
Proof.
  revert off n m. induction fuel as [|fuel IH]; intros off n m Ho He Hn Hf; [lia|].
  cbn [apply_loop]. destruct (Z.eqb_spec off end_) as [->|Hne]; [done|].
  destruct n as [|n]; [destruct Hne; by eapply ring_done|].
  unfold mbind, io_bind_inst. pose proof (apply_one_settles c (u64 (cmd_base c + off)) m) as Hs.
  destruct (apply_one _ _ m) as [[[]| | |] m']; cbn in *; try done.
  apply (IH _ n); [apply Z.mod_pos_bound; lia|done| |lia].
  apply ring_step; lia.
Qed.

Lemma replay_loop_settles fuel c m off end_ n out :
  0 <= off < cmd_size c -> 0 <= end_ < cmd_size c ->
  (end_ - off) mod cmd_size c = 32 * Z.of_nat n -> (n < fuel)%nat ->
  settles (replay_loop fuel c m off end_ out).
Proof.
  revert off n out. induction fuel as [|fuel IH]; intros off n out Ho He Hn Hf; [lia|].
  cbn [replay_loop]. destruct (Z.eqb_spec off end_) as [->|Hne]; [done|].
  destruct n as [|n]; [destruct Hne; by eapply ring_done|].
  apply settles_bind; [apply replay_one_settles|]. intros new _.
  apply (IH _ n); [apply Z.mod_pos_bound; lia|done| |lia]. apply ring_step; lia.
Qed.

Lemma slots_between size start end_ :
  0 < size -> size mod 32 = 0 -> (start - end_) mod 32 = 0 ->
  exists n, (end_ mod size - start mod size) mod size = 32 * Z.of_nat n /\ Z.of_nat n < size / 32.
Proof.
  intros Hs Hm H. set (x := (end_ mod size - start mod size) mod size).
  assert (0 <= x < size) as Hx by (apply Z.mod_pos_bound; lia).
  assert (x mod 32 = 0) as Hx32.
  { subst x. apply Z.mod_divide in Hm as (k & ->); [|lia].
    rewrite <- Zminus_mod. rewrite (Z.mul_comm k 32), Z.rem_mul_r by lia.
    rewrite (Z.mul_comm 32), Z.mod_add, Z.mod_mod by lia.
    Z.div_mod_to_equations; lia. }
  exists (Z.to_nat (x / 32)). Z.div_mod_to_equations; lia.
Qed.

Lemma replay_one_mapped c m p off :
  mem_wf m -> with_ptr m (cmd_base c) (cmd_size c + 32) = Ok p ->
  0 <= cmd_base c -> cmd_base c + cmd_size c + 32 <= 2 ^ 64 -> 0 <= off < cmd_size c ->
  exists new, replay_one m (u64 (cmd_base c + off)) = Ok new.
Proof.
  intros Hwf Hp Hb Hw Ho.
  assert (forall k, 0 <= k <= 16 -> exists v, its_read_u64 m (u64 (cmd_base c + off + k)) = Ok v) as Hr.
  { intros k Hk. assert (u64 (cmd_base c + off + k) = cmd_base c + off + k) as ->
      by (apply Z.mod_small; lia).
    destruct (mem_read_within m _ _ p (cmd_base c + off + k) 8 (proj1 Hwf) Hp) as (bs & Hbs); [lia..|].
    exists (le_val bs). apply its_read_Ok. unfold read_u64. by rewrite Hbs. }
  assert (u64 (cmd_base c + off) = cmd_base c + off) as Eb by (apply Z.mod_small; lia).
  destruct (Hr 0) as (dw0 & H0); [lia|]. destruct (Hr 8) as (dw1 & H1); [lia|].
  destruct (Hr 16) as (dw2 & H2); [lia|].
  rewrite Z.add_0_r in H0. rewrite Eb in *.
  unfold replay_one. rewrite H0. cbn [mbind res_bind_inst]. rewrite H1. cbn [mbind res_bind_inst].
  destruct (_ =? 0x0a); [rewrite H2; by eexists|]. destruct (_ =? 0x0b); [rewrite H2|]; by eexists.
Qed.

Lemma replay_loop_never fuel c m off end_ out :
  (forall off, 0 <= off < cmd_size c -> exists new, replay_one m (u64 (cmd_base c + off)) = Ok new) ->
  cmd_size c mod 32 = 0 -> 0 <= off < cmd_size c -> (off - end_) mod 32 <> 0 ->
  replay_loop fuel c m off end_ out = NoFuel.
Proof.
  intros Hr Hs. revert off out. induction fuel as [|fuel IH]; intros off out Ho Hne; [done|].
  cbn [replay_loop]. rewrite (proj2 (Z.eqb_neq off end_)) by (intros ->; by rewrite Z.sub_diag in Hne).
  destruct (Hr off Ho) as (new & ->). cbn [mbind res_bind_inst].
  apply IH; [apply Z.mod_pos_bound; lia|]. contradict Hne.
  pose proof (Z.div_mod (off + 32) (cmd_size c) ltac:(lia)) as Hd.
  apply Z.mod_divide in Hs as (k & Hk); [|lia]. rewrite Hk in Hd at 1.
  replace (off - end_) with ((off + 32) mod cmd_size c - end_ + (k * ((off + 32) / cmd_size c) - 1) * 32) by lia.
  by rewrite Z.mod_add by lia.
Qed.

(** ** What a command may write *)

Lemma device_entry_range c m dev d :
  device_entry c m dev = Ok (Some d) -> 0 <= itt d < 2 ^ 52 /\ 1 <= eventid_bits d <= 32.
Proof.
  unfold device_entry. destruct (device_baser c); [|done]. intros (o & _ & H)%bind_Ok.
  destruct o as [dte|]; [|done]. case_match; [done|]. injection H as <-. cbn [itt eventid_bits].
  change 0x1f with (2 ^ 5 - 1). rewrite !land_mask, Z.shiftl_mul_pow2 by lia.
  pose proof (Z.mod_pos_bound (Z.shiftr dte 5) (2 ^ 44) ltac:(lia)).
  pose proof (Z.mod_pos_bound dte (2 ^ 5) ltac:(lia)). lia.
Qed.

(** The bytes a command with these double words may change. *)
Definition its_slot (c : ItsConfig) (m : GuestMemory) (dw0 dw1 dw2 x : Z) : Prop :=
  let cmd := Z.land dw0 0xff in
  let dev := u32 (Z.shiftr dw0 32) in
  let icid := Z.land dw2 0xffff in
  (cmd = 0x08 /\ exists addr, dte_addr c m dev = Ok (Some addr) /\ addr <= x < addr + 8) \/
  (cmd = 0x09 /\ exists b, collection_baser c = Some b /\ indirect b = false /\
     icid < flat_entries b /\
     u64 (bs_base b + icid * entry_size b) <= x < u64 (bs_base b + icid * entry_size b) + 8) \/
  (cmd ∈ [0x0a; 0x01; 0x0f] /\ exists d, device_entry c m dev = Ok (Some d) /\
     itt d <= x < itt d + 8 * 2 ^ eventid_bits d).

(** [m'] is [m] with bytes of [P] changed. *)
Definition changed_within (P : Z -> Prop) (m m' : GuestMemory) : Prop :=
  mem_wf m' /\ regions m' = regions m /\ forall x, gbyte m' x = gbyte m x \/ P x.

Lemma changed_refl P m : mem_wf m -> changed_within P m m.
Proof. intros. split_and!; [done|done|by left]. Qed.

Lemma its_write_changes (P : Z -> Prop) a v m :
  mem_wf m -> (forall x, a <= x < a + 8 -> P x) -> changed_within P m (its_write_u64 a v m).2.
Proof.
  intros Hwf HP. destruct (its_write_spec a v m) as [(m' & Hw & ->)| ->]; [|by apply changed_refl].
  cbn. split_and!.
  - eapply mem_write_wf; [done|apply le_bytes_bytes|exact Hw].
  - by eapply mem_write_regions.
  - intros x. rewrite (mem_write_gbyte m a (le_bytes 8 v) m' x (proj1 Hwf) Hw), length_le_bytes.
    destruct (in_range a _ x) eqn:E; [|by left]. apply in_range_spec in E. right. apply HP. lia.
Qed.

Lemma io_read_bind {S E A B} (f : S -> res E A) (k : A -> io S E B) s (P : S -> Prop) :
  P s -> (forall a, f s = Ok a -> P (k a s).2) -> P ((io_read f ≫= k) s).2.
Proof.
  intros Hs Hk. unfold mbind, io_bind_inst, io_read. destruct (f s); cbn; try done. by apply Hk.
Qed.

Lemma with_ite_changes (P : Z -> Prop) c dev event k m :
  mem_wf m -> 0 <= event ->
  (forall d a, device_entry c m dev = Ok (Some d) -> itt d <= a -> a + 8 <= itt d + 8 * 2 ^ eventid_bits d ->
     changed_within P m (k a m).2) ->
  changed_within P m (with_ite c dev event k m).2.
Proof.
  intros Hwf He Hk. unfold with_ite. apply io_read_bind; [by apply changed_refl|].
  intros [d|] Hd; [|by apply changed_refl]. unfold ite_addr. case_match; [|by apply changed_refl].
  case_match; simplify_eq. destruct (device_entry_range _ _ _ _ Hd) as [Hi Hb].
  match goal with H : (_ <=? _) = false |- _ => apply Z.leb_gt in H; rewrite Z.min_l in H by lia end.
  assert (2 ^ eventid_bits d <= 2 ^ 32) by (apply Z.pow_le_mono_r; lia).
  unfold ITE_SIZE. assert (u64 (itt d + event * 8) = itt d + event * 8) as -> by (apply Z.mod_small; lia).
  apply (Hk d); [done|lia|lia].
Qed.

Lemma apply_cmd_changes c dw0 dw1 dw2 m :
  mem_wf m -> 0 <= dw1 -> changed_within (its_slot c m dw0 dw1 dw2) m (apply_cmd c dw0 dw1 dw2 m).2.
Proof.
  intros Hwf H1. unfold apply_cmd.
  assert (0 <= Z.land dw1 0xffffffff) by (apply Z.land_nonneg; lia).
  destruct (Z.eqb_spec (Z.land dw0 0xff) 0x08) as [E|_].
  { apply io_read_bind; [by apply changed_refl|]. intros [addr|] Ha; [|by apply changed_refl].
    apply its_write_changes; [done|]. intros x Hx. left. split; [done|]. by exists addr. }
  destruct (Z.eqb_spec (Z.land dw0 0xff) 0x09) as [E|_].
  { destruct (collection_baser c) as [b|] eqn:Eb; [|by apply changed_refl].
    destruct (negb (indirect b) && _) eqn:Ec; [|by apply changed_refl].
    apply andb_true_iff in Ec as [Ei El]. apply negb_true_iff in Ei. apply Z.ltb_lt in El.
    apply its_write_changes; [done|]. intros x Hx. right. left. split; [done|]. by exists b. }
  assert (forall op k, Z.land dw0 0xff = op -> op ∈ [0x0a; 0x01; 0x0f] ->
    (forall a P, (forall x, a <= x < a + 8 -> P x) -> changed_within P m (k a m).2) ->
    changed_within (its_slot c m dw0 dw1 dw2) m
      (with_ite c (u32 (Z.shiftr dw0 32)) (Z.land dw1 0xffffffff) k m).2) as Hite.
  { intros op k Eop Hop Hk. apply with_ite_changes; [done|done|]. intros d a Hd Hlo Hhi.
    apply Hk. intros x Hx. right. right. split; [by rewrite Eop|]. exists d. split; [done|lia]. }
  destruct (Z.eqb_spec (Z.land dw0 0xff) 0x0a) as [E|_].
  { eapply Hite; [done|by left|]. intros a P HP. by apply its_write_changes. }
  destruct (Z.eqb_spec (Z.land dw0 0xff) 0x01) as [E|_].
  { eapply Hite; [done|by right; left|]. intros a P HP. apply io_read_bind; [by apply changed_refl|].
    intros. by apply its_write_changes. }
  destruct (Z.eqb_spec (Z.land dw0 0xff) 0x0f) as [E|_]; [|by apply changed_refl].
  eapply Hite; [done|by right; right; left|]. intros a P HP. by apply its_write_changes.
Qed.

(** ** Properties of the interrupt translation service *)

(** Flat tables and a one-page command queue in 64 KiB of guest memory. *)
Definition demo_its : ItsConfig :=
  mkItsConfig true (Some (mkBaser false 1 8 4096 1 0x12000)) (Some (mkBaser false 4 8 4096 1 0x13000))
    0x10000 4096 0 0.

(** Device 5 has 32 events at 0x14000, collection 1 targets redistributor 3,
    and slot 0 of the queue maps event 2 of device 5 to LPI 8200. *)
Definition demo_its_mem : GuestMemory :=
  poke (mkMem [mkRegion 0x10000 0 0x10000] ∅)
    [(0x12028, le_bytes 8 (2 ^ 63 + 0x140 * 2 ^ 5 + 4));
     (0x13008, le_bytes 8 (2 ^ 63 + 3 * 2 ^ 16 + 1));
     (0x10000, le_bytes 8 (0x0a + 5 * 2 ^ 32));
     (0x10008, le_bytes 8 (2 + 8200 * 2 ^ 32));
     (0x10010, le_bytes 8 1)].

Lemma demo_its_mem_wf : mem_wf demo_its_mem.
Proof.
  apply poke_wf; [|vm_compute; reflexivity].
  split; [|apply map_Forall_empty]. repeat constructor; cbn; lia.
Qed.

(** A MAPTI command routes the interrupt. When the device has a table, the
    event lies in it and the collection is mapped, applying the command
    succeeds and the very next translation of that device and event yields the
    LPI and redistributor the command named; the event's slot has to lie apart
    from the table words the translation walks. *)
Theorem mapti_routes_msi c m dw0 dw1 dw2 d a rd p :
  let dev := u32 (Z.shiftr dw0 32) in
  let event := Z.land dw1 0xffffffff in
  let intid := dw1 / 2 ^ 32 in
  let icid := dw2 mod 2 ^ 16 in
  mem_wf m -> is_u64 dw1 -> is_u64 dw2 -> Z.land dw0 0xff = 0x0a ->
  device_entry c m dev = Ok (Some d) -> ite_addr d event = Some a ->
  with_ptr m a 8 = Ok p -> collection_rdbase c m icid = Ok (Some rd) ->
  GICV3_LPI_INTID_BASE <= intid ->
  Forall (apart_from a) (device_words c m dev ++ collection_words c m icid) ->
  exists m', apply_cmd c dw0 dw1 dw2 m = (Ok tt, m') /\
    its_translate c m' dev event = Ok (Some (mkLpi intid rd)).
Proof.
  intros dev event intid icid Hwf H1 H2 Hop Hd Ha Hp Hc Hl Hap.
  destruct (mem_write_within m a 8 p a (le_bytes 8 (intid * 2 ^ 16 + icid)) (proj1 Hwf) Hp)
    as (m' & Hw); [rewrite ?length_le_bytes; lia..|].
  exists m'. by eapply mapti_effect.
Qed.

Lemma mapti_routes_msi_witness :
  exists m', apply_cmd demo_its (0x0a + 5 * 2 ^ 32) (2 + 8200 * 2 ^ 32) 1 demo_its_mem = (Ok tt, m') /\
    its_translate demo_its m' 5 2 = Ok (Some (mkLpi 8200 3)).
Proof.
  apply (mapti_routes_msi demo_its demo_its_mem (0x0a + 5 * 2 ^ 32) (2 + 8200 * 2 ^ 32) 1
    (mkDeviceEntry 0x14000 5) 0x14010 3 0x4010 demo_its_mem_wf);
    try (vm_compute; reflexivity); try (unfold is_u64; lia).
  - vm_compute. discriminate.
  - apply (bool_decide_unpack (Forall (fun w => w + 8 <= 0x14010 \/ 0x14010 + 8 <= w) _)).
    vm_compute. exact I.
Defined.

(** MAPD and MAPC program the tables the walk reads. After a valid MAPD the
    device has the translation table and event width the command gave; after a
    valid MAPC on a flat table the collection has the low 32 bits of the
    redistributor it gave. *)
Theorem its_tables_programmed c m dw0 dw1 dw2 :
  mem_wf m -> is_u64 dw1 -> is_u64 dw2 -> 2 ^ 63 <= dw2 ->
  (forall addr p, let dev := u32 (Z.shiftr dw0 32) in
     Z.land dw0 0xff = 0x08 -> dte_addr c m dev = Ok (Some addr) ->
     Forall (apart_from addr) (level1_words c dev) -> with_ptr m addr 8 = Ok p ->
     exists m', apply_cmd c dw0 dw1 dw2 m = (Ok tt, m') /\
       device_entry c m' dev =
         Ok (Some (mkDeviceEntry (dw2 / 2 ^ 8 mod 2 ^ 44 * 2 ^ 8) (dw1 mod 2 ^ 5 + 1)))) /\
  (forall b p, let icid := dw2 mod 2 ^ 16 in
     Z.land dw0 0xff = 0x09 -> collection_baser c = Some b -> indirect b = false ->
     icid < flat_entries b -> with_ptr m (u64 (bs_base b + icid * entry_size b)) 8 = Ok p ->
     exists m', apply_cmd c dw0 dw1 dw2 m = (Ok tt, m') /\
       collection_rdbase c m' icid = Ok (Some (dw2 / 2 ^ 16 mod 2 ^ 32))).
Proof.
  intros Hwf H1 H2 Hv.
  assert (forall a v p, with_ptr m a 8 = Ok p -> exists m', write_u64 m a v = Ok m') as Hwr.
  { intros a v p Hp. apply (mem_write_within m a 8 p a (le_bytes 8 v) (proj1 Hwf) Hp);
      rewrite ?length_le_bytes; lia. }
  split.
  - intros addr p dev Hop Ha Hap Hp. edestruct (Hwr addr) as (m' & Hw); [exact Hp|].
    exists m'. by eapply mapd_effect.
  - intros b p icid Hop Hb Hf Hi Hp. edestruct Hwr as (m' & Hw); [exact Hp|].
    exists m'. by eapply (mapc_effect c b m dw0 dw1 dw2).
Qed.

Lemma its_tables_programmed_witness :
  exists m', apply_cmd demo_its (0x08 + 7 * 2 ^ 32) 4 (2 ^ 63 + 0x15000) demo_its_mem = (Ok tt, m') /\
    device_entry demo_its m' 7 = Ok (Some (mkDeviceEntry 0x15000 5)).
Proof.
  apply (proj1 (its_tables_programmed demo_its demo_its_mem (0x08 + 7 * 2 ^ 32) 4 (2 ^ 63 + 0x15000)
    demo_its_mem_wf ltac:(unfold is_u64; lia) ltac:(unfold is_u64; lia) ltac:(lia)) 0x12038 0x2038);
    [vm_compute; reflexivity..|constructor|vm_compute; reflexivity].
Defined.

(** A command writes nowhere else. Whatever the three double words hold and
    whether or not the command succeeds, the memory stays well formed and every
    byte outside the command's own slot keeps its value: MAPD may change the
    device's table entry, MAPC the collection's entry, and MAPTI, MOVI and
    DISCARD only bytes of the device's own translation table. *)
Theorem its_command_confined c m dw0 dw1 dw2 :
  mem_wf m -> 0 <= dw1 ->
  let m' := (apply_cmd c dw0 dw1 dw2 m).2 in
  mem_wf m' /\ regions m' = regions m /\
  forall x, gbyte m' x = gbyte m x \/ its_slot c m dw0 dw1 dw2 x.
Proof. intros Hwf H1. by apply apply_cmd_changes. Qed.

Lemma its_command_confined_witness :
  gbyte (apply_cmd demo_its (0x0f + 5 * 2 ^ 32) 2 0 demo_its_mem).2 0x10000 = gbyte demo_its_mem 0x10000.
Proof.
  destruct (its_command_confined demo_its demo_its_mem (0x0f + 5 * 2 ^ 32) 2 0 demo_its_mem_wf
    ltac:(lia)) as (_ & _ & H).
  destruct (H 0x10000) as [E|[(E & _)|[(E & _)|(_ & d & Hd & Hx)]]];
    [exact E|discriminate E|discriminate E|].
  vm_compute in Hd. injection Hd as <-. cbn in Hx. lia.
Defined.

(** The command queue is drained. When the pointers are 32-byte slots apart
    and the ring is a whole number of slots, replaying and applying the queued
    commands both end within one turn of the ring, with a result or a memory
    error. *)
Theorem command_queue_settles c m start end_ fuel :
  0 < cmd_size c -> cmd_size c mod 32 = 0 -> (start - end_) mod 32 = 0 ->
  cmd_size c / 32 <= Z.of_nat fuel ->
  settles (apply_commands fuel c start end_ m).1 /\ settles (replay_commands fuel c m start end_).
Proof.
  intros Hs Hm Hd Hf. destruct (slots_between _ start end_ Hs Hm Hd) as (n & Hn & Hlt).
  unfold apply_commands, replay_commands. rewrite (proj2 (Z.eqb_neq _ _)) by lia.
  split; [eapply apply_loop_settles|eapply replay_loop_settles];
    try (by apply Z.mod_pos_bound); try exact Hn; lia.
Qed.

Lemma command_queue_settles_witness :
  settles (apply_commands 128 demo_its 0 32 demo_its_mem).1 /\
  settles (replay_commands 128 demo_its demo_its_mem 0 32).
Proof. apply command_queue_settles; vm_compute; (reflexivity || discriminate). Defined.

(** A misaligned pointer is never reached. If the queue is mapped and the
    two pointers differ modulo 32, the replay loop steps past the end pointer
    on every turn and does not terminate, whatever the fuel. *)
Theorem misaligned_queue_never_ends c m p start end_ fuel :
  mem_wf m -> with_ptr m (cmd_base c) (cmd_size c + 32) = Ok p ->
  0 <= cmd_base c -> cmd_base c + cmd_size c + 32 <= 2 ^ 64 ->
  0 < cmd_size c -> cmd_size c mod 32 = 0 -> (start - end_) mod 32 <> 0 ->
  replay_commands fuel c m start end_ = NoFuel.
Proof.
  intros Hwf Hp Hb Hw Hs Hm Hd. unfold replay_commands. rewrite (proj2 (Z.eqb_neq _ _)) by lia.
  apply replay_loop_never; [|done|by apply Z.mod_pos_bound|].
  - intros off Ho. by eapply replay_one_mapped.
  - contradict Hd. apply Z.mod_divide in Hm as (k & Hk); [|lia].
    assert (0 < k) by lia. rewrite Hk, (Z.mul_comm k 32), !Z.rem_mul_r in Hd by lia.
    clear -Hd. Z.div_mod_to_equations; lia.
Qed.

(** The page size of a table is taken from the wrong bits. The decoder
    derives it from the two low bits of the page count, so it is not the field
    GITS_BASER[9:8]: the device table of a captured KVM snapshot, whose field
    says 64 KiB, is decoded with 4 KiB pages. *)
Theorem baser_page_size_misread :
  (forall raw b, baser_parse raw = Some b ->
     page_size b = match Z.land (num_pages b - 1) 3 with 0 => 4096 | 1 => 16384 | _ => 65536 end) /\
  (exists b, baser_parse 0xf907000040240600 = Some b /\
     Z.land (Z.shiftr 0xf907000040240600 8) 3 = 2 /\ page_size b = 4096).
Proof.
  split; [|by eexists]. intros raw b. unfold baser_parse. case_match; [done|].
  intros E%(inj Some). subst b. cbn [page_size num_pages]. rewrite Z.add_simpl_r, <- Z.land_assoc. change (Z.land 0xff 3) with 3.
  destruct (Z.eqb_spec (Z.land raw 3) 0) as [->|]; [done|].
  destruct (Z.eqb_spec (Z.land raw 3) 1) as [->|]; [done|].
  assert (0 <= Z.land raw 3 < 4) by (change 3 with (2 ^ 2 - 1); rewrite land_mask by lia;
    apply Z.mod_pos_bound; lia).
  assert (Z.land raw 3 = 2 \/ Z.land raw 3 = 3) as [->| ->] by lia; done.
Qed.
