(* ===== verification/BlockBackend.v ===== *)
(** * Block backends

    The trait [BlockBackend] of [src/hypervisor/src/hvf/virtio/block.rs] as a
    class, the contract its documentation gives (a flat, sector-addressed byte
    array) as a class of laws, host files as the standard library uses them,
    and [FileBackend]. A host file is its length and a sparse byte map; reads
    past the end fail, writes extend. *)

From Stdlib Require Import ZArith Lia Bool.
From stdpp Require Import base numbers list list_numbers gmap option.
From S2P Require Import Prelude GuestMem.

Definition SECTOR_SIZE : Z := 512.

(** ** Host files *)

Record File := mkFile { f_len : Z; f_data : gmap Z Z }.

Definition f_byte (f : File) (p : Z) : Z := hbyte (f_data f) p.

Definition f_bytes (f : File) (off : Z) (n : nat) : list Z :=
  (fun p => f_byte f p) <$> seqZ off (Z.of_nat n).

(** [read_exact_at]: the bytes the file has, and whether they filled the buffer. *)
Definition read_exact_at (f : File) (off : Z) (buf : list Z) : bool * list Z :=
  let avail := Z.to_nat (f_len f - off) in
  let n := length buf in
  ((n <=? avail)%nat, f_bytes f off (Nat.min n avail) ++ drop (Nat.min n avail) buf).

(** [write_all_at]. *)
Definition write_all_at (f : File) (off : Z) (bs : list Z) : File :=
  match bs with
  | [] => f
  | _ => mkFile (Z.max (f_len f) (off + Z.of_nat (length bs))) (host_write (f_data f) off bs)
  end.

(** [set_len]: cut off or extend with zeroes. *)
Definition set_len (f : File) (n : Z) : File :=
  mkFile n (if n <? f_len f then filter (fun kv => kv.1 < n) (f_data f) else f_data f).

Definition empty_file : File := mkFile 0 ∅.

(** ** The trait *)

(** [read_at] returns whether it succeeded and the contents of the buffer. *)
Class BlockBackend (B : Type) := {
  read_at : B -> Z -> list Z -> (bool * list Z) * B;
  write_at : B -> Z -> list Z -> bool * B;
  flush : B -> bool * B;
  nsectors : B -> Z;
}.

(** A flat array of [disk_len] bytes. *)
Class FlatDisk (B : Type) `{BlockBackend B} := {
  disk_ok : B -> Prop;
  disk_len : B -> Z;
  disk_byte : B -> Z -> Z;
  read_at_spec b off buf :
    disk_ok b -> 0 <= off -> off + Z.of_nat (length buf) <= disk_len b ->
    read_at b off buf = ((true, disk_byte b <$> seqZ off (Z.of_nat (length buf))), b);
  write_at_spec b off bs :
    disk_ok b -> 0 <= off -> off + Z.of_nat (length bs) <= disk_len b -> bytes bs ->
    exists b', write_at b off bs = (true, b') /\ disk_ok b' /\ disk_len b' = disk_len b /\
      forall p, 0 <= p -> disk_byte b' p =
        if in_range off (off + Z.of_nat (length bs)) p then default 0 (vget bs (p - off))
        else disk_byte b p;
  flush_spec b :
    disk_ok b ->
    exists b', flush b = (true, b') /\ disk_ok b' /\ disk_len b' = disk_len b /\
      forall p, 0 <= p -> disk_byte b' p = disk_byte b p;
  disk_byte_u8 b p : disk_ok b -> is_u8 (disk_byte b p);
}.

(** ** A host file as a disk *)

Record FileBackend := mkFileBackend { fb_file : File; fb_nsectors : Z }.

#[export] Instance file_backend : BlockBackend FileBackend := {|
  read_at b off buf := (read_exact_at (fb_file b) off buf, b);
  write_at b off bs := (true, mkFileBackend (write_all_at (fb_file b) off bs) (fb_nsectors b));
  flush b := (true, b);
  nsectors b := fb_nsectors b;
|}.

(** ** Facts *)

Lemma length_f_bytes f off n : length (f_bytes f off n) = n.
Proof. unfold f_bytes. rewrite length_fmap, length_seqZ. lia. Qed.

Lemma read_exact_at_ok f off buf :
  0 <= off -> off + Z.of_nat (length buf) <= f_len f ->
  read_exact_at f off buf = (true, f_bytes f off (length buf)).
Proof.
  intros Ho Hl. unfold read_exact_at. rewrite Nat.min_l by lia.
  rewrite (proj2 (Nat.leb_le _ _)) by lia. by rewrite drop_all, app_nil_r.
Qed.

Lemma length_read_exact_at f off buf : length (read_exact_at f off buf).2 = length buf.
Proof. cbn. rewrite length_app, length_f_bytes, length_drop. lia. Qed.

Lemma f_byte_write f off bs p :
  f_byte (write_all_at f off bs) p =
  if in_range off (off + Z.of_nat (length bs)) p then default 0 (vget bs (p - off)) else f_byte f p.
Proof.
  unfold f_byte, write_all_at. destruct bs as [|b bs].
  - by rewrite (proj2 (in_range_false _ _ _)) by (cbn; lia).
  - apply hbyte_host_write.
Qed.

Lemma f_len_write f off bs :
  off + Z.of_nat (length bs) <= f_len f -> f_len (write_all_at f off bs) = f_len f.
Proof. intros. unfold write_all_at. destruct bs; cbn [f_len]; lia. Qed.

Definition file_wf (f : File) : Prop := host_wf (f_data f).

Lemma write_all_at_wf f off bs : file_wf f -> bytes bs -> file_wf (write_all_at f off bs).
Proof. intros Hf Hb. unfold write_all_at. destruct bs; [done|]. by apply host_write_wf. Qed.

Lemma f_byte_u8 f p : file_wf f -> is_u8 (f_byte f p).
Proof. apply hbyte_range. Qed.

Lemma f_bytes_u8 f off n : file_wf f -> bytes (f_bytes f off n).
Proof.
  intros Hf. apply Forall_elem. intros b Hb. apply list_elem_of_fmap in Hb as (p & -> & _).
  by apply f_byte_u8.
Qed.

Lemma set_len_wf f n : file_wf f -> file_wf (set_len f n).
Proof.
  intros Hf. unfold file_wf, set_len. cbn [f_data]. case_match; [|done].
  intros k b Hb. apply map_lookup_filter_Some in Hb as [Hb _]. by apply (Hf k).
Qed.

Lemma f_byte_set_len f n p : p < n -> f_byte (set_len f n) p = f_byte f p.
Proof.
  intros Hp. unfold f_byte, set_len, hbyte. cbn [f_data]. case_match; [|done].
  f_equal. destruct (f_data f !! p) as [b|] eqn:E.
  - apply map_lookup_filter_Some. by split.
  - apply map_lookup_filter_None. by left.
Qed.

(** The bytes of the file beyond its end are not part of the disk. *)
#[export] Program Instance file_flat_disk : FlatDisk FileBackend := {|
  disk_ok b := file_wf (fb_file b);
  disk_len b := f_len (fb_file b);
  disk_byte b p := f_byte (fb_file b) p;
|}.
Next Obligation. intros b off buf _ Ho Hl. cbn. by rewrite read_exact_at_ok. Qed.
Next Obligation.
  intros b off bs Hok Ho Hl Hb. eexists. split; [done|]. cbn. split_and!.
  - by apply write_all_at_wf.
  - by apply f_len_write.
  - intros p _. apply f_byte_write.
Qed.
Next Obligation. intros b Hok. by exists b. Qed.
Next Obligation. intros b p Hok. by apply f_byte_u8. Qed.

(** ** Histories of a disk *)

Inductive disk_op :=
| OpWrite (off : Z) (bs : list Z)
| OpFlush.

Definition disk_step `{BlockBackend B} (b : B) (op : disk_op) : bool * B :=
  match op with
  | OpWrite off bs => write_at b off bs
  | OpFlush => flush b
  end.

(** Every operation in turn, and whether all of them succeeded. *)
Fixpoint disk_run `{BlockBackend B} (b : B) (ops : list disk_op) : bool * B :=
  match ops with
  | [] => (true, b)
  | op :: ops =>
      let '(ok, b) := disk_step b op in
      if ok then disk_run b ops else (false, b)
  end.

(** The reference: an array of bytes, updated by each write. *)
Fixpoint array_run (a : Z -> Z) (ops : list disk_op) : Z -> Z :=
  match ops with
  | [] => a
  | OpWrite off bs :: ops =>
      array_run (fun p => if in_range off (off + Z.of_nat (length bs)) p
                          then default 0 (vget bs (p - off)) else a p) ops
  | OpFlush :: ops => array_run a ops
  end.

Definition op_fits (len : Z) (op : disk_op) : Prop :=
  match op with
  | OpWrite off bs => 0 <= off /\ off + Z.of_nat (length bs) <= len /\ bytes bs
  | OpFlush => True
  end.

Lemma array_run_ext ops : forall a a',
  (forall p, 0 <= p -> a p = a' p) -> forall p, 0 <= p -> array_run a ops p = array_run a' ops p.
Proof.
  induction ops as [|[off bs|] ops IH]; intros a a' H p Hp; cbn [array_run]; [by apply H| |by apply IH].
  apply IH; [|done]. intros q Hq. case_match; [done|by apply H].
Qed.

(** A flat disk behaves as the reference array through every history. *)
Lemma disk_run_spec `{FlatDisk B} ops : forall b : B,
  disk_ok b -> Forall (op_fits (disk_len b)) ops ->
  exists b', disk_run b ops = (true, b') /\ disk_ok b' /\ disk_len b' = disk_len b /\
    forall p, 0 <= p -> disk_byte b' p = array_run (disk_byte b) ops p.
Proof.
  induction ops as [|op ops IH]; intros b Hok Hops; cbn [disk_run array_run]; [by exists b|].
  inversion_clear Hops as [|? ? Hop Hrest].
  assert (exists b1, disk_step b op = (true, b1) /\ disk_ok b1 /\ disk_len b1 = disk_len b /\
    forall p, 0 <= p -> disk_byte b1 p = array_run (disk_byte b) [op] p) as (b1 & E & O1 & L1 & B1).
  { destruct op as [off bs|]; cbn [disk_step array_run].
    - destruct Hop as (? & ? & ?). by apply write_at_spec.
    - by apply flush_spec. }
  rewrite E. destruct (IH b1 O1) as (b2 & E2 & O2 & L2 & B2); [by rewrite L1|].
  exists b2. split_and!; [done|done|congruence|]. intros p Hp. rewrite B2 by done.
  destruct op as [off bs|]; cbn [array_run] in *; by apply array_run_ext.
Qed.

(** ** Backends that deal in bytes

    Whatever the request, a read gives bytes and the state stays one that does. *)
Class ByteBackend (B : Type) `{BlockBackend B} := {
  bk_inv : B -> Prop;
  read_at_inv b off buf :
    bk_inv b -> bytes buf -> bytes (read_at b off buf).1.2 /\ bk_inv (read_at b off buf).2;
  write_at_inv b off bs : bk_inv b -> bytes bs -> bk_inv (write_at b off bs).2;
  flush_inv b : bk_inv b -> bk_inv (flush b).2;
}.

Lemma read_exact_at_bytes f off buf : file_wf f -> bytes buf -> bytes (read_exact_at f off buf).2.
Proof.
  intros Hf Hb. cbn. apply Forall_app_2; [by apply f_bytes_u8|by apply Forall_drop].
Qed.

#[export] Program Instance file_byte_backend : ByteBackend FileBackend := {|
  bk_inv b := file_wf (fb_file b);
|}.
Next Obligation. intros b off buf Hb Hbuf. split; [by apply read_exact_at_bytes|done]. Qed.
Next Obligation. intros b off bs Hb Hbs. by apply write_all_at_wf. Qed.
Next Obligation. done. Qed.
