(* ===== verification/Overlay.v ===== *)
(** * The copy-on-write disk overlay

    [OverlayBackend] of [src/hypervisor/src/hvf/virtio/block.rs]: an immutable
    base image, a sparse overlay that takes every write, the bitmap of written
    sectors, and the sidecar file the bitmap is persisted to. The sidecar's
    contents are part of the state, as is whether its handle is open. *)

From Stdlib Require Import ZArith Lia Bool.
From stdpp Require Import base numbers list list_numbers gmap option.
From S2P Require Import Prelude GuestMem BlockBackend.

Record OverlayBackend := mkOverlay {
  ov_base : File;
  ov_overlay : File;
  ov_nsectors : Z;
  ov_written : list Z;
  ov_path : bool;
  ov_sidecar : option File;
  ov_open : bool;
  ov_dirty : list bool;
}.

Definition BITMAP_CHUNK_BYTES : Z := 4096.
Definition BITMAP_CHUNK_WORDS : Z := BITMAP_CHUNK_BYTES / 8.

Definition div_ceil (a b : Z) : Z := (a + b - 1) / b.

Definition set_overlay (f : File) (o : OverlayBackend) : OverlayBackend :=
  mkOverlay (ov_base o) f (ov_nsectors o) (ov_written o) (ov_path o) (ov_sidecar o) (ov_open o)
    (ov_dirty o).

(** Open a base image and a fresh overlay; a stale sidecar is removed. *)
Definition overlay_open (base : File) (nsectors : Z) : OverlayBackend :=
  let words := div_ceil nsectors 64 in
  mkOverlay base (set_len empty_file (sat_mul64 nsectors SECTOR_SIZE)) nsectors
    (replicate (Z.to_nat words) 0) true None false
    (replicate (Z.to_nat (div_ceil words BITMAP_CHUNK_WORDS)) false).

(** [chunks_exact(8)] and [from_le_bytes]. *)
Fixpoint le_words (n : nat) (bs : list Z) : list Z :=
  match n with
  | O => []
  | S n => le_val (take 8 bs) :: le_words n (drop 8 bs)
  end.

(** Reattach the overlay of an earlier run. *)
Definition overlay_resume (base overlay : File) (sidecar : option File) (nsectors : Z) :
    OverlayBackend :=
  let words := div_ceil nsectors 64 in
  match sidecar with
  | Some s =>
      if f_len s =? words * 8 then
        mkOverlay base (set_len overlay (sat_mul64 nsectors SECTOR_SIZE)) nsectors
          (le_words (Z.to_nat words) (f_bytes s 0 (Z.to_nat (words * 8)))) true (Some s) false
          (replicate (Z.to_nat (div_ceil words BITMAP_CHUNK_WORDS)) false)
      else overlay_open base nsectors
  | None => overlay_open base nsectors
  end.

(** The chunk [lo..hi) of the bitmap as bytes. *)
Definition chunk_bytes (written : list Z) (chunk : Z) : list Z :=
  let lo := chunk * BITMAP_CHUNK_WORDS in
  let hi := Z.min ((chunk + 1) * BITMAP_CHUNK_WORDS) (Z.of_nat (length written)) in
  mjoin (le_bytes 8 <$> take (Z.to_nat (hi - lo)) (drop (Z.to_nat lo) written)).

(** The loop over the dirty chunks. *)
Definition persist_chunks (written : list Z) (f : File) (dirty : list bool) : File * list bool :=
  for_n (length dirty) (fun chunk '(f, dirty) =>
    if default false (vget dirty chunk) then
      (write_all_at f (chunk * BITMAP_CHUNK_WORDS * 8) (chunk_bytes written chunk),
       vset chunk false dirty)
    else (f, dirty)) (f, dirty).

Definition persist_bitmap (o : OverlayBackend) : OverlayBackend :=
  if negb (ov_path o) then o
  else if negb (existsb (fun d => d) (ov_dirty o)) then o
  else
    let total := Z.of_nat (length (ov_written o)) * 8 in
    let f := default empty_file (ov_sidecar o) in
    let f := if ov_open o then f else if f_len f =? total then f else set_len f total in
    let '(f, dirty) := persist_chunks (ov_written o) f (ov_dirty o) in
    mkOverlay (ov_base o) (ov_overlay o) (ov_nsectors o) (ov_written o) (ov_path o) (Some f) true
      dirty.

Definition is_written (o : OverlayBackend) (sector : Z) : bool :=
  match vget (ov_written o) (sector / 64) with
  | Some word => negb (Z.land (Z.shiftr word (sector mod 64)) 1 =? 0)
  | None => false
  end.

Definition mark_written (o : OverlayBackend) (sector : Z) : OverlayBackend :=
  let w := sector / 64 in
  match vget (ov_written o) w with
  | Some before =>
      let word := Z.lor before (Z.shiftl 1 (sector mod 64)) in
      let dirty :=
        if word =? before then ov_dirty o else vset (w / BITMAP_CHUNK_WORDS) true (ov_dirty o) in
      mkOverlay (ov_base o) (ov_overlay o) (ov_nsectors o) (vset w word (ov_written o)) (ov_path o)
        (ov_sidecar o) (ov_open o) dirty
  | None => o
  end.

Definition seed_sector (o : OverlayBackend) (sector : Z) : bool * OverlayBackend :=
  if is_written o sector then (true, o)
  else
    let off := u64 (sector * SECTOR_SIZE) in
    let '(ok, tmp) := read_exact_at (ov_base o) off (replicate (Z.to_nat SECTOR_SIZE) 0) in
    if negb ok then (false, o)
    else (true, mark_written (set_overlay (write_all_at (ov_overlay o) off tmp) o) sector).

(** The run of sectors with one source, from [cur]; [n] bytes are still wanted. *)
Fixpoint run_loop (fuel : nat) (o : OverlayBackend) (from_overlay : bool) (cur n run : Z) : Z :=
  match fuel with
  | O => run
  | S fuel =>
      if run <? n then
        let pos := u64 (cur + run) in
        if negb (eqb (is_written o (pos / SECTOR_SIZE)) from_overlay) then run
        else
          let in_sec := SECTOR_SIZE - pos mod SECTOR_SIZE in
          run_loop fuel o from_overlay cur n (run + Z.min in_sec (n - run))
      else run
  end.

(** [done] bytes of the buffer are filled; the loops run at most once per byte. *)
Fixpoint read_loop (fuel : nat) (o : OverlayBackend) (offset : Z) (buf : list Z) (done : nat) :
    bool * list Z :=
  match fuel with
  | O => (false, buf)
  | S fuel =>
      if (done <? length buf)%nat then
        let cur := u64 (offset + Z.of_nat done) in
        let from_overlay := is_written o (cur / SECTOR_SIZE) in
        let n := Z.of_nat (length buf - done) in
        let run := Z.to_nat (run_loop (length buf) o from_overlay cur n 0) in
        let src := if from_overlay then ov_overlay o else ov_base o in
        let '(ok, got) := read_exact_at src cur (take run (drop done buf)) in
        let buf := take done buf ++ got ++ drop (done + run) buf in
        if negb ok then (false, buf) else read_loop fuel o offset buf (done + run)
      else (true, buf)
  end.

Definition overlay_read_at (o : OverlayBackend) (offset : Z) (buf : list Z) : bool * list Z :=
  read_loop (S (length buf)) o offset buf 0.

(** [for sector in first..=last { mark_written(sector) }]. *)
Definition mark_range (o : OverlayBackend) (first last : Z) : OverlayBackend :=
  for_n (Z.to_nat (last - first + 1)) (fun i o => mark_written o (first + i)) o.

Definition overlay_write_at (o : OverlayBackend) (offset : Z) (bs : list Z) :
    bool * OverlayBackend :=
  match bs with
  | [] => (true, o)
  | _ =>
      let end_ := u64 (offset + Z.of_nat (length bs)) in
      let '(ok, o) :=
        if offset mod SECTOR_SIZE =? 0 then (true, o) else seed_sector o (offset / SECTOR_SIZE) in
      if negb ok then (false, o)
      else
        let '(ok, o) :=
          if end_ mod SECTOR_SIZE =? 0 then (true, o) else seed_sector o ((end_ - 1) / SECTOR_SIZE) in
        if negb ok then (false, o)
        else
          let o := set_overlay (write_all_at (ov_overlay o) offset bs) o in
          (true, mark_range o (offset / SECTOR_SIZE) ((end_ - 1) / SECTOR_SIZE))
  end.

Definition overlay_flush (o : OverlayBackend) : bool * OverlayBackend := (true, persist_bitmap o).

#[export] Instance overlay_backend : BlockBackend OverlayBackend := {|
  read_at o off buf := (overlay_read_at o off buf, o);
  write_at o off bs := overlay_write_at o off bs;
  flush o := overlay_flush o;
  nsectors o := ov_nsectors o;
|}.

(** ** The disk a guest sees *)

Definition ov_byte (o : OverlayBackend) (p : Z) : Z :=
  if is_written o (p / SECTOR_SIZE) then f_byte (ov_overlay o) p else f_byte (ov_base o) p.

Record ov_wf (o : OverlayBackend) : Prop := {
  ow_sectors : 0 <= ov_nsectors o /\ ov_nsectors o * SECTOR_SIZE < 2 ^ 63;
  ow_words : Z.of_nat (length (ov_written o)) = div_ceil (ov_nsectors o) 64;
  ow_u64 : forall i w, vget (ov_written o) i = Some w -> is_u64 w;
  ow_base : file_wf (ov_base o) /\ ov_nsectors o * SECTOR_SIZE <= f_len (ov_base o);
  ow_overlay : file_wf (ov_overlay o) /\ ov_nsectors o * SECTOR_SIZE <= f_len (ov_overlay o);
}.

Lemma bit_test w b : 0 <= b -> negb (Z.land (Z.shiftr w b) 1 =? 0) = Z.testbit w b.
Proof.
  intros Hb. transitivity (has_bit (Z.shiftr w b) 0); [done|].
  rewrite has_bit_testbit, Z.shiftr_spec by lia. done.
Qed.

Lemma is_written_testbit o s :
  0 <= s ->
  is_written o s =
  match vget (ov_written o) (s / 64) with Some w => Z.testbit w (s mod 64) | None => false end.
Proof.
  intros Hs. unfold is_written. case_match; [|done]. apply bit_test. apply Z.mod_pos_bound. lia.
Qed.

Lemma mark_written_written o s :
  0 <= s ->
  ov_written (mark_written o s) =
  match vget (ov_written o) (s / 64) with
  | Some w => vset (s / 64) (Z.lor w (Z.shiftl 1 (s mod 64))) (ov_written o)
  | None => ov_written o
  end.
Proof. intros Hs. unfold mark_written. by case_match. Qed.

Lemma mark_written_spec o s t :
  0 <= s -> 0 <= t -> s / 64 < Z.of_nat (length (ov_written o)) ->
  is_written (mark_written o s) t = (s =? t) || is_written o t.
Proof.
  intros Hs Ht Hl. rewrite !is_written_testbit, mark_written_written by done.
  destruct (vget_lt (ov_written o) (s / 64)) as (w & Hw); [Z.div_mod_to_equations; lia|]. rewrite Hw.
  rewrite vget_vset. rewrite (proj2 (Z.leb_le 0 (s / 64))), (proj2 (Z.ltb_lt _ _))
    by (Z.div_mod_to_equations; lia). rewrite !andb_true_r.
  destruct (Z.eqb_spec (s / 64) (t / 64)) as [E|E].
  - rewrite <- E, Hw. rewrite Z.lor_spec, Z.shiftl_1_l, Z.pow2_bits_eqb by (apply Z.mod_pos_bound; lia).
    rewrite orb_comm. f_equal. apply eq_true_iff_eq. rewrite !Z.eqb_eq. Z.div_mod_to_equations; lia.
  - rewrite (proj2 (Z.eqb_neq s t)); [done|]. intros ->. lia.
Qed.

(** Marking touches only the bitmap and its dirty flags. *)
Lemma mark_written_other o s :
  ov_base (mark_written o s) = ov_base o /\ ov_overlay (mark_written o s) = ov_overlay o /\
  ov_nsectors (mark_written o s) = ov_nsectors o /\
  length (ov_written (mark_written o s)) = length (ov_written o) /\
  ov_path (mark_written o s) = ov_path o /\ ov_sidecar (mark_written o s) = ov_sidecar o /\
  ov_open (mark_written o s) = ov_open o /\
  length (ov_dirty (mark_written o s)) = length (ov_dirty o).
Proof.
  unfold mark_written. destruct (vget (ov_written o) (s / 64)) as [w|]; [|done]. cbn.
  rewrite length_vset. split_and!; try done. case_match; [done|]. by rewrite length_vset.
Qed.

Lemma mark_written_wf o s : 0 <= s -> ov_wf o -> ov_wf (mark_written o s).
Proof.
  intros Hs [? ? Hu ? ?]. destruct (mark_written_other o s) as (E1 & E2 & E3 & E4 & _).
  constructor; rewrite ?E1, ?E2, ?E3, ?E4; try done.
  intros i w. rewrite mark_written_written by done.
  destruct (vget (ov_written o) (s / 64)) as [v|] eqn:Ev; [|apply Hu].
  rewrite vget_vset. case_match; [|apply Hu]. intros [= <-].
  apply (lor_range 64); [lia|by apply (Hu (s / 64))|].
  rewrite Z.shiftl_1_l. split; [apply Z.pow_nonneg; lia|]. apply Z.pow_lt_mono_r; try lia.
  all: pose proof (Z.mod_pos_bound s 64); lia.
Qed.

Lemma sector_word o s :
  ov_wf o -> 0 <= s < ov_nsectors o -> s / 64 < Z.of_nat (length (ov_written o)).
Proof. intros Hwf Hs. rewrite (ow_words o Hwf). unfold div_ceil. Z.div_mod_to_equations; lia. Qed.

Lemma mark_range_spec o first last :
  ov_wf o -> 0 <= first -> last < ov_nsectors o ->
  let o' := mark_range o first last in
  ov_wf o' /\ ov_base o' = ov_base o /\ ov_overlay o' = ov_overlay o /\ ov_nsectors o' = ov_nsectors o /\
  forall t, 0 <= t -> is_written o' t = in_range first (last + 1) t || is_written o t.
Proof.
  intros Hwf Hf Hl. unfold mark_range. cbv zeta.
  destruct (Z.leb_spec first last) as [Hle|Hgt].
  2:{ rewrite Z2Nat.nonpos by lia. cbn [for_n]. split_and!; try done. intros t Ht.
      by rewrite (proj2 (in_range_false _ _ _)) by lia. }
  pose proof (for_n_inv (fun i o' => ov_wf o' /\ ov_base o' = ov_base o /\
    ov_overlay o' = ov_overlay o /\ ov_nsectors o' = ov_nsectors o /\
    forall t, 0 <= t -> is_written o' t = in_range first (first + i) t || is_written o t)
    (fun i o => mark_written o (first + i)) (Z.to_nat (last - first + 1)) o) as H.
  rewrite Z2Nat.id in H by lia. replace (first + (last - first + 1)) with (last + 1) in H by lia.
  apply H; clear H.
  - split_and!; try done. intros t Ht. by rewrite (proj2 (in_range_false _ _ _)) by lia.
  - intros i o' Hi (Hw & E1 & E2 & E3 & Hb).
    destruct (mark_written_other o' (first + i)) as (F1 & F2 & F3 & _).
    split_and!; [apply mark_written_wf; [lia|done]|congruence..|].
    intros t Ht. rewrite mark_written_spec by (lia || (apply sector_word; [done|lia])).
    rewrite Hb, orb_assoc by done. f_equal. apply eq_true_iff_eq.
    rewrite orb_true_iff, !in_range_spec, Z.eqb_eq. lia.
Qed.

(** ** Reading: the coalesced runs are the bytes one by one *)

Lemma u64_small x : 0 <= x < 2 ^ 64 -> u64 x = x.
Proof. apply Z.mod_small. Qed.

Section Read.
Context (o : OverlayBackend) (Hwf : ov_wf o).

(** A run stops at its end or at the first byte of another source. *)
Lemma run_loop_spec fuel from cur n run :
  0 <= cur -> cur + n < 2 ^ 64 -> 0 <= run <= n -> n - run <= Z.of_nat fuel ->
  (forall p, cur <= p < cur + run -> is_written o (p / SECTOR_SIZE) = from) ->
  let r := run_loop fuel o from cur n run in
  run <= r <= n /\
  (forall p, cur <= p < cur + r -> is_written o (p / SECTOR_SIZE) = from) /\
  (r = n \/ is_written o ((cur + r) / SECTOR_SIZE) <> from) /\
  (run < n -> is_written o ((cur + run) / SECTOR_SIZE) = from -> run < r).
Proof.
  intros Hc Hn. revert run. induction fuel as [|fuel IH]; intros run Hr Hf Hs; cbn [run_loop].
  { split_and!; try done; [lia..|left; lia|lia]. }
  destruct (Z.ltb_spec run n) as [Hlt|]; [|split_and!; try done; [lia..|left; lia|lia]].
  rewrite u64_small by lia.
  destruct (eqb (is_written o ((cur + run) / SECTOR_SIZE)) from) eqn:E; cbn [negb].
  - apply eqb_prop in E. set (k := Z.min _ _).
    assert (0 < k <= n - run /\ forall p, cur + run <= p < cur + run + k ->
      p / SECTOR_SIZE = (cur + run) / SECTOR_SIZE) as [Hk Hsame].
    { subst k. unfold SECTOR_SIZE. split; [Z.div_mod_to_equations; lia|].
      intros p Hp. Z.div_mod_to_equations; lia. }
    destruct (IH (run + k)) as (H1 & H2 & H3 & H4); [lia|lia| |].
    + intros p Hp. destruct (Z.ltb_spec p (cur + run)); [apply Hs; lia|].
      rewrite Hsame by lia. done.
    + split_and!; [lia|lia|done|done|lia].
  - assert (is_written o ((cur + run) / SECTOR_SIZE) <> from) as Hd
      by (intros <-; by rewrite eqb_reflx in E).
    split_and!; [lia|lia|done|by right|done].
Qed.

Lemma ov_bytes_source from cur n :
  (forall p, cur <= p < cur + Z.of_nat n -> is_written o (p / SECTOR_SIZE) = from) ->
  f_bytes (if from : bool then ov_overlay o else ov_base o) cur n =
  ov_byte o <$> seqZ cur (Z.of_nat n).
Proof.
  intros H. unfold f_bytes. apply list_fmap_ext. intros i p Hp. apply lookup_seqZ_Some in Hp.
  unfold ov_byte. rewrite H by lia. by destruct from.
Qed.

Lemma read_loop_spec fuel offset buf dn :
  0 <= offset -> offset + Z.of_nat (length buf) <= ov_nsectors o * SECTOR_SIZE ->
  (dn <= length buf)%nat -> (length buf - dn < fuel)%nat ->
  read_loop fuel o offset buf dn =
  (true, take dn buf ++ (ov_byte o <$> seqZ (offset + Z.of_nat dn) (Z.of_nat (length buf - dn)))).
Proof.
  intros Ho Hl. revert buf dn Hl. induction fuel as [|fuel IH]; intros buf dn Hl Hd Hf; [lia|].
  cbn [read_loop]. destruct (Nat.ltb_spec dn (length buf)) as [Hlt|Hge].
  2:{ replace (length buf - dn)%nat with 0%nat by lia. rewrite take_ge by lia. by rewrite app_nil_r. }
  destruct (ow_sectors o Hwf) as [_ Hsec].
  assert (u64 (offset + Z.of_nat dn) = offset + Z.of_nat dn) as -> by (apply u64_small; lia).
  set (cur := offset + Z.of_nat dn). set (from := is_written o (cur / SECTOR_SIZE)).
  set (n := Z.of_nat (length buf - dn)).
  destruct (run_loop_spec (length buf) from cur n 0) as (H1 & H2 & _ & H4); [lia..|intros; lia|].
  set (r := run_loop (length buf) o from cur n 0) in *.
  assert (0 < r) by (apply H4; [lia|by rewrite Z.add_0_r]).
  set (k := Z.to_nat r). assert (Z.of_nat k = r) as Hk by lia.
  assert (length (take k (drop dn buf)) = k) as Hlk by (rewrite length_take, length_drop; lia).
  rewrite read_exact_at_ok; rewrite ?Hlk.
  - cbn [negb]. rewrite (ov_bytes_source from cur k) by (intros; apply H2; lia).
    rewrite IH; rewrite ?length_app, ?length_fmap, ?length_seqZ, ?length_take, ?length_drop; [|lia..].
    f_equal. rewrite app_assoc, take_app_le, take_ge
      by (rewrite ?length_app, ?length_fmap, ?length_seqZ, ?length_take; lia).
    rewrite <- app_assoc. f_equal. rewrite <- fmap_app. f_equal.
    replace n with (Z.of_nat k + Z.of_nat (length buf - dn - k)) by lia.
    rewrite seqZ_app by lia. f_equal. f_equal; lia.
  - lia.
  - destruct (ow_base o Hwf) as [_ Hb]. destruct (ow_overlay o Hwf) as [_ Hv].
    destruct from; lia.
Qed.

Lemma overlay_read_spec offset buf :
  0 <= offset -> offset + Z.of_nat (length buf) <= ov_nsectors o * SECTOR_SIZE ->
  overlay_read_at o offset buf = (true, ov_byte o <$> seqZ offset (Z.of_nat (length buf))).
Proof.
  intros Ho Hl. unfold overlay_read_at. rewrite read_loop_spec by lia. cbn [take].
  by rewrite Z.add_0_r, Nat.sub_0_r.
Qed.

End Read.

(** ** The sidecar agrees with the bitmap wherever nothing is dirty *)

Definition sidecar_word (s : option File) (i : Z) : Z :=
  match s with Some f => le_val (f_bytes f (8 * i) 8) | None => 0 end.

Record ov_sync (o : OverlayBackend) : Prop := {
  os_dirty : Z.of_nat (length (ov_dirty o)) =
    div_ceil (Z.of_nat (length (ov_written o))) BITMAP_CHUNK_WORDS;
  os_path : ov_path o = true;
  os_file : forall s, ov_sidecar o = Some s ->
    file_wf s /\ f_len s = Z.of_nat (length (ov_written o)) * 8;
  os_closed : ov_sidecar o = None -> ov_open o = false;
  os_words : forall i w, vget (ov_written o) i = Some w ->
    vget (ov_dirty o) (i / BITMAP_CHUNK_WORDS) = Some false -> w = sidecar_word (ov_sidecar o) i;
}.

Lemma chunk_words_val : BITMAP_CHUNK_WORDS = 512.
Proof. reflexivity. Qed.

Lemma dirty_index n i :
  0 <= i < n -> 0 <= i / BITMAP_CHUNK_WORDS < div_ceil n BITMAP_CHUNK_WORDS.
Proof. rewrite chunk_words_val. unfold div_ceil. intros. Z.div_mod_to_equations; lia. Qed.

Lemma mark_written_sync o s : 0 <= s -> ov_sync o -> ov_sync (mark_written o s).
Proof.
  intros Hs Hy. destruct (mark_written_other o s) as (_ & _ & _ & E4 & E5 & E6 & E7 & E8).
  constructor; rewrite ?E4, ?E5, ?E6, ?E7, ?E8; try apply Hy.
  intros i w. unfold mark_written.
  destruct (vget (ov_written o) (s / 64)) as [v|] eqn:Ev; [|apply Hy]. cbn [ov_written ov_dirty].
  destruct (Z.eqb_spec (Z.lor v (Z.shiftl 1 (s mod 64))) v) as [->|Hne].
  - rewrite vget_vset. case_match eqn:Ec; [|apply Hy]. intros [= <-].
    rewrite !andb_true_iff, Z.eqb_eq in Ec. destruct Ec as [[<- _] _]. by apply Hy.
  - rewrite vget_vset. case_match eqn:Ec.
    + intros _. rewrite !andb_true_iff, Z.eqb_eq in Ec. destruct Ec as [[<- _] _].
      apply vget_Some in Ev as [Hr _]. rewrite vget_vset_eq; [done|].
      rewrite (os_dirty o Hy). by apply dirty_index.
    + intros Hw. rewrite vget_vset. case_match; [done|]. by apply Hy.
Qed.

Lemma mark_range_sync o first last : 0 <= first -> ov_sync o -> ov_sync (mark_range o first last).
Proof.
  intros Hf Hy. unfold mark_range.
  apply (for_n_inv (fun _ o => ov_sync o)); [done|]. intros i o' Hi Hy'.
  apply mark_written_sync; [lia|done].
Qed.

Lemma set_overlay_sync f o : ov_sync o -> ov_sync (set_overlay f o).
Proof. intros []. by constructor. Qed.

(** ** Writing *)

Lemma set_overlay_wf o off bs :
  ov_wf o -> bytes bs -> 0 <= off -> off + Z.of_nat (length bs) <= ov_nsectors o * SECTOR_SIZE ->
  ov_wf (set_overlay (write_all_at (ov_overlay o) off bs) o).
Proof.
  intros [? ? ? ? [Hw Hl]] Hb Ho Hlen. constructor; try done. cbn [set_overlay ov_overlay ov_nsectors].
  split; [by apply write_all_at_wf|]. by rewrite f_len_write by lia.
Qed.

(** Seeding a sector copies it without changing the disk. *)
Lemma seed_sector_spec o s :
  ov_wf o -> ov_sync o -> 0 <= s < ov_nsectors o ->
  exists o', seed_sector o s = (true, o') /\ ov_wf o' /\ ov_sync o' /\
    ov_base o' = ov_base o /\ ov_nsectors o' = ov_nsectors o /\
    (forall t, 0 <= t -> is_written o' t = (s =? t) || is_written o t) /\
    (forall p, 0 <= p -> ov_byte o' p = ov_byte o p).
Proof.
  intros Hwf Hy Hs. unfold seed_sector. destruct (is_written o s) eqn:Ew.
  { exists o. split_and!; try done. intros t Ht. by destruct (Z.eqb_spec s t) as [<-|]. }
  destruct (ow_sectors o Hwf) as [_ Hsec]. destruct (ow_base o Hwf) as [Hbw Hbl].
  unfold SECTOR_SIZE in *. rewrite u64_small by lia.
  rewrite read_exact_at_ok by (rewrite ?length_replicate; lia). cbn [negb].
  rewrite length_replicate. set (tmp := f_bytes (ov_base o) (s * 512) (Z.to_nat 512)).
  set (o1 := set_overlay (write_all_at (ov_overlay o) (s * 512) tmp) o).
  assert (length tmp = 512%nat) as Hlt by apply length_f_bytes.
  assert (ov_wf o1) as Hwf1.
  { apply set_overlay_wf; [done|by apply f_bytes_u8|lia|rewrite Hlt; unfold SECTOR_SIZE; lia]. }
  exists (mark_written o1 s).
  destruct (mark_written_other o1 s) as (E1 & E2 & E3 & _).
  assert (forall t, 0 <= t -> is_written (mark_written o1 s) t = (s =? t) || is_written o t) as Hmark.
  { intros t Ht. rewrite mark_written_spec by (lia || (apply sector_word; [done|cbn; lia])). done. }
  split_and!; [done|apply mark_written_wf; [lia|done]
    |apply mark_written_sync; [lia|by apply set_overlay_sync]|by rewrite E1|by rewrite E3|done|].
  intros p Hp. unfold ov_byte, SECTOR_SIZE in *. rewrite Hmark, E1, E2 by (Z.div_mod_to_equations; lia).
  cbn [o1 set_overlay ov_overlay ov_base]. rewrite f_byte_write, Hlt.
  destruct (Z.eqb_spec s (p / 512)) as [->|Hne]; cbn [orb].
  - rewrite Ew. rewrite (proj2 (in_range_spec _ _ _)) by (Z.div_mod_to_equations; lia).
    rewrite (vget_of_lookup' tmp (p - p / 512 * 512) (f_byte (ov_base o) p)); [done|].
    split; [Z.div_mod_to_equations; lia|]. subst tmp. unfold f_bytes.
    rewrite list_lookup_fmap, lookup_seqZ_lt by (Z.div_mod_to_equations; lia).
    cbn. f_equal. f_equal. Z.div_mod_to_equations; lia.
  - rewrite (proj2 (in_range_false _ _ _)) by (Z.div_mod_to_equations; lia). done.
Qed.

(** Seed a sector only if a write covers part of it. *)
Lemma seed_edge_spec o (whole : bool) s :
  ov_wf o -> ov_sync o -> 0 <= s < ov_nsectors o ->
  exists o', (if whole then (true, o) else seed_sector o s) = (true, o') /\
    ov_wf o' /\ ov_sync o' /\ ov_base o' = ov_base o /\ ov_nsectors o' = ov_nsectors o /\
    (whole = false -> is_written o' s = true) /\
    (forall t, 0 <= t -> is_written o t = true -> is_written o' t = true) /\
    (forall p, 0 <= p -> ov_byte o' p = ov_byte o p).
Proof.
  intros Hwf Hy Hs. destruct whole; [by exists o|].
  destruct (seed_sector_spec o s Hwf Hy Hs) as (o' & E & H1 & H2 & H3 & H4 & H5 & H6).
  exists o'. split_and!; try done.
  - intros _. by rewrite H5, Z.eqb_refl by lia.
  - intros t Ht Hw. rewrite H5, Hw by done. by rewrite orb_true_r.
Qed.

(** The bytes outside the written range that live in a marked sector. *)
Lemma ov_byte_marked o o' off len p :
  0 <= off -> 0 < len -> 0 <= p -> ~ off <= p < off + len ->
  ov_base o' = ov_base o -> f_byte (ov_overlay o') p = f_byte (ov_overlay o) p ->
  (forall t, 0 <= t -> is_written o' t =
    in_range (off / SECTOR_SIZE) ((off + len - 1) / SECTOR_SIZE + 1) t || is_written o t) ->
  (off mod SECTOR_SIZE <> 0 -> is_written o (off / SECTOR_SIZE) = true) ->
  ((off + len) mod SECTOR_SIZE <> 0 -> is_written o ((off + len - 1) / SECTOR_SIZE) = true) ->
  ov_byte o' p = ov_byte o p.
Proof.
  intros Ho Hl Hp Hout Eb Ef Hm H1 H2. unfold ov_byte. rewrite Eb, Ef.
  unfold SECTOR_SIZE in *. rewrite Hm by (Z.div_mod_to_equations; lia).
  destruct (in_range _ _ (p / 512)) eqn:Er; [|done]. apply in_range_spec in Er. cbn [orb].
  assert (p / 512 = off / 512 /\ off mod 512 <> 0 \/
    p / 512 = (off + len - 1) / 512 /\ (off + len) mod 512 <> 0) as [[E Hne]|[E Hne]]
    by (Z.div_mod_to_equations; lia).
  - rewrite E, H1 by done. done.
  - rewrite E, H2 by done. done.
Qed.

Lemma overlay_write_spec o off bs :
  ov_wf o -> ov_sync o -> 0 <= off -> off + Z.of_nat (length bs) <= ov_nsectors o * SECTOR_SIZE ->
  bytes bs ->
  exists o', overlay_write_at o off bs = (true, o') /\ ov_wf o' /\ ov_sync o' /\
    ov_base o' = ov_base o /\ ov_nsectors o' = ov_nsectors o /\
    forall p, 0 <= p -> ov_byte o' p =
      if in_range off (off + Z.of_nat (length bs)) p then default 0 (vget bs (p - off))
      else ov_byte o p.
Proof.
  intros Hwf Hy Ho Hlen Hb. unfold overlay_write_at. destruct bs as [|b0 bs0] eqn:Ebs.
  { exists o. split_and!; try done. intros p Hp. cbn [length].
    by rewrite (proj2 (in_range_false _ _ _)) by lia. }
  rewrite <- Ebs in *. set (len := Z.of_nat (length bs)) in *.
  assert (0 < len) by (subst len; rewrite Ebs; cbn; lia). clear Ebs.
  destruct (ow_sectors o Hwf) as [_ Hsec]. unfold SECTOR_SIZE in Hlen, Hsec.
  rewrite u64_small by lia.
  destruct (seed_edge_spec o (off mod SECTOR_SIZE =? 0) (off / SECTOR_SIZE))
    as (o1 & E1 & W1 & Y1 & B1 & N1 & S1 & M1 & V1); [done|done|
    unfold SECTOR_SIZE; Z.div_mod_to_equations; lia|]. rewrite E1. cbn [negb].
  destruct (seed_edge_spec o1 ((off + len) mod SECTOR_SIZE =? 0) ((off + len - 1) / SECTOR_SIZE))
    as (o2 & E2 & W2 & Y2 & B2 & N2 & S2 & M2 & V2); [done|done|
    rewrite N1; unfold SECTOR_SIZE; Z.div_mod_to_equations; lia|]. rewrite E2. cbn [negb].
  set (o3 := set_overlay (write_all_at (ov_overlay o2) off bs) o2).
  assert (ov_wf o3) as W3 by (apply set_overlay_wf; try done; rewrite N2, N1; unfold SECTOR_SIZE; lia).
  destruct (mark_range_spec o3 (off / SECTOR_SIZE) ((off + len - 1) / SECTOR_SIZE))
    as (W4 & B4 & F4 & N4 & M4); [done|unfold SECTOR_SIZE; Z.div_mod_to_equations; lia
    |cbn; rewrite N2, N1; unfold SECTOR_SIZE; Z.div_mod_to_equations; lia|].
  eexists. split; [done|]. split_and!; [done|apply mark_range_sync; [unfold SECTOR_SIZE;
    Z.div_mod_to_equations; lia|by apply set_overlay_sync]|by rewrite B4; cbn; rewrite B2, B1
    |by rewrite N4; cbn; rewrite N2, N1|].
  intros p Hp. destruct (in_range off (off + len) p) eqn:Er.
  - apply in_range_spec in Er. unfold ov_byte. rewrite M4, F4 by (unfold SECTOR_SIZE; Z.div_mod_to_equations; lia).
    rewrite (proj2 (in_range_spec _ _ (p / SECTOR_SIZE))) by (unfold SECTOR_SIZE; Z.div_mod_to_equations; lia).
    cbn [orb o3 set_overlay ov_overlay]. rewrite f_byte_write. fold len.
    by rewrite (proj2 (in_range_spec _ _ _)) by lia.
  - apply in_range_false in Er. rewrite <- V1, <- V2 by done.
    apply (ov_byte_marked o2 _ off len p); try done; try lia.
    + rewrite F4. cbn [o3 set_overlay ov_overlay]. rewrite f_byte_write. fold len.
      by rewrite (proj2 (in_range_false _ _ _)) by lia.
    + intros Hne. apply M2; [unfold SECTOR_SIZE; Z.div_mod_to_equations; lia|].
      apply S1. by apply Z.eqb_neq.
    + intros Hne. apply S2. by apply Z.eqb_neq.
Qed.

(** ** Persisting the bitmap *)

Lemma lookup_words_bytes ws k j w :
  ws !! k = Some w -> (j < 8)%nat ->
  mjoin (le_bytes 8 <$> ws) !! (8 * k + j)%nat = le_bytes 8 w !! j.
Proof.
  revert k. induction ws as [|x ws IH]; intros k Hk Hj; [done|].
  change (mjoin (le_bytes 8 <$> x :: ws)) with (le_bytes 8 x ++ mjoin (le_bytes 8 <$> ws)).
  destruct k as [|k].
  - injection Hk as ->. rewrite Nat.mul_0_r, Nat.add_0_l, lookup_app_l; [done|].
    by rewrite length_le_bytes.
  - rewrite lookup_app_r by (rewrite length_le_bytes; lia). rewrite length_le_bytes.
    replace (8 * S k + j - 8)%nat with (8 * k + j)%nat by lia. by apply IH.
Qed.

Lemma length_words_bytes ws : length (mjoin (le_bytes 8 <$> ws)) = (8 * length ws)%nat.
Proof.
  induction ws as [|x ws IH]; [done|].
  change (mjoin (le_bytes 8 <$> x :: ws)) with (le_bytes 8 x ++ mjoin (le_bytes 8 <$> ws)).
  rewrite length_app, length_le_bytes, IH. cbn [length]. lia.
Qed.

Lemma words_bytes_u8 ws : bytes (mjoin (le_bytes 8 <$> ws)).
Proof.
  induction ws as [|x ws IH]; [constructor|].
  change (mjoin (le_bytes 8 <$> x :: ws)) with (le_bytes 8 x ++ mjoin (le_bytes 8 <$> ws)).
  apply Forall_app. split; [apply le_bytes_bytes|done].
Qed.

Definition chunk_of (i : Z) : Z := i / BITMAP_CHUNK_WORDS.

Lemma length_chunk_bytes written c :
  0 <= c -> c * 512 < Z.of_nat (length written) ->
  Z.of_nat (length (chunk_bytes written c)) =
  8 * (Z.min ((c + 1) * 512) (Z.of_nat (length written)) - c * 512).
Proof.
  intros Hc Hl. unfold chunk_bytes. rewrite chunk_words_val, length_words_bytes, length_take, length_drop.
  lia.
Qed.

(** Writing a chunk puts exactly its words in the file. *)
Lemma write_chunk_word written f c i w :
  0 <= c -> c * 512 < Z.of_nat (length written) ->
  vget written i = Some w -> is_u64 w ->
  sidecar_word (Some (write_all_at f (c * BITMAP_CHUNK_WORDS * 8) (chunk_bytes written c))) i =
  if chunk_of i =? c then w else sidecar_word (Some f) i.
Proof.
  intros Hc Hl Hw Hu. apply vget_Some in Hw as [Hi Hw]. unfold sidecar_word, chunk_of.
  rewrite chunk_words_val. pose proof (length_chunk_bytes written c Hc Hl) as Hlen.
  destruct (Z.eqb_spec (i / 512) c) as [E|E].
  - assert (f_bytes (write_all_at f (c * 512 * 8) (chunk_bytes written c)) (8 * i) 8 = le_bytes 8 w) as ->.
    { apply list_eq. intros j. unfold f_bytes. rewrite list_lookup_fmap.
      destruct (decide (j < 8)%nat) as [Hj|Hj].
      - rewrite lookup_seqZ_lt by lia. cbn [fmap option_fmap option_map].
        rewrite f_byte_write, (proj2 (in_range_spec _ _ _)) by (Z.div_mod_to_equations; lia).
        destruct (lookup_lt_is_Some_2 (le_bytes 8 w) j) as (b & Hb); [by rewrite length_le_bytes|].
        rewrite Hb. f_equal. rewrite (vget_of_lookup' _ _ b); [done|].
        split; [Z.div_mod_to_equations; lia|]. rewrite <- Hb. unfold chunk_bytes.
        rewrite chunk_words_val.
        replace (Z.to_nat (8 * i + Z.of_nat j - c * 512 * 8)) with
          (8 * Z.to_nat (i - c * 512) + j)%nat by (Z.div_mod_to_equations; lia).
        apply lookup_words_bytes; [|done].
        rewrite lookup_take_lt, lookup_drop by (Z.div_mod_to_equations; lia). rewrite <- Hw. f_equal.
        Z.div_mod_to_equations; lia.
      - rewrite lookup_seqZ_ge by lia. symmetry. apply lookup_ge_None. rewrite length_le_bytes. lia. }
    rewrite le_val_bytes. apply Z.mod_small, Hu.
  - f_equal. unfold f_bytes. apply list_fmap_ext. intros j p Hp. apply lookup_seqZ_Some in Hp.
    rewrite f_byte_write, (proj2 (in_range_false _ _ _)); [done|].
    Z.div_mod_to_equations; lia.
Qed.

(** The state of the loop once chunks below [k] are done. *)
Definition persisted (written : list Z) (f : File) (dirty : list bool) (k : Z)
    (st : File * list bool) : Prop :=
  file_wf st.1 /\ f_len st.1 = f_len f /\ length st.2 = length dirty /\
  (forall c, 0 <= c < Z.of_nat (length dirty) ->
    vget st.2 c = if c <? k then Some false else vget dirty c) /\
  (forall i w, vget written i = Some w -> is_u64 w ->
    sidecar_word (Some st.1) i =
    if (chunk_of i <? k) && default false (vget dirty (chunk_of i)) then w
    else sidecar_word (Some f) i).

Lemma chunk_of_step i k : chunk_of i <> k -> (chunk_of i <? k + 1) = (chunk_of i <? k).
Proof. intros. apply eq_true_iff_eq. rewrite !Z.ltb_lt. lia. Qed.

Section Persist.
Context (written : list Z) (f : File) (dirty : list bool).
Context (Hd : Z.of_nat (length dirty) = div_ceil (Z.of_nat (length written)) BITMAP_CHUNK_WORDS).
Context (Hl : f_len f = Z.of_nat (length written) * 8).

Lemma persist_step k g dk :
  0 <= k < Z.of_nat (length dirty) -> persisted written f dirty k (g, dk) ->
  persisted written f dirty (k + 1)
    (if default false (vget dk k) then
       (write_all_at g (k * BITMAP_CHUNK_WORDS * 8) (chunk_bytes written k), vset k false dk)
     else (g, dk)).
Proof.
  intros Hk (G1 & G2 & G3 & G4 & G5). cbn [fst snd] in *. rewrite G4 by done.
  rewrite (proj2 (Z.ltb_ge k k)) by lia. destruct (vget_lt dirty k) as (b & Hb); [done|]. rewrite Hb.
  assert (k * 512 < Z.of_nat (length written)) as Hkw.
  { rewrite Hd, chunk_words_val in Hk. unfold div_ceil in Hk. Z.div_mod_to_equations; lia. }
  change (default false (Some b)) with b. destruct b; unfold persisted; cbn [fst snd].
  - split; [apply write_all_at_wf; [done|apply words_bytes_u8]|].
    split; [|split; [by rewrite length_vset|split]].
    + rewrite f_len_write; [done|]. rewrite G2, Hl, length_chunk_bytes, chunk_words_val by lia. lia.
    + intros c Hc. rewrite vget_vset, G3, G4 by done.
      rewrite (proj2 (Z.leb_le 0 k)), (proj2 (Z.ltb_lt k _)), !andb_true_r by lia.
      destruct (Z.eqb_spec k c), (Z.ltb_spec c k), (Z.ltb_spec c (k + 1)); try lia; done.
    + intros i w Hw Hu. rewrite (write_chunk_word written g k i w), (G5 i w) by (done || lia).
      destruct (Z.eqb_spec (chunk_of i) k) as [->|Hne]; [|by rewrite chunk_of_step].
      by rewrite (proj2 (Z.ltb_lt k (k + 1))), Hb by lia.
  - split_and!; try done.
    + intros c Hc. rewrite G4 by done.
      destruct (Z.ltb_spec c k), (Z.ltb_spec c (k + 1)); try lia; try done.
      by assert (c = k) as -> by lia.
    + intros i w Hw Hu. rewrite (G5 i w) by done.
      destruct (Z.eqb_spec (chunk_of i) k) as [->|Hne]; [|by rewrite chunk_of_step].
      rewrite Hb. by rewrite !andb_false_r.
Qed.

Lemma persist_chunks_spec :
  file_wf f ->
  persisted written f dirty (Z.of_nat (length dirty)) (persist_chunks written f dirty).
Proof.
  intros Hf. unfold persist_chunks. apply for_n_inv.
  - split_and!; try done.
    + intros c Hc. by rewrite (proj2 (Z.ltb_ge _ _)) by lia.
    + intros i w Hw _. apply vget_Some in Hw as [Hi _].
      unfold chunk_of. pose proof (dirty_index _ i Hi). by rewrite (proj2 (Z.ltb_ge _ _)) by lia.
  - intros k [g dk] Hk Hp. by apply persist_step.
Qed.

End Persist.

Lemma f_byte_zeroes n p : f_byte (set_len empty_file n) p = 0.
Proof.
  unfold f_byte, hbyte, set_len, empty_file. cbn [f_data f_len].
  case_match; [by rewrite map_filter_empty|done].
Qed.

Lemma zeroes_word n i : sidecar_word (Some (set_len empty_file n)) i = 0.
Proof.
  unfold sidecar_word, f_bytes.
  rewrite (list_fmap_ext _ (fun _ => 0) (seqZ (8 * i) (Z.of_nat 8))); [done|].
  intros; apply f_byte_zeroes.
Qed.

Lemma zeroes_wf n : file_wf (set_len empty_file n).
Proof. apply set_len_wf. intros k b. cbn [f_data empty_file]. by rewrite lookup_empty. Qed.

(** The sidecar as [persist_bitmap] opens it. *)
Definition opened_sidecar (o : OverlayBackend) : File :=
  let total := Z.of_nat (length (ov_written o)) * 8 in
  let f := default empty_file (ov_sidecar o) in
  if ov_open o then f else if f_len f =? total then f else set_len f total.

Lemma opened_sidecar_spec o :
  ov_sync o ->
  file_wf (opened_sidecar o) /\ f_len (opened_sidecar o) = Z.of_nat (length (ov_written o)) * 8 /\
  forall i, sidecar_word (Some (opened_sidecar o)) i = sidecar_word (ov_sidecar o) i.
Proof.
  intros Hy. unfold opened_sidecar. destruct (ov_sidecar o) as [s|] eqn:Es; cbn [default from_option id].
  - destruct (os_file o Hy s Es) as [Hs Hls]. rewrite Hls, Z.eqb_refl. by destruct (ov_open o).
  - rewrite (os_closed o Hy Es). change (f_len empty_file) with 0.
    set (n := Z.of_nat _ * 8). replace (if 0 =? n then empty_file else set_len empty_file n)
      with (set_len empty_file n) by (destruct (Z.eqb_spec 0 n) as [<-|]; done).
    split_and!; [apply zeroes_wf|done|]. intros i. apply zeroes_word.
Qed.

(** After a persist nothing is dirty and the sidecar holds the bitmap. *)
Lemma persist_bitmap_spec o :
  ov_wf o -> ov_sync o ->
  let o' := persist_bitmap o in
  ov_wf o' /\ ov_sync o' /\ ov_base o' = ov_base o /\ ov_overlay o' = ov_overlay o /\
  ov_nsectors o' = ov_nsectors o /\ ov_written o' = ov_written o /\
  (forall c, 0 <= c < Z.of_nat (length (ov_dirty o')) -> vget (ov_dirty o') c = Some false).
Proof.
  intros Hwf Hy. unfold persist_bitmap. rewrite (os_path o Hy). cbn [negb].
  destruct (existsb (fun d => d) (ov_dirty o)) eqn:Ed; cbn [negb].
  2:{ cbv zeta. split_and!; try done. intros c Hc. destruct (vget_lt (ov_dirty o) c Hc) as (b & Hb).
      rewrite Hb. destruct b; [|done]. apply not_true_iff_false in Ed. contradict Ed.
      apply existsb_exists. exists true. split; [|done]. apply vget_Some in Hb as [_ Hb].
      by eapply list_elem_of_In, list_elem_of_lookup_2. }
  fold (opened_sidecar o). destruct (opened_sidecar_spec o Hy) as (Hf & Hl & Hw0).
  set (f := opened_sidecar o) in *.
  pose proof (persist_chunks_spec (ov_written o) f (ov_dirty o) (os_dirty o Hy) Hl Hf) as Hp.
  destruct (persist_chunks _ _ _) as [f' dirty']. destruct Hp as (P1 & P2 & P3 & P4 & P5).
  cbn [fst snd] in *. cbv zeta. cbn [ov_base ov_overlay ov_nsectors ov_written ov_dirty].
  split_and!; try done.
  - destruct Hwf. by constructor.
  - constructor; cbn [ov_base ov_overlay ov_nsectors ov_written ov_dirty ov_path ov_sidecar ov_open].
    + rewrite P3. apply Hy.
    + done.
    + intros s [= <-]. split; [done|]. by rewrite P2.
    + done.
    + intros i w Hw _. rewrite (P5 i w Hw (ow_u64 o Hwf i w Hw)).
      pose proof (proj1 (vget_Some _ _ _ Hw)) as Hi. apply dirty_index in Hi.
      rewrite <- (os_dirty o Hy) in Hi. fold (chunk_of i) in *.
      rewrite (proj2 (Z.ltb_lt _ _)) by lia. cbn [andb].
      destruct (vget_lt _ _ Hi) as (b & Hb). rewrite Hb. destruct b; [done|]. cbn [from_option id].
      rewrite (Hw0 i). by apply (os_words o Hy).
  - intros c Hc. rewrite P4 by lia. by rewrite (proj2 (Z.ltb_lt _ _)) by lia.
Qed.

(** ** Opening and reattaching *)

Lemma f_len_set_len f n : f_len (set_len f n) = n.
Proof. done. Qed.

Lemma vget_replicate_inv {A} n (x y : A) i : vget (replicate n x) i = Some y -> y = x.
Proof. intros H%vget_Some. destruct H as [_ H]. by apply lookup_replicate in H as []. Qed.

Section Open.
Context (base : File) (n : Z).
Context (Hbase : file_wf base) (Hn : 0 <= n) (Hmax : n * SECTOR_SIZE < 2 ^ 63).
Context (Hlen : n * SECTOR_SIZE <= f_len base).

Lemma words_nonneg : 0 <= div_ceil n 64.
Proof. unfold div_ceil. Z.div_mod_to_equations; lia. Qed.

Lemma disk_bytes_sat : sat_mul64 n SECTOR_SIZE = n * SECTOR_SIZE.
Proof. unfold sat_mul64. lia. Qed.

Lemma overlay_open_ok : ov_wf (overlay_open base n) /\ ov_sync (overlay_open base n).
Proof.
  pose proof words_nonneg. unfold overlay_open. rewrite disk_bytes_sat. split; constructor;
    cbn [ov_base ov_overlay ov_nsectors ov_written ov_dirty ov_path ov_sidecar ov_open]; try done.
  - rewrite length_replicate. lia.
  - intros i w ->%vget_replicate_inv. by compute.
  - split; [apply zeroes_wf|]. rewrite f_len_set_len. lia.
  - rewrite !length_replicate, (Z2Nat.id (div_ceil n 64)) by done. apply Z2Nat.id.
    rewrite chunk_words_val. unfold div_ceil at 1. Z.div_mod_to_equations; lia.
  - by intros i w ->%vget_replicate_inv.
Qed.

Lemma overlay_open_byte p : ov_byte (overlay_open base n) p = f_byte base p.
Proof.
  unfold ov_byte, is_written, overlay_open. cbn [ov_written ov_base].
  destruct (vget _ _) as [w|] eqn:E; [|done]. apply vget_replicate_inv in E as ->.
  by rewrite Z.shiftr_0_l.
Qed.

End Open.

Lemma le_words_lookup n : forall bs i, (i < n)%nat ->
  le_words n bs !! i = Some (le_val (take 8 (drop (8 * i) bs))).
Proof.
  induction n as [|n IH]; intros bs i Hi; [lia|]. cbn [le_words].
  destruct i as [|i]; [done|]. cbn [lookup list_lookup]. rewrite IH by lia.
  rewrite drop_drop. do 4 f_equal. lia.
Qed.

Lemma length_le_words n : forall bs, length (le_words n bs) = n.
Proof. induction n; intros; cbn; congruence. Qed.

(** What a reload of the sidecar reads as the words. *)
Lemma le_words_sidecar s n i w :
  vget (le_words (Z.to_nat n) (f_bytes s 0 (Z.to_nat (n * 8)))) i = Some w -> 0 <= n ->
  w = sidecar_word (Some s) i.
Proof.
  intros H Hn. apply vget_Some in H as [Hi H]. rewrite length_le_words in Hi.
  rewrite le_words_lookup in H by lia. injection H as <-. unfold sidecar_word. f_equal.
  unfold f_bytes. rewrite <- fmap_drop, <- fmap_take. f_equal. apply list_eq. intros j.
  destruct (decide (j < 8)%nat).
  - rewrite lookup_take_lt, lookup_drop by done. rewrite !lookup_seqZ_lt by lia. f_equal. lia.
  - rewrite lookup_take_ge by lia. symmetry. apply lookup_seqZ_ge. lia.
Qed.

(** Reattached after a persist, the overlay has the bitmap and the data it had. *)
Lemma overlay_resume_spec o :
  ov_wf o -> ov_sync o ->
  (forall c, 0 <= c < Z.of_nat (length (ov_dirty o)) -> vget (ov_dirty o) c = Some false) ->
  let o' := overlay_resume (ov_base o) (ov_overlay o) (ov_sidecar o) (ov_nsectors o) in
  ov_wf o' /\ ov_sync o' /\ ov_nsectors o' = ov_nsectors o /\ ov_base o' = ov_base o /\
  forall p, 0 <= p < ov_nsectors o * SECTOR_SIZE -> ov_byte o' p = ov_byte o p.
Proof.
  intros Hwf Hy Hclean o'. destruct (ow_sectors o Hwf) as [Hn Hmax].
  destruct (ow_base o Hwf) as [Hbf Hbl]. pose proof (words_nonneg (ov_nsectors o) Hn) as Hwn.
  assert (forall i w, vget (ov_written o) i = Some w -> w = sidecar_word (ov_sidecar o) i) as Hall.
  { intros i w Hw. apply (os_words o Hy i w Hw), Hclean. rewrite (os_dirty o Hy).
    apply dirty_index. by apply vget_Some in Hw as []. }
  subst o'. unfold overlay_resume. destruct (ov_sidecar o) as [s|] eqn:Es.
  - destruct (os_file o Hy s Es) as [Hs Hls]. rewrite Hls, (ow_words o Hwf), Z.eqb_refl.
    rewrite disk_bytes_sat by done. set (o' := mkOverlay _ _ _ _ _ _ _ _).
    assert (ov_written o' = ov_written o) as Ew.
    { apply list_eq_same_length with (n := length (ov_written o)); [done| |].
      - subst o'. cbn [ov_written]. rewrite length_le_words. pose proof (ow_words o Hwf). lia.
      - intros i x y Hi Hx Hy'. apply vget_of_lookup in Hx, Hy'. subst o'. cbn [ov_written] in Hx.
        rewrite (le_words_sidecar _ _ _ _ Hx) by done. by rewrite (Hall _ _ Hy'). }
    split_and!; try done.
    + destruct Hwf as [? ? ? ? [? ?]]. constructor; rewrite ?Ew; subst o'; try done.
      cbn [ov_overlay ov_nsectors]. split; [by apply set_len_wf|]. rewrite f_len_set_len. lia.
    + constructor; rewrite ?Ew; subst o'; cbn [ov_dirty ov_path ov_sidecar ov_open]; try done.
      * rewrite (ow_words o Hwf), length_replicate, Z2Nat.id; [done|].
        rewrite chunk_words_val. unfold div_ceil at 1. Z.div_mod_to_equations; lia.
      * intros s' [= <-]. by split; [|rewrite Hls].
      * intros i w Hw _. by apply Hall.
    + intros p Hp. unfold ov_byte, is_written. rewrite Ew. subst o'. cbn [ov_overlay ov_base].
      by rewrite f_byte_set_len by lia.
  - destruct (overlay_open_ok (ov_base o) (ov_nsectors o)) as [H1 H2]; try done.
    split_and!; try done. intros p Hp. rewrite overlay_open_byte. unfold ov_byte, is_written.
    destruct (vget _ _) as [w|] eqn:E; [|done]. apply Hall in E. cbn in E. subst. by rewrite Z.shiftr_0_l.
Qed.

(** ** The overlay is a flat disk *)

#[export] Program Instance overlay_flat_disk : FlatDisk OverlayBackend := {|
  disk_ok o := ov_wf o /\ ov_sync o;
  disk_len o := ov_nsectors o * SECTOR_SIZE;
  disk_byte := ov_byte;
|}.
Next Obligation. intros o off buf [Hwf _] Ho Hl. cbn [read_at overlay_backend]. by rewrite overlay_read_spec. Qed.
Next Obligation.
  intros o off bs [Hwf Hy] Ho Hl Hb.
  destruct (overlay_write_spec o off bs Hwf Hy Ho Hl Hb) as (o' & E & ? & ? & _ & En & ?).
  exists o'. by rewrite En.
Qed.
Next Obligation.
  intros o [Hwf Hy]. destruct (persist_bitmap_spec o Hwf Hy) as (? & ? & Eb & Eo & En & Ew & _).
  exists (persist_bitmap o). split_and!; try done; [by rewrite En|].
  intros p _. unfold ov_byte, is_written. by rewrite Eb, Eo, Ew.
Qed.
Next Obligation.
  intros o p [Hwf _]. unfold ov_byte. case_match; apply f_byte_u8; apply Hwf.
Qed.

(** The base image is never written. *)
Lemma overlay_run_base ops : forall o o',
  ov_wf o -> ov_sync o -> Forall (op_fits (ov_nsectors o * SECTOR_SIZE)) ops ->
  disk_run o ops = (true, o') -> ov_base o' = ov_base o /\ ov_nsectors o' = ov_nsectors o.
Proof.
  induction ops as [|op ops IH]; intros o o' Hwf Hy Hops; cbn [disk_run].
  { intros E%(inj (pair true)). by subst. }
  inversion_clear Hops as [|? ? Hop Hrest]. destruct op as [off bs|]; cbn [disk_step].
  - destruct Hop as (? & ? & ?).
    destruct (overlay_write_spec o off bs) as (o1 & E & ? & ? & Eb & En & _); try done.
    cbn [write_at overlay_backend]. rewrite E, <- Eb, <- En. apply IH; [done..|by rewrite En].
  - destruct (persist_bitmap_spec o Hwf Hy) as (? & ? & Eb & _ & En & _).
    cbn [flush overlay_backend]. unfold overlay_flush. rewrite <- Eb, <- En.
    apply IH; [done..|by rewrite En].
Qed.

(** C4: Copy-on-write is invisible to the guest. From a freshly opened overlay, any
    sequence of in-range writes and flushes succeeds, the base image stays as it
    was, and every in-range read then returns exactly the bytes of a plain array
    that starts as the base image and takes the same writes: partial-sector
    writes are seeded from the base, and the runs the read path coalesces come
    from the right file. *)
Theorem overlay_refines_flat_array base n ops off buf :
  file_wf base -> 0 <= n -> n * SECTOR_SIZE < 2 ^ 63 -> n * SECTOR_SIZE <= f_len base ->
  Forall (op_fits (n * SECTOR_SIZE)) ops ->
  0 <= off -> off + Z.of_nat (length buf) <= n * SECTOR_SIZE ->
  exists o, disk_run (overlay_open base n) ops = (true, o) /\ ov_base o = base /\
    overlay_read_at o off buf =
      (true, array_run (f_byte base) ops <$> seqZ off (Z.of_nat (length buf))).
Proof.
  intros Hb Hn Hmax Hl Hops Ho Hr. destruct (overlay_open_ok base n) as [Hwf Hy]; try done.
  destruct (disk_run_spec ops (overlay_open base n)) as (o & E & [Hwf' Hy'] & Hlen & Hbyte); [done..|].
  destruct (overlay_run_base ops _ o Hwf Hy Hops E) as [Eb En]. exists o. split_and!; [done..|].
  rewrite overlay_read_spec by (done || (rewrite En; done)). f_equal. apply list_fmap_ext.
  intros i p Hp%lookup_seqZ_Some. cbn [disk_byte overlay_flat_disk] in Hbyte. rewrite Hbyte by lia.
  apply array_run_ext; [|lia]. intros q _. apply overlay_open_byte.
Qed.

(** A base of two sectors whose byte 5 is 7. *)
Definition demo_base : File := mkFile 1024 {[5 := 7]}.
Definition demo_ops : list disk_op := [OpWrite 510 [1; 2; 3]; OpFlush; OpWrite 4 [9]].

Lemma demo_base_wf : file_wf demo_base.
Proof. intros k b. cbn [demo_base f_data]. rewrite lookup_singleton_Some. intros [_ <-]. done. Qed.

Lemma demo_ops_fit : Forall (op_fits (2 * SECTOR_SIZE)) demo_ops.
Proof. repeat constructor; vm_compute; congruence. Qed.

Lemma overlay_refines_flat_array_witness :
  exists o, disk_run (overlay_open demo_base 2) demo_ops = (true, o) /\ ov_base o = demo_base /\
    overlay_read_at o 4 [0; 0; 0] =
      (true, array_run (f_byte demo_base) demo_ops <$> seqZ 4 3).
Proof.
  apply (overlay_refines_flat_array demo_base 2 demo_ops 4 [0; 0; 0]);
    [apply demo_base_wf|lia|vm_compute; congruence|vm_compute; congruence|apply demo_ops_fit|lia
    |vm_compute; congruence].
Defined.

(** A flushed overlay survives a restart. After any history of in-range writes and
    flushes, a flush and a reattachment ([resume]) from the base, the overlay
    and the sidecar files give a disk that reads as before, byte for byte: the
    incremental sidecar updates lose no written sector and invent none. *)
Theorem flush_resume_roundtrip base n ops off buf :
  file_wf base -> 0 <= n -> n * SECTOR_SIZE < 2 ^ 63 -> n * SECTOR_SIZE <= f_len base ->
  Forall (op_fits (n * SECTOR_SIZE)) ops ->
  0 <= off -> off + Z.of_nat (length buf) <= n * SECTOR_SIZE ->
  exists o, disk_run (overlay_open base n) ops = (true, o) /\
    let o' := (overlay_flush o).2 in
    overlay_read_at (overlay_resume (ov_base o') (ov_overlay o') (ov_sidecar o') n) off buf =
    overlay_read_at o off buf.
Proof.
  intros Hb Hn Hmax Hl Hops Ho Hr. destruct (overlay_open_ok base n) as [Hwf Hy]; try done.
  destruct (disk_run_spec ops (overlay_open base n)) as (o & E & [Hwf' Hy'] & _); [done..|].
  destruct (overlay_run_base ops _ o Hwf Hy Hops E) as [_ En]. exists o. split; [done|].
  cbn [overlay_flush snd]. destruct (persist_bitmap_spec o Hwf' Hy') as (W & Y & Eb & Eo & Es & Ew & Hc).
  destruct (overlay_resume_spec _ W Y Hc) as (W2 & Y2 & N2 & _ & B2).
  assert (ov_nsectors (persist_bitmap o) = n) as En' by (rewrite Es, En; done).
  rewrite En' in *. rewrite !overlay_read_spec by (done || (rewrite ?N2, ?En; done)).
  f_equal. apply list_fmap_ext. intros i p Hp%lookup_seqZ_Some. rewrite B2 by lia.
  unfold ov_byte, is_written. by rewrite Eb, Eo, Ew.
Qed.

Lemma flush_resume_roundtrip_witness :
  exists o, disk_run (overlay_open demo_base 2) demo_ops = (true, o) /\
    let o' := (overlay_flush o).2 in
    overlay_read_at (overlay_resume (ov_base o') (ov_overlay o') (ov_sidecar o') 2) 4 [0; 0] =
    overlay_read_at o 4 [0; 0].
Proof.
  apply (flush_resume_roundtrip demo_base 2 demo_ops 4 [0; 0]);
    [apply demo_base_wf|lia|vm_compute; congruence|vm_compute; congruence|apply demo_ops_fit|lia
    |vm_compute; congruence].
Defined.

(** ** The overlay deals in bytes *)

Definition ov_files (o : OverlayBackend) : Prop := file_wf (ov_base o) /\ file_wf (ov_overlay o).

Lemma mark_written_files o s : ov_files o -> ov_files (mark_written o s).
Proof. unfold mark_written. by case_match. Qed.

Lemma mark_range_files o a b : ov_files o -> ov_files (mark_range o a b).
Proof.
  intros Ho. unfold mark_range.
  apply (for_n_inv (fun _ o => ov_files o)); [done|]. intros. by apply mark_written_files.
Qed.

Lemma seed_sector_files o s : ov_files o -> ov_files (seed_sector o s).2.
Proof.
  intros Ho. unfold seed_sector. case_match; [done|].
  destruct (read_exact_at _ _ _) as [ok tmp] eqn:E. destruct ok; cbn [negb snd]; [|done].
  apply mark_written_files. destruct Ho as [Hb Hv]. split; [done|]. apply write_all_at_wf; [done|].
  change tmp with (true, tmp).2. rewrite <- E. apply read_exact_at_bytes; [done|].
  apply Forall_replicate. unfold is_u8. lia.
Qed.

Lemma overlay_write_files o off bs : ov_files o -> bytes bs -> ov_files (overlay_write_at o off bs).2.
Proof.
  intros Ho Hb. unfold overlay_write_at. destruct bs as [|x bs]; [done|].
  set (end_ := u64 _).
  assert (forall (c : bool) o s, ov_files o -> ov_files (if c then (true, o) else seed_sector o s).2) as Hs.
  { intros [] o' s Ho'; [done|by apply seed_sector_files]. }
  pose proof (Hs (off mod SECTOR_SIZE =? 0) o (off / SECTOR_SIZE) Ho) as H1.
  destruct (if off mod SECTOR_SIZE =? 0 then _ else _) as [ok o1]. cbn [snd] in H1.
  destruct ok; cbn [negb]; [|done].
  pose proof (Hs (end_ mod SECTOR_SIZE =? 0) o1 ((end_ - 1) / SECTOR_SIZE) H1) as H2.
  destruct (if end_ mod SECTOR_SIZE =? 0 then _ else _) as [ok o2]. cbn [snd] in H2.
  destruct ok; cbn [negb snd]; [|done].
  apply mark_range_files. destruct H2 as [Hb2 Hv2]. split; [done|]. by apply write_all_at_wf.
Qed.

Lemma read_loop_bytes fuel o off buf done_ :
  ov_files o -> bytes buf -> bytes (read_loop fuel o off buf done_).2.
Proof.
  intros Ho. revert buf done_. induction fuel as [|fuel IH]; intros buf k Hb; cbn [read_loop]; [done|].
  case_match; [|done]. set (run := Z.to_nat _). set (cur := u64 _).
  destruct (read_exact_at _ _ _) as [ok got] eqn:E.
  assert (bytes got) as Hg.
  { change got with (ok, got).2. rewrite <- E. apply read_exact_at_bytes.
    - destruct Ho. by destruct (is_written _ _).
    - by apply Forall_take, Forall_drop. }
  assert (bytes (take k buf ++ got ++ drop (k + run) buf)) as Hn.
  { apply Forall_app_2; [by apply Forall_take|]. apply Forall_app_2; [done|by apply Forall_drop]. }
  destruct ok; cbn [negb snd]; [by apply IH|done].
Qed.

#[export] Program Instance overlay_byte_backend : ByteBackend OverlayBackend := {| bk_inv := ov_files |}.
Next Obligation. intros o off buf Ho Hb. split; [by apply read_loop_bytes|done]. Qed.
Next Obligation. intros. by apply overlay_write_files. Qed.
Next Obligation.
  intros o Ho. cbn. unfold persist_bitmap. case_match; [done|]. case_match; [done|].
  by destruct (persist_chunks _ _ _).
Qed.
