(* ===== verification/BlockDev.v ===== *)
(** * The virtio block device

    [BlockDevice] of [src/hypervisor/src/hvf/virtio/block.rs]: one request
    chain at a time, over any [BlockBackend]. A request's state is the backend
    and guest memory, passed along explicitly. [dispatch] returns [Err tt]
    where the code's [?] returns [None], which it only does before it touches
    any state; [NoFuel] can come only from the walk over write-zeroes
    descriptors. The theorems on data are proved against the [FlatDisk] laws
    and so hold of the host file and of the overlay alike. *)

From Stdlib Require Import ZArith Lia Bool.
From stdpp Require Import base numbers list list_numbers gmap option.
From S2P Require Import Prelude GuestMem VirtQueue BlockBackend.

Definition VIRTIO_BLK_T_IN : Z := 0.
Definition VIRTIO_BLK_T_OUT : Z := 1.
Definition VIRTIO_BLK_T_FLUSH : Z := 4.
Definition VIRTIO_BLK_T_GET_ID : Z := 8.
Definition VIRTIO_BLK_T_DISCARD : Z := 11.
Definition VIRTIO_BLK_T_WRITE_ZEROES : Z := 13.
Definition VIRTIO_BLK_S_OK : Z := 0.
Definition VIRTIO_BLK_S_IOERR : Z := 1.
Definition VIRTIO_BLK_S_UNSUPP : Z := 2.

Record Completed := mkCompleted { c_status : Z; c_used_len : Z }.

Record BlockDevice (B : Type) := mkBlk { blk_backend : B; blk_serial : list Z }.
Arguments mkBlk {B} _ _.
Arguments blk_backend {B} _.
Arguments blk_serial {B} _.

(** The serial as bytes, cut or padded to 20. *)
Definition blk_new {B} (backend : B) (serial : list Z) : BlockDevice B :=
  mkBlk backend (take 20 serial ++ replicate (20 - length serial) 0).

Section Device.
Context `{BlockBackend B}.

Definition blk_nsectors (d : BlockDevice B) : Z := nsectors (blk_backend d).

(** The data segments of a read: all writable ones but the status. *)
Fixpoint do_read_loop (segs : list Segment) (bk : B) (m : GuestMemory) (offset written : Z) :
    (Z * Z) * B * GuestMemory :=
  match segs with
  | [] => ((VIRTIO_BLK_S_OK, written), bk, m)
  | seg :: segs =>
      match with_slice_mut m (seg_gpa seg) (Z.to_nat (seg_len seg)) (fun buf =>
              let '((ok, buf'), bk') := read_at bk offset buf in ((ok, bk'), buf')) with
      | Ok ((ok, bk'), m') =>
          if negb ok then ((VIRTIO_BLK_S_IOERR, written), bk', m')
          else do_read_loop segs bk' m' (u64 (offset + seg_len seg))
                 (sat_add32 written (seg_len seg))
      | _ => ((VIRTIO_BLK_S_IOERR, written), bk, m)
      end
  end.

Definition do_read (bk : B) (m : GuestMemory) (c : DescChain) (offset : Z) :
    (Z * Z) * B * GuestMemory :=
  do_read_loop (removelast (writable c)) bk m offset 0.

Fixpoint do_write_loop (segs : list Segment) (bk : B) (m : GuestMemory) (offset : Z) : Z * B :=
  match segs with
  | [] => (VIRTIO_BLK_S_OK, bk)
  | seg :: segs =>
      match with_slice m (seg_gpa seg) (Z.to_nat (seg_len seg)) (write_at bk offset) with
      | Ok (ok, bk') =>
          if negb ok then (VIRTIO_BLK_S_IOERR, bk')
          else do_write_loop segs bk' m (u64 (offset + seg_len seg))
      | _ => (VIRTIO_BLK_S_IOERR, bk)
      end
  end.

Definition do_write (bk : B) (m : GuestMemory) (c : DescChain) (offset : Z) : Z * B :=
  do_write_loop (tail (readable c)) bk m offset.

Definition ZERO_CHUNK : Z := Z.shiftl 1 20.

(** Zeroes over [remaining] bytes, a chunk at a time. *)
Fixpoint zero_range (fuel : nat) (bk : B) (offset remaining : Z) : res unit (bool * B) :=
  match fuel with
  | O => NoFuel
  | S fuel =>
      if 0 <? remaining then
        let n := Z.min remaining ZERO_CHUNK in
        let '(ok, bk) := write_at bk offset (replicate (Z.to_nat n) 0) in
        if negb ok then Ok (false, bk) else zero_range fuel bk (u64 (offset + n)) (remaining - n)
      else Ok (true, bk)
  end.

(** The descriptors of one segment, from [at]. *)
Fixpoint zero_seg (fuel : nat) (bk : B) (m : GuestMemory) (at_ end_ : Z) : res unit (bool * B) :=
  match fuel with
  | O => NoFuel
  | S fuel =>
      if u64 (at_ + 16) <=? end_ then
        match read_u64 m at_, read_u32 m (u64 (at_ + 8)) with
        | Ok sector, Ok count =>
            match checked_mul64 sector SECTOR_SIZE with
            | None => Ok (false, bk)
            | Some offset =>
                let remaining := count * SECTOR_SIZE in
                '(ok, bk) ← zero_range (S (Z.to_nat (remaining / ZERO_CHUNK + 1))) bk offset remaining;
                if negb ok then Ok (false, bk) else zero_seg fuel bk m (u64 (at_ + 16)) end_
            end
        | _, _ => Ok (false, bk)
        end
      else Ok (true, bk)
  end.

Fixpoint zero_segs (segs : list Segment) (bk : B) (m : GuestMemory) : res unit (Z * B) :=
  match segs with
  | [] => Ok (VIRTIO_BLK_S_OK, bk)
  | seg :: segs =>
      '(ok, bk) ← zero_seg (S (Z.to_nat (seg_len seg / 16 + 1))) bk m (seg_gpa seg)
                    (u64 (seg_gpa seg + seg_len seg));
      if negb ok then Ok (VIRTIO_BLK_S_IOERR, bk) else zero_segs segs bk m
  end.

Definition do_write_zeroes (bk : B) (m : GuestMemory) (c : DescChain) : res unit (Z * B) :=
  zero_segs (tail (readable c)) bk m.

Definition do_get_id (serial : list Z) (m : GuestMemory) (c : DescChain) : (Z * Z) * GuestMemory :=
  match writable c with
  | [] => ((VIRTIO_BLK_S_IOERR, 0), m)
  | _ =>
      match removelast (writable c) with
      | seg :: _ =>
          let n := Nat.min (Z.to_nat (seg_len seg)) (length serial) in
          match mem_write m (seg_gpa seg) (take n serial) with
          | Ok m' => ((VIRTIO_BLK_S_OK, Z.of_nat n), m')
          | _ => ((VIRTIO_BLK_S_IOERR, 0), m)
          end
      | [] => ((VIRTIO_BLK_S_OK, 0), m)
      end
  end.

(** [.ok()?] *)
Definition ok_q {E A} (r : res E A) : res unit A := map_err (fun _ => tt) r.

Definition dispatch (bk : B) (serial : list Z) (m : GuestMemory) (c : DescChain) :
    res unit ((Z * Z) * B * GuestMemory) :=
  match readable c with
  | [] => Err tt
  | hdr_seg :: _ =>
      if seg_len hdr_seg <? 16 then Ok ((VIRTIO_BLK_S_IOERR, 0), bk, m)
      else
        req_type ← ok_q (read_u32 m (seg_gpa hdr_seg));
        sector ← ok_q (read_u64 m (u64 (seg_gpa hdr_seg + 8)));
        match checked_mul64 sector SECTOR_SIZE with
        | None => Err tt
        | Some offset =>
            if req_type =? VIRTIO_BLK_T_IN then Ok (do_read bk m c offset)
            else if req_type =? VIRTIO_BLK_T_OUT then
              let '(st, bk) := do_write bk m c offset in Ok ((st, 0), bk, m)
            else if req_type =? VIRTIO_BLK_T_FLUSH then
              let '(ok, bk) := flush bk in
              Ok ((if ok : bool then VIRTIO_BLK_S_OK else VIRTIO_BLK_S_IOERR, 0), bk, m)
            else if req_type =? VIRTIO_BLK_T_GET_ID then
              let '(r, m) := do_get_id serial m c in Ok (r, bk, m)
            else if req_type =? VIRTIO_BLK_T_DISCARD then Ok ((VIRTIO_BLK_S_OK, 0), bk, m)
            else if req_type =? VIRTIO_BLK_T_WRITE_ZEROES then
              '(st, bk) ← do_write_zeroes bk m c; Ok ((st, 0), bk, m)
            else Ok ((VIRTIO_BLK_S_UNSUPP, 0), bk, m)
        end
  end.

(** [let _ = mem.write(...)] of the status byte. *)
Definition put_status (m : GuestMemory) (seg : Segment) (status : Z) : GuestMemory :=
  match mem_write m (u64 (seg_gpa seg + sat_sub (seg_len seg) 1)) [status] with
  | Ok m' => m'
  | _ => m
  end.

Definition complete (m : GuestMemory) (c : DescChain) (status data_written : Z) :
    Completed * GuestMemory :=
  match list.last (writable c) with
  | Some seg => (mkCompleted status (sat_add32 data_written 1), put_status m seg status)
  | None => (mkCompleted status data_written, m)
  end.

Definition process (d : BlockDevice B) (m : GuestMemory) (c : DescChain) :
    res unit (Completed * BlockDevice B * GuestMemory) :=
  match dispatch (blk_backend d) (blk_serial d) m c with
  | Ok ((status, data_written), bk, m) =>
      let '(r, m) := complete m c status data_written in Ok (r, mkBlk bk (blk_serial d), m)
  | Err _ => let '(r, m) := complete m c VIRTIO_BLK_S_IOERR 0 in Ok (r, d, m)
  | Panic => Panic
  | NoFuel => NoFuel
  end.

End Device.

(** ** Guest memory outside the request's buffers *)

Definition in_seg (s : Segment) (a : Z) : Prop := seg_gpa s <= a < seg_gpa s + seg_len s.

(** Same regions, and the same bytes outside [segs]. *)
Definition frames (segs : list Segment) (m m' : GuestMemory) : Prop :=
  regions m' = regions m /\
  forall a, Forall (fun s => ~ in_seg s a) segs -> gbyte m' a = gbyte m a.

Lemma frames_refl segs m : frames segs m m.
Proof. done. Qed.

Lemma frames_trans segs m1 m2 m3 : frames segs m1 m2 -> frames segs m2 m3 -> frames segs m1 m3.
Proof.
  intros [R1 B1] [R2 B2]. split; [congruence|]. intros a Ha. by rewrite B2, B1.
Qed.

Lemma frames_mono segs segs' m m' : segs ⊆ segs' -> frames segs m m' -> frames segs' m m'.
Proof.
  intros Hs [R F]. split; [done|]. intros a Ha. apply F. rewrite Forall_elem in *. auto.
Qed.

Lemma frames_write m gpa bs m' seg :
  regions_wf (regions m) -> mem_write m gpa bs = Ok m' ->
  seg_gpa seg <= gpa -> gpa + Z.of_nat (length bs) <= seg_gpa seg + seg_len seg ->
  frames [seg] m m'.
Proof.
  intros Hr (p & Hp & ->)%mem_write_Ok H1 H2. split; [done|]. intros a Ha.
  pose proof (Forall_inv Ha) as Ha'. unfold in_seg in Ha'.
  eapply gbyte_host_frame; [done|exact Hp|lia|lia|lia].
Qed.

Lemma removelast_incl {A} (l : list A) : removelast l ⊆ l.
Proof.
  induction l as [|x l IH]; [done|]. cbn. destruct l; [set_solver|]. set_solver.
Qed.

Lemma put_status_frames m seg st :
  regions_wf (regions m) -> 0 <= seg_gpa seg -> 0 < seg_len seg ->
  seg_gpa seg + seg_len seg <= 2 ^ 64 -> frames [seg] m (put_status m seg st).
Proof.
  intros Hr H0 Hl Hb. unfold put_status. case_match eqn:E; try apply frames_refl.
  unfold sat_sub in E. rewrite Z.max_r in E by lia. unfold u64 in E.
  rewrite Z.mod_small in E by lia. eapply frames_write; [done|exact E|lia|cbn; lia].
Qed.

Section Confined.
Context `{BlockBackend B}.

Lemma do_read_loop_frames segs : forall (bk : B) m offset written,
  regions_wf (regions m) -> Forall (fun s => 0 <= seg_len s) segs ->
  frames segs m (do_read_loop segs bk m offset written).2.
Proof.
  induction segs as [|seg segs IH]; intros bk m offset written Hr Hl; cbn [do_read_loop].
  { apply frames_refl. }
  inversion_clear Hl as [|? ? Hl0 Hls]. unfold with_slice_mut.
  destruct (with_ptr m (seg_gpa seg) _) as [p| | |] eqn:Hp; cbn; try apply frames_refl.
  destruct (read_at bk offset _) as [[ok buf'] bk'] eqn:Er. cbn.
  set (m1 := mkMem _ _). assert (frames (seg :: segs) m m1) as F1.
  { split; [done|]. intros a Ha. pose proof (Forall_inv Ha) as Ha'. unfold in_seg in Ha'.
    eapply gbyte_host_frame; [done|exact Hp|lia| |lia]. rewrite length_take. lia. }
  destruct ok; cbn; [|done]. eapply frames_trans; [exact F1|].
  eapply frames_mono; [|apply IH; [by rewrite (proj1 F1)|done]]. set_solver.
Qed.

Lemma do_get_id_frames serial m c :
  regions_wf (regions m) -> Forall (fun s => 0 <= seg_len s) (writable c) ->
  frames (writable c) m (do_get_id serial m c).2.
Proof.
  intros Hr Hl. unfold do_get_id. pose proof (removelast_incl (writable c)) as Hi.
  destruct (writable c) as [|w ws] eqn:Ew; [apply frames_refl|]. rewrite <- Ew in *.
  destruct (removelast (writable c)) as [|seg rest]; [apply frames_refl|].
  assert (seg ∈ writable c) as Hin by set_solver.
  rewrite Forall_elem in Hl. specialize (Hl _ Hin).
  case_match eqn:E; try apply frames_refl. cbn. eapply (frames_mono [seg]); [set_solver|].
  eapply frames_write; [done|exact E|lia|]. rewrite length_take. lia.
Qed.

Lemma dispatch_frames (bk : B) serial m c r :
  regions_wf (regions m) -> Forall (fun s => 0 <= seg_len s) (writable c) ->
  dispatch bk serial m c = Ok r -> frames (writable c) m r.2.
Proof.
  intros Hr Hl. unfold dispatch. destruct (readable c) as [|hdr rs]; [done|].
  case_match; [intros [= <-]; apply frames_refl|].
  destruct (ok_q (read_u32 _ _)) as [ty| | |]; [cbn|done..].
  destruct (ok_q (read_u64 _ _)) as [sector| | |]; [cbn|done..].
  destruct (checked_mul64 _ _) as [offset|]; [|done].
  case_match.
  { intros [= <-]. unfold do_read. eapply frames_mono; [apply removelast_incl|].
    apply do_read_loop_frames; [done|]. eapply Forall_elem. intros s Hs.
    rewrite Forall_elem in Hl. by apply Hl, removelast_incl. }
  case_match; [destruct (do_write _ _ _ _); intros [= <-]; apply frames_refl|].
  case_match; [destruct (flush bk); intros [= <-]; apply frames_refl|].
  case_match.
  { pose proof (do_get_id_frames serial m c Hr Hl). destruct (do_get_id _ _ _). by intros [= <-]. }
  case_match; [intros [= <-]; apply frames_refl|].
  case_match; [|intros [= <-]; apply frames_refl].
  destruct (do_write_zeroes _ _ _) as [[st bk']| | |]; cbn; [|done..]. intros [= <-]. apply frames_refl.
Qed.

Lemma process_frames (d : BlockDevice B) m c r d' m' :
  regions_wf (regions m) ->
  Forall (fun s => 0 <= seg_gpa s /\ 0 < seg_len s /\ seg_gpa s + seg_len s <= 2 ^ 64) (writable c) ->
  process d m c = Ok (r, d', m') -> frames (writable c) m m'.
Proof.
  intros Hr Hs. assert (Forall (fun s => 0 <= seg_len s) (writable c)) as Hl
    by (rewrite Forall_elem in *; intros s Hin; destruct (Hs s Hin); lia).
  assert (forall m1 st w, frames (writable c) m m1 -> frames (writable c) m (complete m1 c st w).2)
    as Hc.
  { intros m1 st w F. unfold complete. destruct (list.last (writable c)) as [seg|] eqn:El; [|done].
    apply last_Some_elem_of in El. rewrite Forall_elem in Hs. destruct (Hs _ El) as (? & ? & ?).
    eapply frames_trans; [exact F|]. eapply (frames_mono [seg]); [set_solver|].
    apply put_status_frames; try done. by rewrite (proj1 F). }
  intros E. unfold process in E.
  destruct (dispatch _ _ m c) as [[[[st w] bk'] m1]|e| |] eqn:Ed; try done.
  - apply dispatch_frames in Ed; [|done..]. specialize (Hc m1 st w Ed).
    destruct (complete m1 c st w). by injection E as <- <- <-.
  - specialize (Hc m VIRTIO_BLK_S_IOERR 0 (frames_refl _ _)).
    destruct (complete m c _ _). by injection E as <- <- <-.
Qed.


(** ** A request is always completed *)

Lemma zero_range_total fuel (bk : B) off rem :
  rem <= (Z.of_nat fuel - 1) * ZERO_CHUNK -> (0 < fuel)%nat -> exists r, zero_range fuel bk off rem = Ok r.
Proof.
  revert bk off rem. induction fuel as [|fuel IH]; intros bk off rem Hr Hf; [lia|]. cbn [zero_range].
  destruct (Z.ltb_spec 0 rem); [|eauto]. destruct (write_at _ _ _) as [[] bk']; cbn [negb]; [|eauto].
  assert (0 < ZERO_CHUNK) as Hz by reflexivity. set (z := ZERO_CHUNK) in *. clearbody z.
  assert (0 < Z.of_nat fuel) by nia.
  apply IH; [destruct (Z.min_spec rem z) as [[? ->]|[? ->]]; nia|lia].
Qed.

Lemma zero_seg_total fuel (bk : B) m at_ end_ :
  0 <= at_ <= end_ -> end_ <= 2 ^ 64 - 17 -> end_ - at_ <= 16 * (Z.of_nat fuel - 1) -> (0 < fuel)%nat ->
  mem_wf m -> exists r, zero_seg fuel bk m at_ end_ = Ok r.
Proof.
  revert bk at_. induction fuel as [|fuel IH]; intros bk at_ Ha He Hd Hf Hm; [lia|]. cbn [zero_seg].
  destruct (Z.leb_spec (u64 (at_ + 16)) end_) as [Hle|]; [|eauto].
  destruct (read_u64 m at_); eauto. destruct (read_u32 m _) as [count| | |] eqn:Ec; eauto.
  destruct (checked_mul64 _ _) as [off|]; [|eauto].
  apply read_u32_range in Ec; [|done]. unfold is_u32 in Ec.
  destruct (zero_range_total (S (Z.to_nat (count * SECTOR_SIZE / ZERO_CHUNK + 1))) bk off
    (count * SECTOR_SIZE)) as [[ok bk'] ->].
  { unfold SECTOR_SIZE, ZERO_CHUNK. change (Z.shiftl 1 20) with 1048576.
    Z.div_mod_to_equations. lia. }
  { lia. }
  cbn [mbind res_bind_inst]. destruct ok; cbn [negb]; [|eauto].
  unfold u64 in *. rewrite Z.mod_small in * by lia. apply IH; (done || lia).
Qed.

(** A segment that ends 16 bytes or more below the top of the address space. *)
Definition seg_low (s : Segment) : Prop :=
  0 <= seg_gpa s /\ 0 <= seg_len s < 2 ^ 32 /\ seg_gpa s + seg_len s <= 2 ^ 64 - 17.

Lemma zero_segs_total segs (bk : B) m :
  mem_wf m -> Forall seg_low segs -> exists r, zero_segs segs bk m = Ok r.
Proof.
  intros Hm Hs. revert bk. induction Hs as [|s segs (H0 & Hl & He) _ IH]; intros bk; cbn [zero_segs]; [eauto|].
  unfold u64. rewrite Z.mod_small by lia.
  destruct (zero_seg_total (S (Z.to_nat (seg_len s / 16 + 1))) bk m (seg_gpa s)
    (seg_gpa s + seg_len s)) as [[ok bk'] ->]; try done; try lia.
  { Z.div_mod_to_equations. lia. }
  cbn [mbind res_bind_inst]. destruct ok; cbn [negb]; eauto.
Qed.

Lemma ok_q_read_settles {A} (r : res GuestMemError A) : settles r -> settles (ok_q r).
Proof. by destruct r. Qed.

Lemma process_total (d : BlockDevice B) m c :
  mem_wf m -> Forall seg_low (readable c) -> exists r, process d m c = Ok r.
Proof.
  intros Hm Hs. unfold process.
  assert (settles (dispatch (blk_backend d) (blk_serial d) m c)) as Hd.
  { unfold dispatch. destruct (readable c) as [|hdr rs] eqn:Er; [done|]. case_match; [done|].
    apply settles_bind; [apply ok_q_read_settles; eauto with gimbal|intros ty _].
    apply settles_bind; [apply ok_q_read_settles; eauto with gimbal|intros sector _].
    destruct (checked_mul64 _ _) as [off|]; [|done].
    case_match; [done|]. case_match; [by destruct (do_write _ _ _ _)|].
    case_match; [by destruct (flush _)|]. case_match; [by destruct (do_get_id _ _ _)|].
    case_match; [done|]. case_match; [|done]. unfold do_write_zeroes. rewrite Er. cbn [tail].
    destruct (zero_segs_total rs (blk_backend d) m Hm) as [[st bk] ->]; [by inversion Hs|done]. }
  destruct (dispatch _ _ _ _) as [[[[st w] bk] m1]|e| |]; try done;
    destruct (complete _ _ _ _); eauto.
Qed.

(** ** Bytes stay bytes *)

Definition blk_inv `{!ByteBackend B} (d : BlockDevice B) : Prop :=
  bk_inv (blk_backend d) /\ bytes (blk_serial d).

Section Bytes.
Context `{!ByteBackend B}.

Lemma with_slice_mut_wf {R} m gpa n (f : list Z -> R * list Z) r m' :
  mem_wf m -> (forall bs, bytes bs -> bytes (f bs).2) ->
  with_slice_mut m gpa n f = Ok (r, m') -> mem_wf m'.
Proof.
  intros Hm Hf Hw. unfold with_slice_mut in Hw. apply bind_Ok in Hw as (p & Hp & Hw).
  specialize (Hf (host_read (host m) p n) ltac:(apply host_read_bytes, Hm)).
  destruct (f _) as [r' bs]. injection Hw as <- <-. split; [apply Hm|].
  apply host_write_wf; [apply Hm|]. by apply Forall_take.
Qed.

Lemma do_read_loop_inv segs : forall (bk : B) m off written,
  bk_inv bk -> mem_wf m ->
  bk_inv (do_read_loop segs bk m off written).1.2 /\ mem_wf (do_read_loop segs bk m off written).2.
Proof.
  induction segs as [|seg segs IH]; intros bk m off written Hb Hm; cbn [do_read_loop]; [done|].
  set (n := Z.to_nat (seg_len seg)).
  destruct (with_slice_mut _ _ _ _) as [[[ok bk'] m1]| | |] eqn:E; try done.
  assert (mem_wf m1) as Hm1.
  { eapply with_slice_mut_wf; [exact Hm| |exact E]. intros bs Hbs.
    destruct (read_at_inv bk off bs Hb Hbs) as [Hr _]. by destruct (read_at bk off bs) as [[? ?] ?]. }
  assert (bk_inv bk') as Hb1.
  { unfold with_slice_mut in E. apply bind_Ok in E as (p & Hp & E).
    destruct (read_at_inv bk off (host_read (host m) p n) Hb ltac:(apply host_read_bytes, Hm)) as [_ Hr].
    destruct (read_at bk off _) as [[? ?] ?]. by injection E as <- <- <-. }
  destruct ok; cbn [negb]; [by apply IH|done].
Qed.

Lemma do_write_loop_inv segs : forall (bk : B) m off,
  bk_inv bk -> mem_wf m -> bk_inv (do_write_loop segs bk m off).2.
Proof.
  induction segs as [|seg segs IH]; intros bk m off Hb Hm; cbn [do_write_loop]; [done|].
  destruct (with_slice _ _ _ _) as [[ok bk']| | |] eqn:E; try done.
  assert (bk_inv bk') as Hb1.
  { unfold with_slice in E. apply bind_Ok in E as (p & Hp & E). injection E as E.
    pose proof (write_at_inv bk off (host_read (host m) p (Z.to_nat (seg_len seg))) Hb
      ltac:(apply host_read_bytes, Hm)) as Hw. by rewrite E in Hw. }
  destruct ok; cbn [negb]; [by apply IH|done].
Qed.

Lemma zero_range_inv fuel (bk : B) off rem r :
  bk_inv bk -> zero_range fuel bk off rem = Ok r -> bk_inv r.2.
Proof.
  revert bk off rem. induction fuel as [|fuel IH]; intros bk off rem Hb; cbn [zero_range]; [done|].
  case_match; [|by intros [= <-]].
  assert (bytes (replicate (Z.to_nat (Z.min rem ZERO_CHUNK)) 0)) as Hz
    by (apply Forall_replicate; unfold is_u8; lia).
  pose proof (write_at_inv bk off _ Hb Hz) as Hw. destruct (write_at _ _ _) as [[] bk']; cbn [negb].
  - by apply IH.
  - by intros [= <-].
Qed.

Lemma zero_seg_inv fuel (bk : B) m at_ end_ r :
  bk_inv bk -> zero_seg fuel bk m at_ end_ = Ok r -> bk_inv r.2.
Proof.
  revert bk at_. induction fuel as [|fuel IH]; intros bk at_ Hb; cbn [zero_seg]; [done|].
  case_match; [|by intros [= <-]].
  destruct (read_u64 m at_); try by intros [= <-]. destruct (read_u32 m _); try by intros [= <-].
  destruct (checked_mul64 _ _); [|by intros [= <-]]. intros (r1 & Hr1 & H1)%bind_Ok.
  apply zero_range_inv in Hr1; [|done]. destruct r1 as [ok bk']. destruct ok; cbn [negb] in H1.
  - by eapply IH.
  - by injection H1 as <-.
Qed.

Lemma zero_segs_inv segs : forall (bk : B) m r,
  bk_inv bk -> zero_segs segs bk m = Ok r -> bk_inv r.2.
Proof.
  induction segs as [|seg segs IH]; intros bk m r Hb; cbn [zero_segs]; [by intros [= <-]|].
  intros (r1 & Hr1 & H1)%bind_Ok. apply zero_seg_inv in Hr1; [|done].
  destruct r1 as [ok bk']. destruct ok; cbn [negb] in H1; [by eapply IH|by injection H1 as <-].
Qed.

Lemma do_get_id_wf serial m c : mem_wf m -> bytes serial -> mem_wf (do_get_id serial m c).2.
Proof.
  intros Hm Hs. unfold do_get_id. destruct (writable c); [done|]. destruct (removelast _); [done|].
  case_match eqn:E; try done. cbn. eapply mem_write_wf; [done| |exact E]. by apply Forall_take.
Qed.

(** The dispatched request: a status byte, and everything in order. *)
Lemma dispatch_inv (bk : B) serial m c st w bk' m' :
  bk_inv bk -> bytes serial -> mem_wf m -> dispatch bk serial m c = Ok ((st, w), bk', m') ->
  is_u8 st /\ bk_inv bk' /\ mem_wf m'.
Proof.
  intros Hb Hs Hm. assert (is_u8 0 /\ is_u8 1 /\ is_u8 2) as (I0 & I1 & I2) by (unfold is_u8; lia).
  unfold dispatch, VIRTIO_BLK_S_OK, VIRTIO_BLK_S_IOERR, VIRTIO_BLK_S_UNSUPP.
  destruct (readable c) as [|hdr rs]; [done|]. case_match; [by intros [= <- <- <- <-]|].
  destruct (ok_q (read_u32 _ _)) as [ty| | |]; [cbn|done..].
  destruct (ok_q (read_u64 _ _)) as [sector| | |]; [cbn|done..].
  destruct (checked_mul64 _ _) as [off|]; [|done]. case_match.
  { unfold do_read. intros E. pose proof (do_read_loop_inv (removelast (writable c)) bk m off 0 Hb Hm) as [Hb' Hm'].
    assert (forall segs (bk : B) m off w, is_u8 (do_read_loop segs bk m off w).1.1.1) as Hst.
    { induction segs as [|s segs IH]; intros; cbn [do_read_loop]; [done|].
      destruct (with_slice_mut _ _ _ _) as [[[ok' ?] ?]| | |]; try done. by destruct ok'; cbn [negb]. }
    specialize (Hst (removelast (writable c)) bk m off 0). injection E as E. rewrite E in *. done. }
  case_match.
  { pose proof (do_write_loop_inv (tail (readable c)) bk m off Hb Hm) as Hw.
    assert (forall segs (bk : B) m off, is_u8 (do_write_loop segs bk m off).1) as Hst.
    { induction segs as [|s segs IH]; intros; cbn [do_write_loop]; [done|].
      destruct (with_slice _ _ _ _) as [[ok' ?]| | |]; try done. by destruct ok'; cbn [negb]. }
    specialize (Hst (tail (readable c)) bk m off). unfold do_write.
    destruct (do_write_loop _ _ _ _). by intros [= <- <- <- <-]. }
  case_match; [pose proof (flush_inv bk Hb); destruct (flush bk) as [[] ?]; by intros [= <- <- <- <-]|].
  case_match.
  { pose proof (do_get_id_wf serial m c Hm Hs) as Hg. unfold do_get_id in *.
    destruct (writable c); [by intros [= <- <- <- <-]|].
    destruct (removelast _); [by intros [= <- <- <- <-]|]. case_match; by intros [= <- <- <- <-]. }
  case_match; [by intros [= <- <- <- <-]|]. case_match; [|by intros [= <- <- <- <-]].
  destruct (do_write_zeroes _ _ _) as [[st' bk1]| | |] eqn:Ez; cbn; [|done..]. intros [= <- <- <- <-].
  unfold do_write_zeroes in Ez. pose proof (zero_segs_inv _ _ _ _ Hb Ez). split_and!; [|done..].
  assert (forall segs (bk : B) m r, zero_segs segs bk m = Ok r -> is_u8 r.1) as Hst.
  { induction segs as [|s segs IH]; intros bk0 m0 r; cbn [zero_segs]; [by intros [= <-]|].
    intros ([ok ?] & _ & E)%bind_Ok. destruct ok; cbn [negb] in E; [by eapply IH|by injection E as <-]. }
  by apply Hst in Ez.
Qed.

Lemma process_inv (d : BlockDevice B) m c r d' m' :
  blk_inv d -> mem_wf m -> process d m c = Ok (r, d', m') -> blk_inv d' /\ mem_wf m'.
Proof.
  intros [Hb Hs] Hm Hp. unfold process in Hp.
  assert (forall m1 st w, is_u8 st -> mem_wf m1 -> mem_wf (complete m1 c st w).2) as Hc.
  { intros m1 st w Hst Hm1. unfold complete. destruct (list.last _); [|done]. cbn. unfold put_status.
    destruct (mem_write m1 _ _) eqn:Ew; try done.
    eapply mem_write_wf; [done| |exact Ew]. by apply Forall_singleton. }
  destruct (dispatch _ _ _ _) as [[[[st w] bk'] m1]|e| |] eqn:Ed; try done.
  - apply dispatch_inv in Ed as (Hst & Hb' & Hm1); [|done..]. specialize (Hc m1 st w Hst Hm1).
    destruct (complete m1 c st w). by injection Hp as <- <- <-.
  - specialize (Hc m VIRTIO_BLK_S_IOERR 0 ltac:(unfold is_u8, VIRTIO_BLK_S_IOERR; lia) Hm).
    destruct (complete m c _ _). by injection Hp as <- <- <-.
Qed.
End Bytes.

End Confined.

(** ** Requests over a flat disk *)

(** The bytes of the segments, one after the other. *)
Fixpoint gather_segs (m : GuestMemory) (segs : list Segment) : res GuestMemError (list Z) :=
  match segs with
  | [] => Ok []
  | seg :: segs =>
      bs ← mem_read m (seg_gpa seg) (Z.to_nat (seg_len seg));
      rest ← gather_segs m segs;
      Ok (bs ++ rest)
  end.

(** The bytes cut up over the segments, in order. *)
Fixpoint scatter_segs (m : GuestMemory) (segs : list Segment) (bs : list Z) :
    res GuestMemError GuestMemory :=
  match segs with
  | [] => Ok m
  | seg :: segs =>
      let n := Z.to_nat (seg_len seg) in
      m' ← mem_write m (seg_gpa seg) (take n bs);
      scatter_segs m' segs (drop n bs)
  end.

Definition total_len (segs : list Segment) : Z := foldr (fun s n => seg_len s + n) 0 segs.

(** A request the device accepts: a header of the given type and sector. *)
Definition posted (m : GuestMemory) (c : DescChain) (ty sector : Z) (payload : list Segment) : Prop :=
  exists hdr, readable c = hdr :: payload /\ 16 <= seg_len hdr /\
    read_u32 m (seg_gpa hdr) = Ok ty /\ read_u64 m (u64 (seg_gpa hdr + 8)) = Ok sector.

Definition lens_ok (segs : list Segment) : Prop := Forall (fun s => 0 <= seg_len s) segs.

Lemma total_len_cons seg segs : total_len (seg :: segs) = seg_len seg + total_len segs.
Proof. done. Qed.

Lemma total_len_nonneg segs : lens_ok segs -> 0 <= total_len segs.
Proof. induction 1; [done|]. rewrite total_len_cons. lia. Qed.

Lemma gather_segs_spec m segs bs :
  mem_wf m -> lens_ok segs -> gather_segs m segs = Ok bs ->
  bytes bs /\ Z.of_nat (length bs) = total_len segs.
Proof.
  intros Hm Hl. revert bs. induction Hl as [|seg segs Hseg Hl IH]; intros bs; cbn [gather_segs].
  { intros [= <-]. by split; [constructor|]. }
  intros H. res_inv. destruct (IH _ Ha0) as [H1 H2].
  pose proof (mem_read_length _ _ _ _ Ha). split.
  - apply Forall_app. split; [by eapply mem_read_bytes|done].
  - rewrite length_app, total_len_cons. lia.
Qed.

Section Flat.
Context `{FlatDisk B}.

(** Bytes [bs] stored from [off] on. *)
Definition stored (b b' : B) (off : Z) (bs : list Z) : Prop :=
  disk_ok b' /\ disk_len b' = disk_len b /\
  forall p, 0 <= p -> disk_byte b' p =
    if in_range off (off + Z.of_nat (length bs)) p then default 0 (vget bs (p - off))
    else disk_byte b p.

Lemma stored_nil b off : disk_ok b -> stored b b off [].
Proof.
  intros Hb. split_and!; try done. intros p _.
  by rewrite (proj2 (in_range_false _ _ _)) by (cbn; lia).
Qed.

Lemma vget_app {A} (l k : list A) i :
  0 <= i -> vget (l ++ k) i = if i <? Z.of_nat (length l) then vget l i else vget k (i - Z.of_nat (length l)).
Proof.
  intros Hi. unfold vget. rewrite length_app. destruct (Z.ltb_spec i (Z.of_nat (length l))).
  - rewrite !(proj2 (Z.ltb_lt _ _)) by lia. case_match; [|done]. apply lookup_app_l. lia.
  - rewrite (proj2 (Z.leb_le 0 i)), (proj2 (Z.leb_le 0 (i - _))) by lia. cbn [andb].
    replace (i <? Z.of_nat (length l + length k)) with (i - Z.of_nat (length l) <? Z.of_nat (length k))
      by (apply eq_true_iff_eq; rewrite !Z.ltb_lt; lia).
    case_match; [|done]. rewrite lookup_app_r by lia. f_equal. lia.
Qed.

Lemma stored_app b1 b2 b3 off bs cs :
  0 <= off -> stored b1 b2 off bs -> stored b2 b3 (off + Z.of_nat (length bs)) cs ->
  stored b1 b3 off (bs ++ cs).
Proof.
  intros Ho (_ & L2 & B2) (O3 & L3 & B3). split_and!; [done|congruence|]. intros p Hp.
  rewrite B3, B2, length_app by done. set (n := Z.of_nat (length bs)) in *.
  destruct (Z.ltb_spec p off); [by rewrite !(proj2 (in_range_false _ _ p)) by lia|].
  rewrite vget_app by lia. fold n.
  destruct (Z.ltb_spec (p - off) n).
  - rewrite (proj2 (in_range_false (off + n) _ p)) by lia.
    by rewrite !(proj2 (in_range_spec _ _ p)) by lia.
  - rewrite (proj2 (in_range_false off (off + n) p)) by lia.
    replace (p - (off + n)) with (p - off - n) by lia.
    replace (off + n + Z.of_nat (length cs)) with (off + Z.of_nat (length bs + length cs)) by lia.
    destruct (Z.ltb_spec p (off + Z.of_nat (length bs + length cs))).
    + by rewrite !(proj2 (in_range_spec _ _ p)) by lia.
    + by rewrite !(proj2 (in_range_false _ _ p)) by lia.
Qed.

Lemma do_write_loop_spec m segs : forall (bk : B) off bs,
  mem_wf m -> lens_ok segs -> gather_segs m segs = Ok bs ->
  disk_ok bk -> 0 <= off -> off + Z.of_nat (length bs) <= disk_len bk -> disk_len bk < 2 ^ 64 ->
  exists bk', do_write_loop segs bk m off = (VIRTIO_BLK_S_OK, bk') /\ stored bk bk' off bs.
Proof.
  induction segs as [|seg segs IH]; intros bk off bs Hm Hl Hg Hok Ho Hb Hd; cbn [gather_segs] in Hg.
  { injection Hg as <-. exists bk. split; [done|by apply stored_nil]. }
  inversion_clear Hl as [|? ? Hseg Hls]. res_inv. rename a into bs1, a0 into bs2.
  pose proof (mem_read_length _ _ _ _ Ha). rewrite length_app in Hb.
  destruct (write_at_spec bk off bs1) as (bk1 & E & Hok1 & Hlen & Hbyte);
    [done..|lia|by eapply mem_read_bytes|].
  destruct (IH bk1 (off + seg_len seg) bs2) as (bk2 & E2 & Hst); try done; try lia.
  exists bk2. split.
  - cbn [do_write_loop]. unfold with_slice. apply mem_read_Ok in Ha as (p & Hp & Ebs).
    rewrite Hp. cbn. rewrite <- Ebs, E. cbn. rewrite <- E2. f_equal. apply Z.mod_small. lia.
  - apply (stored_app bk bk1 bk2); [done|done|]. by replace (Z.of_nat (length bs1)) with (seg_len seg) by lia.
Qed.

Lemma disk_bytes_split (b : B) off n k :
  (n <= k)%nat ->
  take n (disk_byte b <$> seqZ off (Z.of_nat k)) = disk_byte b <$> seqZ off (Z.of_nat n) /\
  drop n (disk_byte b <$> seqZ off (Z.of_nat k)) =
    disk_byte b <$> seqZ (off + Z.of_nat n) (Z.of_nat (k - n)).
Proof.
  intros Hk. replace (Z.of_nat k) with (Z.of_nat n + Z.of_nat (k - n)) by lia.
  rewrite seqZ_app, fmap_app by lia.
  assert (length (disk_byte b <$> seqZ off (Z.of_nat n)) = n) as Hn
    by (rewrite length_fmap, length_seqZ; lia).
  split; [by rewrite take_app_length' | by rewrite drop_app_length'].
Qed.

Lemma do_read_loop_spec segs : forall (bk : B) m m' off w,
  lens_ok segs -> disk_ok bk -> 0 <= off -> 0 <= w < 2 ^ 32 ->
  off + total_len segs <= disk_len bk -> disk_len bk < 2 ^ 64 ->
  scatter_segs m segs (disk_byte bk <$> seqZ off (total_len segs)) = Ok m' ->
  do_read_loop segs bk m off w = ((VIRTIO_BLK_S_OK, sat_add32 w (total_len segs)), bk, m').
Proof.
  induction segs as [|seg segs IH]; intros bk m m' off w Hl Hok Ho Hw Hb Hd Hs.
  { injection Hs as <-. cbn. unfold sat_add32. do 3 f_equal. lia. }
  inversion_clear Hl as [|? ? Hseg Hls]. pose proof (total_len_nonneg segs Hls) as Ht.
  rewrite total_len_cons in *. cbn [scatter_segs] in Hs.
  replace (seg_len seg + total_len segs) with
    (Z.of_nat (Z.to_nat (seg_len seg + total_len segs))) in Hs by lia.
  destruct (disk_bytes_split bk off (Z.to_nat (seg_len seg))
    (Z.to_nat (seg_len seg + total_len segs))) as [Et Ed]; [lia|]. rewrite Et, Ed in Hs.
  res_inv. rename a into m1.
  replace (off + Z.of_nat (Z.to_nat (seg_len seg))) with (off + seg_len seg) in Hs by lia.
  replace (Z.of_nat (Z.to_nat (seg_len seg + total_len segs) - Z.to_nat (seg_len seg)))
    with (total_len segs) in Hs by lia.
  apply (IH bk m1 m' (off + seg_len seg) (sat_add32 w (seg_len seg))) in Hs;
    try (done || lia || (unfold sat_add32; lia)).
  cbn [do_read_loop]. unfold with_slice_mut. apply mem_write_Ok in Ha as (p & Hp & Em).
  rewrite length_fmap, length_seqZ in Hp. rewrite Nat2Z.id in Hp. rewrite Hp.
  cbn [mbind res_bind_inst].
  rewrite read_at_spec by (done || (rewrite length_host_read; lia)). rewrite length_host_read. cbn.
  rewrite take_ge by (rewrite length_fmap, length_seqZ; lia). rewrite <- Em.
  assert (u64 (off + seg_len seg) = off + seg_len seg) as -> by (apply Z.mod_small; lia). rewrite Hs.
  do 3 f_equal. unfold sat_add32. lia.
Qed.

(** The header decides the branch taken. *)
Lemma dispatch_posted (bk : B) serial m c ty sector payload :
  posted m c ty sector payload -> 0 <= sector -> sector * SECTOR_SIZE < 2 ^ 64 ->
  dispatch bk serial m c =
  if ty =? VIRTIO_BLK_T_IN then Ok (do_read bk m c (sector * SECTOR_SIZE))
  else if ty =? VIRTIO_BLK_T_OUT then
    let '(st, bk) := do_write bk m c (sector * SECTOR_SIZE) in Ok ((st, 0), bk, m)
  else if ty =? VIRTIO_BLK_T_FLUSH then
    let '(ok, bk) := flush bk in
    Ok ((if ok : bool then VIRTIO_BLK_S_OK else VIRTIO_BLK_S_IOERR, 0), bk, m)
  else if ty =? VIRTIO_BLK_T_GET_ID then
    let '(r, m) := do_get_id serial m c in Ok (r, bk, m)
  else if ty =? VIRTIO_BLK_T_DISCARD then Ok ((VIRTIO_BLK_S_OK, 0), bk, m)
  else if ty =? VIRTIO_BLK_T_WRITE_ZEROES then
    '(st, bk) ← do_write_zeroes bk m c; Ok ((st, 0), bk, m)
  else Ok ((VIRTIO_BLK_S_UNSUPP, 0), bk, m).
Proof.
  intros (hdr & Er & Hl & Ht & Hs) H0' Hm. unfold dispatch. rewrite Er.
  rewrite (proj2 (Z.ltb_ge _ _)) by lia. rewrite Ht. cbn [ok_q map_err mbind res_bind_inst].
  rewrite Hs. cbn [ok_q map_err mbind res_bind_inst]. unfold checked_mul64.
  by rewrite (proj2 (Z.ltb_lt _ _)) by lia.
Qed.

(** C36: What a write request stores, a read request returns. Over any flat disk, a
    write of the bytes the payload segments hold completes with status OK,
    stores them from the header's sector on and changes no other byte of the
    disk; any later read request for that sector, from any guest memory and
    with buffers cut in any way, completes with status OK, delivers those very
    bytes to its buffers in order and reports their number plus the status
    byte. *)
Theorem write_request_then_read_request (d : BlockDevice B) m c sector payload bs st :
  mem_wf m -> disk_ok (blk_backend d) -> disk_len (blk_backend d) < 2 ^ 64 ->
  posted m c VIRTIO_BLK_T_OUT sector payload -> 0 <= sector -> lens_ok payload ->
  gather_segs m payload = Ok bs ->
  sector * SECTOR_SIZE + Z.of_nat (length bs) <= disk_len (blk_backend d) ->
  list.last (writable c) = Some st ->
  exists d', process d m c = Ok (mkCompleted VIRTIO_BLK_S_OK 1, d', put_status m st VIRTIO_BLK_S_OK) /\
    stored (blk_backend d) (blk_backend d') (sector * SECTOR_SIZE) bs /\
    forall m2 c2 hdr2 segs st2 m2',
      posted m2 c2 VIRTIO_BLK_T_IN sector hdr2 -> writable c2 = segs ++ [st2] -> lens_ok segs ->
      total_len segs = Z.of_nat (length bs) -> scatter_segs m2 segs bs = Ok m2' ->
      process d' m2 c2 =
        Ok (mkCompleted VIRTIO_BLK_S_OK (sat_add32 (total_len segs) 1), d',
            put_status m2' st2 VIRTIO_BLK_S_OK).
Proof.
  intros Hm Hok Hd Hp Hs Hl Hg Hb Hst. destruct d as [bk serial]. cbn [blk_backend] in *.
  assert (sector * SECTOR_SIZE < 2 ^ 64) as Hoff by lia. unfold SECTOR_SIZE in *.
  destruct (do_write_loop_spec m payload bk (sector * 512) bs) as (bk' & E & S); try done; [lia|].
  exists (mkBlk bk' serial). split; [|split; [exact S|]].
  - unfold process. cbn [blk_backend blk_serial]. erewrite dispatch_posted by done.
    destruct Hp as (hdr & Er & _). unfold do_write. rewrite Er. cbn [tail]. unfold SECTOR_SIZE.
    rewrite E. cbn. unfold complete. by rewrite Hst.
  - intros m2 c2 hdr2 segs st2 m2' Hp2 Hw Hl2 Ht Hsc. unfold process. cbn [blk_backend blk_serial].
    erewrite dispatch_posted by done. destruct S as (Hok' & Hlen & Hbyte).
    cbn [VIRTIO_BLK_T_IN Z.eqb]. unfold do_read. rewrite Hw, removelast_last. unfold SECTOR_SIZE.
    rewrite (do_read_loop_spec segs bk' m2 m2'); try done; try lia.
    + unfold complete. rewrite Hw, last_snoc. pose proof (total_len_nonneg _ Hl2).
      assert (sat_add32 (sat_add32 0 (total_len segs)) 1 = sat_add32 (total_len segs) 1) as ->
        by (unfold sat_add32; lia). done.
    + replace (disk_byte bk' <$> _) with bs; [done|]. apply vget_ext.
      * rewrite length_fmap, length_seqZ. lia.
      * intros i Hi. destruct (vget_lt bs i Hi) as (x & Hx). rewrite Hx. symmetry.
        apply vget_of_lookup'. split; [lia|]. rewrite list_lookup_fmap.
        rewrite lookup_seqZ_lt by lia. cbn [fmap option_fmap option_map]. rewrite Hbyte by lia.
        rewrite (proj2 (in_range_spec _ _ _)) by lia.
        replace (sector * 512 + Z.of_nat (Z.to_nat i) - sector * 512) with i by lia.
        by rewrite Hx.
Qed.

(** ** Write-zeroes *)

Lemma zero_range_spec fuel : forall (bk : B) off n,
  disk_ok bk -> 0 <= off -> 0 <= n -> off + n <= disk_len bk -> disk_len bk < 2 ^ 64 ->
  (n + ZERO_CHUNK - 1) / ZERO_CHUNK < Z.of_nat fuel ->
  exists bk', zero_range fuel bk off n = Ok (true, bk') /\
    stored bk bk' off (replicate (Z.to_nat n) 0).
Proof.
  assert (0 < ZERO_CHUNK) as Hc by done.
  induction fuel as [|fuel IH]; intros bk off n Hok Ho Hn Hb Hd Hf.
  { pose proof (Z.div_pos (n + ZERO_CHUNK - 1) ZERO_CHUNK). lia. }
  cbn [zero_range]. destruct (Z.ltb_spec 0 n) as [Hpos|Hz].
  2:{ assert (n = 0) as -> by lia. exists bk. split; [done|by apply stored_nil]. }
  set (k := Z.min n ZERO_CHUNK). assert (0 < k <= n) by lia.
  destruct (write_at_spec bk off (replicate (Z.to_nat k) 0)) as (bk1 & E & O1 & L1 & B1);
    [done..|rewrite length_replicate; lia|by apply Forall_replicate|].
  rewrite E. cbn [negb]. assert (u64 (off + k) = off + k) as -> by (apply Z.mod_small; lia).
  destruct (IH bk1 (off + k) (n - k)) as (bk2 & E2 & S2); try done; try lia.
  { destruct (Z.leb_spec n ZERO_CHUNK).
    - replace (n - k) with 0 by lia. rewrite Z.div_small by lia.
      replace (n + ZERO_CHUNK - 1) with (n - 1 + 1 * ZERO_CHUNK) in Hf by lia.
      rewrite Z.div_add, Z.div_small in Hf by lia. lia.
    - replace (n - k + ZERO_CHUNK - 1) with (n + ZERO_CHUNK - 1 + (-1) * ZERO_CHUNK) by lia.
      rewrite Z.div_add by lia. lia. }
  exists bk2. split; [done|].
  replace (Z.to_nat n) with (Z.to_nat k + Z.to_nat (n - k))%nat by lia. rewrite replicate_add.
  apply (stored_app bk bk1 bk2); [done|done|]. rewrite length_replicate.
  by replace (off + Z.of_nat (Z.to_nat k)) with (off + k) by lia.
Qed.

(** The descriptors of a segment: [n] pairs of sector and count from [at]. *)
Fixpoint descs_at (m : GuestMemory) (at_ : Z) (n : nat) : res GuestMemError (list (Z * Z)) :=
  match n with
  | O => Ok []
  | S n =>
      sector ← read_u64 m at_;
      count ← read_u32 m (at_ + 8);
      rest ← descs_at m (at_ + 16) n;
      Ok ((sector, count) :: rest)
  end.

Fixpoint zero_descs (m : GuestMemory) (segs : list Segment) : res GuestMemError (list (Z * Z)) :=
  match segs with
  | [] => Ok []
  | seg :: segs =>
      ds ← descs_at m (seg_gpa seg) (Z.to_nat (seg_len seg / 16));
      rest ← zero_descs m segs;
      Ok (ds ++ rest)
  end.

Definition covers (p : Z) (d : Z * Z) : bool :=
  in_range (d.1 * SECTOR_SIZE) ((d.1 + d.2) * SECTOR_SIZE) p.

(** [b'] is [b] with the described ranges zeroed. *)
Definition zeroed (b b' : B) (ds : list (Z * Z)) : Prop :=
  disk_ok b' /\ disk_len b' = disk_len b /\
  forall p, 0 <= p -> disk_byte b' p = if existsb (covers p) ds then 0 else disk_byte b p.

Lemma zeroed_app b1 b2 b3 ds es : zeroed b1 b2 ds -> zeroed b2 b3 es -> zeroed b1 b3 (ds ++ es).
Proof.
  intros (_ & L2 & B2) (O3 & L3 & B3). split_and!; [done|congruence|]. intros p Hp.
  rewrite B3, B2, existsb_app by done. by destruct (existsb _ ds), (existsb _ es).
Qed.

Lemma stored_zeroed b b' s n :
  0 <= n -> stored b b' (s * SECTOR_SIZE) (replicate (Z.to_nat (n * SECTOR_SIZE)) 0) ->
  zeroed b b' [(s, n)].
Proof.
  intros Hn (O & L & Hb). split_and!; [done..|]. intros p Hp. rewrite Hb by done.
  rewrite length_replicate. cbn [existsb]. unfold covers, SECTOR_SIZE in *. cbn [fst snd].
  replace (s * 512 + Z.of_nat (Z.to_nat (n * 512))) with ((s + n) * 512) by lia.
  rewrite orb_false_r. destruct (in_range _ _ p) eqn:E; [|done]. apply in_range_spec in E.
  destruct (vget _ _) eqn:Ev; [|done]. apply vget_Some in Ev as [_ Ev].
  by apply lookup_replicate in Ev as [-> _].
Qed.

Definition desc_fits (len : Z) (d : Z * Z) : Prop :=
  0 <= d.1 /\ 0 <= d.2 /\ (d.1 + d.2) * SECTOR_SIZE <= len.

Lemma zero_seg_spec m fuel : forall (bk : B) at_ end_ n ds,
  disk_ok bk -> disk_len bk < 2 ^ 64 -> 0 <= at_ -> end_ < 2 ^ 64 - 16 ->
  at_ + 16 * Z.of_nat n <= end_ < at_ + 16 * Z.of_nat n + 16 ->
  descs_at m at_ n = Ok ds -> Forall (desc_fits (disk_len bk)) ds -> (n < fuel)%nat ->
  exists bk', zero_seg fuel bk m at_ end_ = Ok (true, bk') /\ zeroed bk bk' ds.
Proof.
  induction fuel as [|fuel IH]; intros bk at_ end_ n ds Hok Hd Ha He Hend Hds Hfit Hn; [lia|].
  cbn [zero_seg]. assert (u64 (at_ + 16) = at_ + 16) as -> by (apply Z.mod_small; lia).
  destruct n as [|n]; cbn [descs_at] in Hds.
  { injection Hds as <-. rewrite (proj2 (Z.leb_gt _ _)) by lia. exists bk. done. }
  rewrite (proj2 (Z.leb_le _ _)) by lia. res_inv. rename a into s, a0 into k, a1 into ds.
  inversion_clear Hfit as [|? ? Hf Hfs]. destruct Hf as (F1 & F2 & F3). cbn [fst snd] in *.
  assert (u64 (at_ + 8) = at_ + 8) as -> by (apply Z.mod_small; lia).
  rewrite Ha0, Ha1. unfold checked_mul64, SECTOR_SIZE in *.
  rewrite (proj2 (Z.ltb_lt _ _)) by lia.
  destruct (zero_range_spec (S (Z.to_nat (k * 512 / ZERO_CHUNK + 1))) bk (s * 512) (k * 512))
    as (bk1 & E1 & S1); try done; try lia.
  { change ZERO_CHUNK with 1048576. Z.div_mod_to_equations; lia. }
  rewrite E1. cbn [mbind res_bind_inst negb]. pose proof (stored_zeroed bk bk1 s k F2 S1) as Z1.
  pose proof Z1 as (O1 & L1 & _). rewrite <- L1 in Hd, Hfs.
  destruct (IH bk1 (at_ + 16) end_ n ds) as (bk2 & E2 & Z2); try done; try lia.
  exists bk2. split; [done|]. by apply (zeroed_app bk bk1 bk2 [(s, k)]).
Qed.

Lemma zero_segs_spec m segs : forall (bk : B) ds,
  disk_ok bk -> disk_len bk < 2 ^ 64 ->
  Forall (fun s => 0 <= seg_gpa s /\ 0 <= seg_len s /\ seg_gpa s + seg_len s < 2 ^ 64 - 16) segs ->
  zero_descs m segs = Ok ds -> Forall (desc_fits (disk_len bk)) ds ->
  exists bk', zero_segs segs bk m = Ok (VIRTIO_BLK_S_OK, bk') /\ zeroed bk bk' ds.
Proof.
  induction segs as [|seg segs IH]; intros bk ds Hok Hd Hs Hds Hfit; cbn [zero_descs] in Hds.
  { injection Hds as <-. by exists bk. }
  inversion_clear Hs as [|? ? Hseg Hrest]. destruct Hseg as (G1 & G2 & G3). res_inv.
  apply Forall_app in Hfit as [Hf1 Hf2]. cbn [zero_segs].
  assert (u64 (seg_gpa seg + seg_len seg) = seg_gpa seg + seg_len seg) as ->
    by (apply Z.mod_small; lia).
  assert (0 <= seg_len seg / 16) by (apply Z.div_pos; lia).
  destruct (zero_seg_spec m (S (Z.to_nat (seg_len seg / 16 + 1))) bk (seg_gpa seg)
    (seg_gpa seg + seg_len seg) (Z.to_nat (seg_len seg / 16)) a) as (bk1 & E1 & Z1); try done; try lia.
  { rewrite Z2Nat.id by done. Z.div_mod_to_equations; lia. }
  rewrite E1. cbn [mbind res_bind_inst negb].
  pose proof Z1 as (O1 & L1 & _). rewrite <- L1 in Hd, Hf2.
  destruct (IH bk1 a0) as (bk2 & E2 & Z2); try done.
  exists bk2. split; [done|]. by apply (zeroed_app bk bk1 bk2).
Qed.

(** A write-zeroes request really zeroes. Every byte of every sector range named by
    the request's descriptors reads back as zero afterwards, every other byte
    of the disk is unchanged, the request completes with status OK, and the
    walk over descriptors and 1 MiB chunks ends. *)
Theorem write_zeroes_zeroes (d : BlockDevice B) m c sector payload ds st :
  disk_ok (blk_backend d) -> disk_len (blk_backend d) < 2 ^ 64 ->
  posted m c VIRTIO_BLK_T_WRITE_ZEROES sector payload ->
  0 <= sector -> sector * SECTOR_SIZE < 2 ^ 64 ->
  Forall (fun s => 0 <= seg_gpa s /\ 0 <= seg_len s /\ seg_gpa s + seg_len s < 2 ^ 64 - 16) payload ->
  zero_descs m payload = Ok ds -> Forall (desc_fits (disk_len (blk_backend d))) ds ->
  list.last (writable c) = Some st ->
  exists d', process d m c = Ok (mkCompleted VIRTIO_BLK_S_OK 1, d', put_status m st VIRTIO_BLK_S_OK) /\
    zeroed (blk_backend d) (blk_backend d') ds.
Proof.
  intros Hok Hd Hp Hs Hm Hseg Hds Hfit Hst. destruct d as [bk serial]. cbn [blk_backend] in *.
  destruct (zero_segs_spec m payload bk ds) as (bk' & E & Z); try done.
  exists (mkBlk bk' serial). split; [|exact Z]. unfold process. cbn [blk_backend blk_serial].
  erewrite dispatch_posted by done. destruct Hp as (hdr & Er & _).
  cbn [Z.eqb VIRTIO_BLK_T_WRITE_ZEROES VIRTIO_BLK_T_IN VIRTIO_BLK_T_OUT VIRTIO_BLK_T_FLUSH
    VIRTIO_BLK_T_GET_ID VIRTIO_BLK_T_DISCARD Pos.eqb]. unfold do_write_zeroes. rewrite Er.
  cbn [tail]. rewrite E. cbn. unfold complete. by rewrite Hst.
Qed.

End Flat.

(** ** Examples *)

Definition demo_blk : BlockDevice FileBackend :=
  blk_new (mkFileBackend (mkFile 1024 {[520 := 9]}) 2) [103; 98].

Definition demo_st : Segment := mkSeg 4300 1 true.

(** A write of three bytes to sector 1, from two buffers. *)
Definition demo_out_mem : GuestMemory :=
  poke demo_mem [(4096, le_bytes 4 1 ++ le_bytes 4 0 ++ le_bytes 8 1); (4200, [1; 2; 3])].
Definition demo_out : DescChain :=
  mkChain 0 [mkSeg 4096 16 false; mkSeg 4200 2 false; mkSeg 4202 1 false; demo_st].

(** A read of three bytes of sector 1, into two buffers. *)
Definition demo_in_mem : GuestMemory :=
  poke demo_mem [(4096, le_bytes 4 0 ++ le_bytes 4 0 ++ le_bytes 8 1)].
Definition demo_in : DescChain :=
  mkChain 0 [mkSeg 4096 16 false; mkSeg 65536 1 true; mkSeg 65540 2 true; demo_st].

(** Zero sector 1. *)
Definition demo_zero_mem : GuestMemory :=
  poke demo_mem [(4096, le_bytes 4 13 ++ le_bytes 4 0 ++ le_bytes 8 0);
                 (4200, le_bytes 8 1 ++ le_bytes 4 1 ++ le_bytes 4 0)].
Definition demo_zero : DescChain :=
  mkChain 0 [mkSeg 4096 16 false; mkSeg 4200 16 false; demo_st].

Lemma demo_blk_ok : disk_ok (blk_backend demo_blk).
Proof.
  intros k b. cbn [demo_blk blk_new blk_backend fb_file f_data].
  rewrite lookup_singleton_Some. intros [_ <-]. done.
Qed.


Lemma write_request_then_read_request_witness :
  exists d' m2', process demo_blk demo_out_mem demo_out =
      Ok (mkCompleted VIRTIO_BLK_S_OK 1, d', put_status demo_out_mem demo_st VIRTIO_BLK_S_OK) /\
    process d' demo_in_mem demo_in =
      Ok (mkCompleted VIRTIO_BLK_S_OK 4, d', put_status m2' demo_st VIRTIO_BLK_S_OK).
Proof.
  destruct (write_request_then_read_request demo_blk demo_out_mem demo_out 1
    [mkSeg 4200 2 false; mkSeg 4202 1 false] [1; 2; 3] demo_st) as (d' & E & _ & Hread).
  - apply (poke_wf demo_mem); [apply demo_mem_wf|reflexivity].
  - apply demo_blk_ok.
  - reflexivity.
  - eexists. split_and!; [reflexivity|done|reflexivity|reflexivity].
  - done.
  - repeat constructor; vm_compute; congruence.
  - reflexivity.
  - vm_compute; congruence.
  - reflexivity.
  - exists d', (poke demo_in_mem [(65536, [1]); (65540, [2; 3])]). split; [exact E|].
    apply (Hread demo_in_mem demo_in [] [mkSeg 65536 1 true; mkSeg 65540 2 true] demo_st).
    + eexists. split_and!; [reflexivity|done|reflexivity|reflexivity].
    + reflexivity.
    + repeat constructor; vm_compute; congruence.
    + reflexivity.
    + reflexivity.
Defined.

Lemma write_zeroes_zeroes_witness :
  exists d', process demo_blk demo_zero_mem demo_zero =
      Ok (mkCompleted VIRTIO_BLK_S_OK 1, d', put_status demo_zero_mem demo_st VIRTIO_BLK_S_OK) /\
    zeroed (blk_backend demo_blk) (blk_backend d') [(1, 1)].
Proof.
  apply (write_zeroes_zeroes demo_blk demo_zero_mem demo_zero 0 [mkSeg 4200 16 false] [(1, 1)]
    demo_st).
  - apply demo_blk_ok.
  - reflexivity.
  - eexists. split_and!; [reflexivity|done|reflexivity|reflexivity].
  - done.
  - done.
  - repeat constructor; vm_compute; congruence.
  - reflexivity.
  - repeat constructor; vm_compute; congruence.
  - reflexivity.
Defined.
