(* ===== verification/DevCore.v ===== *)
(** * The transport-independent half of a virtio device

    [virtio/devcore.rs]: draining a virtqueue through a backend, publishing the
    completions, raising the interrupt and re-arming the driver's notifications,
    for block, entropy and net devices. Guest memory is passed along as state. *)

From Stdlib Require Import ZArith Lia Bool.
From stdpp Require Import base numbers list list_numbers gmap option.
From S2P Require Import Prelude GuestMem VirtQueue Lro NetDev BlockBackend BlockDev.

Definition DEVICE_STATUS_DRIVER_OK : Z := 4.
Definition NET_RX_QUEUE : Z := 0.
Definition NET_TX_QUEUE : Z := 1.

Inductive Backend (B E R : Type) :=
| Block (d : BlockDevice B)
| Rng (e : E)
| Net (n : NetDevice R).
Arguments Block {B E R} d.
Arguments Rng {B E R} e.
Arguments Net {B E R} n.

(** ** Interrupt injectors *)

Class InterruptInjector (J : Type) := signal : J -> Z -> J.

(** The count is a [u64]. *)
Record LoggingInjector := mkLog { log_count : Z }.

Definition log_signal (j : LoggingInjector) (vector : Z) : LoggingInjector :=
  mkLog (u64 (log_count j + 1)).

#[export] Instance logging_injector : InterruptInjector LoggingInjector := log_signal.

Class MsiSink (S : Type) := deliver_spi : S -> Z -> S.

Record MsiSpiInjector (S : Type) := mkMsi { vector_intids : list Z; sink : S }.
Arguments mkMsi {S} _ _.
Arguments vector_intids {S} _.
Arguments sink {S} _.

Definition msi_signal {S} `{MsiSink S} (j : MsiSpiInjector S) (vector : Z) : MsiSpiInjector S :=
  match vget (vector_intids j) vector with
  | None => j
  | Some intid => mkMsi (vector_intids j) (deliver_spi (sink j) intid)
  end.

#[export] Instance msi_spi_injector {S} `{MsiSink S} : InterruptInjector (MsiSpiInjector S) :=
  msi_signal.

(** ** The device core *)

Record VirtioConfig := mkVC {
  device_feature_select : Z;
  driver_feature_select : Z;
  device_features : Z;
  driver_features : Z;
  msix_config : Z;
  num_queues : Z;
  device_status : Z;
  config_generation : Z;
  queue_select : Z;
}.

Record DeviceCore (B E R J : Type) := mkCore {
  common : VirtioConfig;
  queues : list Queue;
  queue_vectors : list Z;
  backend : Backend B E R;
  device_config : list Z;
  isr_status : Z;
  injector : J;
  transport_signals : bool;
}.
Arguments mkCore {B E R J} _ _ _ _ _ _ _ _.
Arguments common {B E R J} _.
Arguments queues {B E R J} _.
Arguments queue_vectors {B E R J} _.
Arguments backend {B E R J} _.
Arguments device_config {B E R J} _.
Arguments isr_status {B E R J} _.
Arguments injector {B E R J} _.
Arguments transport_signals {B E R J} _.

Section Core.
Context {B E R J : Type}.
Context `{BlockBackend B} `{EntropySource E} `{NetResponder R} `{InterruptInjector J}.

Abbreviation Core := (DeviceCore B E R J).

Definition set_backend (b : Backend B E R) (c : Core) : Core :=
  mkCore (common c) (queues c) (queue_vectors c) b (device_config c) (isr_status c) (injector c)
    (transport_signals c).

Definition set_queue (i : Z) (q : Queue) (c : Core) : Core :=
  mkCore (common c) (vset i q (queues c)) (queue_vectors c) (backend c) (device_config c)
    (isr_status c) (injector c) (transport_signals c).

Definition set_isr (isr : Z) (c : Core) : Core :=
  mkCore (common c) (queues c) (queue_vectors c) (backend c) (device_config c) isr (injector c)
    (transport_signals c).

Definition set_injector (j : J) (c : Core) : Core :=
  mkCore (common c) (queues c) (queue_vectors c) (backend c) (device_config c) (isr_status c) j
    (transport_signals c).

(** [b.process] or [r.process]; net chains never reach it. *)
Definition process_chain (b : Backend B E R) (m : GuestMemory) (c : DescChain) :
    res unit (Z * Backend B E R * GuestMemory) :=
  match b with
  | Block d => '(r, d, m) ← process d m c; Ok (c_used_len r, Block d, m)
  | Rng e => let '(n, e, m) := rng_process e m c in Ok (n, Rng e, m)
  | Net n => Ok (0, Net n, m)
  end.

(** [let _ = queue.add_used(..)]: an error leaves what was written. *)
Definition complete_used (q : Queue) (m : GuestMemory) (head len : Z) : res unit (Queue * GuestMemory) :=
  match add_used head len (q, m) with
  | (Panic, _) => Panic
  | (NoFuel, _) => NoFuel
  | (_, qm) => Ok qm
  end.

(** The inner loop of [notify]. *)
Fixpoint drain (fuel : nat) (b : Backend B E R) (q : Queue) (m : GuestMemory) (completed : bool) :
    res unit (Backend B E R * Queue * GuestMemory * bool) :=
  match fuel with
  | O => NoFuel
  | S fuel' =>
      match pop fuel q m with
      | Ok (Some chain, q) =>
          '(used_len, b, m) ← process_chain b m chain;
          '(q, m) ← complete_used q m (VirtQueue.head chain) used_len;
          drain fuel' b q m true
      | Ok (None, q) => Ok (b, q, m, completed)
      | Err _ => Ok (b, q, m, completed)
      | Panic => Panic
      | NoFuel => NoFuel
      end
  end.

(** [needs_interrupt(..).unwrap_or(true)]. *)
Definition needs_or_true (q : Queue) (m : GuestMemory) (old_used : Z) : bool :=
  match needs_interrupt q m old_used (next_used q) with Ok b => b | _ => true end.

(** Completions of queue [qi]: the status bit, and the edge if the transport
    does not raise it. *)
Definition raise_completion (qi : Z) (needs : bool) (c : Core) : Core :=
  let c := set_isr (Z.lor (isr_status c) 1) c in
  if needs && negb (transport_signals c)
  then set_injector (signal (injector c) (default 0 (vget (queue_vectors c) qi))) c
  else c.

(** [let _ = queue.arm_notification(..)]. *)
Definition arm (q : Queue) (m : GuestMemory) : GuestMemory :=
  match arm_notification q m with Ok m' => m' | _ => m end.

(** The outer loop of [notify]. *)
Fixpoint notify_loop (fuel : nat) (qi : Z) (c : Core) (m : GuestMemory) :
    res unit (Core * GuestMemory) :=
  match fuel with
  | O => NoFuel
  | S fuel' =>
      match vget (queues c) qi with
      | None => Ok (c, m)
      | Some q0 =>
          '(b, q, m, completed) ← drain fuel (backend c) q0 m false;
          let c := set_queue qi q (set_backend b c) in
          let c := if completed : bool
                   then raise_completion qi (needs_or_true q m (next_used q0)) c else c in
          let m := arm q m in
          match has_pending q m with
          | Ok true => notify_loop fuel' qi c m
          | _ => Ok (c, m)
          end
      end
  end.

(** ** The net queues *)

Fixpoint gather_readable (segs : list Segment) (m : GuestMemory) : list Z :=
  match segs with
  | [] => []
  | seg :: segs =>
      match mem_read m (seg_gpa seg) (Z.to_nat (seg_len seg)) with
      | Ok s => s ++ gather_readable segs m
      | _ => gather_readable segs m
      end
  end.

Definition transmit (n : NetDevice R) (m : GuestMemory) (chain : DescChain) : NetDevice R :=
  let buf := gather_readable (readable chain) m in
  if VIRTIO_NET_HDR_LEN <? Z.of_nat (length buf)
  then handle_tx_frame (drop (Z.to_nat VIRTIO_NET_HDR_LEN) buf) n else n.

(** [while let Ok(Some(chain)) = tx.pop(&mem)]. *)
Fixpoint drain_tx (fuel : nat) (n : NetDevice R) (q : Queue) (m : GuestMemory) (completed : bool) :
    res unit (NetDevice R * Queue * GuestMemory * bool) :=
  match fuel with
  | O => NoFuel
  | S fuel' =>
      match pop fuel q m with
      | Ok (Some chain, q) =>
          let n := transmit n m chain in
          '(q, m) ← complete_used q m (VirtQueue.head chain) 0;
          drain_tx fuel' n q m true
      | Ok (None, q) => Ok (n, q, m, completed)
      | Err _ => Ok (n, q, m, completed)
      | Panic => Panic
      | NoFuel => NoFuel
      end
  end.

(** [chain.writable().map(|s| s.len).sum()], in [u32]. *)
Definition rx_cap (chain : DescChain) : Z := foldl (fun s seg => u32 (s + seg_len seg)) 0 (writable chain).

(** The payload over the writable segments, from [offset]: the bytes written. *)
Fixpoint scatter (segs : list Segment) (payload : list Z) (offset : Z) (m : GuestMemory) :
    Z * GuestMemory :=
  match segs with
  | [] => (offset, m)
  | seg :: segs =>
      if Z.of_nat (length payload) <=? offset then (offset, m)
      else
        let take_ := Z.min (seg_len seg) (Z.of_nat (length payload) - offset) in
        match mem_write m (seg_gpa seg) (slice (Z.to_nat offset) (Z.to_nat take_) payload) with
        | Ok m => scatter segs payload (offset + take_) m
        | _ => (offset, m)
        end
  end.

Definition rx_payload (hdr_flags : Z) (frame : list Z) : list Z :=
  put 10 [1] (put 0 [hdr_flags] (replicate (Z.to_nat VIRTIO_NET_HDR_LEN) 0)) ++ frame.

Fixpoint flush_loop (fuel : nat) (n : NetDevice R) (q : Queue) (m : GuestMemory) (delivered : bool) :
    res unit (NetDevice R * Queue * GuestMemory * bool) :=
  match fuel with
  | O => NoFuel
  | S fuel' =>
      if negb (has_pending_rx n) then Ok (n, q, m, delivered)
      else
        match pop fuel q m with
        | Ok (Some chain, q) =>
            let n := observe_rx_capacity (rx_cap chain) n in
            let hdr_flags := rx_header_flags n in
            let '(frame, n) := pop_rx n in
            match frame with
            | None => Ok (n, q, m, delivered)
            | Some frame =>
                let '(written, m) := scatter (writable chain) (rx_payload hdr_flags frame) 0 m in
                '(q, m) ← complete_used q m (VirtQueue.head chain) (u32 written);
                flush_loop fuel' n q m true
            end
        | Ok (None, q) => Ok (n, q, m, delivered)
        | Err _ => Ok (n, q, m, delivered)
        | Panic => Panic
        | NoFuel => NoFuel
        end
  end.

(** With no receive queue nothing is delivered. *)
Definition flush_rx (fuel : nat) (c : Core) (m : GuestMemory) : res unit (bool * Core * GuestMemory) :=
  match backend c, vget (queues c) NET_RX_QUEUE with
  | Net n, Some q0 =>
      '(n, q, m, delivered) ← flush_loop fuel n q0 m false;
      let c := set_queue NET_RX_QUEUE q (set_backend (Net n) c) in
      if delivered : bool then
        let c := raise_completion NET_RX_QUEUE (needs_or_true q m (next_used q0)) c in
        Ok (true, c, arm q m)
      else Ok (false, c, m)
  | _, _ => Ok (false, c, m)
  end.

Definition notify_net (fuel : nat) (qi : Z) (n : NetDevice R) (c : Core) (m : GuestMemory) :
    res unit (Core * GuestMemory) :=
  if qi =? NET_TX_QUEUE then
    match vget (queues c) NET_TX_QUEUE with
    | None => Ok (c, m)
    | Some q0 =>
        '(n, q, m, completed) ← drain_tx fuel n q0 m false;
        let c := set_queue NET_TX_QUEUE q (set_backend (Net n) c) in
        let c := if completed : bool
                 then raise_completion NET_TX_QUEUE (needs_or_true q m (next_used q0)) c else c in
        '(_, c, m) ← flush_rx fuel c (arm q m);
        Ok (c, m)
    end
  else
    let m := if qi =? NET_RX_QUEUE then
               match vget (queues c) NET_RX_QUEUE with Some rx => arm rx m | None => m end
             else m in
    '(_, c, m) ← flush_rx fuel c m;
    Ok (c, m).

Definition notify (fuel : nat) (qi : Z) (c : Core) (m : GuestMemory) : res unit (Core * GuestMemory) :=
  match backend c with
  | Net n => notify_net fuel qi n c m
  | _ => notify_loop fuel qi c m
  end.

Definition core_service_net (fuel : nat) (c : Core) (m : GuestMemory) :
    res unit (bool * Core * GuestMemory) :=
  match backend c with
  | Net n => flush_rx fuel (set_backend (Net (net_service n).2) c) m
  | _ => Ok (false, c, m)
  end.

End Core.

(** ** Register values *)

Definition driver_ok (status : Z) : bool := negb (Z.land status DEVICE_STATUS_DRIVER_OK =? 0).

(** [fill_le] into a buffer of [n] bytes. *)
Definition fill_le (n : nat) (value : Z) : list Z := take n (le_bytes 8 value ++ replicate (n - 8) 0).

Definition parse_le (data : list Z) : Z := le_val (take 8 data ++ replicate (8 - length data) 0).

(** ** Memory that only the driver writes

    [P] stands for the driver's half of guest memory: the descriptor table, the
    available ring and the indirect tables. The device writes the used ring and
    the device-writable buffers, outside of it. *)

Definition covered (P : Z -> Prop) (a n : Z) : Prop := forall k, 0 <= k < n -> P (a + k).

Definition agree (P : Z -> Prop) (m m' : GuestMemory) : Prop :=
  regions m' = regions m /\ forall a, P a -> gbyte m' a = gbyte m a.

Lemma agree_refl P m : agree P m m.
Proof. done. Qed.

Lemma agree_trans P m1 m2 m3 : agree P m1 m2 -> agree P m2 m3 -> agree P m1 m3.
Proof. intros [R1 A1] [R2 A2]. split; [congruence|]. intros a Ha. by rewrite A2, A1. Qed.

Lemma agree_read P m m' a n :
  regions_wf (regions m) -> agree P m m' -> covered P a (Z.of_nat n) -> mem_read m' a n = mem_read m a n.
Proof.
  intros Hr [Er Ha] Hc. apply mem_read_ext; [by rewrite Er|done|]. intros i Hi. apply Ha. by apply Hc.
Qed.

Lemma covered_sub P a n b k : covered P a n -> a <= b -> b + k <= a + n -> covered P b k.
Proof. intros H H1 H2 i Hi. replace (b + i) with (a + (b - a + i)) by lia. apply H. lia. Qed.

Record driver_half (P : Z -> Prop) (q : Queue) : Prop := {
  dh_avail : covered P (q_avail q) (6 + 2 * q_size q);
  dh_avail_end : q_avail q + 6 + 2 * q_size q <= 2 ^ 64;
  dh_desc : covered P (q_desc q) (16 * q_size q);
  dh_desc_end : q_desc q + 16 * q_size q <= 2 ^ 64;
  dh_used : forall a, q_used q <= a < q_used q + 6 + 8 * q_size q -> ~ P a;
}.

(** Chain [c] sits at index [i] of the available ring. *)
Definition posted (P : Z -> Prop) (q : Queue) (m : GuestMemory) (i : Z) (c : DescChain) : Prop :=
  exists ds segss,
    read_u16 m (q_avail q + 4 + 2 * (i mod q_size q)) = Ok (VirtQueue.head c) /\
    linked m (q_desc q) (q_size q) (VirtQueue.head c) ds /\
    Z.of_nat (length ds) <= q_size q + 1 /\
    Forall2 (contributes q m) ds segss /\ segments c = concat segss /\
    Forall (fun d => has_flag d.2 VIRTQ_DESC_F_INDIRECT = true ->
              0 <= d.1.1 /\ covered P d.1.1 d.1.2 /\ d.1.1 + d.1.2 <= 2 ^ 64) ds.

(** Segments inside the address space, none empty. *)
Definition chain_ok (c : DescChain) : Prop :=
  Forall (fun s => 0 <= seg_gpa s /\ 0 < seg_len s < 2 ^ 32 /\
                   seg_gpa s + seg_len s <= 2 ^ 64 - 17) (segments c).

Lemma chain_ok_filter (p : Segment -> Prop) `{forall s, Decision (p s)} c :
  chain_ok c -> Forall (fun s => 0 <= seg_gpa s /\ 0 < seg_len s < 2 ^ 32 /\
    seg_gpa s + seg_len s <= 2 ^ 64 - 17) (filter p (segments c)).
Proof.
  intros Hc. unfold chain_ok in Hc. rewrite Forall_elem in *. intros s [_ Hs]%list_elem_of_filter. by apply Hc.
Qed.

Lemma desc_at_agree P m m' table bound i a l f n :
  regions_wf (regions m) -> agree P m m' -> 0 <= table -> covered P table (16 * bound) ->
  table + 16 * bound <= 2 ^ 64 -> 0 <= i < bound ->
  desc_at m table i a l f n -> desc_at m' table i a l f n.
Proof.
  intros Hr Ha Ht Hc He Hi. unfold desc_at, read_u64, read_u32, read_u16, u64.
  rewrite !(Z.mod_small (table + 16 * i)) by lia.
  rewrite !(Z.mod_small (table + 16 * i + _)) by lia.
  by rewrite !(agree_read P m m') by
    (first [done | eapply covered_sub; [exact Hc|lia..]]).
Qed.

Lemma linked_agree P m m' table bound i ds :
  mem_wf m -> agree P m m' -> 0 <= table -> covered P table (16 * bound) ->
  table + 16 * bound <= 2 ^ 64 -> 0 <= i -> linked m table bound i ds -> linked m' table bound i ds.
Proof.
  intros Hm Ha Ht Hc He Hi Hl. induction Hl as [i a l f n Hb Hd Hf|i a l f n ds Hb Hd Hf Hl IH].
  - eapply linked_last; [done| |done]. eapply (desc_at_agree P m m'); try done. apply Hm.
  - eapply linked_next; [done| |done|].
    + eapply (desc_at_agree P m m'); try done. apply Hm.
    + apply IH. destruct Hd as (_ & _ & _ & Hn). apply read_u16_range in Hn; [|done].
      unfold is_u16 in Hn. lia.
Qed.

Lemma contributes_agree P q m m' a l f segs :
  mem_wf m -> agree P m m' -> is_u32 l ->
  (has_flag f VIRTQ_DESC_F_INDIRECT = true -> 0 <= a /\ covered P a l /\ a + l <= 2 ^ 64) ->
  contributes q m (a, l, f) segs -> contributes q m' (a, l, f) segs.
Proof.
  intros Hm Ha Hl Hc. unfold contributes. destruct (has_flag f _); [|done].
  destruct (Hc eq_refl) as (Ha0 & Hc' & He). intros (ds & Hli & Hlen & ->). exists ds.
  split_and!; [|done..]. unfold is_u32, DESC_SIZE in *.
  assert (16 * u16 (l / 16) <= l) as Hb by word_lia.
  assert (0 <= u16 (l / 16)) by (apply (wrap_range 16); lia).
  eapply (linked_agree P m m'); try done; [eapply covered_sub; [exact Hc'|lia..]|lia].
Qed.

(** The descriptors of a table hold 32-bit lengths. *)
Lemma linked_lens m table bound i ds :
  mem_wf m -> linked m table bound i ds -> Forall (fun d => is_u32 d.1.2) ds.
Proof.
  intros Hm. induction 1 as [i a l f n _ (_ & Hl & _)|i a l f n ds _ (_ & Hl & _) _ _ IH];
    apply read_u32_range in Hl; try done; (apply Forall_cons_2; [done|]); [constructor|done].
Qed.

Lemma posted_agree P q m m' i c :
  mem_wf m -> queue_wf q -> 0 < q_size q -> driver_half P q -> agree P m m' ->
  posted P q m i c -> posted P q m' i c.
Proof.
  intros Hm Hq Hs [Hav Have Hde Hdee _] Ha (ds & segss & Hh & Hl & Hlen & Hc & Hsg & Hin).
  pose proof (Z.mod_pos_bound i (q_size q) Hs). destruct Hq as (_ & Hqd & _). unfold is_u64 in Hqd.
  exists ds, segss. split_and!; try done.
  - unfold read_u16. rewrite (agree_read P m m'); [done|apply Hm|done|].
    eapply covered_sub; [exact Hav|lia..].
  - eapply (linked_agree P m m'); try done; [lia|].
    apply read_u16_range in Hh; [|done]. unfold is_u16 in Hh. lia.
  - pose proof (linked_lens _ _ _ _ _ Hm Hl) as Hls. clear Hl Hlen Hsg Hh.
    induction Hc as [|[[a l] f] segs ds segss Hd Hc IH]; constructor.
    + apply Forall_inv in Hls, Hin. by eapply contributes_agree.
    + apply IH; [by eapply Forall_inv_tail, Hin|by eapply Forall_inv_tail, Hls].
Qed.

Definition with_cursors (q : Queue) (na nu : Z) : Queue :=
  mkQueue (q_size q) (q_desc q) (q_avail q) (q_used q) (q_event_idx q) (q_indirect q) na nu.

Lemma posted_pop P q m na nu c idx fuel :
  queue_wf q -> 0 < q_size q -> driver_half P q -> is_u16 na -> is_u16 nu ->
  posted P q m na c -> read_u16 m (q_avail q + 2) = Ok idx -> idx <> na ->
  walk_fuel <= Z.of_nat fuel ->
  pop fuel (with_cursors q na nu) m = Ok (Some c, with_cursors q (u16 (na + 1)) nu).
Proof.
  intros (Hqs & Hqd & Hqa & Hqu & _) Hs [Hav Have _ _ _] Hna Hnu (ds & segss & Hh & Hl & Hlen & Hc & Hsg & _) Hi Hne Hf.
  pose proof (Z.mod_pos_bound na (q_size q) Hs). unfold is_u64 in *.
  destruct c as [hd segs]. cbn [VirtQueue.head segments] in *. subst segs.
  change (with_cursors q (u16 (na + 1)) nu)
    with (set_next_avail (with_cursors q na nu) (u16 (next_avail (with_cursors q na nu) + 1))).
  apply (pop_posted fuel (with_cursors q na nu) m idx hd ds segss); try done.
  - unfold avail_idx, u64. cbn. by rewrite Z.mod_small by lia.
  - unfold avail_ring, u64. cbn [q_size q_avail with_cursors next_avail].
    rewrite (proj2 (Z.eqb_neq _ _)), Z.mod_small by lia. by rewrite Z.add_assoc.
Qed.

Lemma idle_pop q m na nu fuel :
  queue_wf q -> q_avail q + 6 <= 2 ^ 64 -> read_u16 m (q_avail q + 2) = Ok na ->
  pop fuel (with_cursors q na nu) m = Ok (None, with_cursors q na nu).
Proof.
  intros (_ & _ & Hqa & _) He Hi. unfold is_u64 in *. unfold pop, avail_idx, u64.
  cbn [with_cursors q_avail next_avail].
  rewrite Z.mod_small by lia. rewrite Hi. cbn [mbind res_bind_inst]. by rewrite Z.eqb_refl.
Qed.

(** ** What a backend promises the core

    A backend in a state of [I] completes every well-formed chain, writes only
    the chain's device-writable buffers, and stays in [I]. *)
Class ServesChains {B E R} `{BlockBackend B} `{EntropySource E} (I : Backend B E R -> Prop) : Prop :=
  serves_chain b m c :
    I b -> mem_wf m -> chain_ok c ->
    exists used b' m', process_chain b m c = Ok (used, b', m') /\ I b' /\ mem_wf m' /\
      frames (writable c) m m'.

(** The entry of the used ring for cursor [i], and the bytes of the used ring. *)
Definition used_slot (q : Queue) (i : Z) : Z := q_used q + 4 + 8 * (i mod q_size q).

Definition in_used (q : Queue) (a : Z) : Prop := q_used q <= a < q_used q + 6 + 8 * q_size q.

Definition in_writable (c : DescChain) (a : Z) : Prop := exists s, s ∈ writable c /\ in_seg s a.

(** A chain the device may serve: well formed, with no device-writable byte in
    the driver's half or in the used ring. *)
Definition servable (P : Z -> Prop) (q : Queue) (c : DescChain) : Prop :=
  chain_ok c /\ forall a, in_writable c a -> ~ P a /\ ~ in_used q a.

Lemma frames_agree P q c m m' : servable P q c -> frames (writable c) m m' ->
  agree P m m' /\ agree (in_used q) m m' /\
  (forall a, ~ in_writable c a -> gbyte m' a = gbyte m a).
Proof.
  intros [_ Hs] [Hr Hf].
  assert (forall a, ~ in_writable c a -> gbyte m' a = gbyte m a) as Hg.
  { intros a Ha. apply Hf. apply Forall_elem. intros s Hin Hseg. apply Ha. by exists s. }
  split_and!; [split; [done|]..|done]; intros a Ha; apply Hg; intros Hw; by apply (Hs a) in Hw as [? ?].
Qed.

Lemma with_cursors_eta q : with_cursors q (next_avail q) (next_used q) = q.
Proof. by destruct q. Qed.

Section Drain.
Context {B E R J : Type}.
Context `{BlockBackend B} `{EntropySource E} `{NetResponder R} `{InterruptInjector J}.
Context (I : Backend B E R -> Prop) `{!ServesChains I}.
Context (P : Z -> Prop) (q : Queue) (p : Z) (m0 : GuestMemory).
Context (Hq : queue_wf q) (Hsz : 0 < q_size q) (Hdh : driver_half P q).
Context (Hm0 : mem_wf m0) (Hup : with_ptr m0 (q_used q) (6 + 8 * q_size q) = Ok p).
Context (Hdiv : (q_size q | 65536)).

Lemma used_ptr m : regions m = regions m0 ->
  exists p', with_ptr m (q_used q) (4 + 8 * q_size q) = Ok p'.
Proof.
  intros Hr. rewrite (with_ptr_regions m0 m) by done. exists p.
  rewrite with_ptr_Ok in *. erewrite find_ptr_sub; [|apply Hm0|exact Hup|lia..]. f_equal. lia.
Qed.

(** One completion: the entry of cursor [nu] and the index are published. *)
Lemma complete_used_spec m na nu hd len :
  regions m = regions m0 -> is_u16 na -> is_u16 nu -> is_u16 hd ->
  exists m', complete_used (with_cursors q na nu) m hd len =
      Ok (with_cursors q na (u16 (nu + 1)), m') /\
    (mem_wf m -> mem_wf m') /\ regions m' = regions m /\
    read_u32 m' (used_slot q nu) = Ok hd /\
    read_u32 m' (used_slot q nu + 4) = Ok (u32 len) /\
    read_u16 m' (q_used q + 2) = Ok (u16 (nu + 1)) /\
    (forall a, ~ (q_used q + 2 <= a < q_used q + 4) ->
       ~ (used_slot q nu <= a < used_slot q nu + 8) -> gbyte m' a = gbyte m a).
Proof.
  intros Hr Hna Hnu Hhd. destruct (used_ptr m Hr) as [p' Hp'].
  destruct (add_used_spec (with_cursors q na nu) m hd len p') as (m' & Ea & Hw & Hr' & Hh & Hl & Hx & Hf);
    [rewrite Hr; apply Hm0| |done|done|].
  { destruct Hq as (? & ? & ? & ? & _ & _). by split_and!. }
  exists m'. unfold complete_used. rewrite Ea. split_and!; try done.
  change (used_slot q nu) with (used_elem (with_cursors q na nu)). rewrite Hh. f_equal.
  unfold is_u16 in Hhd. word_lia.
Qed.

Lemma slot_in_used i : forall a, used_slot q i <= a < used_slot q i + 8 -> in_used q a.
Proof.
  intros a Ha. unfold used_slot, in_used in *. pose proof (Z.mod_pos_bound i (q_size q) Hsz). lia.
Qed.

Lemma slots_apart i j :
  0 <= j - i < q_size q -> i <> j ->
  used_slot q (u16 i) + 8 <= used_slot q (u16 j) \/ used_slot q (u16 j) + 8 <= used_slot q (u16 i).
Proof.
  intros Hij Hne. unfold used_slot, u16. change (2 ^ 16) with 65536.
  destruct Hdiv as [d Hd].
  assert (forall x, x mod 65536 mod q_size q = x mod q_size q) as Hmod.
  { intros x. rewrite Hd, Z.mul_comm, Z.rem_mul_r by nia.
    rewrite Z.mul_comm, Z.mod_add by lia. apply Z.mod_mod. lia. }
  rewrite !Hmod. enough (i mod q_size q <> j mod q_size q) by lia. intros Heq.
  assert ((j - i) mod q_size q = 0) as Hd0 by (rewrite Zminus_mod, Heq, Z.sub_diag; apply Z.mod_0_l; lia).
  rewrite Z.mod_small in Hd0 by lia. lia.
Qed.

(** The bytes a drain of [cs] from cursor [nu] may change. *)
Definition touched (cs : list DescChain) (nu : Z) (a : Z) : Prop :=
  q_used q + 2 <= a < q_used q + 4 \/
  (exists k, 0 <= k < Z.of_nat (length cs) /\
     used_slot q (u16 (nu + k)) <= a < used_slot q (u16 (nu + k)) + 8) \/
  (exists c, c ∈ cs /\ in_writable c a).

Lemma head_range m i c : mem_wf m -> posted P q m i c -> is_u16 (VirtQueue.head c).
Proof. intros Hm (ds & segss & Hh & _). by eapply read_u16_range. Qed.

(** The index the driver published, through any memory that agrees with [m0]. *)
Lemma avail_idx_agree m idx :
  agree P m0 m -> read_u16 m0 (q_avail q + 2) = Ok idx -> read_u16 m (q_avail q + 2) = Ok idx.
Proof.
  intros Hag Hidx. unfold read_u16 in *. rewrite (agree_read P m0 m); [done|apply Hm0|done|].
  eapply covered_sub; [exact (dh_avail _ _ Hdh)|lia..].
Qed.

(** One round: the chain at [na] is served and published at [nu]. *)
Lemma drain_step c idx b m na nu completed fuel :
  I b -> mem_wf m -> agree P m0 m -> is_u16 na -> is_u16 nu ->
  read_u16 m0 (q_avail q + 2) = Ok idx -> idx <> na ->
  posted P q m0 na c -> servable P q c -> walk_fuel <= Z.of_nat (S fuel) ->
  exists b1 m1, drain (S fuel) b (with_cursors q na nu) m completed =
      drain fuel b1 (with_cursors q (u16 (na + 1)) (u16 (nu + 1))) m1 true /\
    I b1 /\ mem_wf m1 /\ agree P m0 m1 /\
    read_u32 m1 (used_slot q nu) = Ok (VirtQueue.head c) /\
    read_u16 m1 (q_used q + 2) = Ok (u16 (nu + 1)) /\
    (forall a, ~ touched [c] nu a -> gbyte m1 a = gbyte m a).
Proof.
  intros Hb Hm Hag Hna Hnu Hidx Hne Hp0 Hs0 Hf. cbn [drain].
  rewrite (posted_pop P q m na nu c idx);
    [|done|done|done|done|done|by apply (posted_agree P q m0 m)|by apply avail_idx_agree|done|done].
  destruct (serves_chain b m c Hb Hm (proj1 Hs0)) as (used & b1 & m1 & -> & Hb1 & Hm1 & Hf1).
  destruct (frames_agree P q c m m1 Hs0 Hf1) as (A1 & _ & F1). cbn [mbind res_bind_inst].
  assert (regions m1 = regions m0) as Hr1 by (by rewrite (proj1 Hf1), (proj1 Hag)).
  destruct (complete_used_spec m1 (u16 (na + 1)) nu (VirtQueue.head c) used)
    as (m2 & -> & Hm2 & Hr2 & Hh2 & _ & Hx2 & F2);
    [done|apply (wrap_range 16); lia|done|by apply (head_range m0 na)|]. cbn [mbind res_bind_inst].
  exists b1, m2. split_and!; try done.
  - by apply Hm2.
  - eapply agree_trans; [exact Hag|]. eapply agree_trans; [exact A1|]. split; [done|].
    intros a Ha. destruct Hdh as [_ _ _ _ Hdu].
    apply F2; intros Hx; apply (Hdu a); try done; [lia|by apply (slot_in_used nu)].
  - assert (u16 nu = nu) as Enu by (unfold is_u16 in *; word_lia).
    intros a Ha. rewrite F2, F1; [done|..]; intros Hx; apply Ha.
    + right; right. exists c. split; [by constructor|done].
    + by left.
    + right; left. exists 0. rewrite Z.add_0_r, Enu. split; [cbn; lia|done].
Qed.

(** An empty ring ends the loop. *)
Lemma drain_idle (b : Backend B E R) m na nu completed fuel :
  agree P m0 m -> read_u16 m0 (q_avail q + 2) = Ok na ->
  drain (S fuel) b (with_cursors q na nu) m completed = Ok (b, with_cursors q na nu, m, completed).
Proof.
  intros Hag Hidx. cbn [drain]. rewrite idle_pop; [done|done|destruct Hdh; lia|by apply avail_idx_agree].
Qed.

Lemma drain_spec cs : forall b m na nu completed fuel,
  I b -> mem_wf m -> agree P m0 m -> is_u16 na -> is_u16 nu ->
  (Z.of_nat (length cs) <= q_size q) -> Z.of_nat (length cs) < 65536 ->
  read_u16 m0 (q_avail q + 2) = Ok (u16 (na + Z.of_nat (length cs))) ->
  (forall k c, cs !! k = Some c -> posted P q m0 (u16 (na + Z.of_nat k)) c /\ servable P q c) ->
  walk_fuel + Z.of_nat (length cs) < Z.of_nat fuel ->
  exists b' m', drain fuel b (with_cursors q na nu) m completed =
      Ok (b', with_cursors q (u16 (na + Z.of_nat (length cs))) (u16 (nu + Z.of_nat (length cs))), m',
          completed || negb (bool_decide (cs = []))) /\
    I b' /\ mem_wf m' /\ agree P m0 m' /\
    (forall k c, cs !! k = Some c ->
       read_u32 m' (used_slot q (u16 (nu + Z.of_nat k))) = Ok (VirtQueue.head c)) /\
    (cs = [] -> m' = m) /\
    (cs <> [] -> read_u16 m' (q_used q + 2) = Ok (u16 (nu + Z.of_nat (length cs)))) /\
    (forall a, ~ touched cs nu a -> gbyte m' a = gbyte m a).
Proof.
  induction cs as [|c cs IH]; intros b m na nu completed fuel Hb Hm Hag Hna Hnu Hle Hlt Hidx Hpost Hfuel;
    (destruct fuel as [|fuel]; [change walk_fuel with 131072 in *; lia|]); cbn [length] in *.
  - replace (u16 (na + Z.of_nat 0)) with na in * by (unfold is_u16 in *; word_lia).
    replace (u16 (nu + Z.of_nat 0)) with nu by (unfold is_u16 in *; word_lia).
    rewrite drain_idle by done. exists b, m.
    rewrite bool_decide_true, orb_false_r by done. by split_and!.
  - destruct (Hpost 0%nat c eq_refl) as [Hp0 Hs0]. rewrite Nat2Z.inj_0, Z.add_0_r in Hp0.
    assert (u16 na = na) as Ena by (unfold is_u16 in *; word_lia). rewrite Ena in Hp0.
    destruct (drain_step c _ b m na nu completed fuel Hb Hm Hag Hna Hnu Hidx) as
      (b1 & m2 & -> & Hb1 & Hm2 & A2 & Hh2 & Hx2 & F2); [unfold is_u16 in Hna; word_lia|done|done|lia|].
    assert (forall k, u16 (u16 (na + 1) + k) = u16 (na + (k + 1))) as Ek by (intros; word_lia).
    assert (forall k, u16 (u16 (nu + 1) + k) = u16 (nu + (k + 1))) as Ek' by (intros; word_lia).
    assert (u16 nu = nu) as Enu by (unfold is_u16 in *; word_lia).
    destruct (IH b1 m2 (u16 (na + 1)) (u16 (nu + 1)) true fuel)
      as (b' & m' & -> & Hb' & Hm' & Ha' & Hs' & Hn' & Hx' & F');
      try done; try lia; try (apply (wrap_range 16); lia).
    { rewrite Ek. by replace (Z.of_nat (length cs) + 1) with (Z.of_nat (S (length cs))) by lia. }
    { intros k c' Hk. rewrite Ek. replace (Z.of_nat k + 1) with (Z.of_nat (S k)) by lia. by apply Hpost. }
    rewrite Ek, Ek'. replace (Z.of_nat (length cs) + 1) with (Z.of_nat (S (length cs))) by lia.
    exists b', m'. rewrite (bool_decide_false (c :: cs = [])), orb_true_r by done. split_and!; try done.
    + intros [|k] c' Hk; [|rewrite <- (Hs' k c' Hk), Ek'; do 3 f_equal; lia].
      injection Hk as <-. rewrite Z.add_0_r, Enu, <- Hh2. unfold read_u32.
      rewrite (mem_read_ext m2 m' (used_slot q nu) 4);
        [done|apply Hm2|by rewrite (proj1 A2), (proj1 Ha')|].
      intros i Hi. symmetry. apply F'. intros [Hx|[(k & Hk & Hx)|(c' & Hc' & Hx)]].
      * unfold used_slot in *. pose proof (Z.mod_pos_bound nu (q_size q) Hsz). lia.
      * rewrite Ek' in Hx. destruct (slots_apart nu (nu + (k + 1))); [lia..| |]; rewrite Enu in *; lia.
      * apply list_elem_of_lookup in Hc' as [k Hk]. destruct (Hpost (S k) c' Hk) as [_ [_ Hsv]].
        destruct (Hsv _ Hx) as [_ Hu]. apply Hu, (slot_in_used nu). lia.
    + intros _. destruct (decide (cs = [])) as [->|Hne]; [by rewrite (Hn' eq_refl)|].
      rewrite Hx', Ek' by done. do 2 f_equal. lia.
    + intros a Ha. rewrite F', F2; [done|..]; intros Hx; apply Ha.
      * destruct Hx as [?|[(k & Hk & Hx)|(c' & Hc' & Hx)]]; [by left|..]; right.
        -- left. exists k. cbn [length] in *. split; [lia|done].
        -- right. exists c'. apply list_elem_of_singleton in Hc' as ->. split; [by constructor|done].
      * destruct Hx as [?|[(k & Hk & Hx)|(c' & Hc' & Hx)]]; [by left|..]; right.
        -- left. exists (k + 1). rewrite Ek' in Hx. cbn [length]. split; [lia|done].
        -- right. exists c'. split; [by constructor|done].
Qed.

(** Re-arming writes the event index or the flags, nothing else. *)
Lemma arm_spec m na nu :
  regions m = regions m0 -> is_u16 na ->
  (mem_wf m -> mem_wf (arm (with_cursors q na nu) m)) /\ regions (arm (with_cursors q na nu) m) = regions m /\
  forall a, ~ (q_used q <= a < q_used q + 2) ->
    ~ (q_used q + 4 + 8 * q_size q <= a < q_used q + 6 + 8 * q_size q) ->
    gbyte (arm (with_cursors q na nu) m) a = gbyte m a.
Proof.
  intros Hr Hna. destruct Hq as (_ & _ & _ & Hu & _). unfold is_u64 in Hu.
  assert (regions_wf (regions m)) as Hrw by (rewrite Hr; apply Hm0).
  pose proof (with_ptr_end m0 (q_used q) (6 + 8 * q_size q) p (proj1 Hm0) ltac:(lia) Hup) as [_ Hend].
  unfold arm, arm_notification. cbn [with_cursors q_event_idx q_used q_size next_avail].
  assert (forall a v m', write_u16 m a v = Ok m' ->
    (mem_wf m -> mem_wf m') /\ regions m' = regions m /\
    forall x, ~ (a <= x < a + 2) -> gbyte m' x = gbyte m x) as Hw.
  { intros a v m' Hw. split_and!.
    - intros Hm. eapply mem_write_wf; [done|apply le_bytes_bytes|exact Hw].
    - by eapply mem_write_regions.
    - intros x Hx. rewrite (mem_write_gbyte m a _ m' x Hrw Hw), length_le_bytes.
      by rewrite (proj2 (in_range_false _ _ _)) by lia. }
  destruct (q_event_idx q).
  - unfold u64. rewrite Z.mod_small by lia.
    destruct (write_u16 m _ na) as [m'| | |] eqn:Ew; try by split_and!.
    apply Hw in Ew as (? & ? & Hx). split_and!; try done. intros a _ Ha. apply Hx. lia.
  - destruct (read_u16 m (q_used q)) as [fl| | |]; cbn [mbind res_bind_inst]; try by split_and!.
    destruct (write_u16 m (q_used q) _) as [m'| | |] eqn:Ew; try by split_and!.
    apply Hw in Ew as (? & ? & Hx). split_and!; try done. intros a Ha _. apply Hx. lia.
Qed.

(** Whether the driver wants an interrupt is read from its own half. *)
Lemma needs_agree m na nu old :
  agree P m0 m -> needs_or_true (with_cursors q na nu) m old = needs_or_true (with_cursors q na nu) m0 old.
Proof.
  intros Ha. destruct Hq as (_ & _ & Hav & _). destruct Hdh as [Hc He _ _ _]. unfold is_u64 in Hav.
  unfold needs_or_true, needs_interrupt, read_u16, u64. cbn [with_cursors q_event_idx q_avail q_size next_used].
  rewrite Z.mod_small by lia.
  by rewrite !(agree_read P m0 m) by
    (first [done | apply Hm0 | eapply covered_sub; [exact Hc|lia..]]).
Qed.

Lemma has_pending_idle m na nu :
  agree P m0 m -> read_u16 m0 (q_avail q + 2) = Ok na -> has_pending (with_cursors q na nu) m = Ok false.
Proof.
  intros Ha Hi. destruct Hq as (_ & _ & Hav & _). destruct Hdh as [_ He _ _ _]. unfold is_u64 in Hav.
  unfold has_pending, avail_idx, u64. cbn [with_cursors q_avail next_avail].
  rewrite Z.mod_small by lia. rewrite (avail_idx_agree m na) by done.
  cbn [mbind res_bind_inst]. by rewrite Z.eqb_refl.
Qed.

(** What a notification leaves when [cs] is posted from the queue's cursor. *)
Definition served (c : DeviceCore B E R J) (qi : Z) (cs : list DescChain) (c' : DeviceCore B E R J)
    (m' : GuestMemory) : Prop :=
  let n := Z.of_nat (length cs) in
  let q' := with_cursors q (u16 (next_avail q + n)) (u16 (next_used q + n)) in
  vget (queues c') qi = Some q' /\ has_pending q' m' = Ok false /\
  (forall j, j <> qi -> vget (queues c') j = vget (queues c) j) /\
  I (backend c') /\ mem_wf m' /\ agree P m0 m' /\
  (forall k x, cs !! k = Some x ->
     read_u32 m' (used_slot q (u16 (next_used q + Z.of_nat k))) = Ok (VirtQueue.head x)) /\
  (cs <> [] -> read_u16 m' (q_used q + 2) = Ok (u16 (next_used q + n))) /\
  isr_status c' = (if bool_decide (cs = []) then isr_status c else Z.lor (isr_status c) 1) /\
  injector c' =
    (if negb (bool_decide (cs = [])) && needs_or_true q' m0 (next_used q) && negb (transport_signals c)
     then signal (injector c) (default 0 (vget (queue_vectors c) qi)) else injector c).

Lemma notify_loop_serves (c : DeviceCore B E R J) qi cs fuel :
  vget (queues c) qi = Some q -> I (backend c) ->
  Z.of_nat (length cs) <= q_size q -> Z.of_nat (length cs) < 65536 ->
  read_u16 m0 (q_avail q + 2) = Ok (u16 (next_avail q + Z.of_nat (length cs))) ->
  (forall k x, cs !! k = Some x ->
     posted P q m0 (u16 (next_avail q + Z.of_nat k)) x /\ servable P q x) ->
  walk_fuel + Z.of_nat (length cs) < Z.of_nat fuel ->
  exists c' m', notify_loop fuel qi c m0 = Ok (c', m') /\ served c qi cs c' m'.
Proof.
  intros Hv Hb Hle Hlt Hidx Hpost Hf.
  destruct (drain_spec cs (backend c) m0 (next_avail q) (next_used q) false fuel)
    as (b' & m1 & Hd & Hb' & Hm1 & Ha1 & Hs1 & _ & Hx1 & _); try done; [by apply Hq|by apply Hq|].
  rewrite with_cursors_eta in Hd. destruct fuel as [|fuel]; [done|].
  pose proof (vget_Some _ _ _ Hv) as [Hqi _].
  set (n := Z.of_nat (length cs)) in *.
  assert (is_u16 (u16 (next_avail q + n))) as Hu by (apply (wrap_range 16); lia).
  destruct (arm_spec m1 (u16 (next_avail q + n)) (u16 (next_used q + n))) as (Hm2 & Hr2 & Hf2);
    [by rewrite (proj1 Ha1)|done|].
  specialize (Hm2 Hm1).
  set (q' := with_cursors q (u16 (next_avail q + n)) (u16 (next_used q + n))) in *.
  assert (agree P m0 (arm q' m1)) as Ha2.
  { eapply agree_trans; [exact Ha1|]. split; [done|]. intros a Ha. destruct Hdh as [_ _ _ _ Hdu].
    apply Hf2; intros Hx; apply (Hdu a); (done || lia). }
  cbn [notify_loop]. rewrite Hv, Hd. cbn [mbind res_bind_inst]. cbv zeta.
  unfold q'. rewrite (has_pending_idle _ _ _ Ha2 Hidx).
  eexists _, _. split; [reflexivity|]. unfold served. fold n q'.
  assert (needs_or_true q' m1 (next_used q) = needs_or_true q' m0 (next_used q)) as ->
    by (by apply needs_agree). cbn [orb].
  assert (has_pending q' (arm q' m1) = Ok false) as Hhp by (by apply has_pending_idle).
  assert (forall k x, cs !! k = Some x -> read_u32 (arm q' m1) (used_slot q (u16 (next_used q + Z.of_nat k))) =
    Ok (VirtQueue.head x)) as Hs2.
  { intros k x Hk. rewrite <- (Hs1 k x Hk). unfold read_u32.
    rewrite (mem_read_ext m1 (arm q' m1)); [done|apply Hm1|done|]. intros i Hi. symmetry. apply Hf2;
      unfold used_slot; pose proof (Z.mod_pos_bound (u16 (next_used q + Z.of_nat k)) (q_size q) Hsz); lia. }
  assert (cs <> [] -> read_u16 (arm q' m1) (q_used q + 2) = Ok (u16 (next_used q + n))) as Hx2.
  { intros Hne. rewrite <- (Hx1 Hne). unfold read_u16.
    rewrite (mem_read_ext m1 (arm q' m1)); [done|apply Hm1|done|]. intros i Hi. symmetry. apply Hf2; lia. }
  case_bool_decide as Hcs; cbn [negb andb];
    [|unfold raise_completion; cbn [transport_signals set_isr set_queue set_backend injector queue_vectors];
      destruct (needs_or_true _ _ _ && _)]; cbn [queues set_queue set_backend set_isr set_injector backend isr_status injector];
    (split_and!; try done; [by apply vget_vset_eq|]; intros j Hj; by apply vget_vset_ne).
Qed.
End Drain.

(** ** The backends keep the promise *)

(** An entropy source fills the whole buffer with bytes. *)
Class ByteSource (E : Type) `{EntropySource E} :=
  fill_bytes e buf : bytes buf -> length (fill e buf).1 = length buf /\ bytes (fill e buf).1.

Section Serves.
Context {B E R : Type} `{ByteBackend B} `{ByteSource E}.

Definition backend_ok (b : Backend B E R) : Prop :=
  match b with Block d => blk_inv d | Rng _ => True | Net _ => False end.

Lemma rng_loop_spec segs : forall (e : E) m written,
  mem_wf m -> Forall (fun s => 0 <= seg_len s) segs ->
  exists n e' m', rng_loop segs e m written = (n, e', m') /\ mem_wf m' /\ frames segs m m'.
Proof.
  induction segs as [|seg segs IH]; intros e m written Hm Hl; cbn [rng_loop].
  { eexists _, _, _. split_and!; [done..|]. apply frames_refl. }
  pose proof (Forall_inv Hl) as Hl0. apply Forall_inv_tail in Hl. cbn in Hl0.
  assert (bytes (replicate (Z.to_nat (seg_len seg)) 0)) as Hz by (apply Forall_replicate; unfold is_u8; lia).
  destruct (fill_bytes e _ Hz) as [Hlen Hb]. rewrite length_replicate in Hlen.
  destruct (fill e _) as [buf e1]. cbn [fst] in *.
  destruct (mem_write m (seg_gpa seg) buf) as [m1| | |] eqn:Ew;
    try (eexists _, _, _; split_and!; [done..|]; apply frames_refl).
  assert (frames (seg :: segs) m m1) as F1.
  { eapply (frames_mono [seg]); [intros x Hx; apply list_elem_of_singleton in Hx as ->; by constructor|].
    eapply frames_write; [apply Hm|exact Ew|lia|lia]. }
  destruct (IH e1 m1 (sat_add32 written (seg_len seg))) as (n & e' & m' & -> & Hm' & F');
    [by eapply mem_write_wf|done|].
  eexists _, _, _. split_and!; [done..|]. eapply frames_trans; [exact F1|].
  eapply frames_mono; [|exact F']. intros x Hx. by constructor.
Qed.

#[export] Instance backend_serves_chains : ServesChains backend_ok.
Proof.
  intros b m c Hb Hm Hc. destruct b as [d|e|n]; [..|done]; cbn [process_chain].
  - assert (Forall seg_low (readable c)) as Hlow.
    { eapply Forall_impl; [|exact (chain_ok_filter (fun s => seg_write s = false) c Hc)].
      intros s. unfold seg_low. cbn. lia. }
    destruct (process_total d m c Hm Hlow) as [[[r d'] m'] Hp].
    destruct (process_inv d m c r d' m' Hb Hm Hp) as [Hb' Hm'].
    exists (c_used_len r), (Block d'), m'. rewrite Hp. split_and!; [done..|].
    eapply process_frames; [apply Hm| |exact Hp].
    eapply Forall_impl; [|exact (chain_ok_filter (fun s => seg_write s = true) c Hc)].
    intros s. cbn. lia.
  - unfold rng_process.
    destruct (rng_loop_spec (writable c) e m 0) as (n & e' & m' & -> & Hm' & F'); [done| |].
    + eapply Forall_impl; [|exact (chain_ok_filter (fun s => seg_write s = true) c Hc)].
      intros s. cbn. lia.
    + exists n, (Rng e'), m'. by split_and!.
Qed.
End Serves.

(** ** A ring whose descriptors cannot be read *)

Section Spin.
Context {B E R J : Type}.
Context `{BlockBackend B} `{EntropySource E} `{NetResponder R} `{InterruptInjector J}.
Context (P : Z -> Prop) (q : Queue) (p : Z) (m0 : GuestMemory) (idx hd : Z) (e : GuestMemError).
Context (Hq : queue_wf q) (Hsz : 0 < q_size q) (Hdh : driver_half P q).
Context (Hm0 : mem_wf m0) (Hup : with_ptr m0 (q_used q) (6 + 8 * q_size q) = Ok p).
Context (Hidx : read_u16 m0 (q_avail q + 2) = Ok idx) (Hne : idx <> next_avail q).
Context (Hhd : read_u16 m0 (q_avail q + 4 + 2 * (next_avail q mod q_size q)) = Ok hd).
Context (Hlt : hd < q_size q) (Hbad : with_ptr m0 (u64 (q_desc q + 16 * hd)) 8 = Err e).

Lemma pop_unreadable m fuel : agree P m0 m -> pop (S fuel) q m = Err e.
Proof.
  intros Ha. destruct Hq as (_ & _ & Hav & _). destruct Hdh as [Hc He _ _ _]. unfold is_u64 in Hav.
  pose proof (Z.mod_pos_bound (next_avail q) (q_size q) Hsz).
  unfold pop, avail_idx, avail_ring, u64. rewrite (Z.mod_small (q_avail q + 2)) by lia.
  rewrite (Z.mod_small (q_avail q + (4 + _))) by lia.
  rewrite (avail_idx_agree P q m0 Hsz Hdh Hm0 m idx Ha Hidx). cbn [mbind res_bind_inst].
  rewrite (proj2 (Z.eqb_neq _ _)) by congruence. rewrite (proj2 (Z.eqb_neq (q_size q) 0)) by lia.
  rewrite Z.add_assoc. unfold read_u16 in *.
  rewrite (agree_read P m0 m), Hhd by
    (first [done | apply Hm0 | eapply covered_sub; [exact Hc|lia..]]).
  cbn [mbind res_bind_inst]. unfold collect_chain. cbn [collect_loop].
  rewrite (proj2 (Z.leb_gt _ _)), (proj2 (Z.ltb_ge _ _)) by (unfold max_chain; lia). cbn [orb].
  unfold read_desc, read_u64, mem_read. change (Z.of_nat 8) with 8.
  rewrite (with_ptr_regions m0 m) by apply Ha. unfold DESC_SIZE. rewrite Hbad. done.
Qed.

Lemma notify_loop_spins fuel : forall qi (c : DeviceCore B E R J) m,
  vget (queues c) qi = Some q -> mem_wf m -> agree P m0 m -> notify_loop fuel qi c m = NoFuel.
Proof.
  induction fuel as [|fuel IH]; intros qi c m Hv Hm Ha; [done|].
  cbn [notify_loop drain]. rewrite Hv, (pop_unreadable m fuel Ha). cbn [mbind res_bind_inst].
  destruct (arm_spec q p m0 Hq Hsz Hm0 Hup m (next_avail q) (next_used q) (proj1 Ha))
    as (Hm1 & Hr1 & Hf1); [apply Hq|].
  specialize (Hm1 Hm). rewrite with_cursors_eta in Hm1, Hr1. setoid_rewrite with_cursors_eta in Hf1.
  assert (agree P m0 (arm q m)) as Ha1.
  { eapply agree_trans; [exact Ha|]. split; [done|]. intros a Hpa. destruct Hdh as [_ _ _ _ Hdu].
    apply Hf1; intros Hx; apply (Hdu a); (done || lia). }
  unfold has_pending, avail_idx, u64. destruct Hq as (_ & _ & Hav & _). unfold is_u64 in Hav.
  rewrite Z.mod_small by (destruct Hdh; lia).
  rewrite (avail_idx_agree P q m0 Hsz Hdh Hm0 _ idx Ha1 Hidx). cbn [mbind res_bind_inst].
  rewrite (proj2 (Z.eqb_neq _ _)) by congruence. cbn [negb]. apply IH; [|done|done].
  pose proof (vget_Some _ _ _ Hv) as [Hr _]. cbn. by apply vget_vset_eq.
Qed.
End Spin.

(** ** What the core keeps

    The core moves a queue's cursors and nothing else of it, and leaves the
    configuration, the vectors and the transport's choices alone. *)

Definition same_ring (q q' : Queue) : Prop :=
  q_size q' = q_size q /\ q_desc q' = q_desc q /\ q_avail q' = q_avail q /\ q_used q' = q_used q /\
  q_event_idx q' = q_event_idx q /\ q_indirect q' = q_indirect q /\ (queue_wf q -> queue_wf q').

#[export] Instance same_ring_preorder : PreOrder same_ring.
Proof.
  split; [by intros q|]. intros q1 q2 q3 (? & ? & ? & ? & ? & ? & ?) (? & ? & ? & ? & ? & ? & ?).
  split_and!; try congruence. auto.
Qed.

Lemma pop_same_ring fuel q m r q' : pop fuel q m = Ok (r, q') -> same_ring q q'.
Proof.
  unfold pop. intros (idx & _ & Hp)%bind_Ok. destruct (_ =? _); [by injection Hp as <- <-|].
  apply bind_Ok in Hp as (hd & _ & Hp). apply bind_Ok in Hp as (segs & _ & Hp). injection Hp as <- <-.
  split_and!; try done. intros (? & ? & ? & ? & ? & ?). split_and!; try done; apply (wrap_range 16); lia.
Qed.

Lemma complete_used_same_ring q m hd len q' m' :
  complete_used q m hd len = Ok (q', m') -> same_ring q q'.
Proof.
  unfold complete_used, add_used, io_get, io_read, io_update, io_modify, mbind, io_bind_inst, res_bind_inst.
  destruct (q_size q =? 0); [done|]. cbv zeta.
  destruct (write_u32 m _ hd) as [m1| | |]; try (intros [= <- <-]; done); try done.
  destruct (write_u32 m1 _ len) as [m2| | |]; try (intros [= <- <-]; done); try done.
  assert (same_ring q (set_next_used q (u16 (next_used q + 1)))) as Hs.
  { split_and!; try done. intros (? & ? & ? & ? & ? & ?). split_and!; try done; apply (wrap_range 16); lia. }
  destruct (write_u16 m2 _ _) as [m3| | |]; try done; by intros [= <- <-].
Qed.

Section Kept.
Context {B E R J : Type}.
Context `{BlockBackend B} `{EntropySource E} `{NetResponder R} `{InterruptInjector J}.

Definition same_kind (b b' : Backend B E R) : Prop :=
  match b, b' with Block _, Block _ | Rng _, Rng _ | Net _, Net _ => True | _, _ => False end.

Definition core_kept (c c' : DeviceCore B E R J) : Prop :=
  common c' = common c /\ queue_vectors c' = queue_vectors c /\ device_config c' = device_config c /\
  transport_signals c' = transport_signals c /\ same_kind (backend c) (backend c') /\
  (is_u8 (isr_status c) -> is_u8 (isr_status c')) /\
  Forall2 same_ring (queues c) (queues c').

Lemma drain_same_ring fuel : forall (b : Backend B E R) q m completed b' q' m' completed',
  drain fuel b q m completed = Ok (b', q', m', completed') -> same_ring q q' /\ same_kind b b'.
Proof.
  induction fuel as [|fuel IH]; intros b q m completed b' q' m' completed'; cbn [drain]; [done|].
  destruct (pop (S fuel) q m) as [[[c|] q1]|e| |] eqn:Ep; try done.
  - intros ([[used b1] m1] & Hp & Hd)%bind_Ok. apply bind_Ok in Hd as ([q2 m2] & Hc & Hd).
    apply pop_same_ring in Ep. apply complete_used_same_ring in Hc. apply IH in Hd as [Hs Hk].
    split; [by do 2 (etrans; [eassumption|])|]. destruct b; cbn [process_chain] in Hp.
    + apply bind_Ok in Hp as ([[r d1] m3] & _ & Hp). by injection Hp as _ <- _.
    + destruct (rng_process _ _ _) as [[? ?] ?]. by injection Hp as _ <- _.
    + by injection Hp as _ <- _.
  - intros [= <- <- _ _]. apply pop_same_ring in Ep. split; [done|by destruct b].
  - intros [= <- <- _ _]. split; [done|by destruct b].
Qed.

Lemma drain_tx_same_ring fuel : forall (n : NetDevice R) q m completed n' q' m' completed',
  drain_tx fuel n q m completed = Ok (n', q', m', completed') -> same_ring q q'.
Proof.
  induction fuel as [|fuel IH]; intros n q m completed n' q' m' completed'; cbn [drain_tx]; [done|].
  destruct (pop (S fuel) q m) as [[[c|] q1]|e| |] eqn:Ep; try done; [..|by intros [= _ <- _ _]].
  - cbv zeta. intros ([q2 m2] & Hc & Hd)%bind_Ok.
    apply pop_same_ring in Ep. apply complete_used_same_ring in Hc. apply IH in Hd.
    by do 2 (etrans; [eassumption|]).
  - intros [= _ <- _ _]. by apply pop_same_ring in Ep.
Qed.

Lemma flush_loop_same_ring fuel : forall (n : NetDevice R) q m delivered n' q' m' delivered',
  flush_loop fuel n q m delivered = Ok (n', q', m', delivered') -> same_ring q q'.
Proof.
  induction fuel as [|fuel IH]; intros n q m delivered n' q' m' delivered'; cbn [flush_loop]; [done|].
  destruct (negb _); [by intros [= _ <- _ _]|].
  destruct (pop (S fuel) q m) as [[[c|] q1]|e| |] eqn:Ep; try done; [..|by intros [= _ <- _ _]].
  - cbv zeta. apply pop_same_ring in Ep. destruct (pop_rx _) as [[f|] n1]; [|by intros [= _ <- _ _]].
    destruct (scatter _ _ _ _) as [w m1]. intros ([q2 m2] & Hc & Hd)%bind_Ok.
    apply complete_used_same_ring in Hc. apply IH in Hd. by do 2 (etrans; [eassumption|]).
  - intros [= _ <- _ _]. by apply pop_same_ring in Ep.
Qed.

#[export] Instance core_kept_preorder : PreOrder core_kept.
Proof.
  split.
  - intros c. split_and!; try done. by destruct (backend c).
  - intros c1 c2 c3 (? & ? & ? & ? & K1 & ? & ?) (? & ? & ? & ? & K2 & ? & ?).
    split_and!; try congruence; [|auto|by etrans].
    destruct (backend c1), (backend c2), (backend c3); done.
Qed.

(** A queue taken through one of the loops and put back. *)
Lemma core_kept_queue qi q q' b (c : DeviceCore B E R J) :
  vget (queues c) qi = Some q -> same_ring q q' -> same_kind (backend c) b ->
  core_kept c (set_queue qi q' (set_backend b c)).
Proof.
  intros Hv Hs Hb. split_and!; try done. cbn. by eapply Forall2_vset; [apply _|..].
Qed.

Lemma core_kept_raise qi needs (c : DeviceCore B E R J) : core_kept c (raise_completion qi needs c).
Proof.
  assert (is_u8 (isr_status c) -> is_u8 (Z.lor (isr_status c) 1)) as Hi by (intros; by apply (lor_range 8)).
  unfold raise_completion.
  destruct (_ && _); (split_and!; try done; cbn; by destruct (backend c)).
Qed.

Lemma notify_loop_kept fuel qi : forall (c : DeviceCore B E R J) m c' m',
  notify_loop fuel qi c m = Ok (c', m') -> core_kept c c'.
Proof.
  induction fuel as [|fuel IH]; intros c m c' m'; cbn [notify_loop]; [done|].
  destruct (vget (queues c) qi) as [q|] eqn:Hv; [|by intros [= <- _]].
  intros ([[[b q'] m1] completed] & Hd & Hn)%bind_Ok. apply drain_same_ring in Hd as [Hs Hk].
  pose proof (core_kept_queue qi q q' b c Hv Hs Hk) as Hc. cbv zeta in Hn.
  set (c1 := if completed then _ else _) in Hn.
  assert (core_kept c c1) as Hc1.
  { unfold c1. destruct completed; [|done]. by etrans; [|apply core_kept_raise]. }
  destruct (has_pending _ _) as [[]|e| |]; first [by injection Hn as <- _ | by etrans; [|eapply IH]].
Qed.

Lemma flush_rx_kept fuel (c : DeviceCore B E R J) m r c' m' :
  flush_rx fuel c m = Ok (r, c', m') -> core_kept c c'.
Proof.
  unfold flush_rx. destruct (backend c) as [| |n] eqn:Eb; try by intros [= _ <- _].
  destruct (vget _ _) as [q|] eqn:Hv; [|by intros [= _ <- _]].
  intros ([[[n' q'] m1] delivered] & Hl & Hf)%bind_Ok. apply flush_loop_same_ring in Hl.
  assert (core_kept c (set_queue NET_RX_QUEUE q' (set_backend (Net n') c))) as Hc.
  { eapply core_kept_queue; [done|done|]. by rewrite Eb. }
  destruct delivered; injection Hf as _ <- _; [|done]. by etrans; [|apply core_kept_raise].
Qed.

Lemma notify_kept fuel qi (c : DeviceCore B E R J) m c' m' :
  notify fuel qi c m = Ok (c', m') -> core_kept c c'.
Proof.
  unfold notify. destruct (backend c) as [d|e|n] eqn:Eb; try apply notify_loop_kept.
  unfold notify_net. destruct (qi =? NET_TX_QUEUE).
  - destruct (vget _ _) as [q|] eqn:Hv; [|by intros [= <- _]].
    intros ([[[n' q'] m1] completed] & Hd & Hn)%bind_Ok. apply drain_tx_same_ring in Hd.
    apply bind_Ok in Hn as ([[r c2] m2] & Hf & Hn). injection Hn as <- _. apply flush_rx_kept in Hf.
    etrans; [|exact Hf].
    assert (core_kept c (set_queue NET_TX_QUEUE q' (set_backend (Net n') c))) as Hc.
    { eapply core_kept_queue; [done|done|]. by rewrite Eb. }
    destruct completed; [|done]. by etrans; [|apply core_kept_raise].
  - intros ([[r c2] m2] & Hf & Hn)%bind_Ok. injection Hn as <- _. by apply flush_rx_kept in Hf.
Qed.

Lemma core_service_net_kept fuel (c : DeviceCore B E R J) m r c' m' :
  core_service_net fuel c m = Ok (r, c', m') -> core_kept c c'.
Proof.
  unfold core_service_net. destruct (backend c) as [d|e|n] eqn:Eb; try by intros [= _ <- _].
  intros Hf%flush_rx_kept. etrans; [|exact Hf].
  split_and!; try done. by rewrite Eb.
Qed.
End Kept.

(** ** Properties of the device core *)

Section Properties.
Context {B E R J : Type} `{ByteBackend B} `{ByteSource E} `{NetResponder R} `{InterruptInjector J}.

(** C8: a notified block or entropy queue is served to the end. When the driver
    has posted the chains [cs] from the device's cursor, with its tables apart
    from what the device writes, one notification returns with every chain
    completed: both cursors have moved past them, each chain's head is in its
    slot of the used ring, the used index is published, nothing is pending, the
    driver's tables and the other queues are as they were, and the interrupt is
    raised exactly when something completed, the driver asked for it and the
    transport does not raise it itself. *)
Theorem notify_serves_posted (c : DeviceCore B E R J) P q p m qi cs fuel :
  queue_wf q -> 0 < q_size q -> (q_size q | 65536) -> driver_half P q -> mem_wf m ->
  with_ptr m (q_used q) (6 + 8 * q_size q) = Ok p ->
  vget (queues c) qi = Some q -> backend_ok (backend c) ->
  Z.of_nat (length cs) <= q_size q ->
  read_u16 m (q_avail q + 2) = Ok (u16 (next_avail q + Z.of_nat (length cs))) ->
  (forall k x, cs !! k = Some x ->
     posted P q m (u16 (next_avail q + Z.of_nat k)) x /\ servable P q x) ->
  walk_fuel + Z.of_nat (length cs) < Z.of_nat fuel ->
  exists c' m', notify fuel qi c m = Ok (c', m') /\ served backend_ok P q m c qi cs c' m'.
Proof.
  intros Hq Hs Hd Hdh Hm Hup Hv Hb Hl Hi Hp Hf.
  destruct (notify_loop_serves backend_ok P q p m Hq Hs Hdh Hm Hup Hd c qi cs fuel) as (c' & m' & Hn & Hsv);
    try done; [unfold queue_wf, is_u16 in Hq; lia|].
  exists c', m'. split; [|done]. unfold notify. by destruct (backend c).
Qed.

(** A queue whose next descriptor lies outside guest memory is never
    finished with. The read error ends the inner loop without consuming the
    entry, the entry is then still pending, and the outer loop starts over:
    whatever the fuel, [notify] does not return. *)
Theorem notify_unreadable_descriptor_spins (c : DeviceCore B E R J) P q p m qi idx hd e fuel :
  queue_wf q -> 0 < q_size q -> driver_half P q -> mem_wf m ->
  with_ptr m (q_used q) (6 + 8 * q_size q) = Ok p ->
  vget (queues c) qi = Some q -> (forall n, backend c <> Net n) ->
  read_u16 m (q_avail q + 2) = Ok idx -> idx <> next_avail q ->
  read_u16 m (q_avail q + 4 + 2 * (next_avail q mod q_size q)) = Ok hd -> hd < q_size q ->
  with_ptr m (u64 (q_desc q + 16 * hd)) 8 = Err e ->
  notify fuel qi c m = NoFuel.
Proof.
  intros Hq Hs Hdh Hm Hup Hv Hb Hi Hne Hh Hlt Hbad.
  assert (notify_loop fuel qi c m = NoFuel) as E1.
  { eapply (notify_loop_spins P q p m idx hd e); try done. }
  unfold notify. destruct (backend c) as [d|r|n] eqn:Eb; [done..|]. by destruct (Hb n).
Qed.
End Properties.

(** *** A block device with one posted read request *)

#[local] Instance zero_source : EntropySource unit := fun e buf => (buf, e).
#[local] Instance zero_source_bytes : ByteSource unit.
Proof. intros e buf Hb. by split. Qed.

Definition demo_disk : BlockDevice FileBackend :=
  blk_new (mkFileBackend (mkFile 4096 ∅) 8) [1; 2; 3].

Definition demo_core (q : Queue) : DeviceCore FileBackend unit EchoResponder LoggingInjector :=
  mkCore (mkVC 0 0 0 0 0 1 0 0 0) [q] [5] (Block demo_disk) [] 0 (mkLog 0) false.

Definition demo_half (a : Z) : Prop := 4096 <= a < 4608 \/ 4864 <= a < 4896.

Definition demo_posted : DescChain :=
  mkChain 0 [mkSeg 6000 16 false; mkSeg 6100 100 true; mkSeg 6300 200 true; mkSeg 6700 1 true].

Lemma demo_driver_half : driver_half demo_half demo_q.
Proof.
  split; unfold covered, demo_half; cbn; try lia; intros; lia.
Qed.

Lemma demo_chain_posted : posted demo_half demo_q demo_qmem 0 demo_posted.
Proof.
  exists [(6000, 16, 1); (4864, 32, 5); (6700, 1, 2)],
    [[mkSeg 6000 16 false]; [mkSeg 6100 100 true; mkSeg 6300 200 true]; [mkSeg 6700 1 true]].
  split_and!; [vm_compute; reflexivity| |cbn; lia| |reflexivity|].
  - eapply linked_next; [reflexivity|by vm_compute|reflexivity|].
    eapply linked_next; [reflexivity|by vm_compute|reflexivity|].
    eapply linked_last; [reflexivity|by vm_compute|reflexivity].
  - repeat constructor. exists [(6100, 100, 3); (6300, 200, 2)].
    split_and!; [|vm_compute; discriminate|reflexivity].
    eapply linked_next; [reflexivity|by vm_compute|reflexivity|].
    eapply linked_last; [reflexivity|by vm_compute|reflexivity].
  - apply Forall_cons_2; [by vm_compute|]. apply Forall_cons_2; [|apply Forall_cons_2; [by vm_compute|constructor]].
    intros _. unfold covered, demo_half. cbn. split; [lia|]. split; [|lia]. intros; lia.
Qed.

Lemma demo_chain_servable : servable demo_half demo_q demo_posted.
Proof.
  split; [repeat constructor; cbn; lia|]. intros a (s & Hs & Ha). unfold in_seg, demo_half, in_used in *.
  assert (s = mkSeg 6100 100 true \/ s = mkSeg 6300 200 true \/ s = mkSeg 6700 1 true) as Hc.
  { vm_compute in Hs. repeat (apply elem_of_cons in Hs as [->|Hs]; [auto|]). by apply not_elem_of_nil in Hs. }
  destruct Hc as [-> | [-> | ->]]; cbn in *; lia.
Qed.

Lemma notify_serves_posted_witness :
  exists c' m', notify (Z.to_nat (walk_fuel + 2)) 0 (demo_core demo_q) demo_qmem = Ok (c', m') /\
    read_u16 m' 4610 = Ok 1 /\ read_u32 m' 4612 = Ok 0 /\ isr_status c' = 1.
Proof.
  destruct (notify_serves_posted (demo_core demo_q) demo_half demo_q 512 demo_qmem 0 [demo_posted]
    (Z.to_nat (walk_fuel + 2))) as (c' & m' & Hn & (_ & _ & _ & _ & _ & _ & Hs & Hx & Hi & _)).
  - exact demo_q_wf.
  - reflexivity.
  - by exists 16384.
  - exact demo_driver_half.
  - exact demo_qmem_wf.
  - vm_compute; reflexivity.
  - reflexivity.
  - split; [apply map_Forall_empty|by apply bytesb_bytes].
  - cbn; lia.
  - vm_compute; reflexivity.
  - intros [|k] x Hk; [|done]. injection Hk as <-. split; [exact demo_chain_posted|exact demo_chain_servable].
  - rewrite Z2Nat.id; [cbn; lia|discriminate].
  - exists c', m'. split; [exact Hn|]. split; [by apply Hx|]. split; [by apply (Hs 0%nat demo_posted)|].
    exact Hi.
Defined.

(** The same queue with its descriptor table at an address no region backs. *)
Definition demo_bad_q : Queue := mkQueue 4 20480 4352 4608 true true 0 0.

Lemma notify_unreadable_descriptor_spins_witness :
  notify 1000 0 (demo_core demo_bad_q) demo_qmem = NoFuel.
Proof.
  apply (notify_unreadable_descriptor_spins (demo_core demo_bad_q)
    (fun a => 4352 <= a < 4608 \/ 20480 <= a < 20544) demo_bad_q 512 demo_qmem 0 1 0 (mkMemErr 20480 8)).
  - split_and!; vm_compute; intuition congruence.
  - reflexivity.
  - split; unfold covered; cbn; try lia; intros; lia.
  - exact demo_qmem_wf.
  - vm_compute; reflexivity.
  - reflexivity.
  - done.
  - vm_compute; reflexivity.
  - done.
  - vm_compute; reflexivity.
  - reflexivity.
  - vm_compute; reflexivity.
Defined.
