(* ===== verification/NotifyRace.v ===== *)
(** * Notifications against a running driver

    The loops of [virtio/devcore.rs] run while the guest's other vCPUs append to the
    same ring and decide, from the event index the device last wrote, whether to
    kick. [ring_step] interleaves the loop's accesses with the driver's. The loop of
    [notify] re-checks the ring after it has re-armed, and never misses an entry;
    the transmit loop of [notify_net] does not re-check, and can miss one for good. *)

From Stdlib Require Import ZArith Lia Bool.
From stdpp Require Import base numbers list list_numbers gmap option relations.
From S2P Require Import Prelude GuestMem VirtQueue Lro NetDev BlockBackend BlockDev DevCore.

(** Where the device is: waiting for a kick, popping, about to re-arm, about to
    look at the ring again. *)
Inductive Pc := Idle | Draining | Arming | Checking.

Record Ring (S : Type) := mkRing {
  rg_dev : S;
  rg_q : Queue;
  rg_mem : GuestMemory;
  rg_pc : Pc;
  rg_kicks : nat;
  rg_posting : option Z;
}.
Arguments mkRing {S} _ _ _ _ _ _.
Arguments rg_dev {S} _.
Arguments rg_q {S} _.
Arguments rg_mem {S} _.
Arguments rg_pc {S} _.
Arguments rg_kicks {S} _.
Arguments rg_posting {S} _.

Section Race.
Context {S : Type}.

(** One chain served and completed; and whether the loop looks again after it
    has re-armed. *)
Context (serve : S -> Queue -> GuestMemory -> DescChain -> res unit (S * Queue * GuestMemory)).
Context (recheck : bool).

(** The cell of the event index. *)
Definition event_at (q : Queue) : Z := u64 (q_used q + 4 + 8 * q_size q).

(** The device's accesses, one constructor per branch of the loop. *)
Inductive dev_step : Ring S -> Ring S -> Prop :=
| dev_start d q m k post :
    dev_step (mkRing d q m Idle (Datatypes.S k) post) (mkRing d q m Draining k post)
| dev_serve fuel d q m k post c q1 d2 q2 m2 :
    pop fuel q m = Ok (Some c, q1) -> serve d q1 m c = Ok (d2, q2, m2) ->
    dev_step (mkRing d q m Draining k post) (mkRing d2 q2 m2 Draining k post)
| dev_empty fuel d q m k post q1 :
    pop fuel q m = Ok (None, q1) ->
    dev_step (mkRing d q m Draining k post) (mkRing d q1 m Arming k post)
| dev_error fuel d q m k post e :
    pop fuel q m = Err e ->
    dev_step (mkRing d q m Draining k post) (mkRing d q m Arming k post)
| dev_arm d q m k post :
    dev_step (mkRing d q m Arming k post)
      (mkRing d q (arm q m) (if recheck then Checking else Idle) k post)
| dev_more d q m k post :
    has_pending q m = Ok true ->
    dev_step (mkRing d q m Checking k post) (mkRing d q m Draining k post)
| dev_done d q m k post :
    has_pending q m <> Ok true ->
    dev_step (mkRing d q m Checking k post) (mkRing d q m Idle k post).

(** The driver, as the virtio specification has it: it publishes [n] entries, no
    more than the largest queue holds, by moving the available index, then compares the event index with the range it
    has published and kicks when the device asked to hear of it. *)
Inductive driver_step : Ring S -> Ring S -> Prop :=
| driver_post d q m pc k old n m' :
    avail_idx q m = Ok old -> 0 < n <= 32768 -> regions m' = regions m ->
    avail_idx q m' = Ok (u16 (old + n)) -> read_u16 m' (event_at q) = read_u16 m (event_at q) ->
    driver_step (mkRing d q m pc k None) (mkRing d q m' pc k (Some old))
| driver_kick d q m pc k old new event :
    avail_idx q m = Ok new -> read_u16 m (event_at q) = Ok event ->
    driver_step (mkRing d q m pc k (Some old))
      (mkRing d q m pc (if need_event event new old then Datatypes.S k else k) None).

Definition ring_step (s s' : Ring S) : Prop := dev_step s s' \/ driver_step s s'.

(** Nothing can have been missed: the event index names the next entry, and
    what lies past it is still being announced. *)
Definition announced (s : Ring S) : Prop :=
  read_u16 (rg_mem s) (event_at (rg_q s)) = Ok (next_avail (rg_q s)) /\
  forall idx, avail_idx (rg_q s) (rg_mem s) = Ok idx ->
    idx = next_avail (rg_q s) \/
    exists n, 0 < n < 65536 /\ rg_posting s = Some (next_avail (rg_q s)) /\
      idx = u16 (next_avail (rg_q s) + n).

(** The event index is negotiated, and guest memory backs its cell. *)
Definition armable (q : Queue) (m : GuestMemory) : Prop :=
  is_u16 (next_avail q) /\ q_event_idx q = true /\ exists p, with_ptr m (event_at q) 2 = Ok p.

Definition ring_inv (s : Ring S) : Prop :=
  armable (rg_q s) (rg_mem s) /\
  match rg_pc s with
  | Idle => (0 < rg_kicks s)%nat \/ announced s
  | Checking => read_u16 (rg_mem s) (event_at (rg_q s)) = Ok (next_avail (rg_q s))
  | _ => True
  end.

(** Serving leaves the ring where it is and the available cursor alone. *)
Class KeepsRing : Prop :=
  keeps_ring d q m c d' q' m' : serve d q m c = Ok (d', q', m') ->
    next_avail q' = next_avail q /\ q_event_idx q' = q_event_idx q /\ event_at q' = event_at q /\
    regions m' = regions m.

Lemma pop_armable fuel q m r q' : pop fuel q m = Ok (r, q') -> armable q m -> armable q' m.
Proof.
  unfold pop. intros (idx & _ & H)%bind_Ok Ha. case_match; [by injection H as <- <-|].
  apply bind_Ok in H as (hd & _ & H). apply bind_Ok in H as (segs & _ & H). injection H as <- <-.
  destruct Ha as (_ & ? & ?). split_and!; try done. apply (wrap_range 16). lia.
Qed.

Lemma arm_event q m :
  armable q m -> armable q (arm q m) /\ read_u16 (arm q m) (event_at q) = Ok (next_avail q).
Proof.
  intros (Hna & He & p & Hp). unfold arm, arm_notification. rewrite He. fold (event_at q).
  unfold write_u16, mem_write. rewrite length_le_bytes. change (Z.of_nat 2) with 2. rewrite Hp.
  cbn [mbind res_bind_inst]. split; [split_and!; try done; by exists p|].
  eapply read_u16_after_write; [done|]. unfold write_u16, mem_write.
  rewrite length_le_bytes. change (Z.of_nat 2) with 2. by rewrite Hp.
Qed.

Context `{!KeepsRing}.

Lemma dev_step_inv s s' : recheck = true -> dev_step s s' -> ring_inv s -> ring_inv s'.
Proof.
  intros Hrc Hs (Ha & Hpc).
  destruct Hs as [|fuel d q m k post c q1 d2 q2 m2 Hp Hsv|fuel d q m k post q1 Hp| |d q m k post|
                  |d q m k post Hp]; cbn in *.
  - by split.
  - apply (pop_armable _ _ _ _ _ Hp) in Ha as (Hna & He & p & Hw).
    apply keeps_ring in Hsv as (N2 & E2 & V2 & R2). split; [|done]. cbn.
    split_and!; [by rewrite N2|by rewrite E2|]. exists p. by rewrite V2, (with_ptr_regions m m2).
  - split; [|done]. by eapply pop_armable.
  - by split.
  - rewrite Hrc. destruct (arm_event q m Ha) as [? ?]. by split.
  - by split.
  - split; [done|]. cbn. right. split; [done|]. cbn. intros idx Hi. left.
    unfold has_pending in Hp. rewrite Hi in Hp. cbn in Hp.
    destruct (Z.eqb_spec (next_avail q) idx) as [->|]; [done|]. by destruct Hp.
Qed.

(** A range that starts at the event index is announced. *)
Lemma need_event_from e n : is_u16 e -> 0 < n < 65536 -> need_event e (u16 (e + n)) e = true.
Proof. intros He Hn. unfold need_event, is_u16 in *. apply Z.ltb_lt. word_lia. Qed.

Lemma driver_step_inv s s' : driver_step s s' -> ring_inv s -> ring_inv s'.
Proof.
  intros Hs ((Hna & Hev & p & Hp) & Hpc).
  destruct Hs as [d q m pc k old n m' Ho Hn Hr Hi He|d q m pc k old new event Hi He];
    unfold ring_inv in *; cbn in *.
  - split; [split_and!; try done; exists p; by rewrite (with_ptr_regions m m')|].
    destruct pc; try done; [|by rewrite He].
    destruct Hpc as [?|(Hev' & Hd)]; [by left|]. right. cbn in *.
    destruct (Hd old Ho) as [->|(? & _ & Hd' & _)]; [|done].
    split; [cbn; by rewrite He|]. cbn. intros idx Hi'. rewrite Hi in Hi'. injection Hi' as <-.
    right. exists n. split_and!; (done || lia).
  - split; [split_and!; try done; by exists p|]. destruct pc; try done.
    destruct Hpc as [Hk|(Hev' & Hd)]; [left; case_match; lia|]. cbn in *.
    rewrite He in Hev'. injection Hev' as ->.
    destruct (Hd new Hi) as [->|(n & Hn & [= ->] & ->)].
    + right. split; [done|]. cbn. intros idx Hi'. left. congruence.
    + left. rewrite need_event_from by done. lia.
Qed.

Lemma ring_run_inv s s' : recheck = true -> rtc ring_step s s' -> ring_inv s -> ring_inv s'.
Proof.
  intros Hrc. induction 1 as [|s s1 s' [Hs|Hs] _ IH]; intros Hi; [done|..]; apply IH.
  - by eapply dev_step_inv.
  - by eapply driver_step_inv.
Qed.

(** *** Entries the driver has stopped announcing *)

(** The driver never has more entries outstanding than the ring holds. *)
Definition within_ring (s : Ring S) : Prop :=
  exists d, 0 <= d <= q_size (rg_q s) /\
    avail_idx (rg_q s) (rg_mem s) = Ok (u16 (next_avail (rg_q s) + d)).

(** The device waits for a kick, the event index names an entry the driver has
    already moved past, and so no later entry is announced either. *)
Definition stalled (s : Ring S) : Prop :=
  rg_pc s = Idle /\ rg_kicks s = 0%nat /\ is_u16 (next_avail (rg_q s)) /\ q_size (rg_q s) < 32768 /\
  read_u16 (rg_mem s) (event_at (rg_q s)) = Ok (next_avail (rg_q s)) /\
  (exists d, 0 < d <= q_size (rg_q s) /\
     avail_idx (rg_q s) (rg_mem s) = Ok (u16 (next_avail (rg_q s) + d)) /\
     forall old, rg_posting s = Some old -> exists d0, 0 < d0 < d /\ old = u16 (next_avail (rg_q s) + d0)).

Lemma need_event_past e d0 d :
  is_u16 e -> 0 < d0 < d -> d <= 32768 -> need_event e (u16 (e + d)) (u16 (e + d0)) = false.
Proof. intros He H0 Hd. unfold need_event, is_u16 in *. apply Z.ltb_ge. word_lia. Qed.

Lemma u16_sum_inj e d1 d2 :
  0 <= d1 < 65536 -> 0 <= d2 < 65536 -> u16 (e + d1) = u16 (e + d2) -> d1 = d2.
Proof. intros. word_lia. Qed.

Lemma stalled_step s s' : ring_step s s' -> within_ring s' -> stalled s -> stalled s'.
Proof.
  intros [Hs|Hs] Hw (Hpc & Hk & Hna & Hsz & He & d & Hd & Hi & Hpost).
  { destruct Hs; cbn in *; congruence. }
  destruct Hs as [dv q m pc k old n m' Ho Hn Hr Hi' He'|dv q m pc k old new event Hi' He'];
    unfold stalled, within_ring in *; cbn in *; subst pc k.
  - rewrite Hi in Ho. injection Ho as <-. destruct Hw as (d1 & Hd1 & Hw). rewrite Hi' in Hw.
    injection Hw as Hw. assert (d1 = d + n) as -> by (apply (u16_sum_inj (next_avail q)); word_lia).
    split_and!; try done; [by rewrite He'|]. exists (d + n). split; [lia|].
    split; [by rewrite Hi', Hw|]. intros ? [= <-]. exists d. split; [lia|done].
  - rewrite Hi in Hi'. injection Hi' as <-. rewrite He in He'. injection He' as <-.
    destruct (Hpost old eq_refl) as (d0 & Hd0 & ->). rewrite need_event_past by (done || lia).
    split_and!; try done. exists d. split; [done|]. by split.
Qed.

Lemma stalled_pending s : stalled s -> has_pending (rg_q s) (rg_mem s) = Ok true.
Proof.
  intros (_ & _ & Hna & Hsz & _ & d & Hd & Hi & _). unfold has_pending. rewrite Hi.
  cbn [mbind res_bind_inst]. rewrite (proj2 (Z.eqb_neq _ _)); [done|]. unfold is_u16 in *. word_lia.
Qed.

Lemma stalled_run s s' :
  rtc (fun a b => ring_step a b /\ within_ring b) s s' -> stalled s -> stalled s'.
Proof.
  induction 1 as [|s s1 s' [Hs Hw] _ IH]; intros Hst; [done|]. by apply IH, (stalled_step s).
Qed.

End Race.

(** ** The two loops of the device *)

Section Loops.
Context {B E R J : Type}.
Context `{BlockBackend B} `{EntropySource E} `{NetResponder R} `{InterruptInjector J}.

(** The body of the inner loop of [notify]. *)
Definition serve_chain (b : Backend B E R) (q : Queue) (m : GuestMemory) (c : DescChain) :
    res unit (Backend B E R * Queue * GuestMemory) :=
  '(used_len, b, m) ← process_chain b m c;
  '(q, m) ← complete_used q m (VirtQueue.head c) used_len;
  Ok (b, q, m).

(** The body of the transmit loop. *)
Definition serve_tx (n : NetDevice R) (q : Queue) (m : GuestMemory) (c : DescChain) :
    res unit (NetDevice R * Queue * GuestMemory) :=
  let n := transmit n m c in
  '(q, m) ← complete_used q m (VirtQueue.head c) 0;
  Ok (n, q, m).

Lemma complete_used_keeps q m hd len q' m' :
  complete_used q m hd len = Ok (q', m') ->
  next_avail q' = next_avail q /\ q_event_idx q' = q_event_idx q /\ event_at q' = event_at q /\
  regions m' = regions m.
Proof.
  unfold complete_used, add_used, io_get, io_read, io_update, io_modify, mbind, io_bind_inst, res_bind_inst.
  destruct (q_size q =? 0); [done|]. cbv zeta.
  destruct (write_u32 m _ hd) as [m1| | |] eqn:E1; try (intros [= <- <-]; done); try done.
  apply mem_write_regions in E1.
  destruct (write_u32 m1 _ len) as [m2| | |] eqn:E2; try (intros [= <- <-]; done); try done.
  apply mem_write_regions in E2.
  destruct (write_u16 m2 _ _) as [m3| | |] eqn:E3; try done; intros [= <- <-]; split_and!; try done; try congruence.
  apply mem_write_regions in E3. congruence.
Qed.

#[export] Instance serve_tx_keeps : KeepsRing serve_tx.
Proof.
  intros n q m c n' q' m' Hs. unfold serve_tx in Hs. apply bind_Ok in Hs as ([q1 m1] & Hc & Hs).
  injection Hs as <- <- <-. by eapply complete_used_keeps.
Qed.

Lemma do_read_loop_regions segs : forall (bk : B) m off w,
  regions (do_read_loop segs bk m off w).2 = regions m.
Proof.
  induction segs as [|s segs IH]; intros bk m off w; cbn [do_read_loop]; [done|].
  unfold with_slice_mut. destruct (with_ptr m _ _); cbn [mbind res_bind_inst]; try done.
  destruct (read_at bk off _) as [[ok buf] bk']. cbn. destruct ok; cbn; [by rewrite IH|done].
Qed.

Lemma process_regions (d : BlockDevice B) m c r d' m' :
  process d m c = Ok (r, d', m') -> regions m' = regions m.
Proof.
  assert (forall m st w, regions (complete m c st w).2 = regions m) as Hc.
  { intros m1 st w. unfold complete. destruct (list.last _); [|done]. cbn. unfold put_status.
    destruct (mem_write m1 _ _) eqn:Ew; try done. by apply mem_write_regions in Ew. }
  assert (forall a, dispatch (blk_backend d) (blk_serial d) m c = Ok a -> regions a.2 = regions m) as Hd.
  { intros a. unfold dispatch. destruct (readable c); [done|]. case_match; [by intros [= <-]|].
    intros (ty & _ & Hx)%bind_Ok. apply bind_Ok in Hx as (se & _ & Hx).
    destruct (checked_mul64 _ _); [|done].
    destruct (_ =? VIRTIO_BLK_T_IN).
    { injection Hx as <-. apply do_read_loop_regions. }
    destruct (_ =? VIRTIO_BLK_T_OUT); [destruct (do_write _ _ _ _); by injection Hx as <-|].
    destruct (_ =? VIRTIO_BLK_T_FLUSH); [destruct (flush _); by injection Hx as <-|].
    destruct (_ =? VIRTIO_BLK_T_GET_ID).
    { unfold do_get_id in Hx. destruct (writable c); [by injection Hx as <-|].
      destruct (removelast _); [by injection Hx as <-|].
      destruct (mem_write m _ _) eqn:Ew; injection Hx as <-; try done. by apply mem_write_regions in Ew. }
    destruct (_ =? VIRTIO_BLK_T_DISCARD); [by injection Hx as <-|].
    destruct (_ =? VIRTIO_BLK_T_WRITE_ZEROES); [|by injection Hx as <-].
    apply bind_Ok in Hx as ([st bk] & _ & Hx). by injection Hx as <-. }
  unfold process. destruct (dispatch _ _ _ _) as [[[[st w] bk'] m1]|e| |]; try done.
  - specialize (Hd _ eq_refl). specialize (Hc m1 st w). destruct (complete m1 c st w).
    intros [= <- <- <-]. cbn in *. congruence.
  - specialize (Hc m VIRTIO_BLK_S_IOERR 0). destruct (complete m c _ _). by intros [= <- <- <-].
Qed.

Lemma rng_loop_regions segs : forall (e : E) m w, regions (rng_loop segs e m w).2 = regions m.
Proof.
  induction segs as [|s segs IH]; intros e m w; cbn [rng_loop]; [done|].
  destruct (fill e _) as [buf e1]. destruct (mem_write m _ buf) as [m1| | |] eqn:Ew; try done.
  rewrite IH. by apply mem_write_regions in Ew.
Qed.

#[export] Instance serve_chain_keeps : KeepsRing serve_chain.
Proof.
  intros b q m c b' q' m' Hs. unfold serve_chain in Hs.
  apply bind_Ok in Hs as ([[used b1] m1] & Hp & Hs). apply bind_Ok in Hs as ([q2 m2] & Hc & Hs).
  injection Hs as <- <- <-. apply complete_used_keeps in Hc as (? & ? & ? & Hr). split_and!; try done.
  rewrite Hr. destruct b as [d|e|n]; cbn [process_chain] in Hp.
  - apply bind_Ok in Hp as ([[r d1] m3] & Hp & Hx). injection Hx as _ _ <-. by eapply process_regions.
  - unfold rng_process in Hp. pose proof (rng_loop_regions (writable c) e m 0) as Hl.
    destruct (rng_loop _ _ _ _) as [[n e1] m3]. by injection Hp as _ _ <-.
  - by injection Hp as _ _ <-.
Qed.

(** The inner loop is a run of the relation that ends before the re-arming. *)
Lemma drain_runs fuel recheck k post : forall b q m completed b' q' m' completed',
  drain (E := E) fuel b q m completed = Ok (b', q', m', completed') ->
  rtc (dev_step serve_chain recheck) (mkRing b q m Draining k post) (mkRing b' q' m' Arming k post).
Proof.
  induction fuel as [|fuel IH]; intros b q m completed b' q' m' completed' Hd; cbn [drain] in Hd; [done|].
  destruct (pop (S fuel) q m) as [[[c|] q1]|e| |] eqn:Ep; try done.
  - apply bind_Ok in Hd as ([[used b1] m1] & Hp & Hd). apply bind_Ok in Hd as ([q2 m2] & Hc & Hd).
    eapply rtc_l; [|by eapply IH]. eapply dev_serve; [exact Ep|].
    unfold serve_chain. rewrite Hp. cbn [mbind res_bind_inst]. by rewrite Hc.
  - injection Hd as <- <- <- _. apply rtc_once. by eapply dev_empty.
  - injection Hd as <- <- <- _. apply rtc_once. by eapply dev_error.
Qed.

(** So is the whole of [notify], from the kick to the return. *)
Lemma notify_loop_runs fuel qi k post : forall (c : DeviceCore B E R J) m c' m' q,
  vget (queues c) qi = Some q -> notify_loop fuel qi c m = Ok (c', m') ->
  exists q', vget (queues c') qi = Some q' /\
    rtc (dev_step serve_chain true) (mkRing (backend c) q m Draining k post)
      (mkRing (backend c') q' m' Idle k post).
Proof.
  induction fuel as [|fuel IH]; intros c m c' m' q Hv Hn; cbn [notify_loop] in Hn; [done|].
  rewrite Hv in Hn. apply bind_Ok in Hn as ([[[b1 q1] m1] completed] & Hd & Hn).
  apply (drain_runs _ true k post) in Hd. pose proof (vget_Some _ _ _ Hv) as [Hr _].
  set (c1 := if completed then _ else _) in Hn.
  assert (vget (queues c1) qi = Some q1 /\ backend c1 = b1) as [Hv1 Hb1].
  { unfold c1, raise_completion. destruct completed; [|split; [by apply vget_vset_eq|done]].
    destruct (_ && _); (split; [by apply vget_vset_eq|done]). }
  cbv zeta in Hn. destruct (has_pending q1 (arm q1 m1)) as [[]|e| |] eqn:Eh.
  1:{ destruct (IH _ _ _ _ _ Hv1 Hn) as (q' & Hv' & Hrun). exists q'. split; [done|].
      etrans; [exact Hd|]. eapply rtc_l; [apply dev_arm|]. eapply rtc_l; [by apply dev_more|].
      by rewrite Hb1 in Hrun. }
  all: injection Hn as <- <-; exists q1; split; [done|]; rewrite Hb1; (etrans; [exact Hd|]);
    (eapply rtc_l; [apply dev_arm|]); apply rtc_once, dev_done; by rewrite Eh.
Qed.

(** The transmit loop of [notify_net] and its re-arming. *)
Lemma drain_tx_runs fuel k post : forall n q m completed n' q' m' completed',
  drain_tx fuel n q m completed = Ok (n', q', m', completed') ->
  rtc (dev_step serve_tx false) (mkRing n q m Draining k post) (mkRing n' q' (arm q' m') Idle k post).
Proof.
  induction fuel as [|fuel IH]; intros n q m completed n' q' m' completed' Hd; cbn [drain_tx] in Hd; [done|].
  destruct (pop (S fuel) q m) as [[[c|] q1]|e| |] eqn:Ep; try done.
  - cbv zeta in Hd. apply bind_Ok in Hd as ([q2 m2] & Hc & Hd).
    eapply rtc_l; [|by eapply IH]. eapply dev_serve; [exact Ep|].
    unfold serve_tx. by rewrite Hc.
  - injection Hd as <- <- <- _. eapply rtc_l; [by eapply dev_empty|]. apply rtc_once, dev_arm.
  - injection Hd as <- <- <- _. eapply rtc_l; [by eapply dev_error|]. apply rtc_once, dev_arm.
Qed.
End Loops.

(** ** Properties of the notification protocol *)

(** Memory after the frame of [demo_qmem] has been completed, and after the driver
    has added an entry while the transmit loop is between its last look at the
    ring and its re-arming. *)
Definition tx_done : GuestMemory := poke demo_qmem [(4612, le_bytes 4 0 ++ le_bytes 4 0); (4610, [1; 0])].
Definition tx_late : GuestMemory := poke tx_done [(4354, [2; 0])].
Definition tx_q : Queue := mkQueue 4 4096 4352 4608 true true 1 1.

Lemma demo_ring_inv {S} (d : S) : ring_inv (mkRing d demo_q demo_qmem Idle 1 None).
Proof.
  split; [|left; cbn; lia]. split_and!; [done..|]. eexists. vm_compute. reflexivity.
Qed.

Lemma tx_stalled {S} (d : S) : stalled (mkRing d tx_q (arm tx_q tx_late) Idle 0 None).
Proof.
  unfold stalled. cbn [rg_pc rg_kicks rg_q rg_mem rg_posting].
  do 2 (split; [done|]). split; [done|]. split; [done|]. split; [vm_compute; reflexivity|].
  exists 1. split; [done|]. split; [vm_compute; reflexivity|done].
Qed.

Section Properties.
Context {B E R : Type} `{BlockBackend B} `{EntropySource E} `{NetResponder R}.

(** C7: the block and entropy devices lose no wake-up. However the driver's posts
    and kicks interleave with the accesses of the [notify] loop, when the device
    waits, no kick is on its way and no post is half made, every published entry
    has been consumed. *)
Theorem no_lost_wakeup (s s' : Ring (Backend B E R)) idx :
  rtc (ring_step serve_chain true) s s' -> ring_inv s ->
  rg_pc s' = Idle -> rg_kicks s' = 0%nat -> rg_posting s' = None ->
  avail_idx (rg_q s') (rg_mem s') = Ok idx -> next_avail (rg_q s') = idx.
Proof.
  intros Hrun Hi Hpc Hk Hpost Hidx. destruct (ring_run_inv serve_chain true s s' eq_refl Hrun Hi) as (_ & Hinv).
  rewrite Hpc in Hinv. destruct Hinv as [?|[_ Hd]]; [lia|].
  destruct (Hd _ Hidx) as [->|(? & _ & ? & _)]; congruence.
Qed.

(** The transmit queue of the network device can lose one. From a state where
    nothing is lost, the loop of [notify_net] serves the posted frame and finds the
    ring empty, the driver posts a second frame and sees no reason to kick, and the
    device re-arms and waits: the frame is pending, and whatever the driver posts
    from then on, it never kicks and the device never wakes. *)
Theorem net_tx_wakeup_lost (n : NetDevice R) : exists s s',
  rg_dev s = n /\ ring_inv s /\ rtc (ring_step serve_tx false) s s' /\
  forall s'', rtc (fun a b => ring_step serve_tx false a b /\ within_ring b) s' s'' ->
    rg_pc s'' = Idle /\ rg_kicks s'' = 0%nat /\ has_pending (rg_q s'') (rg_mem s'') = Ok true.
Proof.
  set (n' := transmit n demo_qmem demo_posted).
  exists (mkRing n demo_q demo_qmem Idle 1 None), (mkRing n' tx_q (arm tx_q tx_late) Idle 0 None).
  split_and!; [done| | |].
  - apply demo_ring_inv.
  - eapply rtc_l; [left; apply dev_start|].
    eapply rtc_l.
    { left. apply (dev_serve _ _ 20 n demo_q demo_qmem 0 None demo_posted (set_next_avail demo_q 1) n' tx_q tx_done);
        [vm_compute; reflexivity|]. unfold serve_tx. fold n'. vm_compute. reflexivity. }
    eapply rtc_l; [left; apply (dev_empty _ _ 20 n' tx_q tx_done 0 None tx_q); vm_compute; reflexivity|].
    eapply rtc_l; [right; apply (driver_post n' tx_q tx_done Arming 0 1 1 tx_late); by vm_compute|].
    eapply rtc_l; [right; apply (driver_kick n' tx_q tx_late Arming 0 1 2 0); by vm_compute|].
    apply rtc_once. left. apply (dev_arm serve_tx false n' tx_q tx_late).
  - intros s'' Hrun. apply stalled_run in Hrun; [|exact (tx_stalled n')].
    split; [apply Hrun|]. split; [apply Hrun|by apply stalled_pending].
Qed.
End Properties.

#[local] Existing Instance zero_source.

Lemma notified_check {B E R J} (r : res unit (DeviceCore B E R J * GuestMemory)) :
  match r with
  | Ok (c', m') => match vget (queues c') 0 with
                   | Some q' => match avail_idx q' m' with Ok i => i =? 1 | _ => false end
                   | None => false
                   end
  | _ => false
  end = true ->
  exists c' m' q', r = Ok (c', m') /\ vget (queues c') 0 = Some q' /\ avail_idx q' m' = Ok 1.
Proof.
  destruct r as [[c' m']| | |]; try done. destruct (vget _ _) as [q'|] eqn:Eq; [|done].
  destruct (avail_idx q' m') as [i| | |] eqn:Ei; try done. intros ->%Z.eqb_eq. by exists c', m', q'.
Qed.

Lemma demo_notified : exists c' m' q', notify_loop 20 0 (demo_core demo_q) demo_qmem = Ok (c', m') /\
  vget (queues c') 0 = Some q' /\ avail_idx q' m' = Ok 1.
Proof. apply notified_check. vm_compute. reflexivity. Qed.

(** The notification of the block device of [demo_core], from the driver's kick. *)
Lemma no_lost_wakeup_witness :
  exists s', rtc (ring_step (serve_chain (B := FileBackend) (E := unit) (R := EchoResponder)) true)
      (mkRing (Block demo_disk) demo_q demo_qmem Idle 1 None) s' /\ next_avail (rg_q s') = 1.
Proof.
  destruct demo_notified as (c' & m' & q1 & En & Hq1 & Hall).
  destruct (notify_loop_runs 20 0 0 None (demo_core demo_q) _ _ _ demo_q eq_refl En) as (q' & Hq & Hrun).
  exists (mkRing (backend c') q' m' Idle 0 None).
  assert (rtc (ring_step (serve_chain (B := FileBackend) (E := unit) (R := EchoResponder)) true)
      (mkRing (Block demo_disk) demo_q demo_qmem Idle 1 None)
      (mkRing (backend c') q' m' Idle 0 None)) as Hr.
  { eapply rtc_l; [left; apply dev_start|]. eapply rtc_subrel; [|exact Hrun]. intros ? ? ?. by left. }
  split; [exact Hr|]. apply (no_lost_wakeup _ _ 1 Hr); [apply demo_ring_inv|done|done|done|].
  rewrite Hq in Hq1. injection Hq1 as <-. exact Hall.
Defined.
