(* ===== verification/NetPath.v ===== *)
(** * The network device's data path

    What the loops of [notify_net] and [flush_rx] in [virtio/devcore.rs] move
    between guest memory and the responder: the frames of the posted transmit
    chains, header stripped and in ring order, into the responder, and the
    backlog, header prepended, over the buffers of the posted receive chains. *)

From Stdlib Require Import ZArith Lia Bool.
From stdpp Require Import base numbers list list_numbers gmap option relations.
From S2P Require Import Prelude GuestMem VirtQueue Lro NetDev BlockBackend BlockDev DevCore.

(** ** Addresses of a chain *)

(** The guest addresses of the segments, in order. *)
Definition seg_addrs (segs : list Segment) : list Z :=
  concat ((fun s => seqZ (seg_gpa s) (seg_len s)) <$> segs).

Definition backed (m : GuestMemory) (s : Segment) : Prop :=
  0 < seg_len s /\ exists p, with_ptr m (seg_gpa s) (seg_len s) = Ok p.

Lemma seg_addrs_in segs a : a ∈ seg_addrs segs <-> exists s, s ∈ segs /\ in_seg s a.
Proof.
  induction segs as [|s segs IH]; [set_solver|].
  change (seg_addrs (s :: segs)) with (seqZ (seg_gpa s) (seg_len s) ++ seg_addrs segs).
  rewrite elem_of_app, elem_of_seqZ, IH. unfold in_seg. set_solver.
Qed.

Lemma backed_regions m m' s : regions m' = regions m -> backed m s -> backed m' s.
Proof. intros Hr [Hl [p Hp]]. split; [done|]. exists p. by rewrite (with_ptr_regions m m'). Qed.

Lemma Forall_backed_regions m m' segs :
  regions m' = regions m -> Forall (backed m) segs -> Forall (backed m') segs.
Proof. intros Hr. rewrite !Forall_elem. intros Hb s Hs. apply (backed_regions m); auto. Qed.

(** ** Spreading a payload over the writable segments *)

Lemma scatter_spec segs payload : forall off m,
  regions_wf (regions m) -> Forall (backed m) segs -> NoDup (seg_addrs segs) ->
  0 <= off <= Z.of_nat (length payload) ->
  exists m', scatter segs payload off m =
      (Z.min (off + Z.of_nat (length (seg_addrs segs))) (Z.of_nat (length payload)), m') /\
    frames segs m m' /\
    forall i a b, seg_addrs segs !! i = Some a -> payload !! (Z.to_nat off + i)%nat = Some b ->
      gbyte m' a = Some b.
Proof.
  induction segs as [|s segs IH]; intros off m Hr Hb Hnd Hoff; cbn [scatter].
  { exists m. cbn. rewrite Z.add_0_r, Z.min_l by lia. split_and!; [done|apply frames_refl|done]. }
  change (seg_addrs (s :: segs)) with (seqZ (seg_gpa s) (seg_len s) ++ seg_addrs segs) in *.
  rewrite length_app, length_seqZ, Nat2Z.inj_add.
  apply Forall_cons in Hb as [[Hl [p Hp]] Hb]. rewrite Z2Nat.id by lia.
  destruct (Z.leb_spec (Z.of_nat (length payload)) off) as [Hdone|Hmore].
  { exists m. rewrite Z.min_r by lia. replace (Z.of_nat (length payload)) with off by lia.
    split_and!; [done|apply frames_refl|]. intros i a b _ Hx%lookup_lt_Some. lia. }
  set (tk := Z.min (seg_len s) (Z.of_nat (length payload) - off)).
  set (w := slice (Z.to_nat off) (Z.to_nat tk) payload).
  assert (length w = Z.to_nat tk) as Hw by (unfold w, slice; rewrite length_take, length_drop; lia).
  destruct (mem_write_within m (seg_gpa s) (seg_len s) p (seg_gpa s) w) as [m1 E1];
    [done|done|lia|lia|lia|rewrite Hw; lia|]. rewrite E1.
  assert (regions m1 = regions m) as R1 by (by eapply mem_write_regions).
  apply NoDup_app in Hnd as (_ & Hdis & Hnd).
  destruct (IH (off + tk) m1) as (m' & Es & Hf & Hx);
    [by rewrite R1|by apply (Forall_backed_regions m)|done|lia|].
  exists m'. split_and!.
  - rewrite Es. f_equal. lia.
  - eapply frames_trans; [eapply (frames_mono [s]); [set_solver|]; apply (frames_write m (seg_gpa s) w m1 s Hr E1); rewrite ?Hw; lia|].
    eapply frames_mono; [|exact Hf]. set_solver.
  - intros i a b Ha Hpl. apply lookup_app_Some in Ha as [Ha|[Hi Ha]].
    + pose proof Ha as [-> Hi]%lookup_seqZ. rewrite (proj2 Hf).
      * rewrite (mem_write_gbyte m _ w m1 _ Hr E1).
        assert (Z.of_nat i < tk) by (apply lookup_lt_Some in Hpl; lia).
        rewrite (proj2 (in_range_spec _ _ _)) by lia.
        replace (seg_gpa s + Z.of_nat i - seg_gpa s) with (Z.of_nat i) by lia. apply vget_of_lookup.
        unfold w, slice. by rewrite lookup_take_lt, lookup_drop by lia.
      * apply Forall_elem. intros s' Hs' Hin. apply (Hdis (seg_gpa s + Z.of_nat i)).
        -- apply elem_of_seqZ. lia.
        -- apply seg_addrs_in. by exists s'.
    + rewrite length_seqZ in *. apply (Hx _ a b Ha). rewrite <- Hpl. f_equal.
      apply lookup_lt_Some in Hpl. lia.
Qed.

(** ** The receive loop *)

(** The frames a run over the chains [cs] delivers, one to a chain, each with its
    header flags, and the device after it. *)
Fixpoint rx_run {R} (cs : list DescChain) (n : NetDevice R) : list (list Z) * NetDevice R :=
  match cs with
  | [] => ([], n)
  | c :: cs =>
      if has_pending_rx n then
        match pop_rx (observe_rx_capacity (rx_cap c) n) with
        | (Some frame, n1) =>
            let '(fs, n2) := rx_run cs n1 in (rx_payload (rx_header_flags n) frame :: fs, n2)
        | (None, n1) => ([], n1)
        end
      else ([], n)
  end.

Lemma rx_run_length {R} cs (n : NetDevice R) : (length (rx_run cs n).1 <= length cs)%nat.
Proof.
  revert n. induction cs as [|c cs IH]; intros n; cbn [rx_run]; [done|].
  destruct (has_pending_rx n); [|cbn; lia]. destruct (pop_rx _) as [[f|] n1]; [|cbn; lia].
  specialize (IH n1). destruct (rx_run cs n1). cbn in *. lia.
Qed.

(** The header in front of every received frame. *)
Definition rx_header (flags : Z) : list Z := [flags; 0; 0; 0; 0; 0; 0; 0; 0; 0; 1; 0].

Lemma rx_payload_header flags frame : rx_payload flags frame = rx_header flags ++ frame.
Proof. done. Qed.

(** The run delivers a prefix of the backlog, coalesced, and stops only when the
    backlog or the chains run out. *)
Lemma rx_run_wire {R} cs : forall n : NetDevice R,
  Forall bytes (pending_rx n) ->
  let '(fs, n') := rx_run cs n in
  Forall (fun pl => take 12 pl = rx_header (rx_header_flags n)) fs /\
  wire (drop 12 <$> fs) ++ wire (pending_rx n') = wire (pending_rx n) /\
  (pending_rx n' = [] \/ length fs = length cs).
Proof.
  induction cs as [|c cs IH]; intros n Hb; cbn [rx_run]; [split_and!; [done..|by right]|].
  unfold has_pending_rx. destruct (decide (pending_rx n = [])) as [Ep|Ep].
  { rewrite Ep. split_and!; [done|by rewrite Ep|by left]. }
  replace (match pending_rx n with [] => false | _ => true end) with true by (by destruct (pending_rx n)).
  unfold pop_rx. destruct (pop_coalesced_spec (pending_rx n)
    (rx_room (observe_rx_capacity (rx_cap c) n)) (negb (guest_csum n)) Hb Ep)
    as (f & taken & rest & Hp & Eq & _ & Hw & _).
  cbn [observe_rx_capacity pending_rx responder rx_capacity guest_csum] in *. rewrite Hp.
  set (n1 := mkNet _ rest _ _). specialize (IH n1). destruct (rx_run cs n1) as [fs n2].
  rewrite Eq in Hb. apply Forall_app in Hb as [_ Hb]. destruct (IH Hb) as (Hh & Hws & Hend).
  cbn [fst snd length]. split_and!.
  - constructor; [done|]. exact Hh.
  - rewrite fmap_cons, rx_payload_header. change (drop 12 (rx_header _ ++ f)) with f.
    unfold wire in *. rewrite fmap_cons, concat_cons, <- app_assoc, Hws, Eq, fmap_app, concat_app, Hw. done.
  - destruct Hend as [?|?]; [by left|right; lia].
Qed.

Section Receive.
Context {R : Type} `{NetResponder R}.
Context (P : Z -> Prop) (q : Queue) (p : Z) (m0 : GuestMemory).
Context (Hq : queue_wf q) (Hsz : 0 < q_size q) (Hdh : driver_half P q).
Context (Hm0 : mem_wf m0) (Hup : with_ptr m0 (q_used q) (6 + 8 * q_size q) = Ok p).
Context (Hdiv : (q_size q | 65536)).

(** A receive chain: servable, and its writable buffers in guest memory. *)
Definition receivable (c : DescChain) : Prop :=
  servable P q c /\ Forall (backed m0) (writable c) /\ NoDup (seg_addrs (writable c)).

(** Payload [pl] is in the buffers of [c], as much of it as they hold, and the
    entry of the used ring at [nu] says so. *)
Definition received (m : GuestMemory) (nu : Z) (c : DescChain) (pl : list Z) : Prop :=
  (forall i a b, seg_addrs (writable c) !! i = Some a -> pl !! i = Some b -> gbyte m a = Some b) /\
  read_u32 m (used_slot q nu) = Ok (VirtQueue.head c) /\
  read_u32 m (used_slot q nu + 4) =
    Ok (u32 (Z.min (Z.of_nat (length (seg_addrs (writable c)))) (Z.of_nat (length pl)))).

Lemma in_writable_addrs c a : in_writable c a <-> a ∈ seg_addrs (writable c).
Proof. by rewrite seg_addrs_in. Qed.

(** One round: the next chain takes the next frame. *)
Lemma flush_step c idx (n : NetDevice R) m na nu delivered fuel frame n1 :
  regions m = regions m0 -> agree P m0 m -> is_u16 na -> is_u16 nu ->
  read_u16 m0 (q_avail q + 2) = Ok idx -> idx <> na ->
  posted P q m0 na c -> receivable c -> walk_fuel <= Z.of_nat (S fuel) ->
  has_pending_rx n = true -> pop_rx (observe_rx_capacity (rx_cap c) n) = (Some frame, n1) ->
  exists m1, flush_loop (S fuel) n (with_cursors q na nu) m delivered =
      flush_loop fuel n1 (with_cursors q (u16 (na + 1)) (u16 (nu + 1))) m1 true /\
    regions m1 = regions m0 /\ agree P m0 m1 /\
    received m1 nu c (rx_payload (rx_header_flags n) frame) /\
    read_u16 m1 (q_used q + 2) = Ok (u16 (nu + 1)) /\
    (forall a, ~ touched q [c] nu a -> gbyte m1 a = gbyte m a).
Proof.
  intros Hr Hag Hna Hnu Hidx Hne Hp0 (Hs0 & Hbk & Hnd) Hf Hpend Hpop. cbn [flush_loop].
  rewrite Hpend. cbn [negb].
  rewrite (posted_pop P q m na nu c idx);
    [|done|done|done|done|done|by apply (posted_agree P q m0 m)|by apply (avail_idx_agree P q m0)|done|done].
  cbv zeta. rewrite Hpop. change (rx_header_flags (observe_rx_capacity (rx_cap c) n)) with (rx_header_flags n).
  set (pl := rx_payload (rx_header_flags n) frame).
  destruct (scatter_spec (writable c) pl 0 m) as (m1 & Esc & Hfr & Hby);
    [rewrite Hr; apply Hm0|by apply (Forall_backed_regions m0)|done|lia|]. rewrite Esc.
  destruct (frames_agree P q c m m1 Hs0 Hfr) as (A1 & U1 & F1).
  assert (regions m1 = regions m0) as Hr1 by (by rewrite (proj1 Hfr)).
  destruct (complete_used_spec q p m0 Hq Hsz Hm0 Hup m1 (u16 (na + 1)) nu (VirtQueue.head c)
    (u32 (Z.min (0 + Z.of_nat (length (seg_addrs (writable c)))) (Z.of_nat (length pl)))))
    as (m2 & -> & _ & Hr2 & Hh2 & Hl2 & Hx2 & F2);
    [done|apply (wrap_range 16); lia|done|by apply (head_range P q m0 na)|]. cbn [mbind res_bind_inst].
  assert (forall a, in_used q a -> ~ in_writable c a) as Hapart.
  { intros a Hu Hw. by apply (proj2 Hs0) in Hw as [_ ?]. }
  exists m2. split_and!; try done; [congruence|..].
  - eapply agree_trans; [exact Hag|]. eapply agree_trans; [exact A1|]. split; [done|].
    intros a Ha. destruct Hdh as [_ _ _ _ Hdu].
    apply F2; intros Hx; apply (Hdu a); try done; [lia|by apply (slot_in_used q Hsz nu)].
  - split_and!; [|done|rewrite Hl2; f_equal; word_lia].
    intros i a b Ha Hb. rewrite F2.
    + by apply (Hby i a b).
    + intros Hx. apply (Hapart a); [unfold in_used; lia|]. apply in_writable_addrs. by eapply list_elem_of_lookup_2.
    + intros Hx. apply (Hapart a); [by apply (slot_in_used q Hsz nu)|].
      apply in_writable_addrs. by eapply list_elem_of_lookup_2.
  - assert (u16 nu = nu) as Enu by (unfold is_u16 in *; word_lia).
    intros a Ha. rewrite F2, F1; [done|..]; intros Hx; apply Ha.
    + right; right. exists c. split; [by constructor|done].
    + by left.
    + right; left. exists 0. rewrite Z.add_0_r, Enu. split; [cbn; lia|done].
Qed.

Lemma received_frame m m' nu c pl :
  regions m = regions m0 -> regions m' = regions m0 ->
  (forall a, in_writable c a -> gbyte m' a = gbyte m a) ->
  (forall a, used_slot q nu <= a < used_slot q nu + 8 -> gbyte m' a = gbyte m a) ->
  received m nu c pl -> received m' nu c pl.
Proof.
  intros Hr Hr' Hw Hs (Hb & Hh & Hl). split_and!.
  - intros i a b Ha Hp. rewrite Hw; [by apply (Hb i a b)|].
    apply in_writable_addrs. by eapply list_elem_of_lookup_2.
  - rewrite <- Hh. unfold read_u32. rewrite (mem_read_ext m m'); [done|rewrite Hr; apply Hm0|congruence|].
    intros i Hi. symmetry. apply Hs. lia.
  - rewrite <- Hl. unfold read_u32. rewrite (mem_read_ext m m'); [done|rewrite Hr; apply Hm0|congruence|].
    intros i Hi. symmetry. apply Hs. lia.
Qed.

(** Buffers of different chains are apart. *)
Definition chains_apart (cs : list DescChain) : Prop :=
  forall j k c1 c2 a, j <> k -> cs !! j = Some c1 -> cs !! k = Some c2 ->
    in_writable c1 a -> ~ in_writable c2 a.

(** What was received in the chain at [nu] survives a run over the chains after it. *)
Lemma received_later c cs m m' nu k pl :
  regions m = regions m0 -> regions m' = regions m0 -> is_u16 nu ->
  Z.of_nat (length (c :: cs)) <= q_size q -> (k <= length cs)%nat ->
  (forall j x, (c :: cs) !! j = Some x -> receivable x) -> chains_apart (c :: cs) ->
  (forall a, ~ touched q (take k cs) (u16 (nu + 1)) a -> gbyte m' a = gbyte m a) ->
  received m nu c pl -> received m' nu c pl.
Proof.
  intros Hr Hr' Hnu Hlen Hk Hrec Hap Hf. cbn [length] in Hlen.
  assert (u16 nu = nu) as Enu by (unfold is_u16 in *; word_lia).
  destruct (Hrec 0%nat c eq_refl) as ([_ Hs] & _ & _).
  apply received_frame; [done|done|..].
  - intros a Ha. apply Hf. destruct (Hs a Ha) as [_ Hu]. intros [Hx|[(j & Hj & Hx)|(c' & Hc' & Hx)]].
    + apply Hu. unfold in_used. lia.
    + by apply Hu, (slot_in_used q Hsz (u16 (u16 (nu + 1) + j))).
    + apply list_elem_of_lookup in Hc' as [j Hj]. apply lookup_take_Some in Hj as [Hj _].
      by apply (Hap 0%nat (S j) c c' a).
  - intros a Ha. apply Hf. intros [Hx|[(j & Hj & Hx)|(c' & Hc' & Hx)]].
    + unfold used_slot in *. pose proof (Z.mod_pos_bound nu (q_size q) Hsz). lia.
    + replace (u16 (u16 (nu + 1) + j)) with (u16 (nu + (j + 1))) in Hx by word_lia.
      rewrite length_take in Hj.
      destruct (slots_apart q Hsz Hdiv nu (nu + (j + 1))); [lia|lia| |]; rewrite Enu in *; lia.
    + apply list_elem_of_lookup in Hc' as [j Hj]. apply lookup_take_Some in Hj as [Hj _].
      destruct (Hrec (S j) c' Hj) as ([_ Hs'] & _ & _). destruct (Hs' a Hx) as [_ Hu].
      by apply Hu, (slot_in_used q Hsz nu).
Qed.

Lemma pop_rx_pending cap (n : NetDevice R) n1 :
  has_pending_rx n = true -> pop_rx (observe_rx_capacity cap n) <> (None, n1).
Proof.
  unfold has_pending_rx, pop_rx, observe_rx_capacity. cbn [pending_rx].
  destruct (pending_rx n) as [|f fs]; [done|]. intros _. unfold pop_coalesced.
  destruct (parse f); [|done]. by destruct (absorb _ _ _ _ _) as [[? ?] ?].
Qed.

Lemma flush_loop_spec cs : forall (n : NetDevice R) m na nu delivered fuel,
  regions m = regions m0 -> agree P m0 m -> is_u16 na -> is_u16 nu ->
  Z.of_nat (length cs) <= q_size q -> Z.of_nat (length cs) < 65536 ->
  read_u16 m0 (q_avail q + 2) = Ok (u16 (na + Z.of_nat (length cs))) ->
  (forall k c, cs !! k = Some c -> posted P q m0 (u16 (na + Z.of_nat k)) c) ->
  (forall k c, cs !! k = Some c -> receivable c) -> chains_apart cs ->
  walk_fuel + Z.of_nat (length cs) < Z.of_nat fuel ->
  exists m', let '(fs, n') := rx_run cs n in
    flush_loop fuel n (with_cursors q na nu) m delivered =
      Ok (n', with_cursors q (u16 (na + Z.of_nat (length fs))) (u16 (nu + Z.of_nat (length fs))), m',
          delivered || negb (bool_decide (fs = []))) /\
    regions m' = regions m0 /\ agree P m0 m' /\
    (forall k c pl, cs !! k = Some c -> fs !! k = Some pl -> received m' (u16 (nu + Z.of_nat k)) c pl) /\
    (fs <> [] -> read_u16 m' (q_used q + 2) = Ok (u16 (nu + Z.of_nat (length fs)))) /\
    (fs = [] -> m' = m) /\
    (forall a, ~ touched q (take (length fs) cs) nu a -> gbyte m' a = gbyte m a).
Proof.
  induction cs as [|c cs IH]; intros n m na nu delivered fuel Hr Hag Hna Hnu Hle Hlt Hidx Hpost Hrec Hap Hfuel;
    (destruct fuel as [|fuel]; [change walk_fuel with 131072 in *; lia|]).
  all: assert (u16 (na + Z.of_nat 0) = na /\ u16 (nu + Z.of_nat 0) = nu) as [Ena Enu]
    by (unfold is_u16 in *; split; word_lia).
  - exists m. cbn [rx_run length flush_loop] in *. rewrite bool_decide_true, orb_false_r by done.
    split_and!; try done. rewrite Ena, Enu in *. destruct (negb _); [done|].
    rewrite idle_pop; [done|done|destruct Hdh; lia|by apply (avail_idx_agree P q m0)].
  - cbn [rx_run]. destruct (has_pending_rx n) eqn:Epend.
    2:{ exists m. cbn [flush_loop]. rewrite Epend. cbn [negb length].
        rewrite Ena, Enu, bool_decide_true, orb_false_r by done. by split_and!. }
    destruct (pop_rx _) as [[frame|] n1] eqn:Epop.
    2:{ by apply pop_rx_pending in Epop. }
    destruct (flush_step c _ n m na nu delivered fuel frame n1 Hr Hag Hna Hnu Hidx) as
      (m1 & -> & Hr1 & A1 & Hrec1 & Hx1 & F1);
      [cbn [length] in *; unfold is_u16 in Hna; word_lia|rewrite <- Ena; by apply (Hpost 0%nat c)|
       by apply (Hrec 0%nat c)|lia|done|done|].
    cbn [length] in Hle, Hlt, Hidx, Hfuel.
    assert (forall x k, u16 (u16 (x + 1) + Z.of_nat k) = u16 (x + Z.of_nat (S k))) as Ek by (intros; word_lia).
    destruct (IH n1 m1 (u16 (na + 1)) (u16 (nu + 1)) true fuel) as [m' IHm];
      [done|done|apply (wrap_range 16); lia|apply (wrap_range 16); lia|lia|lia|by rewrite Ek
      |intros k x Hk; rewrite Ek; by apply Hpost|intros k x Hk; by apply (Hrec (S k))
      |intros j k c1 c2 a Hjk H1 H2; apply (Hap (S j) (S k)); [lia|done|done]|lia|].
    pose proof (rx_run_length cs n1) as Hrl.
    exists m'. destruct (rx_run cs n1) as [fs n2]. cbn [length fst] in *. rewrite !Ek in IHm.
    destruct IHm as (-> & Hr' & A' & Hrec' & Hx' & Hnil & F').
    rewrite (bool_decide_false (_ :: fs = [])), orb_true_r by done. split_and!; try done.
    + intros [|k] c' pl Hk Hpl; cbn in Hk, Hpl.
      * injection Hk as <-. injection Hpl as <-. rewrite Enu.
        by apply (received_later c cs m1 m' nu (length fs)).
      * rewrite <- Ek. by apply Hrec'.
    + intros _. destruct fs as [|f fs]; [by rewrite (Hnil eq_refl)|]. by apply Hx'.
    + intros a Ha. rewrite F', F1; [done|..]; intros Hx; apply Ha; clear Ha.
      * destruct Hx as [?|[(k & Hk & Hx)|(c' & Hc' & Hx)]]; [by left|..]; right.
        -- left. exists k. cbn [length take] in *. split; [lia|done].
        -- right. exists c'. apply list_elem_of_singleton in Hc' as ->. split; [by constructor|done].
      * destruct Hx as [?|[(k & Hk & Hx)|(c' & Hc' & Hx)]]; [by left|..]; right.
        -- left. exists (k + 1). cbn [length take]. split; [lia|].
           by replace (u16 (nu + (k + 1))) with (u16 (u16 (nu + 1) + k)) by word_lia.
        -- right. exists c'. split; [by constructor|done].
Qed.

End Receive.

(** ** The transmit loop *)

(** The frame of a transmit chain, when it is longer than its header. *)
Definition tx_frame (m : GuestMemory) (c : DescChain) : option (list Z) :=
  let buf := gather_readable (readable c) m in
  if VIRTIO_NET_HDR_LEN <? Z.of_nat (length buf)
  then Some (drop (Z.to_nat VIRTIO_NET_HDR_LEN) buf) else None.

Section Transmit.
Context {R : Type} `{NetResponder R}.
Context (P : Z -> Prop) (q : Queue) (p : Z) (m0 : GuestMemory).
Context (Hq : queue_wf q) (Hsz : 0 < q_size q) (Hdh : driver_half P q).
Context (Hm0 : mem_wf m0) (Hup : with_ptr m0 (q_used q) (6 + 8 * q_size q) = Ok p).
Context (Hdiv : (q_size q | 65536)).

(** A transmit chain: its readable buffers are the driver's until completion. *)
Definition transmittable (c : DescChain) : Prop :=
  Forall (fun s => 0 <= seg_len s /\ covered P (seg_gpa s) (seg_len s)) (readable c).

Lemma gather_agree segs m :
  agree P m0 m -> Forall (fun s => 0 <= seg_len s /\ covered P (seg_gpa s) (seg_len s)) segs ->
  gather_readable segs m = gather_readable segs m0.
Proof.
  intros Ha. induction 1 as [|s segs [Hl Hc] _ IH]; cbn [gather_readable]; [done|].
  rewrite (agree_read P m0 m), IH; [done|apply Hm0|done|by rewrite Z2Nat.id].
Qed.

Definition accepted (n : NetDevice R) (c : DescChain) : NetDevice R :=
  match tx_frame m0 c with Some frame => handle_tx_frame frame n | None => n end.

Lemma transmit_agree (n : NetDevice R) m c :
  agree P m0 m -> transmittable c -> transmit n m c = accepted n c.
Proof.
  intros Ha Ht. unfold transmit, accepted, tx_frame. rewrite (gather_agree _ m Ha Ht). by destruct (_ <? _).
Qed.

Lemma accepted_all cs : forall n : NetDevice R,
  foldl accepted n cs =
  mkNet (foldl accept (responder n) (omap (tx_frame m0) cs)) (pending_rx n) (rx_capacity n) (guest_csum n).
Proof.
  induction cs as [|c cs IH]; intros n; [by destruct n|]. cbn [foldl omap list_omap]. rewrite IH.
  unfold accepted. by destruct (tx_frame m0 c).
Qed.

(** The used entries of the chains from cursor [nu], all of length zero. *)
Definition completed_at (m : GuestMemory) (nu : Z) (cs : list DescChain) : Prop :=
  forall k c, cs !! k = Some c ->
    read_u32 m (used_slot q (u16 (nu + Z.of_nat k))) = Ok (VirtQueue.head c) /\
    read_u32 m (used_slot q (u16 (nu + Z.of_nat k)) + 4) = Ok 0.

(** What publishing [n] entries from cursor [nu] writes. *)
Definition published (n nu a : Z) : Prop :=
  q_used q + 2 <= a < q_used q + 4 \/
  exists k, 0 <= k < n /\ used_slot q (u16 (nu + k)) <= a < used_slot q (u16 (nu + k)) + 8.

Lemma slot_unpublished nu n i :
  is_u16 nu -> 0 <= n < q_size q -> 0 <= i < 8 -> ~ published n (u16 (nu + 1)) (used_slot q nu + i).
Proof.
  intros Hnu Hn Hi. assert (u16 nu = nu) as Enu by (unfold is_u16 in *; word_lia).
  pose proof (Z.mod_pos_bound nu (q_size q) Hsz). intros [Hx|(k & Hk & Hx)].
  - unfold used_slot in *. lia.
  - replace (u16 (u16 (nu + 1) + k)) with (u16 (nu + (k + 1))) in Hx by word_lia.
    destruct (slots_apart q Hsz Hdiv nu (nu + (k + 1))); [lia|lia| |]; rewrite Enu in *; lia.
Qed.

Lemma drain_tx_spec cs : forall (n : NetDevice R) m na nu completed fuel,
  agree P m0 m -> is_u16 na -> is_u16 nu ->
  Z.of_nat (length cs) <= q_size q -> Z.of_nat (length cs) < 65536 ->
  read_u16 m0 (q_avail q + 2) = Ok (u16 (na + Z.of_nat (length cs))) ->
  (forall k c, cs !! k = Some c -> posted P q m0 (u16 (na + Z.of_nat k)) c /\ transmittable c) ->
  walk_fuel + Z.of_nat (length cs) < Z.of_nat fuel ->
  exists m', drain_tx fuel n (with_cursors q na nu) m completed =
      Ok (foldl accepted n cs,
          with_cursors q (u16 (na + Z.of_nat (length cs))) (u16 (nu + Z.of_nat (length cs))), m',
          completed || negb (bool_decide (cs = []))) /\
    (mem_wf m -> mem_wf m') /\ agree P m0 m' /\ completed_at m' nu cs /\
    (forall a, ~ published (Z.of_nat (length cs)) nu a -> gbyte m' a = gbyte m a).
Proof.
  induction cs as [|c cs IH]; intros n m na nu completed fuel Hag Hna Hnu Hle Hlt Hidx Hpost Hfuel;
    (destruct fuel as [|fuel]; [change walk_fuel with 131072 in *; lia|]); cbn [length] in *.
  all: assert (u16 (na + Z.of_nat 0) = na /\ u16 (nu + Z.of_nat 0) = nu) as [Ena Enu]
    by (unfold is_u16 in *; split; word_lia).
  - exists m. rewrite bool_decide_true, orb_false_r by done. cbn [drain_tx foldl]. rewrite Ena, Enu in *.
    rewrite idle_pop; [by split_and!|done|destruct Hdh; lia|by apply (avail_idx_agree P q m0)].
  - destruct (Hpost 0%nat c eq_refl) as [Hp0 Ht0]. rewrite Ena in Hp0.
    assert (regions m = regions m0) as Hr by apply Hag. cbn [drain_tx].
    rewrite (posted_pop P q m na nu c (u16 (na + Z.of_nat (S (length cs)))));
      [|done|done|done|done|done|by apply (posted_agree P q m0 m)|by apply (avail_idx_agree P q m0)
       |unfold is_u16 in Hna; word_lia|lia].
    cbv zeta. rewrite (transmit_agree n m c Hag Ht0).
    destruct (complete_used_spec q p m0 Hq Hsz Hm0 Hup m (u16 (na + 1)) nu (VirtQueue.head c) 0)
      as (m1 & -> & W1 & R1 & Hh1 & Hl1 & _ & F1);
      [done|apply (wrap_range 16); lia|done|by apply (head_range P q m0 na)|]. cbn [mbind res_bind_inst foldl].
    assert (forall x k, u16 (u16 (x + 1) + Z.of_nat k) = u16 (x + Z.of_nat (S k))) as Ek by (intros; word_lia).
    destruct (IH (accepted n c) m1 (u16 (na + 1)) (u16 (nu + 1)) true fuel)
      as (m' & -> & W' & A' & C' & F');
      [|apply (wrap_range 16); lia|apply (wrap_range 16); lia|lia|lia|by rewrite Ek
      |intros k x Hk; rewrite Ek; by apply Hpost|lia|].
    { eapply agree_trans; [exact Hag|]. split; [congruence|]. intros a Ha. destruct Hdh as [_ _ _ _ Hdu].
      apply F1; intros Hx; apply (Hdu a); try done; [lia|by apply (slot_in_used q Hsz nu)]. }
    exists m'. rewrite !Ek, (bool_decide_false (c :: cs = [])), orb_true_r by done. split_and!; try done.
    + intros Hm. by apply W', W1.
    + intros [|k] x Hk; [|rewrite <- Ek; by apply C']. injection Hk as <-. rewrite Enu.
      assert (forall i, 0 <= i < 8 -> gbyte m1 (used_slot q nu + i) = gbyte m' (used_slot q nu + i)) as Hs.
      { intros i Hi. symmetry. apply F'. intros Hx. eapply (slot_unpublished nu); [done| |done|exact Hx]; lia. }
      change (u32 0) with 0 in Hl1. rewrite <- Hh1, <- Hl1. unfold read_u32.
      by rewrite !(mem_read_ext m1 m') by
        (first [rewrite R1, Hr; apply Hm0 | rewrite R1, Hr; symmetry; apply A'
               | intros i Hi; rewrite <- ?Z.add_assoc; apply Hs; lia]).
    + intros a Ha. rewrite F', F1; [done|..]; intros Hx; apply Ha.
      * by left.
      * right. exists 0. rewrite Z.add_0_r. replace (u16 nu) with nu by (unfold is_u16 in *; word_lia).
        split; [lia|done].
      * destruct Hx as [?|(k & Hk & Hx)]; [by left|]. right. exists (k + 1). split; [lia|].
        by replace (u16 (nu + (k + 1))) with (u16 (u16 (nu + 1) + k)) by word_lia.
Qed.
End Transmit.

(** ** Properties of the data path *)

Section Properties.
Context {B E R J : Type} `{BlockBackend B} `{EntropySource E} `{NetResponder R} `{InterruptInjector J}.

(** With an empty backlog [flush_rx] changes neither memory nor the device. *)
Lemma flush_rx_idle fuel (c : DeviceCore B E R J) m n :
  backend c = Net n -> pending_rx n = [] ->
  exists c', flush_rx (S fuel) c m = Ok (false, c', m) /\ backend c' = Net n /\
    forall qi, vget (queues c') qi = vget (queues c) qi.
Proof.
  intros Hb Hn. unfold flush_rx. rewrite Hb. destruct (vget _ _) as [q0|] eqn:Hv; [|by exists c].
  cbn [flush_loop]. unfold has_pending_rx. rewrite Hn. cbn [negb mbind res_bind_inst].
  eexists. split; [reflexivity|]. split; [done|]. intros qi. cbn [queues set_queue set_backend].
  destruct (decide (qi = NET_RX_QUEUE)) as [->|Hne]; [|by apply vget_vset_ne].
  rewrite vget_vset_eq; [done|]. by apply vget_Some in Hv as [? _].
Qed.

(** A notified transmit queue hands its frames to the responder. With the
    chains [cs] posted from the device's cursor and no backlog, one notification
    returns with the responder having accepted the frames of [cs], in order and
    without their virtio headers, chains too short to hold a frame skipped, and
    with every chain completed in the used ring at length zero. *)
Theorem notify_net_transmits (c : DeviceCore B E R J) n P q p m cs fuel :
  queue_wf q -> 0 < q_size q -> (q_size q | 65536) -> driver_half P q -> mem_wf m ->
  with_ptr m (q_used q) (6 + 8 * q_size q) = Ok p ->
  backend c = Net n -> vget (queues c) NET_TX_QUEUE = Some q -> pending_rx n = [] ->
  Z.of_nat (length cs) <= q_size q ->
  read_u16 m (q_avail q + 2) = Ok (u16 (next_avail q + Z.of_nat (length cs))) ->
  (forall k x, cs !! k = Some x ->
     posted P q m (u16 (next_avail q + Z.of_nat k)) x /\ transmittable P x) ->
  walk_fuel + Z.of_nat (length cs) < Z.of_nat fuel ->
  exists c' m', notify fuel NET_TX_QUEUE c m = Ok (c', m') /\
    backend c' = Net (mkNet (foldl accept (responder n) (omap (tx_frame m) cs)) []
                        (rx_capacity n) (guest_csum n)) /\
    vget (queues c') NET_TX_QUEUE =
      Some (with_cursors q (u16 (next_avail q + Z.of_nat (length cs)))
              (u16 (next_used q + Z.of_nat (length cs)))) /\
    completed_at q m' (next_used q) cs /\ agree P m m'.
Proof.
  intros Hq Hs Hd Hdh Hm Hup Hb Hv Hn Hl Hi Hp Hf.
  destruct (drain_tx_spec P q p m Hq Hs Hdh Hm Hup Hd cs n m (next_avail q) (next_used q) false fuel)
    as (m1 & El & _ & A1 & Hc & _); try done; [apply Hq|apply Hq|unfold queue_wf, is_u16 in Hq; lia|].
  rewrite with_cursors_eta in El. pose proof (vget_Some _ _ _ Hv) as [Hq0 _].
  unfold notify, notify_net. rewrite Hb, Z.eqb_refl, Hv, El. cbn [mbind res_bind_inst]. cbv zeta.
  rewrite accepted_all, Hn.
  set (q' := with_cursors q _ _). set (n' := mkNet _ [] _ _).
  set (c1 := if _ || _ then _ else _).
  assert (backend c1 = Net n' /\ vget (queues c1) NET_TX_QUEUE = Some q') as [Hb1 Hv1].
  { unfold c1, raise_completion. destruct (_ || _); [destruct (_ && _)|];
      (split; [done|by apply vget_vset_eq]). }
  destruct (arm_spec q p m Hq Hs Hm Hup m1 (u16 (next_avail q + Z.of_nat (length cs)))
    (u16 (next_used q + Z.of_nat (length cs))) (proj1 A1)) as (_ & R2 & F2); [apply (wrap_range 16); lia|].
  fold q' in R2, F2. destruct fuel as [|fuel]; [change walk_fuel with 131072 in *; lia|].
  destruct (flush_rx_idle fuel c1 (arm q' m1) n' Hb1 eq_refl) as (c2 & -> & Hb2 & Hv2).
  cbn [mbind res_bind_inst]. exists c2, (arm q' m1). rewrite Hv2. split_and!; try done.
  - intros k x Hk. destruct (Hc k x Hk) as [Hh Hz]. rewrite <- Hh, <- Hz. unfold read_u32.
    pose proof (Z.mod_pos_bound (u16 (next_used q + Z.of_nat k)) (q_size q) Hs).
    by rewrite !(mem_read_ext m1 (arm q' m1)) by
      (first [rewrite (proj1 A1); apply Hm | done | intros i Hi'; symmetry; apply F2; unfold used_slot; lia]).
  - eapply agree_trans; [exact A1|]. split; [done|]. intros a Ha. destruct Hdh as [_ _ _ _ Hdu].
    apply F2; intros Hx; apply (Hdu a); (done || lia).
Qed.
End Properties.

(** *** One posted chain, as a receive buffer and as a frame to send *)

#[local] Existing Instance zero_source.

Definition demo_echo : EchoResponder := mkEcho [10; 0; 2; 2] [2; 0; 0; 0; 0; 1] [].

Definition demo_net (backlog : list (list Z)) : NetDevice EchoResponder := mkNet demo_echo backlog None false.

Definition demo_net_core (backlog : list (list Z)) :
    DeviceCore FileBackend unit EchoResponder LoggingInjector :=
  mkCore (mkVC 0 0 0 0 0 1 0 0 0) [demo_q; demo_q] [5; 6] (Net (demo_net backlog)) [] 0 (mkLog 0) false.


(** The driver's half, with the bytes of the frame. *)
Definition demo_tx_half (a : Z) : Prop := demo_half a \/ 6000 <= a < 6016.

Lemma demo_tx_driver_half : driver_half demo_tx_half demo_q.
Proof. split; unfold covered, demo_tx_half, demo_half; cbn; try lia; intros; lia. Qed.

Lemma posted_mono (P P' : Z -> Prop) q m i c :
  (forall a, P a -> P' a) -> posted P q m i c -> posted P' q m i c.
Proof.
  intros Hpp (ds & segss & Hh & Hl & Hlen & Hc & Hs & Hin). exists ds, segss. split_and!; try done.
  rewrite Forall_elem in *. intros d Hd Hf. destruct (Hin d Hd Hf) as (? & Hcov & ?). split_and!; try done.
  intros k Hk. by apply Hpp, Hcov.
Qed.

Lemma notify_net_transmits_witness : exists c' m',
  notify (Z.to_nat (walk_fuel + 2)) NET_TX_QUEUE (demo_net_core []) demo_qmem = Ok (c', m') /\
  completed_at demo_q m' 0 [demo_posted].
Proof.
  destruct (notify_net_transmits (demo_net_core []) (demo_net []) demo_tx_half demo_q 512 demo_qmem
    [demo_posted] (Z.to_nat (walk_fuel + 2))) as (c' & m' & Hrun & _ & _ & Hc & _).
  - exact demo_q_wf.
  - reflexivity.
  - by exists 16384.
  - exact demo_tx_driver_half.
  - exact demo_qmem_wf.
  - vm_compute; reflexivity.
  - reflexivity.
  - reflexivity.
  - reflexivity.
  - cbn; lia.
  - vm_compute; reflexivity.
  - intros [|k] x Hk; [|done]. injection Hk as <-.
    split; [eapply posted_mono; [|exact demo_chain_posted]; by left|].
    apply Forall_cons_2; [|constructor]. split; [done|]. intros k Hk. right. cbn in *. lia.
  - rewrite Z2Nat.id; [cbn; lia|discriminate].
  - exists c', m'. by split.
Defined.
