(* ===== verification/VirtioMmio.v ===== *)
(** * The virtio-mmio transport

    [virtio/mmio.rs]: the register file a cold-booted driver programs, the
    publication of its queues into the device core, the interrupt latch, and the
    state a snapshot records. Register accesses are the [MmioDevice] trait's [read]
    and [write]. The two mutexes of the device are taken one after the other;
    [Locks] below models the order in which each access takes them. *)

From Stdlib Require Import ZArith Lia Bool.
From stdpp Require Import base numbers list list_numbers gmap option strings relations.
From S2P Require Import Prelude GuestMem VirtQueue Lro NetDev BlockBackend BlockDev DevCore.

(** ** Constants *)

Definition MAGIC_VALUE : Z := 0x74726976.
Definition VERSION : Z := 2.
Definition VENDOR_ID : Z := 0x43484D00.
Definition QUEUE_NUM_MAX : Z := 256.
Definition CONFIG_OFFSET : Z := 0x100.
Definition DEVICE_STATUS_FEATURES_OK : Z := 8.
Definition INT_USED_RING : Z := 1.
Definition RING_INDIRECT_DESC : Z := 2 ^ 28.
Definition RING_EVENT_IDX : Z := 2 ^ 29.
Definition VERSION_1 : Z := 2 ^ 32.

(** ** State *)

Record QueueSetup := mkSetup {
  su_size : Z;
  su_desc : Z;
  su_driver : Z;
  su_device : Z;
  su_ready : bool;
}.

Definition setup_default : QueueSetup := mkSetup 0 0 0 0 false.

Record MmioRegs := mkRegs {
  device_features_sel : Z;
  driver_features_sel : Z;
  acked_features : Z;
  queue_sel : Z;
  setups : list QueueSetup;
  interrupt_status : Z;
}.

Record MmioQueueState := mkQState {
  qs_size : Z;
  qs_desc : Z;
  qs_driver : Z;
  qs_device : Z;
  qs_ready : bool;
}.

Record MmioTransportState := mkTState {
  ts_name : string;
  ts_device_id : Z;
  ts_device_features : Z;
  ts_driver_features : Z;
  ts_device_features_sel : Z;
  ts_driver_features_sel : Z;
  ts_queue_sel : Z;
  ts_interrupt_status : Z;
  ts_device_status : Z;
  ts_config_generation : Z;
  ts_queues : list MmioQueueState;
  ts_device_config : list Z;
}.

Record MmioParams := mkParams {
  p_device_id : Z;
  p_features : Z;
  p_num_queues : Z;
  p_device_config : list Z;
}.

(** [kick] is the pending flag of the attached [NetKick]. *)
Record VirtioMmioDevice (B E R J : Type) := mkMmio {
  d_name : string;
  d_device_id : Z;
  d_device_features : Z;
  d_core : DeviceCore B E R J;
  d_regs : MmioRegs;
  d_kick : option bool;
}.
Arguments mkMmio {B E R J} _ _ _ _ _ _.
Arguments d_name {B E R J} _.
Arguments d_device_id {B E R J} _.
Arguments d_device_features {B E R J} _.
Arguments d_core {B E R J} _.
Arguments d_regs {B E R J} _.
Arguments d_kick {B E R J} _.

(** The [Queue] a programmed setup stands for under the features [acked], with its
    cursors at zero. *)
Definition queue_of (acked : Z) (s : QueueSetup) : Queue :=
  mkQueue (su_size s) (su_desc s) (su_driver s) (su_device s)
    (negb (Z.land acked RING_EVENT_IDX =? 0)) (negb (Z.land acked RING_INDIRECT_DESC =? 0)) 0 0.

Definition set_setups (ss : list QueueSetup) (r : MmioRegs) : MmioRegs :=
  mkRegs (device_features_sel r) (driver_features_sel r) (acked_features r) (queue_sel r) ss
    (interrupt_status r).

Definition set_interrupt_status (v : Z) (r : MmioRegs) : MmioRegs :=
  mkRegs (device_features_sel r) (driver_features_sel r) (acked_features r) (queue_sel r) (setups r) v.

(** [sel * 32] in [u32] as the amount of a 64-bit shift. *)
Definition sel_shift (sel : Z) : Z := u32 (sel * 32) mod 64.

Definition MASK32 : Z := 0xffffffff.

(** The halves of an address register. *)
Definition set_low (old v : Z) : Z := Z.lor (Z.land old (not_w 64 MASK32)) (Z.land v MASK32).
Definition set_high (old v : Z) : Z := Z.lor (Z.land old MASK32) (u64 (Z.shiftl v 32)).

(** One of the seven programming registers, or [None]. *)
Definition setup_write (offset v : Z) (s : QueueSetup) : option QueueSetup :=
  let '(mkSetup size desc driver device ready) := s in
  if offset =? 0x038 then Some (mkSetup (u16 v) desc driver device ready)
  else if offset =? 0x080 then Some (mkSetup size (set_low desc v) driver device ready)
  else if offset =? 0x084 then Some (mkSetup size (set_high desc v) driver device ready)
  else if offset =? 0x090 then Some (mkSetup size desc (set_low driver v) device ready)
  else if offset =? 0x094 then Some (mkSetup size desc (set_high driver v) device ready)
  else if offset =? 0x0a0 then Some (mkSetup size desc driver (set_low device v) ready)
  else if offset =? 0x0a4 then Some (mkSetup size desc driver (set_high device v) ready)
  else None.

Fixpoint write_config (base : Z) (data cfg : list Z) : list Z :=
  match data with
  | [] => cfg
  | b :: data => write_config (base + 1) data (vset base b cfg)
  end.

Section Mmio.
Context {B E R J : Type}.
Context `{BlockBackend B} `{EntropySource E} `{NetResponder R} `{InterruptInjector J}.

Abbreviation Dev := (VirtioMmioDevice B E R J).
Abbreviation Core := (DeviceCore B E R J).

Definition set_core (c : Core) (d : Dev) : Dev :=
  mkMmio (d_name d) (d_device_id d) (d_device_features d) c (d_regs d) (d_kick d).
Definition set_regs (r : MmioRegs) (d : Dev) : Dev :=
  mkMmio (d_name d) (d_device_id d) (d_device_features d) (d_core d) r (d_kick d).

Definition set_common (v : VirtioConfig) (c : Core) : Core :=
  mkCore v (queues c) (queue_vectors c) (backend c) (device_config c) (isr_status c) (injector c)
    (transport_signals c).
Definition set_queues (qs : list Queue) (c : Core) : Core :=
  mkCore (common c) qs (queue_vectors c) (backend c) (device_config c) (isr_status c) (injector c)
    (transport_signals c).
Definition set_device_config (cfg : list Z) (c : Core) : Core :=
  mkCore (common c) (queues c) (queue_vectors c) (backend c) cfg (isr_status c) (injector c)
    (transport_signals c).

(** ** Construction, snapshot and restore *)

(** [new], with the logging injector it installs passed as [j]. *)
Definition mmio_new (name : string) (b : Backend B E R) (params : MmioParams) (j : J) : Dev :=
  let device_features := Z.lor (p_features params) VERSION_1 in
  let n := Z.to_nat (p_num_queues params) in
  let core := mkCore (mkVC 0 0 device_features 0 0 (p_num_queues params) 0 0 0)
                (replicate n queue_default) (replicate n 0) b (p_device_config params) 0 j true in
  mkMmio name (p_device_id params) device_features core
    (mkRegs 0 0 0 0 (replicate n setup_default) 0) None.

Definition restored_queue (m : GuestMemory) (acked : Z) (qs : MmioQueueState) : Queue :=
  let q := queue_of acked (mkSetup (qs_size qs) (qs_desc qs) (qs_driver qs) (qs_device qs) (qs_ready qs)) in
  if qs_ready qs then match restore q m with Ok q' => q' | _ => q end else q.

Definition restored (b : Backend B E R) (m : GuestMemory) (st : MmioTransportState) (j : J) : Dev :=
  let acked := ts_driver_features st in
  let n := length (ts_queues st) in
  let core := mkCore (mkVC (ts_device_features_sel st) (ts_driver_features_sel st) (ts_device_features st)
                        acked 0 (u16 (Z.of_nat n)) (ts_device_status st) (ts_config_generation st)
                        (ts_queue_sel st))
                (restored_queue m acked <$> ts_queues st) (replicate n 0) b (ts_device_config st) 0 j true in
  mkMmio (ts_name st) (ts_device_id st) (ts_device_features st) core
    (mkRegs (ts_device_features_sel st) (ts_driver_features_sel st) acked (ts_queue_sel st)
       ((fun qs => mkSetup (qs_size qs) (qs_desc qs) (qs_driver qs) (qs_device qs) (qs_ready qs))
          <$> ts_queues st)
       (ts_interrupt_status st)) None.

Definition state (d : Dev) : MmioTransportState :=
  let r := d_regs d in
  mkTState (d_name d) (d_device_id d) (d_device_features d) (acked_features r)
    (device_features_sel r) (driver_features_sel r) (queue_sel r) (interrupt_status r)
    (device_status (common (d_core d))) (config_generation (common (d_core d)))
    ((fun s => mkQState (su_size s) (su_desc s) (su_driver s) (su_device s) (su_ready s)) <$> setups r)
    (device_config (d_core d)).

Definition mmio_set_injector (j : J) (d : Dev) : Dev := set_core (set_injector j (d_core d)) d.

(** A fresh [NetKick] has nothing pending. *)
Definition set_net_kick (d : Dev) : Dev :=
  mkMmio (d_name d) (d_device_id d) (d_device_features d) (d_core d) (d_regs d) (Some false).

Definition mmio_driver_ok (d : Dev) : bool := driver_ok (device_status (common (d_core d))).

(** ** Interrupts and queues *)

Definition raise (d : Dev) : Dev :=
  let c := d_core d in
  if isr_status c =? 0 then d
  else
    let r := set_interrupt_status (Z.lor (interrupt_status (d_regs d)) INT_USED_RING) (d_regs d) in
    set_regs r (set_core (set_injector (signal (injector c) 0) (set_isr 0 c)) d).

Definition mmio_service_net (fuel : nat) (d : Dev) (m : GuestMemory) : res unit (bool * Dev * GuestMemory) :=
  if negb (mmio_driver_ok d) then Ok (false, d, m)
  else
    '(delivered, c, m) ← core_service_net fuel (d_core d) m;
    let d := set_core c d in
    Ok (delivered, if (delivered : bool) then raise d else d, m).

Definition publish_queue (index : Z) (d : Dev) : Dev :=
  match vget (setups (d_regs d)) index with
  | None => d
  | Some setup =>
      let q := queue_of (acked_features (d_regs d)) setup in
      set_core (set_queue index q (d_core d)) d
  end.

Definition commit_features (acked : Z) (d : Dev) : Dev :=
  let c := d_core d in
  let v := common c in
  let c := set_common (mkVC (device_feature_select v) (driver_feature_select v) (device_features v) acked
                         (msix_config v) (num_queues v) (device_status v) (config_generation v)
                         (queue_select v)) c in
  let c := match backend c with Net n => set_backend (Net (apply_features acked n)) c | _ => c end in
  set_core c d.

Definition reset (d : Dev) : Dev :=
  let r := mkRegs 0 0 0 0 (replicate (length (setups (d_regs d))) setup_default) 0 in
  let c := d_core d in
  let v := common c in
  let c := set_common (mkVC (device_feature_select v) (driver_feature_select v) (device_features v) 0
                         (msix_config v) (num_queues v) 0 (config_generation v) (queue_select v)) c in
  let c := set_queues (replicate (length (queues c)) queue_default) (set_isr 0 c) in
  set_core c (set_regs r d).

Definition queue_ready (d : Dev) (index : Z) : bool :=
  match vget (setups (d_regs d)) index with Some s => su_ready s | None => false end.

(** [kick.wake()] on the attached handle. *)
Definition wake (d : Dev) : Dev :=
  mkMmio (d_name d) (d_device_id d) (d_device_features d) (d_core d) (d_regs d) ((fun _ => true) <$> d_kick d).

Definition mmio_notify (fuel : nat) (index : Z) (d : Dev) (m : GuestMemory) : res unit (Dev * GuestMemory) :=
  if negb (queue_ready d index) then Ok (d, m)
  else
    '(c, m) ← notify fuel index (d_core d) m;
    let d := raise (set_core c d) in
    Ok (match backend (d_core d) with Net _ => wake d | _ => d end, m).

(** [for qi in 0..n as u16]. *)
Fixpoint drain_queues (fuel : nat) (qis : list Z) (d : Dev) (m : GuestMemory) : res unit (Dev * GuestMemory) :=
  match qis with
  | [] => Ok (d, m)
  | qi :: qis => '(d, m) ← mmio_notify fuel qi d m; drain_queues fuel qis d m
  end.

Definition drain_on_resume (fuel : nat) (d : Dev) (m : GuestMemory) : res unit (Dev * GuestMemory) :=
  drain_queues fuel (seqZ 0 (u16 (Z.of_nat (length (queues (d_core d)))))) d m.

Definition write_status (status : Z) (d : Dev) : Dev :=
  if status =? 0 then reset d
  else
    let features_ok := negb (Z.land status DEVICE_STATUS_FEATURES_OK =? 0) in
    let was := negb (Z.land (device_status (common (d_core d))) DEVICE_STATUS_FEATURES_OK =? 0) in
    let d := if features_ok && negb was then commit_features (acked_features (d_regs d)) d else d in
    let v := common (d_core d) in
    set_core (set_common (mkVC (device_feature_select v) (driver_feature_select v) (device_features v)
                            (driver_features v) (msix_config v) (num_queues v) status
                            (config_generation v) (queue_select v)) (d_core d)) d.

(** [with_setup], for the register at [offset]. *)
Definition with_setup (f : QueueSetup -> QueueSetup) (d : Dev) : Dev :=
  let r := d_regs d in
  match vget (setups r) (queue_sel r) with
  | Some s => set_regs (set_setups (vset (queue_sel r) (f s) (setups r)) r) d
  | None => d
  end.

(** ** Register accesses *)

(** [read] into a buffer of [n] bytes. *)
Definition mmio_read (d : Dev) (offset : Z) (n : nat) : list Z :=
  let r := d_regs d in
  let c := d_core d in
  if CONFIG_OFFSET <=? offset
  then (fun i => default 0 (vget (device_config c) (offset - CONFIG_OFFSET + i))) <$> seqZ 0 (Z.of_nat n)
  else fill_le n
    (if offset =? 0x000 then MAGIC_VALUE
     else if offset =? 0x004 then VERSION
     else if offset =? 0x008 then d_device_id d
     else if offset =? 0x00c then VENDOR_ID
     else if offset =? 0x010 then
       Z.land (Z.shiftr (d_device_features d) (sel_shift (device_features_sel r))) MASK32
     else if offset =? 0x034 then QUEUE_NUM_MAX
     else if offset =? 0x044 then (if queue_ready d (queue_sel r) then 1 else 0)
     else if offset =? 0x060 then interrupt_status r
     else if offset =? 0x070 then device_status (common c)
     else if offset =? 0x0fc then config_generation (common c)
     else 0).

Definition write_driver_features (v : Z) (r : MmioRegs) : MmioRegs :=
  let sh := sel_shift (driver_features_sel r) in
  let half := u64 (Z.shiftl (Z.land v MASK32) sh) in
  let mask := u64 (Z.shiftl MASK32 sh) in
  mkRegs (device_features_sel r) (driver_features_sel r)
    (Z.lor (Z.land (acked_features r) (not_w 64 mask)) half) (queue_sel r) (setups r) (interrupt_status r).

Definition mmio_write (fuel : nat) (offset : Z) (data : list Z) (d : Dev) (m : GuestMemory) :
    res unit (Dev * GuestMemory) :=
  let v := parse_le data in
  let r := d_regs d in
  let c := d_core d in
  if CONFIG_OFFSET <=? offset then
    Ok (set_core (set_device_config (write_config (offset - CONFIG_OFFSET) data (device_config c)) c) d, m)
  else if offset =? 0x014 then
    Ok (set_regs (mkRegs (u32 v) (driver_features_sel r) (acked_features r) (queue_sel r) (setups r)
                    (interrupt_status r)) d, m)
  else if offset =? 0x020 then Ok (set_regs (write_driver_features v r) d, m)
  else if offset =? 0x024 then
    Ok (set_regs (mkRegs (device_features_sel r) (u32 v) (acked_features r) (queue_sel r) (setups r)
                    (interrupt_status r)) d, m)
  else if offset =? 0x030 then
    let cv := common c in
    let cv := mkVC (device_feature_select cv) (driver_feature_select cv) (device_features cv)
                (driver_features cv) (msix_config cv) (num_queues cv) (device_status cv)
                (config_generation cv) (u16 v) in
    Ok (set_core (set_common cv c)
          (set_regs (mkRegs (device_features_sel r) (driver_features_sel r) (acked_features r) (u16 v)
                       (setups r) (interrupt_status r)) d), m)
  else if offset =? 0x044 then
    let ready := negb (Z.land v 1 =? 0) in
    let index := queue_sel r in
    let d := with_setup (fun s => mkSetup (su_size s) (su_desc s) (su_driver s) (su_device s) ready) d in
    Ok (if ready then publish_queue index d else d, m)
  else if offset =? 0x050 then mmio_notify fuel (u16 v) d m
  else if offset =? 0x064 then
    Ok (set_regs (set_interrupt_status (Z.land (interrupt_status r) (not_w 32 (u32 v))) r) d, m)
  else if offset =? 0x070 then Ok (write_status (u8 v) d, m)
  else Ok (with_setup (fun s => default s (setup_write offset v s)) d, m).

End Mmio.

(** ** Device configuration *)

Definition blk_config (nsectors : Z) : list Z := put 0 (le_bytes 8 nsectors) (replicate 0x40 0).
Definition net_config (mac : list Z) : list Z := put 0 mac (replicate 0x20 0).

(** ** Widths of the registers *)

Definition setup_wf (s : QueueSetup) : Prop :=
  is_u16 (su_size s) /\ is_u64 (su_desc s) /\ is_u64 (su_driver s) /\ is_u64 (su_device s).

Definition regs_wf (r : MmioRegs) : Prop :=
  is_u32 (device_features_sel r) /\ is_u32 (driver_features_sel r) /\ is_u64 (acked_features r) /\
  is_u16 (queue_sel r) /\ is_u32 (interrupt_status r) /\ Forall setup_wf (setups r).

Definition common_wf (v : VirtioConfig) : Prop :=
  is_u64 (driver_features v) /\ is_u8 (device_status v) /\ is_u8 (config_generation v) /\
  is_u16 (queue_select v).

Definition mmio_wf {B E R J} (d : VirtioMmioDevice B E R J) : Prop :=
  regs_wf (d_regs d) /\ common_wf (common (d_core d)) /\ is_u32 (d_device_id d) /\
  is_u64 (d_device_features d) /\
  Forall queue_wf (queues (d_core d)) /\ length (queues (d_core d)) = length (setups (d_regs d)) /\
  bytes (device_config (d_core d)) /\ is_u8 (isr_status (d_core d)).

Lemma parse_le_range data : bytes data -> is_u64 (parse_le data).
Proof.
  intros Hb. unfold parse_le, is_u64.
  assert (bytes (take 8 data ++ replicate (8 - length data) 0)) as Hb'.
  { apply Forall_app. split; [by apply Forall_take|]. apply Forall_replicate. unfold is_u8. lia. }
  apply le_val_range in Hb'. rewrite length_app, length_take, length_replicate in Hb'.
  by replace (Nat.min 8 (length data) + (8 - length data))%nat with 8%nat in Hb' by lia.
Qed.

Lemma fill_le_bytes n v : length (fill_le n v) = n /\ bytes (fill_le n v).
Proof.
  unfold fill_le. split.
  - rewrite length_take, length_app, length_le_bytes, length_replicate. lia.
  - apply Forall_take, Forall_app. split; [apply le_bytes_bytes|].
    apply Forall_replicate. unfold is_u8. lia.
Qed.

Lemma set_low_range old v : is_u64 old -> is_u64 v -> is_u64 (set_low old v).
Proof. intros. apply (lor_range 64); [lia|by apply (land_range 64)..]. Qed.

Lemma set_high_range old v : is_u64 old -> is_u64 (set_high old v).
Proof. intros. apply (lor_range 64); [lia|by apply (land_range 64)|by apply (wrap_range 64)]. Qed.

Lemma setup_write_wf offset v s s' :
  is_u64 v -> setup_wf s -> setup_write offset v s = Some s' -> setup_wf s'.
Proof.
  destruct s as [size desc driver device ready]. intros Hv (H1 & H2 & H3 & H4). unfold setup_write.
  repeat (destruct (_ =? _);
    [intros [= <-]; split_and!; cbn [su_size su_desc su_driver su_device];
     first [done | apply (wrap_range 16); lia | by apply set_low_range | by apply set_high_range]|]).
  done.
Qed.

Lemma queue_of_wf acked s : setup_wf s -> queue_wf (queue_of acked s).
Proof. intros (? & ? & ? & ?). split_and!; done. Qed.

Lemma write_config_wf data : forall base cfg,
  bytes data -> bytes cfg -> bytes (write_config base data cfg).
Proof.
  induction data as [|b data IH]; intros base cfg Hd Hc; cbn [write_config]; [done|].
  apply IH; [by eapply Forall_inv_tail|]. apply Forall_vset; [done|]. by apply Forall_inv in Hd.
Qed.

Section Typed.
Context {B E R J : Type}.
Context `{BlockBackend B} `{EntropySource E} `{NetResponder R} `{InterruptInjector J}.

Abbreviation Dev := (VirtioMmioDevice B E R J).

Lemma with_setup_wf f (d : Dev) :
  (forall s, setup_wf s -> setup_wf (f s)) -> mmio_wf d -> mmio_wf (with_setup f d).
Proof.
  intros Hf ((? & ? & ? & ? & ? & Hs) & Hd). unfold with_setup.
  destruct (vget _ _) as [s|] eqn:Hv; [|by split].
  split; [|by cbn; rewrite length_vset]. split_and!; try done. cbn.
  apply Forall_vset; [done|]. by eapply Hf, Forall_vget.
Qed.

Lemma publish_queue_wf index (d : Dev) : mmio_wf d -> mmio_wf (publish_queue index d).
Proof.
  intros ((? & ? & ? & ? & ? & Hs) & ? & ? & ? & Hq & ? & ? & ?). unfold publish_queue.
  destruct (vget _ _) as [s|] eqn:Hv; [|by split_and!]. split_and!; try done; cbn.
  - apply Forall_vset; [done|]. by eapply queue_of_wf, Forall_vget.
  - by rewrite length_vset.
Qed.

(** Whatever keeps the core keeps the device well formed. *)
Lemma core_kept_wf c (d : Dev) : core_kept (d_core d) c -> mmio_wf d -> mmio_wf (set_core c d).
Proof.
  intros (Ec & _ & Ed & _ & _ & Hi & Hq) (Hr & Hc & ? & ? & Hqs & Hl & Hcfg & His).
  split_and!; cbn; try done; [by rewrite Ec..| | |by rewrite Ed|auto].
  - clear Hl. induction Hq as [|q q' qs qs' Hs _ IH]; [done|].
    apply Forall_cons in Hqs as [? ?]. constructor; [by apply Hs|auto].
  - apply Forall2_length in Hq. lia.
Qed.

Lemma raise_wf (d : Dev) : mmio_wf d -> mmio_wf (raise d).
Proof.
  intros Hw. unfold raise. destruct (_ =? 0); [done|].
  destruct Hw as ((? & ? & ? & ? & ? & ?) & ? & ? & ? & ? & ? & ? & ?).
  split; [|by split_and!]. split_and!; try done; by apply (lor_range 32).
Qed.

Lemma mmio_notify_wf fuel index (d : Dev) m d' m' :
  mmio_notify fuel index d m = Ok (d', m') -> mmio_wf d -> mmio_wf d'.
Proof.
  unfold mmio_notify. destruct (negb _); [by intros [= <- <-]|].
  intros ([c m1] & Hn & Hd)%bind_Ok. injection Hd as <- <-. apply notify_kept in Hn. intros Hw.
  assert (mmio_wf (raise (set_core c d))) as Hr by (by apply raise_wf, core_kept_wf).
  destruct (backend _); done.
Qed.

Lemma commit_features_wf acked (d : Dev) : is_u64 acked -> mmio_wf d -> mmio_wf (commit_features acked d).
Proof.
  intros Ha ((? & ? & ? & ? & ? & ?) & (? & ? & ? & ?) & Hd). unfold commit_features. cbn [backend set_common].
  destruct (backend (d_core d)); (split; [done|]); (split; [done|exact Hd]).
Qed.

Lemma reset_wf (d : Dev) : mmio_wf d -> mmio_wf (reset d).
Proof.
  intros ((? & ? & ? & ? & ? & ?) & (? & ? & ? & ?) & ? & ? & ? & ? & ? & ?).
  assert (is_u8 0 /\ is_u16 0 /\ is_u32 0 /\ is_u64 0) as (? & ? & ? & ?)
    by (unfold is_u8, is_u16, is_u32, is_u64; lia).
  split; [split_and!; try done; by apply Forall_replicate|]. split_and!; try done; cbn.
  - by apply Forall_replicate.
  - by rewrite !length_replicate.
Qed.

Lemma write_status_wf status (d : Dev) : is_u8 status -> mmio_wf d -> mmio_wf (write_status status d).
Proof.
  intros Hs Hw. unfold write_status. destruct (status =? 0); [by apply reset_wf|]. cbv zeta.
  set (d1 := if _ && _ then _ else _).
  assert (mmio_wf d1) as (Hr & (? & ? & ? & ?) & Hd).
  { unfold d1. destruct (_ && _); [|done]. apply commit_features_wf; [|done]. apply Hw. }
  split; [done|]. split; [done|exact Hd].
Qed.

Lemma write_driver_features_wf v r : regs_wf r -> is_u64 v -> regs_wf (write_driver_features v r).
Proof.
  intros (? & ? & ? & ? & ? & ?) Hv. split_and!; try done.
  apply (lor_range 64); [lia|by apply (land_range 64)|by apply (wrap_range 64)].
Qed.

(** Every register write keeps every register within its width. *)
Lemma mmio_write_wf fuel offset data (d : Dev) m d' m' :
  bytes data -> mmio_write fuel offset data d m = Ok (d', m') -> mmio_wf d -> mmio_wf d'.
Proof.
  intros Hb Hw Hd. pose proof Hd as (Hr & Hc & Hrest). pose proof Hr as (? & ? & ? & ? & ? & ?).
  pose proof (parse_le_range data Hb) as Hv. unfold mmio_write in Hw. cbv zeta in Hw.
  assert (is_u32 (u32 (parse_le data)) /\ is_u16 (u16 (parse_le data)) /\ is_u8 (u8 (parse_le data)))
    as (? & ? & ?) by (split_and!; [apply (wrap_range 32)|apply (wrap_range 16)|apply (wrap_range 8)]; lia).
  destruct (CONFIG_OFFSET <=? offset).
  { injection Hw as <- <-. destruct Hrest as (? & ? & ? & ? & ? & ?). split_and!; try done. cbn.
    by apply write_config_wf. }
  repeat (destruct (_ =? _) in Hw; [first
    [ injection Hw as <- <-; split; [split_and!; done|exact (conj Hc Hrest)]
    | injection Hw as <- <-; split; [by apply write_driver_features_wf|exact (conj Hc Hrest)]
    | injection Hw as <- <-; destruct Hc as (? & ? & ? & ?); split; [split_and!; done|split; [done|exact Hrest]]
    | injection Hw as <- <-; split; [split_and!; try done; by apply (land_range 32)|exact (conj Hc Hrest)]
    | by eapply mmio_notify_wf
    | injection Hw as <- <-; by apply write_status_wf
    | injection Hw as <- <-; set (d1 := with_setup _ _);
      assert (mmio_wf d1) as Hd1 by (by apply with_setup_wf); by destruct (negb _); [apply publish_queue_wf|] ]|]).
  injection Hw as <- <-. apply with_setup_wf; [|done]. intros s Hs.
  destruct (setup_write offset (parse_le data) s) as [s'|] eqn:Es; [|done]. by eapply setup_write_wf.
Qed.

Lemma mmio_read_bytes (d : Dev) offset n :
  mmio_wf d -> length (mmio_read d offset n) = n /\ bytes (mmio_read d offset n).
Proof.
  intros (_ & _ & _ & _ & _ & _ & Hcfg & _). unfold mmio_read.
  destruct (CONFIG_OFFSET <=? offset); [|apply fill_le_bytes]. split.
  - rewrite length_fmap, length_seqZ. lia.
  - apply Forall_fmap, Forall_elem. intros i _. cbn.
    destruct (vget _ _) as [b|] eqn:Hb; [by eapply Forall_vget|]. unfold is_u8. cbn. lia.
Qed.
End Typed.

(** ** Programming a queue *)

(** The registers that name a ring. *)
Definition prog_regs : list Z := [0x038; 0x080; 0x084; 0x090; 0x094; 0x0a0; 0x0a4].

(** The value last written to a register. *)
Definition last_value (reg : Z) (ws : list (Z * Z)) : option Z :=
  foldl (fun acc w => if w.1 =? reg then Some w.2 else acc) None ws.

Definition programmed (s : QueueSetup) (ws : list (Z * Z)) : QueueSetup :=
  foldl (fun s w => default s (setup_write w.1 w.2 s)) s ws.

Lemma MASK32_ones : MASK32 = Z.ones 32.
Proof. done. Qed.

Lemma set_low_spec old v :
  is_u64 old -> is_u32 v -> set_low old v = old / 2 ^ 32 * 2 ^ 32 + v.
Proof.
  intros Ho Hv. unfold set_low. rewrite MASK32_ones, (Z.land_ones v) by lia.
  rewrite (Z.mod_small v) by (unfold is_u32 in Hv; lia). rewrite <- lor_shiftl_add by done. f_equal.
  rewrite <- Z.shiftr_div_pow2 by lia. apply Z.bits_inj'. intros i Hi. unfold not_w.
  rewrite Z.land_spec, Z.lxor_spec, Z.shiftl_spec by lia.
  destruct (Z.ltb_spec i 32).
  - rewrite !Z.ones_spec_low by lia. rewrite (Z.testbit_neg_r _ (i - 32)) by lia. apply andb_false_r.
  - rewrite Z.shiftr_spec by lia. replace (i - 32 + 32) with i by lia. rewrite (Z.ones_spec_high 32) by lia.
    destruct (Z.ltb_spec i 64).
    + by rewrite Z.ones_spec_low, andb_true_r by lia.
    + unfold is_u64 in Ho. by rewrite (testbit_high old 64) by lia.
Qed.

Lemma set_high_spec old v :
  is_u64 old -> is_u32 v -> set_high old v = v * 2 ^ 32 + old mod 2 ^ 32.
Proof.
  intros Ho Hv. unfold set_high. rewrite MASK32_ones, Z.land_ones by lia.
  rewrite Z.lor_comm. rewrite <- lor_shiftl_add by (try lia; by apply Z.mod_pos_bound). f_equal.
  unfold u64. rewrite Z.mod_small; [done|]. rewrite Z.shiftl_mul_pow2 by lia. unfold is_u32 in Hv. lia.
Qed.

Lemma last_value_snoc reg ws w :
  last_value reg (ws ++ [w]) = if w.1 =? reg then Some w.2 else last_value reg ws.
Proof. unfold last_value. by rewrite foldl_app. Qed.

Lemma last_value_u32 reg ws v :
  Forall (fun w => is_u32 w.2) ws -> last_value reg ws = Some v -> is_u32 v.
Proof.
  induction ws as [|w ws IH] using rev_ind; [done|]. intros [Hws Hw]%Forall_app.
  rewrite last_value_snoc. destruct (_ =? _); [|auto]. intros [= <-]. by apply Forall_inv in Hw.
Qed.

(** What a sequence of writes leaves in an address register. *)
Definition addr_after (old lo hi : Z) (ws : list (Z * Z)) : Z :=
  default (old / 2 ^ 32) (last_value hi ws) * 2 ^ 32 + default (old mod 2 ^ 32) (last_value lo ws).

Lemma addr_halves old lo hi ws :
  is_u64 old -> Forall (fun w => is_u32 w.2) ws ->
  0 <= default (old mod 2 ^ 32) (last_value lo ws) < 2 ^ 32 /\
  0 <= default (old / 2 ^ 32) (last_value hi ws) < 2 ^ 32.
Proof.
  intros Ho Hws. split.
  - destruct (last_value lo ws) eqn:E1; [by eapply last_value_u32|]. by apply Z.mod_pos_bound.
  - destruct (last_value hi ws) eqn:E1; [by eapply last_value_u32|].
    cbn [default]. unfold is_u64 in Ho. split; [apply Z.div_pos; lia|].
    apply Z.div_lt_upper_bound; lia.
Qed.

Lemma addr_after_low old lo hi v ws :
  is_u64 old -> is_u32 v -> Forall (fun w => is_u32 w.2) ws -> lo <> hi ->
  set_low (addr_after old lo hi ws) v = addr_after old lo hi (ws ++ [(lo, v)]).
Proof.
  intros Ho Hv Hws Hne. unfold addr_after. rewrite !last_value_snoc. cbn [fst snd].
  rewrite Z.eqb_refl, (proj2 (Z.eqb_neq _ _)) by congruence.
  destruct (addr_halves old lo hi ws Ho Hws) as [Hl Hh].
  rewrite set_low_spec by (done || unfold is_u64; lia). cbn [default].
  rewrite Z.div_add_l by lia. rewrite (Z.div_small (default (old mod 2 ^ 32) _)) by done. cbn. lia.
Qed.

Lemma addr_after_high old lo hi v ws :
  is_u64 old -> is_u32 v -> Forall (fun w => is_u32 w.2) ws -> lo <> hi ->
  set_high (addr_after old lo hi ws) v = addr_after old lo hi (ws ++ [(hi, v)]).
Proof.
  intros Ho Hv Hws Hne. unfold addr_after. rewrite !last_value_snoc. cbn [fst snd].
  rewrite Z.eqb_refl, (proj2 (Z.eqb_neq _ _)) by congruence.
  destruct (addr_halves old lo hi ws Ho Hws) as [Hl Hh].
  rewrite set_high_spec by (done || unfold is_u64; lia). cbn [default].
  rewrite (Z.add_comm (default (old / 2 ^ 32) _ * _)), Z.mod_add by lia. rewrite (Z.mod_small (default (old mod 2 ^ 32) _)) by done. cbn. lia.
Qed.

(** Any sequence of writes to the programming registers leaves the last value of
    each. *)
Lemma programmed_spec ws s :
  setup_wf s -> Forall (fun w => w.1 ∈ prog_regs /\ is_u32 w.2) ws ->
  programmed s ws =
    mkSetup (default (su_size s) (u16 <$> last_value 0x038 ws))
      (addr_after (su_desc s) 0x080 0x084 ws) (addr_after (su_driver s) 0x090 0x094 ws)
      (addr_after (su_device s) 0x0a0 0x0a4 ws) (su_ready s).
Proof.
  intros (Hsz & Hd & Ha & Hu). induction ws as [|[reg v] ws IH] using rev_ind; intros Hws.
  - destruct s as [size desc driver device ready]. unfold programmed, addr_after. cbn in *.
    f_equal; rewrite Z.mul_comm; apply Z.div_mod; lia.
  - apply Forall_app in Hws as [Hws [Hreg Hv]%Forall_inv]. cbn [fst snd] in Hreg, Hv.
    assert (Forall (fun w => is_u32 w.2) ws) as Hu32 by (eapply Forall_impl; [exact Hws|]; by intros ? [_ ?]).
    unfold programmed. rewrite foldl_app. fold (programmed s ws). rewrite IH by done. cbn [foldl fst snd].
    assert (forall old lo hi, (reg =? lo) = false -> (reg =? hi) = false ->
      addr_after old lo hi (ws ++ [(reg, v)]) = addr_after old lo hi ws) as Hother.
    { intros old lo hi E1 E2. unfold addr_after. by rewrite !last_value_snoc; cbn [fst snd]; rewrite E1, E2. }
    repeat (apply elem_of_cons in Hreg as [->|Hreg];
      [ unfold setup_write; cbn [Z.eqb Pos.eqb default su_ready];
        rewrite ?last_value_snoc; cbn [fst snd Z.eqb Pos.eqb];
        try rewrite (Hother (su_desc s) 0x080 0x084) by done;
        try rewrite (Hother (su_driver s) 0x090 0x094) by done;
        try rewrite (Hother (su_device s) 0x0a0 0x0a4) by done;
        rewrite <- ?addr_after_low, <- ?addr_after_high by done; done |]).
    by apply not_elem_of_nil in Hreg.
Qed.

Section Programming.
Context {B E R J : Type}.
Context `{BlockBackend B} `{EntropySource E} `{NetResponder R} `{InterruptInjector J}.

Abbreviation Dev := (VirtioMmioDevice B E R J).

(** A sequence of 32-bit register writes. *)
Fixpoint mmio_writes (fuel : nat) (ws : list (Z * Z)) (d : Dev) (m : GuestMemory) :
    res unit (Dev * GuestMemory) :=
  match ws with
  | [] => Ok (d, m)
  | (reg, v) :: ws => '(d, m) ← mmio_write fuel reg (le_bytes 4 v) d m; mmio_writes fuel ws d m
  end.

Lemma mmio_writes_app fuel ws1 ws2 (d : Dev) m :
  mmio_writes fuel (ws1 ++ ws2) d m =
  '(d, m) ← mmio_writes fuel ws1 d m; mmio_writes fuel ws2 d m.
Proof.
  revert d m. induction ws1 as [|[reg v] ws1 IH]; intros d m; [done|]. cbn [mmio_writes app].
  destruct (mmio_write fuel reg (le_bytes 4 v) d m) as [[d1 m1]| | |]; try done. cbn. apply IH.
Qed.

Lemma parse_le4 v : is_u32 v -> parse_le (le_bytes 4 v) = v.
Proof.
  intros Hv. unfold parse_le. rewrite length_le_bytes, take_ge by (rewrite length_le_bytes; lia).
  change (replicate (8 - 4) 0) with (le_bytes 4 0). rewrite le_val_app, length_le_bytes.
  rewrite !le_val_bytes. change (8 * Z.of_nat 4) with 32. unfold is_u32 in Hv.
  rewrite (Z.mod_small v), (Z.mod_small 0) by lia. lia.
Qed.

Lemma mmio_write_prog fuel reg v (d : Dev) m :
  reg ∈ prog_regs -> is_u32 v ->
  mmio_write fuel reg (le_bytes 4 v) d m =
    Ok (with_setup (fun s => default s (setup_write reg v s)) d, m).
Proof.
  intros Hreg Hv. unfold mmio_write. rewrite parse_le4 by done.
  repeat (apply elem_of_cons in Hreg as [->|Hreg]; [done|]). by apply not_elem_of_nil in Hreg.
Qed.

(** The device with the selected queue's setup replaced. *)
Definition with_selected (s : QueueSetup) (d : Dev) : Dev :=
  set_regs (set_setups (vset (queue_sel (d_regs d)) s (setups (d_regs d))) (d_regs d)) d.

Lemma mmio_writes_prog fuel m ws : forall (d : Dev) s,
  vget (setups (d_regs d)) (queue_sel (d_regs d)) = Some s ->
  Forall (fun w => w.1 ∈ prog_regs /\ is_u32 w.2) ws ->
  mmio_writes fuel ws d m = Ok (with_selected (programmed s ws) d, m).
Proof.
  induction ws as [|[reg v] ws IH]; intros d s Hs Hws; cbn [mmio_writes].
  - unfold with_selected. rewrite vset_same by done. by destruct d as [? ? ? ? [] ?].
  - apply Forall_cons in Hws as [[Hreg Hv] Hws]. rewrite mmio_write_prog by done. cbn [mbind res_bind_inst].
    unfold with_setup. rewrite Hs. set (s1 := default s _).
    rewrite (IH _ s1); [|cbn; apply vget_vset_eq; by apply vget_Some in Hs as [? _]|done].
    unfold with_selected. cbn. by rewrite vset_vset.
Qed.

(** Publishing the selected queue. *)
Lemma mmio_write_ready fuel (d : Dev) m s :
  vget (setups (d_regs d)) (queue_sel (d_regs d)) = Some s ->
  let r := d_regs d in
  let s1 := mkSetup (su_size s) (su_desc s) (su_driver s) (su_device s) true in
  mmio_write fuel 0x044 (le_bytes 4 1) d m =
    Ok (set_core (set_queue (queue_sel r) (queue_of (acked_features r) s1) (d_core d))
          (with_selected s1 d), m).
Proof.
  intros Hs r s1. unfold mmio_write. rewrite parse_le4 by done. cbn -[publish_queue with_setup].
  unfold with_setup. rewrite Hs. unfold publish_queue. cbn. fold r.
  rewrite vget_vset_eq by (by apply vget_Some in Hs as [? _]). done.
Qed.
End Programming.

(** ** Snapshots

    The device and guest memory under a driver that programs a ring only while it
    is not ready, and acknowledges features only while no ring is. *)

Section Snapshot.
Context {B E R J : Type}.
Context `{BlockBackend B} `{EntropySource E} `{NetResponder R} `{InterruptInjector J}.

Abbreviation Dev := (VirtioMmioDevice B E R J).

Definition polite (offset : Z) (d : Dev) : Prop :=
  (offset = 0x020 -> Forall (fun s => su_ready s = false) (setups (d_regs d))) /\
  (offset ∈ prog_regs -> queue_ready d (queue_sel (d_regs d)) = false).

Inductive mmio_step : Dev * GuestMemory -> Dev * GuestMemory -> Prop :=
| step_write fuel offset data d m d' m' :
    polite offset d -> mmio_write fuel offset data d m = Ok (d', m') -> mmio_step (d, m) (d', m')
| step_service fuel d m delivered d' m' :
    mmio_service_net fuel d m = Ok (delivered, d', m') -> mmio_step (d, m) (d', m')
| step_resume fuel d m d' m' :
    drain_on_resume fuel d m = Ok (d', m') -> mmio_step (d, m) (d', m')
| step_injector j d m : mmio_step (d, m) (mmio_set_injector j d, m)
| step_kick d m : mmio_step (d, m) (set_net_kick d, m)
| step_guest d m m' : mmio_step (d, m) (d, m').

(** The queues in the core are what the setups say, up to the cursors. *)
Definition derived (d : Dev) : Prop :=
  forall i s q, vget (setups (d_regs d)) i = Some s -> su_ready s = true ->
    vget (queues (d_core d)) i = Some q ->
    q = with_cursors (queue_of (acked_features (d_regs d)) s) (next_avail q) (next_used q).

Lemma same_ring_cursors q0 q q' :
  q = with_cursors q0 (next_avail q) (next_used q) -> same_ring q q' ->
  q' = with_cursors q0 (next_avail q') (next_used q').
Proof.
  intros -> (? & ? & ? & ? & ? & ? & _). destruct q0, q'. unfold with_cursors in *. cbn in *. congruence.
Qed.

Lemma core_kept_derived c (d : Dev) : core_kept (d_core d) c -> derived d -> derived (set_core c d).
Proof.
  intros (_ & _ & _ & _ & _ & _ & Hq) Hd i s q Hs Hr Hv. cbn in *.
  pose proof (vget_Some _ _ _ Hv) as [Hi Hx]. apply (Forall2_lookup_r _ _ _ _ _ Hq) in Hx as (q0 & Hx & Hsr).
  apply vget_of_lookup in Hx. rewrite Z2Nat.id in Hx by lia.
  eapply same_ring_cursors; [by apply (Hd i s q0)|done].
Qed.

Lemma raise_derived (d : Dev) : derived d -> derived (raise d).
Proof. intros Hd. unfold raise. by destruct (_ =? 0). Qed.

Lemma mmio_notify_derived fuel index (d : Dev) m d' m' :
  mmio_notify fuel index d m = Ok (d', m') -> derived d -> derived d'.
Proof.
  unfold mmio_notify. destruct (negb _); [by intros [= <- <-]|].
  intros ([c m1] & Hn & Hd)%bind_Ok. injection Hd as <- <-. apply notify_kept in Hn. intros Hw.
  assert (derived (raise (set_core c d))) as Hr by (by apply raise_derived, core_kept_derived).
  by destruct (backend _).
Qed.

(** Changing the setup of a ring that is not ready, and leaving it so. *)
Lemma with_setup_derived f (d : Dev) :
  queue_ready d (queue_sel (d_regs d)) = false -> (forall s, su_ready (f s) = su_ready s) ->
  derived d -> derived (with_setup f d).
Proof.
  unfold queue_ready, with_setup. intros Hr Hf Hd.
  destruct (vget _ (queue_sel _)) as [s0|] eqn:Hs0; [|done].
  intros i s q Hs Hsr Hv. cbn in *. destruct (decide (i = queue_sel (d_regs d))) as [->|Hne].
  - rewrite vget_vset_eq in Hs by (by apply vget_Some in Hs0 as [? _]). injection Hs as <-.
    rewrite Hf in Hsr. congruence.
  - rewrite vget_vset_ne in Hs by done. by apply (Hd i).
Qed.

Lemma setup_write_ready offset v s : su_ready (default s (setup_write offset v s)) = su_ready s.
Proof. destruct s. unfold setup_write. repeat (destruct (_ =? _); [done|]). done. Qed.

Lemma setup_write_other offset v s : offset ∉ prog_regs -> setup_write offset v s = None.
Proof.
  intros Hn. destruct s. unfold setup_write.
  assert (forall r, bool_decide (r ∈ prog_regs) = true -> (offset =? r) = false) as Hr.
  { intros r Hr%bool_decide_eq_true. apply Z.eqb_neq. by intros ->. }
  by rewrite !Hr by done.
Qed.

Lemma with_setup_id (d : Dev) : with_setup (fun s => s) d = d.
Proof.
  unfold with_setup. destruct (vget _ _) as [s|] eqn:Hs; [|done]. rewrite vset_same by done.
  by destruct d as [? ? ? ? [] ?].
Qed.

Lemma ready_derived (ready : bool) (d : Dev) :
  derived d ->
  let d1 := with_setup (fun s => mkSetup (su_size s) (su_desc s) (su_driver s) (su_device s) ready) d in
  derived (if ready then publish_queue (queue_sel (d_regs d)) d1 else d1).
Proof.
  intros Hd d1. unfold d1, with_setup. set (sel := queue_sel (d_regs d)).
  destruct (vget (setups (d_regs d)) sel) as [s0|] eqn:Hs0.
  2:{ destruct ready; [|done]. unfold publish_queue. by rewrite Hs0. }
  pose proof (vget_Some _ _ _ Hs0) as [Hsel _]. destruct ready.
  - unfold publish_queue. cbn. rewrite vget_vset_eq by done.
    intros i s q Hs Hsr Hv. cbn in *. destruct (decide (i = sel)) as [->|Hne].
    + rewrite vget_vset_eq in Hs by done. injection Hs as <-.
      pose proof (vget_Some _ _ _ Hv) as [Hq _]. rewrite length_vset in Hq.
      rewrite vget_vset_eq in Hv by done. by injection Hv as <-.
    + rewrite vget_vset_ne in Hs by done. rewrite vget_vset_ne in Hv by done. by apply (Hd i).
  - intros i s q Hs Hsr Hv. cbn in *. destruct (decide (i = sel)) as [->|Hne].
    + rewrite vget_vset_eq in Hs by done. by injection Hs as <-.
    + rewrite vget_vset_ne in Hs by done. by apply (Hd i).
Qed.

Lemma unready_derived (d : Dev) :
  Forall (fun s => su_ready s = false) (setups (d_regs d)) -> derived d.
Proof. intros Hf i s q Hs Hr _. apply (Forall_vget _ _ _ _ Hf) in Hs. congruence. Qed.

Lemma mmio_write_derived fuel offset data (d : Dev) m d' m' :
  polite offset d -> mmio_write fuel offset data d m = Ok (d', m') -> derived d -> derived d'.
Proof.
  intros [Hp20 Hpp] Hw Hd. unfold mmio_write in Hw. cbv zeta in Hw.
  destruct (CONFIG_OFFSET <=? offset); [by injection Hw as <- <-|].
  destruct (offset =? 0x014); [by injection Hw as <- <-|].
  destruct (Z.eqb_spec offset 0x020) as [->|_].
  { injection Hw as <- <-. apply unready_derived. by apply Hp20. }
  destruct (offset =? 0x024); [by injection Hw as <- <-|].
  destruct (offset =? 0x030); [by injection Hw as <- <-|].
  destruct (offset =? 0x044); [injection Hw as <- <-; by apply ready_derived|].
  destruct (offset =? 0x050); [by eapply mmio_notify_derived|].
  destruct (offset =? 0x064); [by injection Hw as <- <-|].
  destruct (offset =? 0x070).
  - injection Hw as <- <-. unfold write_status. destruct (_ =? 0).
    { apply unready_derived. cbn. by apply Forall_replicate. }
    cbv zeta. destruct (_ && _); [|done]. unfold commit_features. by destruct (backend _).
  - injection Hw as <- <-. destruct (decide (offset ∈ prog_regs)) as [Hin|Hout].
    + apply with_setup_derived; [by apply Hpp|intros; apply setup_write_ready|done].
    + rewrite <- (with_setup_id d) in Hd. unfold with_setup in *.
      destruct (vget _ _); [|done]. by rewrite setup_write_other.
Qed.

Lemma drain_queues_derived fuel qis : forall (d : Dev) m d' m',
  drain_queues fuel qis d m = Ok (d', m') -> derived d -> derived d'.
Proof.
  induction qis as [|qi qis IH]; intros d m d' m'; cbn [drain_queues]; [by intros [= <- <-]|].
  intros ([d1 m1] & Hn & Hq)%bind_Ok Hd. eapply IH; [exact Hq|]. by eapply mmio_notify_derived.
Qed.

Lemma mmio_step_derived s s' : mmio_step s s' -> derived s.1 -> derived s'.1.
Proof.
  destruct 1 as [fuel offset data d m d' m' Hp Hw|fuel d m delivered d' m' Hs|fuel d m d' m' Hr|j d m|d m|d m m'];
    cbn [fst]; try done.
  - by eapply mmio_write_derived.
  - unfold mmio_service_net in Hs. destruct (negb _); [by injection Hs as _ <- _|].
    apply bind_Ok in Hs as ([[dl c] m1] & Hc & Hs). injection Hs as _ <- _. intros Hd.
    apply core_service_net_kept in Hc. pose proof (core_kept_derived _ _ Hc Hd) as Hd1.
    destruct dl; [by apply raise_derived|done].
  - by eapply drain_queues_derived.
Qed.

Lemma mmio_new_derived name b params (j : J) : derived (mmio_new name b params j).
Proof. apply unready_derived. cbn. by apply Forall_replicate. Qed.

Lemma mmio_run_derived s s' : rtc mmio_step s s' -> derived s.1 -> derived s'.1.
Proof. induction 1 as [|s s1 s' Hs _ IH]; [done|]. intros Hd. by eapply IH, mmio_step_derived. Qed.

(** A restored device records the state it was restored from. *)
Lemma state_restored (b : Backend B E R) m st (j : J) : state (restored b m st j) = st.
Proof.
  destruct st. unfold state, restored. cbn. f_equal. rewrite <- list_fmap_compose.
  rewrite <- (list_fmap_id ts_queues0) at 2. apply list_fmap_ext. intros _ qs _. by destruct qs.
Qed.

Lemma restored_queue_live (d : Dev) m i q (b : Backend B E R) (j : J) :
  derived d -> queue_ready d i = true -> vget (queues (d_core d)) i = Some q ->
  read_u16 m (u64 (q_used q + 2)) = Ok (next_used q) -> next_avail q = next_used q ->
  vget (queues (d_core (restored b m (state d) j))) i = Some q.
Proof.
  unfold queue_ready. intros Hd Hr Hv Hu Hna. destruct (vget (setups _) i) as [s|] eqn:Hs; [|done].
  pose proof (vget_Some _ _ _ Hs) as [Hi Hl]. pose proof (Hd i s q Hs Hr Hv) as Hq. cbn.
  apply vget_of_lookup'. split; [lia|]. rewrite !list_lookup_fmap, Hl. cbn. f_equal.
  destruct q as [sz de av us ev ind na nu]. unfold with_cursors, queue_of in Hq. cbn in *.
  injection Hq as -> -> -> -> -> ->. subst na. unfold restored_queue, queue_of. cbn. rewrite Hr.
  unfold restore. cbn. by rewrite Hu.
Qed.
End Snapshot.

(** ** Properties of the transport *)

Section Properties.
Context {B E R J : Type}.
Context `{ByteBackend B} `{ByteSource E} `{NetResponder R} `{InterruptInjector J}.

Abbreviation Dev := (VirtioMmioDevice B E R J).

(** Every register of the device stays within its width, whatever the guest
    writes where and however long the access is: a device whose registers, queue
    setups, published queues and configuration bytes are in range stays so through
    any register write, a notification included, and a read of any register gives
    exactly the bytes asked for. *)
Theorem mmio_access_typed fuel offset data (d : Dev) m d' m' off' n :
  bytes data -> mmio_wf d -> mmio_write fuel offset data d m = Ok (d', m') ->
  mmio_wf d' /\ length (mmio_read d' off' n) = n /\ bytes (mmio_read d' off' n).
Proof.
  intros Hb Hd Hw. assert (mmio_wf d') as Hd' by (by eapply mmio_write_wf).
  split; [done|by apply mmio_read_bytes].
Qed.

(** A driver may program a ring in any order. Whatever sequence of writes to
    the seven programming registers names its size and addresses, with repetitions
    and corrections, the published queues do not change until [QueueReady] is set;
    then the selected queue, and only it, has the last size and the last halves of
    each address, the ring features the driver acknowledged, and fresh cursors. *)
Theorem queue_published_any_order fuel (d : Dev) m ws s sz dl dh al ah ul uh :
  mmio_wf d -> vget (setups (d_regs d)) (queue_sel (d_regs d)) = Some s ->
  Forall (fun w => w.1 ∈ prog_regs /\ is_u32 w.2) ws ->
  last_value 0x038 ws = Some sz -> last_value 0x080 ws = Some dl -> last_value 0x084 ws = Some dh ->
  last_value 0x090 ws = Some al -> last_value 0x094 ws = Some ah ->
  last_value 0x0a0 ws = Some ul -> last_value 0x0a4 ws = Some uh ->
  exists d1 d2, mmio_writes fuel ws d m = Ok (d1, m) /\ queues (d_core d1) = queues (d_core d) /\
    mmio_write fuel 0x044 (le_bytes 4 1) d1 m = Ok (d2, m) /\
    queue_ready d2 (queue_sel (d_regs d)) = true /\
    vget (queues (d_core d2)) (queue_sel (d_regs d)) =
      Some (mkQueue (u16 sz) (dh * 2 ^ 32 + dl) (ah * 2 ^ 32 + al) (uh * 2 ^ 32 + ul)
              (negb (Z.land (acked_features (d_regs d)) RING_EVENT_IDX =? 0))
              (negb (Z.land (acked_features (d_regs d)) RING_INDIRECT_DESC =? 0)) 0 0) /\
    forall i, i <> queue_sel (d_regs d) -> vget (queues (d_core d2)) i = vget (queues (d_core d)) i.
Proof.
  intros Hwf Hs Hws Hsz Hdl Hdh Hal Hah Hul Huh.
  pose proof (vget_Some _ _ _ Hs) as [Hsel _].
  assert (setup_wf s) as Hswf by (eapply Forall_vget; [apply Hwf|exact Hs]).
  eexists _, _. split; [by apply mmio_writes_prog|]. split; [done|].
  set (p := programmed s ws).
  split; [apply (mmio_write_ready fuel _ m p); cbn; by apply vget_vset_eq|].
  unfold p. rewrite programmed_spec by done. unfold addr_after.
  rewrite Hsz, Hdl, Hdh, Hal, Hah, Hul, Huh. split_and!.
  - unfold queue_ready. cbn. by rewrite vget_vset_eq by (by rewrite length_vset).
  - cbn. rewrite vget_vset_eq; [done|]. destruct Hwf as (_ & _ & _ & _ & _ & -> & _). done.
  - intros i Hi. cbn. by apply vget_vset_ne.
Qed.


(** C25: one write to [QueueNotify] completes everything the driver posted on a
    block or entropy queue and tells the driver so: the posted chains are served,
    the used-ring bit of [InterruptStatus] is set and stays set until acknowledged,
    the wired interrupt is pulsed exactly once, and the core has no interrupt left
    to report. *)
Theorem queue_notify_completes (d : Dev) P q p m qi cs fuel :
  queue_wf q -> 0 < q_size q -> (q_size q | 65536) -> driver_half P q -> mem_wf m ->
  with_ptr m (q_used q) (6 + 8 * q_size q) = Ok p ->
  is_u16 qi -> queue_ready d qi = true -> vget (queues (d_core d)) qi = Some q ->
  backend_ok (backend (d_core d)) -> transport_signals (d_core d) = true ->
  cs <> [] -> Z.of_nat (length cs) <= q_size q ->
  read_u16 m (q_avail q + 2) = Ok (u16 (next_avail q + Z.of_nat (length cs))) ->
  (forall k x, cs !! k = Some x ->
     posted P q m (u16 (next_avail q + Z.of_nat k)) x /\ servable P q x) ->
  walk_fuel + Z.of_nat (length cs) < Z.of_nat fuel ->
  exists d' c' m', mmio_write fuel 0x050 (le_bytes 4 qi) d m = Ok (d', m') /\
    served backend_ok P q m (d_core d) qi cs c' m' /\ queues (d_core d') = queues c' /\
    Z.testbit (interrupt_status (d_regs d')) 0 = true /\
    injector (d_core d') = signal (injector (d_core d)) 0 /\ isr_status (d_core d') = 0.
Proof.
  intros Hq Hs Hd Hdh Hm Hup Hqi Hr Hv Hb Ht Hne Hl Hi Hp Hf.
  destruct (notify_loop_serves backend_ok P q p m Hq Hs Hdh Hm Hup Hd (d_core d) qi cs fuel)
    as (c' & m' & Hn & Hsv); try done; [unfold queue_wf, is_u16 in Hq; lia|].
  assert (notify fuel qi (d_core d) m = Ok (c', m')) as Hn'.
  { unfold notify. by destruct (backend (d_core d)). }
  pose proof Hsv as (_ & _ & _ & Hb' & _ & _ & _ & _ & Hisr & Hinj).
  rewrite bool_decide_false in Hisr, Hinj by done. rewrite Ht, andb_false_r in Hinj.
  unfold mmio_write. rewrite parse_le4 by (unfold is_u16, is_u32 in *; lia). cbn -[mmio_notify].
  replace (u16 qi) with qi by (unfold is_u16 in *; word_lia).
  unfold mmio_notify. rewrite Hr. cbn [negb]. rewrite Hn'. cbn [mbind res_bind_inst].
  assert (Z.testbit (isr_status c') 0 = true) as Hbit by (rewrite Hisr, Z.lor_spec; apply orb_true_r).
  set (d1 := raise (set_core c' d)).
  assert (d1 = set_regs (set_interrupt_status (Z.lor (interrupt_status (d_regs d)) INT_USED_RING) (d_regs d))
                 (set_core (set_injector (signal (injector c') 0) (set_isr 0 c')) d)) as E1.
  { unfold d1, raise. cbn [d_core set_core]. destruct (Z.eqb_spec (isr_status c') 0) as [E0|]; [|done].
    rewrite E0 in Hbit. by rewrite Z.bits_0 in Hbit. }
  exists d1, c', m'. rewrite E1.
  cbn [d_core d_regs set_regs set_core interrupt_status set_interrupt_status injector set_injector set_isr
    isr_status queues backend].
  split; [by destruct (backend c')|]. split; [done|]. split; [done|].
  split; [rewrite <- Z.bit0_odd, Z.lor_spec; apply orb_true_r|]. by rewrite Hinj.
Qed.

(** The guest can stop the monitor with a queue of size zero. The transport
    publishes whatever size was written, and the first notification of a published
    queue of size zero whose available index has moved divides by it. *)
Theorem zero_size_queue_panics fuel (d : Dev) m i q idx :
  is_u16 i -> queue_ready d i = true -> vget (queues (d_core d)) i = Some q -> q_size q = 0 ->
  (forall n, backend (d_core d) <> Net n) ->
  avail_idx q m = Ok idx -> idx <> next_avail q ->
  mmio_write (S fuel) 0x050 (le_bytes 4 i) d m = Panic.
Proof.
  intros Hi Hr Hv Hs Hb Ha Hne. unfold mmio_write.
  rewrite parse_le4 by (unfold is_u16, is_u32 in *; lia). cbn -[mmio_notify].
  replace (u16 i) with i by (unfold is_u16 in *; word_lia). unfold mmio_notify. rewrite Hr. cbn [negb].
  assert (notify (S fuel) i (d_core d) m = Panic) as ->; [|done].
  assert (notify_loop (S fuel) i (d_core d) m = Panic) as Hl.
  { cbn [notify_loop drain]. by rewrite Hv, (pop_empty_queue_panics _ _ _ _ Hs Ha Hne). }
  unfold notify. destruct (backend (d_core d)) as [x|x|x] eqn:Eb; [done..|]. by destruct (Hb x).
Qed.
End Properties.

(** *** A block device programmed from cold *)

#[local] Existing Instances zero_source zero_source_bytes.

Definition demo_mmio : VirtioMmioDevice FileBackend unit EchoResponder LoggingInjector :=
  mmio_new "blk0" (Block demo_disk) (mkParams 2 RING_EVENT_IDX 1 (blk_config 8)) (mkLog 0).

(** The addresses, out of order and with a size corrected, then the ring is live. *)
Definition demo_writes : list (Z * Z) :=
  [(0x0a4, 0); (0x090, 4352); (0x038, 8); (0x080, 4096); (0x094, 0); (0x0a0, 4608); (0x084, 0); (0x038, 4)].

Lemma demo_mmio_wf : mmio_wf demo_mmio.
Proof.
  split; [split_and!; try done; apply (Forall_replicate setup_wf); by split_and!|].
  split; [by split_and!|]. split_and!; try done; [|by apply bytesb_bytes].
  apply (Forall_replicate queue_wf). by split_and!.
Qed.

Lemma demo_writes_ok : Forall (fun w => w.1 ∈ prog_regs /\ is_u32 w.2) demo_writes.
Proof.
  repeat (apply Forall_cons_2; [split; [by apply (bool_decide_unpack _)|done]|]). constructor.
Qed.

Lemma mmio_access_typed_witness :
  exists d', mmio_write 0 0x038 [4; 0; 0; 0] demo_mmio demo_qmem = Ok (d', demo_qmem) /\ mmio_wf d'.
Proof.
  eexists. split; [reflexivity|].
  by eapply (mmio_access_typed 0 0x038 [4; 0; 0; 0] demo_mmio demo_qmem _ demo_qmem 0 4);
    [by apply bytesb_bytes|exact demo_mmio_wf|reflexivity].
Defined.

Lemma queue_published_any_order_witness : exists d1 d2,
  mmio_writes 0 demo_writes demo_mmio demo_qmem = Ok (d1, demo_qmem) /\
  mmio_write 0 0x044 (le_bytes 4 1) d1 demo_qmem = Ok (d2, demo_qmem) /\
  vget (queues (d_core d2)) 0 = Some (mkQueue 4 4096 4352 4608 false false 0 0).
Proof.
  destruct (queue_published_any_order 0 demo_mmio demo_qmem demo_writes setup_default 4 4096 0 4352 0 4608 0)
    as (d1 & d2 & Hw & _ & Hr & _ & Hq & _);
    [exact demo_mmio_wf|reflexivity|exact demo_writes_ok|reflexivity..|].
  exists d1, d2. split; [exact Hw|]. split; [exact Hr|exact Hq].
Defined.

Definition demo_backend : Backend FileBackend unit EchoResponder := Block demo_disk.

Ltac demo_step reg v :=
  eapply rtc_l; [eapply (step_write 0 reg (le_bytes 4 v)); [split; [done|by intros _]|reflexivity]|].

Definition demo_programmed : VirtioMmioDevice FileBackend unit EchoResponder LoggingInjector :=
  match mmio_writes 0 [(0x080, 4096); (0x090, 4352); (0x0a0, 4608); (0x038, 4); (0x044, 1)]
          demo_mmio demo_qmem with
  | Ok (d, _) => d
  | _ => demo_mmio
  end.


(** The device of [demo_core] behind the transport, its ring ready. *)
Definition demo_live : VirtioMmioDevice FileBackend unit EchoResponder LoggingInjector :=
  mkMmio "blk0" 2 RING_EVENT_IDX
    (mkCore (mkVC 0 0 0 0 0 1 0 0 0) [demo_q] [0] (Block demo_disk) [] 0 (mkLog 0) true)
    (mkRegs 0 0 0x30000000 0 [mkSetup 4 4096 4352 4608 true] 0) None.

Lemma queue_notify_completes_witness : exists d' m',
  mmio_write (Z.to_nat (walk_fuel + 2)) 0x050 (le_bytes 4 0) demo_live demo_qmem = Ok (d', m') /\
  Z.testbit (interrupt_status (d_regs d')) 0 = true /\ injector (d_core d') = mkLog 1.
Proof.
  destruct (queue_notify_completes demo_live demo_half demo_q 512 demo_qmem 0 [demo_posted]
    (Z.to_nat (walk_fuel + 2))) as (d' & c' & m' & Hw & _ & _ & Hi & Hj & _).
  - exact demo_q_wf.
  - reflexivity.
  - by exists 16384.
  - exact demo_driver_half.
  - exact demo_qmem_wf.
  - vm_compute; reflexivity.
  - done.
  - reflexivity.
  - reflexivity.
  - split; [apply map_Forall_empty|by apply bytesb_bytes].
  - reflexivity.
  - discriminate.
  - cbn; lia.
  - vm_compute; reflexivity.
  - intros [|k] x Hk; [|done]. injection Hk as <-. split; [exact demo_chain_posted|exact demo_chain_servable].
  - rewrite Z2Nat.id; [cbn; lia|discriminate].
  - exists d', m'. split; [exact Hw|]. split; [exact Hi|exact Hj].
Defined.

(** Three writes from reset are enough: an available ring, ready, a kick. *)
Lemma zero_size_queue_panics_witness :
  mmio_writes 1 [(0x090, 4352); (0x044, 1); (0x050, 0)] demo_mmio demo_qmem = Panic.
Proof.
  rewrite (mmio_writes_app 1 [(0x090, 4352); (0x044, 1)] [(0x050, 0)]).
  destruct (mmio_writes 1 [(0x090, 4352); (0x044, 1)] demo_mmio demo_qmem) as [[d m]| | |] eqn:Hw;
    try discriminate Hw.
  injection Hw as <- <-. cbn [mbind res_bind_inst mmio_writes].
  match goal with |- ?x ≫= _ = Panic => assert (x = Panic) as -> end; [|reflexivity].
  eapply (zero_size_queue_panics 0 _ demo_qmem 0 (mkQueue 0 0 4352 0 false false 0 0) 1);
    [done|reflexivity|reflexivity|reflexivity|discriminate|vm_compute; reflexivity|discriminate].
Defined.

(** ** Where the code and its documentation part *)

(** A ring the driver rewrites after [QueueReady] restores as another queue: the
    setups and the running queues are two states, not one. *)
Lemma rewritten_setup_diverges : exists d : VirtioMmioDevice FileBackend unit EchoResponder LoggingInjector,
  mmio_write 0 0x080 (le_bytes 4 8192) demo_live demo_qmem = Ok (d, demo_qmem) /\
  queue_ready d 0 = true /\ vget (queues (d_core d)) 0 = Some demo_q /\
  vget (queues (d_core (restored demo_backend demo_qmem (state d) (mkLog 0)))) 0 =
    Some (mkQueue 4 8192 4352 4608 true true 0 0).
Proof. eexists. split; [reflexivity|]. split_and!; vm_compute; reflexivity. Qed.

(** A feature selector past the second half reads and writes a half again: with
    2 selected the low half of the offer is returned and an acknowledgement
    replaces the low half, where nothing should be. *)
Lemma feature_select_aliases : exists d d2 : VirtioMmioDevice FileBackend unit EchoResponder LoggingInjector,
  mmio_writes 0 [(0x014, 2); (0x024, 2)] demo_live demo_qmem = Ok (d, demo_qmem) /\
  mmio_read d 0x010 4 = le_bytes 4 RING_EVENT_IDX /\
  mmio_write 0 0x020 (le_bytes 4 0) d demo_qmem = Ok (d2, demo_qmem) /\
  acked_features (d_regs d) = 0x30000000 /\ acked_features (d_regs d2) = 0.
Proof. eexists _, _. split; [reflexivity|]. split_and!; vm_compute; reflexivity. Qed.

(** [FEATURES_OK] is accepted for features that were never offered. *)
Lemma unoffered_features_accepted : exists d : VirtioMmioDevice FileBackend unit EchoResponder LoggingInjector,
  mmio_writes 0 [(0x020, 0x10000000); (0x070, 8)] demo_mmio demo_qmem = Ok (d, demo_qmem) /\
  mmio_read d 0x070 1 = [8] /\ driver_features (common (d_core d)) = RING_INDIRECT_DESC /\
  Z.land (d_device_features d) RING_INDIRECT_DESC = 0.
Proof. eexists. split; [reflexivity|]. split_and!; vm_compute; reflexivity. Qed.
