(* ===== verification/MmioLocks.v ===== *)
(** * The locks of the virtio-mmio transport

    A [VirtioMmioDevice] of [virtio/mmio.rs] has a mutex on its registers, one on
    the device core and one on the wake handle, and the handle has its own. vCPUs
    and the net service thread enter the device concurrently. Each entry point is
    the sequence of its acquisitions and releases; [lock_step] interleaves the
    threads. Accesses that nest the mutexes core before registers never deadlock;
    a read of [Status] nests them the other way round, and does. *)

From Stdlib Require Import ZArith Lia Bool.
From stdpp Require Import base numbers list option relations.
From S2P Require Import Prelude VirtioMmio.

(** ** Mutexes and threads *)

Inductive lock := CoreLock | RegsLock | KickLock | PendingLock.

#[export] Instance lock_eq_dec : EqDecision lock.
Proof. solve_decision. Defined.

Inductive act := Acq (l : lock) | Rel (l : lock).

#[export] Instance act_eq_dec : EqDecision act.
Proof. solve_decision. Defined.

Record thread := mkThread { holds : list lock; todo : list act }.

Definition free (l : lock) (ts : list thread) : Prop := forall t, t ∈ ts -> l ∉ holds t.

(** One thread takes its next action; an acquisition waits for the mutex. *)
Inductive lock_step : list thread -> list thread -> Prop :=
| step_acq ts i hs l acts :
    ts !! i = Some (mkThread hs (Acq l :: acts)) -> free l ts ->
    lock_step ts (<[i := mkThread (l :: hs) acts]> ts)
| step_rel ts i hs l acts :
    ts !! i = Some (mkThread hs (Rel l :: acts)) ->
    lock_step ts (<[i := mkThread (filter (fun x => x <> l) hs) acts]> ts).

Definition finished (ts : list thread) : Prop := forall t, t ∈ ts -> todo t = [].

Definition deadlocked (ts : list thread) : Prop := ~ finished ts /\ forall ts', ~ lock_step ts ts'.

Definition start (progs : list (list act)) : list thread := mkThread [] <$> progs.

(** ** The entry points *)

(** A critical section. *)
Definition under (l : lock) (inner : list act) : list act := Acq l :: inner ++ [Rel l].

(** [read]: the configuration space is in the core; [Status] and
    [ConfigGeneration] are read from the core with the registers held. *)
Definition read_locks (offset : Z) : list act :=
  if CONFIG_OFFSET <=? offset then under CoreLock []
  else under RegsLock (if (offset =? 0x070) || (offset =? 0x0fc) then under CoreLock [] else []).

(** [raise], entered with the core held: the registers only if there is an
    interrupt to latch. *)
Definition raise_locks (pending : bool) : list act := if pending then under RegsLock [] else [].

(** [notify], and the wake of the attached handle for a network device. *)
Definition notify_locks (ready pending net attached : bool) : list act :=
  under RegsLock [] ++
  if ready then
    under CoreLock (raise_locks pending) ++
    if net then under KickLock (if attached then under PendingLock [] else []) else []
  else [].

(** [service_net], which latches what it delivered before it lets the core go. *)
Definition service_locks (delivered : bool) : list act := under CoreLock (raise_locks delivered).

(** [publish_queue], which lets the registers go before it takes the core. *)
Definition publish_locks (exists_ : bool) : list act :=
  under RegsLock [] ++ if exists_ then under CoreLock [] else [].

Definition commit_locks : list act := under CoreLock [].

Definition reset_locks : list act := under RegsLock [] ++ under CoreLock [].

(** [write_status], with what the status asks for. *)
Definition status_locks (is_reset commits : bool) : list act :=
  if is_reset then reset_locks
  else under CoreLock [] ++ (if commits then under RegsLock [] ++ commit_locks else []) ++ under CoreLock [].

(** [state], for a snapshot. *)
Definition state_locks : list act := under RegsLock [] ++ under CoreLock [].

(** An entry into the device, with the outcomes its locking depends on.
    [ECoreOnly] is a configuration write, [driver_ok], [set_injector],
    [drain_egress_events], [set_net_intercept] or [amend_net_egress]. *)
Inductive entry :=
| ERead (offset : Z)
| ECoreOnly
| ERegWrite
| EQueueSel
| EQueueReady (ready exists_ : bool)
| ENotify (ready pending net attached : bool)
| EStatus (is_reset commits : bool)
| EService (driver_ok delivered : bool)
| EState
| ESetKick.

Definition entry_locks (e : entry) : list act :=
  match e with
  | ERead offset => read_locks offset
  | ECoreOnly => under CoreLock []
  | ERegWrite => under RegsLock []
  | EQueueSel => under RegsLock [] ++ under CoreLock []
  | EQueueReady ready ex =>
      under RegsLock [] ++ under RegsLock [] ++ if ready then publish_locks ex else []
  | ENotify ready pending net attached => notify_locks ready pending net attached
  | EStatus r c => status_locks r c
  | EService ok delivered => if ok then service_locks delivered else under CoreLock []
  | EState => state_locks
  | ESetKick => under KickLock []
  end.

(** The two registers whose read nests the core inside the registers. *)
Definition reads_core_under_regs (e : entry) : bool :=
  match e with
  | ERead offset => negb (CONFIG_OFFSET <=? offset) && ((offset =? 0x070) || (offset =? 0x0fc))
  | _ => false
  end.

(** ** Lock order *)

Definition rank (l : lock) : nat :=
  match l with CoreLock => 0 | RegsLock => 1 | KickLock => 2 | PendingLock => 3 end.

(** The actions respect the order from a thread that holds [hs], and end with
    nothing held. *)
Fixpoint ordered (hs : list lock) (acts : list act) : bool :=
  match acts with
  | [] => match hs with [] => true | _ => false end
  | Acq l :: acts => forallb (fun h => (rank h <? rank l)%nat) hs && ordered (l :: hs) acts
  | Rel l :: acts => bool_decide (l ∈ hs) && ordered (filter (fun x => x <> l) hs) acts
  end.

Definition ordered_threads (ts : list thread) : Prop := forall t, t ∈ ts -> ordered (holds t) (todo t) = true.

Lemma ordered_app hs acts1 acts2 :
  ordered hs acts1 = true -> ordered [] acts2 = true -> ordered hs (acts1 ++ acts2) = true.
Proof.
  revert hs. induction acts1 as [|[l|l] acts1 IH]; intros hs H1 H2; cbn [ordered app] in *.
  - by destruct hs.
  - apply andb_true_iff in H1 as [-> H1]. by apply IH.
  - apply andb_true_iff in H1 as [-> H1]. by apply IH.
Qed.

Lemma entry_ordered e : reads_core_under_regs e = false -> ordered [] (entry_locks e) = true.
Proof.
  destruct e as [offset| | | |[] []|[] [] [] []|[] []|[] []| |]; try done. cbn [reads_core_under_regs entry_locks].
  unfold read_locks. destruct (CONFIG_OFFSET <=? offset); [done|]. cbn [negb andb].
  by intros ->.
Qed.

Lemma entries_ordered es :
  Forall (fun e => reads_core_under_regs e = false) es -> ordered [] (concat (entry_locks <$> es)) = true.
Proof.
  induction 1 as [|e es He _ IH]; [done|]. cbn. by apply ordered_app; [apply entry_ordered|].
Qed.

Lemma lock_step_ordered ts ts' : lock_step ts ts' -> ordered_threads ts -> ordered_threads ts'.
Proof.
  intros Hs Ho t Ht. destruct Hs as [ts i hs l acts Hi _|ts i hs l acts Hi];
    apply list_elem_of_lookup in Ht as [k Hk]; apply list_lookup_insert_Some in Hk as [(-> & <- & _)|[_ Hk]];
    try (by eapply Ho, list_elem_of_lookup_2); pose proof (Ho _ (list_elem_of_lookup_2 _ _ _ Hi)) as Hoi;
    cbn [holds todo ordered] in *; by apply andb_true_iff in Hoi as [_ ?].
Qed.

(** A thread whose held locks rank highest is never the one that waits. *)
Lemma highest_holder (ts : list thread) :
  (exists t l, t ∈ ts /\ l ∈ holds t) ->
  exists i t l, ts !! i = Some t /\ l ∈ holds t /\
    forall t' l', t' ∈ ts -> l' ∈ holds t' -> (rank l' <= rank l)%nat.
Proof.
  intros (t0 & l0 & Ht0 & Hl0). 
  assert (forall n, (exists t l, t ∈ ts /\ l ∈ holds t /\ (n <= rank l)%nat) ->
    exists t l, t ∈ ts /\ l ∈ holds t /\ forall t' l', t' ∈ ts -> l' ∈ holds t' -> (rank l' <= rank l)%nat) as Hmax.
  { intros n. remember (4 - n)%nat as k. revert n Heqk. induction k as [|k IH]; intros n Hk (t & l & Ht & Hl & Hn).
    - exfalso. destruct l; cbn in Hn; lia.
    - destruct (decide (Exists (fun t' => Exists (fun l' => (n < rank l')%nat) (holds t')) ts)) as [Hex|Hno].
      + apply Exists_exists in Hex as (t' & Ht' & Hex). apply Exists_exists in Hex as (l' & Hl' & Hlt).
        apply (IH (S n)); [lia|]. exists t', l'. by split_and!.
      + exists t, l. split_and!; [done..|]. intros t' l' Ht' Hl'.
        destruct (decide (n < rank l')%nat) as [Hlt|Hge]; [|lia]. exfalso. apply Hno.
        apply Exists_exists. exists t'. split; [done|]. apply Exists_exists. by exists l'. }
  destruct (Hmax 0%nat) as (t & l & Ht & Hl & Hm); [exists t0, l0; split_and!; [done..|lia]|].
  apply list_elem_of_lookup in Ht as [i Hi]. by exists i, t, l.
Qed.

Lemma holder_steps ts i hs acts l :
  ordered_threads ts -> ts !! i = Some (mkThread hs acts) -> l ∈ hs ->
  (forall t' l', t' ∈ ts -> l' ∈ holds t' -> (rank l' <= rank l)%nat) -> exists ts', lock_step ts ts'.
Proof.
  intros Ho Hi Hl Hmax. pose proof (Ho _ (list_elem_of_lookup_2 _ _ _ Hi)) as Hoi. cbn [holds todo] in *.
  destruct acts as [|[l'|l'] acts]; cbn [ordered] in Hoi.
  - destruct hs; [by apply not_elem_of_nil in Hl|done].
  - apply andb_true_iff in Hoi as [Hr _]. rewrite forallb_forall in Hr.
    eexists. eapply step_acq; [exact Hi|]. intros t' Ht' Hin. specialize (Hmax t' l' Ht' Hin).
    specialize (Hr l (proj1 (list_elem_of_In _ _) Hl)). apply Nat.ltb_lt in Hr. lia.
  - eexists. by eapply step_rel.
Qed.

Lemma ordered_progress ts : ordered_threads ts -> finished ts \/ exists ts', lock_step ts ts'.
Proof.
  intros Ho. destruct (decide (Exists (fun t => holds t <> []) ts)) as [Hheld|Hnone].
  { destruct (highest_holder ts) as (i & [hs acts] & l & Hi & Hl & Hmax).
    - apply Exists_exists in Hheld as (t & Ht & Hne). destruct (holds t) as [|l ls] eqn:Eh; [done|].
      exists t, l. split; [done|]. rewrite Eh. by constructor.
    - right. by eapply holder_steps. }
  destruct (decide (Exists (fun t => todo t <> []) ts)) as [Htodo|Hdone].
  - right. apply Exists_exists in Htodo as ([hs acts] & Ht & Hne). cbn in Hne.
    assert (hs = []) as ->.
    { destruct hs as [|l hs]; [done|]. exfalso. apply Hnone, Exists_exists.
      by exists (mkThread (l :: hs) acts). }
    destruct acts as [|[l|l] acts]; [done| |by apply Ho in Ht].
    apply list_elem_of_lookup in Ht as [i Hi]. eexists. eapply step_acq; [exact Hi|].
    intros t' Ht' Hin. apply Hnone, Exists_exists. exists t'. split; [done|].
    intros Hn. rewrite Hn in Hin. by apply not_elem_of_nil in Hin.
  - left. intros t Ht. destruct (decide (todo t = [])) as [|Hne]; [done|].
    exfalso. apply Hdone, Exists_exists. by exists t.
Qed.

Lemma start_ordered threads :
  Forall (Forall (fun e => reads_core_under_regs e = false)) threads ->
  ordered_threads (start ((fun es => concat (entry_locks <$> es)) <$> threads)).
Proof.
  intros Hall t Ht. unfold start in Ht. rewrite <- list_fmap_compose in Ht.
  apply list_elem_of_fmap in Ht as (es & -> & Hes). cbn. apply entries_ordered.
  rewrite Forall_elem in Hall. by apply Hall.
Qed.

(** ** Properties of the locking *)

(** C39: threads that enter the device any number of times, in any order, never
    deadlock, as long as none of them reads [Status] or [ConfigGeneration]:
    whatever the interleaving, some thread can go on until all have finished. *)
Theorem mmio_no_deadlock (threads : list (list entry)) ts :
  Forall (Forall (fun e => reads_core_under_regs e = false)) threads ->
  rtc lock_step (start ((fun es => concat (entry_locks <$> es)) <$> threads)) ts ->
  finished ts \/ exists ts', lock_step ts ts'.
Proof.
  intros Hall Hrun. apply ordered_progress. apply start_ordered in Hall.
  induction Hrun as [|ts1 ts2 ts3 Hs _ IH]; [done|]. by apply IH, (lock_step_ordered ts1).
Qed.

Lemma mmio_no_deadlock_witness : exists ts,
  lock_step (start ((fun es => concat (entry_locks <$> es)) <$>
    [[ENotify true true true true; EState]; [EService true true; ERead 0x060]])) ts.
Proof.
  destruct (mmio_no_deadlock [[ENotify true true true true; EState]; [EService true true; ERead 0x060]]
    (start ((fun es => concat (entry_locks <$> es)) <$>
      [[ENotify true true true true; EState]; [EService true true; ERead 0x060]]))) as [Hf|Hs].
  - repeat (apply Forall_cons_2; [repeat (apply Forall_cons_2; [reflexivity|]); constructor|]). constructor.
  - apply rtc_refl.
  - specialize (Hf _ (list_elem_of_here _ _)). discriminate Hf.
  - exact Hs.
Defined.

(** A vCPU that reads [Status] while the service thread, or another vCPU's
    notification, delivers to the guest can stop both for good: the reader holds
    the registers and waits for the core, the other holds the core and waits for
    the registers. *)
Theorem status_read_deadlocks : exists ts,
  rtc lock_step (start [entry_locks (ERead 0x070); entry_locks (EService true true)]) ts /\ deadlocked ts.
Proof.
  exists [mkThread [RegsLock] [Acq CoreLock; Rel CoreLock; Rel RegsLock];
     mkThread [CoreLock] [Acq RegsLock; Rel RegsLock; Rel CoreLock]]. split.
  - eapply rtc_l; [eapply (step_acq _ 0); [reflexivity|]|].
    { intros t Ht. repeat (apply elem_of_cons in Ht as [->|Ht]; [apply not_elem_of_nil|]).
      by apply not_elem_of_nil in Ht. }
    eapply rtc_l; [eapply (step_acq _ 1); [reflexivity|]|apply rtc_refl].
    intros t Ht. cbn in Ht. repeat (apply elem_of_cons in Ht as [->|Ht]; [cbn; set_solver|]).
    by apply not_elem_of_nil in Ht.
  - split.
    + intros Hf. by specialize (Hf _ (list_elem_of_here _ _)).
    + intros ts' Hs. inversion Hs as [ts i hs l acts Hi Hfree|ts i hs l acts Hi]; subst;
        destruct i as [|[|i]]; cbn in Hi; try done; injection Hi as <- <- <-.
      * apply (Hfree (mkThread [CoreLock] [Acq RegsLock; Rel RegsLock; Rel CoreLock])); set_solver.
      * apply (Hfree (mkThread [RegsLock] [Acq CoreLock; Rel CoreLock; Rel RegsLock])); set_solver.
Qed.
