(* ===== verification/VirtioPci.v ===== *)
(** * The virtio-pci transport of a resumed device

    [virtio/pci.rs]: the capability windows of the memory BAR over the shared
    device core. Everything the driver negotiated comes from the snapshot; the
    guest's accesses select, acknowledge and notify. A read of the interrupt status
    takes the device lock twice, once to copy it and once to clear it, and is two
    steps here. *)

From Stdlib Require Import ZArith Lia Bool.
From stdpp Require Import base numbers list list_numbers gmap option strings relations.
From S2P Require Import Prelude GuestMem VirtQueue Lro NetDev BlockBackend BlockDev DevCore VirtioMmio.

Definition COMMON_CONFIG_OFFSET : Z := 0x0000.
Definition COMMON_CONFIG_SIZE : Z := 56.
Definition ISR_OFFSET : Z := 0x2000.
Definition DEVICE_CONFIG_OFFSET : Z := 0x4000.
Definition DEVICE_CONFIG_SIZE : Z := 0x1000.
Definition NOTIFICATION_OFFSET : Z := 0x6000.
Definition NOTIFICATION_SIZE : Z := 0x400 * 4.

Record RestoreParams := mkRestore {
  rp_features : Z;
  rp_queues : list Queue;
  rp_queue_vectors : list Z;
  rp_device_status : Z;
  rp_device_config : list Z;
}.

(** [kick] is the pending flag of the attached [NetKick]. *)
Record VirtioPciDevice (B E R J : Type) := mkPci {
  pci_name : string;
  inner : DeviceCore B E R J;
  pci_kick : option bool;
}.
Arguments mkPci {B E R J} _ _ _.
Arguments pci_name {B E R J} _.
Arguments inner {B E R J} _.
Arguments pci_kick {B E R J} _.

Section Pci.
Context {B E R J : Type}.
Context `{BlockBackend B} `{EntropySource E} `{NetResponder R} `{InterruptInjector J}.

Abbreviation Core := (DeviceCore B E R J).
Abbreviation Pci := (VirtioPciDevice B E R J).

Definition set_inner (c : Core) (d : Pci) : Pci := mkPci (pci_name d) c (pci_kick d).

(** [new], with the logging injector it installs passed as [j];
    [device_config.resize] cuts or pads to the window. *)
Definition pci_new (name : string) (b : Backend B E R) (params : RestoreParams) (j : J) : Pci :=
  let n := Z.to_nat DEVICE_CONFIG_SIZE in
  let cfg := take n (rp_device_config params) ++ replicate (n - length (rp_device_config params)) 0 in
  mkPci name
    (mkCore (mkVC 0 0 (rp_features params) (rp_features params) 0
               (u16 (Z.of_nat (length (rp_queues params)))) (rp_device_status params) 0 0)
       (rp_queues params) (rp_queue_vectors params) b cfg 0 j false) None.

Definition pci_set_injector (j : J) (d : Pci) : Pci := set_inner (set_injector j (inner d)) d.
Definition pci_set_net_kick (d : Pci) : Pci := mkPci (pci_name d) (inner d) (Some false).

Definition queue_field (c : Core) (f : Queue -> Z) : Z :=
  match vget (queues c) (queue_select (common c)) with Some q => f q | None => 0 end.

(** [read_common] into a buffer of [n] bytes. *)
Definition read_common (c : Core) (offset : Z) (n : nat) : list Z :=
  let v := common c in
  fill_le n
    (if offset =? 0x00 then device_feature_select v
     else if offset =? 0x04 then
       Z.land (Z.shiftr (device_features v) (sel_shift (device_feature_select v))) MASK32
     else if offset =? 0x08 then driver_feature_select v
     else if offset =? 0x0c then
       Z.land (Z.shiftr (driver_features v) (sel_shift (driver_feature_select v))) MASK32
     else if offset =? 0x10 then msix_config v
     else if offset =? 0x12 then num_queues v
     else if offset =? 0x14 then device_status v
     else if offset =? 0x15 then config_generation v
     else if offset =? 0x16 then queue_select v
     else if offset =? 0x18 then queue_field c q_size
     else if offset =? 0x1a then default 0 (vget (queue_vectors c) (queue_select v))
     else if offset =? 0x1c then queue_field c (fun _ => 1)
     else if offset =? 0x1e then queue_select v
     else if offset =? 0x20 then queue_field c q_desc
     else if offset =? 0x28 then queue_field c q_avail
     else if offset =? 0x30 then queue_field c q_used
     else 0).

Definition write_common (offset : Z) (data : list Z) (c : Core) : Core :=
  let x := parse_le data in
  let '(mkVC dfs gfs df gf mx nq st gen qs) := common c in
  if offset =? 0x00 then set_common (mkVC (u32 x) gfs df gf mx nq st gen qs) c
  else if offset =? 0x08 then set_common (mkVC dfs (u32 x) df gf mx nq st gen qs) c
  else if offset =? 0x10 then set_common (mkVC dfs gfs df gf (u16 x) nq st gen qs) c
  else if offset =? 0x14 then set_common (mkVC dfs gfs df gf mx nq (u8 x) gen qs) c
  else if offset =? 0x16 then set_common (mkVC dfs gfs df gf mx nq st gen (u16 x)) c
  else c.

Definition in_isr (offset : Z) : bool := in_range ISR_OFFSET (ISR_OFFSET + 0x100) offset.

(** What [read] returns. *)
Definition pci_read (d : Pci) (offset : Z) (n : nat) : list Z :=
  let c := inner d in
  if offset <? COMMON_CONFIG_OFFSET + COMMON_CONFIG_SIZE then
    read_common c (offset - COMMON_CONFIG_OFFSET) n
  else if in_isr offset then take n (isr_status c :: replicate (n - 1) 0)
  else if in_range DEVICE_CONFIG_OFFSET (DEVICE_CONFIG_OFFSET + DEVICE_CONFIG_SIZE) offset then
    (fun i => default 0 (vget (device_config c) (offset - DEVICE_CONFIG_OFFSET + i))) <$> seqZ 0 (Z.of_nat n)
  else replicate n 0.

(** What [read] leaves, under its second lock. *)
Definition pci_read_clear (offset : Z) (d : Pci) : Pci :=
  if (offset <? COMMON_CONFIG_OFFSET + COMMON_CONFIG_SIZE) || negb (in_isr offset) then d
  else set_inner (set_isr 0 (inner d)) d.

Definition pci_wake (d : Pci) : Pci := mkPci (pci_name d) (inner d) ((fun _ => true) <$> pci_kick d).

Definition pci_write (fuel : nat) (offset : Z) (data : list Z) (d : Pci) (m : GuestMemory) :
    res unit (Pci * GuestMemory) :=
  if offset <? COMMON_CONFIG_OFFSET + COMMON_CONFIG_SIZE then
    Ok (set_inner (write_common (offset - COMMON_CONFIG_OFFSET) data (inner d)) d, m)
  else if in_range NOTIFICATION_OFFSET (NOTIFICATION_OFFSET + NOTIFICATION_SIZE) offset then
    '(c, m) ← notify fuel (u16 (parse_le data)) (inner d) m;
    let d := set_inner c d in
    Ok (match backend c with Net _ => pci_wake d | _ => d end, m)
  else Ok (d, m).

(** The loop of [drain_on_resume]. *)
Fixpoint pci_drain (fuel : nat) (qis : list Z) (c : Core) (m : GuestMemory) : res unit (Core * GuestMemory) :=
  match qis with
  | [] => Ok (c, m)
  | qi :: qis => '(c, m) ← notify fuel qi c m; pci_drain fuel qis c m
  end.

Definition pci_drain_on_resume (fuel : nat) (d : Pci) (m : GuestMemory) : res unit (Pci * GuestMemory) :=
  '(c, m) ← pci_drain fuel (seqZ 0 (u16 (Z.of_nat (length (queues (inner d)))))) (inner d) m;
  Ok (set_inner c d, m).

Definition pci_service_net (fuel : nat) (d : Pci) (m : GuestMemory) : res unit (bool * Pci * GuestMemory) :=
  '(delivered, c, m) ← core_service_net fuel (inner d) m;
  Ok (delivered, set_inner c d, m).

(** ** Threads that enter the device *)

(** The critical sections of the device, in any order, with the guest changing
    its memory between them. *)
Inductive pci_step : Pci * GuestMemory -> Pci * GuestMemory -> Prop :=
| pci_step_write fuel offset data d m d' m' :
    pci_write fuel offset data d m = Ok (d', m') -> pci_step (d, m) (d', m')
| pci_step_clear offset d m : pci_step (d, m) (pci_read_clear offset d, m)
| pci_step_drain fuel d m d' m' :
    pci_drain_on_resume fuel d m = Ok (d', m') -> pci_step (d, m) (d', m')
| pci_step_service fuel d m delivered d' m' :
    pci_service_net fuel d m = Ok (delivered, d', m') -> pci_step (d, m) (d', m')
| pci_step_guest d m m' : pci_step (d, m) (d, m').

(** What the snapshot decided: features, vectors, configuration, rings. *)
Definition restored_kept (c c' : Core) : Prop :=
  device_features (common c') = device_features (common c) /\
  driver_features (common c') = driver_features (common c) /\
  num_queues (common c') = num_queues (common c) /\
  config_generation (common c') = config_generation (common c) /\
  queue_vectors c' = queue_vectors c /\ device_config c' = device_config c /\
  Forall2 same_ring (queues c) (queues c').

#[export] Instance restored_kept_preorder : PreOrder restored_kept.
Proof.
  split.
  - intros c. by split_and!.
  - intros c1 c2 c3 (? & ? & ? & ? & ? & ? & ?) (? & ? & ? & ? & ? & ? & ?).
    split_and!; try congruence. by etrans.
Qed.

Lemma core_kept_restored (c c' : Core) : core_kept c c' -> restored_kept c c'.
Proof.
  intros (Ec & ? & ? & _ & _ & _ & ?). unfold restored_kept. rewrite Ec. by split_and!.
Qed.

Lemma write_common_kept offset data (c : Core) : restored_kept c (write_common offset data c).
Proof.
  unfold write_common. destruct (common c) as [dfs gfs df gf mx nq st gen qs] eqn:Ec.
  repeat (destruct (_ =? _); [unfold restored_kept; rewrite Ec; by split_and!|]). done.
Qed.

Lemma pci_write_kept fuel offset data (d : Pci) m d' m' :
  pci_write fuel offset data d m = Ok (d', m') -> restored_kept (inner d) (inner d').
Proof.
  unfold pci_write. destruct (_ <? _); [intros [= <- _]; apply write_common_kept|].
  destruct (in_range _ _ _); [|by intros [= <- _]].
  intros ([c m1] & Hn & Hx)%bind_Ok. injection Hx as <- _. apply notify_kept, core_kept_restored in Hn.
  by destruct (backend c).
Qed.

Lemma pci_drain_kept fuel qis : forall (c : Core) m c' m',
  pci_drain fuel qis c m = Ok (c', m') -> restored_kept c c'.
Proof.
  induction qis as [|qi qis IH]; intros c m c' m'; cbn [pci_drain]; [by intros [= <- _]|].
  intros ([c1 m1] & Hn & Hd)%bind_Ok. etrans; [by eapply core_kept_restored, notify_kept|by eapply IH].
Qed.

Lemma pci_step_kept s s' : pci_step s s' -> restored_kept (inner s.1) (inner s'.1).
Proof.
  destruct 1 as [fuel offset data d m d' m' Hw|offset d m|fuel d m d' m' Hd|fuel d m dl d' m' Hs|d m m'];
    cbn [fst].
  - by eapply pci_write_kept.
  - unfold pci_read_clear. by destruct (_ || _).
  - unfold pci_drain_on_resume in Hd. apply bind_Ok in Hd as ([c m1] & Hd & Hx). injection Hx as <- _.
    by eapply pci_drain_kept.
  - unfold pci_service_net in Hs. apply bind_Ok in Hs as ([[r c] m1] & Hs & Hx). injection Hx as _ <- _.
    by eapply core_kept_restored, core_service_net_kept.
  - done.
Qed.

Lemma pci_run_kept s s' : rtc pci_step s s' -> restored_kept (inner s.1) (inner s'.1).
Proof.
  induction 1 as [|s s1 s' Hs _ IH]; [done|]. etrans; [by apply pci_step_kept|done].
Qed.
End Pci.

(** ** Properties of the transport *)

Section Properties.
Context {B E R J : Type}.
Context `{ByteBackend B} `{ByteSource E} `{NetResponder R} `{InterruptInjector J}.

Abbreviation Pci := (VirtioPciDevice B E R J).

(** What the snapshot restored cannot be reprogrammed. Whatever a guest writes
    and reads in the BAR, and whatever notifications, resumes and service ticks
    happen in between, the negotiated features, the vectors, the configuration
    space and the size, addresses and ring features of every queue stay those the
    device was restored with. *)
Theorem pci_restored_state_fixed name b params (j : J) m0 (d : Pci) m :
  rtc pci_step (pci_new name b params j, m0) (d, m) ->
  device_features (common (inner d)) = rp_features params /\
  driver_features (common (inner d)) = rp_features params /\
  queue_vectors (inner d) = rp_queue_vectors params /\
  Forall2 same_ring (rp_queues params) (queues (inner d)).
Proof.
  intros Hrun. apply pci_run_kept in Hrun as (? & ? & _ & _ & ? & _ & ?). by split_and!.
Qed.

(** A request in flight across the snapshot completes on resume. A queue whose
    cursors are restored from its used index, with the chains [cs] made available
    and not used before the capture, is drained by [drain_on_resume]: every chain
    is completed and its vector is signalled when the driver asked for it, without
    a new notification from the guest. *)
Theorem resume_completes_in_flight (c : DeviceCore B E R J) name kick P q0 q p m cs fuel :
  restore q0 m = Ok q -> queue_wf q -> 0 < q_size q -> (q_size q | 65536) -> driver_half P q -> mem_wf m ->
  with_ptr m (q_used q) (6 + 8 * q_size q) = Ok p ->
  queues c = [q] -> backend_ok (backend c) -> cs <> [] -> Z.of_nat (length cs) <= q_size q ->
  read_u16 m (q_avail q + 2) = Ok (u16 (next_used q + Z.of_nat (length cs))) ->
  (forall k x, cs !! k = Some x ->
     posted P q m (u16 (next_used q + Z.of_nat k)) x /\ servable P q x) ->
  walk_fuel + Z.of_nat (length cs) < Z.of_nat fuel ->
  exists c' m', pci_drain_on_resume fuel (mkPci name c kick) m = Ok (mkPci name c' kick, m') /\
    served backend_ok P q m c 0 cs c' m'.
Proof.
  intros Hr Hq Hs Hd Hdh Hm Hup Hqs Hb Hne Hl Hi Hp Hf.
  assert (next_avail q = next_used q) as Hna.
  { unfold restore in Hr. apply bind_Ok in Hr as (u & _ & Hr). by injection Hr as <-. }
  destruct (notify_loop_serves backend_ok P q p m Hq Hs Hdh Hm Hup Hd c 0 cs fuel)
    as (c' & m' & Hn & Hsv); try done; [by rewrite Hqs|unfold queue_wf, is_u16 in Hq; lia|by rewrite Hna..|].
  exists c', m'. split; [|done]. unfold pci_drain_on_resume. cbn [inner]. rewrite Hqs.
  change (seqZ 0 (u16 (Z.of_nat (length [q])))) with [0]. cbn [pci_drain].
  assert (notify fuel 0 c m = Ok (c', m')) as Hn' by (unfold notify; by destruct (backend c)).
  by rewrite Hn'.
Qed.

(** A completion between the two locks of an interrupt-status read is lost.
    The read returns the status from before the completion, and the clear that
    follows throws the new bit away, so no later read reports it. *)
Theorem isr_read_loses_completion (d d' : Pci) P q p m m' qi cs fuel n :
  queue_wf q -> 0 < q_size q -> (q_size q | 65536) -> driver_half P q -> mem_wf m ->
  with_ptr m (q_used q) (6 + 8 * q_size q) = Ok p ->
  is_u16 qi -> vget (queues (inner d)) qi = Some q -> backend_ok (backend (inner d)) ->
  cs <> [] -> Z.of_nat (length cs) <= q_size q ->
  read_u16 m (q_avail q + 2) = Ok (u16 (next_avail q + Z.of_nat (length cs))) ->
  (forall k x, cs !! k = Some x ->
     posted P q m (u16 (next_avail q + Z.of_nat k)) x /\ servable P q x) ->
  walk_fuel + Z.of_nat (length cs) < Z.of_nat fuel ->
  isr_status (inner d) = 0 ->
  pci_write fuel NOTIFICATION_OFFSET (le_bytes 4 qi) d m = Ok (d', m') ->
  pci_read d ISR_OFFSET n = replicate n 0 /\ Z.testbit (isr_status (inner d')) 0 = true /\
  pci_read (pci_read_clear ISR_OFFSET d') ISR_OFFSET n = replicate n 0.
Proof.
  intros Hq Hs Hd Hdh Hm Hup Hqi Hv Hb Hne Hl Hi Hp Hf Hz Hw.
  destruct (notify_loop_serves backend_ok P q p m Hq Hs Hdh Hm Hup Hd (inner d) qi cs fuel)
    as (c' & m1 & Hn & Hsv); try done; [unfold queue_wf, is_u16 in Hq; lia|].
  assert (notify fuel qi (inner d) m = Ok (c', m1)) as Hn' by (unfold notify; by destruct (backend (inner d))).
  unfold pci_write in Hw. cbn -[le_bytes notify parse_le] in Hw.
  rewrite parse_le4 in Hw by (unfold is_u16, is_u32 in *; lia).
  replace (u16 qi) with qi in Hw by (unfold is_u16 in *; word_lia). rewrite Hn' in Hw.
  cbn [mbind res_bind_inst] in Hw. injection Hw as <- _.
  destruct Hsv as (_ & _ & _ & Hb' & _ & _ & _ & _ & Hisr & _). rewrite bool_decide_false in Hisr by done.
  assert (forall x : Pci, isr_status (inner x) = 0 -> pci_read x ISR_OFFSET n = replicate n 0) as Hrd.
  { intros x Hx. unfold pci_read. cbn. rewrite Hx. destruct n as [|n]; [done|]. cbn.
    by rewrite Nat.sub_0_r, take_replicate, Nat.min_id. }
  split; [by apply Hrd|]. split; [|apply Hrd; by destruct (backend c')].
  destruct (backend c'); cbn [inner set_inner pci_wake]; rewrite Hisr, Z.lor_spec; apply orb_true_r.
Qed.
End Properties.

(** *** A resumed block device with one request in flight *)

#[local] Existing Instances zero_source zero_source_bytes.

Definition demo_pci : VirtioPciDevice FileBackend unit EchoResponder LoggingInjector :=
  pci_new "disk0" (Block demo_disk) (mkRestore VERSION_1 [demo_q] [5] 15 []) (mkLog 0).

Lemma pci_restored_state_fixed_witness : exists d m,
  rtc pci_step (demo_pci, demo_qmem) (d, m) /\ device_features (common (inner d)) = VERSION_1 /\
  read_common (inner d) 0x14 1 = [0].
Proof.
  eexists (set_inner (write_common 0x14 [0] (inner demo_pci)) demo_pci), demo_qmem.
  assert (rtc pci_step (demo_pci, demo_qmem)
    (set_inner (write_common 0x14 [0] (inner demo_pci)) demo_pci, demo_qmem)) as Hrun.
  { apply rtc_once. apply (pci_step_write 0 0x14 [0]). reflexivity. }
  split; [exact Hrun|]. split; [|vm_compute; reflexivity].
  apply (pci_restored_state_fixed "disk0" (Block demo_disk) (mkRestore VERSION_1 [demo_q] [5] 15 []) (mkLog 0)
    demo_qmem _ demo_qmem Hrun).
Defined.

Lemma resume_completes_in_flight_witness : exists c' m',
  pci_drain_on_resume (Z.to_nat (walk_fuel + 2)) demo_pci demo_qmem = Ok (mkPci "disk0" c' None, m') /\
  read_u16 m' 4610 = Ok 1.
Proof.
  destruct (resume_completes_in_flight (inner demo_pci) "disk0" None demo_half demo_q demo_q 512 demo_qmem
    [demo_posted] (Z.to_nat (walk_fuel + 2))) as (c' & m' & Hd & (_ & _ & _ & _ & _ & _ & _ & Hx & _)).
  - vm_compute; reflexivity.
  - exact demo_q_wf.
  - reflexivity.
  - by exists 16384.
  - exact demo_driver_half.
  - exact demo_qmem_wf.
  - vm_compute; reflexivity.
  - reflexivity.
  - split; [apply map_Forall_empty|by apply bytesb_bytes].
  - discriminate.
  - cbn; lia.
  - vm_compute; reflexivity.
  - intros [|k] x Hk; [|done]. injection Hk as <-. split; [exact demo_chain_posted|exact demo_chain_servable].
  - rewrite Z2Nat.id; [cbn; lia|discriminate].
  - exists c', m'. split; [exact Hd|]. by apply Hx.
Defined.
