(* ===== verification/Platform.v ===== *)
(** * The MMIO bus and the platform devices

    [devices.rs]: the address-routed bus the vCPUs' memory-mapped accesses go
    through, the PL011 console and the PL031 clock. The clock's host time is an
    argument of its accesses. *)

From Stdlib Require Import ZArith Lia Bool.
From stdpp Require Import base numbers list list_numbers option relations.
From S2P Require Import Prelude.

(** ** The bus *)

Record BusEntry (D : Type) := mkEntry { be_base : Z; be_size : Z; be_dev : D }.
Arguments mkEntry {D} _ _ _.
Arguments be_base {D} _.
Arguments be_size {D} _.
Arguments be_dev {D} _.

Section Bus.
Context {D : Type}.

(** [add]; the overlap check is a [debug_assert]. *)
Definition bus_add (base size : Z) (dev : D) (bus : list (BusEntry D)) : list (BusEntry D) :=
  bus ++ [mkEntry base size dev].

(** [gpa >= e.base && gpa < e.base + e.size]. *)
Definition claims (e : BusEntry D) (gpa : Z) : bool :=
  (be_base e <=? gpa) && (gpa <? u64 (be_base e + be_size e)).

(** [find]: the first entry that claims the address, as its place on the bus. *)
Fixpoint bus_find (bus : list (BusEntry D)) (gpa : Z) : option (nat * D * Z) :=
  match bus with
  | [] => None
  | e :: bus =>
      if claims e gpa then Some (0%nat, be_dev e, u64 (gpa - be_base e))
      else match bus_find bus gpa with
           | Some (i, d, off) => Some (S i, d, off)
           | None => None
           end
  end.

(** The trait [MmioDevice], for devices with state: [read] of [n] bytes and
    [write]. *)
Context (dev_read : D -> Z -> nat -> list Z * D) (dev_write : D -> Z -> list Z -> D).

Definition set_dev (i : nat) (d : D) (bus : list (BusEntry D)) : list (BusEntry D) :=
  match bus !! i with
  | Some e => <[i := mkEntry (be_base e) (be_size e) d]> bus
  | None => bus
  end.

(** An unclaimed read is all zeroes, an unclaimed write is dropped. *)
Definition mmio_bus_read (bus : list (BusEntry D)) (gpa : Z) (n : nat) : list Z * list (BusEntry D) :=
  match bus_find bus gpa with
  | Some (i, d, off) => let '(data, d) := dev_read d off n in (data, set_dev i d bus)
  | None => (replicate n 0, bus)
  end.

Definition mmio_bus_write (bus : list (BusEntry D)) (gpa : Z) (data : list Z) : list (BusEntry D) :=
  match bus_find bus gpa with
  | Some (i, d, off) => set_dev i (dev_write d off data) bus
  | None => bus
  end.

(** ** Routing *)

(** A window inside the address space. *)
Definition window_ok (e : BusEntry D) : Prop := 0 <= be_base e /\ 0 <= be_size e /\ be_base e + be_size e < 2 ^ 64.

Definition windows_apart (bus : list (BusEntry D)) : Prop :=
  forall i j e f, i <> j -> bus !! i = Some e -> bus !! j = Some f ->
    be_base e + be_size e <= be_base f \/ be_base f + be_size f <= be_base e.

Lemma claims_spec e gpa : window_ok e -> claims e gpa = true <-> be_base e <= gpa < be_base e + be_size e.
Proof.
  intros (? & ? & ?). unfold claims, u64. rewrite Z.mod_small by lia.
  rewrite andb_true_iff, Z.leb_le, Z.ltb_lt. done.
Qed.

Lemma bus_find_Some bus gpa i d off :
  bus_find bus gpa = Some (i, d, off) ->
  exists e, bus !! i = Some e /\ be_dev e = d /\ claims e gpa = true /\ off = u64 (gpa - be_base e) /\
    forall j f, (j < i)%nat -> bus !! j = Some f -> claims f gpa = false.
Proof.
  revert i. induction bus as [|e bus IH]; intros i; cbn [bus_find]; [done|].
  destruct (claims e gpa) eqn:Ec.
  - intros [= <- <- <-]. exists e. split_and!; try done. lia.
  - destruct (bus_find bus gpa) as [[[k d'] off']|]; [|done]. intros [= <- -> ->].
    destruct (IH k eq_refl) as (f & Hf & ? & ? & ? & Hlt). exists f. split_and!; try done.
    intros [|j] g Hj Hg; [by injection Hg as <-|]. apply (Hlt j); [lia|done].
Qed.

Lemma bus_find_None bus gpa : bus_find bus gpa = None <-> forall e, e ∈ bus -> claims e gpa = false.
Proof.
  induction bus as [|e bus IH]; cbn [bus_find].
  { split; [|done]. intros _ e He. by apply not_elem_of_nil in He. }
  destruct (claims e gpa) eqn:Ec.
  - split; [done|]. intros Hall. rewrite (Hall e) in Ec by constructor. done.
  - destruct (bus_find bus gpa) as [[[k d] off]|] eqn:Ef.
    + split; [done|]. intros Hall. exfalso. assert (Some (k, d, off) = None) as [=].
      apply IH. intros f Hf. apply Hall. by constructor.
    + split; [|done]. intros _ f Hf. apply elem_of_cons in Hf as [->|Hf]; [done|]. by apply IH.
Qed.

(** With windows apart, an entry that contains the address is the one found. *)
Lemma bus_find_unique bus gpa i e :
  Forall window_ok bus -> windows_apart bus -> bus !! i = Some e ->
  be_base e <= gpa < be_base e + be_size e ->
  bus_find bus gpa = Some (i, be_dev e, gpa - be_base e).
Proof.
  intros Hok Hap Hi Hin. assert (window_ok e) as Hwe by (by eapply Forall_lookup_1).
  destruct (bus_find bus gpa) as [[[k d] off]|] eqn:Ef.
  - apply bus_find_Some in Ef as (f & Hk & <- & Hc & -> & _).
    assert (window_ok f) as Hwf by (by eapply Forall_lookup_1). apply claims_spec in Hc; [|done].
    destruct (decide (k = i)) as [->|Hne].
    + rewrite Hi in Hk. injection Hk as <-. unfold window_ok in Hwe. unfold u64. by rewrite Z.mod_small by lia.
    + destruct (Hap i k e f) as [?|?]; [congruence|done|done|lia|lia].
  - rewrite bus_find_None in Ef. specialize (Ef e (list_elem_of_lookup_2 _ _ _ Hi)).
    apply claims_spec in Hin; [congruence|done].
Qed.
End Bus.

(** ** The PL011 console *)

Definition UARTDR : Z := 0x000.
Definition UARTRSR_ECR : Z := 0x004.
Definition UARTFR : Z := 0x018.
Definition UARTIBRD : Z := 0x024.
Definition UARTFBRD : Z := 0x028.
Definition UARTLCR_H : Z := 0x02c.
Definition UARTCR : Z := 0x030.
Definition UARTIFLS : Z := 0x034.
Definition UARTIMSC : Z := 0x038.
Definition UARTRIS : Z := 0x03c.
Definition UARTMIS : Z := 0x040.
Definition UARTICR : Z := 0x044.
Definition UART_ID_LOW : Z := 0xfe0.
Definition FR_TXFE : Z := 2 ^ 7.
Definition FR_RXFF : Z := 2 ^ 6.
Definition FR_RXFE : Z := 2 ^ 4.
Definition FR_MODEM_PRESENT : Z := 7.
Definition INT_RX : Z := 2 ^ 4.
Definition INT_RT : Z := 2 ^ 6.
Definition RX_FIFO_DEPTH : Z := 16.
Definition PL011_ID : list Z := [0x11; 0x10; 0x14; 0x00; 0x0d; 0xf0; 0x05; 0xb1].

Record SerialRegs := mkSerial { sr_imsc : Z; sr_cr : Z; sr_lcr_h : Z; sr_ibrd : Z; sr_fbrd : Z; sr_ifls : Z }.

Record Pl011 := mkPl011 {
  ibrd : Z;
  fbrd : Z;
  lcr_h : Z;
  cr : Z;
  ifls : Z;
  imsc : Z;
  tx : list Z;
  read_fifo : list Z;
}.

Definition pl011_new : Pl011 := mkPl011 0 0 0 0 0 0 [] [].

Definition set_tx (l : list Z) (s : Pl011) : Pl011 :=
  mkPl011 (ibrd s) (fbrd s) (lcr_h s) (cr s) (ifls s) (imsc s) l (read_fifo s).
Definition set_fifo (l : list Z) (s : Pl011) : Pl011 :=
  mkPl011 (ibrd s) (fbrd s) (lcr_h s) (cr s) (ifls s) (imsc s) (tx s) l.

Definition take_output (s : Pl011) : list Z * Pl011 := (tx s, set_tx [] s).

Definition pl011_restore (r : SerialRegs) (s : Pl011) : Pl011 :=
  mkPl011 (sr_ibrd r) (sr_fbrd r) (sr_lcr_h r) (sr_cr r) (sr_ifls r) (sr_imsc r) (tx s) (read_fifo s).

Definition capture (s : Pl011) : SerialRegs :=
  mkSerial (imsc s) (cr s) (lcr_h s) (ibrd s) (fbrd s) (ifls s).

Definition rx_irq_pending (s : Pl011) : bool :=
  negb (bool_decide (read_fifo s = [])) && negb (Z.land (imsc s) (Z.lor INT_RX INT_RT) =? 0).

Definition push_input (bytes : list Z) (s : Pl011) : bool * Pl011 :=
  let s := set_fifo (read_fifo s ++ bytes) s in
  (rx_irq_pending s, s).

(** [read_u32] into [n] bytes, and [write_u32]. *)
Definition put_u32 (n : nat) (v : Z) : list Z := take n (le_bytes 4 v ++ replicate (n - 4) 0).
Definition get_u32 (data : list Z) : Z := le_val (take 4 data ++ replicate (4 - length data) 0).

Definition raw_interrupt_status (s : Pl011) : Z :=
  match read_fifo s with [] => 0 | _ => Z.lor INT_RX INT_RT end.

Definition flags (s : Pl011) : Z :=
  let fr := Z.lor FR_TXFE FR_MODEM_PRESENT in
  match read_fifo s with
  | [] => Z.lor fr FR_RXFE
  | _ => if RX_FIFO_DEPTH <=? Z.of_nat (length (read_fifo s)) then Z.lor fr FR_RXFF else fr
  end.

Definition pl011_read (s : Pl011) (offset : Z) (n : nat) : list Z * Pl011 :=
  if offset =? UARTDR then
    match read_fifo s with
    | [] => (put_u32 n 0, s)
    | b :: rest => (put_u32 n b, set_fifo rest s)
    end
  else
    (put_u32 n
       (if offset =? UARTRSR_ECR then 0
        else if offset =? UARTFR then flags s
        else if offset =? UARTIBRD then ibrd s
        else if offset =? UARTFBRD then fbrd s
        else if offset =? UARTLCR_H then lcr_h s
        else if offset =? UARTCR then cr s
        else if offset =? UARTIFLS then ifls s
        else if offset =? UARTIMSC then imsc s
        else if offset =? UARTRIS then raw_interrupt_status s
        else if offset =? UARTMIS then Z.land (raw_interrupt_status s) (imsc s)
        else if in_range UART_ID_LOW 0x1000 offset then
          default 0 (vget PL011_ID ((offset - UART_ID_LOW) / 4))
        else 0), s).

Definition pl011_write (s : Pl011) (offset : Z) (data : list Z) : Pl011 :=
  let v := get_u32 data in
  let '(mkPl011 ib fb lc c il im t f) := s in
  if offset =? UARTDR then mkPl011 ib fb lc c il im (t ++ [u8 v]) f
  else if offset =? UARTIBRD then mkPl011 v fb lc c il im t f
  else if offset =? UARTFBRD then mkPl011 ib v lc c il im t f
  else if offset =? UARTLCR_H then mkPl011 ib fb v c il im t f
  else if offset =? UARTCR then mkPl011 ib fb lc v il im t f
  else if offset =? UARTIFLS then mkPl011 ib fb lc c v im t f
  else if offset =? UARTIMSC then mkPl011 ib fb lc c il v t f
  else s.

(** ** The PL031 clock *)

Definition RTCDR : Z := 0x000.
Definition RTCMR : Z := 0x004.
Definition RTCLR : Z := 0x008.
Definition RTCCR : Z := 0x00c.
Definition RTCIMSC : Z := 0x010.
Definition RTCRIS : Z := 0x014.
Definition RTCMIS : Z := 0x018.
Definition RTCICR : Z := 0x01c.
Definition RTC_ID_LOW : Z := 0xfe0.
Definition PL031_ID : list Z := [0x31; 0x10; 0x14; 0x00; 0x0d; 0xf0; 0x05; 0xb1].

Record Pl031 := mkPl031 { rtc_offset : Z; mr : Z; rtc_imsc : Z; ris : Z }.

Definition pl031_new : Pl031 := mkPl031 0 0 0 0.

Definition i64_min : Z := - 2 ^ 63.
Definition i64_max : Z := 2 ^ 63 - 1.
Definition sat_add_i64 (a b : Z) : Z := Z.max i64_min (Z.min i64_max (a + b)).
Definition clamp (lo hi x : Z) : Z := Z.max lo (Z.min hi x).

(** [now] at host time [host]. *)
Definition rtc_now (host : Z) (s : Pl031) : Z := clamp 0 (2 ^ 32 - 1) (sat_add_i64 host (rtc_offset s)).

Definition pl031_read (host : Z) (s : Pl031) (offset : Z) (n : nat) : list Z * Pl031 :=
  let now := rtc_now host s in
  let s := if mr s <=? now then mkPl031 (rtc_offset s) (mr s) (rtc_imsc s) 1 else s in
  (put_u32 n
     (if offset =? RTCDR then now
      else if offset =? RTCMR then mr s
      else if offset =? RTCLR then now
      else if offset =? RTCCR then 1
      else if offset =? RTCIMSC then rtc_imsc s
      else if offset =? RTCRIS then ris s
      else if offset =? RTCMIS then Z.land (ris s) (rtc_imsc s)
      else if in_range RTC_ID_LOW 0x1000 offset then
        default 0 (vget PL031_ID (Z.land (Z.shiftr (offset - RTC_ID_LOW) 2) 7))
      else 0), s).

Definition pl031_write (host : Z) (s : Pl031) (offset : Z) (data : list Z) : Pl031 :=
  let v := get_u32 data in
  if offset =? RTCLR then mkPl031 (v - host) (mr s) (rtc_imsc s) (ris s)
  else if offset =? RTCMR then mkPl031 (rtc_offset s) v (rtc_imsc s) (ris s)
  else if offset =? RTCIMSC then mkPl031 (rtc_offset s) (mr s) (Z.land v 1) (ris s)
  else if offset =? RTCICR then
    if negb (Z.land v 1 =? 0) then mkPl031 (rtc_offset s) (mr s) (rtc_imsc s) 0 else s
  else s.

(** ** The console's two byte streams *)

Inductive uart_event :=
| Typed (bs : list Z)
| GuestRead (offset : Z) (n : nat)
| GuestWrite (offset : Z) (data : list Z)
| Collected.

(** The console after an event, the byte the guest received, the bytes the host
    collected. *)
Definition uart_step (s : Pl011) (e : uart_event) : Pl011 * list Z * list Z :=
  match e with
  | Typed bs => ((push_input bs s).2, [], [])
  | GuestRead offset n =>
      let '(data, s') := pl011_read s offset n in
      (s', if (offset =? UARTDR) && negb (bool_decide (read_fifo s = [])) then take 1 data else [], [])
  | GuestWrite offset data => (pl011_write s offset data, [], [])
  | Collected => let '(out, s') := take_output s in (s', [], out)
  end.

Fixpoint uart_run (s : Pl011) (es : list uart_event) : Pl011 * list Z * list Z :=
  match es with
  | [] => (s, [], [])
  | e :: es =>
      let '(s, got, out) := uart_step s e in
      let '(s, gots, outs) := uart_run s es in
      (s, got ++ gots, out ++ outs)
  end.

Definition typed (es : list uart_event) : list Z :=
  concat ((fun e => match e with Typed bs => bs | _ => [] end) <$> es).

Definition sent (es : list uart_event) : list Z :=
  concat ((fun e => match e with
                    | GuestWrite offset data => if offset =? UARTDR then [u8 (get_u32 data)] else []
                    | _ => []
                    end) <$> es).

(** Reads of at least a byte, and bytes typed. *)
Definition event_ok (e : uart_event) : Prop :=
  match e with
  | Typed bs => bytes bs
  | GuestRead _ n => (0 < n)%nat
  | _ => True
  end.

Lemma put_u32_head n b : (0 < n)%nat -> is_u8 b -> take 1 (put_u32 n b) = [b].
Proof.
  intros Hn Hb. destruct n as [|n]; [lia|]. unfold put_u32. cbn [le_bytes app take].
  unfold is_u8, u8 in *. by rewrite Z.mod_small by lia.
Qed.

Lemma pl011_write_streams s offset data :
  read_fifo (pl011_write s offset data) = read_fifo s /\
  tx (pl011_write s offset data) = tx s ++ if offset =? UARTDR then [u8 (get_u32 data)] else [].
Proof.
  destruct s as [ib fb lc c il im t f]. unfold pl011_write. destruct (offset =? UARTDR); [done|].
  repeat (destruct (_ =? _); [by rewrite app_nil_r|]). by rewrite app_nil_r.
Qed.

Lemma uart_step_streams s e :
  event_ok e -> bytes (read_fifo s) ->
  let '(s', got, out) := uart_step s e in
  bytes (read_fifo s') /\ got ++ read_fifo s' = read_fifo s ++ typed [e] /\ out ++ tx s' = tx s ++ sent [e].
Proof.
  intros He Hb. destruct e as [bs|offset n|offset data|]; cbn [uart_step event_ok] in *.
  - unfold push_input, typed, sent. cbn. rewrite !app_nil_r. split_and!; try done. by apply Forall_app.
  - unfold pl011_read. destruct (offset =? UARTDR); [|by cbn; rewrite !app_nil_r].
    destruct (read_fifo s) as [|b rest] eqn:Ef; cbn; rewrite ?Ef, !app_nil_r; [done|].
    apply Forall_cons in Hb as [Hb Hr]. rewrite put_u32_head by done. by split_and!.
  - destruct (pl011_write_streams s offset data) as [-> ->]. unfold typed, sent. cbn. by rewrite !app_nil_r.
  - unfold take_output, typed, sent. cbn. by rewrite !app_nil_r.
Qed.

Lemma uart_run_streams es : forall s,
  Forall event_ok es -> bytes (read_fifo s) ->
  let '(s', got, out) := uart_run s es in
  got ++ read_fifo s' = read_fifo s ++ typed es /\ out ++ tx s' = tx s ++ sent es.
Proof.
  induction es as [|e es IH]; intros s Hes Hb; cbn [uart_run].
  { unfold typed, sent. cbn. by rewrite !app_nil_r. }
  apply Forall_cons in Hes as [He Hes]. pose proof (uart_step_streams s e He Hb) as Hs.
  destruct (uart_step s e) as [[s1 got] out]. destruct Hs as (Hb1 & Hg & Ho).
  specialize (IH s1 Hes Hb1). destruct (uart_run s1 es) as [[s' gots] outs]. destruct IH as [IHg IHo].
  assert (forall f : uart_event -> list Z, concat (f <$> e :: es) = concat (f <$> [e]) ++ concat (f <$> es)) as Hc
    by (intros f; cbn; by rewrite app_nil_r).
  unfold typed, sent in *. rewrite !Hc. rewrite <- !app_assoc, IHg, IHo, !app_assoc, Hg, Ho. done.
Qed.

(** ** Properties of the platform devices *)

(** The bus delivers every access to the one device that owns the address.
    With windows inside the address space and apart, an access inside the window
    of an entry reaches that entry's device at its offset from the window's base,
    whatever else is on the bus and whatever is mapped later, and an access outside
    every window reads zeroes and changes nothing. *)
Theorem bus_routes {D} (rd : D -> Z -> nat -> list Z * D) (wr : D -> Z -> list Z -> D) bus gpa :
  Forall window_ok bus -> windows_apart bus ->
  (forall i e, bus !! i = Some e -> be_base e <= gpa < be_base e + be_size e ->
     forall more, windows_apart (bus ++ more) -> Forall window_ok more ->
     (forall n, mmio_bus_read rd (bus ++ more) gpa n =
        ((rd (be_dev e) (gpa - be_base e) n).1,
         set_dev i (rd (be_dev e) (gpa - be_base e) n).2 (bus ++ more))) /\
     (forall data, mmio_bus_write wr (bus ++ more) gpa data =
        set_dev i (wr (be_dev e) (gpa - be_base e) data) (bus ++ more))) /\
  ((forall e, e ∈ bus -> ~ (be_base e <= gpa < be_base e + be_size e)) ->
     (forall n, mmio_bus_read rd bus gpa n = (replicate n 0, bus)) /\
     (forall data, mmio_bus_write wr bus gpa data = bus)).
Proof.
  intros Hok Hap. split.
  - intros i e Hi Hin more Hap' Hok'.
    assert (bus_find (bus ++ more) gpa = Some (i, be_dev e, gpa - be_base e)) as Hf.
    { apply bus_find_unique; [by apply Forall_app|done| |done].
      rewrite lookup_app_l; [done|]. by eapply lookup_lt_Some. }
    unfold mmio_bus_read, mmio_bus_write. rewrite Hf. split; intros; [|done]. by destruct (rd _ _ _).
  - intros Hno. assert (bus_find bus gpa = None) as Hf.
    { apply bus_find_None. intros e He. specialize (Hno e He).
      rewrite Forall_elem in Hok. apply not_true_iff_false. by rewrite claims_spec by auto. }
    unfold mmio_bus_read, mmio_bus_write. by rewrite Hf.
Qed.

Definition demo_bus : list (BusEntry Pl011) :=
  bus_add 0x9001000 0x1000 (mkPl011 0 0 0 0 0 0 [] [65]) (bus_add 0x9000000 0x1000 pl011_new []).

Lemma bus_routes_witness :
  (mmio_bus_read pl011_read demo_bus 0x9001000 1).1 = [65] /\
  (mmio_bus_read pl011_read demo_bus 0x8000000 2).1 = [0; 0].
Proof.
  assert (Forall window_ok demo_bus) as Hok by (repeat constructor; cbn; lia).
  assert (windows_apart demo_bus) as Hap.
  { intros [|[|i]] [|[|j]] e f Hij He Hf; try done; injection He as <-; injection Hf as <-; cbn; lia. }
  split.
  - destruct (bus_routes pl011_read pl011_write demo_bus 0x9001000 Hok Hap) as [Hr _].
    destruct (Hr 1%nat (mkEntry 0x9001000 0x1000 (mkPl011 0 0 0 0 0 0 [] [65])) eq_refl ltac:(cbn; lia) [])
      as [Hr' _]; [by rewrite app_nil_r|constructor|].
    rewrite app_nil_r in Hr'. by rewrite Hr'.
  - destruct (bus_routes pl011_read pl011_write demo_bus 0x8000000 Hok Hap) as [_ Hn].
    destruct Hn as [Hn _]; [|by rewrite Hn].
    intros e He. repeat (apply elem_of_cons in He as [->|He]; [cbn; lia|]). by apply not_elem_of_nil in He.
Defined.

(** The console loses, repeats and reorders nothing. Over any history of
    keystrokes, register accesses and collections, what the guest read from the
    data register followed by what waits for it is what waited before followed by
    what was typed, and what the host collected followed by what it has yet to
    collect is the same of what the guest sent. *)
Theorem uart_streams_exact es s :
  Forall event_ok es -> bytes (read_fifo s) ->
  let '(s', got, out) := uart_run s es in
  got ++ read_fifo s' = read_fifo s ++ typed es /\ out ++ tx s' = tx s ++ sent es.
Proof. apply uart_run_streams. Qed.

Lemma uart_streams_exact_witness :
  let '(s', got, out) := uart_run pl011_new [Typed [104; 105]; GuestRead 0 4; GuestWrite 0 [33]; Collected] in
  got ++ read_fifo s' = [104; 105] /\ out ++ tx s' = [33].
Proof.
  apply (uart_streams_exact [Typed [104; 105]; GuestRead 0 4; GuestWrite 0 [33]; Collected] pl011_new);
    [|constructor].
  repeat (apply Forall_cons_2; [first [by apply bytesb_bytes | cbn; lia | exact I]|]). constructor.
Defined.

(** The interrupt is pending exactly when the masked status says so, and the
    empty flag is the FIFO's. *)
Lemma uart_interrupt_level s :
  rx_irq_pending s = negb (Z.land (raw_interrupt_status s) (imsc s) =? 0) /\
  Z.testbit (flags s) 4 = bool_decide (read_fifo s = []).
Proof.
  unfold rx_irq_pending, raw_interrupt_status, flags. destruct (read_fifo s) as [|b f].
  - done.
  - rewrite (Z.land_comm (Z.lor _ _)). split; [done|]. by destruct (_ <=? _).
Qed.

Lemma capture_restore s s' : capture (pl011_restore (capture s) s') = capture s.
Proof. done. Qed.

(** Setting the clock works and it then keeps the host's time: after the guest
    loads [v] at host time [h], a read at a later host time gives [v] plus the
    seconds that have passed, up to the last second of the 32-bit register. *)
Theorem rtc_tracks_host v h h' s n :
  is_u32 v -> 0 <= h <= h' -> h' < 2 ^ 62 -> v + (h' - h) < 2 ^ 32 ->
  (pl031_read h' (pl031_write h s RTCLR (le_bytes 4 v)) RTCDR n).1 = put_u32 n (v + (h' - h)).
Proof.
  intros Hv Hh Hh' Hs. unfold pl031_write. cbn [RTCLR Z.eqb Pos.eqb].
  assert (get_u32 (le_bytes 4 v) = v) as ->.
  { unfold get_u32. rewrite length_le_bytes. cbn [Nat.sub replicate].
    rewrite app_nil_r, take_ge, le_val_bytes by (rewrite length_le_bytes; lia).
    apply Z.mod_small. by unfold is_u32 in Hv. }
  unfold pl031_read. cbn [fst]. unfold rtc_now, clamp, sat_add_i64, i64_min, i64_max, is_u32 in *.
  cbn [rtc_offset RTCDR Z.eqb]. f_equal. lia.
Qed.

Lemma rtc_tracks_host_witness :
  (pl031_read 1700000005 (pl031_write 1700000000 pl031_new RTCLR (le_bytes 4 100)) RTCDR 4).1 = put_u32 4 105.
Proof. apply (rtc_tracks_host 100 1700000000 1700000005 pl031_new 4); unfold is_u32; lia. Defined.

(** A cleared match interrupt comes back at the next access although the counter
    has not passed the match value again. *)
Lemma rtc_clear_reasserts :
  let s := mkPl031 0 100 1 1 in
  let s1 := pl031_write 200 s RTCICR (le_bytes 4 1) in
  ris s1 = 0 /\ (pl031_read 200 s1 RTCMIS 4).1 = put_u32 4 1.
Proof. by split. Qed.
