(* ===== verification/CpuIface.v ===== *)
(** * The userspace GICv3 CPU interface

    [UserGic] of [src/hypervisor/src/hvf/mod.rs], the per-vCPU half of the
    software GIC: the pending FIFO, the stack of active interrupts, the wedge
    detector and the [ICC_*] register bookkeeping, with the decoding of a
    trapped system-register access. The fields of the struct are grouped into
    sub-records by what they are for; the distributor, the redistributor frames
    and the other vCPUs are shared and live in [GicMachine]. An [Instant] is a
    number of nanoseconds. *)

From Stdlib Require Import ZArith Lia Bool.
From stdpp Require Import base numbers list list_numbers option sets.
From S2P Require Import Prelude SoftGic.

Definition GICV3_INTID_SPURIOUS : Z := 1023.
Definition VTIMER_PPI : Z := 27.
Definition PSTATE_I : Z := Z.shiftl 1 7.
Definition WEDGE_OVERDUE_DWELL : Z := 10 * 10 ^ 9.
Definition WEDGE_OVERDUE_ENTRIES : Z := 200.
Definition WEDGE_REPORT_LIMIT : Z := 3.
Definition RECOVERED_REPORT_LIMIT : Z := 3.
Definition WEDGE_CLOCK_SKEW_SECONDS : Z := 1.

(** [vtimer_overdue_since], [_entries], [_reported]. *)
Record Overdue := mkOverdue {
  od_since : option Z;
  od_entries : Z;
  od_reported : bool;
}.

(** [wedge_reports], [recovered_reports], [wedge_request_seen]. *)
Record Reports := mkReports {
  wedge_reports : Z;
  recovered_reports : Z;
  wedge_request_seen : Z;
}.

(** [vtimer_deactivations], [leaked]: the fault injector. *)
Record Leak := mkLeak {
  vtimer_deactivations : Z;
  leaked : bool;
}.

(** The last-written control registers. *)
Record Icc := mkIcc {
  icc_pmr : Z;
  icc_bpr1 : Z;
  icc_ctlr : Z;
  icc_igrpen1 : Z;
  icc_sre : Z;
}.

Record UserGic := mkUG {
  g_enabled : bool;
  g_pending : list Z;
  g_active : list Z;
  g_refused : Z;
  g_overdue : Overdue;
  g_reports : Reports;
  g_leak : Leak;
  g_icc : Icc;
  g_redist_index : Z;
  g_gicd_base : Z;
  g_gicr_base : Z;
  g_cpu_table : bool;
}.

Definition no_overdue : Overdue := mkOverdue None 0 false.

Definition usergic_default : UserGic :=
  mkUG false [] [] 0 no_overdue (mkReports 0 0 0) (mkLeak 0 false) (mkIcc 0 0 0 0 0) 0 0 0 false.

Definition set_queues (p a : list Z) (g : UserGic) : UserGic :=
  mkUG (g_enabled g) p a (g_refused g) (g_overdue g) (g_reports g) (g_leak g) (g_icc g)
    (g_redist_index g) (g_gicd_base g) (g_gicr_base g) (g_cpu_table g).
Definition set_refused (n : Z) (g : UserGic) : UserGic :=
  mkUG (g_enabled g) (g_pending g) (g_active g) n (g_overdue g) (g_reports g) (g_leak g) (g_icc g)
    (g_redist_index g) (g_gicd_base g) (g_gicr_base g) (g_cpu_table g).
Definition set_overdue (o : Overdue) (g : UserGic) : UserGic :=
  mkUG (g_enabled g) (g_pending g) (g_active g) (g_refused g) o (g_reports g) (g_leak g) (g_icc g)
    (g_redist_index g) (g_gicd_base g) (g_gicr_base g) (g_cpu_table g).
Definition set_reports (r : Reports) (g : UserGic) : UserGic :=
  mkUG (g_enabled g) (g_pending g) (g_active g) (g_refused g) (g_overdue g) r (g_leak g) (g_icc g)
    (g_redist_index g) (g_gicd_base g) (g_gicr_base g) (g_cpu_table g).
Definition set_leak (l : Leak) (g : UserGic) : UserGic :=
  mkUG (g_enabled g) (g_pending g) (g_active g) (g_refused g) (g_overdue g) (g_reports g) l (g_icc g)
    (g_redist_index g) (g_gicd_base g) (g_gicr_base g) (g_cpu_table g).
Definition set_icc (i : Icc) (g : UserGic) : UserGic :=
  mkUG (g_enabled g) (g_pending g) (g_active g) (g_refused g) (g_overdue g) (g_reports g) (g_leak g) i
    (g_redist_index g) (g_gicd_base g) (g_gicr_base g) (g_cpu_table g).

Definition contains (l : list Z) (x : Z) : bool := existsb (Z.eqb x) l.

(** ** The interrupt queues *)

Definition active_top (g : UserGic) : option Z := list.last (g_active g).
Definition is_active (g : UserGic) (intid : Z) : bool := contains (g_active g) intid.
Definition should_assert (g : UserGic) : bool :=
  match g_pending g, g_active g with _ :: _, [] => true | _, _ => false end.

Definition push_pending (g : UserGic) (intid : Z) : UserGic :=
  if is_active g intid then
    if bool_decide (active_top g = Some intid) then g else set_refused (u64 (g_refused g + 1)) g
  else if contains (g_pending g) intid then g
  else set_queues (g_pending g ++ [intid]) (g_active g) g.

Definition read_iar (g : UserGic) : Z * UserGic :=
  match g_pending g with
  | [] => (GICV3_INTID_SPURIOUS, g)
  | intid :: rest =>
      let g := set_queues rest (g_active g ++ [intid]) g in
      (intid, if intid =? VTIMER_PPI then set_overdue no_overdue g else g)
  end.

(** [leak_at] with the setting [target]. *)
Definition leak_at (g : UserGic) (intid target : Z) : bool * UserGic :=
  if negb (intid =? VTIMER_PPI) then (false, g)
  else
    let n := u64 (vtimer_deactivations (g_leak g) + 1) in
    let g := set_leak (mkLeak n (leaked (g_leak g))) g in
    if negb (n =? target) || leaked (g_leak g) then (false, g)
    else (true, set_leak (mkLeak n true) g).

(** [leak] is the process-wide [CHM_USGIC_LEAK_ACTIVE] setting. *)
Definition leak_this_deactivation (leak : option Z) (g : UserGic) (intid : Z) : bool * UserGic :=
  match leak with
  | None => (false, g)
  | Some target => leak_at g intid target
  end.

(** [iter().rposition]. *)
Fixpoint rposition (x : Z) (l : list Z) : option nat :=
  match l with
  | [] => None
  | y :: l =>
      match rposition x l with
      | Some k => Some (S k)
      | None => if y =? x then Some 0%nat else None
      end
  end.

Definition deactivate (leak : option Z) (g : UserGic) (intid : Z) : UserGic :=
  let '(dropped, g) := leak_this_deactivation leak g intid in
  if dropped then g
  else
    match rposition intid (g_active g) with
    | Some pos => set_queues (g_pending g) (delete pos (g_active g)) g
    | None => g
    end.

Definition write_eoir (leak : option Z) (g : UserGic) (intid : Z) : UserGic :=
  let eoimode := negb (Z.land (Z.shiftr (icc_ctlr (g_icc g)) 1) 1 =? 0) in
  if negb eoimode then deactivate leak g intid else g.

Definition write_dir (leak : option Z) (g : UserGic) (intid : Z) : UserGic := deactivate leak g intid.

Definition vtimer_just_deactivated (g : UserGic) (wrote : option Z) : bool :=
  bool_decide (wrote = Some VTIMER_PPI) && negb (is_active g VTIMER_PPI).

(** ** The wedge detector *)

Definition note_vtimer_overdue (g : UserGic) (now : Z) : bool * UserGic :=
  let o := g_overdue g in
  let since := default now (od_since o) in
  let entries := sat_add64 (od_entries o) 1 in
  if od_reported o then (false, set_overdue (mkOverdue (Some since) entries true) g)
  else
    let crossed := (WEDGE_OVERDUE_ENTRIES <=? entries) && (WEDGE_OVERDUE_DWELL <=? sat_sub now since) in
    (crossed, set_overdue (mkOverdue (Some since) entries crossed) g).

Definition clear_vtimer_overdue (g : UserGic) : UserGic :=
  match od_since (g_overdue g) with
  | Some _ => set_overdue no_overdue g
  | None => g
  end.

Record WedgeFacts := mkFacts {
  active_empty : bool;
  timer_live : bool;
  overdue_by : Z;
  guest_hz : Z;
  irqs_masked : bool;
  vtimer_pending : bool;
}.

Inductive WedgeClass := Fault | Recovered.

(** The arms of the verdict, named by the tag their text opens with. *)
Inductive VerdictText :=
| TGicModel | TGuestIdle | TClock | TRecovered | TGuestMasked | TGuestSide | TUnclassified.

Definition wedge_verdict (f : WedgeFacts) : WedgeClass * VerdictText :=
  let skew_floor := - (guest_hz f * WEDGE_CLOCK_SKEW_SECONDS) in
  if negb (active_empty f) then (Fault, TGicModel)
  else if negb (timer_live f) then (Fault, TGuestIdle)
  else if overdue_by f <? skew_floor then (Fault, TClock)
  else if overdue_by f <? 0 then (Recovered, TRecovered)
  else if irqs_masked f then (Fault, TGuestMasked)
  else if vtimer_pending f then (Fault, TGuestSide)
  else (Fault, TUnclassified).

Definition charge_report (g : UserGic) (class : WedgeClass) : bool * UserGic :=
  let r := g_reports g in
  match class with
  | Fault =>
      if WEDGE_REPORT_LIMIT <=? wedge_reports r then (false, g)
      else (true, set_reports (mkReports (wedge_reports r + 1) (recovered_reports r)
                                (wedge_request_seen r)) g)
  | Recovered =>
      if RECOVERED_REPORT_LIMIT <=? recovered_reports r then (false, g)
      else (true, set_reports (mkReports (wedge_reports r) (recovered_reports r + 1)
                                (wedge_request_seen r)) g)
  end.

Definition all_report_budgets_spent (g : UserGic) : bool :=
  (WEDGE_REPORT_LIMIT <=? wedge_reports (g_reports g)) &&
  (RECOVERED_REPORT_LIMIT <=? recovered_reports (g_reports g)).

(** [usgic_wedge_report_requested] with [want] the request count it loads. *)
Definition wedge_report_requested (g : UserGic) (want : Z) : bool * UserGic :=
  let r := g_reports g in
  if wedge_request_seen r =? want then (false, g)
  else (true, set_reports (mkReports (wedge_reports r) (recovered_reports r) want) g).

(** [usgic_report_wedge]: what is printed, if anything; [ctl], [cval], [now] and
    [cpsr] are the register values it reads. *)
Definition report_wedge (g : UserGic) (ctl cval now cpsr hz : Z) :
    option (WedgeClass * VerdictText) * UserGic :=
  if all_report_budgets_spent g then (None, g)
  else
    let f := mkFacts (match g_active g with [] => true | _ => false end)
               (negb (Z.land ctl 1 =? 0) && (Z.land ctl 2 =? 0)) (now - cval) hz
               (negb (Z.land cpsr PSTATE_I =? 0)) (contains (g_pending g) VTIMER_PPI) in
    let '(class, text) := wedge_verdict f in
    let '(ok, g) := charge_report g class in
    if ok then (Some (class, text), g) else (None, g).

(** ** Routing and decoding *)

Definition resolve_spi_target (affinity : option Z) (n : Z) : Z :=
  match affinity with
  | None => 0
  | Some aff => let id := Z.land aff 0xff in if id <? n then id else 0
  end.

Definition sgi_targets_core (sgi self_id cand_id : Z) : bool :=
  let irm_all_but_self := negb (Z.land (Z.shiftr sgi 40) 1 =? 0) in
  if irm_all_but_self then negb (cand_id =? self_id)
  else
    let target_list := Z.land sgi 0xffff in
    (cand_id <? 16) && negb (Z.land (Z.shiftr target_list cand_id) 1 =? 0).

Definition RDIST_FRAME : Z := 0x20000.

(** The frame and offset an address falls in, given the number of frames. *)
Definition redist_frame (g : UserGic) (frames ipa : Z) : option (Z * Z) :=
  if g_gicr_base g =? 0 then None
  else if g_gicr_base g <? u64 (g_redist_index g * RDIST_FRAME) then None
  else
    let region := g_gicr_base g - u64 (g_redist_index g * RDIST_FRAME) in
    let span := u64 (frames * RDIST_FRAME) in
    if (ipa <? region) || (u64 (region + span) <=? ipa) then None
    else let off := ipa - region in Some (off / RDIST_FRAME, off mod RDIST_FRAME).

(** The trait [Reg32] and the two models that implement it. *)
Class Reg32 (R : Type) := {
  read32 : R -> Z -> Z;
  write32 : R -> Z -> Z -> R;
}.
#[export] Instance dist_reg32 : Reg32 Distributor := {| read32 := dist_read; write32 := dist_write |}.
#[export] Instance redist_reg32 : Reg32 Redistributor :=
  {| read32 := redist_read; write32 := redist_write |}.

Definition access_32bit_model `{Reg32 R} (model : R) (off : Z) (is_write : bool)
    (write_val access : Z) : Z * R :=
  if is_write then
    if access =? 8 then
      (0, write32 (write32 model off (u32 write_val)) (u64 (off + 4)) (u32 (Z.shiftr write_val 32)))
    else (0, write32 model off (u32 write_val))
  else if access =? 8 then
    (Z.lor (read32 model off) (Z.shiftl (read32 model (u64 (off + 4))) 32), model)
  else (read32 model off, model).

(** ** The trapped [ICC_*] registers *)

Record Iss := mkIss {
  iss_read : bool;
  iss_rt : Z;
  iss_op0 : Z;
  iss_op1 : Z;
  iss_key : Z * Z * Z;
}.

(** The fields of the syndrome: [key] is [(crn, crm, op2)]. *)
Definition decode_iss (esr : Z) : Iss :=
  let iss := Z.land esr 0x1ffffff in
  let crm := Z.land (Z.shiftr iss 1) 0xf in
  let rt := Z.land (Z.shiftr iss 5) 0x1f in
  let crn := Z.land (Z.shiftr iss 10) 0xf in
  let op1 := Z.land (Z.shiftr iss 14) 0x7 in
  let op2 := Z.land (Z.shiftr iss 17) 0x7 in
  let op0 := Z.land (Z.shiftr iss 20) 0x3 in
  mkIss (Z.land iss 1 =? 1) rt op0 op1 (crn, crm, op2).

(** A match arm on [(crn, crm, op2)]. *)
Definition arm (key : Z * Z * Z) (crn crm op2 : Z) : bool :=
  let '(a, b, c) := key in (a =? crn) && (b =? crm) && (c =? op2).

(** A register read: the value and the new state. *)
Definition icc_read (g : UserGic) (key : Z * Z * Z) : Z * UserGic :=
  if arm key 12 12 0 || arm key 12 8 0 then read_iar g
  else if arm key 12 12 2 || arm key 12 8 2 then
    (default GICV3_INTID_SPURIOUS (head (g_pending g)), g)
  else if arm key 4 6 0 then (icc_pmr (g_icc g), g)
  else if arm key 12 12 3 then (icc_bpr1 (g_icc g), g)
  else if arm key 12 12 4 then (icc_ctlr (g_icc g), g)
  else if arm key 12 12 5 then (Z.lor (icc_sre (g_icc g)) 1, g)
  else if arm key 12 12 7 then (icc_igrpen1 (g_icc g), g)
  else if arm key 12 11 3 then (match g_active g with [] => 0xff | _ => 0 end, g)
  else (0, g).

(** A register write: the new state, whether to re-arm the timer, and the
    value of an [ICC_SGI1R] write. *)
Definition icc_write (leak : option Z) (g : UserGic) (key : Z * Z * Z) (val : Z) :
    UserGic * bool * option Z :=
  let i := g_icc g in
  let wrote := Z.land val 0xffffff in
  if arm key 12 12 1 || arm key 12 8 1 then
    let g := write_eoir leak g wrote in (g, vtimer_just_deactivated g (Some wrote), None)
  else if arm key 12 11 1 then
    let g := write_dir leak g wrote in (g, vtimer_just_deactivated g (Some wrote), None)
  else if arm key 12 11 5 then (g, false, Some val)
  else if arm key 4 6 0 then
    (set_icc (mkIcc val (icc_bpr1 i) (icc_ctlr i) (icc_igrpen1 i) (icc_sre i)) g, false, None)
  else if arm key 12 12 3 then
    (set_icc (mkIcc (icc_pmr i) val (icc_ctlr i) (icc_igrpen1 i) (icc_sre i)) g, false, None)
  else if arm key 12 12 4 then
    (set_icc (mkIcc (icc_pmr i) (icc_bpr1 i) val (icc_igrpen1 i) (icc_sre i)) g, false, None)
  else if arm key 12 12 5 then
    (set_icc (mkIcc (icc_pmr i) (icc_bpr1 i) (icc_ctlr i) (icc_igrpen1 i) (Z.lor val 1)) g, false, None)
  else if arm key 12 12 7 then
    (set_icc (mkIcc (icc_pmr i) (icc_bpr1 i) (icc_ctlr i) val (icc_sre i)) g, false, None)
  else (g, false, None).

Definition seed_icc_reg (g : UserGic) (r : Z * Z) : UserGic :=
  let '(reg, v) := r in
  let i := g_icc g in
  if reg =? 0xc230 then set_icc (mkIcc v (icc_bpr1 i) (icc_ctlr i) (icc_igrpen1 i) (icc_sre i)) g
  else if reg =? 0xc663 then set_icc (mkIcc (icc_pmr i) v (icc_ctlr i) (icc_igrpen1 i) (icc_sre i)) g
  else if reg =? 0xc664 then set_icc (mkIcc (icc_pmr i) (icc_bpr1 i) v (icc_igrpen1 i) (icc_sre i)) g
  else if reg =? 0xc665 then set_icc (mkIcc (icc_pmr i) (icc_bpr1 i) (icc_ctlr i) (icc_igrpen1 i) v) g
  else if reg =? 0xc667 then set_icc (mkIcc (icc_pmr i) (icc_bpr1 i) (icc_ctlr i) v (icc_sre i)) g
  else g.

Definition usgic_seed_icc (g : UserGic) (icc : list (Z * Z)) : UserGic := foldl seed_icc_reg g icc.

(** ** Checkpoints of the in-flight interrupts *)

Record UsgicCheckpoint := mkUsgicCp {
  cp_dist : Distributor;
  cp_redist : Redistributor;
  cp_pending : list Z;
  cp_active : option Z;
  cp_active_stack : list Z;
}.

Definition active_stack (c : UsgicCheckpoint) : list Z :=
  match cp_active_stack c with
  | [] => match cp_active c with Some i => [i] | None => [] end
  | s => s
  end.

(** The ICC registers a checkpoint records. *)
Definition captured_icc (g : UserGic) : list (Z * Z) :=
  [(0xc230, icc_pmr (g_icc g)); (0xc663, icc_bpr1 (g_icc g)); (0xc664, icc_ctlr (g_icc g));
   (0xc665, icc_sre (g_icc g)); (0xc667, icc_igrpen1 (g_icc g))].

(** ** Facts about the queues *)

Lemma contains_spec l x : contains l x = true <-> x ∈ l.
Proof.
  unfold contains. rewrite existsb_exists. setoid_rewrite <- list_elem_of_In. split.
  - intros (y & Hy & <-%Z.eqb_eq). done.
  - intros Hx. exists x. by rewrite Z.eqb_refl.
Qed.

Lemma contains_false l x : contains l x = false <-> x ∉ l.
Proof. rewrite <- contains_spec. by destruct (contains l x). Qed.

Lemma rposition_None x l : rposition x l = None <-> x ∉ l.
Proof.
  induction l as [|y l IH]; cbn [rposition]; [split; [intros _; apply not_elem_of_nil|done]|].
  rewrite not_elem_of_cons. destruct (rposition x l) as [k|].
  - split; [done|]. intros [_ Hn]. by apply IH in Hn.
  - destruct (Z.eqb_spec y x) as [->|Hne]; [split; [done|by intros [? _]]|].
    split; [intros _; split; [congruence|by apply IH]|done].
Qed.

Lemma rposition_Some x l k : rposition x l = Some k -> l !! k = Some x.
Proof.
  revert k. induction l as [|y l IH]; intros k; cbn [rposition]; [done|].
  destruct (rposition x l) as [j|]; [intros [= <-]; by apply IH|].
  destruct (Z.eqb_spec y x) as [->|]; [by intros [= <-]|done].
Qed.

Lemma elem_of_delete l k (x y : Z) :
  NoDup l -> l !! k = Some x -> y ∈ delete k l <-> y ∈ l /\ y <> x.
Proof.
  intros Hn Hk. rewrite <- (take_drop_middle l k x Hk) in Hn |- * at 2.
  rewrite delete_take_drop. apply list.NoDup_app in Hn as (_ & Hd & Hn).
  inversion Hn as [|? ? Hx _]; subst. rewrite !elem_of_app, elem_of_cons.
  assert (x ∉ take k l) by (intros H; apply (Hd x H); by left). set_solver.
Qed.

Lemma NoDup_delete (l : list Z) k : NoDup l -> NoDup (delete k l).
Proof. intros Hn. apply (sublist_NoDup _ l); [done|apply sublist_delete]. Qed.

(** ** The invariant of the interface

    An INTID is pending or active at most once, and never both. *)
Definition queues_wf (g : UserGic) : Prop := NoDup (g_pending g ++ g_active g).

Definition in_service (g : UserGic) (intid : Z) : Prop := intid ∈ g_pending g ++ g_active g.

Lemma push_pending_spec g i :
  queues_wf g ->
  queues_wf (push_pending g i) /\ g_active (push_pending g i) = g_active g /\
  g_pending (push_pending g i) =
    (if is_active g i || contains (g_pending g) i then g_pending g else g_pending g ++ [i]) /\
  (forall j, in_service (push_pending g i) j <-> j = i \/ in_service g j).
Proof.
  intros Hq. unfold push_pending, in_service. destruct (is_active g i) eqn:Ea; cbn [orb].
  { apply contains_spec in Ea. assert (forall j, j ∈ g_pending g ++ g_active g <->
      j = i \/ j ∈ g_pending g ++ g_active g) by set_solver.
    destruct (bool_decide _); done. }
  apply contains_false in Ea. destruct (contains (g_pending g) i) eqn:Ep.
  { apply contains_spec in Ep. split_and!; try done. set_solver. }
  apply contains_false in Ep. split_and!; try done; [|cbn; set_solver].
  unfold queues_wf in *. cbn. rewrite <- app_assoc. apply list.NoDup_app in Hq as (H1 & H2 & H3).
  apply list.NoDup_app. split_and!; [done| |].
  - intros x Hx. cbn. rewrite not_elem_of_cons. split; [congruence|by apply H2].
  - cbn. constructor; done.
Qed.

Lemma read_iar_spec g :
  queues_wf g ->
  queues_wf (read_iar g).2 /\ (forall j, in_service (read_iar g).2 j <-> in_service g j) /\
  match g_pending g with
  | [] => read_iar g = (GICV3_INTID_SPURIOUS, g)
  | i :: rest => (read_iar g).1 = i /\ g_pending (read_iar g).2 = rest /\
      g_active (read_iar g).2 = g_active g ++ [i]
  end.
Proof.
  intros Hq. unfold read_iar, in_service, queues_wf in *. destruct (g_pending g) as [|i rest] eqn:Ep.
  { cbn [fst snd]. by rewrite Ep. }
  cbn [fst snd]. assert (forall h, g_pending (if i =? VTIMER_PPI then set_overdue no_overdue h else h)
    = g_pending h /\ g_active (if i =? VTIMER_PPI then set_overdue no_overdue h else h) = g_active h)
    as Hif by (intros h; by destruct (i =? VTIMER_PPI)).
  destruct (Hif (set_queues rest (g_active g ++ [i]) g)) as [-> ->]. cbn [set_queues g_pending g_active].
  split; [|split; [set_solver|done]].
  apply (NoDup_Permutation_proper _ ((i :: rest) ++ g_active g)); [|done].
  rewrite app_assoc. cbn. symmetry. apply Permutation_cons_append.
Qed.

Lemma leak_keeps leak g i :
  g_pending (leak_this_deactivation leak g i).2 = g_pending g /\
  g_active (leak_this_deactivation leak g i).2 = g_active g /\
  g_icc (leak_this_deactivation leak g i).2 = g_icc g /\
  (i <> VTIMER_PPI \/ leak = None -> (leak_this_deactivation leak g i).1 = false).
Proof.
  unfold leak_this_deactivation, leak_at. destruct leak as [t|]; [|done].
  destruct (Z.eqb_spec i VTIMER_PPI); cbn [negb]; [|done]. case_match; cbn; split_and!; try done.
  by intros [?|?].
Qed.

Lemma deactivate_spec leak g i :
  queues_wf g ->
  queues_wf (deactivate leak g i) /\ g_pending (deactivate leak g i) = g_pending g /\
  (forall j, in_service (deactivate leak g i) j -> in_service g j) /\
  (forall j, j <> i -> j ∈ g_active (deactivate leak g i) <-> j ∈ g_active g) /\
  (i <> VTIMER_PPI \/ leak = None -> i ∉ g_active (deactivate leak g i)).
Proof.
  intros Hq. destruct (leak_keeps leak g i) as (Ep & Ea & _ & Hl). unfold deactivate.
  destruct (leak_this_deactivation leak g i) as [dropped g1]. cbn [fst snd] in *.
  unfold queues_wf, in_service in *. rewrite <- Ep, <- Ea in Hq |- *.
  destruct dropped; [split_and!; try done; by intros ?%Hl|].
  destruct (rposition i (g_active g1)) as [k|] eqn:Ek.
  2:{ apply rposition_None in Ek. by split_and!. }
  apply rposition_Some in Ek. cbn. apply list.NoDup_app in Hq as (H1 & H2 & H3).
  pose proof (fun y => elem_of_delete (g_active g1) k i y H3 Ek) as Hd.
  split_and!; try done.
  - apply list.NoDup_app. split_and!; [done| |by apply NoDup_delete].
    intros x Hx Hin. by apply Hd in Hin as [Hin _]; apply (H2 x).
  - intros j. rewrite !elem_of_app, Hd. tauto.
  - intros j Hj. rewrite Hd. tauto.
  - intros _ Hin. apply Hd in Hin. tauto.
Qed.

(** What a trapped access leaves unchanged: the wiring, and the timer interrupt
    stays in service unless the write re-arms the timer. *)
Lemma icc_read_keeps g key :
  queues_wf g ->
  queues_wf (icc_read g key).2 /\ g_redist_index (icc_read g key).2 = g_redist_index g /\
  (forall j, in_service (icc_read g key).2 j <-> in_service g j).
Proof.
  intros Hq. destruct (read_iar_spec g Hq) as (H1 & H2 & _).
  assert (g_redist_index (read_iar g).2 = g_redist_index g) as H3.
  { unfold read_iar. destruct (g_pending g); [done|]. cbn. by case_match. }
  unfold icc_read. repeat (case_match; [done|]). done.
Qed.

Lemma deactivate_index leak g i : g_redist_index (deactivate leak g i) = g_redist_index g.
Proof.
  unfold deactivate, leak_this_deactivation, leak_at. repeat (case_match; simplify_eq/=); done.
Qed.

Lemma deactivate_vtimer leak g i :
  queues_wf g -> in_service g VTIMER_PPI ->
  vtimer_just_deactivated (deactivate leak g i) (Some i) = true \/
  in_service (deactivate leak g i) VTIMER_PPI.
Proof.
  intros Hq Hs. destruct (deactivate_spec leak g i Hq) as (_ & Hp & _ & Ha & _).
  unfold vtimer_just_deactivated. destruct (decide (i = VTIMER_PPI)) as [->|Hne].
  - rewrite bool_decide_eq_true_2 by done. cbn [andb].
    destruct (is_active (deactivate leak g VTIMER_PPI) VTIMER_PPI) eqn:E; [right|by left].
    apply contains_spec in E. apply elem_of_app. by right.
  - right. unfold in_service in *. rewrite Hp. apply elem_of_app in Hs as [Hs|Hs];
      apply elem_of_app; [by left|right]. by apply Ha.
Qed.

Lemma icc_write_keeps leak g key val :
  queues_wf g ->
  let '(g', rearm, _) := icc_write leak g key val in
  queues_wf g' /\ g_redist_index g' = g_redist_index g /\
  (in_service g VTIMER_PPI -> rearm = true \/ in_service g' VTIMER_PPI).
Proof.
  intros Hq. unfold icc_write, write_eoir, write_dir. cbv zeta.
  assert (forall i, queues_wf (deactivate leak g i)) as Hd by (intros i; by apply deactivate_spec).
  destruct (arm key 12 12 1 || arm key 12 8 1).
  { destruct (negb (negb _)); [|by auto]. split_and!; [done|apply deactivate_index|].
    intros. by apply deactivate_vtimer. }
  destruct (arm key 12 11 1).
  { split_and!; [done|apply deactivate_index|]. intros. by apply deactivate_vtimer. }
  destruct (arm key 12 11 5), (arm key 4 6 0), (arm key 12 12 3), (arm key 12 12 4),
    (arm key 12 12 5), (arm key 12 12 7); by auto.
Qed.
