(* ===== verification/GicMachine.v ===== *)
(** * The software GIC of a whole VM

    The vCPUs of [src/hypervisor/src/hvf/mod.rs] ([HvfVcpu]) as far as
    interrupts are concerned: every vCPU's [UserGic], its cross-thread
    injection queue, its raw IRQ line, HVF's mask on its virtual timer, its
    general registers and PC, over the one shared distributor and the shared
    redistributor frames. Each function is one critical section of the code,
    run by the vCPU [id] or, for [deliver_spi], by a device thread. The
    hypervisor calls are modelled by the state they set; they succeed. *)

From Stdlib Require Import ZArith Lia Bool.
From stdpp Require Import base numbers list list_numbers option sets relations.
From S2P Require Import Prelude SoftGic CpuIface.

Record Vcpu := mkVcpu {
  v_gic : UserGic;
  v_inject : list Z;
  v_irq : bool;
  v_vtmask : bool;
  v_x : list Z;
  v_pc : Z;
}.

Record Machine := mkMachine {
  m_dist : Distributor;
  m_redists : list Redistributor;
  m_cpus : list Vcpu;
}.

Definition set_gic (g : UserGic) (c : Vcpu) : Vcpu :=
  mkVcpu g (v_inject c) (v_irq c) (v_vtmask c) (v_x c) (v_pc c).
Definition set_inject (q : list Z) (c : Vcpu) : Vcpu :=
  mkVcpu (v_gic c) q (v_irq c) (v_vtmask c) (v_x c) (v_pc c).
Definition set_irq_line (b : bool) (c : Vcpu) : Vcpu :=
  mkVcpu (v_gic c) (v_inject c) b (v_vtmask c) (v_x c) (v_pc c).
Definition set_vtmask (b : bool) (c : Vcpu) : Vcpu :=
  mkVcpu (v_gic c) (v_inject c) (v_irq c) b (v_x c) (v_pc c).
Definition set_x (rt v : Z) (c : Vcpu) : Vcpu :=
  mkVcpu (v_gic c) (v_inject c) (v_irq c) (v_vtmask c) (vset rt v (v_x c)) (v_pc c).
Definition advance_pc (c : Vcpu) : Vcpu :=
  mkVcpu (v_gic c) (v_inject c) (v_irq c) (v_vtmask c) (v_x c) (u64 (v_pc c + 4)).

Definition set_dist (d : Distributor) (m : Machine) : Machine :=
  mkMachine d (m_redists m) (m_cpus m).
Definition set_redist (i : Z) (r : Redistributor) (m : Machine) : Machine :=
  mkMachine (m_dist m) (vset i r (m_redists m)) (m_cpus m).
Definition set_cpu (id : Z) (c : Vcpu) (m : Machine) : Machine :=
  mkMachine (m_dist m) (m_redists m) (vset id c (m_cpus m)).

Definition get_cpu (m : Machine) (id : Z) : res unit Vcpu :=
  match vget (m_cpus m) id with Some c => Ok c | None => Panic end.

(** [self.redists[self.redist_index]]. *)
Definition my_redist (m : Machine) (g : UserGic) : res unit Redistributor :=
  match vget (m_redists m) (g_redist_index g) with Some r => Ok r | None => Panic end.

(** Whether the interrupt is enabled for the vCPU; an SPI is also latched
    pending in the shared distributor. *)
Definition gate (m : Machine) (g : UserGic) (intid : Z) : res unit (bool * Machine) :=
  if intid <? 32 then r ← my_redist m g; Ok (is_ppi_enabled r intid, m)
  else '(en, d) ← assert_spi (m_dist m) intid; Ok (en, set_dist d m).

Definition usgic_assert_spi (m : Machine) (id intid : Z) : res unit Machine :=
  c ← get_cpu m id;
  if negb (g_enabled (v_gic c)) then Ok m
  else
    '(en, m) ← gate m (v_gic c) intid;
    if en : bool then
      Ok (set_cpu id (set_irq_line true (set_gic (push_pending (v_gic c) intid) c)) m)
    else Ok m.

Definition usgic_inject (m : Machine) (id intid : Z) : res unit Machine :=
  c ← get_cpu m id;
  if negb (g_enabled (v_gic c)) then Ok m
  else Ok (set_cpu id (set_irq_line true (set_gic (push_pending (v_gic c) intid) c)) m).

(** One queued INTID of the drain. *)
Definition drain_one (m : Machine) (g : UserGic) (intid : Z) : res unit (Machine * UserGic) :=
  '(en, m) ← (if 8192 <=? intid then Ok (true, m) else gate m g intid);
  Ok (m, if en : bool then push_pending g intid else g).

Fixpoint drain_loop (m : Machine) (g : UserGic) (queued : list Z) : res unit (Machine * UserGic) :=
  match queued with
  | [] => Ok (m, g)
  | intid :: queued => '(m, g) ← drain_one m g intid; drain_loop m g queued
  end.

Definition usgic_drain_injected (m : Machine) (id : Z) : res unit Machine :=
  c ← get_cpu m id;
  match v_inject c with
  | [] => Ok m
  | queued =>
      let c := set_inject [] c in
      if negb (g_enabled (v_gic c)) then Ok (set_cpu id c m)
      else '(m, g) ← drain_loop m (v_gic c) queued; Ok (set_cpu id (set_gic g c) m)
  end.

(** The push of an INTID into another vCPU's queue. *)
Definition push_inject (intid : Z) (c : Vcpu) : Vcpu := set_inject (v_inject c ++ [intid]) c.

(** The loop over the delivery table: vCPU [id]'s entry is its queue. *)
Definition sgi_deliver (sgi self_id intid : Z) (cpus : list Vcpu) : list Vcpu :=
  imap (fun id c => if sgi_targets_core sgi self_id (Z.of_nat id) then push_inject intid c else c) cpus.

Definition usgic_route_sgi (m : Machine) (id sgi : Z) : res unit Machine :=
  let intid := Z.land (Z.shiftr sgi 24) 0xf in
  c ← get_cpu m id;
  if negb (g_cpu_table (v_gic c)) then usgic_inject m id intid
  else Ok (mkMachine (m_dist m) (m_redists m) (sgi_deliver sgi id intid (m_cpus m))).

(** [UsgicSpiRouter::deliver_spi], from any thread. *)
Definition deliver_spi (m : Machine) (intid : Z) : Machine :=
  let target :=
    resolve_spi_target (spi_target_affinity (m_dist m) intid) (Z.of_nat (length (m_cpus m))) in
  match vget (m_cpus m) target with
  | Some c => set_cpu target (push_inject intid c) m
  | None => m
  end.

Definition usgic_mmio (m : Machine) (id ipa : Z) (is_write : bool) (write_val access : Z) :
    res unit (option Z * Machine) :=
  c ← get_cpu m id;
  let g := v_gic c in
  if negb (g_gicd_base g =? 0) && (g_gicd_base g <=? ipa) && (ipa <? u64 (g_gicd_base g + 0x10000)) then
    let '(v, d) := access_32bit_model (m_dist m) (ipa - g_gicd_base g) is_write write_val access in
    Ok (Some v, set_dist d m)
  else
    match redist_frame g (Z.of_nat (length (m_redists m))) ipa with
    | Some (frame, off) =>
        match vget (m_redists m) frame with
        | Some r =>
            let '(v, r) := access_32bit_model r off is_write write_val access in
            Ok (Some v, set_redist frame r m)
        | None => Panic
        end
    | None => Ok (None, m)
    end.

(** [false] when the register is not of the CPU interface. *)
Definition handle_icc_trap (leak : option Z) (m : Machine) (id esr : Z) : res unit (bool * Machine) :=
  let s := decode_iss esr in
  if negb (iss_op0 s =? 3) || negb (iss_op1 s =? 0) then Ok (false, m)
  else
    c ← get_cpu m id;
    m ← (if iss_read s then
           let '(val, g) := icc_read (v_gic c) (iss_key s) in
           let c := set_gic g c in
           let c := if iss_rt s <? 31 then set_x (iss_rt s) val c else c in
           let c := if negb (should_assert g) then set_irq_line false c else c in
           Ok (set_cpu id c m)
         else
           let val := if iss_rt s =? 31 then 0 else default 0 (vget (v_x c) (iss_rt s)) in
           let '(g, rearm, sgi) := icc_write leak (v_gic c) (iss_key s) val in
           let c := set_gic g c in
           let m := set_cpu id (if rearm : bool then set_vtmask false c else c) m in
           match sgi with Some sgi => usgic_route_sgi m id sgi | None => Ok m end);
    c ← get_cpu m id;
    Ok (true, set_cpu id (advance_pc c) m).

(** [HV_EXIT_REASON_VTIMER_ACTIVATED] of a vCPU on this interface: HVF has
    masked the timer. *)
Definition vtimer_exit (m : Machine) (id : Z) : res unit Machine :=
  c ← get_cpu m id;
  usgic_assert_spi (set_cpu id (set_vtmask true c) m) id VTIMER_PPI.

(** The values a run entry reads from the vCPU and the host. *)
Record Readings := mkReadings {
  rd_ctl : Z;
  rd_cval : Z;
  rd_cntvct : Z;
  rd_cpsr : Z;
  rd_hz : Z;
  rd_now : Z;
  rd_requests : Z;
}.

Definition upd_gic (m : Machine) (id : Z) (f : UserGic -> UserGic) : res unit Machine :=
  c ← get_cpu m id; Ok (set_cpu id (set_gic (f (v_gic c)) c) m).

Definition report (rd : Readings) (g : UserGic) : UserGic :=
  (report_wedge g (rd_ctl rd) (rd_cval rd) (rd_cntvct rd) (rd_cpsr rd) (rd_hz rd)).2.

Definition usgic_poll_vtimer (m : Machine) (id : Z) (rd : Readings) : res unit Machine :=
  c ← get_cpu m id;
  if negb (g_enabled (v_gic c)) then Ok m
  else if (Z.land (rd_ctl rd) 1 =? 0) || negb (Z.land (rd_ctl rd) 2 =? 0) then Ok m
  else if rd_cval rd <=? rd_cntvct rd then
    m ← usgic_assert_spi m id VTIMER_PPI;
    upd_gic m id (fun g =>
      let '(crossed, g) := note_vtimer_overdue g (rd_now rd) in
      if crossed : bool then report rd g else g)
  else upd_gic m id clear_vtimer_overdue.

Definition usgic_refresh_irq_line (m : Machine) (id : Z) : res unit Machine :=
  c ← get_cpu m id;
  if negb (g_enabled (v_gic c)) then Ok m
  else if should_assert (v_gic c) then Ok (set_cpu id (set_irq_line true c) m)
  else Ok m.

(** What [run] does before it enters the guest. *)
Definition run_entry (m : Machine) (id : Z) (rd : Readings) : res unit Machine :=
  m ← usgic_drain_injected m id;
  m ← upd_gic m id (fun g =>
        let '(requested, g) := wedge_report_requested g (rd_requests rd) in
        if requested : bool then report rd g else g);
  m ← usgic_poll_vtimer m id rd;
  usgic_refresh_irq_line m id.

(** ** Wiring *)

Definition set_usgic_enabled (m : Machine) (id : Z) (on : bool) : res unit Machine :=
  upd_gic m id (fun g =>
    mkUG on (g_pending g) (g_active g) (g_refused g) (g_overdue g) (g_reports g) (g_leak g) (g_icc g)
      (g_redist_index g) (g_gicd_base g) (g_gicr_base g) (g_cpu_table g)).

Definition usgic_set_cpu_table (m : Machine) (id : Z) : res unit Machine :=
  upd_gic m id (fun g =>
    mkUG (g_enabled g) (g_pending g) (g_active g) (g_refused g) (g_overdue g) (g_reports g) (g_leak g)
      (g_icc g) (g_redist_index g) (g_gicd_base g) (g_gicr_base g) true).

Definition usgic_set_gic_bases (m : Machine) (id gicd_base gicr_base : Z) : res unit Machine :=
  upd_gic m id (fun g =>
    mkUG (g_enabled g) (g_pending g) (g_active g) (g_refused g) (g_overdue g) (g_reports g) (g_leak g)
      (g_icc g) (g_redist_index g) gicd_base gicr_base (g_cpu_table g)).

Definition usgic_set_redist_identity (m : Machine) (id cpu : Z) (lst : bool) : res unit Machine :=
  c ← get_cpu m id;
  r ← my_redist m (v_gic c);
  Ok (set_redist (g_redist_index (v_gic c)) (set_identity r cpu lst) m).

(** ** Checkpoints *)

Definition capture_usgic (m : Machine) (id : Z) : res unit UsgicCheckpoint :=
  c ← get_cpu m id;
  r ← my_redist m (v_gic c);
  Ok (mkUsgicCp (m_dist m) r (g_pending (v_gic c)) (list.last (g_active (v_gic c)))
        (g_active (v_gic c))).

Definition usgic_restore_softgic (m : Machine) (id : Z) (cp : UsgicCheckpoint) : res unit Machine :=
  c ← get_cpu m id;
  _ ← my_redist m (v_gic c);
  let m := set_redist (g_redist_index (v_gic c)) (cp_redist cp) (set_dist (cp_dist cp) m) in
  Ok (set_cpu id (set_gic (set_queues (cp_pending cp) (active_stack cp) (v_gic c)) c) m).

Definition usgic_seed_gic (m : Machine) (id : Z) (dist_regs redist_regs : list (Z * Z)) :
    res unit Machine :=
  c ← get_cpu m id;
  r ← my_redist m (v_gic c);
  Ok (set_redist (g_redist_index (v_gic c)) (redist_seed_from_kvm r redist_regs)
        (set_dist (dist_seed_from_kvm (m_dist m) dist_regs) m)).

(** ** The invariant *)

Definition cpu_wf (frames : Z) (c : Vcpu) : Prop :=
  queues_wf (v_gic c) /\ 0 <= g_redist_index (v_gic c) < frames /\
  Forall (fun i => 0 <= i) (v_inject c) /\
  (v_vtmask c = true -> in_service (v_gic c) VTIMER_PPI).

Definition machine_wf (m : Machine) : Prop :=
  dist_wf (m_dist m) /\ Forall (cpu_wf (Z.of_nat (length (m_redists m)))) (m_cpus m).

(** [m'] is the machine after an operation. *)
Definition after (m m' : Machine) : Prop :=
  machine_wf m' /\ length (m_cpus m') = length (m_cpus m) /\
  length (m_redists m') = length (m_redists m).

Definition safe (m : Machine) (r : res unit Machine) : Prop := exists m', r = Ok m' /\ after m m'.

Lemma after_trans m1 m2 m3 : after m1 m2 -> after m2 m3 -> after m1 m3.
Proof. intros (? & ? & ?) (? & ? & ?). split; [done|split; congruence]. Qed.

Lemma after_refl m : machine_wf m -> after m m.
Proof. done. Qed.

Lemma get_cpu_ok m id c :
  machine_wf m -> vget (m_cpus m) id = Some c ->
  get_cpu m id = Ok c /\ cpu_wf (Z.of_nat (length (m_redists m))) c.
Proof.
  intros [_ Hc] Hv. unfold get_cpu. rewrite Hv. split; [done|]. by eapply Forall_vget.
Qed.

Lemma set_cpu_after m id c :
  machine_wf m -> cpu_wf (Z.of_nat (length (m_redists m))) c -> after m (set_cpu id c m).
Proof.
  intros [Hd Hc] Hw. split; [|cbn; by rewrite length_vset]. split; [done|]. cbn.
  by apply Forall_vset.
Qed.

Lemma set_dist_after m d : machine_wf m -> dist_wf d -> after m (set_dist d m).
Proof. by intros [_ Hc] Hd. Qed.

Lemma set_redist_after m i r : machine_wf m -> after m (set_redist i r m).
Proof.
  intros [Hd Hc]. unfold after, machine_wf. cbn. by rewrite length_vset.
Qed.

Lemma push_pending_index g i : g_redist_index (push_pending g i) = g_redist_index g.
Proof. unfold push_pending. by repeat case_match. Qed.

Lemma push_pending_cpu n c i :
  cpu_wf n c -> cpu_wf n (set_gic (push_pending (v_gic c) i) c).
Proof.
  intros (Hq & Hi & Hj & Hm). destruct (push_pending_spec (v_gic c) i Hq) as (Hq' & _ & _ & Hs).
  split_and!; cbn; try done; rewrite ?push_pending_index; try lia.
  intros Hmask. apply Hs. right. by apply Hm.
Qed.

Lemma set_irq_cpu n c b : cpu_wf n c -> cpu_wf n (set_irq_line b c).
Proof. done. Qed.

Lemma gate_spec m g i :
  machine_wf m -> 0 <= g_redist_index g < Z.of_nat (length (m_redists m)) -> 0 <= i ->
  exists en m', gate m g i = Ok (en, m') /\ after m m' /\ m_cpus m' = m_cpus m /\
    m_redists m' = m_redists m /\
    (i < 32 -> exists r, vget (m_redists m) (g_redist_index g) = Some r /\
       en = is_ppi_enabled r i).
Proof.
  intros Hm Hg Hi. unfold gate, my_redist. destruct (Z.ltb_spec i 32).
  - destruct (vget_lt (m_redists m) (g_redist_index g) Hg) as (r & Hr). rewrite Hr. cbn.
    eexists _, _. split_and!; eauto using after_refl.
  - destruct Hm as [Hd Hc]. rewrite (assert_spi_ok (m_dist m) i Hd Hi). cbn [mbind res_bind_inst].
    eexists _, _. split; [done|]. split_and!; try done; [|lia].
    apply set_dist_after; [done|]. case_match; [|done]. apply field_upd_wf; [|done].
    intros. by rewrite length_vset.
Qed.

Lemma usgic_assert_spi_safe m id c i :
  machine_wf m -> vget (m_cpus m) id = Some c -> 0 <= i -> safe m (usgic_assert_spi m id i).
Proof.
  intros Hm Hc Hi. destruct (get_cpu_ok m id c Hm Hc) as [E Hw]. unfold usgic_assert_spi. rewrite E.
  cbn [mbind res_bind_inst]. destruct (g_enabled (v_gic c)); cbn [negb]; [|by exists m].
  destruct (gate_spec m (v_gic c) i Hm (proj1 (proj2 Hw)) Hi) as (en & m' & Eg & Ha & Ec & Er & _).
  rewrite Eg. cbn [mbind res_bind_inst]. destruct en; eexists; (split; [done|]); [|done].
  eapply after_trans; [done|]. apply set_cpu_after; [apply Ha|]. rewrite Er.
  by apply set_irq_cpu, push_pending_cpu.
Qed.

Lemma usgic_inject_safe m id c i :
  machine_wf m -> vget (m_cpus m) id = Some c -> safe m (usgic_inject m id i).
Proof.
  intros Hm Hc. destruct (get_cpu_ok m id c Hm Hc) as [E Hw]. unfold usgic_inject. rewrite E.
  cbn [mbind res_bind_inst]. destruct (g_enabled (v_gic c)); cbn [negb]; [|by exists m].
  eexists. split; [done|]. apply set_cpu_after; [done|]. by apply set_irq_cpu, push_pending_cpu.
Qed.

(** The drain keeps the queues well-formed and loses nothing in service. *)
Lemma drain_loop_spec q : forall m g,
  machine_wf m -> queues_wf g -> 0 <= g_redist_index g < Z.of_nat (length (m_redists m)) ->
  Forall (fun i => 0 <= i) q ->
  exists m' g', drain_loop m g q = Ok (m', g') /\ after m m' /\ m_cpus m' = m_cpus m /\
    m_redists m' = m_redists m /\ queues_wf g' /\ g_redist_index g' = g_redist_index g /\
    (forall j, in_service g j -> in_service g' j) /\
    (forall i r, i ∈ q -> i < 32 -> vget (m_redists m) (g_redist_index g) = Some r ->
       is_ppi_enabled r i = true -> in_service g' i).
Proof.
  induction q as [|i q IH]; intros m g Hm Hq Hi Hpos; cbn [drain_loop].
  { exists m, g. split_and!; auto using after_refl. intros i r Hin. by apply not_elem_of_nil in Hin. }
  inversion_clear Hpos as [|? ? Hi0 Hpos'].
  assert (exists en m1, (if 8192 <=? i then Ok (true, m) else gate m g i) = Ok (en, m1) /\
    after m m1 /\ m_cpus m1 = m_cpus m /\ m_redists m1 = m_redists m /\
    (i < 32 -> exists r, vget (m_redists m) (g_redist_index g) = Some r /\ en = is_ppi_enabled r i))
    as (en & m1 & E & Ha & Ec & Er & Hen).
  { destruct (Z.leb_spec 8192 i); [|by apply gate_spec].
    exists true, m. split_and!; auto using after_refl. lia. }
  unfold drain_one. rewrite E. cbn [mbind res_bind_inst].
  set (g1 := if en then push_pending g i else g).
  destruct (push_pending_spec g i Hq) as (Hq1 & _ & _ & Hs1).
  assert (queues_wf g1) by (subst g1; by destruct en).
  assert (g_redist_index g1 = g_redist_index g) as Ei
    by (subst g1; destruct en; [apply push_pending_index|done]).
  assert (forall j, in_service g j -> in_service g1 j) as Hs
    by (subst g1; destruct en; [intros j ?; apply Hs1; by right|done]).
  destruct (IH m1 g1) as (m2 & g2 & E2 & Ha2 & Ec2 & Er2 & Hq2 & Ei2 & Hs2 & Hin2);
    [apply Ha|done|by rewrite Ei, Er|done|].
  exists m2, g2. split_and!; try done; try congruence; [by eapply after_trans|auto|].
  intros k r Hk Hk32 Hr Hppi. rewrite Er, Ei in Hin2. apply elem_of_cons in Hk as [->|Hk].
  - apply Hs2. subst g1. destruct (Hen Hk32) as (r' & Hr' & ->). rewrite Hr in Hr'.
    injection Hr' as <-. rewrite Hppi. apply Hs1. by left.
  - by apply (Hin2 k r).
Qed.

(** The cpu an operation on [id] leaves at [id]. *)
Lemma safe_cpu m r id c :
  safe m r -> vget (m_cpus m) id = Some c -> exists m' c', r = Ok m' /\ after m m' /\
    vget (m_cpus m') id = Some c'.
Proof.
  intros (m' & E & Ha) Hc. destruct (vget_lt (m_cpus m') id) as (c' & Hc').
  { rewrite (proj1 (proj2 Ha)). by apply vget_Some in Hc as []. }
  by exists m', c'.
Qed.

Lemma drain_safe m id c :
  machine_wf m -> vget (m_cpus m) id = Some c -> safe m (usgic_drain_injected m id).
Proof.
  intros Hm Hc. destruct (get_cpu_ok m id c Hm Hc) as [E (Hq & Hi & Hj & Hv)].
  unfold usgic_drain_injected. rewrite E. cbn [mbind res_bind_inst].
  destruct (v_inject c) as [|i q] eqn:Ei; [by exists m|]. rewrite <- Ei in *.
  cbn [set_inject v_gic]. destruct (g_enabled (v_gic c)); cbn [negb].
  2:{ eexists. split; [done|]. apply set_cpu_after; [done|].
      split_and!; cbn; try done; try lia. }
  destruct (drain_loop_spec (v_inject c) m (v_gic c) Hm Hq Hi Hj)
    as (m' & g' & E' & Ha & Ec & Er & Hq' & Ei' & Hs & _).
  rewrite E'. cbn [mbind res_bind_inst]. eexists. split; [done|]. eapply after_trans; [done|].
  apply set_cpu_after; [apply Ha|]. rewrite Er. split_and!; cbn; try done; rewrite ?Ei'; try lia.
  intros Hmask. by apply Hs, Hv.
Qed.

Lemma push_inject_cpu n i c : 0 <= i -> cpu_wf n c -> cpu_wf n (push_inject i c).
Proof.
  intros Hi (Hq & Hr & Hj & Hv). split_and!; cbn; try done; try lia.
  apply Forall_app. split; [done|]. by constructor.
Qed.

Lemma deliver_spi_after m i : 0 <= i -> machine_wf m -> after m (deliver_spi m i).
Proof.
  intros Hi Hm. unfold deliver_spi. destruct (vget (m_cpus m) _) as [c|] eqn:Hc;
    [|by apply after_refl].
  apply set_cpu_after; [done|]. apply push_inject_cpu; [done|]. by eapply get_cpu_ok.
Qed.

Lemma route_sgi_safe m id c sgi :
  machine_wf m -> vget (m_cpus m) id = Some c -> safe m (usgic_route_sgi m id sgi).
Proof.
  intros Hm Hc. destruct (get_cpu_ok m id c Hm Hc) as [E _]. unfold usgic_route_sgi. rewrite E.
  cbn [mbind res_bind_inst]. destruct (g_cpu_table (v_gic c)); cbn [negb];
    [|by eapply usgic_inject_safe].
  eexists. split; [done|]. split; [|cbn; split; [apply length_imap|done]].
  destruct Hm as [Hd Hf]. split; [done|]. cbn [m_cpus m_redists]. apply Forall_elem.
  intros c' Hin. apply list_elem_of_lookup in Hin as (k & Hk). unfold sgi_deliver in Hk.
  rewrite list_lookup_imap in Hk. destruct (m_cpus m !! k) as [c0|] eqn:Ek; [|done].
  cbn [fmap option_fmap option_map] in Hk. apply (inj Some) in Hk as <-. rewrite Forall_elem in Hf.
  specialize (Hf c0 (list_elem_of_lookup_2 _ _ _ Ek)). case_match; [|done].
  apply push_inject_cpu; [|done]. apply Z.land_nonneg. by right.
Qed.

Lemma access_dist_wf d off w v a : dist_wf d -> dist_wf (access_32bit_model d off w v a).2.
Proof.
  intros Hd. assert (forall x, is_u32 (u32 x)) as Hu by (intros x; apply Z.mod_pos_bound; lia).
  unfold access_32bit_model. cbn [write32 read32 dist_reg32].
  destruct w; destruct (a =? 8); cbn [snd]; auto using dist_write_wf.
Qed.

Lemma redist_frame_range g n ipa f o :
  0 <= n -> redist_frame g n ipa = Some (f, o) -> 0 <= f < n.
Proof.
  intros Hn. unfold redist_frame, RDIST_FRAME, u64. case_match; [done|]. case_match; [done|].
  apply Z.ltb_ge in H0. set (region := g_gicr_base g - _) in *.
  assert (0 <= region) by (subst region; lia).
  destruct ((ipa <? region) || _) eqn:E; [done|]. apply orb_false_iff in E as [E1 E2].
  rewrite Z.ltb_ge in E1. rewrite Z.leb_gt in E2. intros [= <- _].
  assert (0 <= n * 131072 mod 2 ^ 64 <= n * 131072).
  { split; [apply Z.mod_pos_bound; lia|]. apply Z.mod_le; lia. }
  assert ((region + n * 131072 mod 2 ^ 64) mod 2 ^ 64 <= region + n * 131072 mod 2 ^ 64)
    by (apply Z.mod_le; lia).
  split; [apply Z.div_pos; lia|]. apply Z.div_lt_upper_bound; lia.
Qed.

Lemma usgic_mmio_safe m id c ipa w v a :
  machine_wf m -> vget (m_cpus m) id = Some c ->
  exists r m', usgic_mmio m id ipa w v a = Ok (r, m') /\ after m m'.
Proof.
  intros Hm Hc. destruct (get_cpu_ok m id c Hm Hc) as [E _]. unfold usgic_mmio. rewrite E.
  cbn [mbind res_bind_inst]. destruct (_ && _ && _).
  { pose proof (access_dist_wf (m_dist m) (ipa - g_gicd_base (v_gic c)) w v a (proj1 Hm)) as Hd.
    destruct (access_32bit_model _ _ _ _ _) as [x d]. eexists _, _. split; [done|].
    by apply set_dist_after. }
  destruct (redist_frame _ _ ipa) as [[f o]|] eqn:Ef; [|eexists _, _; split; [done|by apply after_refl]].
  apply redist_frame_range in Ef; [|lia]. destruct (vget_lt (m_redists m) f Ef) as (r & Hr). rewrite Hr.
  destruct (access_32bit_model _ _ _ _ _) as [x r']. eexists _, _. split; [done|].
  by apply set_redist_after.
Qed.

(** The part of a trap before the PC moves on. *)
Definition icc_trap_body (leak : option Z) (m : Machine) (id : Z) (s : Iss) (c : Vcpu) :
    res unit Machine :=
  if iss_read s then
    let '(val, g) := icc_read (v_gic c) (iss_key s) in
    let c := set_gic g c in
    let c := if iss_rt s <? 31 then set_x (iss_rt s) val c else c in
    let c := if negb (should_assert g) then set_irq_line false c else c in
    Ok (set_cpu id c m)
  else
    let val := if iss_rt s =? 31 then 0 else default 0 (vget (v_x c) (iss_rt s)) in
    let '(g, rearm, sgi) := icc_write leak (v_gic c) (iss_key s) val in
    let c := set_gic g c in
    let m := set_cpu id (if rearm : bool then set_vtmask false c else c) m in
    match sgi with Some sgi => usgic_route_sgi m id sgi | None => Ok m end.

Lemma vget_set_cpu m id c c0 :
  vget (m_cpus m) id = Some c0 -> vget (m_cpus (set_cpu id c m)) id = Some c.
Proof.
  intros [Hi _]%vget_Some. cbn. rewrite vget_vset, Z.eqb_refl.
  by rewrite (proj2 (Z.leb_le _ _)), (proj2 (Z.ltb_lt _ _)) by lia.
Qed.

Lemma icc_trap_body_safe leak m id s c :
  machine_wf m -> vget (m_cpus m) id = Some c -> safe m (icc_trap_body leak m id s c).
Proof.
  intros Hm Hc. destruct (get_cpu_ok m id c Hm Hc) as [_ (Hq & Hi & Hj & Hv)].
  unfold icc_trap_body. destruct (iss_read s).
  - destruct (icc_read_keeps (v_gic c) (iss_key s) Hq) as (Hq' & Hi' & Hs).
    destruct (icc_read _ _) as [val g]. cbn [snd] in *. eexists. split; [done|].
    apply set_cpu_after; [done|].
    assert (cpu_wf (Z.of_nat (length (m_redists m))) (set_gic g c)) as Hw.
    { split_and!; cbn; try done; rewrite ?Hi'; try lia. intros. by apply Hs, Hv. }
    destruct (iss_rt s <? 31), (negb (should_assert g)); exact Hw.
  - set (val := if iss_rt s =? 31 then _ else _).
    pose proof (icc_write_keeps leak (v_gic c) (iss_key s) val Hq) as Hk.
    destruct (icc_write _ _ _ _) as [[g rearm] sgi]. destruct Hk as (Hq' & Hi' & Hs).
    set (c' := if rearm then _ else _).
    assert (after m (set_cpu id c' m)) as Ha.
    { apply set_cpu_after; [done|]. subst c'. destruct rearm; split_and!; cbn; try done;
        rewrite ?Hi'; try lia. intros Hmask. by destruct (Hs (Hv Hmask)). }
    destruct sgi as [sgi|]; [|by eexists].
    destruct (route_sgi_safe (set_cpu id c' m) id c' sgi) as (m' & E & Ha');
      [apply Ha|by eapply vget_set_cpu|]. exists m'. split; [done|]. by eapply after_trans.
Qed.

Lemma handle_icc_trap_safe leak m id c esr :
  machine_wf m -> vget (m_cpus m) id = Some c ->
  exists b m', handle_icc_trap leak m id esr = Ok (b, m') /\ after m m'.
Proof.
  intros Hm Hc. unfold handle_icc_trap. destruct (negb _ || negb _).
  { eexists _, _. split; [done|by apply after_refl]. }
  rewrite (proj1 (get_cpu_ok m id c Hm Hc)). cbn [mbind res_bind_inst].
  fold (icc_trap_body leak m id (decode_iss esr) c).
  destruct (safe_cpu _ _ id c (icc_trap_body_safe leak m id (decode_iss esr) c Hm Hc) Hc)
    as (m1 & c1 & E1 & Ha & Hc1). rewrite E1. cbn [mbind res_bind_inst].
  destruct (get_cpu_ok m1 id c1 (proj1 Ha) Hc1) as [E2 Hw]. rewrite E2. cbn [mbind res_bind_inst].
  eexists _, _. split; [done|]. eapply after_trans; [done|]. apply set_cpu_after; [apply Ha|exact Hw].
Qed.

Lemma set_cpu_twice id c c' m : set_cpu id c (set_cpu id c' m) = set_cpu id c m.
Proof.
  unfold set_cpu. cbn [m_dist m_redists m_cpus]. f_equal. unfold vset at 1 3. rewrite length_vset.
  unfold vset. destruct (_ && _); [apply list_insert_insert_eq|done].
Qed.

Lemma vtimer_exit_safe m id c r :
  machine_wf m -> vget (m_cpus m) id = Some c -> g_enabled (v_gic c) = true ->
  vget (m_redists m) (g_redist_index (v_gic c)) = Some r -> is_ppi_enabled r VTIMER_PPI = true ->
  safe m (vtimer_exit m id).
Proof.
  intros Hm Hc He Hr Hp. destruct (get_cpu_ok m id c Hm Hc) as [E (Hq & Hi & Hj & Hv)].
  unfold vtimer_exit. rewrite E. cbn [mbind res_bind_inst]. unfold usgic_assert_spi, get_cpu.
  rewrite (vget_set_cpu m id _ c Hc). cbn [mbind res_bind_inst]. cbn [set_vtmask v_gic]. rewrite He.
  cbn [negb]. unfold gate, my_redist. change (m_redists (set_cpu _ _ m)) with (m_redists m). rewrite Hr.
  change (VTIMER_PPI <? 32) with true. cbn [mbind res_bind_inst]. rewrite Hp, set_cpu_twice.
  eexists. split; [done|]. destruct (push_pending_spec (v_gic c) VTIMER_PPI Hq) as (Hq' & _ & _ & Hs).
  apply set_cpu_after; [done|].
  split_and!; cbn; try done; rewrite ?push_pending_index; try lia. intros _. apply Hs. by left.
Qed.

Definition keeps_queues (f : UserGic -> UserGic) : Prop :=
  forall g, g_pending (f g) = g_pending g /\ g_active (f g) = g_active g /\
    g_redist_index (f g) = g_redist_index g.

Lemma upd_gic_safe m id c f :
  machine_wf m -> vget (m_cpus m) id = Some c -> keeps_queues f -> safe m (upd_gic m id f).
Proof.
  intros Hm Hc Hf. destruct (get_cpu_ok m id c Hm Hc) as [E Hw]. destruct (Hf (v_gic c)) as (Ep & Ea & Ei).
  unfold upd_gic. rewrite E. cbn [mbind res_bind_inst]. eexists. split; [done|].
  apply set_cpu_after; [done|]. unfold cpu_wf, queues_wf, in_service in *.
  cbn [set_gic v_gic v_inject v_vtmask]. by rewrite Ep, Ea, Ei.
Qed.

Lemma report_keeps rd : keeps_queues (report rd).
Proof.
  intros g. unfold report, report_wedge, charge_report.
  destruct (all_report_budgets_spent g); [done|]. destruct (wedge_verdict _) as [[|] t].
  - by destruct (WEDGE_REPORT_LIMIT <=? _).
  - by destruct (RECOVERED_REPORT_LIMIT <=? _).
Qed.

Lemma overdue_keeps rd : keeps_queues (fun g =>
  let '(crossed, g) := note_vtimer_overdue g (rd_now rd) in if crossed : bool then report rd g else g).
Proof.
  intros g. unfold note_vtimer_overdue. destruct (od_reported _); [done|]. cbv zeta.
  destruct (_ && _); [|done].
  destruct (report_keeps rd (set_overdue (mkOverdue (Some (default (rd_now rd) (od_since (g_overdue g))))
    (sat_add64 (od_entries (g_overdue g)) 1) true) g)) as (-> & -> & ->). done.
Qed.

Lemma requested_keeps rd : keeps_queues (fun g =>
  let '(requested, g) := wedge_report_requested g (rd_requests rd) in
  if requested : bool then report rd g else g).
Proof.
  intros g. unfold wedge_report_requested. destruct (_ =? _); [done|].
  destruct (report_keeps rd (set_reports (mkReports (wedge_reports (g_reports g))
    (recovered_reports (g_reports g)) (rd_requests rd)) g)) as (-> & -> & ->). done.
Qed.

Lemma poll_safe m id c rd :
  machine_wf m -> vget (m_cpus m) id = Some c -> safe m (usgic_poll_vtimer m id rd).
Proof.
  intros Hm Hc. unfold usgic_poll_vtimer. rewrite (proj1 (get_cpu_ok m id c Hm Hc)).
  cbn [mbind res_bind_inst]. destruct (negb _); [by exists m|]. destruct (_ || _); [by exists m|].
  destruct (_ <=? _).
  - destruct (safe_cpu _ _ id c (usgic_assert_spi_safe m id c VTIMER_PPI Hm Hc ltac:(done)) Hc)
      as (m1 & c1 & -> & Ha & Hc1). cbn [mbind res_bind_inst].
    destruct (upd_gic_safe m1 id c1 _ (proj1 Ha) Hc1 (overdue_keeps rd)) as (m2 & E2 & Ha2). exists m2. split; [exact E2|]. by eapply after_trans.
  - eapply upd_gic_safe; [done..|]. intros g. unfold clear_vtimer_overdue. by case_match.
Qed.

Lemma refresh_safe m id c :
  machine_wf m -> vget (m_cpus m) id = Some c -> safe m (usgic_refresh_irq_line m id).
Proof.
  intros Hm Hc. destruct (get_cpu_ok m id c Hm Hc) as [E Hw]. unfold usgic_refresh_irq_line. rewrite E.
  cbn [mbind res_bind_inst]. destruct (negb _); [by exists m|].
  destruct (should_assert _); [|by exists m]. eexists. split; [done|]. by apply set_cpu_after.
Qed.

Lemma run_entry_safe m id c rd :
  machine_wf m -> vget (m_cpus m) id = Some c -> safe m (run_entry m id rd).
Proof.
  intros Hm Hc. unfold run_entry.
  destruct (safe_cpu _ _ id c (drain_safe m id c Hm Hc) Hc) as (m1 & c1 & -> & A1 & Hc1).
  cbn [mbind res_bind_inst].
  destruct (safe_cpu _ _ id c1 (upd_gic_safe m1 id c1 _ (proj1 A1) Hc1 (requested_keeps rd)) Hc1)
    as (m2 & c2 & E2 & A2 & Hc2). rewrite E2. cbn [mbind res_bind_inst].
  destruct (safe_cpu _ _ id c2 (poll_safe m2 id c2 rd (proj1 A2) Hc2) Hc2) as (m3 & c3 & -> & A3 & Hc3).
  cbn [mbind res_bind_inst].
  destruct (refresh_safe m3 id c3 (proj1 A3) Hc3) as (m4 & E4 & A4). exists m4. split; [done|].
  eauto using after_trans.
Qed.

(** ** Steps of the machine *)

Inductive machine_step (leak : option Z) (m : Machine) : Machine -> Prop :=
| step_icc id esr b m' : handle_icc_trap leak m id esr = Ok (b, m') -> machine_step leak m m'
| step_mmio id ipa w v a r m' : usgic_mmio m id ipa w v a = Ok (r, m') -> machine_step leak m m'
| step_deliver intid : 0 <= intid -> machine_step leak m (deliver_spi m intid)
| step_assert id intid m' :
    0 <= intid -> usgic_assert_spi m id intid = Ok m' -> machine_step leak m m'
| step_inject id intid m' : usgic_inject m id intid = Ok m' -> machine_step leak m m'
| step_entry id rd m' : run_entry m id rd = Ok m' -> machine_step leak m m'
| step_vtimer id c r m' :
    vget (m_cpus m) id = Some c -> g_enabled (v_gic c) = true ->
    vget (m_redists m) (g_redist_index (v_gic c)) = Some r -> is_ppi_enabled r VTIMER_PPI = true ->
    vtimer_exit m id = Ok m' -> machine_step leak m m'.

(** A VM with [n] vCPUs on this interface, nothing pending. *)
Definition boot_cpu (gicd gicr : Z) (i : nat) : Vcpu :=
  mkVcpu (mkUG true [] [] 0 no_overdue (mkReports 0 0 0) (mkLeak 0 false) (mkIcc 0 0 0 0 0)
            (Z.of_nat i) gicd (gicr + Z.of_nat i * RDIST_FRAME) true)
    [] false false (replicate 31 0) 0.

Definition machine_boot (nirq : Z) (n : nat) (gicd gicr : Z) : Machine :=
  mkMachine (dist_new nirq) ((fun i => for_cpu (Z.of_nat i) (S i =? n)%nat) <$> seq 0 n)
    (boot_cpu gicd gicr <$> seq 0 n).

Lemma machine_boot_wf nirq n gicd gicr : is_u32 nirq -> machine_wf (machine_boot nirq n gicd gicr).
Proof.
  intros Hn. split; [by apply dist_new_wf|]. cbn [m_redists m_cpus machine_boot].
  rewrite length_fmap, length_seq. apply Forall_elem. intros c Hc.
  apply list_elem_of_fmap in Hc as (i & -> & Hi). apply elem_of_seq in Hi.
  split_and!; cbn; try lia; try done; constructor.
Qed.

(** An operation that returned was on an existing vCPU. *)
Lemma get_cpu_bind {A} m id (f : Vcpu -> res unit A) a :
  get_cpu m id ≫= f = Ok a -> exists c, vget (m_cpus m) id = Some c.
Proof. unfold get_cpu. destruct (vget _ _) as [c|]; [by exists c|done]. Qed.

Lemma machine_step_after leak m m' : machine_wf m -> machine_step leak m m' -> after m m'.
Proof.
  intros Hm Hs. assert (forall m1, safe m (Ok m1) -> after m m1) as Hok
    by (intros m1 (m2 & [= ->] & ?); done).
  destruct Hs as [id esr b m' E|id ipa w v a r m' E|i Hi|id i m' Hi E|id i m' E|id rd m' E|id c r m' Hc He Hr Hp E].
  - unfold handle_icc_trap in E. destruct (negb _ || negb _) eqn:Eg.
    { injection E as <- <-. by apply after_refl. }
    destruct (get_cpu_bind _ _ _ _ E) as (c & Hc).
    destruct (handle_icc_trap_safe leak m id c esr Hm Hc) as (b2 & m2 & E2 & Ha).
    unfold handle_icc_trap in E2. rewrite Eg, E in E2. by injection E2 as <- <-.
  - destruct (get_cpu_bind _ _ _ _ E) as (c & Hc).
    destruct (usgic_mmio_safe m id c ipa w v a Hm Hc) as (x & m2 & E2 & Ha).
    rewrite E in E2. by injection E2 as <- <-.
  - by apply deliver_spi_after.
  - destruct (get_cpu_bind _ _ _ _ E) as (c & Hc). apply Hok. rewrite <- E.
    by eapply usgic_assert_spi_safe.
  - destruct (get_cpu_bind _ _ _ _ E) as (c & Hc). apply Hok. rewrite <- E.
    by eapply usgic_inject_safe.
  - assert (exists c, vget (m_cpus m) id = Some c) as (c & Hc).
    { unfold run_entry in E. destruct (usgic_drain_injected m id) eqn:Ed; try done.
      by eapply get_cpu_bind. }
    apply Hok. rewrite <- E. by eapply run_entry_safe.
  - apply Hok. rewrite <- E. by eapply vtimer_exit_safe.
Qed.

Lemma machine_steps_wf leak m m' : machine_wf m -> rtc (machine_step leak) m m' -> after m m'.
Proof.
  intros Hm Hr. revert Hm. induction Hr as [m|m m1 m2 Hs _ IH]; intros Hm; [by apply after_refl|].
  pose proof (machine_step_after leak m m1 Hm Hs) as Ha.
  eapply after_trans; [exact Ha|]. apply IH, Ha.
Qed.


(** Two vCPUs; the timer of the first fires while PPI 27 is enabled. *)
Definition demo_boot : Machine := machine_boot 64 2 0x8000000 0x80A0000.
Definition demo_enabled : Machine :=
  match usgic_mmio demo_boot 0 (0x80A0000 + 0x10100) true 0x8000001 4 with Ok (_, m) => m | _ => demo_boot end.
Definition demo_fired : Machine :=
  match vtimer_exit demo_enabled 0 with Ok m => m | _ => demo_enabled end.

Lemma demo_steps : rtc (machine_step None) demo_boot demo_fired.
Proof.
  apply (rtc_l _ _ demo_enabled).
  - apply (step_mmio None demo_boot 0 (0x80A0000 + 0x10100) true 0x8000001 4 (Some 0)).
    vm_compute. reflexivity.
  - apply (rtc_l _ _ demo_fired); [|apply rtc_refl].
    eapply (step_vtimer None demo_enabled 0); vm_compute; reflexivity.
Qed.


(** ** Software-generated interrupts *)

Lemma vget_imap {A} (f : nat -> A -> A) l i x :
  vget l i = Some x -> vget (imap f l) i = Some (f (Z.to_nat i) x).
Proof.
  intros [Hi Hx]%vget_Some. apply vget_of_lookup'. split; [lia|].
  by rewrite list_lookup_imap, Hx.
Qed.

Lemma set_cpu_id m id c : vget (m_cpus m) id = Some c -> set_cpu id c m = m.
Proof.
  intros [Hi Hc]%vget_Some. unfold set_cpu, vset. rewrite (proj2 (Z.leb_le 0 id)), (proj2 (Z.ltb_lt _ _)) by lia.
  cbn. rewrite list_insert_id by done. by destruct m.
Qed.

(** A drain of the vCPU's queue. *)
Lemma drain_delivers m id c i r :
  machine_wf m -> vget (m_cpus m) id = Some c -> i ∈ v_inject c -> i < 32 ->
  g_enabled (v_gic c) = true -> vget (m_redists m) (g_redist_index (v_gic c)) = Some r ->
  is_ppi_enabled r i = true ->
  exists m' c', usgic_drain_injected m id = Ok m' /\ vget (m_cpus m') id = Some c' /\
    v_inject c' = [] /\ in_service (v_gic c') i.
Proof.
  intros Hm Hc Hin Hi He Hr Hp. destruct (get_cpu_ok m id c Hm Hc) as [E (Hq & Hx & Hj & Hv)].
  unfold usgic_drain_injected. rewrite E. cbn [mbind res_bind_inst].
  destruct (v_inject c) as [|i0 q] eqn:Eq; [by apply not_elem_of_nil in Hin|]. rewrite <- Eq in *.
  cbn [set_inject v_gic]. rewrite He. cbn [negb].
  destruct (drain_loop_spec (v_inject c) m (v_gic c) Hm Hq Hx Hj)
    as (m' & g' & E' & Ha & Ec & Er & _ & _ & _ & Hd).
  rewrite E'. cbn [mbind res_bind_inst]. exists (set_cpu id (set_gic g' (set_inject [] c)) m').
  exists (set_gic g' (set_inject [] c)). split_and!; [done| |done|].
  - eapply vget_set_cpu. by rewrite Ec.
  - cbn. by apply (Hd i r).
Qed.

(** The vCPUs after the SGI of vCPU [id]: targets get the INTID, and the sender's
    PC moves on. *)
Definition sgi_cpu (sgi id intid t : Z) (ct : Vcpu) : Vcpu :=
  let ct := if sgi_targets_core sgi id t then push_inject intid ct else ct in
  if t =? id then advance_pc ct else ct.

Lemma sgi_trap leak m id c esr rt sgi :
  machine_wf m -> vget (m_cpus m) id = Some c -> g_cpu_table (v_gic c) = true ->
  decode_iss esr = mkIss false rt 3 0 (12, 11, 5) -> rt <> 31 -> vget (v_x c) rt = Some sgi ->
  exists m', handle_icc_trap leak m id esr = Ok (true, m') /\ m_redists m' = m_redists m /\
    forall t ct, vget (m_cpus m) t = Some ct ->
      vget (m_cpus m') t = Some (sgi_cpu sgi id (Z.land (Z.shiftr sgi 24) 0xf) t ct).
Proof.
  intros Hm Hc Ht Hd Hrt Hx. set (intid := Z.land _ _). unfold handle_icc_trap. rewrite Hd.
  cbn [iss_op0 iss_op1 Z.eqb Pos.eqb negb orb]. rewrite (proj1 (get_cpu_ok m id c Hm Hc)).
  cbn [mbind res_bind_inst iss_read iss_rt iss_key]. rewrite (proj2 (Z.eqb_neq rt 31) Hrt), Hx.
  change (default 0 (Some sgi)) with sgi. cbn [icc_write arm Z.eqb Pos.eqb andb orb].
  assert (set_gic (v_gic c) c = c) as Hid by (by destruct c). rewrite Hid, (set_cpu_id m _ c Hc).
  unfold usgic_route_sgi. rewrite (proj1 (get_cpu_ok m _ c Hm Hc)).
  cbn [mbind res_bind_inst]. rewrite Ht. cbn [negb]. fold intid.
  set (cpus := sgi_deliver sgi id intid (m_cpus m)).
  assert (forall t ct, vget (m_cpus m) t = Some ct -> vget cpus t =
    Some (if sgi_targets_core sgi id t then push_inject intid ct else ct)) as Hcpus.
  { intros t ct Hct. subst cpus. unfold sgi_deliver. rewrite (vget_imap _ _ _ _ Hct).
    apply vget_Some in Hct as [? _]. by rewrite Z2Nat.id by lia. }
  cbn [mbind res_bind_inst]. unfold get_cpu. cbn [m_cpus]. rewrite (Hcpus _ _ Hc).
  cbn [mbind res_bind_inst].
  eexists. split; [done|]. split; [done|]. intros t ct Hct. cbn [set_cpu m_cpus]. unfold sgi_cpu.
  rewrite vget_vset, (Z.eqb_sym id t). destruct (Z.eqb_spec t id) as [->|Hne]; [|by apply Hcpus].
  rewrite Hc in Hct. injection Hct as <-. pose proof (Hcpus _ _ Hc) as [Hr _]%vget_Some.
  by rewrite (proj2 (Z.leb_le _ _)), (proj2 (Z.ltb_lt _ _)) by lia.
Qed.

(** An inter-processor interrupt reaches exactly the cores it names. A trapped
    write of [sgi] to ICC_SGI1R_EL1 puts the interrupt in the injection queue
    of every vCPU the value targets (the 16-bit list, or all but the sender)
    and changes the interrupt state of no other vCPU; when a targeted vCPU with
    that interrupt enabled in its redistributor then drains its queue, the
    interrupt is pending or active there. *)
Theorem sgi_reaches_targets leak m id c esr rt sgi :
  machine_wf m -> vget (m_cpus m) id = Some c -> g_cpu_table (v_gic c) = true ->
  decode_iss esr = mkIss false rt 3 0 (12, 11, 5) -> rt <> 31 -> vget (v_x c) rt = Some sgi ->
  let intid := Z.land (Z.shiftr sgi 24) 0xf in
  exists m', handle_icc_trap leak m id esr = Ok (true, m') /\ machine_wf m' /\
    forall t ct, vget (m_cpus m) t = Some ct ->
    exists ct', vget (m_cpus m') t = Some ct' /\ v_gic ct' = v_gic ct /\
      v_inject ct' = v_inject ct ++ (if sgi_targets_core sgi id t then [intid] else []) /\
      (forall r, sgi_targets_core sgi id t = true -> g_enabled (v_gic ct) = true ->
         vget (m_redists m) (g_redist_index (v_gic ct)) = Some r -> is_ppi_enabled r intid = true ->
         exists m'' ct'', usgic_drain_injected m' t = Ok m'' /\ vget (m_cpus m'') t = Some ct'' /\
           v_inject ct'' = [] /\ in_service (v_gic ct'') intid).
Proof.
  intros Hm Hc Ht Hd Hrt Hx intid.
  destruct (sgi_trap leak m id c esr rt sgi Hm Hc Ht Hd Hrt Hx) as (m' & E & Er & Hcpus).
  destruct (handle_icc_trap_safe leak m id c esr Hm Hc) as (b & m2 & E2 & Ha).
  rewrite E in E2. injection E2 as <- <-. exists m'. split; [done|]. split; [apply Ha|].
  intros t ct Hct. specialize (Hcpus t ct Hct). fold intid in Hcpus. eexists. split; [exact Hcpus|].
  assert (v_gic (sgi_cpu sgi id intid t ct) = v_gic ct) as Hg
    by (unfold sgi_cpu; by destruct (t =? id), (sgi_targets_core sgi id t)).
  assert (v_inject (sgi_cpu sgi id intid t ct) =
    v_inject ct ++ (if sgi_targets_core sgi id t then [intid] else [])) as Hi
    by (unfold sgi_cpu; destruct (t =? id), (sgi_targets_core sgi id t); cbn; by rewrite ?app_nil_r).
  split_and!; [done|done|]. intros r Htg He Hr Hp.
  eapply (drain_delivers _ t _ intid r); [apply Ha|exact Hcpus|rewrite ?Hg, ?Er; try done..].
  - rewrite Hi, Htg. apply elem_of_app. right. by left.
  - assert (0 <= intid < 2 ^ 4); [|lia]. subst intid. change 0xf with (Z.ones 4).
    rewrite Z.land_ones by lia. apply Z.mod_pos_bound. lia.
Qed.

(** vCPU 0 sends SGI 0 to vCPU 1, whose SGI 0 is enabled. *)
Definition demo_sgi_m : Machine :=
  match usgic_mmio demo_boot 1 (0x80A0000 + 0x20000 + 0x10100) true 1 4 with
  | Ok (_, m) =>
      match vget (m_cpus m) 0 with
      | Some c => set_cpu 0 (set_x 3 2 c) m
      | None => m
      end
  | _ => demo_boot
  end.
Definition esr_sgi1r (rt : Z) : Z :=
  Z.shiftl 11 1 + Z.shiftl rt 5 + Z.shiftl 12 10 + Z.shiftl 5 17 + Z.shiftl 3 20.

Lemma demo_sgi_wf : machine_wf demo_sgi_m.
Proof.
  destruct (usgic_mmio demo_boot 1 (0x80A0000 + 0x20000 + 0x10100) true 1 4) as [[r m]| | |] eqn:E.
  2-4: vm_compute in E; discriminate.
  assert (machine_wf demo_boot) as Hb by (apply machine_boot_wf; vm_compute; split; congruence).
  assert (after demo_boot m) as [Hm _]
    by (apply (machine_step_after None); [exact Hb|by eapply step_mmio]).
  unfold demo_sgi_m. rewrite E. destruct (vget (m_cpus m) 0) as [c|] eqn:Hc; [|done].
  apply set_cpu_after; [done|]. exact (proj2 (get_cpu_ok m 0 c Hm Hc)).
Qed.

Lemma sgi_reaches_targets_witness :
  exists m' ct', handle_icc_trap None demo_sgi_m 0 (esr_sgi1r 3) = Ok (true, m') /\
    vget (m_cpus m') 1 = Some ct' /\ v_inject ct' = [0].
Proof.
  destruct (vget (m_cpus demo_sgi_m) 0) as [c|] eqn:Hc; [|vm_compute in Hc; discriminate].
  destruct (vget (m_cpus demo_sgi_m) 1) as [ct|] eqn:Hct; [|vm_compute in Hct; discriminate].
  destruct (sgi_reaches_targets None demo_sgi_m 0 c (esr_sgi1r 3) 3 2 demo_sgi_wf Hc)
    as (m' & E & _ & Hall).
  1-4: vm_compute in Hc; injection Hc as <-; vm_compute; congruence.
  destruct (Hall 1 ct Hct) as (ct' & E' & _ & Hi & _). exists m', ct'. split_and!; [exact E|exact E'|].
  rewrite Hi. vm_compute in Hct. injection Hct as <-. vm_compute. reflexivity.
Defined.

(** ** Shared interrupts *)

(** A doubleword store to [GICD_IROUTER<n>] replaces the whole route. *)
Lemma irouter_store d n v :
  dist_wf d -> 0 <= n < num_irqs d -> is_u64 v ->
  let d' := (access_32bit_model d (0x6000 + 8 * n) true v 8).2 in
  vget (routes d') n = Some v.
Proof.
  intros Hd Hn Hv. pose proof (wf_num d Hd) as Hlim. unfold INTID_LIMIT in Hlim.
  unfold access_32bit_model. cbn [Z.eqb Pos.eqb write32 dist_reg32 snd].
  assert (u64 (0x6000 + 8 * n + 4) = 0x6000 + 8 * n + 4) as -> by (apply Z.mod_small; lia).
  assert (forall e o w, 0x6000 <= o < 0x8000 -> dist_write e o w = write_router (o - 0x6000) w e) as Hw.
  { intros e o w Ho. unfold dist_write. rewrite (proj2 (Z.eqb_neq o 0)) by lia.
    do 7 rewrite (proj2 (in_range_false _ _ o)) by lia. by rewrite (proj2 (in_range_spec _ _ o)) by lia. }
  rewrite !Hw by lia. replace (0x6000 + 8 * n + 4 - 0x6000) with (8 * n + 4) by lia.
  replace (0x6000 + 8 * n - 0x6000) with (8 * n) by lia. pose proof (wf_routes d Hd) as Hl.
  destruct (vget_lt (routes d) n) as (cur & Hcur); [lia|].
  unfold write_router at 2. replace (8 * n / 8) with n by (Z.div_mod_to_equations; lia). rewrite Hcur.
  replace (8 * n mod 8) with 0 by (Z.div_mod_to_equations; lia). change (4 <=? 0) with false. cbn iota.
  set (low := Z.lor (Z.land cur _) _). unfold write_router.
  replace ((8 * n + 4) / 8) with n by (Z.div_mod_to_equations; lia). cbn [set_routes routes].
  rewrite vget_vset, Z.eqb_refl, (proj2 (Z.leb_le 0 n)), (proj2 (Z.ltb_lt _ _)) by lia. cbn [andb].
  replace ((8 * n + 4) mod 8) with 4 by (Z.div_mod_to_equations; lia). change (4 <=? 4) with true.
  cbn iota. cbn [routes set_routes]. rewrite vget_vset, length_vset, Z.eqb_refl, (proj2 (Z.leb_le 0 n)), (proj2 (Z.ltb_lt _ _)) by lia.
  cbn [andb]. f_equal. pose proof (wf_routes_u64 d Hd n cur Hcur) as Hc.
  assert (is_u32 (u32 v) /\ is_u32 (u32 (Z.shiftr v 32))) as [? ?]
    by (split; apply Z.mod_pos_bound; lia).
  assert (low = cur / 2 ^ 32 * 2 ^ 32 + u32 v) as -> by (by apply half_low).
  unfold is_u64, is_u32 in *. rewrite half_high; [|unfold is_u64; word_lia|done].
  rewrite Z.shiftr_div_pow2 by lia. word_lia.
Qed.

(** A device interrupt goes to the core the guest routed it to. After any vCPU has
    stored a route for SPI [n] in GICD_IROUTER with one doubleword access, and
    the route names a core of the VM (IRM clear), the SPI router delivers [n]
    to the injection queue of that core and leaves every other vCPU as it was. *)
Theorem irouter_steers_spi m id c n v :
  machine_wf m -> vget (m_cpus m) id = Some c ->
  0 < g_gicd_base (v_gic c) -> g_gicd_base (v_gic c) + 0x10000 < 2 ^ 64 ->
  0 <= n < num_irqs (m_dist m) -> is_u64 v -> has_bit v 31 = false ->
  Z.land v 0xff < Z.of_nat (length (m_cpus m)) ->
  exists m', usgic_mmio m id (g_gicd_base (v_gic c) + (0x6000 + 8 * n)) true v 8 = Ok (Some 0, m') /\
    forall t ct, vget (m_cpus m) t = Some ct ->
      vget (m_cpus (deliver_spi m' n)) t =
        Some (if t =? Z.land v 0xff then push_inject n ct else ct).
Proof.
  intros Hm Hc Hb0 Hb1 Hn Hv Hirm Hcore. unfold usgic_mmio.
  rewrite (proj1 (get_cpu_ok m id c Hm Hc)). cbn [mbind res_bind_inst].
  set (b := g_gicd_base (v_gic c)) in *. set (off := 0x6000 + 8 * n).
  pose proof (wf_num (m_dist m) (proj1 Hm)) as Hlim. unfold INTID_LIMIT in Hlim.
  assert (u64 (b + 0x10000) = b + 0x10000) as -> by (apply Z.mod_small; lia).
  rewrite (proj2 (Z.eqb_neq b 0)), (proj2 (Z.leb_le _ _)), (proj2 (Z.ltb_lt _ _)) by lia.
  cbn [negb andb]. replace (b + off - b) with off by lia.
  pose proof (irouter_store (m_dist m) n v (proj1 Hm) Hn Hv) as Hr. fold off in Hr. cbv zeta in Hr.
  destruct (access_32bit_model _ _ _ _ _) as [x d] eqn:Ea. cbn [snd] in Hr.
  assert (x = 0) as -> by (unfold access_32bit_model in Ea; cbn in Ea; congruence).
  eexists. split; [done|]. intros t ct Hct. unfold deliver_spi. cbn [set_dist m_dist m_cpus].
  unfold spi_target_affinity, resolve_spi_target. rewrite Hr, Hirm, <- Z.land_assoc.
  change (Z.land 0xff00ffffff 0xff) with 0xff. rewrite (proj2 (Z.ltb_lt _ _)) by lia.
  assert (0 <= Z.land v 0xff) by (apply Z.land_nonneg; right; lia).
  destruct (vget_lt (m_cpus m) (Z.land v 0xff)) as (c' & Hc'); [lia|]. rewrite Hc'.
  cbn [set_cpu m_cpus]. set (k := Z.land v 0xff) in *. rewrite vget_vset, (Z.eqb_sym k t).
  destruct (Z.eqb_spec t k) as [->|]; [|done]. rewrite Hct in Hc'. injection Hc' as ->.
  by rewrite (proj2 (Z.leb_le 0 k)), (proj2 (Z.ltb_lt k _)) by (cbn; lia).
Qed.

Lemma irouter_steers_spi_witness :
  exists m' c1, usgic_mmio demo_boot 0 (0x8000000 + (0x6000 + 8 * 40)) true 1 8 = Ok (Some 0, m') /\
    vget (m_cpus (deliver_spi m' 40)) 1 = Some c1 /\ v_inject c1 = [40].
Proof.
  destruct (vget (m_cpus demo_boot) 0) as [c|] eqn:Hc; [|vm_compute in Hc; discriminate].
  destruct (vget (m_cpus demo_boot) 1) as [ct|] eqn:Hct; [|vm_compute in Hct; discriminate].
  assert (g_gicd_base (v_gic c) = 0x8000000) as Hb by (vm_compute in Hc; by injection Hc as <-).
  destruct (irouter_steers_spi demo_boot 0 c 40 1) as (m' & E & Hall); rewrite ?Hb; try done.
  - apply machine_boot_wf. vm_compute. split; congruence.
  - rewrite Hb in E. eexists _, _. split; [exact E|]. split; [apply (Hall 1 ct Hct)|].
    vm_compute in Hct. injection Hct as <-. reflexivity.
Defined.

(** ** One interrupt, from acknowledge to end *)

(** A trapped read of ICC_IAR1_EL1, and a trapped write of ICC_EOIR1_EL1. *)
Definition iar_trap (esr rt : Z) : Prop := decode_iss esr = mkIss true rt 3 0 (12, 12, 0) /\ 0 <= rt < 31.
Definition eoir_trap (esr rt : Z) : Prop := decode_iss esr = mkIss false rt 3 0 (12, 12, 1) /\ 0 <= rt < 31.

Lemma iar_trap_spec leak m id c esr rt i rest :
  machine_wf m -> vget (m_cpus m) id = Some c -> iar_trap esr rt -> g_pending (v_gic c) = i :: rest ->
  length (v_x c) = 31%nat ->
  exists m' c', handle_icc_trap leak m id esr = Ok (true, m') /\ machine_wf m' /\
    vget (m_cpus m') id = Some c' /\ vget (v_x c') rt = Some i /\ v_irq c' = false /\
    g_pending (v_gic c') = rest /\ g_active (v_gic c') = g_active (v_gic c) ++ [i] /\
    g_icc (v_gic c') = g_icc (v_gic c) /\ m_redists m' = m_redists m /\ length (v_x c') = 31%nat.
Proof.
  intros Hm Hc [Hd Hrt] Hp Hx. destruct (handle_icc_trap_safe leak m id c esr Hm Hc) as (b & m' & E & Ha).
  pose proof E as E0. unfold handle_icc_trap in E. rewrite Hd in E.
  cbn [iss_op0 iss_op1 Z.eqb Pos.eqb negb orb] in E. rewrite (proj1 (get_cpu_ok m id c Hm Hc)) in E.
  cbn [mbind res_bind_inst iss_read iss_rt iss_key] in E.
  destruct (get_cpu_ok m id c Hm Hc) as [_ (Hq & _)]. destruct (read_iar_spec (v_gic c) Hq) as (_ & _ & Hr).
  rewrite Hp in Hr. destruct Hr as (R1 & R2 & R3).
  assert (icc_read (v_gic c) (12, 12, 0) = read_iar (v_gic c)) as Ei by done. rewrite Ei in E.
  assert (g_icc (read_iar (v_gic c)).2 = g_icc (v_gic c)) as R4.
  { unfold read_iar. rewrite Hp. cbn. by destruct (i =? VTIMER_PPI). }
  destruct (read_iar (v_gic c)) as [val g]. cbn [fst snd] in *. subst val.
  rewrite (proj2 (Z.ltb_lt rt 31)) in E by lia.
  assert (should_assert g = false) as Hsa.
  { unfold should_assert. rewrite R3. destruct (g_pending g); [done|]. by destruct (g_active (v_gic c)). }
  rewrite Hsa in E. cbn [negb mbind res_bind_inst] in E. unfold get_cpu in E.
  rewrite (vget_set_cpu m id _ c Hc) in E. cbn [mbind res_bind_inst] in E. rewrite set_cpu_twice in E.
  injection E as <- <-. eexists _, _. split_and!; [exact E0|apply Ha|by eapply vget_set_cpu|..]; try done.
  - cbn. rewrite vget_vset, Hx, Z.eqb_refl, (proj2 (Z.leb_le 0 rt)), (proj2 (Z.ltb_lt _ _)) by lia. done.
  - cbn. by rewrite length_vset.
Qed.

Lemma eoir_trap_spec m id c esr rt i :
  machine_wf m -> vget (m_cpus m) id = Some c -> eoir_trap esr rt -> vget (v_x c) rt = Some i ->
  0 <= i < 2 ^ 24 -> Z.testbit (icc_ctlr (g_icc (v_gic c))) 1 = false ->
  exists m' c', handle_icc_trap None m id esr = Ok (true, m') /\ machine_wf m' /\
    vget (m_cpus m') id = Some c' /\ v_gic c' = deactivate None (v_gic c) i /\
    (i = VTIMER_PPI -> v_vtmask c' = false).
Proof.
  intros Hm Hc [Hd Hrt] Hx Hi He. destruct (handle_icc_trap_safe None m id c esr Hm Hc) as (b & m' & E & Ha).
  pose proof E as E0. unfold handle_icc_trap in E. rewrite Hd in E.
  cbn [iss_op0 iss_op1 Z.eqb Pos.eqb negb orb] in E. rewrite (proj1 (get_cpu_ok m id c Hm Hc)) in E.
  cbn [mbind res_bind_inst iss_read iss_rt iss_key] in E.
  rewrite (proj2 (Z.eqb_neq rt 31)), Hx in E by lia. change (default 0 (Some i)) with i in E.
  cbn [icc_write arm Z.eqb Pos.eqb andb orb] in E. unfold write_eoir in E.
  rewrite cfgr_bit, He in E by lia. cbn [negb] in E.
  assert (Z.land i 0xffffff = i) as Hland.
  { change 0xffffff with (Z.ones 24). rewrite Z.land_ones by lia. apply Z.mod_small. lia. }
  rewrite Hland in E. cbn [mbind res_bind_inst] in E. unfold get_cpu in E.
  rewrite (vget_set_cpu m id _ c Hc) in E. cbn [mbind res_bind_inst] in E. rewrite set_cpu_twice in E.
  injection E as <- <-. eexists _, _. split_and!; [exact E0|apply Ha|by eapply vget_set_cpu|..].
  - cbn. by destruct (vtimer_just_deactivated _ _).
  - intros ->. destruct (get_cpu_ok m id c Hm Hc) as [_ (Hq & _)].
    destruct (deactivate_spec None (v_gic c) VTIMER_PPI Hq) as (_ & _ & _ & _ & Hn).
    assert (vtimer_just_deactivated (deactivate None (v_gic c) VTIMER_PPI) (Some VTIMER_PPI) = true) as ->;
      [|done]. unfold vtimer_just_deactivated. rewrite bool_decide_eq_true_2 by done.
    unfold is_active. by rewrite (proj2 (contains_false _ _) (Hn (or_intror eq_refl))).
Qed.

(** An interrupt is delivered once and its end reopens it. The guest's acknowledge
    returns the oldest pending interrupt [i] in the register it asked for and
    lowers the line; until the guest ends it, asserting [i] again queues
    nothing; when the guest ends [i] (EOImode 0), whatever nested handlers ran
    in between, it is no longer active, the timer mask is lifted if it was the
    timer, and the next assertion of [i] queues it again. *)
Theorem interrupt_cycle leak m id c esr rt i rest :
  machine_wf m -> vget (m_cpus m) id = Some c -> iar_trap esr rt ->
  g_pending (v_gic c) = i :: rest -> length (v_x c) = 31%nat -> 0 <= i < 2 ^ 24 ->
  exists m1 c1, handle_icc_trap leak m id esr = Ok (true, m1) /\ vget (m_cpus m1) id = Some c1 /\
    vget (v_x c1) rt = Some i /\ v_irq c1 = false /\ is_active (v_gic c1) i = true /\
    g_pending (v_gic c1) = rest /\
    (forall m2 c2 esr2 rt2, machine_wf m2 -> vget (m_cpus m2) id = Some c2 ->
       is_active (v_gic c2) i = true -> eoir_trap esr2 rt2 -> vget (v_x c2) rt2 = Some i ->
       Z.testbit (icc_ctlr (g_icc (v_gic c2))) 1 = false ->
       g_pending (push_pending (v_gic c2) i) = g_pending (v_gic c2) /\
       exists m3 c3, handle_icc_trap None m2 id esr2 = Ok (true, m3) /\
         vget (m_cpus m3) id = Some c3 /\ is_active (v_gic c3) i = false /\
         (i = VTIMER_PPI -> v_vtmask c3 = false) /\
         g_pending (push_pending (v_gic c3) i) = g_pending (v_gic c2) ++ [i]).
Proof.
  intros Hm Hc Hesr Hp Hx Hi.
  destruct (iar_trap_spec leak m id c esr rt i rest Hm Hc Hesr Hp Hx)
    as (m1 & c1 & E & _ & Hc1 & Hv & Hirq & Hp1 & Ha1 & _).
  exists m1, c1. split_and!; try done.
  { apply contains_spec. rewrite Ha1. apply elem_of_app. right. by left. }
  intros m2 c2 esr2 rt2 Hm2 Hc2 Hact Heo Hx2 Hmode.
  destruct (get_cpu_ok m2 id c2 Hm2 Hc2) as [_ (Hq & _)].
  split. { unfold push_pending. rewrite Hact. by destruct (bool_decide _). }
  destruct (eoir_trap_spec m2 id c2 esr2 rt2 i Hm2 Hc2 Heo Hx2 Hi Hmode)
    as (m3 & c3 & E3 & _ & Hc3 & Hg3 & Hvt).
  destruct (deactivate_spec None (v_gic c2) i Hq) as (Hq3 & Hp3 & _ & _ & Hn).
  specialize (Hn (or_intror eq_refl)). rewrite <- Hg3 in *.
  assert (is_active (v_gic c3) i = false) as Hna by (by apply contains_false).
  exists m3, c3. split_and!; try done. unfold push_pending. rewrite Hna, Hp3.
  apply list.NoDup_app in Hq as (_ & Hd & _). apply contains_spec in Hact.
  rewrite (proj2 (contains_false _ _)); [done|]. intros Hin. by apply (Hd i).
Qed.

Definition esr_iar1 (rt : Z) : Z :=
  1 + Z.shiftl 12 1 + Z.shiftl rt 5 + Z.shiftl 12 10 + Z.shiftl 3 20.
Definition esr_eoir1 (rt : Z) : Z :=
  Z.shiftl 12 1 + Z.shiftl rt 5 + Z.shiftl 12 10 + Z.shiftl 1 17 + Z.shiftl 3 20.

Lemma demo_fired_wf : machine_wf demo_fired.
Proof.
  apply (machine_steps_wf None demo_boot); [|apply demo_steps].
  apply machine_boot_wf. vm_compute. split; congruence.
Qed.

(** The timer of [demo_fired]: acknowledged, refused while active, ended, queued again. *)
Lemma interrupt_cycle_witness :
  exists m1 c1 m3 c3, handle_icc_trap None demo_fired 0 (esr_iar1 2) = Ok (true, m1) /\
    vget (m_cpus m1) 0 = Some c1 /\ vget (v_x c1) 2 = Some 27 /\
    handle_icc_trap None m1 0 (esr_eoir1 2) = Ok (true, m3) /\ vget (m_cpus m3) 0 = Some c3 /\
    v_vtmask c3 = false /\ g_pending (push_pending (v_gic c3) 27) = [27].
Proof.
  destruct (vget (m_cpus demo_fired) 0) as [c|] eqn:Hc; [|vm_compute in Hc; discriminate].
  destruct (interrupt_cycle None demo_fired 0 c (esr_iar1 2) 2 27 []) as (m1 & c1 & E1 & Hc1 & Hx & _ & Ha & Hp & Hend).
  - apply demo_fired_wf.
  - exact Hc.
  - split; [reflexivity|lia].
  - vm_compute in Hc. injection Hc as <-. reflexivity.
  - vm_compute in Hc. injection Hc as <-. reflexivity.
  - lia.
  - assert (machine_wf m1) as Hm1.
    { apply (machine_step_after None demo_fired); [apply demo_fired_wf|by eapply step_icc]. }
    destruct (Hend m1 c1 (esr_eoir1 2) 2 Hm1 Hc1 Ha) as (_ & m3 & c3 & E3 & Hc3 & _ & Hv & Hq).
    + split; [reflexivity|lia].
    + exact Hx.
    + assert (match handle_icc_trap None demo_fired 0 (esr_iar1 2) with
              | Ok (_, m) => match vget (m_cpus m) 0 with
                             | Some c => Z.testbit (icc_ctlr (g_icc (v_gic c))) 1
                             | None => true
                             end
              | _ => true
              end = false) as Hctlr by (vm_compute; reflexivity).
      by rewrite E1, Hc1 in Hctlr.
    + exists m1, c1, m3, c3. rewrite Hp in Hq.
      split_and!; [exact E1|exact Hc1|exact Hx|exact E3|exact Hc3|by apply Hv|exact Hq].
Defined.
