(* ===== verification/VtimerClock.v ===== *)
(** * The shared virtual counter

    [VtimerClock] of [src/hypervisor/src/hvf/mod.rs] and the way a vCPU adopts
    its offset. Hypervisor.framework defines the guest's counter as
    [mach_absolute_time() - offset]; the clock holds the one offset all vCPUs
    program, and moves it along a scaled curve while every vCPU is out of the
    guest. A lock-protected section of the code is one step here. A vCPU that
    finds a step in flight waits at most [CLOCK_ENTER_WAIT] and then enters
    anyway, so entering is always possible; a stepper that waited gets to its
    second critical section at any later time, or when it gives up. *)

From Stdlib Require Import ZArith Lia Bool.
From stdpp Require Import base numbers list list_numbers option relations.
From S2P Require Import Prelude.

(** ** The rate *)

(** Euclid's loop; [2 * k + 1] rounds do for [y < 2 ^ k]. *)
Fixpoint gcd_loop (fuel : nat) (x y : Z) : Z :=
  match fuel with
  | O => x
  | S fuel => if y =? 0 then x else gcd_loop fuel y (x mod y)
  end.

Definition reduce_ratio (a b : Z) : Z * Z :=
  let g := Z.max (gcd_loop 129 a b) 1 in (a / g, b / g).

(** The products are [u128] and do not overflow; the quotient is cut to [u64]. *)
Definition scaled_cntvct (base_guest base_host now num den : Z) : Z :=
  u64 (base_guest + u64 (sat_sub now base_host * num / den)).

(** ** The clock *)

Record VtimerClock := mkClock {
  ck_num : Z;
  ck_den : Z;
  ck_base_host : Z;
  ck_base_guest : Z;
  ck_offset : Z;
  ck_epoch : Z;
  ck_in_guest : Z;
  ck_stepping : bool;
}.

Definition set_gate (n : Z) (b : bool) (c : VtimerClock) : VtimerClock :=
  mkClock (ck_num c) (ck_den c) (ck_base_host c) (ck_base_guest c) (ck_offset c) (ck_epoch c) n b.

(** [base_host] is the host tick read by [new]. *)
Definition clock_new (reference guest_hz host_hz base_host : Z) : VtimerClock :=
  let '(num, den) :=
    if (guest_hz =? 0) || (host_hz =? 0) || (guest_hz =? host_hz) then (0, 1)
    else reduce_ratio guest_hz host_hz in
  mkClock num den base_host reference (u64 (base_host - reference)) 1 0 false.

Definition scaled (c : VtimerClock) : bool := negb (ck_num c =? 0).

Definition enter (c : VtimerClock) : VtimerClock := set_gate (ck_in_guest c + 1) (ck_stepping c) c.
Definition leave (c : VtimerClock) : VtimerClock := set_gate (ck_in_guest c - 1) (ck_stepping c) c.

(** The first critical section of [step]: [false] when it returns there. *)
Definition step_begin (c : VtimerClock) : bool * VtimerClock :=
  if negb (scaled c) then (false, c)
  else if ck_stepping c then (false, c)
  else (true, set_gate (ck_in_guest c) true c).

(** The second one, at host tick [now], after the wait. *)
Definition step_finish (now : Z) (c : VtimerClock) : bool * VtimerClock :=
  let '(advanced, c) :=
    if ck_in_guest c =? 0 then
      let target := scaled_cntvct (ck_base_guest c) (ck_base_host c) now (ck_num c) (ck_den c) in
      let next := u64 (now - target) in
      if next <? ck_offset c then
        (true, mkClock (ck_num c) (ck_den c) (ck_base_host c) (ck_base_guest c) next
                 (u64 (ck_epoch c + 1)) (ck_in_guest c) (ck_stepping c))
      else (false, c)
    else (false, c) in
  (advanced, set_gate (ck_in_guest c) false c).

Definition release (c : VtimerClock) : VtimerClock := set_gate (ck_in_guest c) false c.

(** ** The vCPUs on the clock *)

(** Out of the guest; past [clock_enter]; past [sync_vtimer_offset] and running. *)
Inductive Phase := Out | Entered | InGuest.

Record ClockVcpu := mkCv {
  cv_phase : Phase;
  cv_offset : Z;
  cv_epoch : Z;
}.

(** [sync_vtimer_offset]: program the shared offset unless the epoch is the same. *)
Definition sync_vtimer_offset (c : VtimerClock) (v : ClockVcpu) : ClockVcpu :=
  if cv_epoch v =? ck_epoch c then v else mkCv (cv_phase v) (ck_offset c) (ck_epoch c).

Definition set_phase (p : Phase) (v : ClockVcpu) : ClockVcpu := mkCv p (cv_offset v) (cv_epoch v).

(** What guest code on the vCPU reads from CNTVCT_EL0 at host tick [now]. *)
Definition cntvct (now : Z) (v : ClockVcpu) : Z := u64 (now - cv_offset v).

Record ClockSys := mkSys {
  cs_clock : VtimerClock;
  cs_now : Z;
  cs_vcpus : list ClockVcpu;
}.

Inductive clock_step : ClockSys -> ClockSys -> Prop :=
| ck_tick c t vs t' : t <= t' < 2 ^ 64 -> clock_step (mkSys c t vs) (mkSys c t' vs)
| ck_enter c t vs i v :
    vget vs i = Some v -> cv_phase v = Out ->
    clock_step (mkSys c t vs) (mkSys (enter c) t (vset i (set_phase Entered v) vs))
| ck_sync c t vs i v :
    vget vs i = Some v -> cv_phase v = Entered ->
    clock_step (mkSys c t vs)
      (mkSys c t (vset i (set_phase InGuest (sync_vtimer_offset c v)) vs))
| ck_leave c t vs i v :
    vget vs i = Some v -> cv_phase v = InGuest ->
    clock_step (mkSys c t vs) (mkSys (leave c) t (vset i (set_phase Out v) vs))
| ck_begin c t vs : clock_step (mkSys c t vs) (mkSys (step_begin c).2 t vs)
| ck_finish c t vs :
    ck_epoch c + 1 < 2 ^ 64 -> clock_step (mkSys c t vs) (mkSys (step_finish t c).2 t vs)
| ck_release c t vs : clock_step (mkSys c t vs) (mkSys (release c) t vs).

(** A VM of [n] vCPUs, none running, nothing programmed yet. *)
Definition clock_boot (reference guest_hz host_hz base_host : Z) (n : nat) : ClockSys :=
  mkSys (clock_new reference guest_hz host_hz base_host) base_host
    (replicate n (mkCv Out 0 0)).

(** ** Euclid *)

Lemma mod_halves y r : 0 < r < y -> 2 * (y mod r) < y.
Proof.
  intros Hr. pose proof (Z.mod_pos_bound y r ltac:(lia)). pose proof (Z.div_mod y r ltac:(lia)).
  assert (1 <= y / r) by (apply Z.div_le_lower_bound; lia). nia.
Qed.

Lemma gcd_loop_spec k : forall x y, 0 <= x -> 0 <= y < 2 ^ Z.of_nat k -> gcd_loop (2 * k + 1) x y = Z.gcd x y.
Proof.
  induction k as [|k IH]; intros x y Hx Hy.
  { assert (y = 0) as -> by lia. cbn. rewrite Z.gcd_0_r. lia. }
  replace (2 * S k + 1)%nat with (S (S (2 * k + 1))) by lia. cbn [gcd_loop].
  destruct (Z.eqb_spec y 0) as [->|Hy0]; [rewrite Z.gcd_0_r; lia|].
  pose proof (Z.mod_pos_bound x y ltac:(lia)) as Hr.
  assert (Z.gcd x y = Z.gcd y (x mod y)) as -> by (rewrite (Z.gcd_comm y), Z.gcd_mod, Z.gcd_comm by lia; done).
  destruct (Z.eqb_spec (x mod y) 0) as [->|Hr0]; [rewrite Z.gcd_0_r; lia|].
  rewrite IH.
  - rewrite (Z.gcd_comm (x mod y)), Z.gcd_mod, Z.gcd_comm by lia. done.
  - lia.
  - pose proof (mod_halves y (x mod y) ltac:(lia)).
    pose proof (Z.mod_pos_bound y (x mod y) ltac:(lia)).
    rewrite Nat2Z.inj_succ, Z.pow_succ_r in Hy by lia. lia.
Qed.

Lemma reduce_ratio_spec a b num den :
  0 < a < 2 ^ 64 -> 0 < b < 2 ^ 64 -> reduce_ratio a b = (num, den) ->
  num * b = den * a /\ Z.gcd num den = 1 /\ 0 < num <= a /\ 0 < den <= b.
Proof.
  intros Ha Hb. unfold reduce_ratio. change 129%nat with (2 * 64 + 1)%nat.
  rewrite gcd_loop_spec by (cbn; lia). set (g := Z.gcd a b).
  assert (0 < g) by (pose proof (Z.gcd_nonneg a b); destruct (Z.eq_dec g 0) as [E|]; [apply Z.gcd_eq_0_l in E|]; lia).
  rewrite Z.max_l by lia. intros [= <- <-].
  destruct (Z.gcd_divide_l a b) as [p Hp]. destruct (Z.gcd_divide_r a b) as [q Hq]. fold g in Hp, Hq.
  assert (Z.gcd (a / g) (b / g) = 1) as Hg1 by (apply Z.gcd_div_gcd; lia).
  rewrite Hp, Hq, !Z.div_mul in * by lia. split_and!; try done; nia.
Qed.

(** ** The invariant *)

Definition weight (v : ClockVcpu) : Z := match cv_phase v with Out => 0 | _ => 1 end.
Definition inside (vs : list ClockVcpu) : Z := foldr (fun v n => weight v + n) 0 vs.

Lemma inside_cons v vs : inside (v :: vs) = weight v + inside vs.
Proof. done. Qed.

Lemma inside_insert vs k v v' :
  vs !! k = Some v -> inside (<[k := v']> vs) = inside vs - weight v + weight v'.
Proof.
  revert k. induction vs as [|u vs IH]; intros k; [done|].
  destruct k as [|k].
  - intros [= ->]. change (<[0%nat := v']> (v :: vs)) with (v' :: vs). rewrite !inside_cons. lia.
  - intros Hk. change (<[S k := v']> (u :: vs)) with (u :: <[k := v']> vs).
    rewrite !inside_cons, (IH k Hk). lia.
Qed.

Lemma inside_vset vs i v v' :
  vget vs i = Some v -> inside (vset i v' vs) = inside vs - weight v + weight v'.
Proof.
  intros [Hi Hv]%vget_Some. unfold vset. rewrite (proj2 (Z.leb_le _ _)), (proj2 (Z.ltb_lt _ _)) by lia.
  by apply inside_insert.
Qed.

Lemma inside_zero vs : inside vs = 0 -> Forall (fun v => cv_phase v = Out) vs.
Proof.
  assert (forall l, 0 <= inside l) as Hpos.
  { induction l as [|u l IH]; [done|]. rewrite inside_cons. unfold weight. destruct (cv_phase u); lia. }
  induction vs as [|u vs IH]; [constructor|]. pose proof (Hpos vs). rewrite inside_cons. unfold weight.
  destruct (cv_phase u) eqn:E; intros H0; [|lia..]. constructor; [done|]. apply IH. lia.
Qed.

(** A vCPU whose programmed epoch is current has the clock's offset, and so has
    every vCPU running guest code. *)
Definition cv_ok (c : VtimerClock) (v : ClockVcpu) : Prop :=
  cv_epoch v <= ck_epoch c /\ (cv_epoch v = ck_epoch c -> cv_offset v = ck_offset c) /\
  (cv_phase v = InGuest -> cv_offset v = ck_offset c).

Definition sys_ok (s : ClockSys) : Prop :=
  0 <= cs_now s < 2 ^ 64 /\ 0 <= ck_offset (cs_clock s) < 2 ^ 64 /\
  0 < ck_epoch (cs_clock s) < 2 ^ 64 /\ ck_in_guest (cs_clock s) = inside (cs_vcpus s) /\
  Forall (cv_ok (cs_clock s)) (cs_vcpus s).

Lemma clock_boot_ok reference ghz hhz base n :
  is_u64 base -> sys_ok (clock_boot reference ghz hhz base n).
Proof.
  intros Hb. unfold sys_ok, clock_boot, clock_new. destruct (if _ || _ || _ then _ else _) as [num den].
  cbn [cs_now cs_clock cs_vcpus ck_offset ck_epoch ck_in_guest]. split_and!; try done; try lia.
  1-2: apply Hb. 1-2: apply Z.mod_pos_bound; lia.
  - induction n as [|n IH]; [done|]. cbn [replicate]. rewrite inside_cons. cbn [weight cv_phase]. lia.
  - apply Forall_replicate. split_and!; cbn; [lia|lia|done].
Qed.

(** What the second half of a step does to the clock. *)
Lemma step_finish_cases t c :
  (step_finish t c = (false, release c)) \/
  (ck_in_guest c = 0 /\
   let next := u64 (t - scaled_cntvct (ck_base_guest c) (ck_base_host c) t (ck_num c) (ck_den c)) in
   next < ck_offset c /\
   step_finish t c = (true, mkClock (ck_num c) (ck_den c) (ck_base_host c) (ck_base_guest c) next
                              (u64 (ck_epoch c + 1)) (ck_in_guest c) false)).
Proof.
  unfold step_finish. destruct (Z.eqb_spec (ck_in_guest c) 0); [|by left].
  cbv zeta. destruct (Z.ltb_spec (u64 (t - scaled_cntvct (ck_base_guest c) (ck_base_host c) t
    (ck_num c) (ck_den c))) (ck_offset c)); [right|by left]. done.
Qed.

Lemma clock_step_ok s s' :
  clock_step s s' -> sys_ok s ->
  sys_ok s' /\ cs_now s <= cs_now s' /\ ck_offset (cs_clock s') <= ck_offset (cs_clock s).
Proof.
  intros Hs (Hn & Ho & He & Hg & Hv). unfold sys_ok.
  destruct Hs as [c t vs t' Ht|c t vs i v Hi Hp|c t vs i v Hi Hp|c t vs i v Hi Hp|c t vs|c t vs Hep|c t vs];
    cbn [cs_now cs_clock cs_vcpus] in *.
  - split_and!; try done; lia.
  - pose proof (Forall_vget _ _ _ _ Hv Hi) as (V1 & V2 & V3).
    cbn [enter set_gate ck_offset ck_epoch ck_in_guest]. split_and!; try done; try lia.
    + rewrite (inside_vset _ _ v) by done. unfold weight at 1 2. rewrite Hp. cbn. lia.
    + apply (Forall_vset (cv_ok c)); [done|]. by split_and!.
  - pose proof (Forall_vget _ _ _ _ Hv Hi) as (V1 & V2 & V3). split_and!; try done; try lia.
    + rewrite (inside_vset _ _ v) by done. unfold weight at 1 2. rewrite Hp. cbn. lia.
    + apply Forall_vset; [done|]. unfold sync_vtimer_offset.
      destruct (Z.eqb_spec (cv_epoch v) (ck_epoch c)); split_and!; cbn; auto; lia.
  - pose proof (Forall_vget _ _ _ _ Hv Hi) as (V1 & V2 & V3).
    cbn [leave set_gate ck_offset ck_epoch ck_in_guest]. split_and!; try done; try lia.
    + rewrite (inside_vset _ _ v) by done. unfold weight at 1 2. rewrite Hp. cbn. lia.
    + apply (Forall_vset (cv_ok c)); [done|]. by split_and!.
  - unfold step_begin. destruct (negb (scaled c)); [split_and!; cbn; (done || lia)|].
    destruct (ck_stepping c); split_and!; cbn; (done || lia).
  - destruct (step_finish_cases t c) as [->|(G0 & Hlt & ->)]; [split_and!; cbn; (done || lia)|].
    cbn [snd ck_offset ck_epoch ck_in_guest]. rewrite Hg in G0. apply inside_zero in G0.
    assert (u64 (ck_epoch c + 1) = ck_epoch c + 1) as -> by (apply Z.mod_small; lia).
    split_and!; try done; try lia; [apply Z.mod_pos_bound; lia|].
    apply Forall_elem. intros v Hin. rewrite Forall_elem in Hv, G0.
    destruct (Hv v Hin) as (V1 & _ & _). specialize (G0 v Hin).
    split_and!; cbn; [lia|lia|by rewrite G0].
  - split_and!; cbn; (done || lia).
Qed.

Lemma clock_steps_ok s s' :
  rtc clock_step s s' -> sys_ok s ->
  sys_ok s' /\ cs_now s <= cs_now s' /\ ck_offset (cs_clock s') <= ck_offset (cs_clock s).
Proof.
  induction 1 as [s|s s1 s2 Hs _ IH]; intros Hok; [split_and!; (done || lia)|].
  destruct (clock_step_ok s s1 Hs Hok) as (Hok1 & ? & ?). destruct (IH Hok1) as (? & ? & ?).
  split_and!; try done; lia.
Qed.

(** ** Properties of the counter *)


Definition demo_clock : ClockSys := clock_boot 50000 325 64 1000 2.

(** vCPU 0 runs, everything leaves, the clock steps, vCPU 1 runs. *)
Definition demo_s1 : ClockSys :=
  mkSys (enter (cs_clock demo_clock)) 1000
    [mkCv InGuest (u64 (1000 - 50000)) 1; mkCv Out 0 0].
Definition demo_c2 : VtimerClock := (step_finish 1064 (step_begin (leave (cs_clock demo_s1))).2).2.
Definition demo_s2 : ClockSys :=
  mkSys (enter demo_c2) 1064
    [mkCv Out (u64 (1000 - 50000)) 1; mkCv InGuest (ck_offset demo_c2) (ck_epoch demo_c2)].

Lemma demo_run1 : rtc clock_step demo_clock demo_s1.
Proof.
  eapply rtc_l; [eapply (ck_enter _ _ _ 0); reflexivity|].
  eapply rtc_l; [eapply (ck_sync _ _ _ 0); reflexivity|]. apply rtc_refl.
Qed.

Lemma demo_run2 : rtc clock_step demo_s1 demo_s2.
Proof.
  eapply rtc_l; [eapply (ck_leave _ _ _ 0); reflexivity|].
  eapply rtc_l; [apply ck_begin|].
  eapply rtc_l; [apply (ck_tick _ _ _ 1064); vm_compute; split; congruence|].
  eapply rtc_l; [apply ck_finish; vm_compute; reflexivity|].
  eapply rtc_l; [eapply (ck_enter _ _ _ 1); reflexivity|].
  eapply rtc_l; [eapply (ck_sync _ _ _ 1); reflexivity|]. apply rtc_refl.
Qed.


(** The scaled counter is exact. For distinct non-zero frequencies the reduced
    ratio is the ratio of the frequencies in lowest terms; the curve gains
    exactly [guest_hz] counts in every [host_hz] host ticks, with no drift; and
    whenever a step moves the offset, no vCPU is in the guest and every vCPU
    that programs the new offset reads the curve's value at that instant. *)
Theorem scaled_curve_exact reference ghz hhz base :
  is_u64 ghz -> is_u64 hhz -> ghz <> 0 -> hhz <> 0 -> ghz <> hhz -> is_u64 base ->
  let c := clock_new reference ghz hhz base in
  ck_num c * hhz = ck_den c * ghz /\ Z.gcd (ck_num c) (ck_den c) = 1 /\
  (forall secs, 0 <= secs ->
     scaled_cntvct reference base (base + secs * hhz) (ck_num c) (ck_den c) =
     u64 (reference + secs * ghz)) /\
  (forall n s c' t, rtc clock_step (clock_boot reference ghz hhz base n) s ->
     step_finish t (cs_clock s) = (true, c') ->
     Forall (fun v => cv_phase v = Out) (cs_vcpus s) /\
     u64 (t - ck_offset c') =
       scaled_cntvct (ck_base_guest c') (ck_base_host c') t (ck_num c') (ck_den c')).
Proof.
  intros Hg Hh Hg0 Hh0 Hne Hb c. subst c. unfold is_u64 in *.
  pose proof (clock_boot_ok reference ghz hhz base) as Hboot.
  unfold clock_new at 1 2 3 4 5 6. rewrite (proj2 (Z.eqb_neq _ _) Hg0), (proj2 (Z.eqb_neq _ _) Hh0), (proj2 (Z.eqb_neq _ _) Hne).
  cbn [orb]. destruct (reduce_ratio ghz hhz) as [num den] eqn:Er. cbn [ck_num ck_den].
  apply reduce_ratio_spec in Er as (E & Hgcd & Hnum & Hden); [|lia..]. split_and!; [done|done|..].
  - intros secs Hs. unfold scaled_cntvct, sat_sub. rewrite Z.max_r by nia.
    replace (base + secs * hhz - base) with (secs * hhz) by lia.
    replace (secs * hhz * num) with (secs * ghz * den) by nia. rewrite Z.div_mul by lia.
    unfold u64. by rewrite Zplus_mod_idemp_r.
  - intros n s c' t Hr Hf. destruct (clock_steps_ok _ s Hr (Hboot n Hb)) as ((_ & _ & _ & Hin & _) & _ & _).
    destruct (step_finish_cases t (cs_clock s)) as [Ef|(G0 & _ & Ef)]; rewrite Hf in Ef;
      [discriminate|]. injection Ef as ->. cbn. split; [apply inside_zero; congruence|].
    set (tg := scaled_cntvct _ _ _ _ _). assert (0 <= tg < 2 ^ 64) by (apply Z.mod_pos_bound; lia).
    unfold u64. rewrite Zminus_mod_idemp_r. replace (t - (t - tg)) with tg by lia. by apply Z.mod_small.
Qed.

Lemma scaled_curve_exact_witness :
  scaled_cntvct 50000 1000 (1000 + 3 * 24000000) 325 64 = u64 (50000 + 3 * 121875000).
Proof.
  destruct (scaled_curve_exact 50000 121875000 24000000 1000) as (_ & _ & H & _);
    [vm_compute; split; congruence..|lia|lia|lia|vm_compute; split; congruence|].
  exact (H 3 ltac:(lia)).
Defined.

(** The guard against moving the offset backwards compares it as an unsigned
    number, so it also stops the clock for good. On a host that has been up
    longer than the guest's counter says (the anchor tick is past the reference
    count), the offset starts positive; once the scaled curve overtakes the
    host tick the next offset wraps round to near 2^64, and no step advances
    again: the guest's counter is left running at the host's rate. *)
Theorem curve_past_host_tick_stalls reference ghz hhz base n s :
  is_u64 reference -> is_u64 base -> reference <= base ->
  rtc clock_step (clock_boot reference ghz hhz base n) s ->
  let c := cs_clock s in
  let target := scaled_cntvct (ck_base_guest c) (ck_base_host c) (cs_now s) (ck_num c) (ck_den c) in
  cs_now s < target -> target - cs_now s <= 2 ^ 64 - (base - reference) ->
  step_finish (cs_now s) c = (false, release c).
Proof.
  intros Hr Hb Hle Hrun c target Hlt Hgap. unfold is_u64 in *.
  destruct (clock_steps_ok _ s Hrun (clock_boot_ok reference ghz hhz base n Hb)) as (Hok & _ & Hoff).
  assert (ck_offset (cs_clock (clock_boot reference ghz hhz base n)) = base - reference) as E0.
  { unfold clock_boot, clock_new. destruct (if _ || _ || _ then _ else _) as [num den]. cbn.
    apply Z.mod_small. lia. }
  rewrite E0 in Hoff. destruct Hok as (Hn & Ho & _).
  destruct (step_finish_cases (cs_now s) c) as [E|(_ & Hnext & _)]; [done|]. exfalso.
  fold target in Hnext. assert (0 <= target < 2 ^ 64) by (apply Z.mod_pos_bound; lia).
  assert (u64 (cs_now s - target) = cs_now s - target + 2 ^ 64) as Eu by word_lia.
  rewrite Eu in Hnext. subst c. lia.
Qed.

Lemma curve_past_host_tick_stalls_witness :
  step_finish 1200 (clock_new 500 325 64 1000) = (false, release (clock_new 500 325 64 1000)).
Proof.
  apply (curve_past_host_tick_stalls 500 325 64 1000 1
    (mkSys (clock_new 500 325 64 1000) 1200 (cs_vcpus (clock_boot 500 325 64 1000 1)))).
  - vm_compute. split; congruence.
  - vm_compute. split; congruence.
  - lia.
  - eapply rtc_l; [apply (ck_tick _ _ _ 1200); vm_compute; split; congruence|apply rtc_refl].
  - vm_compute. reflexivity.
  - vm_compute. congruence.
Defined.
