(* ===== verification/ICache.v ===== *)
(** * Instruction-cache coherence by stage-2 W^X

    [src/hypervisor/src/hvf/icache_wx.rs]: the process-global state of the
    module, arming and disarming, the two fault handlers and the hook after a
    device's write. Stage-2 permissions, RAM and the instruction cache belong to
    the hardware and to Hypervisor.framework: the class [HvMem] has the two calls
    the module makes and what can be observed of the machine, [HvMemLaws] what
    the calls promise. A step relation interleaves the vCPUs' stores and fetches,
    their faults (a fault is taken by the hardware first and handled later, under
    the module's lock), the devices' transfers and the cache's own fills and
    evictions. *)

From Stdlib Require Import ZArith Lia Bool.
From stdpp Require Import base numbers list list_numbers gmap option.
From S2P Require Import Prelude.

(** ** Data *)

Definition HV_MEMORY_READ : Z := Z.shiftl 1 0.
Definition HV_MEMORY_WRITE : Z := Z.shiftl 1 1.
Definition HV_MEMORY_EXEC : Z := Z.shiftl 1 2.

Record Region := mkRegion { r_ipa : Z; r_host_va : Z; r_size : Z }.

Definition contains (r : Region) (ipa : Z) : bool := (r_ipa r <=? ipa) && (ipa - r_ipa r <? r_size r).

Definition host_of (r : Region) (ipa : Z) : Z := u64 (r_host_va r + (ipa - r_ipa r)).

Inductive PageState := Writable | Executable | Relaxed.

#[export] Instance PageState_eq_dec : EqDecision PageState.
Proof. solve_decision. Defined.

Record Page := mkPage { pg_state : PageState; pg_bounces : Z }.

Record State := mkState {
  st_regions : list Region;
  st_pages : gmap Z Page;
  st_page_size : Z;
  st_bounce_limit : Z;
}.

(** The module's statics. *)
Record Wx := mkWx {
  wx_state : option State;
  wx_armed : bool;
  wx_enforced : bool;
  wx_exec_faults : Z;
  wx_write_faults : Z;
  wx_relaxed_pages : Z;
  wx_dma_invalidations : Z;
  wx_dma_bytes : Z;
}.

Definition wx_boot : Wx := mkWx None false false 0 0 0 0 0.

Definition exec_grant (bounces limit : Z) : PageState :=
  if negb (limit =? 0) && (limit <=? bounces) then Relaxed else Executable.

Definition flags_for (s : PageState) : Z :=
  match s with
  | Writable => Z.lor HV_MEMORY_READ HV_MEMORY_WRITE
  | Executable => Z.lor HV_MEMORY_READ HV_MEMORY_EXEC
  | Relaxed => Z.lor (Z.lor HV_MEMORY_READ HV_MEMORY_WRITE) HV_MEMORY_EXEC
  end.

(** [ipa & !(page_size as u64 - 1)]. *)
Definition page_of (page_size ipa : Z) : Z := Z.ldiff ipa (page_size - 1).

(** The machine below the module: what [hv_vm_protect] and
    [sys_icache_invalidate] act on, seen through the stage-2 permissions of a
    guest address, and the RAM byte and the instruction-cache line at a host
    address. *)
Class HvMem (M : Type) := {
  hv_perm : M -> Z -> Z;
  hv_ram : M -> Z -> Z;
  hv_icache : M -> Z -> option Z;
  hv_vm_protect : M -> Z -> Z -> Z -> Z * M;
  sys_icache_invalidate : M -> Z -> Z -> M;
}.

Definition same_perm {M} `{HvMem M} (m m' : M) : Prop := forall x, hv_perm m' x = hv_perm m x.
Definition same_ram {M} `{HvMem M} (m m' : M) : Prop := forall a, hv_ram m' a = hv_ram m a.
Definition same_icache {M} `{HvMem M} (m m' : M) : Prop := forall a, hv_icache m' a = hv_icache m a.

Class HvMemLaws (M : Type) `{HvMem M} := {
  protect_done m ipa size flags m' :
    hv_vm_protect m ipa size flags = (0, m') ->
    (forall x, hv_perm m' x = if in_range ipa (ipa + size) x then flags else hv_perm m x) /\
    same_ram m m' /\ same_icache m m';
  protect_refused m ipa size flags rc m' :
    hv_vm_protect m ipa size flags = (rc, m') -> rc <> 0 ->
    same_perm m m' /\ same_ram m m' /\ same_icache m m';
  invalidate_drops m va len :
    (forall a, hv_icache (sys_icache_invalidate m va len) a =
       if in_range va (va + len) a then None else hv_icache m a) /\
    same_perm m (sys_icache_invalidate m va len) /\ same_ram m (sys_icache_invalidate m va len);
}.

(** ** Operations *)

Inductive ArmError :=
| NotPageMultiple (ipa size : Z)
| ProtectFailed (ipa size rc : Z).

Section Ops.
Context {M : Type} `{HvMem M}.

Definition protect (m : M) (ipa size flags : Z) : res Z unit * M :=
  let '(rc, m) := hv_vm_protect m ipa size flags in
  (if rc =? 0 then Ok tt else Err rc, m).

(** The loop of [arm]. *)
Fixpoint arm_regions (strict : bool) (page_size : Z) (regions : list (Z * Z * Z)) (m : M) :
    res ArmError (list Region) * M :=
  match regions with
  | [] => (Ok [], m)
  | (ipa, host_va, size) :: regions =>
      if strict && (negb (ipa mod page_size =? 0) || negb (size mod page_size =? 0)) then
        (Err (NotPageMultiple ipa size), m)
      else
        let m := sys_icache_invalidate m host_va size in
        let '(r, m) :=
          if strict then protect m ipa size (Z.lor HV_MEMORY_READ HV_MEMORY_WRITE) else (Ok tt, m) in
        match r with
        | Err rc => (Err (ProtectFailed ipa size rc), m)
        | _ =>
            let '(rest, m) := arm_regions strict page_size regions m in
            (regs ← rest; Ok (mkRegion ipa host_va size :: regs), m)
        end
  end.

(** [arm]; [strict], [page_size] and [limit] are what the environment gives. *)
Definition arm (strict : bool) (page_size limit : Z) (regions : list (Z * Z * Z)) (w : Wx) (m : M) :
    res ArmError unit * Wx * M :=
  let '(r, m) := arm_regions strict page_size regions m in
  match r with
  | Ok regs =>
      (Ok tt,
       mkWx (Some (mkState regs ∅ page_size limit)) true strict (wx_exec_faults w) (wx_write_faults w)
         (wx_relaxed_pages w) (wx_dma_invalidations w) (wx_dma_bytes w), m)
  | Err e => (Err e, w, m)
  | Panic => (Panic, w, m)
  | NoFuel => (NoFuel, w, m)
  end.

Definition unprotect (m : M) (r : Region) : M :=
  (protect m (r_ipa r) (r_size r)
     (Z.lor (Z.lor HV_MEMORY_READ HV_MEMORY_WRITE) HV_MEMORY_EXEC)).2.

Definition disarm (w : Wx) (m : M) : Wx * M :=
  let m :=
    match wx_state w with
    | Some state => if wx_enforced w then foldl unprotect m (st_regions state) else m
    | None => m
    end in
  (mkWx None false false (wx_exec_faults w) (wx_write_faults w) (wx_relaxed_pages w)
     (wx_dma_invalidations w) (wx_dma_bytes w), m).

(** The state and the region an execute fault is about. *)
Definition exec_target (w : Wx) (ipa : Z) : option (State * Region) :=
  if negb (wx_enforced w) then None
  else
    state ← wx_state w;
    region ← find (fun r => contains r ipa) (st_regions state);
    Some (state, region).

Definition exec_invalidate (state : State) (region : Region) (ipa : Z) (m : M) : M :=
  sys_icache_invalidate m (host_of region (page_of (st_page_size state) ipa)) (st_page_size state).

(** [entry(page).or_insert(..)]. *)
Definition entry (page : Z) (pages : gmap Z Page) : Page := default (mkPage Writable 0) (pages !! page).

Definition set_pages (pages : gmap Z Page) (state : State) : State :=
  mkState (st_regions state) pages (st_page_size state) (st_bounce_limit state).

(** From the lookup of the page to the end of [on_exec_fault]. *)
Definition exec_commit (w : Wx) (state : State) (ipa : Z) (m : M) : bool * Wx * M :=
  let page := page_of (st_page_size state) ipa in
  let e := entry page (st_pages state) in
  let granted := exec_grant (pg_bounces e) (st_bounce_limit state) in
  let put (e : Page) := Some (set_pages (<[page := e]> (st_pages state)) state) in
  let '(r, m) := protect m page (st_page_size state) (flags_for granted) in
  match r with
  | Ok _ =>
      (true,
       mkWx (put (mkPage granted (pg_bounces e))) (wx_armed w) (wx_enforced w)
         (u64 (wx_exec_faults w + 1)) (wx_write_faults w)
         (if bool_decide (granted = Relaxed) && negb (bool_decide (pg_state e = Relaxed))
          then u64 (wx_relaxed_pages w + 1) else wx_relaxed_pages w)
         (wx_dma_invalidations w) (wx_dma_bytes w), m)
  | _ =>
      (false,
       mkWx (put e) (wx_armed w) (wx_enforced w) (wx_exec_faults w) (wx_write_faults w)
         (wx_relaxed_pages w) (wx_dma_invalidations w) (wx_dma_bytes w), m)
  end.

Definition on_exec_fault (w : Wx) (ipa : Z) (m : M) : bool * Wx * M :=
  match exec_target w ipa with
  | None => (false, w, m)
  | Some (state, region) => exec_commit w state ipa (exec_invalidate state region ipa m)
  end.

Definition on_write_fault (w : Wx) (ipa : Z) (m : M) : bool * Wx * M :=
  if negb (wx_enforced w) then (false, w, m)
  else
    match wx_state w with
    | None => (false, w, m)
    | Some state =>
        if negb (existsb (fun r => contains r ipa) (st_regions state)) then (false, w, m)
        else
          let page := page_of (st_page_size state) ipa in
          match st_pages state !! page with
          | None => (false, w, m)
          | Some e =>
              if negb (bool_decide (pg_state e = Executable)) then (false, w, m)
              else
                let '(r, m) := protect m page (st_page_size state) (flags_for Writable) in
                match r with
                | Ok _ =>
                    (true,
                     mkWx (Some (set_pages
                             (<[page := mkPage Writable (sat_add32 (pg_bounces e) 1)]> (st_pages state))
                             state))
                       (wx_armed w) (wx_enforced w) (wx_exec_faults w) (u64 (wx_write_faults w + 1))
                       (wx_relaxed_pages w) (wx_dma_invalidations w) (wx_dma_bytes w), m)
                | _ => (false, w, m)
                end
          end
    end.

Definition on_device_write (w : Wx) (dst len : Z) (m : M) : Wx * M :=
  if (len =? 0) || negb (wx_armed w) then (w, m)
  else
    (mkWx (wx_state w) (wx_armed w) (wx_enforced w) (wx_exec_faults w) (wx_write_faults w)
       (wx_relaxed_pages w) (u64 (wx_dma_invalidations w + 1)) (u64 (wx_dma_bytes w + len)),
     sys_icache_invalidate m dst len).
End Ops.

(** ** The machine with its vCPUs and devices *)

(** What a vCPU is doing: [ExecFault] and [WriteFault] have left the guest with
    a fault not yet handled, [ExecHeld] is inside [on_exec_fault], between the
    invalidation and the change of permissions, holding the module's lock. *)
Inductive Phase :=
| Running
| ExecFault (ipa : Z)
| ExecHeld (ipa : Z)
| WriteFault (ipa : Z)
| Stopped.

Record Sys (M : Type) := mkSys {
  y_hw : M;
  y_wx : Wx;
  y_cpus : list Phase;
  y_dma : list (Z * Z);
}.
Arguments mkSys {M} _ _ _ _.
Arguments y_hw {M} _.
Arguments y_wx {M} _.
Arguments y_cpus {M} _.
Arguments y_dma {M} _.

(** What an observer sees of a step. [EvMmio] is a guest store the module did
    not claim: the vCPU goes on to handle it as a device access. *)
Inductive Event :=
| EvStore (ipa v : Z)
| EvFetch (ipa v : Z)
| EvExecFault (ipa : Z)
| EvWriteFault (ipa : Z)
| EvMmio (ipa : Z)
| EvStop (ipa : Z)
| EvTau.

Definition held (p : Phase) : bool := match p with ExecHeld _ => true | _ => false end.

(** A transfer in flight covers the host address. *)
Definition in_flight (dma : list (Z * Z)) (a : Z) : bool :=
  existsb (fun '(d, n) => in_range d (d + n) a) dma.

Section Steps.
Context {M : Type} `{HvMem M}.

(** Guest address [x] is RAM at host address [a]. *)
Definition ram_at (w : Wx) (x a : Z) : Prop :=
  exists state r, wx_state w = Some state /\ r ∈ st_regions state /\ contains r x = true /\ a = host_of r x.

Definition can_write (m : M) (x : Z) : bool := has_bit (hv_perm m x) 1.
Definition can_exec (m : M) (x : Z) : bool := has_bit (hv_perm m x) 2.

Definition set_phase (i : nat) (p : Phase) (y : Sys M) : Sys M :=
  mkSys (y_hw y) (y_wx y) (<[i := p]> (y_cpus y)) (y_dma y).
Definition set_hw (m : M) (y : Sys M) : Sys M := mkSys m (y_wx y) (y_cpus y) (y_dma y).

(** Nobody holds the module's lock. *)
Definition unlocked (y : Sys M) : Prop := Forall (fun p => held p = false) (y_cpus y).

Inductive wx_step : Sys M -> Event -> Sys M -> Prop :=
| step_store y i x a v m' :
    y_cpus y !! i = Some Running -> ram_at (y_wx y) x a -> can_write (y_hw y) x = true ->
    same_perm (y_hw y) m' -> same_icache (y_hw y) m' ->
    (forall b, hv_ram m' b = if a =? b then v else hv_ram (y_hw y) b) ->
    wx_step y (EvStore x v) (set_hw m' y)
| step_store_fault y i x a :
    y_cpus y !! i = Some Running -> ram_at (y_wx y) x a -> can_write (y_hw y) x = false ->
    wx_step y (EvWriteFault x) (set_phase i (WriteFault x) y)
| step_fetch y i x a v m' :
    y_cpus y !! i = Some Running -> ram_at (y_wx y) x a -> can_exec (y_hw y) x = true ->
    v = default (hv_ram (y_hw y) a) (hv_icache (y_hw y) a) ->
    same_perm (y_hw y) m' -> same_ram (y_hw y) m' ->
    (forall b, hv_icache m' b = if a =? b then Some v else hv_icache (y_hw y) b) ->
    wx_step y (EvFetch x v) (set_hw m' y)
| step_fetch_fault y i x a :
    y_cpus y !! i = Some Running -> ram_at (y_wx y) x a -> can_exec (y_hw y) x = false ->
    wx_step y (EvExecFault x) (set_phase i (ExecFault x) y)
| step_exec_begin y i x state region :
    y_cpus y !! i = Some (ExecFault x) -> unlocked y -> exec_target (y_wx y) x = Some (state, region) ->
    wx_step y EvTau (set_phase i (ExecHeld x) (set_hw (exec_invalidate state region x (y_hw y)) y))
| step_exec_refused y i x :
    y_cpus y !! i = Some (ExecFault x) -> unlocked y -> exec_target (y_wx y) x = None ->
    wx_step y (EvStop x) (set_phase i Stopped y)
| step_exec_end y i x state region ok w' m' :
    y_cpus y !! i = Some (ExecHeld x) -> exec_target (y_wx y) x = Some (state, region) ->
    exec_commit (y_wx y) state x (y_hw y) = (ok, w', m') ->
    wx_step y (if ok then EvTau else EvStop x)
      (mkSys m' w' (<[i := if ok then Running else Stopped]> (y_cpus y)) (y_dma y))
| step_write_fault y i x ok w' m' :
    y_cpus y !! i = Some (WriteFault x) -> unlocked y ->
    on_write_fault (y_wx y) x (y_hw y) = (ok, w', m') ->
    wx_step y (if ok then EvTau else EvMmio x) (mkSys m' w' (<[i := Running]> (y_cpus y)) (y_dma y))
| step_dma_begin y d n :
    wx_step y EvTau (mkSys (y_hw y) (y_wx y) (y_cpus y) ((d, n) :: y_dma y))
| step_dma_bytes y m' :
    same_perm (y_hw y) m' -> same_icache (y_hw y) m' ->
    (forall a, in_flight (y_dma y) a = false -> hv_ram m' a = hv_ram (y_hw y) a) ->
    wx_step y EvTau (set_hw m' y)
| step_dma_done y d n l1 l2 w' m' :
    y_dma y = l1 ++ (d, n) :: l2 -> on_device_write (y_wx y) d n (y_hw y) = (w', m') ->
    wx_step y EvTau (mkSys m' w' (y_cpus y) (l1 ++ l2))
| step_cache y m' :
    same_perm (y_hw y) m' -> same_ram (y_hw y) m' ->
    (forall a, hv_icache m' a = hv_icache (y_hw y) a \/ hv_icache m' a = None \/
       (hv_icache m' a = Some (hv_ram (y_hw y) a) /\
        exists x, ram_at (y_wx y) x a /\ can_exec (y_hw y) x = true)) ->
    wx_step y EvTau (set_hw m' y).

Inductive wx_run : Sys M -> list Event -> Sys M -> Prop :=
| run_nil y : wx_run y [] y
| run_snoc y es y' e y'' : wx_run y es y' -> wx_step y' e y'' -> wx_run y (es ++ [e]) y''.

(** No two guest addresses share a host byte, and an address is in one region. *)
Definition layout_ok (rs : list Region) : Prop :=
  Forall (fun r => 0 <= r_ipa r /\ 0 <= r_host_va r /\ r_host_va r + r_size r <= 2 ^ 64) rs /\
  (forall r s x, r ∈ rs -> s ∈ rs -> contains r x = true -> contains s x = true -> r = s) /\
  (forall r s x y, r ∈ rs -> s ∈ rs -> contains r x = true -> contains s y = true ->
     host_of r x = host_of s y -> x = y).

(** Regions of whole pages, as a strict [arm] accepts them. *)
Definition paged (k : Z) (rs : list Region) : Prop :=
  Forall (fun r => r_ipa r mod 2 ^ k = 0 /\ r_size r mod 2 ^ k = 0) rs.
End Steps.

(** ** Pages *)

Lemma page_of_spec k x : 0 <= k -> page_of (2 ^ k) x = x - x mod 2 ^ k.
Proof.
  intros Hk. unfold page_of. replace (2 ^ k - 1) with (Z.ones k) by (rewrite Z.ones_equiv; lia).
  rewrite Z.ldiff_ones_r, Z.shiftl_mul_pow2, Z.shiftr_div_pow2 by done.
  pose proof (Z.div_mod x (2 ^ k)). assert (0 < 2 ^ k) by (apply Z.pow_pos_nonneg; lia). lia.
Qed.

Lemma page_of_range k x z :
  0 <= k -> page_of (2 ^ k) x = page_of (2 ^ k) z <->
  in_range (page_of (2 ^ k) z) (page_of (2 ^ k) z + 2 ^ k) x = true.
Proof.
  intros Hk. rewrite in_range_spec, !page_of_spec by done.
  assert (0 < 2 ^ k) as Hp by (apply Z.pow_pos_nonneg; lia).
  pose proof (Z.mod_pos_bound x (2 ^ k) Hp). pose proof (Z.mod_pos_bound z (2 ^ k) Hp). split; [lia|].
  intros Hin. pose proof (Z.div_mod x (2 ^ k) ltac:(lia)). pose proof (Z.div_mod z (2 ^ k) ltac:(lia)).
  assert (z / 2 ^ k = x / 2 ^ k) as E by (apply (Z.div_unique x _ _ (x - 2 ^ k * (z / 2 ^ k))); lia).
  rewrite E in *. lia.
Qed.

Lemma region_contains_spec r x : contains r x = true <-> r_ipa r <= x < r_ipa r + r_size r.
Proof. unfold contains. rewrite andb_true_iff, Z.leb_le, Z.ltb_lt. lia. Qed.

(** The page of an address of a region is in the region. *)
Lemma page_in_region k rs r x :
  0 <= k -> paged k rs -> r ∈ rs -> contains r x = true ->
  r_ipa r <= page_of (2 ^ k) x /\ page_of (2 ^ k) x + 2 ^ k <= r_ipa r + r_size r.
Proof.
  intros Hk Hp Hr Hc. unfold paged in Hp. rewrite Forall_elem in Hp. destruct (Hp r Hr) as [Ha Hs].
  apply region_contains_spec in Hc. rewrite page_of_spec by done.
  assert (0 < 2 ^ k) as Hpos by (apply Z.pow_pos_nonneg; lia).
  pose proof (Z.mod_pos_bound x (2 ^ k) Hpos).
  apply Z.mod_divide in Ha as [a Ha]; [|lia]. apply Z.mod_divide in Hs as [s Hs]; [|lia].
  pose proof (Z.div_mod x (2 ^ k) ltac:(lia)).
  assert (a <= x / 2 ^ k) by (apply Z.div_le_lower_bound; lia).
  assert (x / 2 ^ k < a + s) by (apply Z.div_lt_upper_bound; lia). nia.
Qed.

Lemma host_of_eq rs r x :
  layout_ok rs -> r ∈ rs -> contains r x = true -> host_of r x = r_host_va r + (x - r_ipa r).
Proof.
  intros (Hl & _) Hr Hc%region_contains_spec. rewrite Forall_elem in Hl. specialize (Hl r Hr).
  unfold host_of, u64. apply Z.mod_small. lia.
Qed.

(** The lines of a page are the host range [on_exec_fault] invalidates. *)
Lemma page_lines k rs r x z :
  0 <= k -> layout_ok rs -> paged k rs -> r ∈ rs -> contains r x = true ->
  page_of (2 ^ k) x = page_of (2 ^ k) z ->
  in_range (host_of r (page_of (2 ^ k) z)) (host_of r (page_of (2 ^ k) z) + 2 ^ k) (host_of r x) = true.
Proof.
  intros Hk Hl Hp Hr Hc E. destruct (page_in_region k rs r x Hk Hp Hr Hc) as [H1 H2].
  pose proof (proj1 (page_of_range k x z Hk) E) as Hx. rewrite E in H1, H2.
  assert (0 < 2 ^ k) by (apply Z.pow_pos_nonneg; lia).
  assert (contains r (page_of (2 ^ k) z) = true) as Hc' by (apply region_contains_spec; lia).
  rewrite (host_of_eq rs r x), (host_of_eq rs r _) by done.
  apply in_range_spec in Hx. apply in_range_spec. lia.
Qed.

Definition state_of (pages : gmap Z Page) (page : Z) : PageState := pg_state (entry page pages).

Lemma state_of_insert pages p e q : state_of (<[p := e]> pages) q = if p =? q then pg_state e else state_of pages q.
Proof.
  unfold state_of, entry. destruct (Z.eqb_spec p q) as [->|]; [by rewrite lookup_insert_eq|].
  by rewrite lookup_insert_ne.
Qed.

Lemma flags_write s : has_bit (flags_for s) 1 = negb (bool_decide (s = Executable)).
Proof. by destruct s. Qed.

Lemma flags_exec s : has_bit (flags_for s) 2 = negb (bool_decide (s = Writable)).
Proof. by destruct s. Qed.

(** ** The invariant *)

Section Invariant.
Context {M : Type} `{HvMemLaws M} (rs : list Region) (k lim : Z).
Context (Hk : 0 <= k) (Hlay : layout_ok rs) (Hpaged : paged k rs) (Hlim : is_u32 lim).

Local Notation page x := (page_of (2 ^ k) x).

Definition page_ok (e : Page) : Prop :=
  0 <= pg_bounces e /\
  match pg_state e with
  | Writable => lim <> 0 -> pg_bounces e <= lim
  | Executable => lim <> 0 -> pg_bounces e < lim
  | Relaxed => lim <> 0 /\ pg_bounces e = lim
  end.

(** The hardware enforces what the module believes. *)
Definition perm_ok (pages : gmap Z Page) (m : M) : Prop :=
  forall r x, r ∈ rs -> contains r x = true -> hv_perm m x = flags_for (state_of pages (page x)).

(** An executable page has no stale line, transfers in flight apart. *)
Definition fresh_ok (pages : gmap Z Page) (m : M) (dma : list (Z * Z)) : Prop :=
  forall r x v, r ∈ rs -> contains r x = true -> state_of pages (page x) = Executable ->
    hv_icache m (host_of r x) = Some v -> v = hv_ram m (host_of r x) \/ in_flight dma (host_of r x) = true.

(** A writable page about to be granted execution has no line at all. *)
Definition held_ok (pages : gmap Z Page) (m : M) (cpus : list Phase) : Prop :=
  forall i z r x, cpus !! i = Some (ExecHeld z) -> r ∈ rs -> contains r x = true -> page x = page z ->
    state_of pages (page x) = Writable -> hv_icache m (host_of r x) = None.

Definition lock_ok (cpus : list Phase) : Prop :=
  forall i j z w, cpus !! i = Some (ExecHeld z) -> cpus !! j = Some (ExecHeld w) -> i = j.

Definition parts_ok (pages : gmap Z Page) (y : Sys M) : Prop :=
  map_Forall (fun _ e => page_ok e) pages /\ perm_ok pages (y_hw y) /\
  fresh_ok pages (y_hw y) (y_dma y) /\ held_ok pages (y_hw y) (y_cpus y) /\ lock_ok (y_cpus y).

Definition wx_is (pages : gmap Z Page) (w : Wx) : Prop :=
  wx_state w = Some (mkState rs pages (2 ^ k) lim) /\ wx_armed w = true /\ wx_enforced w = true.

Definition wx_inv (y : Sys M) : Prop := exists pages, wx_is pages (y_wx y) /\ parts_ok pages y.

Lemma ram_at_region pages w x a : wx_is pages w -> ram_at w x a -> exists r, r ∈ rs /\ contains r x = true /\ a = host_of r x.
Proof. intros (E & _) (st & r & Es & Hr & Hc & ->). rewrite E in Es. injection Es as <-. by exists r. Qed.

Lemma host_inj r s x y :
  r ∈ rs -> s ∈ rs -> contains r x = true -> contains s y = true -> host_of r x = host_of s y -> x = y.
Proof. destruct Hlay as (_ & _ & Hi). apply Hi. Qed.

Lemma entry_ok pages p : map_Forall (fun _ e => page_ok e) pages -> page_ok (entry p pages).
Proof.
  intros Hb. unfold entry. destruct (pages !! p) as [e|] eqn:E; [by apply (Hb p)|].
  split; cbn; unfold is_u32 in Hlim; lia.
Qed.

Lemma perm_write pages m x r :
  perm_ok pages m -> r ∈ rs -> contains r x = true ->
  can_write m x = negb (bool_decide (state_of pages (page x) = Executable)).
Proof. intros Hp Hr Hc. unfold can_write. by rewrite (Hp r x Hr Hc), flags_write. Qed.

Lemma perm_exec pages m x r :
  perm_ok pages m -> r ∈ rs -> contains r x = true ->
  can_exec m x = negb (bool_decide (state_of pages (page x) = Writable)).
Proof. intros Hp Hr Hc. unfold can_exec. by rewrite (Hp r x Hr Hc), flags_exec. Qed.

Lemma perm_same pages m m' : perm_ok pages m -> same_perm m m' -> perm_ok pages m'.
Proof. intros Hp Hs r x Hr Hc. rewrite Hs. by apply (Hp r). Qed.

(** A vCPU that changes phase without taking the lock. *)
Lemma held_phase pages m cpus i p :
  held p = false -> held_ok pages m cpus -> held_ok pages m (<[i := p]> cpus).
Proof.
  intros Hp Hh j z r x Hj. apply list_lookup_insert_Some in Hj as [(-> & -> & _)|(_ & Hj)]; [done|].
  by apply (Hh j).
Qed.

Lemma lock_phase cpus i p : held p = false -> lock_ok cpus -> lock_ok (<[i := p]> cpus).
Proof.
  intros Hp Hl a b z w Ha Hb. apply list_lookup_insert_Some in Ha as [(-> & -> & _)|(_ & Ha)]; [done|].
  apply list_lookup_insert_Some in Hb as [(-> & -> & _)|(_ & Hb)]; [done|]. by eapply Hl.
Qed.

Lemma unlocked_none (cpus : list Phase) i z :
  Forall (fun p => held p = false) cpus -> cpus !! i = Some (ExecHeld z) -> False.
Proof. intros Hf Hi. by pose proof (Forall_lookup_1 _ _ _ _ Hf Hi). Qed.

(** Steps of the hardware alone. *)
Lemma store_inv pages y x a v m' :
  wx_is pages (y_wx y) -> parts_ok pages y -> ram_at (y_wx y) x a -> can_write (y_hw y) x = true ->
  same_perm (y_hw y) m' -> same_icache (y_hw y) m' ->
  (forall b, hv_ram m' b = if a =? b then v else hv_ram (y_hw y) b) -> parts_ok pages (set_hw m' y).
Proof.
  intros Hw (Hb & Hp & Hf & Hh & Hl) Hr Hcw Sp Si Hm.
  destruct (ram_at_region _ _ _ _ Hw Hr) as (r & Hin & Hc & ->).
  rewrite (perm_write _ _ _ _ Hp Hin Hc) in Hcw. apply negb_true_iff, bool_decide_eq_false in Hcw.
  split_and!; cbn; try done; [by eapply perm_same| |].
  - intros s z u Hs Hz Hx Hi. rewrite Si in Hi. rewrite Hm. destruct (Z.eqb_spec (host_of r x) (host_of s z)) as [E|].
    + apply (host_inj r s x z) in E; [by subst|done..].
    + by apply Hf.
  - intros i z s w Hi. rewrite Si. by apply (Hh i z).
Qed.

Lemma cache_inv pages y m' :
  wx_is pages (y_wx y) -> parts_ok pages y ->
  same_perm (y_hw y) m' -> same_ram (y_hw y) m' ->
  (forall a, hv_icache m' a = hv_icache (y_hw y) a \/ hv_icache m' a = None \/
     (hv_icache m' a = Some (hv_ram (y_hw y) a) /\
      exists x, ram_at (y_wx y) x a /\ can_exec (y_hw y) x = true)) ->
  parts_ok pages (set_hw m' y).
Proof.
  intros Hw (Hb & Hp & Hf & Hh & Hl) Sp Sr Hc.
  split_and!; cbn; try done; [by eapply perm_same| |].
  - intros s z u Hs Hz Hx Hi. rewrite Sr. destruct (Hc (host_of s z)) as [E|[E|[E _]]]; rewrite E in Hi.
    + by apply Hf.
    + done.
    + injection Hi as <-. by left.
  - intros i z s w Hi Hs Hz Hpg Hst.
    destruct (Hc (host_of s w)) as [E|[E|[E (x & Hr & He)]]]; [rewrite E; by apply (Hh i z)|done|].
    destruct (ram_at_region _ _ _ _ Hw Hr) as (r & Hin & Hcx & Eh).
    apply (host_inj s r w x) in Eh; [subst w|done..].
    rewrite (perm_exec _ _ _ _ Hp Hin Hcx), bool_decide_true in He by done. done.
Qed.

Lemma fetch_value pages y x a :
  wx_is pages (y_wx y) -> parts_ok pages y -> ram_at (y_wx y) x a ->
  state_of pages (page x) = Executable ->
  default (hv_ram (y_hw y) a) (hv_icache (y_hw y) a) = hv_ram (y_hw y) a \/ in_flight (y_dma y) a = true.
Proof.
  intros Hw (_ & _ & Hf & _) Hr Hs. destruct (ram_at_region _ _ _ _ Hw Hr) as (r & Hin & Hc & ->).
  destruct (hv_icache (y_hw y) (host_of r x)) as [u|] eqn:E; [|by left]. by apply (Hf r x).
Qed.

Lemma fetch_inv pages y x a m' :
  wx_is pages (y_wx y) -> parts_ok pages y -> ram_at (y_wx y) x a -> can_exec (y_hw y) x = true ->
  same_perm (y_hw y) m' -> same_ram (y_hw y) m' ->
  (forall b, hv_icache m' b =
     if a =? b then Some (default (hv_ram (y_hw y) a) (hv_icache (y_hw y) a)) else hv_icache (y_hw y) b) ->
  parts_ok pages (set_hw m' y).
Proof.
  intros Hw Hpt Hr He Sp Sr Hi. destruct (ram_at_region _ _ _ _ Hw Hr) as (r & Hin & Hc & Ea).
  pose proof (fetch_value pages y x a Hw Hpt Hr) as Hv. destruct Hpt as (Hb & Hp & Hf & Hh & Hl). subst a.
  rewrite (perm_exec _ _ _ _ Hp Hin Hc) in He. apply negb_true_iff, bool_decide_eq_false in He.
  split_and!; cbn; try done; [by eapply perm_same| |].
  - intros s z u Hs Hz Hx Hu. rewrite Hi in Hu. rewrite Sr.
    destruct (Z.eqb_spec (host_of r x) (host_of s z)) as [E|]; [|by apply Hf].
    pose proof (host_inj r s x z Hin Hs Hc Hz E) as <-. injection Hu as <-. rewrite <- E. by apply Hv.
  - intros i z s w Hj Hs Hz Hpg Hst. rewrite Hi.
    destruct (Z.eqb_spec (host_of r x) (host_of s w)) as [E|]; [|by apply (Hh i z)].
    pose proof (host_inj r s x w Hin Hs Hc Hz E) as <-. done.
Qed.

(** Steps of the devices. *)
Lemma dma_begin_inv pages y d n :
  parts_ok pages y -> parts_ok pages (mkSys (y_hw y) (y_wx y) (y_cpus y) ((d, n) :: y_dma y)).
Proof.
  intros (Hb & Hp & Hf & Hh & Hl). split_and!; cbn; try done. intros r x v Hr Hc Hs Hi.
  destruct (Hf r x v Hr Hc Hs Hi) as [?|E]; [by left|]. right. unfold in_flight in *.
  cbn [existsb]. by rewrite E, orb_true_r.
Qed.

Lemma dma_bytes_inv pages y m' :
  parts_ok pages y -> same_perm (y_hw y) m' -> same_icache (y_hw y) m' ->
  (forall a, in_flight (y_dma y) a = false -> hv_ram m' a = hv_ram (y_hw y) a) ->
  parts_ok pages (set_hw m' y).
Proof.
  intros (Hb & Hp & Hf & Hh & Hl) Sp Si Hm. split_and!; cbn; try done; [by eapply perm_same| |].
  - intros r x v Hr Hc Hs Hi. rewrite Si in Hi. destruct (in_flight (y_dma y) (host_of r x)) eqn:E; [by right|].
    rewrite Hm by done. left. destruct (Hf r x v Hr Hc Hs Hi) as [?|?]; congruence.
  - intros i z r x Hi. rewrite Si. by apply (Hh i z).
Qed.

(** The cache lost some lines, and nothing else changed. *)
Lemma drop_inv pages y m' va len :
  parts_ok pages y -> m' = sys_icache_invalidate (y_hw y) va len -> parts_ok pages (set_hw m' y).
Proof.
  intros (Hb & Hp & Hf & Hh & Hl) ->. destruct (invalidate_drops (y_hw y) va len) as (Hi & Sp & Sr).
  split_and!; cbn; try done; [by eapply perm_same| |].
  - intros r x v Hr Hc Hs Hv. rewrite Sr. rewrite Hi in Hv. case_match; [done|]. by apply Hf.
  - intros i z r x Hj Hr Hc Hpg Hs. rewrite Hi. case_match; [done|]. by apply (Hh i z).
Qed.

Lemma dma_done_inv pages y d n l1 l2 w' m' :
  wx_is pages (y_wx y) -> parts_ok pages y -> y_dma y = l1 ++ (d, n) :: l2 ->
  on_device_write (y_wx y) d n (y_hw y) = (w', m') ->
  wx_is pages w' /\ parts_ok pages (mkSys m' w' (y_cpus y) (l1 ++ l2)).
Proof.
  intros Hw Hpt Ed. unfold on_device_write. destruct Hw as (Es & Ea & Ee). rewrite Ea.
  assert (forall a, in_range d (d + n) a = false -> in_flight (y_dma y) a = true -> in_flight (l1 ++ l2) a = true) as Hfl.
  { intros a Ha. rewrite Ed. unfold in_flight. rewrite !existsb_app. cbn [existsb]. by rewrite Ha, orb_false_l. }
  destruct (Z.eqb_spec n 0) as [->|]; cbn [orb negb]; intros [= <- <-]; (split; [done|]).
  - destruct Hpt as (Hb & Hp & Hf & Hh & Hl). split_and!; cbn; try done. intros r x v Hr Hc Hs Hi.
    destruct (Hf r x v Hr Hc Hs Hi) as [?|?]; [by left|]. right. apply Hfl; [|done].
    apply in_range_false. lia.
  - destruct (drop_inv pages y _ d n Hpt eq_refl) as (Hb & Hp & Hf & Hh & Hl). split_and!; cbn; try done.
    intros r x v Hr Hc Hs Hi. destruct (Hf r x v Hr Hc Hs Hi) as [?|E]; [by left|]. right. apply Hfl; [|done].
    cbn in Hi. rewrite (proj1 (invalidate_drops _ _ _)) in Hi. by case_match.
Qed.

(** Steps of the handlers. *)
Lemma exec_target_is pages w x state region :
  wx_is pages w -> exec_target w x = Some (state, region) ->
  state = mkState rs pages (2 ^ k) lim /\ region ∈ rs /\ contains region x = true.
Proof.
  intros (Es & _ & Ee). unfold exec_target. rewrite Ee, Es. cbn.
  destruct (find _ rs) as [r|] eqn:Ef; [|done]. intros [= <- <-].
  apply find_Some_elem in Ef as [? ?]. done.
Qed.

Lemma exec_begin_inv pages y i x state region :
  wx_is pages (y_wx y) -> parts_ok pages y -> unlocked y -> y_cpus y !! i = Some (ExecFault x) ->
  exec_target (y_wx y) x = Some (state, region) ->
  parts_ok pages (set_phase i (ExecHeld x) (set_hw (exec_invalidate state region x (y_hw y)) y)).
Proof.
  intros Hw Hpt Hu Hx Et. destruct (exec_target_is _ _ _ _ _ Hw Et) as (-> & Hin & Hcx).
  destruct (drop_inv pages y _ _ _ Hpt eq_refl : parts_ok pages
    (set_hw (exec_invalidate (mkState rs pages (2 ^ k) lim) region x (y_hw y)) y)) as (Hb & Hp & Hf & _ & _).
  split_and!; cbn; try done.
  - intros j z r u Hj Hr Hc Hpg Hs. apply list_lookup_insert_Some in Hj as [(-> & [= ->] & _)|(_ & Hj)];
      [|by destruct (unlocked_none _ _ _ Hu Hj)].
    unfold exec_invalidate. rewrite (proj1 (invalidate_drops _ _ _)). cbn [st_page_size].
    assert (region = r) as ->.
    { destruct Hlay as (_ & Hone & _). destruct (page_in_region k rs r u Hk Hpaged Hr Hc).
      apply (Hone region r (page z)); try done.
      - destruct (page_in_region k rs region z Hk Hpaged Hin Hcx).
        assert (0 < 2 ^ k) by (apply Z.pow_pos_nonneg; lia). apply region_contains_spec. lia.
      - assert (0 < 2 ^ k) by (apply Z.pow_pos_nonneg; lia). apply region_contains_spec. rewrite <- Hpg. lia. }
    by rewrite (page_lines k rs r u z).
  - intros a b z w Ha Hb'. apply list_lookup_insert_Some in Ha as [(-> & _)|(_ & Ha)];
      [|by destruct (unlocked_none _ _ _ Hu Ha)].
    apply list_lookup_insert_Some in Hb' as [(-> & _)|(_ & Hb')];
      [done|by destruct (unlocked_none _ _ _ Hu Hb')].
Qed.

(** A page gets new permissions and a new entry. *)
Lemma protect_page pages m m' z e rc :
  perm_ok pages m -> hv_vm_protect m (page z) (2 ^ k) (flags_for (pg_state e)) = (rc, m') -> rc = 0 ->
  perm_ok (<[page z := e]> pages) m' /\ same_ram m m' /\ same_icache m m'.
Proof.
  intros Hp E ->. destruct (protect_done _ _ _ _ _ E) as (Hx & Sr & Si). split; [|done].
  intros r x Hr Hc. rewrite Hx, state_of_insert. pose proof (page_of_range k x z Hk) as Hpr.
  destruct (Z.eqb_spec (page z) (page x)) as [Ep|Hn].
  - by rewrite (proj1 Hpr) by done.
  - destruct (in_range _ _ _); [|by apply (Hp r)]. destruct Hn. symmetry. by apply Hpr.
Qed.

Lemma grant_ok e : page_ok e -> page_ok (mkPage (exec_grant (pg_bounces e) lim) (pg_bounces e)).
Proof.
  unfold page_ok, exec_grant. cbn. intros [Hb Hs]. split; [done|].
  destruct (Z.eqb_spec lim 0), (Z.leb_spec lim (pg_bounces e)); cbn; try lia.
  destruct (pg_state e); lia.
Qed.

Lemma grant_exec e : page_ok e -> pg_state e = Relaxed -> exec_grant (pg_bounces e) lim = Relaxed.
Proof.
  intros [_ Hs] E. rewrite E in Hs. destruct Hs as [Hn ->]. unfold exec_grant.
  by rewrite (proj2 (Z.eqb_neq _ _)), Z.leb_refl.
Qed.

(** What the handler does to the page table of the module. *)
Definition after_exec (ok : bool) (x : Z) (pages : gmap Z Page) : gmap Z Page :=
  let e := entry (page x) pages in
  <[page x := mkPage (if ok then exec_grant (pg_bounces e) lim else pg_state e) (pg_bounces e)]> pages.

Definition after_write (ok : bool) (x : Z) (pages : gmap Z Page) : gmap Z Page :=
  if ok then <[page x := mkPage Writable (sat_add32 (pg_bounces (entry (page x) pages)) 1)]> pages else pages.

Lemma book_insert (pages : gmap Z Page) (p : Z) (e : Page) :
  map_Forall (fun _ e => page_ok e) pages -> page_ok e -> map_Forall (fun _ e => page_ok e) (<[p := e]> pages).
Proof. intros Hb He. by apply map_Forall_insert_2. Qed.

Lemma exec_commit_cases pages w x m ok w' m' :
  wx_is pages w -> exec_commit w (mkState rs pages (2 ^ k) lim) x m = (ok, w', m') ->
  wx_is (after_exec ok x pages) w' /\
  exists rc, hv_vm_protect m (page x) (2 ^ k) (flags_for (exec_grant (pg_bounces (entry (page x) pages)) lim)) = (rc, m') /\
    ok = (rc =? 0).
Proof.
  intros (Es & Ea & Ee). unfold exec_commit, protect. cbn [st_page_size st_pages st_bounce_limit].
  destruct (hv_vm_protect _ _ _ _) as [rc m1] eqn:Ep.
  destruct (rc =? 0) eqn:Er; intros [= <- <- <-]; (split; [|by exists rc]); split_and!; try done.
  cbn. unfold set_pages, after_exec. cbn. by destruct (entry (page x) pages).
Qed.

Lemma after_exec_false x pages q : state_of (after_exec false x pages) q = state_of pages q.
Proof. unfold after_exec. rewrite state_of_insert. by destruct (Z.eqb_spec (page x) q) as [<-|]. Qed.

Lemma exec_end_inv pages y i x region ok w' m' :
  wx_is pages (y_wx y) -> parts_ok pages y -> y_cpus y !! i = Some (ExecHeld x) ->
  exec_commit (y_wx y) (mkState rs pages (2 ^ k) lim) x (y_hw y) = (ok, w', m') ->
  region ∈ rs -> contains region x = true ->
  parts_ok (after_exec ok x pages)
    (mkSys m' w' (<[i := if ok then Running else Stopped]> (y_cpus y)) (y_dma y)).
Proof.
  intros Hw (Hb & Hp & Hf & Hh & Hl) Hi Ec Hin Hcx. set (e := entry (page x) pages).
  pose proof (entry_ok pages (page x) Hb) as He. fold e in He.
  destruct (exec_commit_cases _ _ _ _ _ _ _ Hw Ec) as (_ & rc & Ep & ->).
  assert (forall j z, <[i := if rc =? 0 then Running else Stopped]> (y_cpus y) !! j <> Some (ExecHeld z)) as Hnone.
  { intros j z Hj. apply list_lookup_insert_Some in Hj as [(_ & Hj & _)|(Hne & Hj)]; [by case_match|].
    destruct Hne. by eapply Hl. }
  split_and!; cbn [y_hw y_cpus y_dma].
  - apply book_insert; [done|]. destruct (rc =? 0); [by apply grant_ok|exact He].
  - destruct (Z.eqb_spec rc 0) as [E0|Hn].
    + by eapply (protect_page pages _ _ x (mkPage _ (pg_bounces e))).
    + destruct (protect_refused _ _ _ _ _ _ Ep Hn) as (Sp & _ & _). intros r u Hr Hc.
      rewrite after_exec_false, Sp. by apply (Hp r).
  - assert (same_ram (y_hw y) m' /\ same_icache (y_hw y) m') as [Sr Si].
    { destruct (Z.eqb_spec rc 0) as [E0|Hn]; [subst rc; by apply protect_done in Ep as (_ & ? & ?)|].
      by apply protect_refused in Ep as (_ & ? & ?). }
    intros r u v Hr Hc Hs Hv. rewrite Si in Hv. rewrite Sr. destruct (Z.eqb_spec rc 0) as [E0|Hn];
      [|rewrite after_exec_false in Hs; by apply Hf].
    unfold after_exec in Hs. rewrite state_of_insert in Hs. destruct (Z.eqb_spec (page x) (page u)) as [Epg|];
      [|by apply Hf]. cbn [pg_state] in Hs. fold e in Hs.
    destruct (pg_state e) eqn:Ese.
    + rewrite (Hh i x r u) in Hv; try done. unfold state_of. by rewrite <- Epg.
    + apply Hf; [done..| |done]. unfold state_of. by rewrite <- Epg.
    + rewrite grant_exec in Hs; done.
  - intros j z r u Hj. by destruct (Hnone j z).
  - intros a b z w Ha. by destruct (Hnone a z).
Qed.

Lemma on_write_fault_cases pages w x m ok w' m' :
  wx_is pages w -> on_write_fault w x m = (ok, w', m') ->
  wx_is (after_write ok x pages) w' /\
  if ok then
    state_of pages (page x) = Executable /\
    hv_vm_protect m (page x) (2 ^ k) (flags_for Writable) = (0, m')
  else m' = m \/ exists rc, rc <> 0 /\ hv_vm_protect m (page x) (2 ^ k) (flags_for Writable) = (rc, m').
Proof.
  intros Hw. pose proof Hw as (Es & Ea & Ee). unfold on_write_fault. rewrite Ee, Es.
  cbn [negb st_regions st_page_size st_pages].
  destruct (existsb _ rs); cbn [negb]; [|intros [= <- <- <-]; by auto].
  destruct (pages !! page x) as [e|] eqn:El; [|intros [= <- <- <-]; by auto].
  destruct (bool_decide_reflect (pg_state e = Executable)) as [Ex|]; cbn [negb]; [|intros [= <- <- <-]; by auto].
  unfold protect. destruct (hv_vm_protect _ _ _ _) as [rc m1] eqn:Ep.
  destruct (Z.eqb_spec rc 0) as [->|]; intros [= <- <- <-]; cbn.
  - unfold state_of, after_write, entry. rewrite El. cbn. split_and!; done.
  - split; [done|]. right. by exists rc.
Qed.

Lemma write_fault_inv pages y i x ok w' m' :
  wx_is pages (y_wx y) -> parts_ok pages y -> unlocked y ->
  on_write_fault (y_wx y) x (y_hw y) = (ok, w', m') ->
  parts_ok (after_write ok x pages) (mkSys m' w' (<[i := Running]> (y_cpus y)) (y_dma y)).
Proof.
  intros Hw (Hb & Hp & Hf & Hh & Hl) Hu Ew. destruct (on_write_fault_cases _ _ _ _ _ _ _ Hw Ew) as (_ & Hc).
  assert (forall j z, <[i := Running]> (y_cpus y) !! j <> Some (ExecHeld z)) as Hnone.
  { intros j z Hj. apply list_lookup_insert_Some in Hj as [(_ & Hj & _)|(Hne & Hj)]; [done|].
    by destruct (unlocked_none _ _ _ Hu Hj). }
  assert (held_ok (after_write ok x pages) m' (<[i := Running]> (y_cpus y)) /\
          lock_ok (<[i := Running]> (y_cpus y))) as [Hh' Hl'].
  { split; [intros j z r u Hj; by destruct (Hnone j z)|]. intros a b z w Ha. by destruct (Hnone a z). }
  destruct ok; cbn [after_write] in *.
  - destruct Hc as [Hst Ep]. pose proof (entry_ok pages (page x) Hb) as [He1 He2]. unfold state_of in Hst.
    rewrite Hst in He2. destruct (protect_page pages _ m' x
      (mkPage Writable (sat_add32 (pg_bounces (entry (page x) pages)) 1)) 0 Hp Ep eq_refl) as (Hp' & Sr & Si).
    split_and!; cbn [y_hw y_cpus y_dma]; try done.
    + apply book_insert; [done|]. split; cbn [pg_bounces pg_state]; unfold sat_add32; lia.
    + intros r u v Hr Hc' Hs Hv. rewrite Si in Hv. rewrite Sr. rewrite state_of_insert in Hs.
      case_match; [done|]. by apply Hf.
  - assert (same_perm (y_hw y) m' /\ same_ram (y_hw y) m' /\ same_icache (y_hw y) m') as (Sp & Sr & Si).
    { destruct Hc as [->|(rc & Hn & Ep)]; [done|]. by eapply protect_refused. }
    split_and!; cbn [y_hw y_cpus y_dma]; try done; [by eapply perm_same|].
    intros r u v Hr Hc' Hs Hv. rewrite Si in Hv. rewrite Sr. by apply Hf.
Qed.


(** The module's table and the phases of the vCPUs before and after a step. *)
Inductive table_step : gmap Z Page * list Phase -> Event -> gmap Z Page * list Phase -> Prop :=
| ts_idle pages cpus e :
    (forall x, e <> EvExecFault x /\ e <> EvWriteFault x) -> table_step (pages, cpus) e (pages, cpus)
| ts_write_fault pages cpus i x :
    cpus !! i = Some Running -> state_of pages (page x) = Executable ->
    table_step (pages, cpus) (EvWriteFault x) (pages, <[i := WriteFault x]> cpus)
| ts_exec_fault pages cpus i x :
    cpus !! i = Some Running -> state_of pages (page x) = Writable ->
    table_step (pages, cpus) (EvExecFault x) (pages, <[i := ExecFault x]> cpus)
| ts_begin pages cpus i x :
    cpus !! i = Some (ExecFault x) -> table_step (pages, cpus) EvTau (pages, <[i := ExecHeld x]> cpus)
| ts_stop pages cpus i x :
    cpus !! i = Some (ExecFault x) -> table_step (pages, cpus) (EvStop x) (pages, <[i := Stopped]> cpus)
| ts_exec pages cpus i x ok :
    cpus !! i = Some (ExecHeld x) ->
    table_step (pages, cpus) (if ok : bool then EvTau else EvStop x)
      (after_exec ok x pages, <[i := if ok then Running else Stopped]> cpus)
| ts_write pages cpus i x ok :
    cpus !! i = Some (WriteFault x) -> (ok = true -> state_of pages (page x) = Executable) ->
    table_step (pages, cpus) (if ok : bool then EvTau else EvMmio x)
      (after_write ok x pages, <[i := Running]> cpus).

Lemma parts_phase pages y i p :
  held p = false -> parts_ok pages y -> parts_ok pages (set_phase i p y).
Proof. intros Hp (Hb & Hpe & Hf & Hh & Hl). split_and!; cbn; auto using held_phase, lock_phase. Qed.

Lemma step_inv pages y e y' :
  wx_step y e y' -> wx_is pages (y_wx y) -> parts_ok pages y ->
  exists pages', wx_is pages' (y_wx y') /\ parts_ok pages' y' /\
    table_step (pages, y_cpus y) e (pages', y_cpus y').
Proof.
  intros Hs Hw Hpt. inversion Hs; subst; clear Hs; cbn [y_wx y_cpus set_hw set_phase].
  - exists pages. split_and!; [done|by eapply store_inv|by constructor].
  - destruct (ram_at_region _ _ _ _ Hw H2) as (r & Hr & Hc & ->). destruct Hpt as (Hb & Hp & Hrest).
    rewrite (perm_write _ _ _ _ Hp Hr Hc) in H3. apply negb_false_iff, bool_decide_eq_true in H3.
    exists pages. split_and!; [done|by apply parts_phase|by constructor].
  - exists pages. split_and!; [done|by eapply fetch_inv|by constructor].
  - destruct (ram_at_region _ _ _ _ Hw H2) as (r & Hr & Hc & ->). destruct Hpt as (Hb & Hp & Hrest).
    rewrite (perm_exec _ _ _ _ Hp Hr Hc) in H3. apply negb_false_iff, bool_decide_eq_true in H3.
    exists pages. split_and!; [done|by apply parts_phase|by constructor].
  - exists pages. split_and!; [done|by apply exec_begin_inv|by constructor].
  - exists pages. split_and!; [done|by apply parts_phase|by constructor].
  - destruct (exec_target_is _ _ _ _ _ Hw H2) as (-> & Hr & Hc). exists (after_exec ok x pages).
    split_and!; [by eapply exec_commit_cases|by eapply exec_end_inv|by constructor].
  - destruct (on_write_fault_cases _ _ _ _ _ _ _ Hw H3) as (Hw' & Hc). exists (after_write ok x pages).
    split_and!; [done|by apply write_fault_inv|]. constructor; [done|]. intros ->. by destruct Hc.
  - exists pages. split_and!; [done|by apply dma_begin_inv|by constructor].
  - exists pages. split_and!; [done|by apply dma_bytes_inv|by constructor].
  - destruct (dma_done_inv _ _ _ _ _ _ _ _ Hw Hpt H1 H2). exists pages. split_and!; [done|done|by constructor].
  - exists pages. split_and!; [done|by apply cache_inv|by constructor].
Qed.

Lemma run_inv y es y' : wx_run y es y' -> wx_inv y -> wx_inv y'.
Proof.
  induction 1 as [|y es y' e y'' _ IH Hs]; [done|]. intros (pages & Hw & Hp)%IH.
  destruct (step_inv _ _ _ _ Hs Hw Hp) as (pages' & ? & ? & _). by exists pages'.
Qed.

(** ** Arming *)

Lemma arm_regions_ok regions : forall m regs m',
  arm_regions true (2 ^ k) regions m = (Ok regs, m') ->
  regs = (fun '(ipa, va, size) => mkRegion ipa va size) <$> regions /\ paged k regs /\
  (forall x, hv_perm m x = flags_for Writable -> hv_perm m' x = flags_for Writable) /\
  (forall r x, r ∈ regs -> contains r x = true -> hv_perm m' x = flags_for Writable).
Proof.
  induction regions as [|[[ipa va] size] regions IH]; intros m regs m'; cbn [arm_regions].
  { intros [= <- <-]. split_and!; [done|by constructor|done|]. intros r x Hr. by apply not_elem_of_nil in Hr. }
  destruct (Z.eqb_spec (ipa mod 2 ^ k) 0); cbn [negb andb orb]; [|done].
  destruct (Z.eqb_spec (size mod 2 ^ k) 0); cbn [negb andb orb]; [|done].
  unfold protect. destruct (hv_vm_protect _ _ _ _) as [rc m1] eqn:Ep.
  destruct (Z.eqb_spec rc 0) as [->|]; [|done].
  destruct (arm_regions _ _ regions m1) as [[l| | |] m2] eqn:Ea; cbn; try done. intros [= <- <-].
  destruct (IH _ _ _ Ea) as (-> & Hp & Hk1 & Hk2). destruct (protect_done _ _ _ _ _ Ep) as (Hx & _).
  destruct (invalidate_drops m va size) as (_ & Si & _).
  split_and!; [done|by constructor| |].
  - intros x Hw. apply Hk1. rewrite Hx, Si. by case_match.
  - intros r x Hr Hc. apply elem_of_cons in Hr as [->|Hr]; [|by eapply Hk2]. apply Hk1. rewrite Hx.
    apply region_contains_spec in Hc. cbn in Hc. by rewrite (proj2 (in_range_spec _ _ _)).
Qed.
End Invariant.

(** The regions [arm] is called with. *)
Definition regions_of (regions : list (Z * Z * Z)) : list Region :=
  (fun '(ipa, va, size) => mkRegion ipa va size) <$> regions.

(** A VM whose [n] vCPUs start after a strict [arm]. *)
Definition armed_vm {M} `{HvMem M} (k lim : Z) (regions : list (Z * Z * Z)) (n : nat) (y : Sys M) : Prop :=
  exists w m, arm true (2 ^ k) lim regions w m = (Ok tt, y_wx y, y_hw y) /\
    y_cpus y = replicate n Running /\ y_dma y = [].

Lemma armed_start {M} `{HvMemLaws M} k lim regions n (y : Sys M) :
  0 <= k -> armed_vm k lim regions n y ->
  paged k (regions_of regions) /\ wx_is (regions_of regions) k lim ∅ (y_wx y) /\
  parts_ok (regions_of regions) k lim ∅ y.
Proof.
  intros Hk (w & m & Ea & Ec & Ed). unfold arm in Ea.
  destruct (arm_regions _ _ regions m) as [[regs| | |] m'] eqn:Er; [|done..]. injection Ea as Ew Em. subst m'.
  destruct (arm_regions_ok k regions m regs (y_hw y) Er) as (-> & Hp & _ & Hx).
  assert (forall q, state_of ∅ q = Writable) as Hst by (intros q; unfold state_of, entry; by rewrite lookup_empty).
  unfold parts_ok. split_and!; [done|by rewrite <- Ew|..].
  - apply map_Forall_empty.
  - intros r x Hr Hc. rewrite Hst. by apply (Hx r).
  - intros r x v _ _ Hs. by rewrite Hst in Hs.
  - intros i z r x Hi. rewrite Ec in Hi. by apply lookup_replicate in Hi as [? _].
  - intros i j z u Hi. rewrite Ec in Hi. by apply lookup_replicate in Hi as [? _].
Qed.

(** ** Faults are bounded *)

Definition tally (f : Phase -> bool) (l : list Phase) : Z := foldr (fun p c => (if f p then 1 else 0) + c) 0 l.

Lemma tally_cons f p l : tally f (p :: l) = (if f p then 1 else 0) + tally f l.
Proof. done. Qed.

Lemma tally_range f l : 0 <= tally f l <= Z.of_nat (length l).
Proof. induction l as [|p l IH]; [done|]. rewrite tally_cons. cbn [length]. case_match; lia. Qed.

Lemma tally_insert f l i a b :
  l !! i = Some a ->
  tally f (<[i := b]> l) = tally f l - (if f a then 1 else 0) + (if f b then 1 else 0).
Proof.
  revert i. induction l as [|p l IH]; intros [|i] Hi; try done.
  - injection Hi as ->. change (<[0%nat := b]> (a :: l)) with (b :: l). rewrite !tally_cons. lia.
  - change (<[S i := b]> (p :: l)) with (p :: <[i := b]> l). rewrite !tally_cons, (IH i Hi). lia.
Qed.

Lemma tally_replicate f n p : f p = true -> tally f (replicate n p) = Z.of_nat n.
Proof. intros Hf. induction n; [done|]. cbn [replicate]. rewrite tally_cons, Hf. lia. Qed.

Section Bound.
Context (k lim : Z) (Hlim : is_u32 lim) (Hlim0 : lim <> 0) (p : Z).
Local Notation page x := (page_of (2 ^ k) x).

(** The vCPU can still take an execute, or a write, fault on the page. *)
Definition may_exec (ph : Phase) : bool :=
  match ph with ExecFault x | ExecHeld x => negb (page x =? p) | Stopped => false | _ => true end.
Definition may_write (ph : Phase) : bool :=
  match ph with WriteFault x => negb (page x =? p) | Stopped => false | _ => true end.

(** How many faults the page has left. *)
Definition left_exec (e : Page) (cpus : list Phase) : Z :=
  Z.of_nat (length cpus) * (lim - pg_bounces e) +
  match pg_state e with Writable => tally may_exec cpus | _ => 0 end.
Definition left_write (e : Page) (cpus : list Phase) : Z :=
  match pg_state e with
  | Writable => Z.of_nat (length cpus) * (lim - pg_bounces e)
  | Executable => Z.of_nat (length cpus) * (lim - pg_bounces e - 1) + tally may_write cpus
  | Relaxed => 0
  end.
Definition left (t : gmap Z Page * list Phase) : Z :=
  left_exec (entry p t.1) t.2 + left_write (entry p t.1) t.2.

Definition is_fault (e : Event) : Z :=
  match e with EvExecFault x | EvWriteFault x => if page x =? p then 1 else 0 | _ => 0 end.
Definition is_mmio (e : Event) : Z :=
  match e with EvMmio x => if page x =? p then 1 else 0 | _ => 0 end.

Definition total (f : Event -> Z) (es : list Event) : Z := foldr (fun e c => f e + c) 0 es.

Lemma total_snoc f es e : total f (es ++ [e]) = total f es + f e.
Proof. induction es as [|e' es IH]; cbn [total app foldr]; [lia|]. unfold total in IH. lia. Qed.

Lemma entry_insert q e pages : entry p (<[q := e]> pages) = if q =? p then e else entry p pages.
Proof.
  unfold entry. destruct (Z.eqb_spec q p) as [->|]; [by rewrite lookup_insert_eq|].
  by rewrite lookup_insert_ne.
Qed.

(** A change of phase that takes or loses no chance to fault. *)
Lemma left_phase pages cpus i a b :
  cpus !! i = Some a ->
  left (pages, <[i := b]> cpus) =
  left (pages, cpus) +
  match pg_state (entry p pages) with
  | Writable => (if may_exec b then 1 else 0) - (if may_exec a then 1 else 0)
  | Executable => (if may_write b then 1 else 0) - (if may_write a then 1 else 0)
  | Relaxed => 0
  end.
Proof.
  intros Hi. unfold left, left_exec, left_write. cbn [fst snd]. rewrite length_insert.
  rewrite !(tally_insert _ _ _ _ _ Hi). destruct (pg_state _); lia.
Qed.

Lemma left_granted cpus b :
  page_ok lim (mkPage Writable b) ->
  left_exec (mkPage (exec_grant b lim) b) cpus + left_write (mkPage (exec_grant b lim) b) cpus <=
  left_exec (mkPage Writable b) cpus + left_write (mkPage Writable b) cpus - tally may_exec cpus.
Proof.
  intros [Hb Hs]. cbn in Hb, Hs. specialize (Hs Hlim0). unfold exec_grant.
  pose proof (tally_range may_write cpus). rewrite (proj2 (Z.eqb_neq _ _) Hlim0). cbn [negb andb].
  destruct (Z.leb_spec lim b); unfold left_exec, left_write; cbn [pg_state pg_bounces]; nia.
Qed.

Lemma left_bounced cpus b :
  0 <= b < lim ->
  left_exec (mkPage Writable (sat_add32 b 1)) cpus + left_write (mkPage Writable (sat_add32 b 1)) cpus <=
  left_exec (mkPage Executable b) cpus + left_write (mkPage Executable b) cpus - tally may_write cpus.
Proof.
  intros Hb. unfold is_u32 in Hlim. assert (sat_add32 b 1 = b + 1) as -> by (unfold sat_add32; lia).
  pose proof (tally_range may_write cpus). pose proof (tally_range may_exec cpus).
  unfold left_exec, left_write. cbn [pg_state pg_bounces]. nia.
Qed.

Lemma left_insert q e pages cpus :
  left (<[q := e]> pages, cpus) = if q =? p then left_exec e cpus + left_write e cpus else left (pages, cpus).
Proof. unfold left. cbn [fst snd]. rewrite entry_insert. by destruct (q =? p). Qed.

Lemma left_eq pages cpus :
  left (pages, cpus) =
  left_exec (mkPage (pg_state (entry p pages)) (pg_bounces (entry p pages))) cpus +
  left_write (mkPage (pg_state (entry p pages)) (pg_bounces (entry p pages))) cpus.
Proof. done. Qed.

(** The handler of an execute fault never adds a chance to fault. *)
Lemma left_exec_step pages cpus i x ok :
  map_Forall (fun _ e => page_ok lim e) pages -> cpus !! i = Some (ExecHeld x) ->
  left (after_exec k lim ok x pages, <[i := if ok then Running else Stopped]> cpus) <= left (pages, cpus).
Proof.
  intros Hb Hi. set (cpus' := <[i := if ok : bool then Running else Stopped]> cpus).
  pose proof (entry_ok lim Hlim pages p Hb) as He.
  pose proof (left_phase pages cpus i _ (if ok then Running else Stopped) Hi) as Hph. fold cpus' in Hph.
  assert (tally may_exec cpus' = tally may_exec cpus - (if may_exec (ExecHeld x) then 1 else 0) +
    (if may_exec (if ok then Running else Stopped) then 1 else 0)) as Ht by (by apply tally_insert).
  pose proof (tally_range may_exec cpus) as Hr1. pose proof (tally_range may_exec cpus') as Hr2.
  unfold after_exec. rewrite left_insert. cbn [may_exec may_write] in *.
  destruct (Z.eqb_spec (page x) p) as [Ep|Hne]; cbn [negb] in *.
  2:{ rewrite Hph. destruct ok; cbn; destruct (pg_state _); lia. }
  rewrite Ep in *. destruct ok; cbn [may_exec may_write] in *.
  2:{ rewrite <- left_eq, Hph. destruct (pg_state _); lia. }
  destruct (pg_state (entry p pages)) eqn:Es; rewrite <- ?Es in Hph; rewrite ?Es in Hph.
  - pose proof (left_granted cpus' (pg_bounces (entry p pages))) as Hg. rewrite <- Es in Hg.
    specialize (Hg He). rewrite <- left_eq in Hg. lia.
  - assert (exec_grant (pg_bounces (entry p pages)) lim = Executable) as ->.
    { unfold page_ok in He. rewrite Es in He. destruct He as [_ He]. unfold exec_grant.
      rewrite (proj2 (Z.eqb_neq _ _) Hlim0), (proj2 (Z.leb_gt _ _)) by lia. done. }
    rewrite <- Es, <- left_eq. lia.
  - rewrite (grant_exec lim _ He Es), <- Es, <- left_eq. lia.
Qed.

Lemma left_write_step pages cpus i x ok :
  map_Forall (fun _ e => page_ok lim e) pages -> cpus !! i = Some (WriteFault x) ->
  (ok = true -> state_of pages (page x) = Executable) ->
  left (after_write k ok x pages, <[i := Running]> cpus) <=
  left (pages, cpus) + (if ok then 0 else if page x =? p then 1 else 0).
Proof.
  intros Hb Hi Hst. pose proof (entry_ok lim Hlim pages p Hb) as He.
  pose proof (left_phase pages cpus i _ Running Hi) as Hph. cbn [may_exec may_write] in Hph.
  destruct ok; cbn [after_write].
  2:{ rewrite Hph. destruct (page x =? p), (pg_state _); cbn; lia. }
  rewrite left_insert. specialize (Hst eq_refl). unfold state_of in Hst.
  destruct (Z.eqb_spec (page x) p) as [Ep|Hne]; cbn [negb] in *.
  2:{ rewrite Hph. clear Hph He Hst. destruct (pg_state (entry p pages)); lia. }
  rewrite Ep in *. unfold page_ok in He. rewrite Hst in He.
  pose proof (left_bounced (<[i := Running]> cpus) (pg_bounces (entry p pages)) ltac:(lia)) as Hbc.
  rewrite <- Hst, <- left_eq, Hph, Hst in Hbc.
  pose proof (tally_insert may_write cpus i _ Running Hi) as Ht. cbn [may_write] in Ht.
  rewrite Ep, Z.eqb_refl in Ht. cbn [negb] in Ht. pose proof (tally_range may_write cpus). lia.
Qed.

Lemma left_step t e t' :
  map_Forall (fun _ e => page_ok lim e) t.1 -> table_step k lim t e t' ->
  left t' + is_fault e <= left t + is_mmio e.
Proof.
  intros Hb Hs. destruct Hs; cbn [fst is_fault is_mmio] in *.
  - assert (is_fault e = 0) as -> by (destruct e as [| |x|x| | |]; cbn; try done; by destruct (H x)).
    assert (0 <= is_mmio e) by (destruct e; cbn; try done; case_match; lia). lia.
  - rewrite (left_phase _ _ _ _ _ H). unfold state_of in H0. cbn [may_exec may_write].
    destruct (Z.eqb_spec (page x) p) as [<-|]; cbn [negb]; [rewrite H0; lia|].
    destruct (pg_state (entry p pages)); lia.
  - rewrite (left_phase _ _ _ _ _ H). unfold state_of in H0. cbn [may_exec may_write].
    destruct (Z.eqb_spec (page x) p) as [<-|]; cbn [negb]; [rewrite H0; lia|].
    destruct (pg_state (entry p pages)); lia.
  - rewrite (left_phase _ _ _ _ _ H). cbn [may_exec may_write].
    destruct (page x =? p), (pg_state (entry p pages)); cbn [negb]; lia.
  - rewrite (left_phase _ _ _ _ _ H). cbn [may_exec may_write].
    destruct (page x =? p), (pg_state (entry p pages)); cbn [negb]; lia.
  - pose proof (left_exec_step pages cpus i x ok Hb H). destruct ok; cbn [is_fault is_mmio]; lia.
  - pose proof (left_write_step pages cpus i x ok Hb H H0). destruct ok; cbn [is_fault is_mmio]; lia.
Qed.
End Bound.

(** ** Runs by schedule *)

(** The steps of the vCPUs' faults as a function, for concrete runs. *)
Inductive Act :=
| AFetch (i : nat) (x : Z)
| AStore (i : nat) (x : Z)
| AExecBegin (i : nat)
| AExecEnd (i : nat)
| AWrite (i : nat).

Section Schedule.
Context {M : Type} `{HvMem M}.

Definition is_ram (w : Wx) (x : Z) : bool :=
  match wx_state w with Some st => existsb (fun r => contains r x) (st_regions st) | None => false end.

Definition unlockedb (y : Sys M) : bool := forallb (fun p => negb (held p)) (y_cpus y).

(** A fetch or a store that faults, or the next step of a handler. *)
Definition act (a : Act) (y : Sys M) : option (Event * Sys M) :=
  match a with
  | AFetch i x =>
      match y_cpus y !! i with
      | Some Running =>
          if is_ram (y_wx y) x && negb (can_exec (y_hw y) x) then
            Some (EvExecFault x, set_phase i (ExecFault x) y) else None
      | _ => None
      end
  | AStore i x =>
      match y_cpus y !! i with
      | Some Running =>
          if is_ram (y_wx y) x && negb (can_write (y_hw y) x) then
            Some (EvWriteFault x, set_phase i (WriteFault x) y) else None
      | _ => None
      end
  | AExecBegin i =>
      match y_cpus y !! i with
      | Some (ExecFault x) =>
          if unlockedb y then
            match exec_target (y_wx y) x with
            | Some (state, region) =>
                Some (EvTau, set_phase i (ExecHeld x) (set_hw (exec_invalidate state region x (y_hw y)) y))
            | None => Some (EvStop x, set_phase i Stopped y)
            end
          else None
      | _ => None
      end
  | AExecEnd i =>
      match y_cpus y !! i with
      | Some (ExecHeld x) =>
          match exec_target (y_wx y) x with
          | Some (state, region) =>
              let '(ok, w', m') := exec_commit (y_wx y) state x (y_hw y) in
              Some (if ok then EvTau else EvStop x,
                    mkSys m' w' (<[i := if ok then Running else Stopped]> (y_cpus y)) (y_dma y))
          | None => None
          end
      | _ => None
      end
  | AWrite i =>
      match y_cpus y !! i with
      | Some (WriteFault x) =>
          if unlockedb y then
            let '(ok, w', m') := on_write_fault (y_wx y) x (y_hw y) in
            Some (if ok then EvTau else EvMmio x, mkSys m' w' (<[i := Running]> (y_cpus y)) (y_dma y))
          else None
      | _ => None
      end
  end.

Fixpoint acts (l : list Act) (y : Sys M) : option (list Event * Sys M) :=
  match l with
  | [] => Some ([], y)
  | a :: l => '(e, y) ← act a y; '(es, y) ← acts l y; Some (e :: es, y)
  end.

Lemma is_ram_spec w x : is_ram w x = true -> exists a, ram_at w x a.
Proof.
  unfold is_ram, ram_at. destruct (wx_state w) as [st|]; [|done].
  intros (r & Hr & Hc)%existsb_elem. by exists (host_of r x), st, r.
Qed.

Lemma unlockedb_spec y : unlockedb y = true -> unlocked y.
Proof.
  unfold unlockedb, unlocked. rewrite forallb_forall, Forall_forall. intros Hall p Hp.
  by apply negb_true_iff, Hall.
Qed.

Lemma act_sound a y e y' : act a y = Some (e, y') -> wx_step y e y'.
Proof.
  destruct a as [i x|i x|i|i|i]; cbn [act]; destruct (y_cpus y !! i) as [[|x'|x'|x'|]|] eqn:Ei; try done.
  - destruct (is_ram _ x) eqn:Er, (can_exec _ x) eqn:Ex; try done. intros [= <- <-].
    apply is_ram_spec in Er as (a & Ha). by eapply step_fetch_fault.
  - destruct (is_ram _ x) eqn:Er, (can_write _ x) eqn:Ex; try done. intros [= <- <-].
    apply is_ram_spec in Er as (a & Ha). by eapply step_store_fault.
  - destruct (unlockedb y) eqn:Eu; [|done]. apply unlockedb_spec in Eu.
    destruct (exec_target _ x') as [[st r]|] eqn:Et; intros [= <- <-];
      [by eapply step_exec_begin|by eapply step_exec_refused].
  - destruct (exec_target _ x') as [[st r]|] eqn:Et; [|done].
    destruct (exec_commit _ _ _ _) as [[ok w'] m'] eqn:Ec. intros [= <- <-]. by eapply step_exec_end.
  - destruct (unlockedb y) eqn:Eu; [|done]. apply unlockedb_spec in Eu.
    destruct (on_write_fault _ _ _) as [[ok w'] m'] eqn:Ec. intros [= <- <-]. by eapply step_write_fault.
Qed.

Lemma run_app y es y' es' y'' : wx_run y es y' -> wx_run y' es' y'' -> wx_run y (es ++ es') y''.
Proof.
  intros H1 H2. induction H2; [by rewrite app_nil_r|]. rewrite app_assoc. eapply run_snoc; [|done]. auto.
Qed.

Lemma acts_sound l : forall y es y', acts l y = Some (es, y') -> wx_run y es y'.
Proof.
  induction l as [|a l IH]; intros y es y'; cbn [acts]; [intros [= <- <-]; constructor|].
  destruct (act a y) as [[e y1]|] eqn:Ea; [|done]. cbn [mbind option_bind].
  destruct (acts l y1) as [[es1 y2]|] eqn:El; [|done]. intros [= <- <-].
  apply (run_app y [e] y1 es1 y2); [|by apply IH]. apply (run_snoc y [] y e y1); [constructor|].
  by eapply act_sound.
Qed.
End Schedule.

(** A machine of functions, where every call succeeds. *)
Record FlatHw := mkFlat { fh_perm : Z -> Z; fh_ram : Z -> Z; fh_icache : Z -> option Z }.

#[export] Instance flat_hw : HvMem FlatHw := {|
  hv_perm := fh_perm;
  hv_ram := fh_ram;
  hv_icache := fh_icache;
  hv_vm_protect m ipa size flags :=
    (0, mkFlat (fun x => if in_range ipa (ipa + size) x then flags else fh_perm m x) (fh_ram m) (fh_icache m));
  sys_icache_invalidate m va len :=
    mkFlat (fh_perm m) (fh_ram m) (fun a => if in_range va (va + len) a then None else fh_icache m a);
|}.

#[export] Instance flat_hw_laws : HvMemLaws FlatHw.
Proof.
  split.
  - intros m ipa size flags m' [= <-]. done.
  - intros m ipa size flags rc m' [= <- <-]. done.
  - done.
Qed.

(** One region of one 16 KiB page. *)
Definition demo_region : list (Z * Z * Z) := [(0x40000000, 0x10000, 0x4000)].
Definition demo_hw : FlatHw := mkFlat (fun _ => 7) u8 (fun _ => None).
Definition demo_vm (lim : Z) (n : nat) : Sys FlatHw :=
  let '(_, w, m) := arm true (2 ^ 14) lim demo_region wx_boot demo_hw in mkSys m w (replicate n Running) [].

(** A schedule of the demo VM: its events and its last state. *)
Definition demo_run (lim : Z) (n : nat) (l : list Act) : list Event * Sys FlatHw :=
  default ([], demo_vm lim n) (acts l (demo_vm lim n)).

Lemma demo_run_sound lim n l :
  match acts l (demo_vm lim n) with Some _ => true | None => false end = true ->
  wx_run (demo_vm lim n) (demo_run lim n l).1 (demo_run lim n l).2.
Proof.
  unfold demo_run. destruct (acts l (demo_vm lim n)) as [[es y]|] eqn:E; [|done]. intros _. by apply (acts_sound l).
Qed.

Lemma demo_armed lim n : armed_vm 14 lim demo_region n (demo_vm lim n).
Proof. by exists wx_boot, demo_hw. Qed.

Lemma demo_layout : layout_ok (regions_of demo_region).
Proof.
  split_and!.
  - by repeat constructor.
  - intros r s x Hr Hs _ _. apply list_elem_of_singleton in Hr, Hs. congruence.
  - intros r s x y Hr Hs Hx Hy. apply list_elem_of_singleton in Hr, Hs. subst.
    apply region_contains_spec in Hx, Hy. unfold host_of. cbn in *. unfold u64. rewrite !Z.mod_small by lia. lia.
Qed.

(** ** Theorems *)

(** What the module believes of the page of a guest address. *)
Definition page_state (w : Wx) (x : Z) : PageState :=
  match wx_state w with
  | Some st => state_of (st_pages st) (page_of (st_page_size st) x)
  | None => Writable
  end.

(** C9: no stale instruction is ever executed from a page the module has not given up on: after a strict
    [arm], in every interleaving of the vCPUs' stores, fetches and faults, the
    devices' transfers and the cache's own fills and evictions, a fetch returns
    the byte RAM holds, except under a transfer still in flight. *)
Theorem fetch_never_stale {M} `{HvMemLaws M} k lim regions n (y0 : Sys M) es y x v y' a :
  0 <= k -> is_u32 lim -> layout_ok (regions_of regions) -> armed_vm k lim regions n y0 ->
  wx_run y0 es y -> wx_step y (EvFetch x v) y' -> ram_at (y_wx y) x a ->
  page_state (y_wx y) x <> Relaxed -> in_flight (y_dma y) a = false -> v = hv_ram (y_hw y) a.
Proof.
  intros Hk Hlim Hlay Harm Hrun Hs Hr Hst Hfl.
  destruct (armed_start k lim regions n y0 Hk Harm) as (Hpg & Hw0 & Hp0).
  destruct (run_inv (regions_of regions) k lim Hk Hlay Hpg Hlim y0 es y Hrun) as (pages & Hw & Hp);
    [by exists ∅|].
  inversion Hs as [| | y1 i x1 a1 v1 m1 Hi Hr1 He Hv| | | | | | | | |]; subst; try (by destruct ok).
  destruct (ram_at_region _ _ _ _ _ _ _ Hw Hr) as (r & Hin & Hc & ->).
  destruct (ram_at_region _ _ _ _ _ _ _ Hw Hr1) as (r1 & Hin1 & Hc1 & ->).
  assert (r1 = r) as -> by (by apply (proj1 (proj2 Hlay) r1 r x)).
  rewrite (perm_exec _ _ _ _ _ _ (proj1 (proj2 Hp)) Hin Hc) in He.
  apply negb_true_iff, bool_decide_eq_false in He.
  assert (page_state (y_wx y) x = state_of pages (page_of (2 ^ k) x)) as Eq.
  { unfold page_state. by rewrite (proj1 Hw). }
  destruct (fetch_value _ _ _ _ _ _ _ Hw Hp Hr) as [E|E]; [|done|congruence].
  destruct (state_of pages _) eqn:Es; [done|done|congruence].
Qed.

Definition granted_run : list Event * Sys FlatHw :=
  demo_run 4 1 [AFetch 0 0x40000010; AExecBegin 0; AExecEnd 0].

(** The fetch that fills the line at [a]. *)
Definition filled (a v : Z) (y : Sys FlatHw) : Sys FlatHw :=
  set_hw (mkFlat (fh_perm (y_hw y)) (fh_ram (y_hw y)) (fun b => if a =? b then Some v else fh_icache (y_hw y) b)) y.

Lemma granted_ram : ram_at (y_wx granted_run.2) 0x40000010 0x10010.
Proof.
  eexists _, (mkRegion 0x40000000 0x10000 0x4000). split_and!; [reflexivity|by left|done|done].
Qed.

Lemma fetch_never_stale_witness :
  wx_step granted_run.2 (EvFetch 0x40000010 0x10) (filled 0x10010 0x10 granted_run.2) /\
  0x10 = hv_ram (y_hw granted_run.2) 0x10010.
Proof.
  assert (wx_step granted_run.2 (EvFetch 0x40000010 0x10) (filled 0x10010 0x10 granted_run.2)) as Hs.
  { apply (step_fetch _ 0 _ 0x10010); [by vm_compute|apply granted_ram|by vm_compute..|done|done|done]. }
  split; [done|].
  apply (fetch_never_stale 14 4 demo_region 1 (demo_vm 4 1) granted_run.1 granted_run.2 0x40000010 0x10
    (filled 0x10010 0x10 granted_run.2));
    [lia|done|apply demo_layout|apply demo_armed|by apply demo_run_sound; vm_compute|done|apply granted_ram|
     by vm_compute|by vm_compute].
Defined.

(** C38: the faults of a page are bounded whatever the guest does: with a limit [lim]
    and [n] vCPUs, a page takes at most [n * (2 * lim + 1)] faults over the VM's
    whole life, beyond those a failing call of the hypervisor or a race hands to
    the device bus. *)
Theorem wx_faults_bounded {M} `{HvMemLaws M} k lim regions n (y0 : Sys M) es y p :
  0 <= k -> is_u32 lim -> lim <> 0 -> layout_ok (regions_of regions) -> armed_vm k lim regions n y0 ->
  wx_run y0 es y ->
  total (is_fault k p) es <= Z.of_nat n * (2 * lim + 1) + total (is_mmio k p) es.
Proof.
  intros Hk Hlim Hlim0 Hlay Harm Hrun.
  destruct (armed_start k lim regions n y0 Hk Harm) as (Hpg & Hw0 & Hp0).
  assert (exists pages, wx_is (regions_of regions) k lim pages (y_wx y) /\
    parts_ok (regions_of regions) k lim pages y /\
    total (is_fault k p) es + left k lim p (pages, y_cpus y) <=
    left k lim p (∅, y_cpus y0) + total (is_mmio k p) es) as (pages & Hw & Hp & Ht).
  { clear Harm. induction Hrun as [|y0 es y e y' Hrun IH Hs]; [exists ∅; split_and!; [done|done|cbn; lia]|].
    destruct IH as (pages & Hw & Hp & Ht); [done..|].
    destruct (step_inv (regions_of regions) k lim Hk Hlay Hpg Hlim _ _ _ _ Hs Hw Hp) as (pages' & Hw' & Hp' & Hts).
    exists pages'. split_and!; [done|done|]. rewrite !total_snoc.
    pose proof (left_step k lim Hlim Hlim0 p (pages, y_cpus y) e (pages', y_cpus y') (proj1 Hp) Hts). lia. }
  assert (0 <= left k lim p (pages, y_cpus y)).
  { pose proof (entry_ok lim Hlim pages p (proj1 Hp)) as [Hb1 Hb2]. unfold left, left_exec, left_write. cbn [fst snd].
    pose proof (tally_range (may_exec k p) (y_cpus y)). pose proof (tally_range (may_write k p) (y_cpus y)).
    destruct (pg_state _); nia. }
  assert (left k lim p (∅, y_cpus y0) = Z.of_nat n * (2 * lim + 1)) as E0; [|lia].
  destruct Harm as (? & ? & _ & -> & _). unfold left, left_exec, left_write, entry. cbn [fst snd].
  rewrite lookup_empty. cbn [default pg_state pg_bounces]. rewrite tally_replicate by done.
  rewrite length_replicate. lia.
Qed.

(** One vCPU that runs and patches the same page reaches the bound. *)
Definition bouncing_run : list Event * Sys FlatHw :=
  demo_run 1 1 [AFetch 0 0x40000010; AExecBegin 0; AExecEnd 0; AStore 0 0x40001000; AWrite 0;
                AFetch 0 0x40000010; AExecBegin 0; AExecEnd 0].

Lemma wx_faults_bounded_witness :
  total (is_fault 14 0x40000000) bouncing_run.1 = 3 /\
  total (is_fault 14 0x40000000) bouncing_run.1 <=
    Z.of_nat 1 * (2 * 1 + 1) + total (is_mmio 14 0x40000000) bouncing_run.1.
Proof.
  split; [by vm_compute|].
  apply (wx_faults_bounded 14 1 demo_region 1 (demo_vm 1 1) bouncing_run.1 bouncing_run.2);
    [lia|done|done|apply demo_layout|apply demo_armed|by apply demo_run_sound; vm_compute].
Defined.

(** ** Where the module's documentation and its behaviour part *)

(** Fetch, handle, store elsewhere in the page, handle. *)
Definition bounce : list Act :=
  [AFetch 0 0x40000010; AExecBegin 0; AExecEnd 0; AStore 0 0x40001000; AWrite 0].

Definition exhausted_run : list Event * Sys FlatHw :=
  demo_run 4 1 (mjoin (replicate 4 bounce) ++ [AFetch 0 0x40000010; AExecBegin 0; AExecEnd 0]).

(** A VM of one page and one vCPU takes nine faults under the default limit of
    four, where the documentation promises at most limit times pages. *)
Lemma documented_bound_exceeded :
  wx_run (demo_vm 4 1) exhausted_run.1 exhausted_run.2 /\
  total (is_fault 14 0x40000000) exhausted_run.1 = 9 /\
  page_state (y_wx exhausted_run.2) 0x40000010 = Relaxed.
Proof. split_and!; [by apply demo_run_sound; vm_compute|by vm_compute..]. Qed.

(** Two vCPUs store into the same executable page and both fault; the first
    handler makes the page writable. *)
Definition raced_run : list Event * Sys FlatHw :=
  demo_run 4 2 [AFetch 0 0x40000010; AExecBegin 0; AExecEnd 0; AStore 0 0x40001000; AStore 1 0x40002000; AWrite 0].

(** A pending write fault the module will not claim waits, or goes to the bus. *)
Lemma unclaimed_write {M} `{HvMem M} (y : Sys M) x e y' :
  y_cpus y = [Running; WriteFault x] -> (on_write_fault (y_wx y) x (y_hw y)).1.1 = false ->
  wx_step y e y' -> y_cpus y' !! 1%nat = Some (WriteFault x) \/ e = EvMmio x.
Proof.
  intros Hcpus Hf Hs. inversion Hs; subst; cbn [y_cpus set_hw set_phase] in *; rewrite Hcpus in *; try (by left);
    destruct i as [|[|i]]; try done; try (by left).
  cbn in H0. injection H0 as <-. rewrite H2 in Hf. cbn in Hf. subst. by right.
Qed.

(** When two vCPUs write-fault on the same page, the second store
    is not claimed and goes to the device bus, although it is an ordinary store
    to RAM on a page that is writable by then and no call has failed. *)
Theorem raced_store_goes_to_bus :
  wx_run (demo_vm 4 2) raced_run.1 raced_run.2 /\
  ram_at (y_wx raced_run.2) 0x40002000 0x12000 /\
  y_cpus raced_run.2 !! 1%nat = Some (WriteFault 0x40002000) /\
  can_write (y_hw raced_run.2) 0x40002000 = true /\
  on_write_fault (y_wx raced_run.2) 0x40002000 (y_hw raced_run.2) = (false, y_wx raced_run.2, y_hw raced_run.2) /\
  forall e y', wx_step raced_run.2 e y' ->
    y_cpus y' !! 1%nat = Some (WriteFault 0x40002000) \/ e = EvMmio 0x40002000.
Proof.
  assert (on_write_fault (y_wx raced_run.2) 0x40002000 (y_hw raced_run.2) =
    (false, y_wx raced_run.2, y_hw raced_run.2)) as Hf by reflexivity.
  assert (y_cpus raced_run.2 = [Running; WriteFault 0x40002000]) as Hcpus by (by vm_compute).
  split_and!; [by apply demo_run_sound; vm_compute| |by rewrite Hcpus|by vm_compute|done|].
  { eexists _, (mkRegion 0x40000000 0x10000 0x4000). split_and!; [reflexivity|by left|done|done]. }
  intros e y'. apply unclaimed_write; [done|by rewrite Hf].
Qed.

(** A strict [arm] that fails on a later region leaves the earlier ones without
    execute permission and the module unarmed: the guest's fetches there fault
    and nobody claims them. *)
Theorem failed_arm_strands_guest {M} `{HvMemLaws M} k lim ipa va size r regions w (m : M) x :
  wx_enforced w = false ->
  ipa mod 2 ^ k = 0 -> size mod 2 ^ k = 0 -> r.1.1 mod 2 ^ k <> 0 ->
  (hv_vm_protect (sys_icache_invalidate m va size) ipa size (flags_for Writable)).1 = 0 ->
  ipa <= x < ipa + size ->
  exists m', arm true (2 ^ k) lim ((ipa, va, size) :: r :: regions) w m =
      (Err (NotPageMultiple r.1.1 r.2), w, m') /\
    can_exec m' x = false /\ on_exec_fault w x m' = (false, w, m').
Proof.
  intros Hw Hi Hs Hr Hp Hx. destruct r as [[ipa2 va2] size2]. cbn [fst snd] in *.
  unfold arm. cbn [arm_regions]. rewrite Hi, Hs. cbn [Z.eqb negb orb andb].
  rewrite (proj2 (Z.eqb_neq _ _) Hr). cbn [negb orb andb].
  change (Z.lor HV_MEMORY_READ HV_MEMORY_WRITE) with (flags_for Writable).
  unfold protect. destruct (hv_vm_protect _ _ _ _) as [rc m'] eqn:Ep. cbn [fst] in Hp. subst rc. cbn.
  exists m'. split_and!; [done| |].
  - unfold can_exec. rewrite (proj1 (protect_done _ _ _ _ _ Ep)).
    rewrite (proj2 (in_range_spec _ _ _)) by lia. done.
  - unfold on_exec_fault, exec_target. by rewrite Hw.
Qed.

Lemma failed_arm_strands_guest_witness :
  exists m', arm true (2 ^ 14) 4 [(0x40000000, 0x10000, 0x4000); (0x50001000, 0x20000, 0x1000)] wx_boot demo_hw =
      (Err (NotPageMultiple 0x50001000 0x1000), wx_boot, m') /\
    can_exec m' 0x40000010 = false /\ on_exec_fault wx_boot 0x40000010 m' = (false, wx_boot, m').
Proof.
  apply (failed_arm_strands_guest 14 4 0x40000000 0x10000 0x4000 (0x50001000, 0x20000, 0x1000) [] wx_boot demo_hw);
    [done|done|done|done|done|lia].
Defined.
