(* ===== verification/Psci.v ===== *)
(** * Bringing up secondary vCPUs

    [chm/src/imp.rs] ([PsciCoordinator], [wait_for_cpu_on_request]) and the vCPU
    threads of [chm/src/create.rs]: one power slot per vCPU under its lock, the
    PSCI [CPU_ON] call any running vCPU makes, and the thread of each secondary,
    which parks on its slot until the guest kernel asks for the core. A step
    relation interleaves them. The affinity a vCPU's MPIDR carries
    ([set_mpidr_affinity]) and the core a [CPU_ON] names are inverses. *)

From Stdlib Require Import ZArith Lia Bool.
From stdpp Require Import base numbers list list_numbers option.
From S2P Require Import Prelude.

Definition PSCI_SUCCESS : Z := 0.
Definition PSCI_NOT_SUPPORTED : Z := -1.
Definition PSCI_INVALID_PARAMS : Z := -2.
Definition PSCI_ALREADY_ON : Z := -4.
Definition PSCI_ON_PENDING : Z := -5.
Definition MPIDR_RES1 : Z := Z.shiftl 1 31.

Record CpuPowerState := mkPower { online : bool; cpu_on_req : option (Z * Z) }.

(** [cold]. *)
Definition cold (vcpus : nat) : list CpuPowerState :=
  (fun id => mkPower (Nat.eqb id 0) None) <$> seq 0 vcpus.

(** The affinity fields of a core's number; [set_mpidr_affinity] writes it to
    MPIDR_EL1 with the reserved bit. *)
Definition mpidr_of (cpu_id : Z) : Z :=
  Z.lor MPIDR_RES1
    (Z.lor (Z.lor (Z.lor (Z.land cpu_id 0xff)
                         (Z.shiftl (Z.land (Z.shiftr cpu_id 8) 0xff) 8))
                  (Z.shiftl (Z.land (Z.shiftr cpu_id 16) 0xff) 16))
           (Z.shiftl (Z.land (Z.shiftr cpu_id 24) 0xff) 32)).

Definition mpidr_to_vcpu_id (mpidr : Z) : Z :=
  let aff0 := Z.land mpidr 0xff in
  let aff1 := Z.land (Z.shiftr mpidr 8) 0xff in
  let aff2 := Z.land (Z.shiftr mpidr 16) 0xff in
  let aff3 := Z.land (Z.shiftr mpidr 32) 0xff in
  Z.lor (Z.lor (Z.lor aff0 (Z.shiftl aff1 8)) (Z.shiftl aff2 16)) (Z.shiftl aff3 24).

(** [PsciCoordinator::cpu_on]. *)
Definition cpu_on (slots : list CpuPowerState) (target_mpidr entry context : Z) : Z * list CpuPowerState :=
  let target := mpidr_to_vcpu_id target_mpidr in
  match vget slots target with
  | None => (PSCI_INVALID_PARAMS, slots)
  | Some st =>
      if online st then (PSCI_ALREADY_ON, slots)
      else if bool_decide (is_Some (cpu_on_req st)) then (PSCI_ON_PENDING, slots)
      else (PSCI_SUCCESS, vset target (mkPower true (Some (entry, context))) slots)
  end.

(** One pass of the loop of [wait_for_cpu_on_request]: [None] is another wait,
    [Some r] its result. *)
Definition wait_pass (running : bool) (st : CpuPowerState) : option (option (Z * Z)) * CpuPowerState :=
  if negb running then (Some None, st)
  else if online st then
    match cpu_on_req st with
    | Some req => (Some (Some req), mkPower true None)
    | None => (Some None, st)
    end
  else (None, st).

(** [psci_mark_offline]. *)
Definition mark_offline (st : CpuPowerState) : CpuPowerState := mkPower false None.

(** ** The threads *)

(** A vCPU's thread: parked, in the guest with the registers [CPU_ON] gave it
    ([apply_psci_cpu_on_state]), out of the loop, or gone. *)
Inductive Thread := Parked | InGuest (start : option (Z * Z)) | Leaving | Gone.

Record Vm := mkVm { vm_slots : list CpuPowerState; vm_threads : list Thread; vm_running : bool }.

Definition vm_cold (n : nat) : Vm :=
  mkVm (cold n) ((fun id => if Nat.eqb id 0 then InGuest None else Parked) <$> seq 0 n) true.

Inductive PsciEvent :=
| EvCpuOn (target rc : Z) (req : Z * Z)
| EvStart (id : Z) (req : Z * Z)
| EvOther.

Inductive psci_step : Vm -> PsciEvent -> Vm -> Prop :=
| step_cpu_on s i st mpidr entry context rc slots' :
    vget (vm_threads s) i = Some (InGuest st) ->
    cpu_on (vm_slots s) mpidr entry context = (rc, slots') ->
    psci_step s (EvCpuOn (mpidr_to_vcpu_id mpidr) rc (entry, context))
      (mkVm slots' (vm_threads s) (vm_running s))
| step_wait s i st st' r :
    vget (vm_threads s) i = Some Parked -> vget (vm_slots s) i = Some st ->
    wait_pass (vm_running s) st = (r, st') ->
    psci_step s (match r with Some (Some req) => EvStart i req | _ => EvOther end)
      (mkVm (vset i st' (vm_slots s))
         (vset i (match r with None => Parked | Some None => Leaving | Some (Some req) => InGuest (Some req) end)
            (vm_threads s)) (vm_running s))
| step_stop s :
    psci_step s EvOther (mkVm (vm_slots s) (vm_threads s) false)
| step_leave s i st :
    vget (vm_threads s) i = Some (InGuest st) -> vm_running s = false ->
    psci_step s EvOther (mkVm (vm_slots s) (vset i Leaving (vm_threads s)) (vm_running s))
| step_offline s i st :
    vget (vm_threads s) i = Some Leaving -> vget (vm_slots s) i = Some st ->
    psci_step s EvOther (mkVm (vset i (mark_offline st) (vm_slots s)) (vset i Gone (vm_threads s)) (vm_running s)).

Inductive psci_run : Vm -> list PsciEvent -> Vm -> Prop :=
| psci_nil s : psci_run s [] s
| psci_snoc s es s' e s'' : psci_run s es s' -> psci_step s' e s'' -> psci_run s (es ++ [e]) s''.

(** The requests [CPU_ON] accepted for a core, and the ones it started with. *)
Definition accepted (id : Z) (es : list PsciEvent) : list (Z * Z) :=
  omap (fun e => match e with
                 | EvCpuOn t rc req => if (t =? id) && (rc =? PSCI_SUCCESS) then Some req else None
                 | _ => None
                 end) es.
Definition started (id : Z) (es : list PsciEvent) : list (Z * Z) :=
  omap (fun e => match e with EvStart t req => if t =? id then Some req else None | _ => None end) es.

(** ** Affinity *)

Lemma byte_at x n i : 0 <= n -> 0 <= i -> Z.testbit (Z.land (Z.shiftr x n) 0xff) i = (i <? 8) && Z.testbit x (i + n).
Proof.
  intros Hn Hi. change 0xff with (Z.ones 8). rewrite Z.land_spec, testbit_ones, Z.shiftr_spec by lia.
  rewrite (proj2 (Z.leb_le 0 i)) by lia. by rewrite andb_comm.
Qed.

Lemma byte_at' x m n i :
  0 <= n -> 0 <= m -> 0 <= i ->
  Z.testbit (Z.shiftl (Z.land (Z.shiftr x n) 0xff) m) i =
  (m <=? i) && (i <? m + 8) && Z.testbit x (i - m + n).
Proof.
  intros Hn Hm Hi. destruct (Z.leb_spec m i).
  - rewrite Z.shiftl_spec, byte_at by lia. f_equal. f_equal.
    destruct (Z.ltb_spec (i - m) 8), (Z.ltb_spec i (m + 8)); lia.
  - by rewrite Z.shiftl_spec_low by lia.
Qed.

Lemma mpidr_of_bit id i :
  0 <= i ->
  Z.testbit (mpidr_of id) i =
  (i =? 31) || (i <? 24) && Z.testbit id i || (32 <=? i) && (i <? 40) && Z.testbit id (i - 8).
Proof.
  intros Hi. unfold mpidr_of, MPIDR_RES1. rewrite !Z.lor_spec, !byte_at', Z.shiftl_1_l, Z.pow2_bits_eqb by lia.
  rewrite <- (Z.shiftr_0_r id) at 1. rewrite byte_at by lia.
  replace (i - 8 + 8) with i by lia. replace (i - 16 + 16) with i by lia.
  replace (i - 32 + 24) with (i - 8) by lia. replace (i + 0) with i by lia.
  rewrite (Z.eqb_sym 31). 
  destruct (Z.eqb_spec i 31), (Z.ltb_spec i 8), (Z.leb_spec 8 i), (Z.ltb_spec i (8 + 8)), (Z.leb_spec 16 i),
    (Z.ltb_spec i (16 + 8)), (Z.leb_spec 32 i), (Z.ltb_spec i (32 + 8)), (Z.ltb_spec i 24), (Z.ltb_spec i 40);
    try lia; cbn; by rewrite ?orb_false_r, ?orb_true_r.
Qed.

(** Comparisons that [lia] decides. *)
Ltac decide_cmp :=
  repeat match goal with
  | |- context [?a <? ?b] =>
      first [rewrite (proj2 (Z.ltb_lt a b)) by lia|rewrite (proj2 (Z.ltb_ge a b)) by lia]
  | |- context [?a <=? ?b] =>
      first [rewrite (proj2 (Z.leb_le a b)) by lia|rewrite (proj2 (Z.leb_gt a b)) by lia]
  | |- context [?a =? ?b] =>
      first [rewrite (proj2 (Z.eqb_eq a b)) by lia|rewrite (proj2 (Z.eqb_neq a b)) by lia]
  end.

(** The core a [CPU_ON] names is the one whose MPIDR it gives. *)
Theorem mpidr_roundtrip id : 0 <= id < 2 ^ 32 -> mpidr_to_vcpu_id (mpidr_of id) = id.
Proof.
  intros Hid. apply Z.bits_inj'. intros i Hi. unfold mpidr_to_vcpu_id. rewrite !Z.lor_spec, !byte_at' by lia.
  rewrite <- (Z.shiftr_0_r (mpidr_of id)) at 1. rewrite byte_at by lia.
  replace (i - 8 + 8) with i by lia. replace (i - 16 + 16) with i by lia.
  replace (i - 24 + 32) with (i + 8) by lia. replace (i + 0) with i by lia.
  rewrite !mpidr_of_bit by lia. replace (i + 8 - 8) with i by lia.
  assert (i < 8 \/ 8 <= i < 16 \/ 16 <= i < 24 \/ 24 <= i < 32 \/ 32 <= i) as [?|[?|[?|[?|?]]]] by lia;
    [..|rewrite (testbit_high id 32 i) by lia]; decide_cmp; cbn; by rewrite ?orb_false_r.
Qed.

Lemma mpidr_roundtrip_witness : mpidr_to_vcpu_id (mpidr_of 0x1020304) = 0x1020304.
Proof. apply mpidr_roundtrip. lia. Defined.

(** ** The protocol *)

(** What a core's slot, thread and history have in common while the VM runs. *)
Definition core_ok (id : Z) (st : CpuPowerState) (th : Thread) (es : list PsciEvent) : Prop :=
  match th with
  | Parked =>
      id <> 0 /\ started id es = [] /\
      ((st = mkPower false None /\ accepted id es = []) \/
       exists req, st = mkPower true (Some req) /\ accepted id es = [req])
  | InGuest None => id = 0 /\ st = mkPower true None /\ accepted id es = [] /\ started id es = []
  | InGuest (Some req) => st = mkPower true None /\ accepted id es = [req] /\ started id es = [req]
  | Leaving | Gone => False
  end.

Definition psci_ok (s : Vm) (es : list PsciEvent) : Prop :=
  forall id st th, vget (vm_slots s) id = Some st -> vget (vm_threads s) id = Some th -> core_ok id st th es.

Lemma accepted_snoc id es e : accepted id (es ++ [e]) = accepted id es ++ accepted id [e].
Proof. unfold accepted. by rewrite omap_app. Qed.

Lemma started_snoc id es e : started id (es ++ [e]) = started id es ++ started id [e].
Proof. unfold started. by rewrite omap_app. Qed.

(** An event that is neither an accepted call nor a start of the core. *)
Lemma core_ok_quiet id st th es e :
  accepted id [e] = [] -> started id [e] = [] -> core_ok id st th es -> core_ok id st th (es ++ [e]).
Proof. intros Ha Hs. unfold core_ok. by rewrite accepted_snoc, started_snoc, Ha, Hs, !app_nil_r. Qed.

Lemma vm_cold_ok n : psci_ok (vm_cold n) [].
Proof.
  intros id st th Hs Ht. unfold vm_cold, cold in *. cbn [vm_slots vm_threads] in *.
  apply vget_Some in Hs as [_ Hs]. apply vget_Some in Ht as [Hid Ht].
  rewrite list_lookup_fmap in Hs. rewrite list_lookup_fmap in Ht. destruct (seq 0 n !! Z.to_nat id) as [j|] eqn:Ej; [|done].
  apply lookup_seq in Ej as [-> _]. cbn in Hs, Ht. injection Hs as <-. injection Ht as <-.
  destruct (Nat.eqb_spec (Z.to_nat id) 0); cbn; (split_and!; [lia|by auto..]).
Qed.

Lemma cpu_on_step s es mpidr entry context rc slots' :
  psci_ok s es -> cpu_on (vm_slots s) mpidr entry context = (rc, slots') ->
  psci_ok (mkVm slots' (vm_threads s) (vm_running s))
    (es ++ [EvCpuOn (mpidr_to_vcpu_id mpidr) rc (entry, context)]).
Proof.
  intros Hok. unfold cpu_on. set (t := mpidr_to_vcpu_id mpidr).
  destruct (vget (vm_slots s) t) as [st0|] eqn:Et.
  2:{ intros [= <- <-] id st th Hs Ht. apply core_ok_quiet; [cbn; by rewrite andb_false_r|done|by apply Hok]. }
  destruct (online st0) eqn:Eo.
  { intros [= <- <-] id st th Hs Ht. apply core_ok_quiet; [cbn; by rewrite andb_false_r|done|by apply Hok]. }
  case_bool_decide as Hq.
  { intros [= <- <-] id st th Hs Ht. apply core_ok_quiet; [cbn; by rewrite andb_false_r|done|by apply Hok]. }
  intros [= <- <-] id st th Hs Ht. cbn [vm_slots vm_threads] in *. destruct (decide (t = id)) as [->|Hne].
  - rewrite vget_vset_eq in Hs by (by apply vget_Some in Et as []). injection Hs as <-.
    specialize (Hok id st0 th Et Ht). unfold core_ok in *. rewrite accepted_snoc, started_snoc. cbn.
    rewrite Z.eqb_refl, app_nil_r. cbn. destruct th as [|[req|]| |]; [|naive_solver..].
    destruct Hok as (Hn & Hst & [[-> Ha]|(req & -> & _)]); [|done]. split_and!; [done|done|]. right.
    eexists. by rewrite Ha.
  - rewrite vget_vset_ne in Hs by done. apply core_ok_quiet; [|done|by apply Hok].
    cbn. by rewrite (proj2 (Z.eqb_neq _ _)).
Qed.

Lemma wait_step s es i st st' r :
  psci_ok s es -> vm_running s = true ->
  vget (vm_threads s) i = Some Parked -> vget (vm_slots s) i = Some st ->
  wait_pass (vm_running s) st = (r, st') ->
  psci_ok (mkVm (vset i st' (vm_slots s))
     (vset i (match r with None => Parked | Some None => Leaving | Some (Some req) => InGuest (Some req) end)
        (vm_threads s)) (vm_running s))
    (es ++ [match r with Some (Some req) => EvStart i req | _ => EvOther end]).
Proof.
  intros Hok Hrun Hi Hst Hw id st0 th Hs Ht. cbn [vm_slots vm_threads] in *.
  unfold wait_pass in Hw. rewrite Hrun in Hw. cbn [negb] in Hw.
  destruct (decide (i = id)) as [->|Hne].
  - rewrite vget_vset_eq in Hs by (by apply vget_Some in Hst as []). injection Hs as <-.
    rewrite vget_vset_eq in Ht by (by apply vget_Some in Hi as []). injection Ht as <-.
    specialize (Hok id st Parked Hst Hi). destruct Hok as (Hn & Hs0 & [[-> Ha]|(req & -> & Ha)]); cbn in Hw;
      injection Hw as <- <-; unfold core_ok; rewrite accepted_snoc, started_snoc, Hs0, Ha; cbn.
    + by auto.
    + by rewrite Z.eqb_refl.
  - rewrite vget_vset_ne in Hs by done. rewrite vget_vset_ne in Ht by done. specialize (Hok id st0 th Hs Ht).
    apply core_ok_quiet; [by destruct r as [[]|]| |done]. destruct r as [[]|]; cbn; [|done..].
    by rewrite (proj2 (Z.eqb_neq _ _)).
Qed.

Lemma psci_step_ok s es e s' : psci_ok s es -> psci_step s e s' -> vm_running s' = true -> psci_ok s' (es ++ [e]).
Proof.
  intros Hok Hs Hrun. destruct Hs as [s i st mpidr entry context rc slots' Hi Hc|s i st st' r Hi Hst Hw|s i st Hi|s i st Hi Hr|
    s i st Hi Hst]; cbn in Hrun.
  - by apply cpu_on_step.
  - by eapply wait_step.
  - done.
  - congruence.
  - by destruct (Hok i st Leaving Hst Hi).
Qed.

(** C27: [CPU_ON] is exact: while the VM runs, whatever the interleaving of the vCPUs'
    calls and the secondaries' threads, at most one request is accepted for each
    core, the core starts at most once, with the entry point and the context of
    that very request, and an accepted request is never lost: it is in the
    core's slot until the core has started with it. *)
Theorem cpu_on_exact n es s id st th :
  psci_run (vm_cold n) es s -> vm_running s = true ->
  vget (vm_slots s) id = Some st -> vget (vm_threads s) id = Some th ->
  accepted id es = started id es ++ option_list (cpu_on_req st) /\
  (length (accepted id es) <= 1)%nat /\
  th = (match started id es with req :: _ => InGuest (Some req) | [] => if id =? 0 then InGuest None else Parked end).
Proof.
  intros Hrun Hr Hs Ht. assert (psci_ok s es) as Hok.
  { clear Hs Ht. remember (vm_cold n) as s0 eqn:E0.
    induction Hrun as [|s0 es s1 e s2 Hrun IH Hst]; [subst; apply vm_cold_ok|].
    eapply psci_step_ok; [|done|done]. apply IH; [done|by destruct Hst]. }
  specialize (Hok id st th Hs Ht). unfold core_ok in Hok. destruct th as [|[req|]| |]; [..|done|done].
  - destruct Hok as (Hn & -> & [[-> ->]|(req & -> & ->)]); cbn; rewrite (proj2 (Z.eqb_neq _ _)) by done;
      (split_and!; [done|lia|done]).
  - destruct Hok as (-> & -> & ->). cbn. split_and!; [done|lia|done].
  - destruct Hok as (-> & -> & -> & ->). cbn. split_and!; [done|lia|done].
Qed.

(** The boot core starts core 1 of two, and core 1 takes the request. *)
Definition demo_started : Vm :=
  mkVm [mkPower true None; mkPower true None] [InGuest None; InGuest (Some (0x42000000, 7))] true.

Lemma cpu_on_exact_witness :
  psci_run (vm_cold 2) [EvCpuOn 1 0 (0x42000000, 7); EvStart 1 (0x42000000, 7)] demo_started /\
  accepted 1 [EvCpuOn 1 0 (0x42000000, 7); EvStart 1 (0x42000000, 7)] = [(0x42000000, 7)].
Proof.
  assert (psci_run (vm_cold 2) [EvCpuOn 1 0 (0x42000000, 7); EvStart 1 (0x42000000, 7)] demo_started) as Hrun.
  { eapply (psci_snoc _ [_]); [eapply (psci_snoc _ []); [constructor|]|].
    - by apply (step_cpu_on _ 0 None (mpidr_of 1) 0x42000000 7 0
        [mkPower true None; mkPower true (Some (0x42000000, 7))]).
    - by apply (step_wait (mkVm [mkPower true None; mkPower true (Some (0x42000000, 7))] [InGuest None; Parked] true)
        1 (mkPower true (Some (0x42000000, 7))) (mkPower true None) (Some (Some (0x42000000, 7)))). }
  split; [done|]. by destruct (cpu_on_exact 2 _ _ 1 (mkPower true None) _ Hrun eq_refl eq_refl eq_refl) as (-> & _).
Defined.
