(* ===== verification/RunLoop.v ===== *)
(** * The vCPU run loop

    [HvfVcpu::run] of [src/hypervisor/src/hvf/mod.rs]: what a vCPU thread does
    around each entry into the guest. The exits are decoded and handled: stage-2
    aborts (the W^X faults of [ICache], memory-mapped accesses to the software GIC
    of [GicMachine] or to the devices behind the trait [VmOps]), WFI with its
    halt loop, the hypervisor calls (PSCI, TRNG), trapped system registers, the
    virtual timer and cancellations. The guest itself runs in
    [hv_vcpu_run], a parameter. What a handler reads from the host (clocks,
    system registers of the vCPU, entropy, results of framework calls) is its
    [ExitEnv]; while a vCPU waits, other threads change the machine between the
    passes of its loop. *)

From Stdlib Require Import ZArith Lia Bool.
From stdpp Require Import base numbers list list_numbers option.
From S2P Require Import Prelude ICache Psci Platform SoftGic CpuIface GicMachine.

Definition EC_WFX : Z := 0x01.
Definition EC_MSR_MRS_64 : Z := 0x18.
Definition EC_HVC64 : Z := 0x16.
Definition EC_DATA_ABORT_LOWER : Z := 0x24.
Definition EC_DATA_ABORT_SAME : Z := 0x25.
Definition EC_INSTR_ABORT_LOWER : Z := 0x20.
Definition EC_INSTR_ABORT_SAME : Z := 0x21.
Definition HV_EXIT_REASON_CANCELED : Z := 0.
Definition HV_EXIT_REASON_EXCEPTION : Z := 1.
Definition HV_EXIT_REASON_VTIMER_ACTIVATED : Z := 2.
Definition F_PSCI_VERSION : Z := 0x84000000.
Definition F_PSCI_FEATURES : Z := 0x8400000a.
Definition F_PSCI_SYSTEM_OFF : Z := 0x84000008.
Definition F_PSCI_SYSTEM_RESET : Z := 0x84000009.
Definition F_PSCI_CPU_ON : Z := 0xc4000003.
Definition F_PSCI_CPU_ON_32 : Z := 0x84000003.
Definition F_TRNG_VERSION : Z := 0x84000050.
Definition F_TRNG_FEATURES : Z := 0x84000051.
Definition F_TRNG_GET_UUID : Z := 0x84000052.
Definition F_TRNG_RND32 : Z := 0x84000053.
Definition F_TRNG_RND64 : Z := 0xc4000053.
Definition PSCI_VERSION_1_0 : Z := 0x00010000.
Definition SMCCC_SUCCESS : Z := 0.
Definition SMCCC_NOT_SUPPORTED : Z := u64 (-1).
Definition SMCCC_INVALID_PARAMETER : Z := u64 (-2).
Definition WFI_IDLE_POLL_MS : Z := 100.

Definition u128 (x : Z) : Z := x mod 2 ^ 128.
(** [x as i64] of an unsigned value. *)
Definition as_i64 (x : Z) : Z := let y := u64 x in if y <? 2 ^ 63 then y else y - 2 ^ 64.

(** ** Interfaces *)

(** The trait [VmOps]: the devices behind the vCPUs. *)
Inductive VmOpsError := VmOpsFailed.

Class VmOps (V : Type) := {
  mmio_read : V -> Z -> nat -> res VmOpsError (list Z) * V;
  mmio_write : V -> Z -> list Z -> res VmOpsError unit * V;
  psci_vcpu_on : V -> Z -> Z -> Z -> res VmOpsError Z * V;
}.

Inductive VmExit := Ignore | Shutdown | Reset.

Inductive RunError :=
| RunFailed (rc : Z)
| NoValidIss (ipa esr : Z)
| NoVmOps (ipa : Z)
| DeviceFailed
| RegFailed (reg : Z)
| UnhandledSysreg (esr : Z)
| UnhandledException (ec esr ipa : Z)
| RearmFailed (rc : Z)
| UnexpectedReason (reason : Z).

(** [hv_vcpu_exit_t]. *)
Record HvExit := mkExit { ex_reason : Z; ex_syndrome : Z; ex_ipa : Z }.

(** What the vCPUs' threads share and own: the vCPUs with the software GIC, the
    registered [VmOps], the state of [icache_wx], and each vCPU's counters. *)
Record Host (V M : Type) := mkHost {
  h_gic : Machine;
  h_ops : option V;
  h_wx : Wx;
  h_hw : M;
  h_run_gen : list Z;
  h_parked_ns : list Z;
}.
Arguments mkHost {V M} _ _ _ _ _ _.
Arguments h_gic {V M} _.
Arguments h_ops {V M} _.
Arguments h_wx {V M} _.
Arguments h_hw {V M} _.
Arguments h_run_gen {V M} _.
Arguments h_parked_ns {V M} _.

(** One pass of the halt loop as the host sees it: what the other threads did to
    the machine since the last pass, the two readings of the guest's counter and
    the monotonic clock. *)
Record HaltReading := mkHalt {
  hr_others : Machine -> Machine;
  hr_cntvct : Z;
  hr_now : Z;
  hr_cntvct_nap : Z;
}.

(** What the handling of one exit reads from the host. *)
Record ExitEnv := mkEnv {
  xe_ctl : option Z;
  xe_cval : option Z;
  xe_cntvct : Z;
  xe_scale : option (Z * Z);
  xe_timebase : Z * Z;
  xe_halt_start : Z;
  xe_halt : list HaltReading;
  xe_parked : Z;
  xe_entropy : list Z;
  xe_managed : bool;
  xe_rearm_rc : Z;
  xe_leak : option Z;
}.

(** ** Idling *)

Definition timer_live (ctl : Z) : bool := negb (Z.land ctl 1 =? 0) && (Z.land ctl 2 =? 0).

(** Guest ticks to host nanoseconds, in [u128]. *)
Definition ticks_to_ns (num den numer denom ticks : Z) : Z :=
  u128 (u128 (ticks * den) / num * numer) / denom.

Definition nap_ms (live : bool) (cval now : Z) (scale : option (Z * Z)) (timebase : Z * Z) : Z :=
  if live then
    if now <? cval then
      let '(num, den) := default (1, 1) scale in
      let ns := ticks_to_ns num den timebase.1 timebase.2 (cval - now) in
      clamp 1 10 (u64 (ns / 1000000))
    else 1
  else 10.

Definition wfi_park_ms (xe : ExitEnv) : Z :=
  let ctl := default 0 (xe_ctl xe) in
  if negb (timer_live ctl) then WFI_IDLE_POLL_MS
  else
    let cval := default 0 (xe_cval xe) in
    if cval <=? xe_cntvct xe then 0
    else
      let remaining := cval - xe_cntvct xe in
      let host := match xe_scale xe with
                  | Some (num, den) => u64 (u128 (remaining * den) / num)
                  | None => remaining
                  end in
      let ns := u128 (host * (xe_timebase xe).1) / (xe_timebase xe).2 in
      clamp 1 WFI_IDLE_POLL_MS (as_i64 (ns / 1000000)).

(** One pass of the loop: whether it breaks, and the machine. *)
Definition halt_pass (id : Z) (live : bool) (cval deadline : Z) (r : HaltReading) (m : Machine) :
    res unit (bool * Machine) :=
  let m := hr_others r m in
  m ← (if live && (cval <=? hr_cntvct r) then usgic_assert_spi m id VTIMER_PPI else Ok m);
  m ← usgic_drain_injected m id;
  c ← get_cpu m id;
  Ok (should_assert (v_gic c) || (deadline <=? hr_now r), m).

(** The loop, with the length of each nap. *)
Fixpoint halt_loop (id : Z) (live : bool) (cval deadline : Z) (scale : option (Z * Z)) (timebase : Z * Z)
    (rs : list HaltReading) (m : Machine) : res unit (list Z * Machine) :=
  match rs with
  | [] => NoFuel
  | r :: rs =>
      '(brk, m) ← halt_pass id live cval deadline r m;
      if brk : bool then Ok ([], m)
      else
        '(naps, m) ← halt_loop id live cval deadline scale timebase rs m;
        Ok (nap_ms live cval (hr_cntvct_nap r) scale timebase :: naps, m)
  end.

Definition halt (id : Z) (xe : ExitEnv) (m : Machine) : res unit (list Z * Machine) :=
  halt_loop id (timer_live (default 0 (xe_ctl xe))) (default (2 ^ 64 - 1) (xe_cval xe))
    (xe_halt_start xe + 1000000000) (xe_scale xe) (xe_timebase xe) (xe_halt xe) m.

(** ** Data aborts *)

Record DataAbort := mkAbort { da_access : nat; da_srt : Z; da_write : bool }.

(** The fields [handle_data_abort] takes from the syndrome. *)
Definition decode_abort (esr : Z) : option DataAbort :=
  let iss := Z.land esr 0x01ffffff in
  if Z.land (Z.shiftr iss 24) 1 =? 0 then None
  else
    let sas := Z.land (Z.shiftr iss 22) 0x3 in
    Some (mkAbort (Z.to_nat (Z.shiftl 1 sas)) (Z.land (Z.shiftr iss 16) 0x1f)
            (Z.land (Z.shiftr iss 6) 1 =? 1)).

(** ** The handlers *)

Section Handlers.
Context {V M : Type} `{VmOps V} `{HvMem M}.

Local Notation act A := (io (Host V M) RunError A).

Definition set_machine (m : Machine) (h : Host V M) : Host V M :=
  mkHost m (h_ops h) (h_wx h) (h_hw h) (h_run_gen h) (h_parked_ns h).
Definition set_ops (v : V) (h : Host V M) : Host V M :=
  mkHost (h_gic h) (Some v) (h_wx h) (h_hw h) (h_run_gen h) (h_parked_ns h).
Definition set_icache (w : Wx) (m : M) (h : Host V M) : Host V M :=
  mkHost (h_gic h) (h_ops h) w m (h_run_gen h) (h_parked_ns h).
Definition bump (l : list Z) (id n : Z) : list Z := vset id (u64 (default 0 (vget l id) + n)) l.
Definition add_run_gen (id : Z) (h : Host V M) : Host V M :=
  mkHost (h_gic h) (h_ops h) (h_wx h) (h_hw h) (bump (h_run_gen h) id 1) (h_parked_ns h).
Definition add_parked (id ns : Z) (h : Host V M) : Host V M :=
  mkHost (h_gic h) (h_ops h) (h_wx h) (h_hw h) (h_run_gen h) (bump (h_parked_ns h) id (u64 ns)).

Definition fail {A} (e : RunError) : act A := fun h => (Err e, h).

(** A step of the software GIC. *)
Definition gic_step {A} (f : Machine -> res unit (A * Machine)) : act A := fun h =>
  match f (h_gic h) with
  | Ok (a, m) => (Ok a, set_machine m h)
  | Err _ | Panic => (Panic, h)
  | NoFuel => (NoFuel, h)
  end.

Definition gic_do (f : Machine -> res unit Machine) : act unit :=
  gic_step (fun m => m ← f m; Ok (tt, m)).

Definition my_vcpu (id : Z) : act Vcpu := gic_step (fun m => c ← get_cpu m id; Ok (c, m)).

Definition get_reg (id rt : Z) : act Z :=
  c ← my_vcpu id;
  match vget (v_x c) rt with Some v => mret v | None => fail (RegFailed rt) end.

Definition upd_vcpu (id : Z) (f : Vcpu -> Vcpu) : act unit :=
  gic_do (fun m => c ← get_cpu m id; Ok (set_cpu id (f c) m)).

Definition set_reg (id rt v : Z) : act unit :=
  c ← my_vcpu id;
  if (0 <=? rt) && (rt <? Z.of_nat (length (v_x c))) then upd_vcpu id (set_x rt v)
  else fail (RegFailed rt).

(** [pc.wrapping_add(4)]. *)
Definition next_insn (id : Z) : act unit := upd_vcpu id advance_pc.

Definition usgic_enabled (id : Z) : act bool := c ← my_vcpu id; mret (g_enabled (v_gic c)).

(** A call of the registered [VmOps]; a failure becomes [RunVcpu]. *)
Definition ops_call {A} (none : RunError) (f : V -> res VmOpsError A * V) : act A := fun h =>
  match h_ops h with
  | None => (Err none, h)
  | Some v => let '(r, v) := f v in (map_err (fun _ => DeviceFailed) r, set_ops v h)
  end.

Definition load_reg (id srt : Z) : act Z := if srt =? 31 then mret 0 else get_reg id srt.

Definition handle_data_abort (id esr ipa : Z) : act unit :=
  match decode_abort esr with
  | None => fail (NoValidIss ipa esr)
  | Some (mkAbort access srt is_write) =>
      enabled ← usgic_enabled id;
      served ←
        (if enabled : bool then
           write_val ← (if is_write && negb (srt =? 31) then get_reg id srt else mret 0);
           r ← gic_step (fun m => usgic_mmio m id ipa is_write write_val (Z.of_nat access));
           match r with
           | Some read_val =>
               _ ← (if negb is_write && negb (srt =? 31) then set_reg id srt read_val else mret tt);
               _ ← next_insn id;
               mret true
           | None => mret false
           end
         else mret false);
      if served : bool then mret tt
      else
        _ ← ops_call (NoVmOps ipa) (fun v => (Ok tt, v));
        _ ←
          (if is_write then
             val ← load_reg id srt;
             ops_call (NoVmOps ipa) (fun v => mmio_write v ipa (take access (le_bytes 8 val)))
           else
             bytes ← ops_call (NoVmOps ipa) (fun v => mmio_read v ipa access);
             if srt =? 31 then mret tt else set_reg id srt (le_val (bytes ++ replicate (8 - access) 0)));
        next_insn id
  end.

Definition handle_debug_sysreg_trap (id esr : Z) : act bool :=
  let s := decode_iss esr in
  if negb (iss_op0 s =? 2) || negb (iss_op1 s =? 0) then mret false
  else
    wval ← (if iss_read s || (iss_rt s =? 31) then mret 0 else get_reg id (iss_rt s));
    let rval : option (option Z) :=
      if CpuIface.arm (iss_key s) 1 0 4 && (negb (iss_read s) && (Z.land wval 1 =? 0)) then Some None
      else if CpuIface.arm (iss_key s) 1 1 4 && iss_read s then Some (Some 0)
      else if CpuIface.arm (iss_key s) 1 3 4 && (Z.land wval 1 =? 0) then Some (Some 0)
      else if CpuIface.arm (iss_key s) 1 4 4 && (Z.land wval 1 =? 0) then Some (Some 0)
      else None in
    match rval with
    | None => mret false
    | Some rval =>
        match (if iss_read s then rval else Some 0) with
        | None => mret false
        | Some v =>
            _ ← (if iss_read s && negb (iss_rt s =? 31) then set_reg id (iss_rt s) v else mret tt);
            _ ← next_insn id;
            mret true
        end
    end.

(** ** Hypervisor calls *)

Definition psci_supported (fid : Z) : bool :=
  existsb (Z.eqb fid)
    [F_PSCI_VERSION; F_PSCI_FEATURES; F_PSCI_SYSTEM_OFF; F_PSCI_SYSTEM_RESET; F_PSCI_CPU_ON; F_PSCI_CPU_ON_32].

Definition trng_supported (fid : Z) : bool :=
  existsb (Z.eqb fid) [F_TRNG_VERSION; F_TRNG_FEATURES; F_TRNG_GET_UUID; F_TRNG_RND32; F_TRNG_RND64].

Definition reply (id v : Z) : act VmExit := _ ← set_reg id 0 v; mret Ignore.

Definition psci_cpu_on (id : Z) : act VmExit := fun h =>
  match h_ops h with
  | None => reply id SMCCC_NOT_SUPPORTED h
  | Some _ =>
      (target_mpidr ← get_reg id 1;
       entry ← get_reg id 2;
       context ← get_reg id 3;
       rc ← ops_call DeviceFailed (fun v => psci_vcpu_on v target_mpidr entry context);
       reply id (u64 rc)) h
  end.

Definition trng_rnd (id func : Z) (entropy : list Z) : act VmExit :=
  let max_bits := if func =? F_TRNG_RND64 then 192 else 96 in
  nbits ← get_reg id 1;
  if (nbits =? 0) || (max_bits <? nbits) then reply id SMCCC_INVALID_PARAMETER
  else
    _ ← set_reg id 1 (le_val (take 8 entropy));
    _ ← set_reg id 2 (le_val (take 8 (drop 8 entropy)));
    _ ← set_reg id 3 (le_val (take 8 (drop 16 entropy)));
    reply id SMCCC_SUCCESS.

Definition handle_hvc (id : Z) (entropy : list Z) : act VmExit :=
  func ← get_reg id 0;
  if func =? F_PSCI_VERSION then reply id PSCI_VERSION_1_0
  else if func =? F_PSCI_FEATURES then
    fid ← get_reg id 1;
    reply id (if psci_supported fid then SMCCC_SUCCESS else SMCCC_NOT_SUPPORTED)
  else if func =? F_PSCI_SYSTEM_OFF then mret Shutdown
  else if func =? F_PSCI_SYSTEM_RESET then mret Reset
  else if (func =? F_PSCI_CPU_ON) || (func =? F_PSCI_CPU_ON_32) then psci_cpu_on id
  else if func =? F_TRNG_VERSION then reply id (Z.shiftl 1 16)
  else if func =? F_TRNG_FEATURES then
    fid ← get_reg id 1;
    reply id (if trng_supported fid then SMCCC_SUCCESS else SMCCC_NOT_SUPPORTED)
  else if func =? F_TRNG_GET_UUID then
    _ ← set_reg id 0 0x8c2eb1a0;
    _ ← set_reg id 1 0x4d8f11ee;
    _ ← set_reg id 2 0xa1b2c3d4;
    _ ← set_reg id 3 0xe5f60718;
    mret Ignore
  else if (func =? F_TRNG_RND32) || (func =? F_TRNG_RND64) then trng_rnd id func entropy
  else reply id 0.

(** ** The exits *)

Definition exec_fault (ipa : Z) : act bool := fun h =>
  let '(b, w, m) := on_exec_fault (h_wx h) ipa (h_hw h) in (Ok b, set_icache w m h).

(** [icache_wx::armed() && icache_wx::on_write_fault(ipa)]. *)
Definition write_fault (ipa : Z) : act bool := fun h =>
  if negb (wx_armed (h_wx h)) then (Ok false, h)
  else let '(b, w, m) := on_write_fault (h_wx h) ipa (h_hw h) in (Ok b, set_icache w m h).

Definition handle_wfx (id : Z) (xe : ExitEnv) : act VmExit :=
  _ ← next_insn id;
  enabled ← usgic_enabled id;
  _ ← (if enabled : bool then gic_do (fun m => '(_, m) ← halt id xe m; Ok m) else mret tt);
  _ ← io_modify (add_parked id (xe_parked xe));
  mret Ignore.

Definition handle_sysreg (id esr : Z) (xe : ExitEnv) : act VmExit :=
  enabled ← usgic_enabled id;
  icc ← (if enabled : bool then gic_step (fun m => handle_icc_trap (xe_leak xe) m id esr) else mret false);
  handled ← (if icc : bool then mret true else handle_debug_sysreg_trap id esr);
  if handled : bool then mret Ignore else fail (UnhandledSysreg esr).

Definition handle_exception (id esr ipa : Z) (xe : ExitEnv) : act VmExit :=
  let ec := Z.land (Z.shiftr esr 26) 0x3f in
  let unhandled := fail (UnhandledException ec esr ipa) in
  if (ec =? EC_INSTR_ABORT_LOWER) || (ec =? EC_INSTR_ABORT_SAME) then
    ours ← exec_fault ipa;
    if ours : bool then mret Ignore else unhandled
  else if (ec =? EC_DATA_ABORT_LOWER) || (ec =? EC_DATA_ABORT_SAME) then
    ours ← write_fault ipa;
    if ours : bool then mret Ignore else _ ← handle_data_abort id esr ipa; mret Ignore
  else if ec =? EC_WFX then handle_wfx id xe
  else if ec =? EC_HVC64 then handle_hvc id (xe_entropy xe)
  else if ec =? EC_MSR_MRS_64 then handle_sysreg id esr xe
  else unhandled.

(** The activation leaves HVF's mask on the timer set. *)
Definition handle_vtimer (id : Z) (xe : ExitEnv) : act VmExit :=
  enabled ← usgic_enabled id;
  if enabled : bool then _ ← gic_do (fun m => vtimer_exit m id); mret Ignore
  else
    _ ← upd_vcpu id (set_vtmask true);
    if negb (xe_managed xe) then mret Ignore
    else if negb (xe_rearm_rc xe =? 0) then fail (RearmFailed (xe_rearm_rc xe))
    else _ ← upd_vcpu id (set_vtmask false); mret Ignore.

Definition unmask_vtimer_after_cancel (id : Z) (xe : ExitEnv) : act unit :=
  if negb (timer_live (default 0 (xe_ctl xe))) then mret tt
  else if xe_rearm_rc xe =? 0 then upd_vcpu id (set_vtmask false) else mret tt.

Definition handle_exit (id : Z) (ex : HvExit) (xe : ExitEnv) : act VmExit :=
  if ex_reason ex =? HV_EXIT_REASON_EXCEPTION then handle_exception id (ex_syndrome ex) (ex_ipa ex) xe
  else if ex_reason ex =? HV_EXIT_REASON_VTIMER_ACTIVATED then handle_vtimer id xe
  else if ex_reason ex =? HV_EXIT_REASON_CANCELED then
    _ ← unmask_vtimer_after_cancel id xe; mret Ignore
  else fail (UnexpectedReason (ex_reason ex)).

(** [run]: [hv_vcpu_run] is the guest's turn. *)
Definition run (id : Z) (rd : Readings) (hv_vcpu_run : Machine -> Z * HvExit * Machine) (xe : ExitEnv) :
    act VmExit :=
  _ ← io_modify (add_run_gen id);
  _ ← gic_do (fun m => run_entry m id rd);
  ret ← gic_step (fun m => let '(rc, ex, m) := hv_vcpu_run m in Ok ((rc, ex), m));
  if negb (ret.1 =? 0) then fail (RunFailed ret.1) else handle_exit id ret.2 xe.
End Handlers.

(** ** The devices of a cold-booted VM *)

(** [ColdVmOps]: the bus and the power coordinator. *)
Definition cold_ops {D} (rd : D -> Z -> nat -> list Z * D) (wr : D -> Z -> list Z -> D) :
    VmOps (list (BusEntry D) * list CpuPowerState) := {|
  mmio_read v gpa n := let '(data, bus) := mmio_bus_read rd v.1 gpa n in (Ok data, (bus, v.2));
  mmio_write v gpa data := (Ok tt, (mmio_bus_write wr v.1 gpa data, v.2));
  psci_vcpu_on v target entry context :=
    let '(rc, slots) := cpu_on v.2 target entry context in (Ok rc, (v.1, slots));
|}.

(** ** What the small actions do *)

Section Actions.
Context {V M : Type} `{VmOps V} `{HvMem M}.
Implicit Types h : Host V M.

Definition vcpu_at h (id : Z) (c : Vcpu) : Prop := vget (m_cpus (h_gic h)) id = Some c.

Lemma set_machine_id h : set_machine (h_gic h) h = h.
Proof. by destruct h. Qed.

Lemma get_cpu_at h id c : vcpu_at h id c -> get_cpu (h_gic h) id = Ok c.
Proof. intros Hc. unfold get_cpu. by rewrite Hc. Qed.

Lemma my_vcpu_ok h id c : vcpu_at h id c -> my_vcpu id h = (Ok c, h).
Proof. intros Hc. unfold my_vcpu, gic_step. rewrite (get_cpu_at h id c Hc). cbn. by rewrite set_machine_id. Qed.

Lemma upd_vcpu_ok h id c f :
  vcpu_at h id c -> upd_vcpu id f h = (Ok tt, set_machine (set_cpu id (f c) (h_gic h)) h).
Proof. intros Hc. unfold upd_vcpu, gic_do, gic_step. by rewrite (get_cpu_at h id c Hc). Qed.

Lemma get_reg_ok h id c rt v : vcpu_at h id c -> vget (v_x c) rt = Some v -> get_reg id rt h = (Ok v, h).
Proof. intros Hc Hv. unfold get_reg. rewrite (io_bind_ok _ _ _ _ _ (my_vcpu_ok h id c Hc)). by rewrite Hv. Qed.

Lemma set_reg_ok h id c rt v :
  vcpu_at h id c -> 0 <= rt < Z.of_nat (length (v_x c)) ->
  set_reg id rt v h = (Ok tt, set_machine (set_cpu id (set_x rt v c) (h_gic h)) h).
Proof.
  intros Hc Hr. unfold set_reg. rewrite (io_bind_ok _ _ _ _ _ (my_vcpu_ok h id c Hc)).
  rewrite (proj2 (Z.leb_le 0 rt)), (proj2 (Z.ltb_lt _ _)) by lia. by apply upd_vcpu_ok.
Qed.

Lemma usgic_enabled_ok h id c : vcpu_at h id c -> usgic_enabled id h = (Ok (g_enabled (v_gic c)), h).
Proof. intros Hc. unfold usgic_enabled. by rewrite (io_bind_ok _ _ _ _ _ (my_vcpu_ok h id c Hc)). Qed.

Lemma vcpu_at_set h id c c' : vcpu_at h id c -> vcpu_at (set_machine (set_cpu id c' (h_gic h)) h) id c'.
Proof. intros Hc. unfold vcpu_at. cbn [h_gic set_machine]. by eapply vget_set_cpu. Qed.

Lemma set_machine_twice h id c c' :
  set_machine (set_cpu id c' (set_cpu id c (h_gic h))) (set_machine (set_cpu id c (h_gic h)) h) =
  set_machine (set_cpu id c' (h_gic h)) h.
Proof. unfold set_machine, set_cpu. cbn. by rewrite vset_vset. Qed.
End Actions.

(** The value of a transfer register; 31 is the zero register. *)
Definition xreg (c : Vcpu) (rt : Z) : Z := if rt =? 31 then 0 else default 0 (vget (v_x c) rt).
Definition put_xreg (rt v : Z) (c : Vcpu) : Vcpu := if rt =? 31 then c else set_x rt v c.

(** The software GIC does not claim the address. *)
Definition gic_unclaimed (m : Machine) (c : Vcpu) (ipa : Z) : bool :=
  let g := v_gic c in
  negb (g_enabled g) ||
  negb (negb (g_gicd_base g =? 0) && (g_gicd_base g <=? ipa) && (ipa <? u64 (g_gicd_base g + 0x10000))) &&
  match redist_frame g (Z.of_nat (length (m_redists m))) ipa with Some _ => false | None => true end.

Lemma usgic_mmio_unclaimed m id c ipa w v a :
  vget (m_cpus m) id = Some c -> g_enabled (v_gic c) = true -> gic_unclaimed m c ipa = true ->
  usgic_mmio m id ipa w v a = Ok (None, m).
Proof.
  intros Hc He Hu. unfold gic_unclaimed in Hu. rewrite He in Hu. cbn [negb orb] in Hu.
  apply andb_true_iff in Hu as [Hd Hr]. apply negb_true_iff in Hd. unfold usgic_mmio, get_cpu. rewrite Hc. cbn [mbind res_bind_inst].
  rewrite Hd. by destruct (redist_frame _ _ _).
Qed.

Lemma decode_abort_range esr n srt w :
  decode_abort esr = Some (mkAbort n srt w) ->
  (n = 1 \/ n = 2 \/ n = 4 \/ n = 8)%nat /\ 0 <= srt < 32.
Proof.
  unfold decode_abort. case_match; [done|]. intros [= <- <- _]. split.
  - set (s := Z.land _ 3). assert (0 <= s < 4) as Hs.
    { subst s. change 3 with (Z.ones 2). rewrite Z.land_ones by lia. apply Z.mod_pos_bound. lia. }
    assert (s = 0 \/ s = 1 \/ s = 2 \/ s = 3) as [Es|[Es|[Es|Es]]] by lia; rewrite Es; vm_compute; tauto.
  - change 0x1f with (Z.ones 5). rewrite Z.land_ones by lia. apply Z.mod_pos_bound. lia.
Qed.

Lemma take_le_bytes n m x : (n <= m)%nat -> take n (le_bytes m x) = le_bytes n x.
Proof.
  revert m x. induction n as [|n IH]; intros [|m] x Hle; cbn; try done; [lia|]. f_equal. apply IH. lia.
Qed.

Lemma le_val_pad bs k : le_val (bs ++ replicate k 0) = le_val bs.
Proof.
  rewrite le_val_app. assert (le_val (replicate k 0) = 0) as ->; [|lia].
  induction k as [|k IH]; cbn; [done|]. rewrite IH. lia.
Qed.

(** ** Guest accesses to devices *)

Section Access.
Context {V M : Type} `{VmOps V} `{HvMem M}.
Implicit Types h : Host V M.

(** The part of the handler the software GIC has no share in. *)
Definition device_access (id ipa : Z) (n : nat) (srt : Z) (w : bool) : io (Host V M) RunError unit :=
  _ ← (if w then
         val ← load_reg id srt;
         ops_call (NoVmOps ipa) (fun v => mmio_write v ipa (take n (le_bytes 8 val)))
       else
         bytes ← ops_call (NoVmOps ipa) (fun v => mmio_read v ipa n);
         if srt =? 31 then mret tt else set_reg id srt (le_val (bytes ++ replicate (8 - n) 0)));
  next_insn id.

Lemma handle_data_abort_device h id c esr ipa n srt w v :
  decode_abort esr = Some (mkAbort n srt w) -> vcpu_at h id c -> (31 <= length (v_x c))%nat ->
  gic_unclaimed (h_gic h) c ipa = true -> h_ops h = Some v ->
  handle_data_abort id esr ipa h = device_access id ipa n srt w h.
Proof.
  intros Hd Hc Hx Hu Hv. destruct (decode_abort_range _ _ _ _ Hd) as [_ Hsrt].
  unfold handle_data_abort. rewrite Hd.
  rewrite (io_bind_ok _ _ _ _ _ (usgic_enabled_ok h id c Hc)).
  assert (ops_call (NoVmOps ipa) (fun v : V => (Ok tt, v)) h = (Ok tt, h)) as Ho.
  { unfold ops_call. rewrite Hv. cbn. unfold set_ops. rewrite <- Hv. by destruct h. }
  destruct (g_enabled (v_gic c)) eqn:Eg.
  2:{ rewrite (io_bind_ok _ _ h false h) by done. by rewrite (io_bind_ok _ _ h tt h Ho). }
  rewrite (io_bind_ok _ _ h false h); [by rewrite (io_bind_ok _ _ h tt h Ho)|].
  assert (exists wv, (if w && negb (srt =? 31) then get_reg id srt else mret 0) h = (Ok wv, h)) as (wv & Ew).
  { destruct w; cbn [andb]; [|by eexists]. destruct (Z.eqb_spec srt 31); cbn [negb]; [by eexists|].
    destruct (vget_lt (v_x c) srt ltac:(lia)) as (u & Eu). exists u. by eapply get_reg_ok. }
  rewrite (io_bind_ok _ _ h wv h Ew). rewrite (io_bind_ok _ _ h None h); [done|].
  unfold gic_step. rewrite (usgic_mmio_unclaimed _ id c) by done. by rewrite set_machine_id.
Qed.

Lemma device_store h id c ipa n srt v v' :
  vcpu_at h id c -> (31 <= length (v_x c))%nat -> 0 <= srt < 32 -> (n <= 8)%nat -> h_ops h = Some v ->
  mmio_write v ipa (le_bytes n (xreg c srt)) = (Ok tt, v') ->
  device_access id ipa n srt true h =
  (Ok tt, set_machine (set_cpu id (advance_pc c) (h_gic h)) (set_ops v' h)).
Proof.
  intros Hc Hx Hsrt Hn Hv Hw. unfold device_access, load_reg. rewrite (io_bind_ok _ _ h tt (set_ops v' h)).
  - unfold next_insn. by rewrite (upd_vcpu_ok (set_ops v' h) id c).
  - rewrite (io_bind_ok _ _ h (xreg c srt) h).
    + unfold ops_call. rewrite Hv, take_le_bytes, Hw by done. done.
    + unfold xreg. destruct (Z.eqb_spec srt 31); [done|].
      destruct (vget_lt (v_x c) srt ltac:(lia)) as (u & Eu). rewrite Eu. by eapply get_reg_ok.
Qed.

Lemma device_load h id c ipa n srt v data v' :
  vcpu_at h id c -> (31 <= length (v_x c))%nat -> 0 <= srt < 32 -> h_ops h = Some v ->
  mmio_read v ipa n = (Ok data, v') ->
  device_access id ipa n srt false h =
  (Ok tt, set_machine (set_cpu id (advance_pc (put_xreg srt (le_val data) c)) (h_gic h)) (set_ops v' h)).
Proof.
  intros Hc Hx Hsrt Hv Hr. unfold device_access.
  set (h1 := set_machine (set_cpu id (put_xreg srt (le_val data) c) (h_gic h)) (set_ops v' h)).
  rewrite (io_bind_ok _ _ h tt (if srt =? 31 then set_ops v' h else h1)).
  - unfold next_insn, put_xreg. subst h1. unfold put_xreg. destruct (srt =? 31).
    + by rewrite (upd_vcpu_ok (set_ops v' h) id c).
    + rewrite (upd_vcpu_ok _ id (set_x srt (le_val data) c)).
      * f_equal. apply (set_machine_twice (set_ops v' h)).
      * by apply (vcpu_at_set (set_ops v' h) id c).
  - rewrite (io_bind_ok _ _ h data (set_ops v' h)).
    + subst h1. unfold put_xreg. destruct (Z.eqb_spec srt 31); [done|].
      rewrite le_val_pad. by apply (set_reg_ok (set_ops v' h) id c); [|lia].
    + unfold ops_call. by rewrite Hv, Hr.
Qed.
End Access.

(** C26: A guest's load or store reaches exactly the device whose window holds the
    address: for a store the device gets the low bytes of the register at the
    offset in its window, for a load the register gets the device's bytes, zero
    extended, register 31 being the zero register; the PC moves to the next
    instruction, and no other device, register, vCPU or interrupt state changes. *)
Theorem guest_access_reaches_device {D M} `{HvMem M} (rd : D -> Z -> nat -> list Z * D)
    (wr : D -> Z -> list Z -> D) (h : Host (list (BusEntry D) * list CpuPowerState) M)
    id c esr ipa n srt w bus psci i e :
  decode_abort esr = Some (mkAbort n srt w) ->
  vcpu_at h id c -> (31 <= length (v_x c))%nat -> gic_unclaimed (h_gic h) c ipa = true ->
  h_ops h = Some (bus, psci) -> Forall window_ok bus -> windows_apart bus ->
  bus !! i = Some e -> be_base e <= ipa < be_base e + be_size e ->
  handle_data_abort (H := cold_ops rd wr) id esr ipa h =
  (Ok tt,
   if w then
     set_machine (set_cpu id (advance_pc c) (h_gic h))
       (set_ops (set_dev i (wr (be_dev e) (ipa - be_base e) (le_bytes n (xreg c srt))) bus, psci) h)
   else
     let '(data, dev) := rd (be_dev e) (ipa - be_base e) n in
     set_machine (set_cpu id (advance_pc (put_xreg srt (le_val data) c)) (h_gic h))
       (set_ops (set_dev i dev bus, psci) h)).
Proof.
  intros Hd Hc Hx Hu Hv Hok Hap Hi Hin. destruct (decode_abort_range _ _ _ _ Hd) as [Hn Hsrt].
  rewrite (handle_data_abort_device (H := cold_ops rd wr) h id c esr ipa n srt w (bus, psci)) by done.
  pose proof (bus_find_unique bus ipa i e Hok Hap Hi Hin) as Hf. destruct w.
  - apply (device_store (H := cold_ops rd wr) h id c ipa n srt (bus, psci)); try done; [lia|].
    cbn [mmio_write cold_ops]. unfold mmio_bus_write. cbn [fst snd]. by rewrite Hf.
  - destruct (rd (be_dev e) (ipa - be_base e) n) as [data dev] eqn:Er.
    apply (device_load (H := cold_ops rd wr) h id c ipa n srt (bus, psci)); try done.
    cbn [mmio_read cold_ops]. unfold mmio_bus_read. cbn [fst snd]. by rewrite Hf, Er.
Qed.

(** A console at its place in the address map, the store of [w1] to its data
    register by the first of two vCPUs. *)
Definition demo_vcpu1 : Machine :=
  match get_cpu demo_boot 0 with Ok c => set_cpu 0 (set_x 1 0x4155 c) demo_boot | _ => demo_boot end.
Definition demo_host : Host (list (BusEntry Pl011) * list CpuPowerState) FlatHw :=
  mkHost demo_vcpu1 (Some (demo_bus, cold 2)) wx_boot demo_hw [0; 0] [0; 0].
(** [strb w1], [ldrb w1] and [ldrsb x1] at a data abort from EL0 or EL1. *)
Definition STRB_W1 : Z := 0x93010040.
Definition LDRB_W1 : Z := 0x93010000.
Definition LDRSB_X1 : Z := 0x93218000.

Lemma guest_access_reaches_device_witness :
  exists h', handle_data_abort (H := cold_ops pl011_read pl011_write) 0 STRB_W1 0x9000000 demo_host = (Ok tt, h') /\
    (fst <$> h_ops h') = Some (set_dev 0 (pl011_write pl011_new 0 [0x55]) demo_bus).
Proof.
  destruct (get_cpu (h_gic demo_host) 0) as [c| | |] eqn:Ec; [|by vm_compute in Ec..].
  assert (vcpu_at demo_host 0 c) as Hc.
  { unfold vcpu_at. unfold get_cpu in Ec. destruct (vget _ _) as [c'|]; [by injection Ec as <-|done]. }
  assert (length (v_x c) = 31%nat /\ xreg c 1 = 0x4155 /\ gic_unclaimed (h_gic demo_host) c 0x9000000 = true)
    as (Hl & Hx & Hu) by (vm_compute in Ec; injection Ec as <-; by vm_compute).
  eexists. split.
  - apply (guest_access_reaches_device pl011_read pl011_write demo_host 0 c STRB_W1 0x9000000 1 1 true demo_bus (cold 2) 0
      (mkEntry 0x9000000 0x1000 pl011_new));
      [done|done|lia|done|done|repeat constructor; cbn; lia| |done|cbn; lia].
    intros [|[|i]] [|[|j]] e f Hij He Hf; try done; injection He as <-; injection Hf as <-; cbn; lia.
  - cbn [h_ops set_machine set_ops]. rewrite Hx. reflexivity.
Defined.

(** ** Idling *)

Definition others_ok (id : Z) (f : Machine -> Machine) : Prop :=
  forall m c, machine_wf m -> vget (m_cpus m) id = Some c ->
    after m (f m) /\ exists c', vget (m_cpus (f m)) id = Some c' /\ v_gic c' = v_gic c.

Lemma clamp_range lo hi x : lo <= hi -> lo <= clamp lo hi x <= hi.
Proof. unfold clamp. lia. Qed.

(** A nap lasts between 1 and 10 milliseconds. *)
Lemma nap_range live cval now scale tb : 1 <= nap_ms live cval now scale tb <= 10.
Proof.
  unfold nap_ms. destruct live; [|lia]. destruct (now <? cval); [|lia].
  destruct (default (1, 1) scale) as [num den]. apply clamp_range. lia.
Qed.

Lemma halt_pass_ok id live cval deadline r m c :
  machine_wf m -> vget (m_cpus m) id = Some c -> others_ok id (hr_others r) ->
  exists m' c', halt_pass id live cval deadline r m =
      Ok (should_assert (v_gic c') || (deadline <=? hr_now r), m') /\
    after m m' /\ vget (m_cpus m') id = Some c'.
Proof.
  intros Hm Hc Ho. destruct (Ho m c Hm Hc) as (Ha & c1 & Hc1 & _). unfold halt_pass.
  set (m1 := hr_others r m) in *.
  assert (safe m1 (if live && (cval <=? hr_cntvct r) then usgic_assert_spi m1 id VTIMER_PPI else Ok m1)) as Hs.
  { destruct (_ && _); [eapply usgic_assert_spi_safe; [apply Ha|done|done]|]. exists m1. split; [done|].
    apply after_refl, Ha. }
  destruct (safe_cpu _ _ id c1 Hs Hc1) as (m2 & c2 & -> & A2 & Hc2). cbn [mbind res_bind_inst].
  destruct (safe_cpu _ _ id c2 (drain_safe m2 id c2 (proj1 A2) Hc2) Hc2) as (m3 & c3 & -> & A3 & Hc3).
  cbn [mbind res_bind_inst]. destruct (get_cpu_ok m3 id c3 (proj1 A3) Hc3) as [-> _]. cbn.
  exists m3, c3. split_and!; [done|eauto using after_trans|done].
Qed.

(** The clock of the readings never runs back. *)
Fixpoint clock_ok (t : Z) (rs : list HaltReading) : Prop :=
  match rs with [] => True | r :: rs => t <= hr_now r /\ clock_ok (hr_now r) rs end.

(** How many of the waits lasted a millisecond or more. *)
Fixpoint full_waits (t : Z) (rs : list HaltReading) : Z :=
  match rs with
  | [] => 0
  | r :: rs => (if t + 1000000 <=? hr_now r then 1 else 0) + full_waits (hr_now r) rs
  end.

Lemma halt_loop_returns id live cval deadline scale tb rs : forall t m c,
  machine_wf m -> vget (m_cpus m) id = Some c -> Forall (fun r => others_ok id (hr_others r)) rs ->
  clock_ok t rs -> rs <> [] -> deadline <= t + full_waits t rs * 1000000 ->
  exists naps m' c' r, halt_loop id live cval deadline scale tb rs m = Ok (naps, m') /\ after m m' /\
    vget (m_cpus m') id = Some c' /\ rs !! length naps = Some r /\
    (should_assert (v_gic c') = true \/ deadline <= hr_now r) /\
    Forall (fun n => 1 <= n <= 10) naps.
Proof.
  induction rs as [|r rs IH]; intros t m c Hm Hc Ho Hclk Hne Hd; [done|].
  inversion_clear Ho as [|? ? Ho1 Ho2]. destruct Hclk as [Ht Hclk]. cbn [full_waits] in Hd.
  destruct (halt_pass_ok id live cval deadline r m c Hm Hc Ho1) as (m1 & c1 & E & Ha & Hc1).
  cbn [halt_loop]. rewrite E. cbn [mbind res_bind_inst].
  destruct (should_assert (v_gic c1)) eqn:Es; cbn [orb].
  { exists [], m1, c1, r. split_and!; try done. by left. }
  destruct (Z.leb_spec deadline (hr_now r)) as [Hle|Hgt].
  { exists [], m1, c1, r. split_and!; try done. by right. }
  destruct (IH (hr_now r) m1 c1) as (naps & m2 & c2 & r2 & -> & A2 & Hc2 & Hr2 & Hend & Hf); [apply Ha|done|done|done|..].
  { intros ->. cbn in Hd. case_match; lia. }
  { destruct (Z.leb_spec (t + 1000000) (hr_now r)); lia. }
  cbn [mbind res_bind_inst]. eexists _, m2, c2, r2. split_and!; [done|by eapply after_trans|done|done|done|].
  constructor; [apply nap_range|done].
Qed.

(** A halted vCPU comes back: while the other threads keep the machine
    well-formed and the clock does not run back, a halt whose waits include a
    thousand full milliseconds returns, with an interrupt to deliver or after its
    second is over; every nap is of 1 to 10 milliseconds. *)
Theorem halt_returns id xe m c :
  machine_wf m -> vget (m_cpus m) id = Some c ->
  Forall (fun r => others_ok id (hr_others r)) (xe_halt xe) ->
  clock_ok (xe_halt_start xe) (xe_halt xe) -> 1000 <= full_waits (xe_halt_start xe) (xe_halt xe) ->
  exists naps m' c' r, halt id xe m = Ok (naps, m') /\ after m m' /\
    vget (m_cpus m') id = Some c' /\ xe_halt xe !! length naps = Some r /\
    (should_assert (v_gic c') = true \/ xe_halt_start xe + 1000000000 <= hr_now r) /\
    Forall (fun n => 1 <= n <= 10) naps.
Proof.
  intros Hm Hc Ho Hclk Hw. apply (halt_loop_returns id _ _ _ _ _ _ (xe_halt_start xe) m c); try done; [|lia].
  intros E. rewrite E in Hw. cbn in Hw. lia.
Qed.

(** A quiet halt: nothing arrives and the clock ticks every millisecond. *)
Fixpoint quiet (t : Z) (n : nat) : list HaltReading :=
  match n with
  | O => []
  | S n => mkHalt (fun m => m) 0 (t + 1000000) 0 :: quiet (t + 1000000) n
  end.

Lemma quiet_ok id t n :
  clock_ok t (quiet t n) /\ full_waits t (quiet t n) = Z.of_nat n /\
  Forall (fun r => others_ok id (hr_others r)) (quiet t n).
Proof.
  revert t. induction n as [|n IH]; intros t; cbn [quiet clock_ok full_waits]; [by auto|].
  destruct (IH (t + 1000000)) as (Hc & Hf & Ho). cbn [hr_now]. split_and!; [lia|done| |].
  - rewrite Hf, Z.leb_refl. lia.
  - constructor; [|done]. intros m c Hm Hc'. split; [by apply after_refl|]. by exists c.
Qed.

Definition quiet_env (n : nat) : ExitEnv :=
  mkEnv (Some 0) None 0 None (125, 3) 0 (quiet 0 n) 0 [] false 0 None.

Lemma halt_returns_witness :
  exists naps m', halt 0 (quiet_env 1000) demo_boot = Ok (naps, m') /\ Forall (fun n => 1 <= n <= 10) naps.
Proof.
  destruct (vget (m_cpus demo_boot) 0) as [c|] eqn:Hc; [|by vm_compute in Hc].
  assert (1000 <= Z.of_nat 1000) as Hn by (by vm_compute). revert Hn. generalize 1000%nat as n. intros n Hn.
  destruct (quiet_ok 0 0 n) as (Hclk & Hf & Ho).
  destruct (halt_returns 0 (quiet_env n) demo_boot c) as (naps & m' & c' & r & E & _ & _ & _ & _ & Hnap);
    [by apply machine_boot_wf|exact Hc|exact Ho|exact Hclk| |by exists naps, m'].
  cbn [quiet_env xe_halt xe_halt_start]. by rewrite Hf.
Defined.

Lemma drain_loop_active q : forall m g m' g', drain_loop m g q = Ok (m', g') -> g_active g' = g_active g.
Proof.
  induction q as [|i q IH]; intros m g m' g'; cbn [drain_loop]; [by intros [= _ <-]|].
  unfold drain_one. destruct (if 8192 <=? i then _ else _) as [[en m1]| | |]; cbn [mbind res_bind_inst]; try done.
  intros E%IH. rewrite E. destruct en; [|done]. unfold push_pending. by repeat case_match.
Qed.

(** The drain keeps what is in service and leaves the active stack alone. *)
Lemma drain_keeps m id c m' c' :
  machine_wf m -> vget (m_cpus m) id = Some c -> usgic_drain_injected m id = Ok m' ->
  vget (m_cpus m') id = Some c' ->
  g_active (v_gic c') = g_active (v_gic c) /\
  forall j, in_service (v_gic c) j -> in_service (v_gic c') j.
Proof.
  intros Hm Hc E Hc'. destruct (get_cpu_ok m id c Hm Hc) as [Eg (Hq & Hi & Hj & Hv)].
  unfold usgic_drain_injected in E. rewrite Eg in E. cbn [mbind res_bind_inst] in E.
  destruct (v_inject c) as [|i q] eqn:Ei; [injection E as <-; rewrite Hc in Hc'; by injection Hc' as <-|].
  rewrite <- Ei in *. cbn [set_inject v_gic] in E. destruct (g_enabled (v_gic c)); cbn [negb] in E.
  2:{ injection E as <-. rewrite (vget_set_cpu m id _ c Hc) in Hc'. by injection Hc' as <-. }
  destruct (drain_loop_spec (v_inject c) m (v_gic c) Hm Hq Hi Hj)
    as (m1 & g1 & E1 & Ha & Ec & Er & Hq1 & Ei1 & Hs & _).
  rewrite E1 in E. cbn [mbind res_bind_inst] in E. injection E as <-.
  rewrite <- Ec in Hc. rewrite (vget_set_cpu m1 id _ c Hc) in Hc'. injection Hc' as <-. cbn [v_gic set_gic].
  split; [by eapply drain_loop_active|done].
Qed.

(** A due timer ends the halt at the next pass: when the guest's timer is live
    and its deadline has passed, its interrupt is enabled and nothing is in
    service, the pass breaks with PPI 27 pending and an interrupt to deliver. *)
Theorem due_timer_ends_halt id cval deadline r m c1 rd :
  machine_wf (hr_others r m) -> vget (m_cpus (hr_others r m)) id = Some c1 -> g_enabled (v_gic c1) = true ->
  vget (m_redists (hr_others r m)) (g_redist_index (v_gic c1)) = Some rd ->
  is_ppi_enabled rd VTIMER_PPI = true -> g_active (v_gic c1) = [] -> cval <= hr_cntvct r ->
  exists m' c', halt_pass id true cval deadline r m = Ok (true, m') /\
    vget (m_cpus m') id = Some c' /\ VTIMER_PPI ∈ g_pending (v_gic c') /\ should_assert (v_gic c') = true.
Proof.
  intros Hm Hc He Hr Hp Hact Hdue. unfold halt_pass. set (m1 := hr_others r m) in *.
  rewrite (proj2 (Z.leb_le _ _) Hdue). cbn [andb].
  destruct (get_cpu_ok m1 id c1 Hm Hc) as [Eg Hw]. pose proof Hw as (Hq & Hi & Hj & Hv).
  set (c2 := set_irq_line true (set_gic (push_pending (v_gic c1) VTIMER_PPI) c1)).
  assert (usgic_assert_spi m1 id VTIMER_PPI = Ok (set_cpu id c2 m1)) as ->.
  { unfold usgic_assert_spi. rewrite Eg. cbn [mbind res_bind_inst]. rewrite He. cbn [negb]. unfold gate, my_redist.
    rewrite Hr. change (VTIMER_PPI <? 32) with true. cbn [mbind res_bind_inst]. by rewrite Hp. }
  cbn [mbind res_bind_inst].
  assert (after m1 (set_cpu id c2 m1)) as Ha
    by (apply set_cpu_after; [done|by apply set_irq_cpu, push_pending_cpu]).
  pose proof (vget_set_cpu m1 id c2 c1 Hc) as Hc2.
  destruct (safe_cpu _ _ id c2 (drain_safe _ id c2 (proj1 Ha) Hc2) Hc2) as (m3 & c3 & E3 & A3 & Hc3).
  destruct (drain_keeps _ id c2 m3 c3 (proj1 Ha) Hc2 E3 Hc3) as [Ea Hs]. rewrite E3. cbn [mbind res_bind_inst].
  destruct (get_cpu_ok m3 id c3 (proj1 A3) Hc3) as [-> _]. cbn [mbind res_bind_inst].
  destruct (push_pending_spec (v_gic c1) VTIMER_PPI Hq) as (_ & Eact & _ & Hin).
  assert (VTIMER_PPI ∈ g_pending (v_gic c3)) as Hpend.
  { assert (in_service (v_gic c3) VTIMER_PPI) as Hsv by (apply Hs, Hin; by left).
    unfold in_service in Hsv. rewrite Ea in Hsv. cbn [c2 set_irq_line set_gic v_gic] in Hsv.
    by rewrite Eact, Hact, app_nil_r in Hsv. }
  assert (should_assert (v_gic c3) = true) as Hsa.
  { unfold should_assert. rewrite Ea. cbn [c2 set_irq_line set_gic v_gic]. rewrite Eact, Hact.
    destruct (g_pending (v_gic c3)); [by apply not_elem_of_nil in Hpend|done]. }
  exists m3, c3. rewrite Hsa. by split_and!.
Qed.

Lemma due_timer_ends_halt_witness :
  exists m' c', halt_pass 0 true 5 1000000000 (mkHalt (fun m => m) 9 0 9) demo_enabled = Ok (true, m') /\
    vget (m_cpus m') 0 = Some c' /\ VTIMER_PPI ∈ g_pending (v_gic c') /\ should_assert (v_gic c') = true.
Proof.
  destruct (vget (m_cpus demo_enabled) 0) as [c|] eqn:Hc; [|by vm_compute in Hc].
  destruct (vget (m_redists demo_enabled) 0) as [rd|] eqn:Hr; [|by vm_compute in Hr].
  assert (machine_wf demo_enabled) as Hm.
  { apply (machine_step_after None demo_boot); [by apply machine_boot_wf|].
    apply (step_mmio None demo_boot 0 (0x80A0000 + 0x10100) true 0x8000001 4 (Some 0)). by vm_compute. }
  assert (g_enabled (v_gic c) = true /\ g_redist_index (v_gic c) = 0 /\ g_active (v_gic c) = []) as (He & Hi & Ha)
    by (vm_compute in Hc; by injection Hc as <-).
  apply (due_timer_ends_halt 0 5 1000000000 (mkHalt (fun m => m) 9 0 9) demo_enabled c rd); try done.
  - cbn. by rewrite Hi.
  - vm_compute in Hr. by injection Hr as <-.
Defined.

(** ** No exit panics *)

(** Devices answer or fail; they do not abort the process. *)
Class VmOpsLaws (V : Type) `{VmOps V} := {
  read_settles v gpa n : settles (mmio_read v gpa n).1;
  write_settles v gpa data : settles (mmio_write v gpa data).1;
  psci_settles v target entry context : settles (psci_vcpu_on v target entry context).1;
}.

Lemma cold_ops_laws {D} (rd : D -> Z -> nat -> list Z * D) wr : VmOpsLaws _ (H := cold_ops rd wr).
Proof.
  split; intros; cbn.
  - by destruct (mmio_bus_read _ _ _ _).
  - done.
  - by destruct (cpu_on _ _ _ _).
Qed.

Section Total.
Context {V M : Type} `{VmOpsLaws V} `{HvMem M} (id : Z) (m0 : Machine).
Local Notation act A := (io (Host V M) RunError A).

(** A well-formed machine with the vCPUs and frames of [m0]. *)
Definition host_ok (h : Host V M) : Prop := after m0 (h_gic h).

Definition keeps {A} (a : act A) : Prop :=
  forall h, host_ok h -> settles (a h).1 /\ host_ok (a h).2.

Context (Hid : 0 <= id < Z.of_nat (length (m_cpus m0))).

Lemma host_vcpu h : host_ok h -> exists c, vcpu_at h id c /\ machine_wf (h_gic h).
Proof.
  intros (Hm & Hl & _). destruct (vget_lt (m_cpus (h_gic h)) id) as (c & Hc); [lia|]. by exists c.
Qed.

Lemma keeps_ret {A} (a : A) : keeps (mret a).
Proof. by intros h Hh. Qed.

Lemma keeps_fail {A} e : keeps (fail e : act A).
Proof. by intros h Hh. Qed.

Lemma keeps_bind {A B} (a : act A) (f : A -> act B) : keeps a -> (forall x, keeps (f x)) -> keeps (a ≫= f).
Proof.
  intros Ha Hf h Hh. destruct (Ha h Hh) as [Hs Hk]. unfold mbind, io_bind_inst.
  destruct (a h) as [[x|e| |] h']; cbn in *; [by apply Hf|done..].
Qed.

Lemma keeps_if {A} (b : bool) (a a' : act A) : keeps a -> keeps a' -> keeps (if b then a else a').
Proof. by destruct b. Qed.

Lemma keeps_gic_step {A} (f : Machine -> res unit (A * Machine)) :
  (forall m c, machine_wf m -> vget (m_cpus m) id = Some c -> exists a m', f m = Ok (a, m') /\ after m m') ->
  keeps (gic_step f).
Proof.
  intros Hf h Hh. destruct (host_vcpu h Hh) as (c & Hc & Hm). unfold gic_step.
  destruct (Hf (h_gic h) c Hm Hc) as (a & m' & -> & Ha). cbn. split; [done|].
  unfold host_ok. cbn. by eapply after_trans.
Qed.

Lemma keeps_gic_do (f : Machine -> res unit Machine) :
  (forall m c, machine_wf m -> vget (m_cpus m) id = Some c -> safe m (f m)) -> keeps (gic_do f).
Proof.
  intros Hf. apply keeps_gic_step. intros m c Hm Hc. destruct (Hf m c Hm Hc) as (m' & -> & Ha).
  cbn. by exists tt, m'.
Qed.

Lemma keeps_my_vcpu : keeps (my_vcpu id).
Proof.
  apply keeps_gic_step. intros m c Hm Hc. destruct (get_cpu_ok m id c Hm Hc) as [-> _]. cbn.
  eexists _, _. split; [done|]. by apply after_refl.
Qed.

Lemma keeps_upd (f : Vcpu -> Vcpu) :
  (forall k c, cpu_wf k c -> cpu_wf k (f c)) -> keeps (upd_vcpu id f).
Proof.
  intros Hf. apply keeps_gic_do. intros m c Hm Hc. destruct (get_cpu_ok m id c Hm Hc) as [-> Hw]. cbn.
  eexists. split; [done|]. by apply set_cpu_after, Hf.
Qed.

Lemma keeps_get_reg rt : keeps (get_reg id rt).
Proof.
  apply keeps_bind; [apply keeps_my_vcpu|]. intros c. destruct (vget _ _); [apply keeps_ret|apply keeps_fail].
Qed.

Lemma keeps_set_reg rt v : keeps (set_reg id rt v).
Proof.
  apply keeps_bind; [apply keeps_my_vcpu|]. intros c. apply keeps_if; [by apply keeps_upd|apply keeps_fail].
Qed.

Lemma keeps_next_insn : keeps (next_insn id).
Proof. by apply keeps_upd. Qed.

Lemma keeps_enabled : keeps (usgic_enabled id).
Proof. apply keeps_bind; [apply keeps_my_vcpu|]. intros c. apply keeps_ret. Qed.

Lemma keeps_ops_call {A} none (f : V -> res VmOpsError A * V) :
  (forall v, settles (f v).1) -> keeps (ops_call none f).
Proof.
  intros Hf h Hh. unfold ops_call. destruct (h_ops h) as [v|]; [|done]. specialize (Hf v).
  destruct (f v) as [r v']. cbn in *. by destruct r.
Qed.
End Total.

(** Splits an action into its steps. *)
Ltac keeps_solve :=
  repeat match goal with
  | |- forall _, _ => intros ?
  | |- keeps _ (mret _) => apply keeps_ret
  | |- keeps _ (fail _) => apply keeps_fail
  | |- keeps _ (get_reg _ _) => apply keeps_get_reg; assumption
  | |- keeps _ (set_reg _ _ _) => apply keeps_set_reg; assumption
  | |- keeps _ (next_insn _) => apply keeps_next_insn; assumption
  | |- keeps _ (usgic_enabled _) => apply keeps_enabled; assumption
  | |- keeps _ (if _ then _ else _) => apply keeps_if
  | |- keeps _ (_ ≫= _) => apply keeps_bind
  end.

Section Exits.
Context {V M : Type} `{VmOpsLaws V} `{HvMem M} (id : Z) (m0 : Machine).
Context (Hid : 0 <= id < Z.of_nat (length (m_cpus m0))).
Local Notation keeps := (keeps (V := V) (M := M) m0).

Lemma keeps_data_abort esr ipa : keeps (handle_data_abort id esr ipa).
Proof.
  unfold handle_data_abort, load_reg. destruct (decode_abort esr) as [[n srt w]|]; [|apply keeps_fail].
  keeps_solve.
  - apply (keeps_gic_step id); [done|]. intros m c Hm Hc. by eapply usgic_mmio_safe.
  - case_match; keeps_solve.
  - by apply keeps_ops_call.
  - apply keeps_ops_call. intros v. apply write_settles.
  - apply keeps_ops_call. intros v. apply read_settles.
Qed.

Lemma keeps_debug_trap esr : keeps (handle_debug_sysreg_trap id esr).
Proof. unfold handle_debug_sysreg_trap. keeps_solve. repeat (case_match; keeps_solve). Qed.

Lemma keeps_reply v : keeps (reply id v).
Proof. unfold reply. keeps_solve. Qed.

Lemma keeps_psci_cpu_on : keeps (psci_cpu_on id).
Proof.
  assert (keeps (target_mpidr ← get_reg id 1; entry ← get_reg id 2; context ← get_reg id 3;
    rc ← ops_call DeviceFailed (fun v => psci_vcpu_on v target_mpidr entry context); reply id (u64 rc))) as Hk.
  { keeps_solve; [|apply keeps_reply]. apply keeps_ops_call. intros v'. apply psci_settles. }
  intros h Hh. unfold psci_cpu_on. destruct (h_ops h); [by apply Hk|by apply keeps_reply].
Qed.

Lemma keeps_hvc entropy : keeps (handle_hvc id entropy).
Proof.
  unfold handle_hvc, trng_rnd. keeps_solve; try apply keeps_reply. apply keeps_psci_cpu_on.
Qed.

(** The readings are enough for the halt to return. *)
Definition halt_enough (xe : ExitEnv) : Prop :=
  Forall (fun r => others_ok id (hr_others r)) (xe_halt xe) /\
  clock_ok (xe_halt_start xe) (xe_halt xe) /\ 1000 <= full_waits (xe_halt_start xe) (xe_halt xe).

Lemma halt_safe xe m c :
  halt_enough xe -> machine_wf m -> vget (m_cpus m) id = Some c ->
  exists naps m', halt id xe m = Ok (naps, m') /\ after m m'.
Proof.
  intros (Ho & Hclk & Hw) Hm Hc. unfold halt.
  destruct (halt_loop_returns id (timer_live (default 0 (xe_ctl xe))) (default (2 ^ 64 - 1) (xe_cval xe))
    (xe_halt_start xe + 1000000000) (xe_scale xe) (xe_timebase xe) (xe_halt xe) (xe_halt_start xe) m c)
    as (naps & m' & c' & r & -> & Ha & _); try done; [|lia|by exists naps, m'].
  intros E. rewrite E in Hw. cbn in Hw. lia.
Qed.

Lemma keeps_wfx xe : halt_enough xe -> keeps (handle_wfx id xe).
Proof.
  intros Hx. unfold handle_wfx. keeps_solve; [|by intros h' Hh'].
  apply (keeps_gic_do id); [done|]. intros m c Hm Hc. destruct (halt_safe xe m c Hx Hm Hc) as (n & m' & -> & Ha).
  cbn. by exists m'.
Qed.

Lemma keeps_sysreg esr xe : keeps (handle_sysreg id esr xe).
Proof.
  unfold handle_sysreg. keeps_solve; [|apply keeps_debug_trap].
  apply (keeps_gic_step id); [done|]. intros m c Hm Hc. by eapply handle_icc_trap_safe.
Qed.

Lemma keeps_exec_fault ipa : keeps (exec_fault ipa).
Proof. intros h Hh. unfold exec_fault. by destruct (on_exec_fault _ _ _) as [[b w] m]. Qed.

Lemma keeps_write_fault ipa : keeps (write_fault ipa).
Proof.
  intros h Hh. unfold write_fault. destruct (negb _); [done|]. by destruct (on_write_fault _ _ _) as [[b w] m].
Qed.

Lemma keeps_exception esr ipa xe : halt_enough xe -> keeps (handle_exception id esr ipa xe).
Proof.
  intros Hx. unfold handle_exception. keeps_solve;
    [apply keeps_exec_fault|apply keeps_write_fault|apply keeps_data_abort|by apply keeps_wfx|apply keeps_hvc|
     apply keeps_sysreg].
Qed.

Lemma keeps_cancel xe : keeps (unmask_vtimer_after_cancel id xe).
Proof. unfold unmask_vtimer_after_cancel. keeps_solve. apply keeps_upd; [done|].
  intros k c (Hq & Hi & Hj & _). split_and!; cbn; try done; try lia. Qed.
End Exits.

(** The timer fires only with its interrupt enabled on a vCPU of the software GIC. *)
Definition timer_exit_ok (m : Machine) (id : Z) (ex : HvExit) : Prop :=
  ex_reason ex = HV_EXIT_REASON_VTIMER_ACTIVATED ->
  exists c r, vget (m_cpus m) id = Some c /\ g_enabled (v_gic c) = true /\
    vget (m_redists m) (g_redist_index (v_gic c)) = Some r /\ is_ppi_enabled r VTIMER_PPI = true.



(** A nap longer than the shortest one ends before the deadline: the time to it
    is at least the nap. *)
Lemma nap_not_late cval now scale tb num den :
  default (1, 1) scale = (num, den) -> now < cval ->
  0 <= ticks_to_ns num den tb.1 tb.2 (cval - now) < 2 ^ 64 ->
  1 < nap_ms true cval now scale tb ->
  nap_ms true cval now scale tb * 1000000 <= ticks_to_ns num den tb.1 tb.2 (cval - now).
Proof.
  intros Hs Hlt Hns. unfold nap_ms. rewrite (proj2 (Z.ltb_lt _ _) Hlt), Hs.
  set (ns := ticks_to_ns _ _ _ _ _) in *. unfold clamp, u64.
  assert (0 <= ns / 1000000 <= ns) as Hd.
  { split; [apply Z.div_pos; lia|]. apply Z.div_le_upper_bound; lia. }
  rewrite Z.mod_small by lia. pose proof (Z.mul_div_le ns 1000000). lia.
Qed.

Lemma wfi_park_range xe : 0 <= wfi_park_ms xe <= WFI_IDLE_POLL_MS.
Proof.
  unfold wfi_park_ms. destruct (negb _); [by vm_compute|]. case_match; [by vm_compute|].
  match goal with |- _ <= clamp ?a ?b ?x <= _ => pose proof (clamp_range a b x) as Hc end.
  unfold WFI_IDLE_POLL_MS in *. lia.
Qed.

(** ** Where the documentation and the code part *)

(** A park on an overdue timer lasts 0 ms, outside the documented range. *)
Lemma overdue_park_is_zero :
  wfi_park_ms (mkEnv (Some 1) (Some 5) 9 None (125, 3) 0 [] 0 [] true 0 None) = 0.
Proof. done. Qed.

(** The sign-extension bit of the syndrome is never looked at. *)
Lemma sign_extension_ignored esr : 0 <= esr -> decode_abort (Z.lor esr (Z.shiftl 1 21)) = decode_abort esr.
Proof.
  intros He. unfold decode_abort.
  assert (forall s mask k, 0 <= s -> 0 <= k -> mask = Z.ones k -> (s + k <= 21 \/ 22 <= s) ->
    Z.land (Z.shiftr (Z.land (Z.lor esr (Z.shiftl 1 21)) 33554431) s) mask =
    Z.land (Z.shiftr (Z.land esr 33554431) s) mask) as Hf.
  { intros s mask k Hs Hk -> Hr. apply Z.bits_inj'. intros i Hi.
    rewrite !Z.land_spec, !Z.shiftr_spec, !Z.land_spec, Z.lor_spec, testbit_ones, Z.shiftl_1_l, Z.pow2_bits_eqb by lia.
    destruct (Z.ltb_spec i k); [|by rewrite !andb_false_r].
    rewrite (proj2 (Z.eqb_neq 21 (i + s))), orb_false_r by lia. done. }
  rewrite (Hf 24 1 1), (Hf 22 3 2), (Hf 16 31 5), (Hf 6 1 1) by (lia || done). done.
Qed.

(** [ldrsb x1] of a device byte 0xff: the register is 0xff, where the
    architecture says all ones. *)
Lemma signed_load_zero_extends :
  let h := mkHost demo_vcpu1 (Some ([mkEntry 0x9000000 0x1000 (mkPl011 0 0 0 0 0 0 [] [0xff])], cold 2))
             wx_boot demo_hw [0; 0] [0; 0] in
  match (handle_data_abort (H := cold_ops pl011_read pl011_write) 0 LDRSB_X1 0x9000000 h).2 with
  | h' => (c ← vget (m_cpus (h_gic h')) 0; vget (v_x c) 1) = Some 0xff
  end.
Proof. by vm_compute. Qed.

(** PSCI [AFFINITY_INFO] is reported as not supported, and answered with
    success when it is called. *)
Lemma unknown_call_reports_success :
  let call (f x : Z) :=
    match get_cpu demo_boot 0 with
    | Ok c =>
        let h := mkHost (set_cpu 0 (set_x 1 x (set_x 0 f c)) demo_boot) (Some (demo_bus, cold 2)) wx_boot demo_hw [0; 0] [0; 0] in
        c ← vget (m_cpus (h_gic (handle_hvc (H := cold_ops pl011_read pl011_write) 0 [] h).2)) 0; vget (v_x c) 0
    | _ => None
    end in
  call F_PSCI_FEATURES 0xc4000004 = Some SMCCC_NOT_SUPPORTED /\ call 0xc4000004 1 = Some SMCCC_SUCCESS.
Proof. by vm_compute. Qed.

(** A cancelled run unmasks the timer whether or not its deadline has passed. *)
Lemma cancel_unmasks_early :
  let xe := mkEnv (Some 1) (Some 500) 9 None (125, 3) 0 [] 0 [] true 0 None in
  let h := mkHost demo_fired (Some (demo_bus, cold 2)) wx_boot demo_hw [0; 0] [0; 0] in
  (v_vtmask <$> vget (m_cpus (h_gic h)) 0) = Some true /\
  (v_vtmask <$> vget (m_cpus (h_gic (handle_exit (H := cold_ops pl011_read pl011_write) 0
      (mkExit HV_EXIT_REASON_CANCELED 0 0) xe h).2)) 0) = Some false.
Proof. by vm_compute. Qed.

(** The process when the second of two racing stores is handled. *)
Definition raced_host : Host (list (BusEntry Pl011) * list CpuPowerState) FlatHw :=
  mkHost demo_vcpu1 (Some (demo_bus, cold 2)) (y_wx raced_run.2) (y_hw raced_run.2) [0; 0] [0; 0].

Definition raced_outcome : res RunError VmExit * Host (list (BusEntry Pl011) * list CpuPowerState) FlatHw :=
  handle_exit (H := cold_ops pl011_read pl011_write) 0 (mkExit HV_EXIT_REASON_EXCEPTION STRB_W1 0x40002000)
    (quiet_env 0) raced_host.

