(* ===== verification/Dic.v ===== *)
(** * Reverting an elided instruction-cache invalidation

    [src/hypervisor/src/hvf/dic.rs]: reading a capture's cache-identity
    registers, walking the captured kernel's stage-1 page tables for its
    executable text, locating the two shapes Linux's alternatives leave behind
    around [ic ivau], and the repair that overwrites the guard words. Guest
    memory is the trait [PhysMem], a class here; [GuestMemory] implements it, as
    in the source. Arithmetic wraps as in a release build, shifts by the width or
    more included. *)

From Stdlib Require Import ZArith Lia Bool.
From stdpp Require Import base numbers list list_numbers gmap option.
From S2P Require Import Prelude GuestMem.

(** ** Cache-identity registers *)

Definition CTR_EL0 : Z := 0xd801.
Definition CTR_DIC : Z := Z.shiftl 1 29.
Definition CTR_IDC : Z := Z.shiftl 1 28.
Definition SYSREG_TCR_EL1 : Z := 0xc102.
Definition SYSREG_TTBR1_EL1 : Z := 0xc101.
Definition HOST_CTR_EL0 : Z := 0x9444c004.

(** Each vCPU's captured registers. *)
Definition Snapshot : Type := list (list (Z * Z)).

Inductive Captured := Absent | Disagreed | Agreed (v : Z).

(** The inner loop; [None] is the early return. *)
Fixpoint scan_regs (want : Z) (regs : list (Z * Z)) (seen : option Z) : option (option Z) :=
  match regs with
  | [] => Some seen
  | (reg, val) :: regs =>
      if negb (reg =? want) then scan_regs want regs seen
      else match seen with
           | None => scan_regs want regs (Some val)
           | Some prev => if negb (prev =? val) then None else scan_regs want regs seen
           end
  end.

Fixpoint scan_vcpus (want : Z) (snap : Snapshot) (seen : option Z) : option (option Z) :=
  match snap with
  | [] => Some seen
  | regs :: snap => seen ← scan_regs want regs seen; scan_vcpus want snap seen
  end.

Definition captured_sysreg (snap : Snapshot) (want : Z) : Captured :=
  match scan_vcpus want snap None with
  | None => Disagreed
  | Some None => Absent
  | Some (Some v) => Agreed v
  end.

Definition snapshot_elides_ic_ivau (snap : Snapshot) : bool :=
  match captured_sysreg snap CTR_EL0 with Agreed v => negb (Z.land v CTR_DIC =? 0) | _ => false end.

Inductive IdcVerdict := LeaveAlone | AlsoElidedUnsoundly | Unreadable (c : Captured).

Definition idc_elision_is_sound_here (snap : Snapshot) (host_ctr : Z) : IdcVerdict :=
  match captured_sysreg snap CTR_EL0 with
  | Agreed val =>
      if Z.land val CTR_IDC =? 0 then LeaveAlone
      else if negb (Z.land host_ctr CTR_IDC =? 0) then LeaveAlone else AlsoElidedUnsoundly
  | c => Unreadable c
  end.

(** ** Guest memory *)

(** The trait [PhysMem]. [pm_write] is [None] when the span is refused. *)
Class PhysMem (M : Type) := {
  pm_regions : M -> list (Z * Z * Z);
  pm_bytes : M -> Z -> nat -> option (list Z);
  pm_write : M -> Z -> list Z -> option M;
}.

Section Mem.
Context {M : Type} `{PhysMem M}.

Definition u64_at (m : M) (pa : Z) : option Z := b ← pm_bytes m pa 8; Some (le_val b).

(** The byte at a guest physical address. *)
Definition pm_byte (m : M) (a : Z) : option Z := b ← pm_bytes m a 1; head b.
End Mem.

(** ** The page-table walk *)

Definition OUT_ADDR_MASK : Z := Z.ldiff (Z.shiftl 1 48 - 1) 0xfff.
Definition PXN_BIT : Z := Z.shiftl 1 53.
Definition MAX_TABLES : Z := 65536.
Definition MAX_TEXT_BYTES : Z := Z.shiftl 512 20.

Inductive Refusal :=
| UnreadableCacheIdentity (c : Captured)
| UnreadableTranslationControl (c : Captured)
| UnreadableTtbr1 (c : Captured)
| ReservedGranule (tg1 : Z)
| UnsupportedGranule (g : Z)
| WalkTooLarge
| NoKernelText
| ElisionNotLocated
| IdcAlsoUnsound
| SiteMoved (va : Z)
| SiteDidNotTranslate (va : Z).

Record Layout := mkLayout { va_bits : Z; granule : Z; start_level : Z }.

(** [u32] subtraction and [div_ceil]. *)
Definition sub32 (a b : Z) : Z := u32 (a - b).
Definition div_ceil (a b : Z) : Z := a / b + (if a mod b =? 0 then 0 else 1).

Definition decode_tcr (tcr : Z) : res Refusal Layout :=
  let t1sz := Z.land (Z.shiftr tcr 16) 0x3f in
  let tg1 := Z.land (Z.shiftr tcr 30) 0x3 in
  granule ← (if tg1 =? 1 then Ok 16384 else if tg1 =? 2 then Ok 4096 else if tg1 =? 3 then Ok 65536
             else Err (ReservedGranule tg1));
  if negb (granule =? 4096) then Err (UnsupportedGranule granule)
  else
    let va_bits := 64 - t1sz in
    let levels := div_ceil (sub32 va_bits 12) 9 in
    Ok (mkLayout va_bits granule (sub32 4 levels)).

Definition ttbr_base (ttbr : Z) : Z := Z.ldiff (Z.land ttbr 0x0000fffffffffffe) 0xfff.

(** [x << s] and [x >> s] on [u64] take the shift modulo 64. *)
Definition shl64 (x s : Z) : Z := u64 (Z.shiftl x (s mod 64)).
Definition shr64 (x s : Z) : Z := Z.shiftr x (s mod 64).

(** [12 + 9 * (3 - lvl)] on [u32]. *)
Definition level_shift (lvl : Z) : Z := u32 (12 + 9 * sub32 3 lvl).

Section Walk.
Context {M : Type} `{PhysMem M}.

(** The levels from [lvl] to 3, [n] of them. *)
Fixpoint translate_from (n : nat) (m : M) (table va lvl : Z) : option Z :=
  match n with
  | O => None
  | S n =>
      let shift := level_shift lvl in
      desc ← u64_at m (u64 (table + Z.land (shr64 va shift) 0x1ff * 8));
      if Z.land desc 3 =? 0 then None
      else if Z.land desc 3 =? 1 then
        if lvl =? 3 then None
        else
          let size := shl64 1 shift in
          Some (Z.lor (Z.ldiff (Z.land desc OUT_ADDR_MASK) (size - 1)) (Z.land va (size - 1)))
      else if lvl =? 3 then Some (Z.lor (Z.land desc OUT_ADDR_MASK) (Z.land va 0xfff))
      else translate_from n m (Z.land desc OUT_ADDR_MASK) va (lvl + 1)
  end.

(** [for lvl in start_level..4]. *)
Definition translate (m : M) (root va start_level : Z) : option Z :=
  translate_from (Z.to_nat (4 - start_level)) m root va start_level.

Record Run := mkRun { run_va : Z; run_pa : Z; run_len : Z }.

(** The accumulators of the walk. *)
Record Walk := mkWalk { w_runs : list Run; w_budget : Z; w_text : Z }.

(** [runs.last_mut()] and the push. *)
Definition add_run (full pa size : Z) (runs : list Run) : list Run :=
  match list.last runs with
  | Some l =>
      if (u64 (run_va l + run_len l) =? full) && (u64 (run_pa l + run_len l) =? pa) then
        take (length runs - 1) runs ++ [mkRun (run_va l) (run_pa l) (u64 (run_len l + size))]
      else runs ++ [mkRun full pa size]
  | None => runs ++ [mkRun full pa size]
  end.

(** A leaf of the walk: a block or a page. *)
Definition leaf (va_bits lvl desc va : Z) (w : Walk) : res Refusal Walk :=
  if (Z.land desc 3 =? 1) && (lvl =? 3) then Ok w
  else if negb (Z.land desc PXN_BIT =? 0) then Ok w
  else
    let size := shl64 1 (level_shift lvl) in
    let pa := Z.ldiff (Z.land desc OUT_ADDR_MASK) (size - 1) in
    let full :=
      if negb (Z.land va (shl64 1 (sub32 va_bits 1)) =? 0) then
        Z.lor va (Z.ldiff (2 ^ 64 - 1) (u64 (shl64 1 va_bits - 1)))
      else va in
    let text := u64 (w_text w + size) in
    if MAX_TEXT_BYTES <? text then Err WalkTooLarge
    else Ok (mkWalk (add_run full pa size (w_runs w)) (w_budget w) text).

(** The loop over the table's entries from [idx] on, [n] of them. [down] is the
    descent into a table of the next level. *)
Fixpoint entries (down : Z -> Z -> Z -> Walk -> res Refusal Walk) (n : nat) (m : M) (va_bits table lvl base idx : Z)
    (w : Walk) : res Refusal Walk :=
  match n with
  | O => Ok w
  | S n =>
      w ← (match u64_at m (u64 (table + idx * 8)) with
           | None => Ok w
           | Some desc =>
               if Z.land desc 3 =? 0 then Ok w
               else
                 let va := Z.lor base (shl64 idx (level_shift lvl)) in
                 if negb ((Z.land desc 3 =? 1) || (lvl =? 3)) then
                   down (Z.land desc OUT_ADDR_MASK) (u32 (lvl + 1)) va w
                 else leaf va_bits lvl desc va w
           end);
      entries down n m va_bits table lvl base (idx + 1) w
  end.

(** [Walk::descend]; [fuel] is the depth of the recursion. *)
Fixpoint descend (fuel : nat) (m : M) (va_bits table lvl base : Z) (w : Walk) : res Refusal Walk :=
  match fuel with
  | O => NoFuel
  | S fuel =>
      if w_budget w =? 0 then Err WalkTooLarge
      else
        entries (fun table lvl base w => descend fuel m va_bits table lvl base w) 512 m va_bits table lvl base 0
          (mkWalk (w_runs w) (w_budget w - 1) (w_text w))
  end.

Definition executable_runs (fuel : nat) (m : M) (root va_bits start_level : Z) : res Refusal (list Run) :=
  w ← descend fuel m va_bits root start_level 0 (mkWalk [] MAX_TABLES 0);
  Ok (w_runs w).
End Walk.

(** ** The elision signatures *)

Definition LOOKBACK_WORDS : Z := 64.
Definition NOP : Z := 0xd503201f.
Definition ISB : Z := 0xd5033fdf.
Definition RET : Z := 0xd65f03c0.
Definition BTI_C : Z := 0xd503245f.
Definition IC_IVAU : Z := 0xd50b7520.
Definition RT_MASK : Z := 0xffffffe0.
Definition B_OPC_MASK : Z := 0xfc000000.
Definition B_OPC : Z := 0x14000000.

(** [x as i64] of a [u64], and the wrap of [i64] arithmetic. *)
Definition i64 (x : Z) : Z := let y := u64 x in if y <? 2 ^ 63 then y else y - 2 ^ 64.

Definition branch_imm (word : Z) : Z :=
  let imm := Z.land word 0x03ffffff in
  if negb (Z.land imm 0x02000000 =? 0) then imm - 0x04000000 else imm.

Definition decode_b (word addr : Z) : option Z :=
  if negb (Z.land word B_OPC_MASK =? B_OPC) then None
  else Some (u64 (i64 addr + branch_imm word * 4)).

Inductive Shape := Branch | EarlyReturn.

Record Elision := mkElision { el_repair : Z; el_op : Z; el_shape : Shape }.

Definition word (words : list Z) (i : Z) : res unit Z :=
  match vget words i with Some w => Ok w | None => Panic end.

(** [for j in (lo..lo + n).rev()] up to the first hit. *)
Fixpoint rsearch (f : Z -> res unit bool) (lo : Z) (n : nat) : res unit (option Z) :=
  match n with
  | O => Ok None
  | S n =>
      hit ← f (lo + Z.of_nat n);
      if hit : bool then Ok (Some (lo + Z.of_nat n)) else rsearch f lo n
  end.

Definition guard_branch (words : list Z) (base_va op j : Z) : res unit bool :=
  w ← word words j;
  if negb (w =? ISB) then Ok false
  else
    w1 ← word words (j + 1);
    match decode_b w1 (u64 (base_va + (j + 1) * 4)) with
    | None => Ok false
    | Some target =>
        let t := Z.quot (i64 (i64 target - i64 base_va)) 4 in
        Ok ((j + 1 <? op) && (op <? t))
    end.

Definition guard_return (words : list Z) (j : Z) : res unit bool :=
  w ← word words j;
  if negb (w =? BTI_C) then Ok false
  else
    w1 ← word words (j + 1);
    if negb (w1 =? ISB) then Ok false else w2 ← word words (j + 2); Ok (w2 =? RET).

(** [words[lo..hi]]. *)
Definition slice (words : list Z) (lo hi : Z) : res unit (list Z) :=
  if (hi <? lo) || (Z.of_nat (length words) <? hi) then Panic
  else Ok (take (Z.to_nat (hi - lo)) (drop (Z.to_nat lo) words)).

(** The second signature: the body of a routine is the guard word and a return. *)
Definition find_return (words : list Z) (op lo : Z) : res unit (option Elision) :=
  if negb (2 <=? op) then Ok None
  else
    s2 ← rsearch (guard_return words) lo (Z.to_nat (op - 1 - lo));
    match s2 with
    | None => Ok None
    | Some j =>
        between ← slice words (j + 3) op;
        if existsb (Z.eqb BTI_C) between then Ok None
        else Ok (Some (mkElision (j + 1) op EarlyReturn))
    end.

(** The guard of one operation: the first signature, then the second. *)
Definition find_guard (words : list Z) (base_va op : Z) : res unit (option Elision) :=
  let lo := sat_sub op LOOKBACK_WORDS in
  s1 ← rsearch (guard_branch words base_va op) lo (Z.to_nat (op - lo));
  match s1 with
  | Some j => Ok (Some (mkElision j op Branch))
  | None => find_return words op lo
  end.

Definition is_ic_ivau (w : Z) : bool := Z.land w RT_MASK =? IC_IVAU.

Definition ic_ivau_ops (words : list Z) : list Z :=
  omap (fun '(i, w) => if is_ic_ivau w then Some i else None)
    (imap (fun i w => (Z.of_nat i, w)) words).

Fixpoint sort_ops (words : list Z) (base_va : Z) (ops : list Z) : res unit (list Elision * list Z) :=
  match ops with
  | [] => Ok ([], [])
  | op :: ops =>
      hit ← find_guard words base_va op;
      '(elisions, unexplained) ← sort_ops words base_va ops;
      Ok (match hit with
          | Some e => (e :: elisions, unexplained)
          | None => (elisions, op :: unexplained)
          end)
  end.

Definition find_elisions (words : list Z) (base_va : Z) : res unit (list Elision * list Z) :=
  sort_ops words base_va (ic_ivau_ops words).

(** ** The repair *)

Inductive Repair :=
| NotElided
| Reverted (sites unconditional : Z)
| Declined (r : Refusal).

Record TornRepair := mkTorn { tr_written : Z; tr_failed_at : Z }.

Record Site := mkSite { s_va : Z; s_pa : Z; s_shape : Shape }.

(** [chunks_exact(4)] as little-endian words. *)
Fixpoint words_of (n : nat) (bs : list Z) : list Z :=
  match n with
  | O => []
  | S n => le_val (take 4 bs) :: words_of n (drop 4 bs)
  end.

Definition host_va_for (regions : list (Z * Z * Z)) (pa : Z) : option Z :=
  match find (fun '(gpa, host, size) => (gpa <=? pa) && (pa <? u64 (gpa + size))) regions with
  | Some (gpa, host, _) => Some (u64 (host + (pa - gpa)))
  | None => None
  end.

Section Repair.
Context {M : Type} `{PhysMem M}.

(** One region's part of a run. *)
Definition region_chunk (m : M) (run : Run) (region : Z * Z * Z) : option (Z * Z * list Z) :=
  let '(gpa, _, size) := region in
  let lo := Z.max (run_pa run) gpa in
  let hi := Z.min (u64 (run_pa run + run_len run)) (u64 (gpa + size)) in
  if hi <=? lo then None
  else
    let len := Z.ldiff (hi - lo) 3 in
    if len <? 4 then None
    else
      match pm_bytes m lo (Z.to_nat len) with
      | Some b => Some (lo, u64 (run_va run + (lo - run_pa run)), words_of (Z.to_nat (len / 4)) b)
      | None => None
      end.

Definition readable_chunks (m : M) (run : Run) : list (Z * Z * list Z) :=
  omap (region_chunk m run) (pm_regions m).

Definition site_of (chunk_pa chunk_va : Z) (e : Elision) : Site :=
  mkSite (u64 (chunk_va + el_repair e * 4)) (u64 (chunk_pa + el_repair e * 4)) (el_shape e).

Definition chunk_sites (chunk : Z * Z * list Z) : res unit (list Site * Z) :=
  found ← find_elisions chunk.2 chunk.1.2;
  Ok (map (site_of chunk.1.1 chunk.1.2) found.1, Z.of_nat (length found.2)).

Fixpoint locate (chunks : list (Z * Z * list Z)) : res unit (list Site * Z) :=
  match chunks with
  | [] => Ok ([], 0)
  | chunk :: chunks =>
      found ← chunk_sites chunk;
      rest ← locate chunks;
      Ok (found.1 ++ rest.1, found.2 + rest.2)
  end.

(** The words a site must hold. *)
Definition site_words (site : Site) (b : list Z) : bool :=
  let first := le_val (take 4 b) in
  let second := le_val (take 4 (drop 4 b)) in
  match s_shape site with
  | Branch => (first =? ISB) && bool_decide (is_Some (decode_b second (u64 (s_va site + 4))))
  | EarlyReturn => (first =? ISB) && (second =? RET)
  end.

Fixpoint verify (m : M) (root start_level : Z) (sites : list Site) : option Refusal :=
  match sites with
  | [] => None
  | site :: sites =>
      if negb (bool_decide (translate m root (s_va site) start_level = Some (s_pa site))) then
        Some (SiteDidNotTranslate (s_va site))
      else if negb (match pm_bytes m (s_pa site) 8 with Some b => site_words site b | None => false end) then
        Some (SiteMoved (s_va site))
      else verify m root start_level sites
  end.

Definition NOP_PAIR : list Z := le_bytes 4 NOP ++ le_bytes 4 NOP.

(** The write loop: the sites written, and where it failed. *)
Fixpoint write_sites (m : M) (sites : list Site) (done : Z) : Z * option TornRepair * M :=
  match sites with
  | [] => (done, None, m)
  | site :: sites =>
      match pm_write m (s_pa site) NOP_PAIR with
      | None => (done, Some (mkTorn done (s_pa site)), m)
      | Some m => write_sites m sites (done + 1)
      end
  end.

(** [revert_dic_elision]. The cache maintenance after the writes does not touch
    memory. [fuel] is for the walk. *)
Definition revert_dic_elision (fuel : nat) (m : M) (snap : Snapshot) (host_ctr : Z) :
    res TornRepair Repair * M :=
  match captured_sysreg snap CTR_EL0 with
  | Agreed ctr =>
      if Z.land ctr CTR_DIC =? 0 then (Ok NotElided, m)
      else
        match idc_elision_is_sound_here snap host_ctr with
        | AlsoElidedUnsoundly => (Ok (Declined IdcAlsoUnsound), m)
        | Unreadable c => (Ok (Declined (UnreadableCacheIdentity c)), m)
        | LeaveAlone =>
            match captured_sysreg snap SYSREG_TCR_EL1, captured_sysreg snap SYSREG_TTBR1_EL1 with
            | Agreed tcr, Agreed ttbr1 =>
                match decode_tcr tcr with
                | Ok layout =>
                    let root := ttbr_base ttbr1 in
                    match executable_runs fuel m root (va_bits layout) (start_level layout) with
                    | Ok [] => (Ok (Declined NoKernelText), m)
                    | Ok runs =>
                        match locate (mjoin (readable_chunks m <$> runs)) with
                        | Ok ([], _) => (Ok (Declined ElisionNotLocated), m)
                        | Ok (sites, unconditional) =>
                            match verify m root (start_level layout) sites with
                            | Some r => (Ok (Declined r), m)
                            | None =>
                                let '(done, torn, m) := write_sites m sites 0 in
                                (match torn with Some t => Err t | None => Ok (Reverted done unconditional) end, m)
                            end
                        | _ => (Panic, m)
                        end
                    | Err r => (Ok (Declined r), m)
                    | Panic => (Panic, m)
                    | NoFuel => (NoFuel, m)
                    end
                | Err r => (Ok (Declined r), m)
                | Panic | NoFuel => (Panic, m)
                end
            | Agreed _, c => (Ok (Declined (UnreadableTtbr1 c)), m)
            | c, _ => (Ok (Declined (UnreadableTranslationControl c)), m)
            end
        end
  | c => (Ok (Declined (UnreadableCacheIdentity c)), m)
  end.
End Repair.

(** ** Captured registers *)

(** Every value the capture has for a register. *)
Definition recorded (snap : Snapshot) (want : Z) : list Z :=
  mjoin (map (omap (fun '(reg, val) => if reg =? want then Some val else None)) snap).

Definition one_value (seen : option Z) (l : list Z) : Prop := forall a b, a ∈ option_list seen ++ l -> b ∈ option_list seen ++ l -> a = b.

Lemma scan_regs_spec want regs : forall seen,
  let l := omap (fun '(reg, val) => if reg =? want then Some val else None) regs in
  match scan_regs want regs seen with
  | None => ~ one_value seen l
  | Some s => one_value seen l /\ s = head (option_list seen ++ l)
  end.
Proof.
  induction regs as [|[reg val] regs IH]; intros seen; cbn [scan_regs omap list_omap].
  { rewrite app_nil_r. split; [|by destruct seen]. intros a b Ha Hb.
    rewrite app_nil_r in Ha, Hb. destruct seen; cbn in Ha, Hb; [|by apply not_elem_of_nil in Ha].
    apply list_elem_of_singleton in Ha, Hb. congruence. }
  destruct (Z.eqb_spec reg want); cbn [negb]; [|apply IH].
  destruct seen as [prev|].
  - destruct (Z.eqb_spec prev val) as [->|Hne]; cbn [negb].
    + specialize (IH (Some val)). cbn in *. destruct (scan_regs want regs (Some val)) as [s|].
      * destruct IH as [Ho ->]. split; [|done]. intros a b Ha Hb. apply Ho; set_solver.
      * intros Ho. apply IH. intros a b Ha Hb. apply Ho; set_solver.
    + intros Ho. apply Hne, Ho; set_solver.
  - specialize (IH (Some val)). cbn in *. done.
Qed.

Lemma one_value_app seen l l' : one_value seen (l ++ l') -> one_value seen l.
Proof. intros Ho a b Ha Hb. apply Ho; set_solver. Qed.

Lemma scan_vcpus_spec want snap : forall seen,
  let l := recorded snap want in
  match scan_vcpus want snap seen with
  | None => ~ one_value seen l
  | Some s => one_value seen l /\ s = head (option_list seen ++ l)
  end.
Proof.
  induction snap as [|regs snap IH]; intros seen; cbn [scan_vcpus].
  { apply (scan_regs_spec want []). }
  pose proof (scan_regs_spec want regs seen) as Hs. cbv zeta in Hs. unfold recorded. cbn [map mjoin list_join].
  set (l := omap _ regs) in *. fold (recorded snap want).
  destruct (scan_regs want regs seen) as [s|]; cbn [mbind option_bind].
  2:{ intros Ho. by eapply Hs, one_value_app. }
  destruct Hs as [Ho ->]. specialize (IH (head (option_list seen ++ l))). cbv zeta in IH.
  assert (forall a, a ∈ option_list (head (option_list seen ++ l)) <-> a ∈ option_list seen ++ l) as Hh.
  { intros a. destruct (option_list seen ++ l) as [|x r] eqn:E; [done|]. cbn. split; [set_solver|].
    intros Ha. apply list_elem_of_singleton. apply Ho; rewrite E; [done|by left]. }
  assert (one_value (head (option_list seen ++ l)) (recorded snap want) <-> one_value seen (l ++ recorded snap want)) as Heq.
  { unfold one_value. split; intros Hv a b Ha Hb; apply Hv; revert Ha Hb; rewrite !elem_of_app; rewrite ?Hh, ?elem_of_app; tauto. }
  destruct (scan_vcpus want snap _) as [s|]; [|by rewrite <- Heq].
  destruct IH as [Hv ->]. split; [by apply Heq|].
  rewrite app_assoc. by destruct (option_list seen ++ l).
Qed.

(** A register is agreed only when some vCPU recorded it and all that did have
    the same value. *)
Lemma captured_sysreg_spec snap want :
  match captured_sysreg snap want with
  | Absent => recorded snap want = []
  | Agreed v => v ∈ recorded snap want /\ Forall (fun u => u = v) (recorded snap want)
  | Disagreed => exists a b, a ∈ recorded snap want /\ b ∈ recorded snap want /\ a <> b
  end.
Proof.
  pose proof (scan_vcpus_spec want snap None) as Hs. cbn in Hs. unfold captured_sysreg.
  destruct (scan_vcpus want snap None) as [[v|]|].
  - destruct Hs as [Ho Hh]. destruct (recorded snap want) as [|x l]; [done|]. injection Hh as ->.
    split; [by left|]. apply Forall_elem. intros u Hu. apply Ho; cbn; [done|by left].
  - destruct Hs as [_ Hh]. by destruct (recorded snap want).
  - destruct (recorded snap want) as [|x l] eqn:E; [destruct Hs; intros a b Ha; by apply not_elem_of_nil in Ha|].
    destruct (decide (Forall (fun u => u = x) l)) as [Hf|Hf].
    + destruct Hs. intros a b Ha Hb. cbn in Ha, Hb. rewrite Forall_elem in Hf.
      apply elem_of_cons in Ha as [->|Ha], Hb as [->|Hb]; rewrite ?(Hf a), ?(Hf b) by done; done.
    + apply not_Forall_Exists, list.Exists_exists in Hf as (u & Hu & Hne); [|apply _].
      exists u, x. split_and!; [by right|by left|done].
Qed.

(** ** The locator *)

Lemma rsearch_spec f lo n :
  (forall j, lo <= j < lo + Z.of_nat n -> exists b, f j = Ok b) ->
  exists r, rsearch f lo n = Ok r /\
  match r with
  | Some j => lo <= j < lo + Z.of_nat n /\ f j = Ok true /\
      forall i, j < i < lo + Z.of_nat n -> f i = Ok false
  | None => forall i, lo <= i < lo + Z.of_nat n -> f i = Ok false
  end.
Proof.
  induction n as [|n IH]; intros Hf; cbn [rsearch]; [exists None; split; [done|lia]|].
  destruct (Hf (lo + Z.of_nat n) ltac:(lia)) as ([|] & E); rewrite E; cbn [mbind res_bind_inst].
  { exists (Some (lo + Z.of_nat n)). split; [done|]. by split_and!; try lia. }
  destruct IH as (r & -> & Hr); [intros j Hj; apply Hf; lia|]. exists r. split; [done|].
  destruct r as [j|].
  - destruct Hr as (Hj & Ht & Hn). split_and!; try lia; [done|]. intros i Hi.
    destruct (decide (i = lo + Z.of_nat n)) as [->|]; [done|]. apply Hn. lia.
  - intros i Hi. destruct (decide (i = lo + Z.of_nat n)) as [->|]; [done|]. apply Hr. lia.
Qed.

Lemma branch_imm_range w : - 2 ^ 25 <= branch_imm w < 2 ^ 25.
Proof.
  unfold branch_imm. change 0x03ffffff with (Z.ones 26). rewrite Z.land_ones by lia.
  set (m := w mod 2 ^ 26). assert (0 <= m < 2 ^ 26) by (apply Z.mod_pos_bound; lia).
  change 0x02000000 with (Z.shiftl 1 25). change 0x04000000 with (2 ^ 26).
  fold (has_bit m 25). rewrite has_bit_testbit by lia.
  assert (Z.testbit m 25 = (2 ^ 25 <=? m)) as ->; [|destruct (Z.leb_spec (2 ^ 25) m); lia].
  rewrite Z.testbit_eqb by lia. destruct (Z.leb_spec (2 ^ 25) m).
  - assert (m / 2 ^ 25 = 1) as -> by (symmetry; apply (Z.div_unique m (2 ^ 25) 1 (m - 2 ^ 25)); lia). done.
  - by rewrite Z.div_small by lia.
Qed.

Lemma i64_small x : - 2 ^ 63 <= x < 2 ^ 63 -> i64 x = x.
Proof.
  intros Hx. unfold i64, u64. destruct (Z.ltb_spec x 0).
  - assert (x mod 2 ^ 64 = x + 2 ^ 64) as ->.
    { symmetry. apply (Z.mod_unique x (2 ^ 64) (-1)); lia. }
    rewrite (proj2 (Z.ltb_ge _ _)) by lia. lia.
  - rewrite Z.mod_small, (proj2 (Z.ltb_lt _ _)) by lia. done.
Qed.

Lemma i64_mod x : exists q, i64 x = x + q * 2 ^ 64.
Proof.
  unfold i64, u64. pose proof (Z.div_mod x (2 ^ 64) ltac:(lia)). case_match.
  - exists (- (x / 2 ^ 64)). lia.
  - exists (- (x / 2 ^ 64) - 1). lia.
Qed.

Lemma u64_mod x : exists q, u64 x = x + q * 2 ^ 64.
Proof.
  unfold u64. pose proof (Z.div_mod x (2 ^ 64) ltac:(lia)). exists (- (x / 2 ^ 64)). lia.
Qed.

Lemma i64_shift x q : i64 (x + q * 2 ^ 64) = i64 x.
Proof. unfold i64, u64. by rewrite Z.mod_add by lia. Qed.

(** Where the text is mapped cancels out: the branch lands its displacement
    after itself. *)
Lemma branch_lands base_va i w :
  0 <= i < 2 ^ 60 ->
  Z.quot (i64 (i64 (u64 (i64 (u64 (base_va + i * 4)) + branch_imm w * 4)) - i64 base_va)) 4 = i + branch_imm w.
Proof.
  intros Hi. pose proof (branch_imm_range w).
  destruct (u64_mod (base_va + i * 4)) as (q1 & ->). destruct (i64_mod (base_va + i * 4 + q1 * 2 ^ 64)) as (q2 & ->).
  destruct (u64_mod (base_va + i * 4 + q1 * 2 ^ 64 + q2 * 2 ^ 64 + branch_imm w * 4)) as (q3 & ->).
  destruct (i64_mod (base_va + i * 4 + q1 * 2 ^ 64 + q2 * 2 ^ 64 + branch_imm w * 4 + q3 * 2 ^ 64)) as (q4 & ->).
  destruct (i64_mod base_va) as (q5 & ->).
  replace (_ - _) with ((i + branch_imm w) * 4 + (q1 + q2 + q3 + q4 - q5) * 2 ^ 64) by lia.
  rewrite i64_shift, i64_small by lia. by rewrite Z.quot_mul by lia.
Qed.

Definition is_b (w : Z) : bool := Z.land w B_OPC_MASK =? B_OPC.

(** The guard word at [j] and a branch over [op]. *)
Definition branch_over (words : list Z) (op j : Z) : Prop :=
  vget words j = Some ISB /\
  exists w, vget words (j + 1) = Some w /\ is_b w = true /\ j + 1 < op < j + 1 + branch_imm w.

(** [bti c; isb; ret] at [j], and no other routine starts before [op]. *)
Definition early_return (words : list Z) (op j : Z) : Prop :=
  vget words j = Some BTI_C /\ vget words (j + 1) = Some ISB /\ vget words (j + 2) = Some RET /\
  forall i, j + 3 <= i < op -> vget words i <> Some BTI_C.

Definition in_window (op j : Z) : Prop := Z.max 0 (op - LOOKBACK_WORDS) <= j < op.

(** Some guard within the window explains the operation. *)
Definition guarded (words : list Z) (op : Z) : Prop :=
  exists j, in_window op j /\ (branch_over words op j \/ early_return words op j).

Definition ic_ivau_at (words : list Z) (op : Z) : Prop :=
  exists w, vget words op = Some w /\ is_ic_ivau w = true.

Lemma word_ok words i : 0 <= i < Z.of_nat (length words) -> exists w, word words i = Ok w /\ vget words i = Some w.
Proof. intros Hi. unfold word. destruct (vget_lt words i Hi) as (w & ->). by exists w. Qed.

Lemma guard_branch_spec words base_va op j :
  Z.of_nat (length words) <= 2 ^ 60 -> 0 <= j -> j + 1 < Z.of_nat (length words) ->
  exists b, guard_branch words base_va op j = Ok b /\ (b = true <-> branch_over words op j).
Proof.
  intros Hl Hj Hj1. unfold guard_branch. destruct (word_ok words j) as (w & -> & Ew); [lia|]. cbn [mbind res_bind_inst].
  destruct (Z.eqb_spec w ISB) as [->|Hne]; cbn [negb].
  2:{ exists false. split; [done|]. split; [done|]. intros [E _]. congruence. }
  destruct (word_ok words (j + 1)) as (w1 & -> & Ew1); [lia|]. cbn [mbind res_bind_inst]. unfold decode_b.
  fold (is_b w1). destruct (is_b w1) eqn:Eb; cbn [negb].
  2:{ exists false. split; [done|]. split; [done|]. intros (_ & w & E & Hb & _). congruence. }
  rewrite branch_lands by lia. eexists. split; [done|]. rewrite andb_true_iff, !Z.ltb_lt. split.
  - intros [? ?]. split; [done|]. exists w1. split_and!; done.
  - intros (_ & w & E & _ & ? & ?). rewrite Ew1 in E. injection E as <-. lia.
Qed.

Lemma guard_return_spec words j :
  0 <= j -> j + 2 < Z.of_nat (length words) ->
  exists b, guard_return words j = Ok b /\
    (b = true <-> vget words j = Some BTI_C /\ vget words (j + 1) = Some ISB /\ vget words (j + 2) = Some RET).
Proof.
  intros Hj Hj2. unfold guard_return. destruct (word_ok words j) as (w & -> & Ew); [lia|]. cbn [mbind res_bind_inst].
  destruct (Z.eqb_spec w BTI_C) as [->|Hne]; cbn [negb].
  2:{ exists false. split; [done|]. split; [done|]. intros [E _]. congruence. }
  destruct (word_ok words (j + 1)) as (w1 & -> & Ew1); [lia|]. cbn [mbind res_bind_inst].
  destruct (Z.eqb_spec w1 ISB) as [->|Hne]; cbn [negb].
  2:{ exists false. split; [done|]. split; [done|]. intros (_ & E & _). congruence. }
  destruct (word_ok words (j + 2)) as (w2 & -> & Ew2); [lia|]. cbn [mbind res_bind_inst]. eexists. split; [done|].
  rewrite Z.eqb_eq. split; [by intros ->|]. intros (_ & _ & E). congruence.
Qed.

Lemma slice_BTI words lo hi :
  0 <= lo <= hi -> hi <= Z.of_nat (length words) ->
  exists l, slice words lo hi = Ok l /\
    (existsb (Z.eqb BTI_C) l = true <-> exists i, lo <= i < hi /\ vget words i = Some BTI_C).
Proof.
  intros Hlo Hhi. unfold slice. rewrite (proj2 (Z.ltb_ge _ _)), (proj2 (Z.ltb_ge _ _)) by lia. cbn [orb].
  eexists. split; [done|]. rewrite existsb_elem. split.
  - intros (x & Hx & Ex). apply Z.eqb_eq in Ex. subst x. apply list_elem_of_lookup in Hx as (k & Hk).
    apply lookup_take_Some in Hk as [Hk Hlt]. rewrite lookup_drop in Hk.
    exists (lo + Z.of_nat k). split; [lia|]. apply vget_of_lookup'. split; [lia|].
    by replace (Z.to_nat (lo + Z.of_nat k)) with (Z.to_nat lo + k)%nat by lia.
  - intros (i & Hi & Ei). exists BTI_C. split; [|apply Z.eqb_refl]. apply vget_Some in Ei as [Hr Ei].
    apply list_elem_of_lookup. exists (Z.to_nat (i - lo)). rewrite lookup_take, decide_True, lookup_drop by lia.
    by replace (Z.to_nat lo + Z.to_nat (i - lo))%nat with (Z.to_nat i) by lia.
Qed.

(** What the search finds for one operation. *)
Definition explains (words : list Z) (op : Z) (r : option Elision) : Prop :=
  match r with
  | Some e =>
      el_op e = op /\
      match el_shape e with
      | Branch => in_window op (el_repair e) /\ branch_over words op (el_repair e)
      | EarlyReturn => in_window op (el_repair e - 1) /\ early_return words op (el_repair e - 1)
      end
  | None => ~ guarded words op
  end.

Lemma return_before words op j :
  ic_ivau_at words op -> early_return words op j -> j < op -> j + 2 < op.
Proof.
  intros (w & Ew & Hw) (E0 & E1 & E2 & _) Hlt.
  assert (op <> j + 1) by (intros ->; rewrite E1 in Ew; injection Ew as <-; done).
  assert (op <> j + 2) by (intros ->; rewrite E2 in Ew; injection Ew as <-; done). lia.
Qed.

(** A return within the window is one the search sees. *)
Lemma return_seen words op lo j :
  lo = Z.max 0 (op - LOOKBACK_WORDS) -> ic_ivau_at words op -> in_window op j -> early_return words op j ->
  guard_return words j = Ok true /\ lo <= j < lo + Z.of_nat (Z.to_nat (op - 1 - lo)).
Proof.
  intros -> Hop Hj Her. pose proof Hop as (w & [Hr _]%vget_Some & _).
  pose proof (return_before words op j Hop Her ltac:(apply Hj)). unfold in_window in Hj.
  destruct (guard_return_spec words j) as (b & E & Hb); [lia..|].
  destruct Her as (E0 & E1 & E2 & _). rewrite E, (proj2 Hb) by done. split; [done|lia].
Qed.

Lemma find_return_spec words op :
  ic_ivau_at words op ->
  exists r, find_return words op (Z.max 0 (op - LOOKBACK_WORDS)) = Ok r /\
  match r with
  | Some e => el_op e = op /\ el_shape e = EarlyReturn /\ in_window op (el_repair e - 1) /\
      early_return words op (el_repair e - 1)
  | None => forall j, in_window op j -> ~ early_return words op j
  end.
Proof.
  intros Hop. pose proof Hop as (wop & Ewop & _). pose proof Ewop as [Hrange _]%vget_Some.
  unfold find_return. set (lo := Z.max 0 (op - LOOKBACK_WORDS)).
  assert (0 <= lo <= op) as Hlo by (subst lo; unfold LOOKBACK_WORDS; lia).
  destruct (Z.leb_spec 2 op) as [Hop2|Hop2]; cbn [negb].
  2:{ eexists. split; [done|]. intros j Hj Her. pose proof (return_before words op j Hop Her). unfold in_window in Hj. lia. }
  destruct (rsearch_spec (guard_return words) lo (Z.to_nat (op - 1 - lo))) as (s2 & -> & H2).
  { intros j Hj. destruct (guard_return_spec words j) as (b & E & _); [lia..|]. by exists b. }
  cbn [mbind res_bind_inst]. destruct s2 as [j|].
  2:{ eexists. split; [done|]. intros j Hj Her. destruct (return_seen words op lo j eq_refl Hop Hj Her) as [Et Hr].
      by rewrite (H2 j Hr) in Et. }
  destruct H2 as (Hj & Ht & Hnone).
  destruct (guard_return_spec words j) as (b & E & Hb); [lia..|]. rewrite Ht in E. injection E as <-.
  destruct (proj1 Hb eq_refl) as (E0 & E1 & E2).
  assert (j + 2 <> op) by (intros <-; destruct Hop as (w & E & Hw); rewrite E2 in E; injection E as <-; done).
  destruct (slice_BTI words (j + 3) op) as (l & -> & Hbti); [lia..|]. cbn [mbind res_bind_inst].
  destruct (existsb _ l) eqn:Ex; (eexists; split; [done|]).
  - intros i Hi Her. destruct (return_seen words op lo i eq_refl Hop Hi Her) as [Et Hr].
    destruct (proj1 Hbti eq_refl) as (q & Hq & Eq). destruct Her as (_ & F1 & F2 & Hno).
    destruct (Z.lt_trichotomy i j) as [Hlt|[->|Hgt]]; [|by apply (Hno q)|by rewrite (Hnone i) in Et by lia].
    apply (Hno j); [|done]. assert (j <> i + 1) by (intros ->; rewrite E0 in F1; done).
    assert (j <> i + 2) by (intros ->; rewrite E0 in F2; done). lia.
  - cbn [el_op el_shape el_repair]. replace (j + 1 - 1) with j by lia. split_and!; try done; [split; lia|].
    split_and!; try done. intros i Hi Ei. assert (false = true) by (apply Hbti; by exists i). done.
Qed.

Lemma find_guard_spec words base_va op :
  Z.of_nat (length words) <= 2 ^ 60 -> ic_ivau_at words op ->
  exists r, find_guard words base_va op = Ok r /\ explains words op r.
Proof.
  intros Hl Hop. pose proof Hop as (wop & [Hrange _]%vget_Some & _).
  unfold find_guard, sat_sub. set (lo := Z.max 0 (op - LOOKBACK_WORDS)).
  assert (0 <= lo <= op) as Hlo by (subst lo; unfold LOOKBACK_WORDS; lia).
  destruct (rsearch_spec (guard_branch words base_va op) lo (Z.to_nat (op - lo))) as (s1 & -> & H1).
  { intros j Hj. destruct (guard_branch_spec words base_va op j) as (b & E & _); [lia..|]. by exists b. }
  cbn [mbind res_bind_inst]. replace (lo + Z.of_nat (Z.to_nat (op - lo))) with op in H1 by lia.
  destruct s1 as [j|].
  { destruct H1 as (Hj & Ht & _). eexists. split; [done|]. split; [done|]. cbn [el_shape el_repair].
    destruct (guard_branch_spec words base_va op j) as (b & E & Hb); [lia..|]. rewrite Ht in E. injection E as <-.
    split; [split; lia|by apply Hb]. }
  destruct (find_return_spec words op Hop) as (r & Er & Hr). exists r. split; [done|]. destruct r as [e|].
  - destruct Hr as (Ho & Es & Hw & He). split; [done|]. by rewrite Es.
  - intros (j & Hj & [Hbo|Her]); [|by apply (Hr j)].
    destruct (guard_branch_spec words base_va op j) as (b & E & Hb); [unfold in_window in Hj; lia..|].
    rewrite (H1 j Hj) in E. injection E as <-. by apply Hb in Hbo.
Qed.

Lemma ic_ivau_ops_spec words op : op ∈ ic_ivau_ops words <-> ic_ivau_at words op.
Proof.
  unfold ic_ivau_ops, ic_ivau_at. rewrite list_elem_of_omap. split.
  - intros ([i w] & Hin & E). destruct (is_ic_ivau w) eqn:Ew; [|done]. injection E as <-.
    apply elem_of_lookup_imap in Hin as (k & x & [= -> ->] & Hk). exists x. split; [by apply vget_of_lookup|done].
  - intros (w & Ew & Hw). apply vget_Some in Ew as [Hr Ew]. exists (op, w). rewrite Hw. split; [|done].
    apply elem_of_lookup_imap. exists (Z.to_nat op), w. split; [by rewrite Z2Nat.id by lia|done].
Qed.

Lemma sort_ops_spec words base_va ops :
  Z.of_nat (length words) <= 2 ^ 60 -> Forall (ic_ivau_at words) ops ->
  exists els un, sort_ops words base_va ops = Ok (els, un) /\
    Forall (fun e => el_op e ∈ ops /\ explains words (el_op e) (Some e)) els /\
    (forall op, op ∈ un <-> op ∈ ops /\ ~ guarded words op) /\
    (forall op, op ∈ ops -> op ∈ un \/ exists e, e ∈ els /\ el_op e = op).
Proof.
  intros Hl. induction ops as [|op ops IH]; intros Hops; cbn [sort_ops].
  { exists [], []. split_and!; [done|constructor| |]; intros op; [|intros Hop; by apply not_elem_of_nil in Hop].
    split; [intros Hop; by apply not_elem_of_nil in Hop|]. intros [Hop _]. by apply not_elem_of_nil in Hop. }
  inversion_clear Hops as [|? ? H1 H2]. destruct (find_guard_spec words base_va op Hl H1) as (r & -> & Hr).
  destruct (IH H2) as (els & un & -> & Hels & Hun & Hall). cbn [mbind res_bind_inst].
  assert (Forall (fun e => el_op e ∈ op :: ops /\ explains words (el_op e) (Some e)) els) as Hels'.
  { eapply list.Forall_impl; [exact Hels|]. intros e [? ?]. split; [by right|done]. }
  destruct r as [e|]; eexists _, _; (split; [done|]).
  - pose proof Hr as [Ho _]. split_and!.
    + constructor; [|done]. rewrite Ho. split; [by left|]. by rewrite <- Ho in Hr |- *.
    + intros op'. rewrite Hun, elem_of_cons. split; [tauto|]. intros [[->|?] Hg]; [|done]. destruct Hg.
      destruct Hr as [_ Hr]. destruct (el_shape e); destruct Hr; by eexists; eauto.
    + intros op' [->|Hin]%elem_of_cons; [right; exists e; split; [by left|done]|].
      destruct (Hall op' Hin) as [?|(e' & ? & ?)]; [by left|]. right. exists e'. split; [by right|done].
  - split_and!; [done| |].
    + intros op'. rewrite !elem_of_cons, Hun. split; [intros [->|[? ?]]; by auto|]. intros [[->|?] ?]; by auto.
    + intros op' [->|Hin]%elem_of_cons; [left; by left|].
      destruct (Hall op' Hin) as [?|(e' & ? & ?)]; [left; by right|]. right. by exists e'.
Qed.

(** The locator is exact: it never indexes out of the text, and it splits the
    [ic ivau] instructions into those with a guard, each reported with a guard
    that really skips it (the barrier and a branch over it, or a routine that
    returns at once, with no other routine in between), and those with no guard
    within the window. *)
Theorem find_elisions_exact words base_va :
  Z.of_nat (length words) <= 2 ^ 60 ->
  exists els un, find_elisions words base_va = Ok (els, un) /\
    (forall e, e ∈ els -> ic_ivau_at words (el_op e) /\ explains words (el_op e) (Some e)) /\
    (forall op, op ∈ un <-> ic_ivau_at words op /\ ~ guarded words op) /\
    (forall op, ic_ivau_at words op /\ guarded words op <-> exists e, e ∈ els /\ el_op e = op).
Proof.
  intros Hl. unfold find_elisions.
  assert (Forall (ic_ivau_at words) (ic_ivau_ops words)) as Hops
    by (apply Forall_elem; intros op; apply ic_ivau_ops_spec).
  destruct (sort_ops_spec words base_va _ Hl Hops) as (els & un & -> & Hels & Hun & Hall).
  rewrite Forall_elem in Hels. exists els, un. split; [done|]. split_and!.
  - intros e He. destruct (Hels e He) as [Hin Hx]. by apply ic_ivau_ops_spec in Hin.
  - intros op. by rewrite Hun, ic_ivau_ops_spec.
  - intros op. split.
    + intros [Hop Hg]. destruct (Hall op) as [Hu|?]; [by apply ic_ivau_ops_spec| |done].
      by apply Hun in Hu as [_ []].
    + intros (e & He & <-). destruct (Hels e He) as [Hin Hx]. apply ic_ivau_ops_spec in Hin. split; [done|].
      destruct Hx as [_ Hx]. destruct (el_shape e); destruct Hx; by eexists; eauto.
Qed.

(** [bti c; isb; b +4; ic ivau, x0; nop; ret; bti c; isb; ret; ic ivau, x1; bti c; ic ivau, x2]. *)
Definition demo_text : list Z :=
  [BTI_C; ISB; B_OPC + 4; IC_IVAU; NOP; RET; BTI_C; ISB; RET; IC_IVAU + 1; BTI_C; IC_IVAU + 2].

Lemma find_elisions_exact_witness :
  find_elisions demo_text 0xffff800010000000 =
    Ok ([mkElision 1 3 Branch; mkElision 7 9 EarlyReturn], [11]) /\
  (ic_ivau_at demo_text 11 /\ ~ guarded demo_text 11).
Proof.
  destruct (find_elisions_exact demo_text 0xffff800010000000) as (els & un & E & _ & Hun & _); [by vm_compute|].
  assert (find_elisions demo_text 0xffff800010000000 =
    Ok ([mkElision 1 3 Branch; mkElision 7 9 EarlyReturn], [11])) as E' by (by vm_compute).
  split; [done|]. rewrite E in E'. injection E' as -> ->. apply Hun. by left.
Defined.

Lemma rsearch_ext f g lo n :
  (forall j, lo <= j < lo + Z.of_nat n -> f j = g j) -> rsearch f lo n = rsearch g lo n.
Proof.
  induction n as [|n IH]; intros Hfg; cbn [rsearch]; [done|]. rewrite (Hfg (lo + Z.of_nat n)) by lia.
  destruct (g _) as [[|]| | |]; cbn [mbind res_bind_inst]; try done. apply IH. intros j Hj. apply Hfg. lia.
Qed.

(** The locator does not depend on where the text is mapped, as its comment
    claims. *)
Lemma locator_position_free words base_va base_va' :
  Z.of_nat (length words) <= 2 ^ 60 -> find_elisions words base_va = find_elisions words base_va'.
Proof.
  intros Hl. unfold find_elisions.
  assert (Forall (ic_ivau_at words) (ic_ivau_ops words)) as Hops
    by (apply Forall_elem; intros op; apply ic_ivau_ops_spec).
  induction Hops as [|op ops Hop Hops IH]; [done|]. cbn [sort_ops].
  assert (find_guard words base_va op = find_guard words base_va' op) as ->; [|by rewrite IH].
  unfold find_guard. destruct Hop as (w & [Hr _]%vget_Some & _).
  rewrite (rsearch_ext _ (guard_branch words base_va' op)); [done|].
  intros j Hj. unfold sat_sub in *.
  destruct (guard_branch_spec words base_va op j) as (b & -> & Hb); [lia..|].
  destruct (guard_branch_spec words base_va' op j) as (b' & -> & Hb'); [lia..|].
  f_equal. destruct b, b'; tauto || (by symmetry; apply Hb', Hb) || (by apply Hb, Hb').
Qed.

(** ** Guest memory as [PhysMem] *)

Class PhysMemLaws (M : Type) `{PhysMem M} := {
  pm_wf : M -> Prop;
  pm_bytes_wf m pa n bs : pm_wf m -> pm_bytes m pa n = Some bs -> length bs = n /\ bytes bs;
  pm_bytes_at m pa n bs i :
    pm_wf m -> pm_bytes m pa n = Some bs -> 0 <= i < Z.of_nat n -> pm_byte m (pa + i) = vget bs i;
  pm_bytes_sub m pa n bs i k :
    pm_wf m -> pm_bytes m pa n = Some bs -> (0 < k)%nat -> (i + k <= n)%nat ->
    pm_bytes m (pa + Z.of_nat i) k = Some (take k (drop i bs));
  pm_write_ok m pa bs bs0 :
    pm_wf m -> pm_bytes m pa (length bs) = Some bs0 -> is_Some (pm_write m pa bs);
  pm_write_bytes m pa bs m' :
    pm_wf m -> bytes bs -> pm_write m pa bs = Some m' ->
    pm_wf m' /\
    (forall a, pm_byte m' a = if in_range pa (pa + Z.of_nat (length bs)) a then vget bs (a - pa) else pm_byte m a) /\
    (forall a n, is_Some (pm_bytes m' a n) <-> is_Some (pm_bytes m a n));
}.

#[export] Instance guest_phys_mem : PhysMem GuestMemory := {|
  pm_regions m := map (fun r => (r_gpa r, r_ptr r, r_size r)) (regions m);
  pm_bytes m pa n := match with_slice m pa n (fun b => b) with Ok b => Some b | _ => None end;
  pm_write m pa bs := match mem_write m pa bs with Ok m => Some m | _ => None end;
|}.

Lemma guest_bytes m pa n bs : pm_bytes m pa n = Some bs <-> mem_read m pa n = Ok bs.
Proof.
  cbn. unfold with_slice, mem_read. destruct (with_ptr m pa (Z.of_nat n)); cbn; split; congruence.
Qed.

Lemma guest_byte m a : pm_byte m a = gbyte m a.
Proof.
  unfold pm_byte, gbyte. cbn. unfold with_slice, with_ptr. change (Z.of_nat 1) with 1.
  destruct (find_ptr (regions m) a 1) as [p|]; [|done]. cbn [mbind res_bind_inst option_bind fmap option_fmap option_map].
  unfold host_read. change (Z.of_nat 1) with 1. rewrite seqZ_cons by lia. cbn. by rewrite Z.add_0_r.
Qed.

Lemma host_read_sub h p n i k :
  (i + k <= n)%nat -> host_read h (p + Z.of_nat i) k = take k (drop i (host_read h p n)).
Proof.
  intros Hk. apply list_eq. intros j. unfold host_read. destruct (decide (j < k)%nat).
  - rewrite lookup_take_lt, lookup_drop, !list_lookup_fmap, !lookup_seqZ_lt by lia. cbn. do 2 f_equal. lia.
  - rewrite lookup_take_ge by lia. rewrite lookup_ge_None_2; [done|]. rewrite length_fmap, length_seqZ. lia.
Qed.

#[export] Instance guest_phys_mem_laws : PhysMemLaws GuestMemory.
Proof.
  refine {| pm_wf := mem_wf |}.
  - intros m pa n bs Hm E%guest_bytes. split; [by eapply mem_read_length|by eapply mem_read_bytes].
  - intros m pa n bs i Hm E%guest_bytes Hi. rewrite guest_byte.
    destruct (mem_read_gbyte m pa n bs (proj1 Hm) E) as [_ Hg]. by apply Hg.
  - intros m pa n bs i k Hm (p & Hp%with_ptr_Ok & ->)%guest_bytes%mem_read_Ok Hk Hi. apply guest_bytes, mem_read_Ok.
    exists (p + Z.of_nat i). split; [|symmetry; by apply host_read_sub]. apply with_ptr_Ok.
    rewrite (find_ptr_sub _ _ _ _ (pa + Z.of_nat i) (Z.of_nat k) (proj1 Hm) Hp) by lia. f_equal. lia.
  - intros m pa bs bs0 Hm (p & Hp & _)%guest_bytes%mem_read_Ok. cbn. unfold mem_write. rewrite Hp. cbn. by eexists.
  - intros m pa bs m' Hm Hb Ew. change (match mem_write m pa bs with Ok m => Some m | _ => None end = Some m') in Ew.
    destruct (mem_write m pa bs) as [m1| | |] eqn:E; [|done..]. injection Ew as <-. split_and!.
    + by eapply mem_write_wf.
    + intros a. rewrite !guest_byte. by apply mem_write_gbyte; [apply Hm|].
    + intros a n. cbn. unfold with_slice. rewrite (with_ptr_regions m m1) by (by eapply mem_write_regions).
      destruct (with_ptr m a (Z.of_nat n)); cbn; split; intros [x Hx]; by eexists.
Defined.

(** ** The walk ends *)

Section Ends.
Context {M : Type} `{PhysMem M} (m : M) (vbits : Z).

Definition ends_in (P : Walk -> Prop) (r : res Refusal Walk) : Prop :=
  match r with Ok w => P w | Err _ => True | _ => False end.

Lemma ends_bind P Q r f : ends_in P r -> (forall w, P w -> ends_in Q (f w)) -> ends_in Q (r ≫= f).
Proof. destruct r; cbn; auto. Qed.

Lemma leaf_budget lvl desc va w : ends_in (fun w' => w_budget w' = w_budget w) (leaf vbits lvl desc va w).
Proof. unfold leaf. repeat case_match; done. Qed.

Lemma entries_ends down (P : Walk -> Prop) n table lvl base : forall idx w,
  (forall w w', P w -> w_budget w' = w_budget w -> P w') ->
  (lvl <> 3 -> forall t b w, P w -> ends_in P (down t (u32 (lvl + 1)) b w)) ->
  P w -> ends_in P (entries down n m vbits table lvl base idx w).
Proof.
  intros idx w HP Hd. revert idx w. induction n as [|n IH]; intros idx w Hw; cbn [entries]; [done|].
  apply (ends_bind P); [|intros w' Hw'; by apply IH].
  destruct (u64_at m _) as [desc|]; [|done]. destruct (Z.land desc 3 =? 0); [done|].
  destruct (Z.land desc 3 =? 1); cbn [orb negb]; [|destruct (Z.eqb_spec lvl 3); cbn [negb]; [|by apply Hd]].
  all: pose proof (leaf_budget lvl desc (Z.lor base (shl64 idx (level_shift lvl))) w) as Hl;
    destruct (leaf _ _ _ _ _); cbn in *; eauto.
Qed.

(** The budget bounds the depth of the recursion. *)
Lemma descend_budget fuel : forall table lvl base w,
  0 <= w_budget w < Z.of_nat fuel ->
  ends_in (fun w' => 0 <= w_budget w' < Z.of_nat fuel) (descend fuel m vbits table lvl base w).
Proof.
  induction fuel as [|fuel IH]; intros table lvl base w Hw; [lia|]. cbn [descend].
  destruct (Z.eqb_spec (w_budget w) 0); [done|].
  assert (ends_in (fun w' => 0 <= w_budget w' < Z.of_nat fuel)
    (entries (fun table lvl base w => descend fuel m vbits table lvl base w) 512 m vbits table lvl base 0
       (mkWalk (w_runs w) (w_budget w - 1) (w_text w)))) as He.
  { apply entries_ends; [intros w1 w2 H1 ->; done| |cbn; lia]. intros _ t b w1 Hw1. by apply IH. }
  unfold ends_in in *. destruct (entries _ _ _ _ _ _ _ _ _); [lia|done..].
Qed.

(** So do the levels below the first. *)
Lemma descend_levels fuel : forall table lvl base w,
  0 <= lvl <= 3 -> 4 - lvl <= Z.of_nat fuel ->
  ends_in (fun _ => True) (descend fuel m vbits table lvl base w).
Proof.
  induction fuel as [|fuel IH]; intros table lvl base w Hl Hf; [lia|]. cbn [descend].
  destruct (Z.eqb_spec (w_budget w) 0); [done|].
  apply entries_ends; [done| |done]. intros Hne t b w1 _. apply IH; unfold u32; rewrite Z.mod_small by lia; lia.
Qed.
End Ends.

Definition t1sz (tcr : Z) : Z := Z.land (Z.shiftr tcr 16) 0x3f.

(** Enough fuel for the walk: more than its budget, or one for each level of a
    layout of up to 48 bits. *)
Definition walk_fuel (fuel : nat) (snap : Snapshot) : Prop :=
  MAX_TABLES < Z.of_nat fuel \/
  (4 <= fuel)%nat /\ forall tcr, captured_sysreg snap SYSREG_TCR_EL1 = Agreed tcr -> 16 <= t1sz tcr <= 51.

Lemma decode_tcr_levels tcr l :
  decode_tcr tcr = Ok l -> 16 <= t1sz tcr <= 51 ->
  va_bits l = 64 - t1sz tcr /\ 0 <= start_level l <= 3 /\
  9 * (3 - start_level l) + 12 < va_bits l <= 9 * (4 - start_level l) + 12.
Proof.
  unfold decode_tcr. fold (t1sz tcr). intros E Ht. unfold div_ceil, sub32, u32 in E.
  set (g := if _ =? 1 then _ else _) in E. assert (g = Ok 16384 \/ g = Ok 4096 \/ g = Ok 65536 \/ exists e, g = Err e) as Hg.
  { subst g. repeat case_match; eauto. }
  destruct Hg as [->|[->|[->|[e ->]]]]; cbn [mbind res_bind_inst] in E; try done.
  change (negb (4096 =? 4096)) with false in E. cbv iota in E.
  apply (f_equal (fun r => match r with Ok a => a | _ => l end)) in E. cbv beta iota in E. subst l.
  cbn [va_bits start_level].
  rewrite (Z.mod_small (64 - t1sz tcr - 12)) by lia.
  set (v := 64 - t1sz tcr - 12). assert (1 <= v <= 36) as Hv by lia.
  pose proof (Z.div_mod v 9 ltac:(lia)) as Hdm. pose proof (Z.mod_pos_bound v 9 ltac:(lia)) as Hmb.
  destruct (Z.eqb_spec (v mod 9) 0); rewrite Z.mod_small by lia; lia.
Qed.

Lemma executable_runs_ends {M} `{PhysMem M} fuel (m : M) snap tcr l root :
  walk_fuel fuel snap -> captured_sysreg snap SYSREG_TCR_EL1 = Agreed tcr -> decode_tcr tcr = Ok l ->
  settles (executable_runs fuel m root (va_bits l) (start_level l)).
Proof.
  intros Hf Hc Hd. unfold executable_runs.
  assert (ends_in (fun _ => True) (descend fuel m (va_bits l) root (start_level l) 0 (mkWalk [] MAX_TABLES 0))) as He.
  { destruct Hf as [Hf|[Hf Ht]].
    - pose proof (descend_budget m (va_bits l) fuel root (start_level l) 0 (mkWalk [] MAX_TABLES 0)) as He.
      unfold ends_in in *. cbn [w_budget] in He. specialize (He ltac:(unfold MAX_TABLES in *; lia)).
      by destruct (descend _ _ _ _ _ _ _).
    - destruct (decode_tcr_levels tcr l Hd (Ht tcr Hc)) as (_ & Hs & _). apply descend_levels; lia. }
  by destruct (descend _ _ _ _ _ _ _).
Qed.

(** ** The walk agrees with translation *)

Lemma level_shift_eq lvl : 0 <= lvl <= 3 -> level_shift lvl = 12 + 9 * (3 - lvl).
Proof. intros Hl. unfold level_shift, sub32, u32. rewrite (Z.mod_small (3 - lvl)), Z.mod_small by lia. done. Qed.

Lemma shl64_pow s : 0 <= s < 64 -> shl64 1 s = 2 ^ s.
Proof.
  intros Hs. unfold shl64, u64. rewrite (Z.mod_small s 64), Z.shiftl_1_l by lia. apply Z.mod_small.
  split; [apply Z.pow_nonneg; lia|]. apply Z.pow_lt_mono_r; lia.
Qed.

Lemma shl64_mul x s : 0 <= s < 64 -> 0 <= x -> x * 2 ^ s < 2 ^ 64 -> shl64 x s = x * 2 ^ s.
Proof.
  intros Hs Hx Hb. unfold shl64, u64. rewrite (Z.mod_small s 64), Z.shiftl_mul_pow2 by lia. apply Z.mod_small.
  split; [apply Z.mul_nonneg_nonneg; [done|apply Z.pow_nonneg; lia]|done].
Qed.

Lemma ldiff_pow x k : 0 <= k -> Z.ldiff x (2 ^ k - 1) = x - x mod 2 ^ k.
Proof.
  intros Hk. replace (2 ^ k - 1) with (Z.ones k) by (rewrite Z.ones_equiv; lia).
  rewrite Z.ldiff_ones_r, Z.shiftl_mul_pow2, Z.shiftr_div_pow2 by done.
  pose proof (Z.div_mod x (2 ^ k)). assert (0 < 2 ^ k) by (apply Z.pow_pos_nonneg; lia). lia.
Qed.

Lemma land_pow x k : 0 <= k -> Z.land x (2 ^ k - 1) = x mod 2 ^ k.
Proof.
  intros Hk. replace (2 ^ k - 1) with (Z.ones k) by (rewrite Z.ones_equiv; lia). by apply Z.land_ones.
Qed.

(** A multiple of [2^k] and a number below it share no bit. *)
Lemma lor_low a b k : 0 <= k -> a mod 2 ^ k = 0 -> 0 <= b < 2 ^ k -> Z.lor a b = a + b.
Proof.
  intros Hk Ha Hb. assert (0 < 2 ^ k) by (apply Z.pow_pos_nonneg; lia).
  apply Z.mod_divide in Ha as [q ->]; [|lia].
  rewrite <- (Z.shiftl_mul_pow2 q k) by done. by rewrite lor_shiftl_add, Z.shiftl_mul_pow2.
Qed.

Lemma out_addr_range desc : 0 <= Z.land desc OUT_ADDR_MASK < 2 ^ 48 /\ Z.land desc OUT_ADDR_MASK mod 2 ^ 12 = 0.
Proof.
  assert (OUT_ADDR_MASK = Z.shiftl (Z.ones 36) 12) as -> by done. split.
  - split; [apply Z.land_nonneg; by right|]. apply bits_range; [lia|apply Z.land_nonneg; by right|]. intros i Hi. rewrite Z.land_spec, Z.shiftl_spec, testbit_ones by lia.
    rewrite (proj2 (Z.ltb_ge _ _)) by lia. by rewrite !andb_false_r.
  - rewrite <- Z.land_ones by lia. apply Z.bits_inj'. intros i Hi.
    rewrite Z.bits_0, !Z.land_spec, testbit_ones by lia.
    destruct (Z.ltb_spec i 12); [|by rewrite !andb_false_r]. by rewrite Z.shiftl_spec_low, andb_false_r by done.
Qed.

Section Agree.
Context {M : Type} `{PhysMem M} (m : M) (root start : Z).
Context (Hstart : 0 <= start <= 3).

(** The address bits of a layout whose first table is full, and the bits below a
    level's index. *)
Definition full_bits : Z := 12 + 9 * (4 - start).
Definition below (lvl : Z) : Z := 12 + 9 * (3 - lvl).

Lemma pow_pos k : 0 <= k -> 0 < 2 ^ k.
Proof. intros. by apply Z.pow_pos_nonneg. Qed.

(** Translation of every address under [base] comes through the table. *)
Definition reaches (table lvl base : Z) : Prop :=
  start <= lvl <= 3 /\ 0 <= base < 2 ^ full_bits /\ base mod 2 ^ (below lvl + 9) = 0 /\
  forall v, 0 <= v < 2 ^ 64 -> v mod 2 ^ full_bits / 2 ^ (below lvl + 9) = base / 2 ^ (below lvl + 9) ->
    translate m root v start = translate_from (Z.to_nat (4 - lvl)) m table v lvl.

Lemma reaches_root : reaches root start 0.
Proof.
  unfold reaches. assert (below start + 9 = full_bits) as -> by (unfold below, full_bits; lia).
  pose proof (pow_pos full_bits ltac:(unfold full_bits; lia)). split_and!; try lia; done.
Qed.

Lemma level_index lvl base idx v :
  start <= lvl <= 3 -> 0 <= base -> base mod 2 ^ (below lvl + 9) = 0 -> 0 <= idx < 512 -> 0 <= v < 2 ^ 64 ->
  v mod 2 ^ full_bits / 2 ^ below lvl = base / 2 ^ below lvl + idx ->
  v mod 2 ^ full_bits / 2 ^ (below lvl + 9) = base / 2 ^ (below lvl + 9) /\
  Z.land (shr64 v (level_shift lvl)) 0x1ff = idx.
Proof.
  intros Hl Hb Hm Hi Hv E. assert (0 <= below lvl <= 39) as Hbl by (unfold below; lia).
  pose proof (pow_pos (below lvl) ltac:(lia)) as Hp. rewrite Z.pow_add_r in * by lia.
  change (2 ^ 9) with 512 in *. apply Z.mod_divide in Hm as [q ->]; [|lia].
  assert (q * (2 ^ below lvl * 512) / 2 ^ below lvl = q * 512) as Eq.
  { replace (q * (2 ^ below lvl * 512)) with (q * 512 * 2 ^ below lvl) by lia. by rewrite Z.div_mul by lia. }
  rewrite Eq in E. split.
  - rewrite <- !Z.div_div, E, Eq by lia. rewrite Z.div_mul by lia.
    symmetry. apply (Z.div_unique _ _ _ idx); lia.
  - change 0x1ff with (2 ^ 9 - 1). rewrite land_pow by lia. unfold shr64. rewrite level_shift_eq by lia. fold (below lvl).
    rewrite (Z.mod_small (below lvl) 64), Z.shiftr_div_pow2 by lia.
    assert (v / 2 ^ below lvl mod 2 ^ 9 = v mod 2 ^ full_bits / 2 ^ below lvl mod 2 ^ 9) as ->.
    { rewrite <- !Z.shiftr_div_pow2, <- !Z.land_ones by (lia || (unfold full_bits; lia)).
      apply Z.bits_inj'. intros i Hi'. rewrite !Z.land_spec, !testbit_ones by lia.
      destruct (Z.ltb_spec i 9); [|by rewrite !andb_false_r].
      rewrite !Z.shiftr_spec, Z.land_spec, testbit_ones by (lia || (unfold full_bits; lia)).
      rewrite (proj2 (Z.ltb_lt (i + below lvl) full_bits)), (proj2 (Z.leb_le 0 (i + below lvl)))
        by (unfold full_bits, below in *; lia). by rewrite !andb_true_r. }
    rewrite E. change (2 ^ 9) with 512. symmetry. apply (Z.mod_unique _ _ q); lia.
Qed.

Lemma entry_base lvl base idx :
  start <= lvl <= 3 -> 0 <= base < 2 ^ full_bits -> base mod 2 ^ (below lvl + 9) = 0 -> 0 <= idx < 512 ->
  Z.lor base (shl64 idx (level_shift lvl)) = base + idx * 2 ^ below lvl /\
  base + idx * 2 ^ below lvl + 2 ^ below lvl <= 2 ^ full_bits /\
  (base + idx * 2 ^ below lvl) / 2 ^ below lvl = base / 2 ^ below lvl + idx /\
  (base + idx * 2 ^ below lvl) mod 2 ^ below lvl = 0.
Proof.
  intros Hl Hb Hm Hi. assert (0 <= below lvl <= 39) as Hbl by (unfold below; lia).
  pose proof (pow_pos (below lvl) ltac:(lia)) as Hp.
  assert (2 ^ (below lvl + 9) = 2 ^ below lvl * 512) as E9 by (by rewrite Z.pow_add_r by lia).
  assert (2 ^ below lvl <= 2 ^ 39) by (apply Z.pow_le_mono_r; lia).
  assert (0 <= idx * 2 ^ below lvl < 2 ^ below lvl * 512) by nia.
  assert (2 ^ below lvl * 512 <= 2 ^ 39 * 512) by lia.
  rewrite level_shift_eq by lia. fold (below lvl). rewrite shl64_mul by lia.
  rewrite (lor_low base _ (below lvl + 9)) by (lia || done). split; [done|].
  assert (exists e, full_bits = below lvl + 9 + e /\ 0 <= e) as (e & Ee & He).
  { exists (full_bits - below lvl - 9). unfold full_bits, below in *. lia. }
  rewrite Ee in *. rewrite (Z.pow_add_r 2 (below lvl + 9) e), E9 in * by lia. pose proof (pow_pos e He).
  apply Z.mod_divide in Hm as [q ->]; [|lia]. split_and!.
  - assert (q < 2 ^ e) by (apply (Z.mul_lt_mono_pos_r (2 ^ below lvl * 512)); lia).
    assert ((q + 1) * (2 ^ below lvl * 512) <= 2 ^ e * (2 ^ below lvl * 512)) by (apply Z.mul_le_mono_nonneg_r; lia).
    assert ((idx + 1) * 2 ^ below lvl <= 512 * 2 ^ below lvl) by (apply Z.mul_le_mono_nonneg_r; lia). lia.
  - by rewrite Z.div_add by lia.
  - rewrite Z.mod_add by lia. replace (q * (2 ^ below lvl * 512)) with (q * 512 * 2 ^ below lvl) by lia.
    by apply Z.mod_mul; lia.
Qed.

Lemma translate_step lvl table v desc :
  start <= lvl <= 3 ->
  u64_at m (u64 (table + Z.land (shr64 v (level_shift lvl)) 0x1ff * 8)) = Some desc ->
  translate_from (Z.to_nat (4 - lvl)) m table v lvl =
  if Z.land desc 3 =? 0 then None
  else if Z.land desc 3 =? 1 then
    if lvl =? 3 then None
    else Some (Z.lor (Z.ldiff (Z.land desc OUT_ADDR_MASK) (2 ^ below lvl - 1)) (Z.land v (2 ^ below lvl - 1)))
  else if lvl =? 3 then Some (Z.lor (Z.land desc OUT_ADDR_MASK) (Z.land v 0xfff))
  else translate_from (Z.to_nat (4 - (lvl + 1))) m (Z.land desc OUT_ADDR_MASK) v (lvl + 1).
Proof.
  intros Hl E. replace (Z.to_nat (4 - lvl)) with (S (Z.to_nat (4 - (lvl + 1)))) by lia. cbn [translate_from].
  rewrite E. cbn [mbind option_bind]. rewrite shl64_pow by (rewrite level_shift_eq by lia; lia).
  rewrite level_shift_eq by lia. done.
Qed.

Lemma reaches_down table lvl base idx desc :
  reaches table lvl base -> lvl <> 3 -> 0 <= idx < 512 ->
  u64_at m (u64 (table + idx * 8)) = Some desc -> Z.land desc 3 <> 0 -> Z.land desc 3 <> 1 ->
  reaches (Z.land desc OUT_ADDR_MASK) (u32 (lvl + 1)) (Z.lor base (shl64 idx (level_shift lvl))).
Proof.
  intros (Hl & Hb & Hm & Ht) Hne Hi E H0 H1.
  destruct (entry_base lvl base idx Hl Hb Hm Hi) as (-> & Hle & Hdiv & Hmod).
  assert (u32 (lvl + 1) = lvl + 1) as -> by (unfold u32; apply Z.mod_small; lia).
  assert (below (lvl + 1) + 9 = below lvl) as Eb by (unfold below; lia).
  pose proof (pow_pos (below lvl) ltac:(unfold below; lia)) as Hp.
  split_and!; try lia; [by rewrite Eb|]. rewrite Eb. intros v Hv Ev. rewrite Hdiv in Ev.
  destruct (level_index lvl base idx v Hl (proj1 Hb) Hm Hi Hv Ev) as [Eu Ei]. rewrite (Ht v Hv Eu).
  rewrite (translate_step lvl table v desc) by (done || by rewrite Ei).
  rewrite (proj2 (Z.eqb_neq _ _) H0), (proj2 (Z.eqb_neq _ _) H1), (proj2 (Z.eqb_neq _ _) Hne). done.
Qed.

(** The mapping of a run. *)
Definition run_ok (r : Run) : Prop :=
  0 <= run_va r < 2 ^ 64 /\ 0 <= run_pa r /\ 0 < run_len r /\ run_pa r + run_len r <= 2 ^ 48 /\
  forall o, 0 <= o < run_len r -> translate m root (u64 (run_va r + o)) start = Some (run_pa r + o).

Lemma full_mod x : (u64 x) mod 2 ^ full_bits = x mod 2 ^ full_bits.
Proof.
  unfold u64. apply Z.mod_mod_divide. exists (2 ^ (64 - full_bits)).
  rewrite <- Z.pow_add_r by (unfold full_bits; lia). f_equal. lia.
Qed.

Lemma leaf_translates table lvl base idx desc full o :
  reaches table lvl base -> 0 <= idx < 512 -> u64_at m (u64 (table + idx * 8)) = Some desc ->
  Z.land desc 3 <> 0 -> (Z.land desc 3 = 1 -> lvl <> 3) -> (Z.land desc 3 <> 1 -> lvl = 3) ->
  full mod 2 ^ full_bits = base + idx * 2 ^ below lvl -> 0 <= o < 2 ^ below lvl ->
  translate m root (u64 (full + o)) start =
    Some (Z.ldiff (Z.land desc OUT_ADDR_MASK) (2 ^ below lvl - 1) + o).
Proof.
  intros (Hl & Hb & Hm & Ht) Hi E H0 H1 H3 Ef Ho.
  destruct (entry_base lvl base idx Hl Hb Hm Hi) as (_ & Hle & Hdiv & Hmod).
  assert (0 <= below lvl) as Hbl by (unfold below; lia). pose proof (pow_pos (below lvl) Hbl) as Hp.
  assert (u64 (full + o) mod 2 ^ full_bits = base + idx * 2 ^ below lvl + o) as Ev.
  { rewrite full_mod, Z.add_mod, Ef by lia. rewrite Z.add_mod_idemp_r by lia. apply Z.mod_small. nia. }
  assert (0 <= u64 (full + o) < 2 ^ 64) as Hv by (apply Z.mod_pos_bound; lia).
  destruct (level_index lvl base idx (u64 (full + o)) Hl (proj1 Hb) Hm Hi Hv) as [Eu Ei].
  { rewrite Ev, <- Hdiv. symmetry. apply (Z.div_unique _ _ _ o); [lia|].
    rewrite (Z.div_mod (base + idx * 2 ^ below lvl) (2 ^ below lvl)) at 1 by lia. lia. }
  rewrite (Ht _ Hv Eu), (translate_step lvl table _ desc) by (done || by rewrite Ei).
  assert (u64 (full + o) mod 2 ^ below lvl = o) as Eo.
  { assert ((2 ^ below lvl | 2 ^ full_bits)) as Hd.
    { exists (2 ^ (full_bits - below lvl)). rewrite <- Z.pow_add_r by (unfold full_bits, below in *; lia). f_equal. lia. }
    rewrite <- (Z.mod_mod_divide _ _ _ Hd), Ev. rewrite <- Z.add_mod_idemp_l, Hmod by lia. apply Z.mod_small. lia. }
  rewrite (proj2 (Z.eqb_neq _ _) H0).
  assert (Z.lor (Z.ldiff (Z.land desc OUT_ADDR_MASK) (2 ^ below lvl - 1)) (Z.land (u64 (full + o)) (2 ^ below lvl - 1))
          = Z.ldiff (Z.land desc OUT_ADDR_MASK) (2 ^ below lvl - 1) + o) as Es.
  { rewrite land_pow, Eo by lia. apply (lor_low _ _ (below lvl)); [lia| |lia].
    rewrite ldiff_pow by lia. rewrite Zminus_mod_idemp_r, Z.sub_diag. done. }
  destruct (Z.eqb_spec (Z.land desc 3) 1) as [E1|E1]; [rewrite (proj2 (Z.eqb_neq _ _) (H1 E1)); by rewrite Es|].
  rewrite (H3 E1), Z.eqb_refl in *. change (below 3) with 12 in *. f_equal. rewrite <- Es. f_equal.
  rewrite ldiff_pow, (proj2 (out_addr_range desc)) by lia. lia.
Qed.

Definition walk_ok (w : Walk) : Prop :=
  Forall run_ok (w_runs w) /\ Forall (fun r => run_len r <= w_text w) (w_runs w) /\ 0 <= w_text w <= MAX_TEXT_BYTES.

Lemma add_run_ok full pa size runs text :
  Forall run_ok runs -> Forall (fun r => run_len r <= text) runs -> 0 <= text -> text + size <= MAX_TEXT_BYTES ->
  run_ok (mkRun full pa size) ->
  Forall run_ok (add_run full pa size runs) /\ Forall (fun r => run_len r <= text + size) (add_run full pa size runs).
Proof.
  intros Hr Ht H0 Hm Hn. pose proof Hn as (Hva & Hpa & Hsz & Hend & Htr). cbn in Hva, Hpa, Hsz, Hend, Htr.
  assert (forall l, Forall (fun r => run_len r <= text) l -> Forall (fun r => run_len r <= text + size) l) as Hw.
  { intros l Hl. eapply list.Forall_impl; [exact Hl|]. cbn. lia. }
  unfold add_run. destruct (list.last runs) as [l|] eqn:El.
  2:{ split; apply list.Forall_app_2; auto; apply Forall_singleton; auto; cbn; lia. }
  apply last_Some in El as [rs ->]. apply list.Forall_app in Hr as [Hrs Hl], Ht as [Hts Htl].
  rewrite Forall_singleton in Hl, Htl. pose proof Hl as (Lva & Lpa & Lsz & Lend & Ltr).
  destruct ((_ =? full) && _) eqn:Em.
  2:{ split; (apply list.Forall_app_2; [apply list.Forall_app_2|]); auto; apply Forall_singleton; auto; cbn; lia. }
  apply andb_true_iff in Em as [Ev%Z.eqb_eq Ep%Z.eqb_eq].
  assert (u64 (run_pa l + run_len l) = run_pa l + run_len l) as Ep' by (unfold u64; apply Z.mod_small; lia).
  assert (u64 (run_len l + size) = run_len l + size) as ->.
  { unfold u64. apply Z.mod_small. change MAX_TEXT_BYTES with 536870912 in Hm. lia. }
  rewrite length_app. cbn [length]. replace (length rs + 1 - 1)%nat with (length rs) by lia. rewrite take_app_length.
  split; apply list.Forall_app_2; auto; apply Forall_singleton; [|cbn; lia].
  split_and!; cbn; try lia. intros o Ho. destruct (decide (o < run_len l)); [by apply Ltr; lia|].
  assert (u64 (run_va l + o) = u64 (full + (o - run_len l))) as ->.
  { rewrite <- Ev. unfold u64. rewrite Z.add_mod_idemp_l by lia. f_equal. lia. }
  rewrite Htr by lia. f_equal. lia.
Qed.

(** The sign-extended address. *)
Lemma full_va va :
  0 <= va < 2 ^ full_bits ->
  let full := if negb (Z.land va (shl64 1 (sub32 full_bits 1)) =? 0) then
                Z.lor va (Z.ldiff (2 ^ 64 - 1) (u64 (shl64 1 full_bits - 1)))
              else va in
  0 <= full < 2 ^ 64 /\ full mod 2 ^ full_bits = va.
Proof.
  intros Hva. assert (21 <= full_bits <= 48) as Hf by (unfold full_bits; lia).
  pose proof (pow_pos full_bits ltac:(lia)) as Hp.
  assert (2 ^ full_bits <= 2 ^ 48) by (apply Z.pow_le_mono_r; lia).
  rewrite (shl64_pow full_bits) by lia.
  replace (u64 (2 ^ full_bits - 1)) with (2 ^ full_bits - 1) by (unfold u64; symmetry; apply Z.mod_small; lia).
  rewrite ldiff_pow by lia.
  assert ((2 ^ 64 - 1) mod 2 ^ full_bits = 2 ^ full_bits - 1) as ->.
  { symmetry. apply (Z.mod_unique _ _ (2 ^ (64 - full_bits) - 1)); [lia|].
    rewrite Z.mul_sub_distr_l, <- Z.pow_add_r by lia. replace (full_bits + (64 - full_bits)) with 64 by lia. lia. }
  cbn zeta. destruct (negb _); [|rewrite Z.mod_small by lia; lia].
  assert (2 ^ 64 = 2 ^ (64 - full_bits) * 2 ^ full_bits) as E64.
  { rewrite <- Z.pow_add_r by lia. f_equal. lia. }
  assert ((2 ^ 64 - 1 - (2 ^ full_bits - 1)) = (2 ^ (64 - full_bits) - 1) * 2 ^ full_bits) as -> by lia.
  rewrite Z.lor_comm, (lor_low _ va full_bits) by (lia || (apply Z.mod_mul; lia)).
  rewrite Z.add_comm, Z.mod_add, Z.mod_small by lia. lia.
Qed.

Lemma leaf_walk_ok table lvl base idx desc w :
  reaches table lvl base -> 0 <= idx < 512 -> u64_at m (u64 (table + idx * 8)) = Some desc ->
  Z.land desc 3 <> 0 -> (Z.land desc 3 <> 1 -> lvl = 3) -> walk_ok w ->
  ends_in walk_ok (leaf full_bits lvl desc (Z.lor base (shl64 idx (level_shift lvl))) w).
Proof.
  intros Hre Hi E H0 H3 (Hr & Hl & Ht). pose proof Hre as (Hlv & Hb & Hm & _).
  destruct (entry_base lvl base idx Hlv Hb Hm Hi) as (-> & Hle & _). unfold leaf.
  destruct ((Z.land desc 3 =? 1) && (lvl =? 3)) eqn:Eb; [exact (conj Hr (conj Hl Ht))|].
  destruct (negb (Z.land desc PXN_BIT =? 0)); [exact (conj Hr (conj Hl Ht))|].
  assert (0 <= below lvl <= 39) as Hbl by (unfold below; lia). pose proof (pow_pos (below lvl) ltac:(lia)) as Hp.
  assert (2 ^ below lvl <= 2 ^ 39) by (apply Z.pow_le_mono_r; lia).
  destruct (full_va (base + idx * 2 ^ below lvl)) as [Hf Ef]; [nia|]. cbn zeta.
  set (full := if negb _ then _ else _) in *.
  rewrite level_shift_eq by lia. fold (below lvl). rewrite shl64_pow by lia.
  assert (u64 (w_text w + 2 ^ below lvl) = w_text w + 2 ^ below lvl) as ->.
  { unfold u64. apply Z.mod_small. change MAX_TEXT_BYTES with 536870912 in Ht. lia. }
  destruct (Z.ltb_spec MAX_TEXT_BYTES (w_text w + 2 ^ below lvl)); [done|].
  destruct (add_run_ok full (Z.ldiff (Z.land desc OUT_ADDR_MASK) (2 ^ below lvl - 1)) (2 ^ below lvl) (w_runs w) (w_text w))
    as [Hr' Hl']; [done..|lia|lia| |split_and!; [exact Hr'|exact Hl'|cbn; lia..]].
  destruct (out_addr_range desc) as [Ho _]. set (pa := Z.ldiff _ _).
  assert (0 <= pa /\ pa + 2 ^ below lvl <= 2 ^ 48) as [Hp0 Hp1].
  { subst pa. rewrite ldiff_pow by lia. set (x := Z.land desc OUT_ADDR_MASK) in *.
    pose proof (Z.div_mod x (2 ^ below lvl) ltac:(lia)). pose proof (Z.mod_pos_bound x (2 ^ below lvl) ltac:(lia)).
    pose proof (Z.mod_le x (2 ^ below lvl) ltac:(lia) ltac:(lia)).
    assert (2 ^ 48 = 2 ^ below lvl * 2 ^ (48 - below lvl)) as E48 by (rewrite <- Z.pow_add_r by lia; f_equal; lia).
    assert (x / 2 ^ below lvl < 2 ^ (48 - below lvl)) by (apply Z.div_lt_upper_bound; lia).
    split; [lia|]. rewrite E48. nia. }
  split_and!; cbn; try lia. intros o Hoo. apply (leaf_translates table lvl base idx desc); try done.
  intros E1. rewrite E1 in Eb. cbn in Eb. by apply Z.eqb_neq.
Qed.

Lemma descend_walk_ok fuel : forall table lvl base w,
  reaches table lvl base -> walk_ok w ->
  match descend fuel m full_bits table lvl base w with Ok w' => walk_ok w' | _ => True end.
Proof.
  induction fuel as [|fuel IH]; intros table lvl base w Hre Hw; cbn [descend]; [done|].
  destruct (w_budget w =? 0); [done|].
  assert (walk_ok (mkWalk (w_runs w) (w_budget w - 1) (w_text w))) as Hw1 by exact Hw. revert Hw1.
  generalize (mkWalk (w_runs w) (w_budget w - 1) (w_text w)). clear w Hw.
  assert (forall n idx w, 0 <= idx -> idx + Z.of_nat n <= 512 -> walk_ok w ->
    match entries (fun t l b w => descend fuel m full_bits t l b w) n m full_bits table lvl base idx w with
    | Ok w' => walk_ok w' | _ => True end) as He; [|intros w Hw; by apply He].
  induction n as [|n IHn]; intros idx w Hi Hn Hw; cbn [entries]; [done|].
  set (step := match u64_at m _ with Some _ => _ | None => _ end).
  assert (match step with Ok w' => walk_ok w' | _ => True end) as Hs.
  2:{ destruct step as [w'| | |]; cbn; try done. apply IHn; [lia..|done]. }
  subst step. destruct (u64_at m _) as [desc|] eqn:E; [|done].
  destruct (Z.eqb_spec (Z.land desc 3) 0) as [E0|E0]; [done|]. cbn zeta.
  destruct (Z.eqb_spec (Z.land desc 3) 1) as [E1|E1], (Z.eqb_spec lvl 3) as [E3|E3]; cbn [orb negb].
  4: by apply IH; [apply (reaches_down table lvl base idx desc); try done; lia|].
  all: pose proof (leaf_walk_ok table lvl base idx desc w Hre ltac:(lia) E E0 ltac:(done) Hw) as Hl; by destruct leaf.
Qed.
End Agree.

Lemma walk_runs_ok {M} `{PhysMem M} fuel (m : M) root start runs :
  0 <= start <= 3 -> executable_runs fuel m root (full_bits start) start = Ok runs ->
  Forall (run_ok m root start) runs.
Proof.
  intros Hs E. unfold executable_runs in E.
  pose proof (descend_walk_ok m root start Hs fuel root start 0 (mkWalk [] MAX_TABLES 0) (reaches_root m root start Hs)) as Hd.
  destruct (descend _ _ _ _ _ _ _) as [w| | |]; cbn in E; try done. injection E as <-.
  apply Hd. repeat split; try constructor; done.
Qed.

(** ** The repair *)

Section Bound.
Context {M : Type} `{PhysMem M} (m : M) (vbits : Z).

(** No run is longer than the walk's limit on text, whatever the layout. *)
Definition text_ok (w : Walk) : Prop :=
  Forall (fun r => 0 <= run_pa r /\ 0 <= run_len r <= w_text w) (w_runs w) /\ 0 <= w_text w <= MAX_TEXT_BYTES.

Lemma leaf_text_ok lvl desc va w : text_ok w -> ends_in text_ok (leaf vbits lvl desc va w).
Proof.
  intros [Hr Ht]. unfold leaf. do 2 (case_match; [by split|]). cbn zeta.
  set (size := shl64 1 _). set (full := if negb _ then _ else _). set (pa := Z.ldiff _ _).
  assert (0 <= size <= 2 ^ 63) as Hsz.
  { subst size. set (s := level_shift lvl). replace (shl64 1 s) with (shl64 1 (s mod 64))
      by (unfold shl64; by rewrite Z.mod_mod by lia). pose proof (Z.mod_pos_bound s 64 ltac:(lia)).
    rewrite shl64_pow by lia. split; [lia|]. apply Z.pow_le_mono_r; lia. }
  assert (0 <= pa) as Hpa.
  { subst pa. apply Z.ldiff_nonneg. left. apply out_addr_range. }
  change MAX_TEXT_BYTES with 536870912 in *.
  assert (u64 (w_text w + size) = w_text w + size) as -> by (unfold u64; apply Z.mod_small; lia).
  destruct (Z.ltb_spec 536870912 (w_text w + size)); [done|]. split; cbn; [|change MAX_TEXT_BYTES with 536870912; lia].
  assert (Forall (fun r => 0 <= run_pa r /\ 0 <= run_len r <= w_text w + size) (w_runs w)) as Hr'.
  { eapply list.Forall_impl; [exact Hr|]. cbn. lia. }
  assert (forall v l, Forall (fun r => 0 <= run_pa r /\ 0 <= run_len r <= w_text w + size) l ->
    Forall (fun r => 0 <= run_pa r /\ 0 <= run_len r <= w_text w + size) (l ++ [mkRun v pa size])) as Hpush.
  { intros v l Hl. apply list.Forall_app_2; [done|]. apply Forall_singleton. cbn. lia. }
  unfold add_run. destruct (list.last (w_runs w)) as [l|] eqn:El; [|by apply Hpush].
  case_match; [|by apply Hpush]. apply list.Forall_app_2; [by apply Forall_take|].
  apply last_Some in El as [rs Ers]. rewrite Ers in Hr. apply list.Forall_app in Hr as [_ Hl]. rewrite Forall_singleton in Hl.
  cbn in Hl. apply Forall_singleton. cbn. unfold u64. rewrite Z.mod_small by lia. lia.
Qed.

Lemma descend_text_ok fuel : forall table lvl base w,
  text_ok w -> match descend fuel m vbits table lvl base w with Ok w' => text_ok w' | _ => True end.
Proof.
  induction fuel as [|fuel IH]; intros table lvl base w Hw; cbn [descend]; [done|].
  destruct (w_budget w =? 0); [done|].
  assert (text_ok (mkWalk (w_runs w) (w_budget w - 1) (w_text w))) as Hw1 by exact Hw. revert Hw1.
  generalize (mkWalk (w_runs w) (w_budget w - 1) (w_text w)). clear w Hw. generalize 512%nat, 0.
  induction n as [|n IHn]; intros idx w Hw; cbn [entries]; [done|].
  set (step := match u64_at m _ with Some _ => _ | None => _ end).
  assert (match step with Ok w' => text_ok w' | _ => True end) as Hs.
  2:{ destruct step as [w'| | |]; cbn; try done. by apply IHn. }
  subst step. destruct (u64_at m _) as [desc|]; [|done]. cbn zeta. destruct (Z.land desc 3 =? 0); [done|].
  destruct (negb _); [by apply IH|].
  pose proof (leaf_text_ok lvl desc (Z.lor base (shl64 idx (level_shift lvl))) w Hw) as Hl. by destruct leaf.
Qed.

Lemma runs_text fuel root start runs :
  executable_runs fuel m root vbits start = Ok runs ->
  Forall (fun r => 0 <= run_pa r /\ 0 <= run_len r <= MAX_TEXT_BYTES) runs.
Proof.
  intros E. unfold executable_runs in E.
  pose proof (descend_text_ok fuel root start 0 (mkWalk [] MAX_TABLES 0)) as Hd.
  destruct (descend _ _ _ _ _ _ _) as [w| | |]; cbn in E; try done. injection E as <-.
  destruct Hd as [Hr Ht]; [repeat split; try constructor; done|]. eapply list.Forall_impl; [exact Hr|]. cbn. lia.
Qed.
End Bound.

Lemma find_elisions_ok words base_va :
  Z.of_nat (length words) <= 2 ^ 60 ->
  exists els un, find_elisions words base_va = Ok (els, un) /\
    Forall (fun e => ic_ivau_at words (el_op e) /\ explains words (el_op e) (Some e)) els /\
    (forall op, ic_ivau_at words op -> guarded words op -> exists e, e ∈ els /\ el_op e = op).
Proof.
  intros Hl. unfold find_elisions.
  assert (Forall (ic_ivau_at words) (ic_ivau_ops words)) as Hops
    by (apply Forall_elem; intros op; apply ic_ivau_ops_spec).
  destruct (sort_ops_spec words base_va _ Hl Hops) as (els & un & -> & Hels & Hun & Hall). exists els, un. split_and!; [done| |].
  - eapply list.Forall_impl; [exact Hels|]. intros e [He Hx]. by apply ic_ivau_ops_spec in He.
  - intros op Hop%ic_ivau_ops_spec Hg. destruct (Hall op Hop) as [Hu|He]; [|done]. by apply Hun in Hu as [_ []].
Qed.

Lemma length_words_of n bs : length (words_of n bs) = n.
Proof. revert bs. induction n; cbn; auto. Qed.

Lemma lookup_words_of n bs j : (j < n)%nat -> words_of n bs !! j = Some (le_val (take 4 (drop (4 * j) bs))).
Proof.
  revert bs j. induction n as [|n IH]; intros bs [|j] Hj; [lia..|done|]. cbn [words_of lookup list_lookup].
  replace (4 * S j)%nat with (4 + 4 * j)%nat by lia. rewrite IH by lia. by rewrite drop_drop.
Qed.

Section RepairSpec.
Context {M : Type} `{PhysMemLaws M}.

(** A chunk is the words of a readable part of its run. *)
Definition chunk_of (m : M) (run : Run) (c : Z * Z * list Z) : Prop :=
  exists n b, pm_bytes m c.1.1 (4 * n) = Some b /\ c.2 = words_of n b /\
    run_pa run <= c.1.1 /\ c.1.1 + 4 * Z.of_nat n <= run_pa run + run_len run /\
    c.1.2 = u64 (run_va run + (c.1.1 - run_pa run)).

Lemma region_chunk_ok m run region c :
  0 <= run_pa run -> 0 <= run_len run -> region_chunk m run region = Some c -> chunk_of m run c.
Proof.
  intros Hp Hl E. destruct region as [[gpa ?] size]. unfold region_chunk in E.
  assert (u64 (run_pa run + run_len run) <= run_pa run + run_len run) as Hu by (apply Z.mod_le; lia).
  set (lo := Z.max _ _) in E. set (hi := Z.min _ _) in E. destruct (Z.leb_spec hi lo); [done|]. cbn zeta in E.
  destruct (Z.ltb_spec (Z.ldiff (hi - lo) 3) 4); [done|]. change 3 with (2 ^ 2 - 1) in *. rewrite ldiff_pow in * by lia.
  set (len := hi - lo - (hi - lo) mod 2 ^ 2) in *.
  assert (len = 4 * (len / 4)) as El.
  { pose proof (Z.div_mod (hi - lo) 4 ltac:(lia)). subst len. change (2 ^ 2) with 4.
    replace (hi - lo - (hi - lo) mod 4) with ((hi - lo) / 4 * 4) by lia. rewrite Z.div_mul by lia. lia. }
  pose proof (Z.mod_pos_bound (hi - lo) (2 ^ 2) ltac:(lia)).
  destruct (pm_bytes m lo (Z.to_nat len)) as [b|] eqn:Eb; [|done].
  apply (f_equal (fun r => default c r)) in E. cbn in E. subst c. exists (Z.to_nat (len / 4)), b. cbn [fst snd].
  split_and!; [|done|lia|lia|done]. rewrite <- Eb. f_equal. lia.
Qed.

Lemma run_chunks m run c :
  0 <= run_pa run -> 0 <= run_len run -> c ∈ readable_chunks m run -> chunk_of m run c.
Proof. intros ? ? (region & _ & E)%list_elem_of_omap. by eapply region_chunk_ok. Qed.

Lemma locate_ok chunks :
  Forall (fun c : Z * Z * list Z => Z.of_nat (length c.2) <= 2 ^ 60) chunks ->
  exists sites u, locate chunks = Ok (sites, u) /\
    (forall s, s ∈ sites -> exists c e, c ∈ chunks /\ s = site_of c.1.1 c.1.2 e /\ explains c.2 (el_op e) (Some e)) /\
    (forall c op, c ∈ chunks -> ic_ivau_at c.2 op -> guarded c.2 op ->
       exists e, explains c.2 op (Some e) /\ site_of c.1.1 c.1.2 e ∈ sites).
Proof.
  induction 1 as [|c chunks Hc _ IH]; cbn [locate].
  { exists [], 0. split_and!; [done| |]; intros x Hx *; [|intros Hc]; by apply not_elem_of_nil in Hx || by apply not_elem_of_nil in Hc. }
  destruct (find_elisions_ok c.2 c.1.2 Hc) as (els & un & E & Hels & Hall), IH as (sites & u & -> & Hs & Hg).
  unfold chunk_sites. rewrite E. cbn [mbind res_bind_inst fst snd]. rewrite Forall_elem in Hels.
  eexists _, _. split_and!; [done| |].
  - intros s [Hin|Hin]%elem_of_app.
    + apply list_elem_of_fmap in Hin as (e & -> & He). exists c, e. split_and!; [by left|done|by apply Hels].
    + destruct (Hs s Hin) as (c' & e & Hc' & ?). exists c', e. split; [by right|done].
  - intros c' op [->|Hin]%elem_of_cons Hop Hgd; [|destruct (Hg c' op Hin Hop Hgd) as (e & ? & ?)].
    + destruct (Hall op Hop Hgd) as (e & He & <-). exists e. split; [by apply Hels|].
      apply elem_of_app. left. by apply list_elem_of_fmap_2.
    + exists e. split; [done|]. apply elem_of_app. by right.
Qed.

Definition site_ok (m : M) (root start : Z) (s : Site) : Prop :=
  translate m root (s_va s) start = Some (s_pa s) /\
  exists b, pm_bytes m (s_pa s) 8 = Some b /\ site_words s b = true.

Lemma verify_ok m root start sites : verify m root start sites = None <-> Forall (site_ok m root start) sites.
Proof.
  induction sites as [|s sites IH]; cbn [verify]; [by split|]. rewrite list.Forall_cons, <- IH. unfold site_ok.
  case_bool_decide as Et; cbn [negb]; [|split; [done|tauto]].
  destruct (pm_bytes m (s_pa s) 8) as [b|]; cbn [negb]; [|split; [done|intros [(_ & b & [=] & _) _]]].
  destruct (site_words s b) eqn:Ew; cbn [negb].
  - split; [intros Ev; split_and!; [done|by exists b|done]|tauto].
  - split; [done|]. intros [(_ & b' & [= <-] & Eb) _]. congruence.
Qed.

Definition covers (s : Site) (a : Z) : Prop := s_pa s <= a < s_pa s + 8.

(** Each byte of a site is the byte of a [nop], and no other byte changed. *)
Definition nopped (m : M) (sites : list Site) (m' : M) : Prop :=
  forall a,
    ((forall s, s ∈ sites -> ~ covers s a) /\ pm_byte m' a = pm_byte m a) \/
    exists s, s ∈ sites /\ covers s a /\ pm_byte m' a = vget NOP_PAIR (a - s_pa s).

Lemma write_sites_spec sites : forall m d,
  pm_wf m -> Forall (fun s => is_Some (pm_bytes m (s_pa s) 8)) sites ->
  exists m', write_sites m sites d = (d + Z.of_nat (length sites), None, m') /\ pm_wf m' /\ nopped m sites m'.
Proof.
  induction sites as [|s sites IH]; intros m d Hm Hs; cbn [write_sites].
  { exists m. split_and!; [by rewrite Z.add_0_r|done|]. intros a. left. split; [|done].
    intros s Hin. by apply not_elem_of_nil in Hin. }
  inversion_clear Hs as [|? ? [b0 H1] H2]. destruct (pm_write_ok m (s_pa s) NOP_PAIR b0 Hm H1) as [m1 E1].
  rewrite E1. destruct (pm_write_bytes m (s_pa s) NOP_PAIR m1 Hm) as (Hm1 & Hby & Hsome); [repeat constructor; done|done|].
  destruct (IH m1 (d + 1) Hm1) as (m' & -> & Hm' & Hn).
  { eapply list.Forall_impl; [exact H2|]. intros ? Hx. by apply Hsome. }
  exists m'. split_and!; [f_equal; f_equal; cbn [length]; lia|done|]. intros a.
  destruct (Hn a) as [[Hout E]|(s' & Hin & Hc & E)]; [|right; exists s'; split; [by right|done]].
  rewrite E, Hby. change (Z.of_nat (length NOP_PAIR)) with 8.
  destruct (in_range (s_pa s) (s_pa s + 8) a) eqn:Er.
  - right. exists s. split_and!; [by left| |done]. unfold covers. first [by apply in_range_spec in Er|by apply in_range_false in Er].
  - left. split; [|done]. intros s' [->|Hin]%elem_of_cons; [|by apply Hout].
    unfold covers. first [by apply in_range_spec in Er|by apply in_range_false in Er].
Qed.

Lemma chunks_short m runs :
  Forall (fun r => 0 <= run_pa r /\ 0 <= run_len r <= MAX_TEXT_BYTES) runs ->
  Forall (fun c : Z * Z * list Z => Z.of_nat (length c.2) <= 2 ^ 60) (mjoin (readable_chunks m <$> runs)).
Proof.
  intros Hr. apply Forall_elem. intros c (l & Hc & Hl)%list_elem_of_join.
  apply list_elem_of_fmap in Hl as (run & -> & Hrun). rewrite Forall_elem in Hr. destruct (Hr run Hrun) as [Hp Hlen].
  destruct (run_chunks m run c) as (n & b & _ & -> & Hlo & Hend & _); [lia..|done|].
  rewrite length_words_of. change MAX_TEXT_BYTES with 536870912 in Hlen. lia.
Qed.

Lemma decode_tcr_settles tcr : settles (decode_tcr tcr).
Proof. unfold decode_tcr. repeat case_match; done. Qed.

(** The sites a repair wrote, with the registers it went by. *)
Definition repaired (snap : Snapshot) (m : M) (sites : list Site) (m' : M) : Prop :=
  exists tcr ttbr l,
    captured_sysreg snap SYSREG_TCR_EL1 = Agreed tcr /\ captured_sysreg snap SYSREG_TTBR1_EL1 = Agreed ttbr /\
    decode_tcr tcr = Ok l /\
    Forall (site_ok m (ttbr_base ttbr) (start_level l)) sites /\ nopped m sites m'.

(** The last two stages on located sites. *)
Lemma write_verified m root start sites :
  pm_wf m -> Forall (site_ok m root start) sites ->
  exists m', write_sites m sites 0 = (Z.of_nat (length sites), None, m') /\ pm_wf m' /\ nopped m sites m'.
Proof.
  intros Hm Hs. apply (write_sites_spec sites m 0 Hm). eapply list.Forall_impl; [exact Hs|].
  intros s (_ & b & -> & _). by eexists.
Qed.

(** C20: the repair is all or nothing: it always comes to an answer, no write ever
    fails half way, and it either leaves memory as it is or has turned exactly the
    two words of each of its sites into [nop]s, each site having been checked to
    translate to where it is written and to hold the guard it replaces. *)
Theorem repair_all_or_nothing fuel m snap host_ctr :
  pm_wf m -> walk_fuel fuel snap ->
  exists rep m', revert_dic_elision fuel m snap host_ctr = (Ok rep, m') /\ pm_wf m' /\
    match rep with
    | NotElided => m' = m /\ snapshot_elides_ic_ivau snap = false
    | Declined _ => m' = m
    | Reverted n _ => exists sites, sites <> [] /\ n = Z.of_nat (length sites) /\ repaired snap m sites m'
    end.
Proof.
  intros Hm Hf. unfold revert_dic_elision, snapshot_elides_ic_ivau.
  destruct (captured_sysreg snap CTR_EL0) as [| |ctr]; [by eexists _, _..|].
  destruct (Z.eqb_spec (Z.land ctr CTR_DIC) 0); [by eexists _, _|].
  destruct (idc_elision_is_sound_here snap host_ctr); [|by eexists _, _..].
  destruct (captured_sysreg snap SYSREG_TCR_EL1) as [| |tcr] eqn:Etcr; [by eexists _, _..|].
  destruct (captured_sysreg snap SYSREG_TTBR1_EL1) as [| |ttbr] eqn:Ettbr; [by eexists _, _..|].
  pose proof (decode_tcr_settles tcr) as Hd. destruct (decode_tcr tcr) as [l|r| |] eqn:El; [|by eexists _, _|done..].
  pose proof (executable_runs_ends fuel m snap tcr l (ttbr_base ttbr) Hf Etcr El) as He. cbn zeta.
  destruct (executable_runs _ _ _ _ _) as [runs|r| |] eqn:Er; [|by eexists _, _|done..].
  destruct (locate_ok _ (chunks_short m runs (runs_text _ _ _ _ _ _ Er))) as (sites & u & Elo & _). rewrite Elo.
  destruct runs as [|run runs]; [by eexists _, _|]. destruct sites as [|s sites]; [by eexists _, _|].
  destruct (verify m (ttbr_base ttbr) (start_level l) (s :: sites)) eqn:Ev; [by eexists _, _|].
  apply verify_ok in Ev. destruct (write_verified m _ _ _ Hm Ev) as (m' & -> & Hm' & Hn).
  eexists _, _. split_and!; [done|done|]. exists (s :: sites). split_and!; [done..|]. by exists tcr, ttbr, l.
Qed.

Lemma decode_b_some w addr : is_b w = true -> is_Some (decode_b w addr).
Proof. unfold decode_b, is_b. intros E. rewrite E. by eexists. Qed.

(** The two words at a located site. *)
Lemma elision_words words op e :
  explains words op (Some e) ->
  exists w, vget words (el_repair e) = Some ISB /\ vget words (el_repair e + 1) = Some w /\
    match el_shape e with Branch => is_b w = true | EarlyReturn => w = RET end.
Proof.
  intros [_ He]. destruct (el_shape e).
  - destruct He as [_ (H1 & w & H2 & H3 & _)]. by exists w.
  - destruct He as [_ (_ & H1 & H2 & _)]. exists RET.
    replace (el_repair e - 1 + 1) with (el_repair e) in H1 by lia.
    replace (el_repair e - 1 + 2) with (el_repair e + 1) in H2 by lia. done.
Qed.

(** What the walk and the locator found passes both checks. *)
Lemma located_site_ok m root start run c op e :
  pm_wf m -> run_ok m root start run -> chunk_of m run c -> explains c.2 op (Some e) ->
  site_ok m root start (site_of c.1.1 c.1.2 e).
Proof.
  intros Hm (Hva & Hpa & Hlen & Hend & Htr) (n & b & Hb & Ec & Hlo & Hhi & Eva) He.
  destruct (elision_words _ _ _ He) as (w & H1 & H2 & Hw). rewrite Ec in H1, H2.
  apply vget_Some in H1 as [Hj1 H1], H2 as [Hj2 H2]. rewrite length_words_of in Hj1, Hj2.
  set (j := el_repair e) in *. rewrite lookup_words_of in H1, H2 by lia.
  unfold site_ok, site_of. fold j. cbn [s_va s_pa]. rewrite Eva.
  assert (u64 (c.1.1 + j * 4) = c.1.1 + j * 4) as -> by (unfold u64; apply Z.mod_small; lia).
  assert (u64 (u64 (run_va run + (c.1.1 - run_pa run)) + j * 4) = u64 (run_va run + (c.1.1 - run_pa run + j * 4))) as ->.
  { unfold u64. rewrite Z.add_mod_idemp_l by lia. f_equal. lia. }
  split; [rewrite Htr by lia; f_equal; lia|].
  pose proof (pm_bytes_sub m c.1.1 (4 * n) b (4 * Z.to_nat j) 8 Hm Hb ltac:(lia) ltac:(lia)) as Hs.
  replace (c.1.1 + Z.of_nat (4 * Z.to_nat j)) with (c.1.1 + j * 4) in Hs by lia. eexists. split; [exact Hs|].
  unfold site_words. cbn [s_va s_shape]. rewrite take_take. change (4 `min` 8)%nat with 4%nat.
  change 8%nat with (4 + 4)%nat. rewrite <- take_drop_commute, take_take, drop_drop. change (4 `min` 4)%nat with 4%nat.
  replace (Z.to_nat (j + 1)) with (Z.to_nat j + 1)%nat in H2 by lia.
  replace (4 * (Z.to_nat j + 1))%nat with (4 * Z.to_nat j + 4)%nat in H2 by lia.
  apply (f_equal (default 0)) in H1, H2. unfold default, id in H1, H2. cbn [from_option] in H1, H2. rewrite H1, H2, Z.eqb_refl. cbn [andb].
  destruct (el_shape e); [apply bool_decide_eq_true; by apply decode_b_some|by apply Z.eqb_eq].
Qed.

(** The words the repair searches. *)
Definition kernel_chunks (m : M) (runs : list Run) : list (Z * Z * list Z) := mjoin (readable_chunks m <$> runs).

(** Both checks pass on all that is located, in a layout whose first table is full. *)
Lemma located_verify m root start runs sites :
  pm_wf m -> Forall (run_ok m root start) runs ->
  (forall s, s ∈ sites -> exists c e, c ∈ kernel_chunks m runs /\ s = site_of c.1.1 c.1.2 e /\
     explains c.2 (el_op e) (Some e)) ->
  verify m root start sites = None.
Proof.
  intros Hm Hr Hs. apply verify_ok, Forall_elem. intros s Hin. destruct (Hs s Hin) as (c & e & Hc & -> & He).
  apply list_elem_of_join in Hc as (l & Hc & Hl). apply list_elem_of_fmap in Hl as (run & -> & Hrun).
  rewrite Forall_elem in Hr. pose proof (Hr run Hrun) as Hok. pose proof Hok as (_ & Hp & Hlen & _).
  eapply located_site_ok; [done..| |done]. apply run_chunks; [lia..|done].
Qed.

(** C17: no elision in the kernel's text is left in place: when the capture elides, its
    registers can be read, its layout fills its first table and the text the walk
    finds holds one guarded [ic ivau], the repair is done, and every guarded
    [ic ivau] in that text has a guard among the sites written over. *)
Theorem guarded_ops_reverted fuel m snap host_ctr tcr ttbr l runs c0 op0 :
  pm_wf m -> snapshot_elides_ic_ivau snap = true -> idc_elision_is_sound_here snap host_ctr = LeaveAlone ->
  captured_sysreg snap SYSREG_TCR_EL1 = Agreed tcr -> captured_sysreg snap SYSREG_TTBR1_EL1 = Agreed ttbr ->
  decode_tcr tcr = Ok l -> 16 <= t1sz tcr <= 51 -> va_bits l = full_bits (start_level l) ->
  executable_runs fuel m (ttbr_base ttbr) (va_bits l) (start_level l) = Ok runs ->
  c0 ∈ kernel_chunks m runs -> ic_ivau_at c0.2 op0 -> guarded c0.2 op0 ->
  exists sites u m', revert_dic_elision fuel m snap host_ctr = (Ok (Reverted (Z.of_nat (length sites)) u), m') /\
    nopped m sites m' /\
    forall c op, c ∈ kernel_chunks m runs -> ic_ivau_at c.2 op -> guarded c.2 op ->
      exists e, explains c.2 op (Some e) /\ site_of c.1.1 c.1.2 e ∈ sites.
Proof.
  intros Hm Hel Hidc Htcr Httbr Hl Ht Hvb Hr Hc0 Hop0 Hg0.
  destruct (decode_tcr_levels tcr l Hl Ht) as (_ & Hs & _).
  destruct (locate_ok _ (chunks_short m runs (runs_text _ _ _ _ _ _ Hr))) as (sites & u & Elo & Hsites & Hall).
  destruct (Hall c0 op0 Hc0 Hop0 Hg0) as (e0 & _ & He0).
  assert (verify m (ttbr_base ttbr) (start_level l) sites = None) as Hv.
  { apply (located_verify m _ _ runs); [done| |done]. rewrite Hvb in Hr. by eapply walk_runs_ok. }
  pose proof Hv as Hok. apply verify_ok in Hok. destruct (write_verified m _ _ _ Hm Hok) as (m' & Ew & Hm' & Hn).
  exists sites, u, m'. split_and!; [|done|done]. unfold revert_dic_elision, snapshot_elides_ic_ivau in *.
  destruct (captured_sysreg snap CTR_EL0) as [| |ctr]; [done..|]. apply negb_true_iff in Hel. rewrite Hel, Hidc, Htcr, Httbr, Hl.
  cbn zeta. rewrite Hr, Elo, Hv, Ew. destruct runs as [|run runs]; [by apply not_elem_of_nil in Hc0|].
  destruct sites; [by apply not_elem_of_nil in He0|done].
Qed.
End RepairSpec.

(** Every address of a run translates, one by one, to the address the run gives,
    in a layout whose first table is full; no run reaches past the physical
    address space. *)
Theorem runs_translate {M} `{PhysMem M} fuel (m : M) root start runs r o :
  0 <= start <= 3 -> executable_runs fuel m root (full_bits start) start = Ok runs ->
  r ∈ runs -> 0 <= o < run_len r ->
  translate m root (u64 (run_va r + o)) start = Some (run_pa r + o) /\ 0 <= run_pa r + o < 2 ^ 48.
Proof.
  intros Hs E Hr Ho. apply walk_runs_ok in E; [|done]. rewrite Forall_elem in E.
  destruct (E r Hr) as (_ & Hp & _ & Hend & Ht). split; [by apply Ht|lia].
Qed.

(** A kernel of one page: its table at 0x1000 maps 0xffffffffffe03000 to the text at 0x2000. *)
Definition dic_mem : GuestMemory :=
  poke (mkMem [mkRegion 0x1000 0x7f0000 0x2000] ∅)
    [(0x1018, le_bytes 8 0x2003); (0x2100, mjoin (le_bytes 4 <$> demo_text))].

Definition dic_snap : Snapshot :=
  [[(CTR_EL0, CTR_DIC + CTR_IDC); (SYSREG_TCR_EL1, Z.shiftl 43 16 + Z.shiftl 2 30); (SYSREG_TTBR1_EL1, 0x1000)]].

Lemma dic_mem_wf : pm_wf dic_mem.
Proof. change (mem_wf dic_mem). apply poke_wf; [|done]. split; [|apply map_Forall_empty]. repeat constructor; cbn; lia. Qed.

Lemma dic_snap_t1sz tcr : captured_sysreg dic_snap SYSREG_TCR_EL1 = Agreed tcr -> 16 <= t1sz tcr <= 51.
Proof. intros E. assert (tcr = Z.shiftl 43 16 + Z.shiftl 2 30) as -> by (by vm_compute in E; injection E as <-). by vm_compute. Qed.

Definition dic_runs : list Run := [mkRun 0x3000 0x2000 0x1000].

Lemma dic_runs_ok : executable_runs 4 dic_mem 0x1000 21 3 = Ok dic_runs.
Proof. by vm_compute. Qed.

Lemma runs_translate_witness :
  translate dic_mem 0x1000 0x3104 3 = Some 0x2104.
Proof. refine (proj1 (runs_translate 4 dic_mem 0x1000 3 dic_runs (mkRun 0x3000 0x2000 0x1000) 0x104 _ dic_runs_ok _ _)); [lia|by left|done]. Defined.

Lemma repair_all_or_nothing_witness :
  exists rep m', revert_dic_elision 4 dic_mem dic_snap HOST_CTR_EL0 = (Ok rep, m') /\ mem_wf m'.
Proof.
  destruct (repair_all_or_nothing 4 dic_mem dic_snap HOST_CTR_EL0 dic_mem_wf) as (rep & m' & E & Hm' & _).
  { right. split; [lia|exact dic_snap_t1sz]. }
  exists rep, m'. exact (conj E Hm').
Defined.

Lemma guarded_ops_reverted_witness :
  exists sites u m', revert_dic_elision 4 dic_mem dic_snap HOST_CTR_EL0 = (Ok (Reverted (Z.of_nat (length sites)) u), m') /\
    nopped dic_mem sites m'.
Proof.
  set (c := default (0, 0, []) (head (kernel_chunks dic_mem dic_runs))).
  destruct (guarded_ops_reverted 4 dic_mem dic_snap HOST_CTR_EL0 (Z.shiftl 43 16 + Z.shiftl 2 30) 0x1000
    (mkLayout 21 4096 3) dic_runs c (64 + 3)) as (sites & u & m' & E & Hn & _);
    [exact dic_mem_wf|by vm_compute..|exact dic_runs_ok| | | |exists sites, u, m'; exact (conj E Hn)].
  - exact (list_elem_of_here c []).
  - exists IC_IVAU. split; vm_compute; reflexivity.
  - exists (64 + 1). split; [split; vm_compute; done|]. left. split; [vm_compute; reflexivity|].
    exists (B_OPC + 4). split_and!; vm_compute; reflexivity.
Defined.

(** ** Layouts the decoder does not refuse *)

Definition tcr_4k (t1sz : Z) : Z := Z.shiftl t1sz 16 + Z.shiftl 2 30.

(** The start level is outside [0..=3] for the sizes no 48-bit layout has. *)
Lemma start_level_out_of_range t1sz :
  0 <= t1sz < 16 \/ 52 < t1sz < 64 ->
  match decode_tcr (tcr_4k t1sz) with Ok l => 3 < start_level l | _ => False end.
Proof.
  intros Ht. assert (t1sz ∈ seqZ 0 16 ++ seqZ 53 11) as Hin by (rewrite elem_of_app, !elem_of_seqZ; lia).
  pose (f t := match decode_tcr (tcr_4k t) with Ok l => 3 <? start_level l | _ => false end).
  assert (forallb f (seqZ 0 16 ++ seqZ 53 11) = true) as Hf by (by vm_compute).
  rewrite forallb_forall in Hf. apply list_elem_of_In, Hf in Hin. subst f. cbv beta in Hin.
  destruct (decode_tcr _); [by apply Z.ltb_lt|done..].
Qed.

(** A table that points at itself is descended again and again, as deep as the
    budget allows, until the level counter comes to 3. *)
Lemma cyclic_descent {M} `{PhysMem M} (m : M) vbits table desc fuel : forall lvl base w,
  u64_at m (u64 table) = Some desc -> Z.land desc 3 = 3 -> Z.land desc OUT_ADDR_MASK = table ->
  (forall k, 0 <= k < Z.of_nat fuel -> u32 (lvl + k) <> 3) -> 0 <= lvl < 2 ^ 32 -> Z.of_nat fuel <= w_budget w ->
  descend fuel m vbits table lvl base w = NoFuel.
Proof.
  induction fuel as [|fuel IH]; intros lvl base w Hd H3 Ht Hk Hl Hw; [done|]. cbn [descend].
  rewrite (proj2 (Z.eqb_neq (w_budget w) 0)) by lia. change 512%nat with (S 511).
  generalize 511%nat as n. intros n. cbn [entries].
  rewrite Z.mul_0_l, Z.add_0_r, Hd, H3, Ht. cbn zeta. change (3 =? 0) with false. change (3 =? 1) with false.
  assert (lvl <> 3) as Hne.
  { intros ->. apply (Hk 0); [lia|]. done. }
  rewrite (proj2 (Z.eqb_neq lvl 3) Hne). cbn [orb negb]. rewrite IH; [done..| | |cbn; lia].
  - intros k Hk'. unfold u32. rewrite Z.add_mod_idemp_l by lia.
    replace (lvl + 1 + k) with (lvl + (k + 1)) by lia. apply Hk. lia.
  - unfold u32. apply Z.mod_pos_bound. lia.
Qed.

(** The comment on the budget has a cycle end four levels down. With [T1SZ = 60]
    the start level wraps, and a table that points at itself is descended to the
    full depth of the budget. *)
Lemma cycle_outlives_four_levels {M} `{PhysMem M} (m : M) table desc fuel l :
  decode_tcr (tcr_4k 60) = Ok l ->
  u64_at m (u64 table) = Some desc -> Z.land desc 3 = 3 -> Z.land desc OUT_ADDR_MASK = table ->
  Z.of_nat fuel <= MAX_TABLES ->
  executable_runs fuel m table (va_bits l) (start_level l) = NoFuel.
Proof.
  intros El Hd H3 Ht Hf. unfold executable_runs.
  assert (start_level l = 3817748712) as -> by (vm_compute in El; by injection El as <-).
  rewrite (cyclic_descent m _ table desc fuel _ _ _ Hd H3 Ht); [done| |lia|exact Hf]. intros k Hk. unfold u32, MAX_TABLES in *.
  rewrite Z.mod_small; lia.
Qed.

(** Two operations under one guard count as two sites. *)
Lemma shared_guard_counted_twice :
  find_elisions [ISB; B_OPC + 4; IC_IVAU; IC_IVAU; NOP] 0x1000 =
    Ok ([mkElision 0 2 Branch; mkElision 0 3 Branch], []).
Proof. by vm_compute. Qed.
