(* ===== verification/HttpProxy.v ===== *)
(** * The credential proxy's request path

    [src/chm/src/credproxy/http.rs] and the injector and pump of
    [src/chm/src/credproxy/server.rs]: the guest's plaintext is split into HTTP/1.1
    requests, each head is written out again with the rule's credential in place of
    the guest's own header, and bodies go through unchanged. Buffers are lists of
    bytes, texts are lists of scalar values as in [Text]. The text of errors, time
    stamps and TLS itself are left out; the connection to the origin is the bytes
    written to it and whether its handshake is over. *)

From Stdlib Require Import ZArith Lia Bool.
From stdpp Require Import base numbers list list_numbers option.
From S2P Require Import Prelude Text Dns Utf8.

Definition MAX_HEAD : Z := 64 * 1024.

Definition CR : Z := 13.
Definition LF : Z := 10.
Definition crlf : list Z := [CR; LF].

Inductive Malformation :=
| HeadTooLong | NotUtf8 | EmptyRequest | BadRequestLine | TrailingContent | BadVersion | LineFolding
| NoColon | BadHeaderName | BothFramings | ManyTransferEncodings | BadTransferEncoding | BadContentLength
| ConflictingLengths | BadSizeLine | BadSizeByte | SizeTooLong | NoSizeDigits | NoChunkCrLf.

Inductive ParseError := Incomplete | Malformed (why : Malformation).

(** ** Text *)

(** [split("\r\n")]. *)
Fixpoint split_crlf (s : str) : list str :=
  match s with
  | [] => [[]]
  | c :: s1 =>
      let more := match split_crlf s1 with [] => [[c]] | w :: ws => (c :: w) :: ws end in
      match s1 with
      | d :: s2 => if (c =? CR) && (d =? LF) then [] :: split_crlf s2 else more
      | [] => more
      end
  end.

(** [str::parse::<u64>]. *)
Definition parse_u64 (s : str) : option Z :=
  let ds := match strip_prefix [43] s with Some ds => ds | None => s end in
  if (match ds with [] => false | _ => true end) && forallb is_digit ds && (digits_val ds <? 2 ^ 64)
  then Some (digits_val ds) else None.

(** ** Request heads *)

Record RequestHead := mkHead {
  h_method : str;
  h_target : str;
  h_version : str;
  h_headers : list (str * str);
  h_len : nat;
}.

(** Offset just past the first blank line. *)
Fixpoint find_head_end (buf : list Z) : option nat :=
  match buf with
  | [] => None
  | _ :: rest => if bool_decide (take 4 buf = crlf ++ crlf) then Some 4%nat else S <$> find_head_end rest
  end.

Definition blank (c : Z) : bool := (c =? 32) || (c =? 9).

(** The loop over the header lines. *)
Fixpoint parse_headers (lines : list str) : res ParseError (list (str * str)) :=
  match lines with
  | [] => Ok []
  | line :: lines =>
      match line with
      | [] => Ok []
      | c :: _ =>
          if blank c then Err (Malformed LineFolding)
          else
            match split_once 58 line with
            | None => Err (Malformed NoColon)
            | Some (name, value) =>
                if (match name with [] => true | _ => false end) || existsb blank name
                then Err (Malformed BadHeaderName)
                else rest ← parse_headers lines; Ok ((name, trim value) :: rest)
            end
      end
  end.

(** [RequestHead::parse] from the decoded text of the head on. *)
Definition parse_text (text : str) (end_ : nat) : res ParseError RequestHead :=
  match split_crlf text with
  | [] => Err (Malformed EmptyRequest)
  | request_line :: lines =>
      match split 32 request_line with
      | method :: target :: version :: more =>
          match more with
          | _ :: _ => Err (Malformed TrailingContent)
          | [] =>
              match strip_prefix (lit "HTTP/1.") version with
              | None => Err (Malformed BadVersion)
              | Some _ => headers ← parse_headers lines; Ok (mkHead method target version headers end_)
              end
          end
      | _ => Err (Malformed BadRequestLine)
      end
  end.

Definition parse (buf : list Z) : res ParseError RequestHead :=
  match find_head_end buf with
  | None => if MAX_HEAD <? Z.of_nat (length buf) then Err (Malformed HeadTooLong) else Err Incomplete
  | Some end_ =>
      if MAX_HEAD <? Z.of_nat end_ then Err (Malformed HeadTooLong)
      else
        match from_utf8 (take end_ buf) with
        | None => Err (Malformed NotUtf8)
        | Some text => parse_text text end_
        end
  end.

(** [RequestHead::header]. *)
Definition header (name : str) (h : RequestHead) : option str :=
  snd <$> find (fun '(n, _) => eq_ignore_ascii_case n name) (h_headers h).

Inductive BodyMode := BodyEmpty | BodyLength (n : Z) | BodyChunked.

Definition values_of (name : str) (headers : list (str * str)) : list str :=
  snd <$> List.filter (fun '(n, _) => eq_ignore_ascii_case n name) headers.

Definition body_mode (headers : list (str * str)) : res ParseError BodyMode :=
  match values_of (lit "transfer-encoding") headers, values_of (lit "content-length") headers with
  | _ :: _, _ :: _ => Err (Malformed BothFramings)
  | [te], [] =>
      if eq_ignore_ascii_case (trim (default [] (list.last (split 44 te)))) (lit "chunked")
      then Ok BodyChunked else Err (Malformed BadTransferEncoding)
  | _ :: _ :: _, [] => Err (Malformed ManyTransferEncodings)
  | [], (first :: _) as lengths =>
      match parse_u64 (trim first) with
      | None => Err (Malformed BadContentLength)
      | Some parsed =>
          if existsb (fun v => negb (bool_decide (parse_u64 (trim v) = Some parsed))) lengths
          then Err (Malformed ConflictingLengths) else Ok (BodyLength parsed)
      end
  | [], [] => Ok BodyEmpty
  end.

Definition header_line (nv : str * str) : str := nv.1 ++ lit ": " ++ nv.2 ++ crlf.

(** The text [render_with] builds. *)
Definition render_text (overrides : list (str * str)) (h : RequestHead) : str :=
  h_method h ++ lit " " ++ h_target h ++ lit " " ++ h_version h ++ crlf ++
  concat (header_line <$>
    List.filter (fun '(name, _) => negb (existsb (fun '(n, _) => eq_ignore_ascii_case n name) overrides)) (h_headers h)) ++
  concat (header_line <$> overrides) ++ crlf.

Definition render_with (overrides : list (str * str)) (h : RequestHead) : list Z := as_bytes (render_text overrides h).

(** ** Chunked bodies *)

Inductive ChunkState :=
| Size
| Data (remaining : Z)
| DataCrLf (seen : Z)
| Trailer (blank_ : bool) (column : Z)
| Done.

#[export] Instance ChunkState_eq_dec : EqDecision ChunkState.
Proof. solve_decision. Defined.

Definition hex_digit (b : Z) : option Z :=
  if in_range 48 58 b then Some (b - 48)
  else if in_range 97 103 b then Some (b - 97 + 10)
  else if in_range 65 71 b then Some (b - 65 + 10)
  else None.

Inductive SizeLine := SizeMore | SizeBad (why : Malformation) | SizeDone (acc digits : Z) (n : nat).

(** The scan of a size line; [n] bytes of it are behind. *)
Fixpoint size_line (rest : list Z) (acc digits : Z) (in_extension : bool) (n : nat) : SizeLine :=
  match rest with
  | [] => SizeMore
  | b :: rest =>
      if b =? CR then
        match rest with
        | [] => SizeMore
        | b1 :: _ => if negb (b1 =? LF) then SizeBad BadSizeLine else SizeDone acc digits (n + 2)
        end
      else if b =? 59 then size_line rest acc digits true (S n)
      else if in_extension then size_line rest acc digits true (S n)
      else
        match hex_digit b with
        | None => SizeBad BadSizeByte
        | Some d =>
            if 16 <? digits + 1 then SizeBad SizeTooLong
            else size_line rest (Z.lor (u64 (Z.shiftl acc 4)) d) (digits + 1) false (S n)
        end
  end.

(** The state after a complete size line. *)
Definition after_size (acc : Z) : ChunkState := if acc =? 0 then Trailer true 0 else Data acc.

(** The state after one byte of the trailer. *)
Definition trailer_byte (b : Z) (blank_ : bool) (column : Z) : ChunkState :=
  if b =? LF then if blank_ && (column =? 0) then Done else Trailer true 0
  else if b =? CR then Trailer blank_ column
  else Trailer false (column + 1).

(** [ChunkedScanner::consume] from [rest] on: the bytes consumed and the state. *)
Fixpoint consume_loop (fuel : nat) (st : ChunkState) (rest : list Z) : res ParseError (nat * ChunkState) :=
  match fuel with
  | O => NoFuel
  | S fuel =>
      let go (n : nat) (st : ChunkState) :=
        r ← consume_loop fuel st (drop n rest); Ok ((n + r.1)%nat, r.2) in
      match rest with
      | [] => Ok (O, st)
      | b :: _ =>
          match st with
          | Done => Ok (O, st)
          | Size =>
              match size_line rest 0 0 false O with
              | SizeMore => Ok (O, st)
              | SizeBad why => Err (Malformed why)
              | SizeDone acc digits n => if digits =? 0 then Err (Malformed NoSizeDigits) else go n (after_size acc)
              end
          | Data remaining =>
              let take_ := Z.min remaining (Z.of_nat (length rest)) in
              go (Z.to_nat take_) (if remaining - take_ =? 0 then DataCrLf 0 else Data (remaining - take_))
          | DataCrLf seen =>
              if negb (b =? (if seen =? 0 then CR else LF)) then Err (Malformed NoChunkCrLf)
              else go 1%nat (if seen =? 0 then DataCrLf 1 else Size)
          | Trailer blank_ column => go 1%nat (trailer_byte b blank_ column)
          end
      end
  end.

(** Every pass but one from an exhausted [Data] consumes a byte. *)
Definition consume (st : ChunkState) (buf : list Z) : res ParseError (nat * ChunkState) :=
  consume_loop (2 * length buf + 2) st buf.

(** ** The injector *)

Inductive Phase := PHead | PBody (mode : BodyMode).

Record AuditEvent := mkAudit {
  au_destination : str;
  au_rule : option str;
  au_detail : str;
  au_injected : bool;
}.

Record Injector := mkInj {
  i_header : str;
  i_value : str;
  i_rule : str;
  i_destination : str;
  i_expected_host : option str;
  i_phase : Phase;
  i_chunked : ChunkState;
}.

Definition set_phase (p : Phase) (c : ChunkState) (j : Injector) : Injector :=
  mkInj (i_header j) (i_value j) (i_rule j) (i_destination j) (i_expected_host j) p c.

(** What the request says of its host. *)
Definition claimed_host (h : RequestHead) : option str :=
  (fun v => to_ascii_lowercase (default v (list.head (split 58 v)))) <$> header (lit "host") h.

Definition injection_event (j : Injector) (h : RequestHead) : AuditEvent :=
  let mismatch :=
    match i_expected_host j, claimed_host h with
    | Some expected, Some claimed =>
        if str_eqb expected claimed then [] else lit " [Host claims " ++ claimed ++ lit "]"
    | _, _ => []
    end in
  mkAudit (i_destination j) (Some (i_rule j))
    (h_method h ++ lit " " ++ h_target h ++ [32; 8212; 32] ++ i_header j ++ lit " attached" ++ mismatch) true.

(** What a run of [process] leaves: its result, what it appended to [out], what it
    recorded, and the injector. *)
Record Outcome := mkOutcome {
  o_res : res ParseError nat;
  o_out : list Z;
  o_events : list AuditEvent;
  o_inj : Injector;
}.

Definition stop (r : res ParseError nat) (j : Injector) : Outcome := mkOutcome r [] [] j.

Definition then_ (n : nat) (out : list Z) (events : list AuditEvent) (o : Outcome) : Outcome :=
  mkOutcome (r ← o_res o; Ok (n + r)%nat) (out ++ o_out o) (events ++ o_events o) (o_inj o).

(** [Injector::process] on the [rest] of the buffer. *)
Fixpoint process_loop (fuel : nat) (j : Injector) (rest : list Z) : Outcome :=
  match fuel with
  | O => stop NoFuel j
  | S fuel =>
      match rest with
      | [] => stop (Ok O) j
      | _ =>
          match i_phase j with
          | PHead =>
              match parse rest with
              | Ok head =>
                  match body_mode (h_headers head) with
                  | Ok mode =>
                      then_ (h_len head) (render_with [(i_header j, i_value j)] head) [injection_event j head]
                        (process_loop fuel
                           (set_phase (match mode with BodyEmpty => PHead | other => PBody other end) Size j)
                           (drop (h_len head) rest))
                  | Err e => stop (Err e) j
                  | Panic => stop Panic j
                  | NoFuel => stop NoFuel j
                  end
              | Err Incomplete => stop (Ok O) j
              | Err e => stop (Err e) j
              | Panic => stop Panic j
              | NoFuel => stop NoFuel j
              end
          | PBody (BodyLength remaining) =>
              let take_ := Z.min remaining (Z.of_nat (length rest)) in
              let left := remaining - take_ in
              then_ (Z.to_nat take_) (take (Z.to_nat take_) rest) []
                (process_loop fuel
                   (set_phase (if left =? 0 then PHead else PBody (BodyLength left)) (i_chunked j) j)
                   (drop (Z.to_nat take_) rest))
          | PBody BodyChunked =>
              match consume (i_chunked j) rest with
              | Ok (consumed, st) =>
                  let j := set_phase (if bool_decide (st = Done) then PHead else PBody BodyChunked) st j in
                  if negb (bool_decide (st = Done)) && (consumed =? 0)%nat then stop (Ok O) j
                  else then_ consumed (take consumed rest) [] (process_loop fuel j (drop consumed rest))
              | Err e => stop (Err e) j
              | Panic => stop Panic j
              | NoFuel => stop NoFuel j
              end
          | PBody BodyEmpty => process_loop fuel (set_phase PHead (i_chunked j) j) rest
          end
      end
  end.

(** Every pass consumes a byte or leaves a body. *)
Definition process (j : Injector) (buf : list Z) : Outcome := process_loop (2 * length buf + 2) j buf.

(** ** The pump *)

(** The connection to the origin: whether its socket is open, whether its handshake
    is running, the bytes written to it, the copy kept for a retry, and two flags. *)
Record Upstream := mkUp {
  up_dialled : bool;
  up_handshaking : bool;
  up_stream : list Z;
  up_unsent : list Z;
  up_retried : bool;
  up_logged : bool;
  up_closed : bool;
}.

Record Pump := mkPump { p_pending : list Z; p_inj : Injector; p_up : Upstream; p_events : list AuditEvent }.

Definition pump_start (j : Injector) : Pump := mkPump [] j (mkUp false true [] [] false false false) [].

Inductive PumpError := BadRequest (e : ParseError) | TooMuchPending | DialFailed | OriginFailed.

(** A record of the pump's own. *)
Definition note (detail : str) (p : Pump) : list AuditEvent :=
  p_events p ++ [mkAudit (i_destination (p_inj p)) (Some (i_rule (p_inj p))) detail false].

(** [dial_upstream] and the write of rewritten bytes; [dial] is whether the host
    connects. *)
Definition write_up (dial : bool) (bs : list Z) (u : Upstream) : option Upstream :=
  if up_dialled u || dial then
    Some (mkUp true (up_handshaking u) (up_stream u ++ bs)
            (if up_handshaking u then up_unsent u ++ bs else up_unsent u) (up_retried u) (up_logged u) (up_closed u))
  else None.

(** [redial_once]: a new connection carries the bytes kept. *)
Definition redial_once (dial : bool) (p : Pump) : res PumpError (bool * Pump) :=
  let u := p_up p in
  if up_retried u || negb (up_handshaking u) then Ok (false, p)
  else if dial then
    Ok (true, mkPump (p_pending p) (p_inj p) (mkUp true true (up_unsent u) (up_unsent u) true (up_logged u) (up_closed u))
                (note (lit "origin closed before the request was sent; redialled once") p))
  else Err DialFailed.

Definition note_upstream_version (version : str) (p : Pump) : Pump :=
  let u := p_up p in
  if up_logged u || up_handshaking u then p
  else mkPump (p_pending p) (p_inj p)
         (mkUp (up_dialled u) (up_handshaking u) (up_stream u) [] (up_retried u) true (up_closed u))
         (note (lit "upstream TLS " ++ version) p).

(** What the loop of [Pump::run] meets: plaintext of the guest; packets of the
    origin, with the version when the handshake is over after them; the end of the
    origin's connection, an orderly one or a reset. *)
Inductive PumpEvent :=
| GuestData (data : list Z) (dial : bool)
| OriginBytes (finished : option str)
| OriginGone (reset dial : bool).

Definition feed (data : list Z) (dial : bool) (p : Pump) : res PumpError Pump :=
  let pending := p_pending p ++ data in
  match pending with
  | [] => Ok p
  | _ =>
      let o := process (p_inj p) pending in
      match o_res o with
      | Ok used =>
          match (match o_out o with [] => Some (p_up p) | out => write_up dial out (p_up p) end) with
          | None => Err DialFailed
          | Some up =>
              if MAX_HEAD * 4 <? Z.of_nat (length (drop used pending)) then Err TooMuchPending
              else Ok (mkPump (drop used pending) (o_inj o) up (p_events p ++ o_events o))
          end
      | Err e => Err (BadRequest e)
      | Panic => Panic
      | NoFuel => NoFuel
      end
  end.

(** One event, with the connection it abandons: whether that was still in its
    handshake, and the bytes written to it. *)
Definition pump_event (e : PumpEvent) (p : Pump) : res PumpError (option (bool * list Z) * Pump) :=
  match e with
  | GuestData data dial => p ← feed data dial p; Ok (None, p)
  | OriginBytes finished =>
      let u := p_up p in
      if negb (up_dialled u) || up_closed u then Ok (None, p)
      else
        let over := match finished with Some _ => true | None => false end in
        let u := mkUp true (up_handshaking u && negb over) (up_stream u) (up_unsent u) (up_retried u)
                   (up_logged u) (up_closed u) in
        Ok (None, note_upstream_version (default [] finished) (mkPump (p_pending p) (p_inj p) u (p_events p)))
  | OriginGone reset dial =>
      let u := p_up p in
      if negb (up_dialled u) || up_closed u then Ok (None, p)
      else
        r ← redial_once dial p;
        if r.1 : bool then Ok (Some (up_handshaking u, up_stream u), r.2)
        else if reset then Err OriginFailed
        else
          Ok (None, mkPump (p_pending p) (p_inj p)
                      (mkUp (up_dialled u) (up_handshaking u) (up_stream u) (up_unsent u) (up_retried u) (up_logged u) true)
                      (p_events p))
  end.

Fixpoint pump_run (es : list PumpEvent) (p : Pump) : res PumpError (list (bool * list Z) * Pump) :=
  match es with
  | [] => Ok ([], p)
  | e :: es =>
      r ← pump_event e p;
      rest ← pump_run es r.2;
      Ok (option_list r.1 ++ rest.1, rest.2)
  end.

(** ** The scanner *)

Lemma size_line_range rest : forall acc d ext n acc' d' n',
  size_line rest acc d ext n = SizeDone acc' d' n' -> (n + 2 <= n' <= n + length rest)%nat.
Proof.
  induction rest as [|b rest IH]; intros acc d ext n acc' d' n' E; cbn [size_line] in E; [done|]. cbn [length].
  destruct (b =? CR).
  { destruct rest as [|b1 rest]; [done|]. destruct (negb (b1 =? LF)); [done|]. injection E as _ _ <-. cbn [length]. lia. }
  destruct (b =? 59); [apply IH in E; lia|]. destruct ext; [apply IH in E; lia|].
  destruct (hex_digit b); [|done]. destruct (16 <? d + 1); [done|]. apply IH in E. lia.
Qed.

Lemma size_line_app rest b : forall acc d ext n,
  size_line rest acc d ext n <> SizeMore -> size_line (rest ++ b) acc d ext n = size_line rest acc d ext n.
Proof.
  induction rest as [|c rest IH]; intros acc d ext n E; cbn [size_line app] in *; [done|].
  destruct (c =? CR); [by destruct rest|]. destruct (c =? 59); [by apply IH|]. destruct ext; [by apply IH|].
  destruct (hex_digit c); [|done]. destruct (16 <? d + 1); [done|]. by apply IH.
Qed.

(** Bytes are consumed, or an exhausted [Data] is left. *)
Definition scan_measure (st : ChunkState) (rest : list Z) : nat :=
  2 * length rest + (match st with Data _ => 1 | _ => 0 end).

Lemma consume_loop_fuel f1 : forall f2 st rest,
  (scan_measure st rest < f1)%nat -> (scan_measure st rest < f2)%nat ->
  consume_loop f1 st rest = consume_loop f2 st rest /\ settles (consume_loop f1 st rest).
Proof.
  induction f1 as [|f1 IH]; intros [|f2] st rest H1 H2; [lia..|]. cbn [consume_loop].
  destruct rest as [|b rest]; [done|].
  assert (forall n st', (scan_measure st' (drop n (b :: rest)) < scan_measure st (b :: rest))%nat ->
    (r ← consume_loop f1 st' (drop n (b :: rest)); Ok ((n + r.1)%nat, r.2)) =
    (r ← consume_loop f2 st' (drop n (b :: rest)); Ok ((n + r.1)%nat, r.2)) /\
    settles (r ← consume_loop f1 st' (drop n (b :: rest)); Ok ((n + r.1)%nat, r.2))) as Hgo.
  { intros n st' Hlt. destruct (IH f2 st' (drop n (b :: rest))) as [-> Hs]; [lia..|]. split; [done|].
    by destruct (consume_loop f2 st' _). }
  destruct st as [|r|seen|bl col|]; [|..|done].
  - destruct (size_line (b :: rest) 0 0 false 0) as [| |acc d n] eqn:E; [done..|]. destruct (d =? 0); [done|].
    apply size_line_range in E. apply Hgo. unfold scan_measure, after_size. rewrite length_drop.
    destruct (acc =? 0); lia.
  - apply Hgo. unfold scan_measure. rewrite length_drop. set (t := Z.min r (Z.of_nat (length (b :: rest)))).
    destruct (Z.eqb_spec (r - t) 0); cbn [length] in *; lia.
  - destruct (negb _); [done|]. apply Hgo. unfold scan_measure. rewrite length_drop. cbn [length]. destruct (seen =? 0); lia.
  - apply Hgo. unfold scan_measure, trailer_byte. rewrite length_drop. cbn [length].
    destruct (b =? LF), (b =? CR), bl, (col =? 0); cbn; lia.
Qed.

Lemma consume_settles st buf : settles (consume st buf).
Proof.
  unfold consume. assert (scan_measure st buf < 2 * length buf + 2)%nat as Hm by (unfold scan_measure; case_match; lia).
  by apply (consume_loop_fuel _ _ _ _ Hm Hm).
Qed.

(** One pass of the scanner. *)
Lemma consume_unfold st rest :
  consume st rest =
  let go (n : nat) (st : ChunkState) := r ← consume st (drop n rest); Ok ((n + r.1)%nat, r.2) in
  match rest with
  | [] => Ok (O, st)
  | b :: _ =>
      match st with
      | Done => Ok (O, st)
      | Size =>
          match size_line rest 0 0 false O with
          | SizeMore => Ok (O, st)
          | SizeBad why => Err (Malformed why)
          | SizeDone acc digits n => if digits =? 0 then Err (Malformed NoSizeDigits) else go n (after_size acc)
          end
      | Data remaining =>
          let take_ := Z.min remaining (Z.of_nat (length rest)) in
          go (Z.to_nat take_) (if remaining - take_ =? 0 then DataCrLf 0 else Data (remaining - take_))
      | DataCrLf seen =>
          if negb (b =? (if seen =? 0 then CR else LF)) then Err (Malformed NoChunkCrLf)
          else go 1%nat (if seen =? 0 then DataCrLf 1 else Size)
      | Trailer blank_ column => go 1%nat (trailer_byte b blank_ column)
      end
  end.
Proof.
  unfold consume at 1. replace (2 * length rest + 2)%nat with (S (2 * length rest + 1)) by lia. cbn [consume_loop].
  assert (forall n st', (scan_measure st' (drop n rest) < 2 * length rest + 1)%nat ->
    consume_loop (2 * length rest + 1) st' (drop n rest) = consume st' (drop n rest)) as Hgo.
  { intros n st' Hm. apply consume_loop_fuel; [done|]. unfold scan_measure. rewrite length_drop. case_match; lia. }
  cbn zeta. destruct rest as [|b rest]; [done|]. destruct st as [|r|seen|bl col|]; [|..|done].
  - destruct (size_line (b :: rest) 0 0 false 0) as [| |acc d n] eqn:E; [done..|]. destruct (d =? 0); [done|].
    apply size_line_range in E. rewrite Hgo; [done|]. unfold scan_measure, after_size. rewrite length_drop.
    destruct (acc =? 0); lia.
  - rewrite Hgo; [done|]. unfold scan_measure. rewrite length_drop. cbn [length].
    set (t := Z.min r _). destruct (Z.eqb_spec (r - t) 0); lia.
  - destruct (negb _); [done|]. rewrite Hgo; [done|]. unfold scan_measure. rewrite length_drop. cbn [length]. destruct (seen =? 0); lia.
  - rewrite Hgo; [done|]. unfold scan_measure, trailer_byte. rewrite length_drop. cbn [length].
    destruct (b =? LF), (b =? CR), bl, (col =? 0); cbn; lia.
Qed.

Definition next (n : nat) (r : res ParseError (nat * ChunkState)) : res ParseError (nat * ChunkState) :=
  x ← r; Ok ((n + x.1)%nat, x.2).

Lemma next_next n m r : next n (next m r) = next (n + m) r.
Proof. destruct r; cbn; [|done..]. do 2 f_equal. lia. Qed.

Lemma next_0 r : next 0 r = r.
Proof. by destruct r as [[]| | |]. Qed.

Lemma drop_app_le' {A} (a b : list A) n : (n <= length a)%nat -> drop n (a ++ b) = drop n a ++ b.
Proof. apply drop_app_le. Qed.

Definition split_at (st : ChunkState) (a b : list Z) : Prop :=
  match consume st a with
  | Ok (u, st') => (u <= length a)%nat /\ consume st (a ++ b) = next u (consume st' (drop u a ++ b))
  | r => consume st (a ++ b) = r
  end.

(** A pass that is the same with more bytes behind it. *)
Lemma split_go st st' n a b :
  (n <= length a)%nat -> split_at st' (drop n a) b ->
  consume st a = next n (consume st' (drop n a)) -> consume st (a ++ b) = next n (consume st' (drop n a ++ b)) ->
  split_at st a b.
Proof.
  unfold split_at. intros Hn Hs -> E. destruct (consume st' (drop n a)) as [[u st2]|e| |]; cbn [next mbind res_bind_inst fst snd].
  - destruct Hs as [Hu Hs]. rewrite length_drop in Hu. split; [lia|]. by rewrite E, Hs, drop_drop, next_next.
  - by rewrite E, Hs.
  - by rewrite E, Hs.
  - by rewrite E, Hs.
Qed.

Lemma split_data r a b :
  a <> [] -> Z.of_nat (length a) < r ->
  consume (Data r) a = Ok (length a, Data (r - Z.of_nat (length a))) /\
  consume (Data r) (a ++ b) = next (length a) (consume (Data (r - Z.of_nat (length a))) b).
Proof.
  intros Ha Hr. assert (consume (Data r) a = Ok (length a, Data (r - Z.of_nat (length a)))) as Ea.
  { rewrite consume_unfold. destruct a as [|x a]; [done|]. cbn zeta. rewrite Z.min_r by lia.
    rewrite (proj2 (Z.eqb_neq _ _)) by lia. rewrite Nat2Z.id, drop_ge by lia.
    rewrite consume_unfold. cbn [mbind res_bind_inst fst snd]. by rewrite Nat.add_0_r. }
  split; [done|]. destruct b as [|y b]; [rewrite app_nil_r, Ea, (consume_unfold _ []); cbn; by rewrite Nat.add_0_r|].
  rewrite consume_unfold. destruct (a ++ y :: b) as [|z l] eqn:E; [by destruct a|]. rewrite <- E. cbn zeta. clear z l E.
  rewrite (consume_unfold (Data (r - _)) (y :: b)). cbn zeta. rewrite length_app.
  set (t := Z.min (r - Z.of_nat (length a)) (Z.of_nat (length (y :: b)))).
  assert (Z.min r (Z.of_nat (length a + length (y :: b))) = Z.of_nat (length a) + t) as -> by lia.
  assert (0 <= t) by (cbn [length] in *; lia). rewrite Z2Nat.inj_add, Nat2Z.id by lia.
  rewrite <- drop_drop, drop_app_length.
  replace (r - (Z.of_nat (length a) + t)) with (r - Z.of_nat (length a) - t) by lia.
  destruct (consume _ (drop (Z.to_nat t) (y :: b))) as [[]| | |]; cbn; [|done..]. do 2 f_equal. lia.
Qed.

(** The scanner does not depend on how the bytes arrive. *)
Lemma consume_split : forall (k : nat) st a b, (scan_measure st a < k)%nat -> split_at st a b.
Proof.
  induction k as [|k IH]; intros st a b Hk; [lia|].
  destruct a as [|x a]; [unfold split_at; rewrite (consume_unfold st []); cbv beta iota zeta; rewrite next_0; by split|].
  assert (forall n st', (n <= length (x :: a))%nat ->
    (scan_measure st' (drop n (x :: a)) < scan_measure st (x :: a))%nat ->
    consume st (x :: a) = next n (consume st' (drop n (x :: a))) ->
    consume st ((x :: a) ++ b) = next n (consume st' (drop n ((x :: a) ++ b))) -> split_at st (x :: a) b) as Hgo.
  { intros n st' Hn Hm E1 E2. rewrite drop_app_le in E2 by done. apply (split_go st st' n); try done. apply IH. lia. }
  destruct st as [|r|seen|bl col|].
  - destruct (size_line (x :: a) 0 0 false 0) as [|why|acc d n] eqn:E.
    + unfold split_at. rewrite (consume_unfold Size (x :: a)), E. cbv beta iota zeta. rewrite next_0. split; [lia|done].
    + unfold split_at. rewrite (consume_unfold Size (x :: a)), E, consume_unfold. change ((x :: a) ++ b) with (x :: a ++ b).
      cbv iota zeta. change (x :: a ++ b) with ((x :: a) ++ b). by rewrite size_line_app, E by (by rewrite E).
    + pose proof (size_line_range _ _ _ _ _ _ _ _ E) as Hr.
      assert (size_line ((x :: a) ++ b) 0 0 false 0 = SizeDone acc d n) as E' by (by rewrite size_line_app, E by (by rewrite E)).
      destruct (Z.eqb_spec d 0).
      * unfold split_at. rewrite (consume_unfold Size (x :: a)), E, (consume_unfold Size ((x :: a) ++ b)). cbn zeta.
        change ((x :: a) ++ b) with (x :: a ++ b) in *. rewrite E'. by subst d.
      * apply (Hgo n (after_size acc)); [cbn in *; lia| | |].
        -- unfold scan_measure, after_size. rewrite length_drop. destruct (acc =? 0); lia.
        -- rewrite (consume_unfold Size (x :: a)), E. cbn zeta. by rewrite (proj2 (Z.eqb_neq _ _)).
        -- rewrite (consume_unfold Size ((x :: a) ++ b)). change ((x :: a) ++ b) with (x :: a ++ b) in *. cbn zeta.
           rewrite E'. by rewrite (proj2 (Z.eqb_neq _ _)).
  - destruct (Z.ltb_spec (Z.of_nat (length (x :: a))) r).
    + destruct (split_data r (x :: a) b) as [E1 E2]; [done..|]. unfold split_at. rewrite E1. split; [done|].
      by rewrite E2, drop_ge.
    + apply (Hgo (Z.to_nat r) (DataCrLf 0)); [lia| | |].
      * unfold scan_measure. rewrite length_drop. lia.
      * rewrite (consume_unfold (Data r)). cbn zeta. rewrite Z.min_l by lia. rewrite Z.sub_diag. done.
      * rewrite (consume_unfold (Data r)). change ((x :: a) ++ b) with (x :: a ++ b). cbn zeta.
        rewrite Z.min_l by (cbn [length] in *; rewrite length_app; lia). by rewrite Z.sub_diag.
  - destruct (x =? (if seen =? 0 then CR else LF)) eqn:Ex.
    + apply (Hgo 1%nat (if seen =? 0 then DataCrLf 1 else Size)); [cbn; lia| | |].
      * unfold scan_measure. rewrite length_drop. cbn [length]. destruct (seen =? 0); lia.
      * rewrite consume_unfold. cbv beta iota zeta. by rewrite Ex.
      * rewrite consume_unfold. change ((x :: a) ++ b) with (x :: a ++ b). cbv beta iota zeta. by rewrite Ex.
    + assert (forall l, consume (DataCrLf seen) (x :: l) = Err (Malformed NoChunkCrLf)) as He.
      { intros l. rewrite consume_unfold. cbv beta iota zeta. by rewrite Ex. }
      unfold split_at. rewrite (He a). exact (He (a ++ b)).
  - apply (Hgo 1%nat (trailer_byte x bl col)); [cbn; lia| | |].
    + unfold scan_measure, trailer_byte. rewrite length_drop. cbn [length].
      destruct (x =? LF), (x =? CR), bl, (col =? 0); cbn; lia.
    + rewrite consume_unfold. done.
    + rewrite consume_unfold. done.
  - unfold split_at. rewrite (consume_unfold Done (x :: a)). cbv beta iota zeta. rewrite next_0. split; [lia|done].
Qed.

Lemma consume_app st a b u st' :
  consume st a = Ok (u, st') ->
  (u <= length a)%nat /\ consume st (a ++ b) = next u (consume st' (drop u a ++ b)).
Proof.
  intros E. pose proof (consume_split (S (scan_measure st a)) st a b ltac:(lia)) as Hs. unfold split_at in Hs.
  by rewrite E in Hs.
Qed.

Lemma consume_app_err st a b e : consume st a = Err e -> consume st (a ++ b) = Err e.
Proof.
  intros E. pose proof (consume_split (S (scan_measure st a)) st a b ltac:(lia)) as Hs. unfold split_at in Hs.
  by rewrite E in Hs.
Qed.

(** The scanner stops where it cannot go on. *)
Lemma consume_again st a u st' : consume st a = Ok (u, st') -> consume st' (drop u a) = Ok (O, st').
Proof.
  intros E. destruct (consume_app st a [] u st' E) as [_ E']. rewrite !app_nil_r, E in E'.
  destruct (consume st' (drop u a)) as [[n st2]| | |]; cbn in E'; [|done..].
  apply (f_equal (fun r => match r with Ok x => x | _ => (O, Size) end)) in E'. cbn in E'.
  injection E' as Hn <-. do 2 f_equal. lia.
Qed.

(** A scanner that consumes nothing of some bytes stays as it is. *)
Lemma consume_zero st x a st' : consume st (x :: a) = Ok (O, st') -> st' = st.
Proof.
  assert (forall n st1 r, (0 < n)%nat -> next n (consume st1 r) <> Ok (O, st')) as Hgo.
  { intros n st1 r Hn E. destruct (consume st1 r) as [[m st2]| | |]; cbn in E; [|done..].
    apply (f_equal (fun r => match r with Ok x => x.1 | _ => 1%nat end)) in E. cbn in E. lia. }
  intros E. rewrite consume_unfold in E. cbv beta iota zeta in E. destruct st as [|r|seen|bl col|].
  - destruct (size_line (x :: a) 0 0 false 0) as [| |acc d n] eqn:El; [by injection E|done|].
    apply size_line_range in El. destruct (d =? 0); [done|]. by apply Hgo in E; [|lia].
  - set (t := Z.min r (Z.of_nat (length (x :: a)))) in *. destruct (decide (0 < t)) as [Ht|Ht].
    { by apply Hgo in E; [|lia]. }
    replace (Z.to_nat t) with O in E by lia. cbn [length] in *. rewrite (proj2 (Z.eqb_eq (r - t) 0)) in E by lia.
    change (drop 0 (x :: a)) with (x :: a) in E. rewrite consume_unfold in E. cbv beta iota zeta in E.
    destruct (negb _); [done|]. fold (next 1 (consume (if 0 =? 0 then DataCrLf 1 else Size) (drop 1 (x :: a)))) in E.
    fold (next 0 (next 1 (consume (if 0 =? 0 then DataCrLf 1 else Size) (drop 1 (x :: a))))) in E.
    rewrite next_0 in E. by apply Hgo in E; [|lia].
  - destruct (negb _); [done|]. by apply Hgo in E; [|lia].
  - by apply Hgo in E; [|lia].
  - by injection E.
Qed.

Lemma consume_done_stop a : consume Done a = Ok (O, Done).
Proof. rewrite consume_unfold. by destruct a. Qed.

(** ** Heads *)

Lemma find_head_end_range buf e : find_head_end buf = Some e -> (4 <= e <= length buf)%nat.
Proof.
  revert e. induction buf as [|x buf IH]; intros e E; cbn [find_head_end] in E; [done|].
  case_bool_decide as Ht.
  - injection E as <-. assert (length (take 4 (x :: buf)) = 4%nat) as Hl by (by rewrite Ht). rewrite length_take in Hl. lia.
  - destruct (find_head_end buf) as [n|]; [|done]. injection E as <-. specialize (IH n eq_refl). cbn [length]. lia.
Qed.

Lemma take4_app (x y : list Z) : take 4 x = crlf ++ crlf -> take 4 (x ++ y) = crlf ++ crlf.
Proof.
  intros E. assert (length (take 4 x) = 4%nat) as Hl by (by rewrite E). rewrite length_take in Hl.
  by rewrite take_app_le by lia.
Qed.

Lemma find_head_end_app a b e : find_head_end a = Some e -> find_head_end (a ++ b) = Some e.
Proof.
  revert e. induction a as [|x a IH]; intros e E; cbn [find_head_end app] in *; [done|].
  case_bool_decide as Ht.
  - change (x :: a ++ b) with ((x :: a) ++ b). by rewrite bool_decide_true by (by apply take4_app).
  - destruct (find_head_end a) as [n|] eqn:En; [|done].
    rewrite bool_decide_false; [by rewrite (IH n)|].
    pose proof (find_head_end_range a n En). change (x :: a ++ b) with ((x :: a) ++ b).
    by rewrite take_app_le by (cbn [length]; lia).
Qed.

Lemma find_head_end_late a b e : find_head_end a = None -> find_head_end (a ++ b) = Some e -> (length a < e)%nat.
Proof.
  revert e. induction a as [|x a IH]; intros e En E; [apply find_head_end_range in E; cbn; lia|].
  cbn [find_head_end app] in *. destruct (bool_decide (take 4 (x :: a) = crlf ++ crlf)) eqn:Ht; [done|].
  apply bool_decide_eq_false in Ht. destruct (find_head_end a) as [|] eqn:Ea; [done|]. case_bool_decide as Ht'.
  - injection E as <-. destruct (decide (4 <= length (x :: a))%nat) as [Hl|]; [|lia].
    change (x :: a ++ b) with ((x :: a) ++ b) in Ht'. by rewrite take_app_le in Ht' by done.
  - destruct (find_head_end (a ++ b)) as [n|]; [|done]. injection E as <-. specialize (IH n eq_refl eq_refl). cbn [length]. lia.
Qed.

Lemma parse_len buf h : parse buf = Ok h -> (4 <= h_len h <= length buf)%nat.
Proof.
  unfold parse. intros E. destruct (find_head_end buf) as [e|] eqn:Ee; [|by case_match].
  apply find_head_end_range in Ee. destruct (MAX_HEAD <? _); [done|]. destruct (from_utf8 _); [|done].
  unfold parse_text in E. repeat case_match; try done. destruct (parse_headers _); [|done..].
  cbn in E. injection E as <-. done.
Qed.

Lemma parse_app a b :
  match parse a with Err Incomplete => True | r => parse (a ++ b) = r end.
Proof.
  unfold parse. destruct (find_head_end a) as [e|] eqn:Ee.
  - rewrite (find_head_end_app a b e Ee). apply find_head_end_range in Ee.
    destruct (MAX_HEAD <? Z.of_nat e); [done|]. rewrite take_app_le by lia.
    destruct (from_utf8 (take e a)); [|done]. by destruct (parse_text _ _) as [|[|]| |].
  - destruct (Z.ltb_spec MAX_HEAD (Z.of_nat (length a))); [|done].
    destruct (find_head_end (a ++ b)) as [e|] eqn:Eb.
    + pose proof (find_head_end_late a b e Ee Eb). by rewrite (proj2 (Z.ltb_lt _ _)) by lia.
    + rewrite length_app. by rewrite (proj2 (Z.ltb_lt _ _)) by lia.
Qed.

Lemma parse_headers_settles lines : settles (parse_headers lines).
Proof.
  induction lines as [|[|c line] lines IH]; cbn [parse_headers]; [done..|]. destruct (blank c); [done|].
  destruct (split_once 58 (c :: line)) as [[n v]|]; [|done]. destruct (_ || _); [done|]. by destruct (parse_headers lines).
Qed.

Lemma parse_settles buf : settles (parse buf).
Proof.
  unfold parse, parse_text. repeat (case_match; try done). pose proof (parse_headers_settles l) as Hs.
  by destruct (parse_headers l).
Qed.

Lemma body_mode_settles hs : settles (body_mode hs).
Proof. unfold body_mode. repeat (case_match; try done). Qed.

(** ** The injector *)

Definition proc_measure (j : Injector) (rest : list Z) : nat :=
  2 * length rest + (match i_phase j with PHead => 0 | PBody _ => 1 end).

Lemma phase_set p c j : i_phase (set_phase p c j) = p.
Proof. done. Qed.

Lemma process_loop_fuel f1 : forall f2 j rest,
  (proc_measure j rest < f1)%nat -> (proc_measure j rest < f2)%nat ->
  process_loop f1 j rest = process_loop f2 j rest /\ settles (o_res (process_loop f1 j rest)).
Proof.
  induction f1 as [|f1 IH]; intros [|f2] j rest H1 H2; [lia..|]. cbn [process_loop].
  destruct rest as [|b rest]; [done|].
  assert (forall n out ev j', (proc_measure j' (drop n (b :: rest)) < proc_measure j (b :: rest))%nat ->
    then_ n out ev (process_loop f1 j' (drop n (b :: rest))) = then_ n out ev (process_loop f2 j' (drop n (b :: rest))) /\
    settles (o_res (then_ n out ev (process_loop f1 j' (drop n (b :: rest)))))) as Hgo.
  { intros n out ev j' Hlt. destruct (IH f2 j' (drop n (b :: rest))) as [-> Hs]; [lia..|]. split; [done|].
    unfold then_. cbn [o_res]. by destruct (o_res _). }
  unfold proc_measure in Hgo, H1, H2. destruct (i_phase j) as [|[|r|]].
  - pose proof (parse_settles (b :: rest)) as Hps. destruct (parse (b :: rest)) as [h|[|]| |] eqn:Ep; [|done..].
    pose proof (body_mode_settles (h_headers h)) as Hms. destruct (body_mode (h_headers h)) as [m| | |]; [|done..].
    apply parse_len in Ep. apply Hgo. rewrite phase_set, length_drop. destruct m; cbn [length] in *; lia.
  - apply IH; unfold proc_measure; rewrite phase_set; lia.
  - cbn zeta. set (t := Z.min r (Z.of_nat (length (b :: rest)))). apply Hgo. rewrite phase_set, length_drop.
    destruct (Z.eqb_spec (r - t) 0); [lia|]. cbn [length] in *. lia.
  - pose proof (consume_settles (i_chunked j) (b :: rest)) as Hcs.
    destruct (consume (i_chunked j) (b :: rest)) as [[n st]| | |]; [|done..]. cbn zeta.
    destruct (bool_decide (st = Done)) eqn:Ed; cbn [negb andb].
    + apply Hgo. rewrite phase_set, length_drop. lia.
    + destruct (Nat.eqb_spec n 0); [done|]. apply Hgo. rewrite phase_set, length_drop. cbn [length]. lia.
Qed.

Lemma process_settles j buf : settles (o_res (process j buf)).
Proof.
  assert (proc_measure j buf < 2 * length buf + 2)%nat as Hm by (unfold proc_measure; destruct (i_phase j); lia).
  apply (process_loop_fuel _ _ _ _ Hm Hm).
Qed.

(** One pass of the injector. *)
Lemma process_unfold j rest :
  process j rest =
  match rest with
  | [] => stop (Ok O) j
  | _ =>
      match i_phase j with
      | PHead =>
          match parse rest with
          | Ok head =>
              match body_mode (h_headers head) with
              | Ok mode =>
                  then_ (h_len head) (render_with [(i_header j, i_value j)] head) [injection_event j head]
                    (process (set_phase (match mode with BodyEmpty => PHead | other => PBody other end) Size j)
                       (drop (h_len head) rest))
              | Err e => stop (Err e) j
              | Panic => stop Panic j
              | NoFuel => stop NoFuel j
              end
          | Err Incomplete => stop (Ok O) j
          | Err e => stop (Err e) j
          | Panic => stop Panic j
          | NoFuel => stop NoFuel j
          end
      | PBody (BodyLength remaining) =>
          let take_ := Z.min remaining (Z.of_nat (length rest)) in
          let left := remaining - take_ in
          then_ (Z.to_nat take_) (take (Z.to_nat take_) rest) []
            (process (set_phase (if left =? 0 then PHead else PBody (BodyLength left)) (i_chunked j) j)
               (drop (Z.to_nat take_) rest))
      | PBody BodyChunked =>
          match consume (i_chunked j) rest with
          | Ok (consumed, st) =>
              let j := set_phase (if bool_decide (st = Done) then PHead else PBody BodyChunked) st j in
              if negb (bool_decide (st = Done)) && (consumed =? 0)%nat then stop (Ok O) j
              else then_ consumed (take consumed rest) [] (process j (drop consumed rest))
          | Err e => stop (Err e) j
          | Panic => stop Panic j
          | NoFuel => stop NoFuel j
          end
      | PBody BodyEmpty => process (set_phase PHead (i_chunked j) j) rest
      end
  end.
Proof.
  unfold process at 1. replace (2 * length rest + 2)%nat with (S (2 * length rest + 1)) by lia. cbn [process_loop].
  assert (forall n j', (proc_measure j' (drop n rest) < 2 * length rest + 1)%nat ->
    process_loop (2 * length rest + 1) j' (drop n rest) = process j' (drop n rest)) as Hgo.
  { intros n j' Hm. apply process_loop_fuel; [done|]. unfold proc_measure. rewrite length_drop. destruct (i_phase j'); lia. }
  destruct rest as [|b rest]; [done|]. unfold proc_measure in Hgo. destruct (i_phase j) as [|[|r|]].
  - destruct (parse (b :: rest)) as [h|[|]| |] eqn:Ep; [|done..]. destruct (body_mode (h_headers h)) as [m| | |]; [|done..].
    apply parse_len in Ep. rewrite Hgo; [done|]. rewrite phase_set, length_drop. destruct m; cbn [length] in *; lia.
  - specialize (Hgo O (set_phase PHead (i_chunked j) j)). cbn [drop] in Hgo. apply Hgo. rewrite phase_set. lia.
  - cbn zeta. set (t := Z.min r (Z.of_nat (length (b :: rest)))). rewrite Hgo; [done|]. rewrite phase_set, length_drop.
    destruct (Z.eqb_spec (r - t) 0); [lia|]. cbn [length] in *. lia.
  - destruct (consume (i_chunked j) (b :: rest)) as [[n st]| | |]; [|done..]. cbn zeta.
    destruct (bool_decide (st = Done)) eqn:Ed; cbn [negb andb].
    + rewrite Hgo; [done|]. rewrite phase_set, length_drop. lia.
    + destruct (Nat.eqb_spec n 0); [done|]. rewrite Hgo; [done|]. rewrite phase_set, length_drop. cbn [length]. lia.
Qed.

(** The same result and record, and the same in all if it is no error. *)
Definition agree (o1 o2 : Outcome) : Prop :=
  o_res o1 = o_res o2 /\ o_events o1 = o_events o2 /\ forall n, o_res o1 = Ok n -> o1 = o2.

Lemma outcome_agree_refl o : agree o o.
Proof. done. Qed.

Lemma agree_then n out ev o1 o2 : agree o1 o2 -> agree (then_ n out ev o1) (then_ n out ev o2).
Proof.
  intros (Hr & He & Ho). unfold then_. split_and!; cbn; [by rewrite Hr|by rewrite He|].
  intros m Hm. destruct (o_res o1) as [k| | |] eqn:E; [|done..]. by rewrite <- (Ho k eq_refl), E.
Qed.

Lemma then_then n out ev m out' ev' o :
  then_ n out ev (then_ m out' ev' o) = then_ (n + m) (out ++ out') (ev ++ ev') o.
Proof.
  unfold then_. cbn. f_equal; [|by rewrite app_assoc..]. destruct (o_res o); cbn; [|done..]. f_equal. lia.
Qed.

Lemma then_0 o : then_ 0 [] [] o = o.
Proof. destruct o as [[]]; done. Qed.

Definition proc_split (j : Injector) (a b : list Z) : Prop :=
  match o_res (process j a) with
  | Ok u =>
      (u <= length a)%nat /\
      agree (process j (a ++ b))
        (then_ u (o_out (process j a)) (o_events (process j a)) (process (o_inj (process j a)) (drop u a ++ b)))
  | r => o_res (process j (a ++ b)) = r /\ o_events (process j (a ++ b)) = o_events (process j a)
  end.

(** A pass that is the same with more bytes behind it. *)
Lemma split_pass j j' n out ev a b :
  (n <= length a)%nat -> proc_split j' (drop n a) b ->
  process j a = then_ n out ev (process j' (drop n a)) ->
  process j (a ++ b) = then_ n out ev (process j' (drop n a ++ b)) -> proc_split j a b.
Proof.
  unfold proc_split. intros Hn Hs -> E. cbn [then_ o_res o_out o_events o_inj].
  destruct (o_res (process j' (drop n a))) as [u|e| |] eqn:Er; cbn [mbind res_bind_inst].
  - destruct Hs as [Hu Hs]. rewrite length_drop in Hu. split; [lia|]. rewrite E.
    apply (agree_then n out ev) in Hs. by rewrite then_then, drop_drop in Hs.
  - destruct Hs as [Hs He]. rewrite E. cbn [then_ o_res o_events]. by rewrite Hs, He.
  - destruct Hs as [Hs He]. rewrite E. cbn [then_ o_res o_events]. by rewrite Hs, He.
  - destruct Hs as [Hs He]. rewrite E. cbn [then_ o_res o_events]. by rewrite Hs, He.
Qed.

Lemma split_stop j a b : process j a = stop (Ok O) j -> proc_split j a b.
Proof. unfold proc_split. intros ->. cbn. split; [lia|]. rewrite then_0. apply outcome_agree_refl. Qed.

Lemma split_length j r a b :
  i_phase j = PBody (BodyLength r) -> a <> [] -> Z.of_nat (length a) < r -> proc_split j a b.
Proof.
  intros Hp Ha Hr. set (j' := set_phase (PBody (BodyLength (r - Z.of_nat (length a)))) (i_chunked j) j).
  assert (process j a = then_ (length a) a [] (stop (Ok O) j')) as Ea.
  { rewrite process_unfold, Hp. destruct a as [|x a]; [done|]. cbn zeta. rewrite Z.min_r, Nat2Z.id by lia.
    rewrite (proj2 (Z.eqb_neq _ _)) by lia. rewrite take_ge, drop_ge by lia. by rewrite process_unfold. }
  unfold proc_split. rewrite Ea. cbn [then_ stop o_res o_out o_events o_inj mbind res_bind_inst].
  rewrite Nat.add_0_r, drop_ge, !app_nil_r by lia. split; [lia|]. cbn [app].
  destruct b as [|y b]; [rewrite app_nil_r, Ea, (process_unfold j' []); apply outcome_agree_refl|].
  assert (process j (a ++ y :: b) = then_ (length a) a [] (process j' (y :: b))) as ->; [|apply outcome_agree_refl].
  rewrite process_unfold, Hp. destruct (a ++ y :: b) as [|z l] eqn:E; [by destruct a|]. rewrite <- E. cbn zeta. clear z l E.
  rewrite (process_unfold j' (y :: b)). subst j'. rewrite phase_set. cbn zeta. rewrite length_app, then_then.
  set (t := Z.min (r - Z.of_nat (length a)) (Z.of_nat (length (y :: b)))).
  assert (Z.min r (Z.of_nat (length a + length (y :: b))) = Z.of_nat (length a) + t) as -> by lia.
  assert (0 <= t) by (cbn [length] in *; lia). rewrite Z2Nat.inj_add, Nat2Z.id by lia.
  rewrite <- drop_drop, drop_app_length, take_app_add.
  by replace (r - (Z.of_nat (length a) + t)) with (r - Z.of_nat (length a) - t) by lia.
Qed.

(** The injector within a chunked body. *)
Definition in_chunk (st : ChunkState) (j : Injector) : Injector :=
  set_phase (if bool_decide (st = Done) then PHead else PBody BodyChunked) st j.

Lemma process_chunked j x a :
  i_phase j = PBody BodyChunked ->
  process j (x :: a) =
  match consume (i_chunked j) (x :: a) with
  | Ok (n, st) =>
      if negb (bool_decide (st = Done)) && (n =? 0)%nat then stop (Ok O) (in_chunk st j)
      else then_ n (take n (x :: a)) [] (process (in_chunk st j) (drop n (x :: a)))
  | Err e => stop (Err e) j
  | Panic => stop Panic j
  | NoFuel => stop NoFuel j
  end.
Proof. intros Hp. rewrite process_unfold, Hp. done. Qed.

(** Where the scanner waits for more, so does the injector. *)
Lemma process_waits st j a :
  st <> Done -> consume st a = Ok (O, st) -> process (in_chunk st j) a = stop (Ok O) (in_chunk st j).
Proof.
  intros Hd E. destruct a as [|x a]; [by rewrite process_unfold|].
  assert (in_chunk st j = set_phase (PBody BodyChunked) st j) as -> by (unfold in_chunk; by rewrite bool_decide_false).
  rewrite process_chunked by done. cbn [i_chunked set_phase]. rewrite E, bool_decide_false by done.
  unfold in_chunk. by rewrite bool_decide_false.
Qed.

Lemma split_chunked j x a b n st :
  i_phase j = PBody BodyChunked -> consume (i_chunked j) (x :: a) = Ok (n, st) -> st <> Done -> (0 < n)%nat ->
  proc_split j (x :: a) b.
Proof.
  intros Hp E Hd Hn. destruct (consume_app _ _ b _ _ E) as [Hle Eb]. pose proof (consume_again _ _ _ _ E) as Hag.
  assert (process j (x :: a) = then_ n (take n (x :: a)) [] (stop (Ok O) (in_chunk st j))) as Ea.
  { rewrite process_chunked, E by done. rewrite bool_decide_false by done. rewrite (proj2 (Nat.eqb_neq _ _)) by lia.
    cbn [negb andb]. by rewrite process_waits. }
  unfold proc_split. rewrite Ea. cbn [then_ stop o_res o_out o_events o_inj mbind res_bind_inst].
  rewrite Nat.add_0_r, !app_nil_r. split; [done|]. cbn [app].
  remember (drop n (x :: a) ++ b) as X eqn:EX. change (x :: a ++ b) with ((x :: a) ++ b).
  assert (take n ((x :: a) ++ b) = take n (x :: a)) as Et by (by rewrite take_app_le).
  assert (drop n ((x :: a) ++ b) = X) as Edr by (by rewrite EX, drop_app_le).
  change ((x :: a) ++ b) with (x :: a ++ b) in *. rewrite process_chunked, Eb by done.
  assert (in_chunk st j = set_phase (PBody BodyChunked) st j) as Ej by (unfold in_chunk; by rewrite bool_decide_false).
  assert (forall st', in_chunk st' (in_chunk st j) = in_chunk st' j) as Eii by done.
  clear EX. destruct X as [|y X].
  { rewrite consume_unfold. cbn [next mbind res_bind_inst fst snd]. rewrite Nat.add_0_r, bool_decide_false by done.
    rewrite (proj2 (Nat.eqb_neq _ _)) by lia. cbn [negb andb]. rewrite Et, Edr. apply outcome_agree_refl. }
  destruct (consume st (y :: X)) as [[n2 st2]|e| |] eqn:E2; cbn [next mbind res_bind_inst fst snd].
  - rewrite (proj2 (Nat.eqb_neq (n + n2) 0)) by lia. rewrite andb_false_r, <- drop_drop, Edr.
    assert (take (n + n2) (x :: a ++ b) = take n (x :: a) ++ take n2 (y :: X)) as ->.
    { rewrite <- (take_drop n (x :: a ++ b)) at 1. rewrite Et, Edr.
      replace n with (length (take n (x :: a))) at 1 by (rewrite length_take; lia). by rewrite take_app_add. }
    rewrite Ej at 1. rewrite (process_chunked _ y X) by done. cbn [i_chunked set_phase]. rewrite E2, <- Ej, Eii.
    destruct (negb (bool_decide (st2 = Done)) && (n2 =? 0)%nat) eqn:Ew.
    + apply andb_true_iff in Ew as [Ew%negb_true_iff%bool_decide_eq_false ->%Nat.eqb_eq].
      rewrite process_waits by (done || by eapply consume_again in E2). rewrite Nat.add_0_r, app_nil_r. apply outcome_agree_refl.
    + by rewrite then_then.
  - rewrite Ej at 1. rewrite (process_chunked _ y X) by done. cbn [i_chunked set_phase]. rewrite E2. by split_and!.
  - rewrite Ej at 1. rewrite (process_chunked _ y X) by done. cbn [i_chunked set_phase]. rewrite E2. by split_and!.
  - rewrite Ej at 1. rewrite (process_chunked _ y X) by done. cbn [i_chunked set_phase]. rewrite E2. by split_and!.
Qed.

Lemma split_head j x a b :
  i_phase j = PHead ->
  (forall j' n, (4 <= n)%nat -> (n <= length (x :: a))%nat -> proc_split j' (drop n (x :: a)) b) ->
  proc_split j (x :: a) b.
Proof.
  intros Hp Hgo. pose proof (parse_app (x :: a) b) as Hpa. change ((x :: a) ++ b) with (x :: a ++ b) in Hpa.
  pose proof (process_unfold j (x :: a)) as Ea. rewrite Hp in Ea. cbv iota in Ea.
  pose proof (process_unfold j (x :: a ++ b)) as Eb. rewrite Hp in Eb. cbv iota in Eb.
  destruct (parse (x :: a)) as [h|[|w]| |] eqn:Ep.
  - rewrite Hpa in Eb. destruct (body_mode (h_headers h)) as [m|e| |] eqn:Em.
    + apply parse_len in Ep. eapply split_pass; [|apply (Hgo _ (h_len h)); lia|exact Ea|]; [lia|].
      change ((x :: a) ++ b) with (x :: a ++ b). rewrite Eb. by rewrite <- drop_app_le by lia.
    + unfold proc_split. change ((x :: a) ++ b) with (x :: a ++ b). by rewrite Ea, Eb.
    + unfold proc_split. change ((x :: a) ++ b) with (x :: a ++ b). by rewrite Ea, Eb.
    + unfold proc_split. change ((x :: a) ++ b) with (x :: a ++ b). by rewrite Ea, Eb.
  - by apply split_stop.
  - rewrite Hpa in Eb. unfold proc_split. change ((x :: a) ++ b) with (x :: a ++ b). by rewrite Ea, Eb.
  - pose proof (parse_settles (x :: a)) as Hs. by rewrite Ep in Hs.
  - pose proof (parse_settles (x :: a)) as Hs. by rewrite Ep in Hs.
Qed.

(** The injector does not depend on how the bytes arrive. *)
Lemma process_split (k : nat) : forall j a b, (proc_measure j a < k)%nat -> proc_split j a b.
Proof.
  induction k as [|k IH]; intros j a b Hk; [lia|].
  destruct a as [|x a]; [apply split_stop; by rewrite process_unfold|].
  unfold proc_measure in Hk. destruct (i_phase j) as [|[|r|]] eqn:Hp.
  - apply split_head; [done|]. intros j' n Hn Hle. apply IH. unfold proc_measure. rewrite length_drop.
    destruct (i_phase j'); lia.
  - assert (forall l, process j (x :: l) = process (set_phase PHead (i_chunked j) j) (x :: l)) as E.
    { intros l. by rewrite process_unfold, Hp. }
    assert (proc_split (set_phase PHead (i_chunked j) j) (x :: a) b) as Hs by (apply IH; unfold proc_measure; rewrite phase_set; lia).
    unfold proc_split in *. rewrite E. change ((x :: a) ++ b) with (x :: a ++ b) in *. by rewrite (E (a ++ b)).
  - destruct (Z.ltb_spec (Z.of_nat (length (x :: a))) r); [by eapply split_length|].
    pose proof (process_unfold j (x :: a)) as Ea. pose proof (process_unfold j (x :: a ++ b)) as Eb.
    rewrite Hp in Ea, Eb. cbv iota zeta in Ea, Eb. rewrite Z.min_l in Ea by lia.
    rewrite Z.min_l in Eb by (cbn [length] in *; rewrite length_app; lia). rewrite Z.sub_diag in Ea, Eb.
    eapply split_pass; [| |exact Ea|]; [lia| |].
    + apply IH. unfold proc_measure. rewrite phase_set, length_drop, Z.eqb_refl. lia.
    + change ((x :: a) ++ b) with (x :: a ++ b). rewrite Eb. change (x :: a ++ b) with ((x :: a) ++ b).
      rewrite drop_app_le, take_app_le by lia. done.
  - destruct (consume (i_chunked j) (x :: a)) as [[n st]|e| |] eqn:E.
    + destruct (consume_app _ _ b _ _ E) as [Hle Eb]. change ((x :: a) ++ b) with (x :: a ++ b) in Eb.
      destruct (decide (st = Done)) as [->|Hd].
      * rewrite consume_done_stop in Eb. cbn [next mbind res_bind_inst fst snd] in Eb. rewrite Nat.add_0_r in Eb.
        pose proof (process_chunked j x a Hp) as E1. pose proof (process_chunked j x (a ++ b) Hp) as E2.
        rewrite E in E1. rewrite Eb in E2. cbn [bool_decide negb andb] in E1, E2.
        eapply split_pass; [exact Hle| |exact E1|].
        -- apply IH. unfold proc_measure, in_chunk. rewrite phase_set, length_drop, bool_decide_true by done. lia.
        -- change ((x :: a) ++ b) with (x :: a ++ b). rewrite E2. change (x :: a ++ b) with ((x :: a) ++ b).
           by rewrite drop_app_le, take_app_le by done.
      * destruct n as [|n]; [|eapply split_chunked; [done..|lia]]. apply split_stop.
        rewrite process_chunked, E, bool_decide_false by done. cbn [negb andb Nat.eqb]. f_equal.
        apply consume_zero in E as ->. unfold in_chunk. rewrite bool_decide_false by done. destruct j. cbn in *. by subst.
    + unfold proc_split. rewrite process_chunked, E by done. change ((x :: a) ++ b) with (x :: a ++ b).
      rewrite process_chunked by done. change (x :: a ++ b) with ((x :: a) ++ b). by rewrite (consume_app_err _ _ _ _ E).
    + pose proof (consume_settles (i_chunked j) (x :: a)) as Hs. by rewrite E in Hs.
    + pose proof (consume_settles (i_chunked j) (x :: a)) as Hs. by rewrite E in Hs.
Qed.

(** ** The pump *)

Definition guest_bytes (es : list PumpEvent) : list Z :=
  concat ((fun e => match e with GuestData data _ => data | _ => [] end) <$> es).

(** The pump after the bytes [data]: what it sent is what one pass over all of
    them gives, and what it keeps for a retry is all it sent. *)
Definition pump_ok (j : Injector) (data : list Z) (p : Pump) : Prop :=
  exists used, o_res (process j data) = Ok used /\ (used <= length data)%nat /\ p_pending p = drop used data /\
    p_inj p = o_inj (process j data) /\ List.filter au_injected (p_events p) = o_events (process j data) /\
    up_stream (p_up p) = o_out (process j data) /\
    (up_handshaking (p_up p) = true -> up_unsent (p_up p) = up_stream (p_up p)).

Lemma process_events_injected (k : nat) : forall j buf,
  (proc_measure j buf < k)%nat -> List.filter au_injected (o_events (process j buf)) = o_events (process j buf).
Proof.
  induction k as [|k IH]; intros j buf Hk; [lia|]. rewrite process_unfold. unfold proc_measure in *.
  destruct buf as [|x a]; [done|]. destruct (i_phase j) as [|[|r|]] eqn:Hp.
  - destruct (parse (x :: a)) as [h|[|]| |] eqn:Ep; [|done..]. destruct (body_mode (h_headers h)) as [m| | |]; [|done..].
    apply parse_len in Ep. cbn [then_ o_events app List.filter au_injected injection_event]. rewrite IH; [done|].
    rewrite phase_set, length_drop. destruct m; cbn [length] in *; lia.
  - apply IH. rewrite phase_set. lia.
  - cbv zeta. cbn [then_ o_events app]. apply IH. rewrite phase_set, length_drop.
    destruct (Z.eqb_spec (r - Z.min r (Z.of_nat (length (x :: a)))) 0); cbn [length] in *; lia.
  - destruct (consume (i_chunked j) (x :: a)) as [[n st]| | |]; [|done..]. cbv zeta.
    destruct (negb (bool_decide (st = Done)) && (n =? 0)%nat) eqn:Ew; [done|]. cbn [then_ o_events app]. apply IH.
    rewrite phase_set, length_drop. case_bool_decide; [lia|]. apply Nat.eqb_neq in Ew. cbn [length] in *. lia.
Qed.

Lemma pump_start_ok j : pump_ok j [] (pump_start j).
Proof. exists O. rewrite process_unfold. by split_and!. Qed.

Lemma feed_ok j data bs dial p p' : pump_ok j data p -> feed bs dial p = Ok p' -> pump_ok j (data ++ bs) p'.
Proof.
  intros (used & Hr & Hu & Hpe & Hj & Hev & Hst & Hun) E.
  pose proof (process_split (S (proc_measure j data)) j data bs ltac:(lia)) as Hs. unfold proc_split in Hs.
  rewrite Hr in Hs. destruct Hs as [_ (Hsr & Hse & Hso)]. rewrite <- Hj, <- Hpe in Hsr, Hse, Hso.
  unfold feed in E. destruct (p_pending p ++ bs) as [|x l] eqn:El.
  { apply (f_equal (fun r => match r with Ok q => q | _ => p end)) in E. cbn in E. subst p'.
    apply app_eq_nil in El as [Hp0 ->]. exists used. by rewrite app_nil_r. }
  destruct (o_res (process (p_inj p) (x :: l))) as [u| | |] eqn:Eo; [|done..].
  cbn [then_ o_res mbind res_bind_inst] in Hsr. rewrite Eo in Hsr. specialize (Hso _ Hsr).
  destruct (match o_out (process (p_inj p) (x :: l)) with [] => _ | _ => _ end) as [up|] eqn:Eup; [|done].
  destruct (MAX_HEAD * 4 <? _); [done|]. apply (f_equal (fun r => match r with Ok q => q | _ => p end)) in E. cbv beta iota in E. subst p'.
  assert (u <= length (x :: l))%nat as Hul.
  { pose proof (process_split (S (proc_measure (p_inj p) (x :: l))) (p_inj p) (x :: l) [] ltac:(lia)) as H'.
    unfold proc_split in H'. rewrite Eo in H'. apply H'. }
  assert (drop used (data ++ bs) = x :: l) as Ed by (by rewrite drop_app_le, <- Hpe).
  assert (used + length (x :: l) = length (data ++ bs))%nat as Hlen.
  { rewrite <- Ed, length_drop, length_app. lia. }
  exists (used + u)%nat. rewrite Hso. cbn [then_ o_res o_out o_events o_inj p_pending p_inj p_events p_up mbind res_bind_inst].
  rewrite Eo. split_and!; [done|lia|by rewrite <- drop_drop, Ed|done| | |].
  - by rewrite List.filter_app, Hev, (process_events_injected _ _ _ (Nat.lt_succ_diag_r _)).
  - rewrite <- Hst. destruct (o_out (process (p_inj p) (x :: l))) as [|y out]; [injection Eup as <-; by rewrite app_nil_r|].
    unfold write_up in Eup. destruct (up_dialled (p_up p) || dial); [|done]. by injection Eup as <-.
  - intros Hh. destruct (o_out (process (p_inj p) (x :: l))) as [|y out]; [injection Eup as <-; by apply Hun|].
    unfold write_up in Eup. destruct (up_dialled (p_up p) || dial); [|done]. injection Eup as <-. cbn in Hh |- *.
    rewrite Hh. by rewrite (Hun Hh).
Qed.

Lemma note_filter detail p : List.filter au_injected (note detail p) = List.filter au_injected (p_events p).
Proof. unfold note. rewrite List.filter_app. cbn. by rewrite app_nil_r. Qed.

(** An abandoned connection was in its handshake, and there is only one. *)
Lemma pump_event_ok j data e p d p' :
  pump_ok j data p -> pump_event e p = Ok (d, p') ->
  pump_ok j (data ++ guest_bytes [e]) p' /\
  match d with
  | Some c => c.1 = true /\ up_retried (p_up p) = false /\ up_retried (p_up p') = true
  | None => up_retried (p_up p') = up_retried (p_up p)
  end.
Proof.
  intros Hok E. destruct e as [bs dial|fin|reset dial]; cbn [pump_event guest_bytes fmap list_fmap concat] in *; rewrite ?app_nil_r.
  - destruct (feed bs dial p) as [q| | |] eqn:Ef; cbn in E; [|done..]. injection E as <- <-.
    split; [by eapply feed_ok|]. unfold feed in Ef. destruct (p_pending p ++ bs) as [|x l]; [by injection Ef as <-|].
    destruct (o_res _); [|done..]. destruct (match o_out _ with [] => _ | _ => _ end) as [up|] eqn:Eup; [|done].
    destruct (MAX_HEAD * 4 <? _); [done|]. injection Ef as <-. cbn.
    destruct (o_out _); [by injection Eup as <-|]. unfold write_up in Eup.
    destruct (up_dialled (p_up p) || dial); [|done]. by injection Eup as <-.
  - destruct (negb (up_dialled (p_up p)) || up_closed (p_up p)); injection E as <- <-; [done|].
    destruct Hok as (used & Hr & Hu & Hpe & Hj & Hev & Hst & Hun). unfold note_upstream_version. cbn [p_up up_logged up_handshaking].
    destruct (up_logged (p_up p) || _) eqn:El; (split; [|done]); exists used; split_and!; try done; cbn [p_up up_handshaking up_unsent up_stream].
    + by intros [Hh _]%andb_true_iff; apply Hun.
    + cbn [p_events]. by rewrite note_filter.
    + intros Hh. by rewrite Hh, orb_true_r in El.
  - destruct (negb (up_dialled (p_up p)) || up_closed (p_up p)); [injection E as <- <-; done|].
    destruct Hok as (used & Hr & Hu & Hpe & Hj & Hev & Hst & Hun). unfold redial_once in E.
    destruct (up_retried (p_up p) || negb (up_handshaking (p_up p))) eqn:Eh; cbn in E.
    { destruct reset; [done|]. injection E as <- <-. split; [|done]. exists used. by split_and!. }
    apply orb_false_iff in Eh as [Hre Hh%negb_false_iff]. destruct dial; [|done]. cbn in E. injection E as <- <-.
    split; [|done]. exists used. split_and!; try done; [cbn [p_events]; by rewrite note_filter|]. cbn [p_up up_unsent up_stream]. by rewrite (Hun Hh).
Qed.

Lemma pump_run_ok es : forall j data p ds p',
  pump_ok j data p -> pump_run es p = Ok (ds, p') ->
  pump_ok j (data ++ guest_bytes es) p' /\ Forall (fun c => c.1 = true) ds /\
  (length ds <= if up_retried (p_up p) then 0 else 1)%nat.
Proof.
  induction es as [|e es IH]; intros j data p ds p' Hok E; cbn [pump_run] in E.
  { injection E as <- <-. cbn. rewrite app_nil_r. split_and!; [done|constructor|destruct (up_retried (p_up p)); lia]. }
  destruct (pump_event e p) as [[d q]| | |] eqn:Ee; [|done..]. cbn in E.
  destruct (pump_run es q) as [[ds1 q1]| | |] eqn:Er; cbn in E; [|done..]. injection E as <- <-.
  destruct (pump_event_ok _ _ _ _ _ _ Hok Ee) as [Hq Hd]. destruct (IH _ _ _ _ _ Hq Er) as (Hq1 & Hf & Hl).
  split_and!.
  - replace (data ++ guest_bytes (e :: es)) with ((data ++ guest_bytes [e]) ++ guest_bytes es); [done|].
    unfold guest_bytes. cbn. by rewrite app_nil_r, app_assoc.
  - destruct d as [c|]; [constructor; [apply Hd|done]|done].
  - destruct d as [c|]; cbn [option_list app length].
    + destruct Hd as (_ & Ha & Hb). rewrite Hb in Hl. rewrite Ha. cbn. lia.
    + by rewrite <- Hd.
Qed.

(** C11: the origin gets the guest's requests rewritten, once and in order, however
    they arrive: whatever the pieces of the guest's stream and wherever the origin
    drops its connection, the connection the pump is left with carries exactly what
    one pass of the injector over the whole stream writes, what is still pending is
    the part of the stream that pass did not use, the injections on record are those
    of that pass, at most one connection was given up, and none on which a request
    could have been delivered. *)
Theorem origin_gets_stream_once j es ds p :
  pump_run es (pump_start j) = Ok (ds, p) ->
  exists used, o_res (process j (guest_bytes es)) = Ok used /\
    up_stream (p_up p) = o_out (process j (guest_bytes es)) /\ p_pending p = drop used (guest_bytes es) /\
    List.filter au_injected (p_events p) = o_events (process j (guest_bytes es)) /\
    (length ds <= 1)%nat /\ Forall (fun c => c.1 = true) ds.
Proof.
  intros E. destruct (pump_run_ok _ _ _ _ _ _ (pump_start_ok j) E) as ((used & Hr & _ & Hp & _ & He & Hs & _) & Hf & Hl).
  exists used. by split_and!.
Qed.

(** ** What is forwarded *)

Lemma size_line_prefix p q : forall acc d ext n acc' d' n',
  size_line (p ++ q) acc d ext n = SizeDone acc' d' n' -> (n' <= n + length p)%nat ->
  size_line p acc d ext n = SizeDone acc' d' n'.
Proof.
  induction p as [|b p IH]; intros acc d ext n acc' d' n' E Hn; cbn [app] in E.
  { apply size_line_range in E. cbn in Hn. lia. }
  cbn [size_line length] in *. destruct (b =? CR).
  { destruct p as [|b1 p]; [|done]. cbn in Hn. destruct q as [|y q]; [done|]. cbn in E. destruct (negb (y =? LF)); [done|].
    injection E as _ _ E. lia. }
  destruct (b =? 59); [apply IH; [done|lia]|]. destruct ext; [apply IH; [done|lia]|].
  destruct (hex_digit b); [|done]. destruct (16 <? d + 1); [done|]. apply IH; [done|lia].
Qed.

(** What the scanner has consumed it consumes again by itself. *)
Lemma consume_prefix (k : nat) : forall st a u st',
  (scan_measure st a < k)%nat -> consume st a = Ok (u, st') -> consume st (take u a) = Ok (u, st').
Proof.
  induction k as [|k IH]; intros st a u st' Hk E; [lia|].
  destruct a as [|x a]; [rewrite consume_unfold in E; injection E as <- <-; by rewrite consume_unfold|].
  destruct u as [|u]; [apply consume_zero in E as ->; by rewrite consume_unfold|].
  assert (forall n st1, (n <= length (x :: a))%nat ->
    (scan_measure st1 (drop n (x :: a)) < scan_measure st (x :: a))%nat ->
    next n (consume st1 (drop n (x :: a))) = Ok (S u, st') ->
    ((n <= S u)%nat -> consume st (take (S u) (x :: a)) = next n (consume st1 (drop n (take (S u) (x :: a))))) ->
    consume st (take (S u) (x :: a)) = Ok (S u, st')) as Hgo.
  { intros n st1 Hn Hm E1 E2. destruct (consume st1 (drop n (x :: a))) as [[m st2]| | |] eqn:Em; cbn in E1; [|done..].
    injection E1 as E1 <-. rewrite <- E1 in E2 |- *. rewrite E2 by lia. rewrite <- take_drop_commute. rewrite (IH st1 _ m st2); [done|lia|done]. }
  pose proof (consume_unfold st (x :: a)) as Eu. rewrite E in Eu. cbv beta iota zeta in Eu.
  pose proof (consume_unfold st (x :: take u a)) as Ev. cbv beta iota zeta in Ev.
  change (consume st (x :: take u a)) with (consume st (take (S u) (x :: a))) in Ev.
  destruct st as [|r|seen|bl col|].
  - destruct (size_line (x :: a) 0 0 false 0) as [| |acc d n] eqn:El; [done..|].
    destruct (Z.eqb_spec d 0) as [|Hd]; [done|]. pose proof (size_line_range _ _ _ _ _ _ _ _ El) as Hr.
    apply (Hgo n (after_size acc)); [cbn in *; lia| |done|].
    + unfold scan_measure, after_size. rewrite length_drop. destruct (acc =? 0); lia.
    + intros Hnu. rewrite Ev. change (x :: take u a) with (take (S u) (x :: a)).
      rewrite (size_line_prefix _ (drop (S u) (x :: a)) _ _ _ _ acc d n); [|by rewrite take_drop|rewrite length_take; lia].
      by rewrite (proj2 (Z.eqb_neq _ _)).
  - eapply (Hgo (Z.to_nat (Z.min r (Z.of_nat (length (x :: a))))) _); [lia| |exact (eq_sym Eu)|].
    + unfold scan_measure. rewrite length_drop. destruct (Z.eqb_spec (r - Z.min r (Z.of_nat (length (x :: a)))) 0); cbn [length] in *; lia.
    + intros Htu. rewrite Ev. change (x :: take u a) with (take (S u) (x :: a)). rewrite length_take.
      replace (Z.min r (Z.of_nat (S u `min` length (x :: a)))) with (Z.min r (Z.of_nat (length (x :: a)))) by lia. done.
  - destruct (negb (x =? _)) eqn:Ex; [done|]. eapply (Hgo 1%nat); [cbn; lia| |exact (eq_sym Eu)|].
    + unfold scan_measure. rewrite length_drop. cbn [length]. destruct (seen =? 0); lia.
    + intros Hu. by rewrite Ev.
  - eapply (Hgo 1%nat); [cbn; lia| |exact (eq_sym Eu)|].
    + unfold scan_measure, trailer_byte. rewrite length_drop. cbn [length].
      destruct (x =? LF), (x =? CR), bl, (col =? 0); cbn; lia.
    + intros Hu. by rewrite Ev.
  - done.
Qed.

(** A request as it arrived: the bytes of its head, the head, the bytes of its body
    so far. *)
Record Msg := mkMsg { m_raw : list Z; m_head : RequestHead; m_body : list Z }.

Definition head_ok (m : Msg) : Prop := parse (m_raw m) = Ok (m_head m) /\ h_len (m_head m) = length (m_raw m).

(** The body has its end. *)
Definition complete (mode : BodyMode) (bs : list Z) : Prop :=
  match mode with
  | BodyEmpty => bs = []
  | BodyLength n => Z.of_nat (length bs) = n
  | BodyChunked => consume Size bs = Ok (length bs, Done)
  end.

(** The injector [j'] is where [bs] more bytes of a body bring [j]. *)
Definition continues (j : Injector) (bs : list Z) (j' : Injector) : Prop :=
  match i_phase j with
  | PHead => bs = [] /\ j' = j
  | PBody BodyEmpty => bs = []
  | PBody (BodyLength r) =>
      (i_phase j' = PHead /\ Z.of_nat (length bs) = r) \/
      (i_phase j' = PBody (BodyLength (r - Z.of_nat (length bs))) /\ Z.of_nat (length bs) <= r)
  | PBody BodyChunked =>
      consume (i_chunked j) bs = Ok (length bs, i_chunked j') /\
      i_phase j' = (if bool_decide (i_chunked j' = Done) then PHead else PBody BodyChunked)
  end.

(** The injector right after a head. *)
Definition after_head (mode : BodyMode) (j : Injector) : Injector :=
  set_phase (match mode with BodyEmpty => PHead | other => PBody other end) Size j.

(** Every request but the last has its whole body; the last has what brings the
    injector to [j']. *)
Fixpoint bodies_ok (j : Injector) (msgs : list Msg) (j' : Injector) : Prop :=
  match msgs with
  | [] => True
  | m :: ms =>
      exists mode, body_mode (h_headers (m_head m)) = Ok mode /\
        match ms with
        | [] => continues (after_head mode j) (m_body m) j'
        | _ => complete mode (m_body m) /\ bodies_ok j ms j'
        end
  end.

Definition arrived (m : Msg) : list Z := m_raw m ++ m_body m.
Definition rewritten (j : Injector) (m : Msg) : list Z := render_with [(i_header j, i_value j)] (m_head m) ++ m_body m.

(** What a run is about: the rest of the body it starts in, and then requests. *)
Definition forwards (j : Injector) (buf : list Z) (used : nat) (o : Outcome) : Prop :=
  exists bs msgs,
    take used buf = bs ++ concat (arrived <$> msgs) /\ o_out o = bs ++ concat (rewritten j <$> msgs) /\
    o_events o = (fun m => injection_event j (m_head m)) <$> msgs /\ Forall head_ok msgs /\
    match msgs with
    | [] => continues j bs (o_inj o)
    | _ => (exists j1, continues j bs j1 /\ i_phase j1 = PHead) /\ bodies_ok j msgs (o_inj o)
    end.

Definition phase_ok (j : Injector) : Prop :=
  match i_phase j with PBody (BodyLength r) => 0 <= r | PBody BodyChunked => i_chunked j <> Done | _ => True end.

Lemma parse_take buf h : parse buf = Ok h -> parse (take (h_len h) buf) = Ok h.
Proof.
  intros E. pose proof (parse_len buf h E) as Hl. unfold parse in *.
  destruct (find_head_end buf) as [e|] eqn:Ee; [|by case_match].
  assert (h_len h = e) as Hh.
  { destruct (MAX_HEAD <? Z.of_nat e); [done|]. destruct (from_utf8 (take e buf)); [|done]. unfold parse_text in E.
    repeat case_match; try done. destruct (parse_headers _); [|done..]. cbn in E. by injection E as <-. }
  rewrite Hh in *. clear Hh.
  assert (find_head_end (take e buf) = Some e) as ->.
  { destruct (find_head_end (take e buf)) as [e'|] eqn:Et.
    - pose proof (find_head_end_app (take e buf) (drop e buf) e' Et) as Ea. rewrite take_drop in Ea. congruence.
    - pose proof (find_head_end_late (take e buf) (drop e buf) e Et) as Hla. rewrite take_drop in Hla.
      specialize (Hla Ee). rewrite length_take in Hla. lia. }
  by rewrite take_take, Nat.min_id.
Qed.

Lemma digits_val_nonneg s : forallb is_digit s = true -> 0 <= digits_val s.
Proof.
  unfold digits_val. intros Hs. assert (forall acc, 0 <= acc -> 0 <= foldl (fun acc c => acc * 10 + (c - 48)) acc s) as Hg; [|by apply Hg].
  induction s as [|c s IH]; intros acc Ha; cbn [foldl]; [done|]. cbn [forallb] in Hs.
  apply andb_true_iff in Hs as [Hc%in_range_spec Hs]. apply IH; [done|]. lia.
Qed.

Lemma body_mode_nonneg hs n : body_mode hs = Ok (BodyLength n) -> 0 <= n.
Proof.
  unfold body_mode. intros E. destruct (values_of (lit "transfer-encoding") hs) as [|te [|]], (values_of (lit "content-length") hs) as [|v vs];
    try done; [|by case_match].
  destruct (parse_u64 (trim v)) as [p|] eqn:Ep; [|done]. destruct (existsb _ _); [done|]. injection E as <-.
  unfold parse_u64 in Ep. destruct (_ && _ && _) eqn:Ec; [|done]. injection Ep as <-.
  apply andb_true_iff in Ec as [[_ Hd]%andb_true_iff _]. by apply digits_val_nonneg.
Qed.

Lemma continues_complete mode j bs j1 :
  continues (after_head mode j) bs j1 -> i_phase j1 = PHead -> complete mode bs.
Proof.
  unfold continues, after_head. destruct mode as [|n|]; rewrite phase_set; cbn [i_chunked set_phase complete].
  - by intros [-> _].
  - intros [[_ Hb]|[Hp _]] Hph; [done|congruence].
  - intros [Ec Hp] Hph. rewrite Hp in Hph. case_bool_decide as Hd; [|done]. by rewrite Hd in Ec.
Qed.

Lemma bodies_ok_phase p c j ms j' : bodies_ok (set_phase p c j) ms j' -> bodies_ok j ms j'.
Proof.
  induction ms as [|m ms IH]; [done|]. cbn [bodies_ok]. intros (mode & Hm & Hb). exists mode. split; [done|].
  destruct ms; [done|]. destruct Hb as [Hc Hb]. split; [done|]. by apply IH.
Qed.

(** One more request in front. *)
Lemma forwards_head j buf used h mode o :
  parse buf = Ok h -> body_mode (h_headers h) = Ok mode -> i_phase j = PHead ->
  forwards (after_head mode j) (drop (h_len h) buf) used o ->
  forwards j buf (h_len h + used)
    (then_ (h_len h) (render_with [(i_header j, i_value j)] h) [injection_event j h] o).
Proof.
  intros Hp Hm Hj (bs & msgs & Ht & Ho & He & Hh & Hc). pose proof (parse_len _ _ Hp) as Hl.
  exists [], (mkMsg (take (h_len h) buf) h bs :: msgs). split_and!.
  - change (take (h_len h + used) buf = (take (h_len h) buf ++ bs) ++ concat (arrived <$> msgs)).
    by rewrite <- app_assoc, <- Ht, take_take_drop.
  - change (render_with [(i_header j, i_value j)] h ++ o_out o =
      (render_with [(i_header j, i_value j)] h ++ bs) ++ concat (rewritten j <$> msgs)). by rewrite Ho, <- app_assoc.
  - change ([injection_event j h] ++ o_events o = injection_event j h :: ((fun m => injection_event j (m_head m)) <$> msgs)).
    by rewrite He.
  - constructor; [|done]. split; cbn; [by apply parse_take|]. rewrite length_take. lia.
  - exists j. unfold continues. by rewrite Hj.
  - cbn [bodies_ok m_head m_body then_ o_inj]. exists mode. split; [done|].
    destruct msgs as [|m msgs]; [done|]. destruct Hc as [(j1 & Hc & Hp1) Hb]. split; [by eapply continues_complete|]. by eapply bodies_ok_phase.
Qed.

(** More of the body in front. *)
Lemma forwards_body j j1 buf n used o :
  (n <= length buf)%nat ->
  (forall bs j', continues j1 bs j' -> continues j (take n buf ++ bs) j') ->
  (exists p c, j1 = set_phase p c j) ->
  forwards j1 (drop n buf) used o -> forwards j buf (n + used) (then_ n (take n buf) [] o).
Proof.
  intros Hn Hc (p & c & Ej) (bs & msgs & Ht & Ho & He & Hh & Hm). exists (take n buf ++ bs), msgs. split_and!.
  - by rewrite <- app_assoc, <- Ht, take_take_drop.
  - cbn [then_ o_out]. rewrite Ho, <- app_assoc. by subst j1.
  - cbn [then_ o_events app]. rewrite He. by subst j1.
  - done.
  - cbn [then_ o_inj]. destruct msgs as [|m msgs]; [by apply Hc|]. destruct Hm as [(j2 & Hj2 & Hp2) Hb]. split.
    + exists j2. split; [by apply Hc|done].
    + subst j1. by eapply bodies_ok_phase.
Qed.

Lemma forwards_stop j buf : phase_ok j -> forwards j buf 0 (stop (Ok O) j).
Proof.
  intros Hok. exists [], []. split_and!; [done..|constructor|]. unfold continues, phase_ok in *. cbn [stop o_inj].
  destruct (i_phase j) as [|[|r|]]; [done..| |].
  - right. cbn [length]. split; [do 2 f_equal; lia|lia].
  - rewrite consume_unfold. by rewrite bool_decide_false.
Qed.

Lemma forwards_length j r x a k :
  (forall j' buf used, (proc_measure j' buf < k)%nat -> phase_ok j' -> o_res (process j' buf) = Ok used ->
     forwards j' buf used (process j' buf)) ->
  (proc_measure j (x :: a) < S k)%nat -> i_phase j = PBody (BodyLength r) -> 0 <= r ->
  forall used, o_res (process j (x :: a)) = Ok used -> forwards j (x :: a) used (process j (x :: a)).
Proof.
  intros IH Hk Hp Hr used E. pose proof (process_unfold j (x :: a)) as Eu. rewrite Hp in Eu. cbv iota zeta in Eu.
  set (t := Z.min r (Z.of_nat (length (x :: a)))) in *. rewrite Eu in E |- *. unfold proc_measure in Hk. rewrite Hp in Hk.
  set (j1 := set_phase (if r - t =? 0 then PHead else PBody (BodyLength (r - t))) (i_chunked j) j) in *.
  cbn [then_ o_res] in E. destruct (o_res (process j1 (drop (Z.to_nat t) (x :: a)))) as [u| | |] eqn:E1; [|done..].
  cbn in E. injection E as <-. assert (0 < t <= Z.of_nat (length (x :: a)) \/ t = 0) as Ht by (cbn [length] in *; lia).
  apply (forwards_body j j1); [lia| |by eexists _, _|].
  - unfold continues. rewrite Hp. subst j1. rewrite phase_set. intros bs j' Hc.
    assert (Z.of_nat (length (take (Z.to_nat t) (x :: a) ++ bs)) = t + Z.of_nat (length bs)) as ->.
    { rewrite length_app, length_take. lia. }
    destruct (Z.eqb_spec (r - t) 0) as [Ez|Ez].
    + destruct Hc as [-> ->]. left. split; [done|cbn; lia].
    + destruct Hc as [[Hph Hl]|[Hph Hl]]; [left; split; [done|lia]|right]. split; [|lia]. rewrite Hph. do 2 f_equal. lia.
  - apply IH; [|subst j1; unfold phase_ok; rewrite phase_set; destruct (Z.eqb_spec (r - t) 0); [done|lia]|done].
    subst j1. unfold proc_measure. rewrite phase_set, length_drop. destruct (Z.eqb_spec (r - t) 0); cbn [length] in *; lia.
Qed.

Lemma forwards_chunked j x a k :
  (forall j' buf used, (proc_measure j' buf < k)%nat -> phase_ok j' -> o_res (process j' buf) = Ok used ->
     forwards j' buf used (process j' buf)) ->
  (proc_measure j (x :: a) < S k)%nat -> i_phase j = PBody BodyChunked -> i_chunked j <> Done ->
  forall used, o_res (process j (x :: a)) = Ok used -> forwards j (x :: a) used (process j (x :: a)).
Proof.
  intros IH Hk Hp Hd used E. rewrite process_chunked in E |- * by done.
  destruct (consume (i_chunked j) (x :: a)) as [[n st]| | |] eqn:Ec; [|done..].
  destruct (consume_app _ _ [] _ _ Ec) as [Hle _]. unfold proc_measure in Hk. rewrite Hp in Hk.
  destruct (negb (bool_decide (st = Done)) && (n =? 0)%nat) eqn:Ew.
  - apply andb_true_iff in Ew as [Ew%negb_true_iff%bool_decide_eq_false ->%Nat.eqb_eq]. injection E as <-.
    apply consume_zero in Ec as ->. replace (in_chunk (i_chunked j) j) with j; [by apply forwards_stop; unfold phase_ok; rewrite Hp|].
    unfold in_chunk. rewrite bool_decide_false by done. destruct j. cbn in *. by subst.
  - cbn [then_ o_res] in E. destruct (o_res (process (in_chunk st j) (drop n (x :: a)))) as [u| | |] eqn:E1; [|done..].
    cbn in E. injection E as <-. apply (forwards_body j (in_chunk st j)); [done| |by eexists _, _|].
    + pose proof (consume_prefix _ _ _ _ _ (Nat.lt_succ_diag_r _) Ec) as Epre. intros bs j' Hc. unfold continues in *. rewrite Hp.
      assert (length (take n (x :: a)) = n) as Hln by (rewrite length_take; lia).
      destruct (consume_app _ _ bs _ _ Epre) as [_ Eapp]. rewrite drop_ge in Eapp by lia. cbn [app] in Eapp.
      rewrite length_app, Hln, Eapp.
      unfold in_chunk in Hc. rewrite phase_set in Hc. case_bool_decide as Hst.
      * destruct Hc as [-> ->]. cbn [i_chunked i_phase set_phase]. rewrite consume_unfold. rewrite bool_decide_true by done.
        cbn. by rewrite Nat.add_0_r.
      * destruct Hc as [Hc Hph]. cbn [i_chunked set_phase] in Hc. rewrite Hc. by split.
    + apply IH; [|unfold phase_ok, in_chunk; rewrite phase_set; by case_bool_decide|done].
      unfold proc_measure, in_chunk. rewrite phase_set, length_drop. case_bool_decide as Hst; [lia|].
      cbn [negb andb] in Ew. apply Nat.eqb_neq in Ew. lia.
Qed.

Lemma process_forwards (k : nat) : forall j buf used,
  (proc_measure j buf < k)%nat -> phase_ok j -> o_res (process j buf) = Ok used -> forwards j buf used (process j buf).
Proof.
  induction k as [|k IH]; intros j buf used Hk Hok E; [lia|].
  destruct buf as [|x a]; [rewrite process_unfold in E |- *; injection E as <-; by apply forwards_stop|].
  destruct (i_phase j) as [|[|r|]] eqn:Hp.
  - pose proof (process_unfold j (x :: a)) as Eu. rewrite Hp in Eu. cbv iota in Eu. rewrite Eu in E |- *.
    destruct (parse (x :: a)) as [h|[|]| |] eqn:Ep; [|injection E as <-; by apply forwards_stop|done..].
    destruct (body_mode (h_headers h)) as [m| | |] eqn:Em; [|done..]. fold (after_head m j) in E |- *.
    cbn [then_ o_res] in E. destruct (o_res (process (after_head m j) _)) as [u| | |] eqn:E1; [|done..].
    cbn in E. injection E as <-. apply (forwards_head _ _ _ _ m); [done..|]. apply parse_len in Ep. apply IH; [| |done].
    + unfold proc_measure, after_head in *. rewrite Hp in Hk. rewrite phase_set, length_drop. destruct m; cbn [length] in *; lia.
    + unfold phase_ok, after_head. rewrite phase_set. destruct m; [done| |done]. by apply body_mode_nonneg in Em.
  - pose proof (process_unfold j (x :: a)) as Eu. rewrite Hp in Eu. cbv iota in Eu. rewrite Eu in E |- *.
    unfold proc_measure in Hk. rewrite Hp in Hk.
    assert (proc_measure (set_phase PHead (i_chunked j) j) (x :: a) < k)%nat as Hm by (unfold proc_measure; rewrite phase_set; lia).
    destruct (IH _ _ _ Hm I E) as (bs & msgs & Ht & Ho & He & Hh & Hc). exists bs, msgs. split_and!; [done..|].
    destruct msgs as [|m msgs]; unfold continues in *; rewrite Hp.
    + by destruct Hc.
    + destruct Hc as [(j1 & [-> ->] & _) Hb]. split; [by exists (set_phase PHead (i_chunked j) j)|]. by eapply bodies_ok_phase.
  - unfold phase_ok in Hok. rewrite Hp in Hok. by apply (forwards_length j r x a k).
  - unfold phase_ok in Hok. rewrite Hp in Hok. by apply (forwards_chunked j x a k).
Qed.

(** C10: the requests of a connection reach the origin whole and in order: what a pass
    of the injector used of the guest's bytes is a sequence of requests, each a head
    it read and the bytes of its body; what it wrote is the same sequence with every
    head written out again and every body unchanged; every body but the last ends
    where its own framing ends it; and there is one record of an injection for each
    head, in order. *)
Theorem requests_forwarded j buf used :
  i_phase j = PHead -> o_res (process j buf) = Ok used ->
  exists msgs, take used buf = concat (arrived <$> msgs) /\ o_out (process j buf) = concat (rewritten j <$> msgs) /\
    o_events (process j buf) = (fun m => injection_event j (m_head m)) <$> msgs /\
    Forall head_ok msgs /\ bodies_ok j msgs (o_inj (process j buf)).
Proof.
  intros Hp E. assert (phase_ok j) as Hok by (unfold phase_ok; by rewrite Hp).
  destruct (process_forwards _ j buf used (Nat.lt_succ_diag_r _) Hok E) as (bs & msgs & Ht & Ho & He & Hh & Hc).
  assert (bs = []) as ->.
  { unfold continues in Hc. rewrite Hp in Hc. by destruct msgs; destruct Hc as [Hc _]; [|destruct Hc as (? & [-> _] & _)]. }
  exists msgs. split_and!; [done..|]. destruct msgs as [|m msgs]; [done|apply Hc].
Qed.

(** ** The credential stays out of the record *)

Definition with_value (v : str) (j : Injector) : Injector :=
  mkInj (i_header j) v (i_rule j) (i_destination j) (i_expected_host j) (i_phase j) (i_chunked j).

Lemma process_value (k : nat) v : forall j buf,
  (proc_measure j buf < k)%nat ->
  o_res (process (with_value v j) buf) = o_res (process j buf) /\
  o_events (process (with_value v j) buf) = o_events (process j buf) /\
  o_inj (process (with_value v j) buf) = with_value v (o_inj (process j buf)).
Proof.
  induction k as [|k IH]; intros j buf Hk; [lia|]. rewrite (process_unfold (with_value v j)), (process_unfold j). unfold proc_measure in *.
  assert (forall p c, set_phase p c (with_value v j) = with_value v (set_phase p c j)) as Esp by done.
  change (i_phase (with_value v j)) with (i_phase j). change (i_chunked (with_value v j)) with (i_chunked j).
  assert (forall n out out' ev p c a, (2 * length a + match p with PHead => 0 | PBody _ => 1 end < k)%nat ->
    let o1 := then_ n out ev (process (set_phase p c (with_value v j)) a) in
    let o2 := then_ n out' ev (process (set_phase p c j) a) in
    o_res o1 = o_res o2 /\ o_events o1 = o_events o2 /\ o_inj o1 = with_value v (o_inj o2)) as Hgo.
  { intros n out out' ev p c a Ha. cbv zeta. rewrite Esp. destruct (IH (set_phase p c j) a Ha) as (H1 & H2 & H3).
    cbn [then_ o_res o_events o_inj]. by rewrite H1, H2, H3. }
  destruct buf as [|x a]; [done|]. destruct (i_phase j) as [|[|r|]] eqn:Hp.
  - destruct (parse (x :: a)) as [h|[|]| |] eqn:Ep; [|done..]. destruct (body_mode (h_headers h)) as [m| | |]; [|done..].
    apply parse_len in Ep. apply Hgo. rewrite length_drop. destruct m; cbn [length] in *; lia.
  - rewrite Esp. apply IH. rewrite phase_set. lia.
  - cbv zeta. apply Hgo. rewrite length_drop.
    destruct (Z.eqb_spec (r - Z.min r (Z.of_nat (length (x :: a)))) 0); cbn [length] in *; lia.
  - destruct (consume (i_chunked j) (x :: a)) as [[n st]| | |]; [|done..]. cbv zeta.
    destruct (negb (bool_decide (st = Done)) && (n =? 0)%nat) eqn:Ew; [done|]. apply Hgo.
    rewrite length_drop. case_bool_decide; [lia|]. apply Nat.eqb_neq in Ew. cbn [length] in *. lia.
Qed.

(** Nothing the proxy records of a request depends on the credential: with another
    value the injector takes the same bytes, ends the same way and records the same
    events. *)
Theorem audit_ignores_secret v j buf :
  o_res (process (with_value v j) buf) = o_res (process j buf) /\
  o_events (process (with_value v j) buf) = o_events (process j buf).
Proof. destruct (process_value _ v j buf (Nat.lt_succ_diag_r _)) as (H1 & H2 & _). by split. Qed.

(** A connection whose origin goes away once, with two requests in three pieces. *)
Definition demo_injector : Injector :=
  mkInj (lit "Authorization") (lit "Bearer s3") (lit "rule") (lit "host:443") None PHead Size.
Definition demo_request : list Z :=
  lit "POST / HTTP/1.1" ++ crlf ++ lit "Transfer-Encoding: chunked" ++ crlf ++ lit "authorization: mine" ++ crlf ++ crlf ++
  lit "2" ++ crlf ++ lit "hi" ++ crlf ++ lit "0" ++ crlf ++ crlf ++ lit "GET /a HTTP/1.1" ++ crlf ++ crlf.
Definition demo_events : list PumpEvent :=
  [GuestData (take 30 demo_request) true; GuestData (drop 30 (take 80 demo_request)) true; OriginGone true true;
   OriginBytes (Some (lit "TLSv1_3")); GuestData (drop 80 demo_request) true].

Lemma origin_gets_stream_once_witness :
  exists ds p, pump_run demo_events (pump_start demo_injector) = Ok (ds, p) /\ length ds = 1%nat /\
    up_stream (p_up p) = o_out (process demo_injector demo_request).
Proof.
  assert (guest_bytes demo_events = demo_request) as Eg by (vm_compute; reflexivity).
  assert ((match pump_run demo_events (pump_start demo_injector) with Ok r => length r.1 | _ => O end) = 1%nat) as Hl
    by (vm_compute; reflexivity).
  destruct (pump_run demo_events (pump_start demo_injector)) as [[ds p]| | |] eqn:E; [|discriminate Hl..].
  destruct (origin_gets_stream_once demo_injector demo_events ds p E) as (used & _ & Hs & _). rewrite Eg in Hs.
  exists ds, p. exact (conj eq_refl (conj Hl Hs)).
Defined.

Lemma requests_forwarded_witness :
  exists msgs, length msgs = 2%nat /\ demo_request = concat (arrived <$> msgs) /\
    o_out (process demo_injector demo_request) = concat (rewritten demo_injector <$> msgs).
Proof.
  destruct (requests_forwarded demo_injector demo_request (length demo_request)) as (msgs & Ht & Ho & He & _);
    [reflexivity|vm_compute; reflexivity|]. exists msgs. split_and!; [|by rewrite <- Ht, take_ge|done].
  apply (f_equal length) in He. rewrite length_fmap in He. rewrite <- He. vm_compute. reflexivity.
Defined.
