(* ===== verification/HttpHead.v ===== *)
(** * What the origin reads of a rewritten request

    The head the credential proxy writes out ([render_with] of
    [src/chm/src/credproxy/http.rs]) is read back by the same rules it reads the
    guest's with: the request line is the guest's, its headers are those that were
    kept, and the credential is there once. *)

From Stdlib Require Import ZArith Lia Bool.
From stdpp Require Import base numbers list list_numbers option.
From S2P Require Import Prelude Text TextFacts Dns Utf8 HttpProxy.

(** ** Lines *)

Definition starts (x : Z) (l : list Z) : bool := match l with d :: _ => d =? x | [] => false end.

(** No CR LF inside. *)
Fixpoint no_crlf (s : list Z) : bool :=
  match s with
  | [] => true
  | c :: s => negb ((c =? CR) && starts LF s) && no_crlf s
  end.

Lemma starts_app x a b : a <> [] -> starts x (a ++ b) = starts x a.
Proof. by destruct a. Qed.

Lemma no_crlf_app_inv a b : no_crlf (a ++ b) = true -> no_crlf a = true /\ no_crlf b = true.
Proof.
  induction a as [|c a IH]; [done|]. cbn [app no_crlf]. intros [Hc Hr]%andb_true_iff. apply IH in Hr as [-> ->].
  split; [|done]. apply andb_true_iff. split; [|done]. destruct a as [|d a]; [by rewrite andb_false_r|done].
Qed.

Lemma no_crlf_mid a x b : x <> CR -> x <> LF -> no_crlf a = true -> no_crlf b = true -> no_crlf (a ++ x :: b) = true.
Proof.
  intros H1 H2 Ha Hb. induction a as [|c a IH]; cbn [app no_crlf] in *.
  { rewrite (proj2 (Z.eqb_neq _ _) H1). done. }
  apply andb_true_iff in Ha as [Hc Ha]. rewrite (IH Ha), andb_true_r. destruct a as [|d a]; [|done].
  cbn [app starts]. by rewrite (proj2 (Z.eqb_neq _ _) H2), andb_false_r.
Qed.

Lemma no_crlf_skip a b : Forall (fun x => x <> CR) a -> no_crlf (a ++ b) = no_crlf b.
Proof.
  induction 1 as [|c a Hc _ IH]; [done|]. cbn [app no_crlf]. by rewrite (proj2 (Z.eqb_neq _ _) Hc), IH.
Qed.

(** A byte below 128 in an encoding is a character. *)
Lemma starts_as_bytes x s : 0 <= x < 128 -> Forall scalar s -> starts x (as_bytes s) = starts x s.
Proof.
  intros Hx Hs. destruct Hs as [|c s Hc _]; [done|]. rewrite as_bytes_cons. destruct (Z.ltb_spec c 128).
  - rewrite utf8_char_low by (unfold scalar in Hc; lia). done.
  - pose proof (utf8_char_high c Hc ltac:(lia)) as Hh. pose proof (utf8_char_length c).
    destruct (utf8_char c) as [|b bs]; [cbn in *; lia|]. apply list.Forall_cons in Hh as [Hb _]. cbn [app starts].
    rewrite !(proj2 (Z.eqb_neq _ _)); [done|lia..].
Qed.

Lemma no_crlf_as_bytes s : Forall scalar s -> no_crlf s = true -> no_crlf (as_bytes s) = true.
Proof.
  induction 1 as [|c s Hc Hs IH]; [done|]. cbn [no_crlf]. intros [Hn Hr]%andb_true_iff. rewrite as_bytes_cons.
  destruct (Z.ltb_spec c 128).
  - rewrite utf8_char_low by (unfold scalar in Hc; lia). cbn [app no_crlf]. rewrite starts_as_bytes by (unfold LF; done || lia).
    by rewrite Hn, IH.
  - rewrite no_crlf_skip; [by apply IH|]. eapply list.Forall_impl; [by apply (utf8_char_high c)|]. cbn. unfold CR. lia.
Qed.

Lemma split_crlf_line l t : no_crlf l = true -> split_crlf (l ++ CR :: LF :: t) = l :: split_crlf t.
Proof.
  induction l as [|c l IH]; [done|]. cbn [no_crlf]. intros [Hc Hl]%andb_true_iff. cbn [app split_crlf]. rewrite IH by done.
  destruct l as [|d l]; cbn [app starts] in *; [by rewrite andb_comm|]. apply negb_true_iff in Hc. by rewrite Hc.
Qed.

(** The pieces of a split are lines of the text. *)
Lemma split_crlf_cons c s1 :
  (exists s2, c = CR /\ s1 = LF :: s2 /\ split_crlf (c :: s1) = [] :: split_crlf s2) \/
  (c =? CR) && starts LF s1 = false /\
    exists w ws, split_crlf s1 = w :: ws /\ split_crlf (c :: s1) = (c :: w) :: ws.
Proof.
  assert (forall s, split_crlf s <> []) as Hne.
  { intros [|x s]; [done|]. cbn [split_crlf]. destruct s as [|y s]; [done|]. destruct (_ && _); [done|]. by destruct (split_crlf (y :: s)). }
  cbn [split_crlf]. specialize (Hne s1). destruct (split_crlf s1) as [|w ws]; [done|]. destruct s1 as [|d s2].
  { right. rewrite andb_false_r. split; [done|]. by exists w, ws. }
  cbn [starts]. destruct ((c =? CR) && (d =? LF)) eqn:E; [left|right; split; [done|by exists w, ws]].
  apply andb_true_iff in E as [->%Z.eqb_eq ->%Z.eqb_eq]. by exists s2.
Qed.

Lemma split_crlf_first s w ws : split_crlf s = w :: ws -> starts LF w = true -> starts LF s = true.
Proof.
  destruct s as [|c s]; [by intros [= <- <-]|].
  destruct (split_crlf_cons c s) as [(s2 & _ & _ & ->)|(_ & w' & ws' & _ & ->)]; by intros [= <- <-].
Qed.

Lemma split_crlf_lines (P : Z -> Prop) (k : nat) : forall s,
  (length s < k)%nat -> Forall P s -> Forall (fun l => no_crlf l = true /\ Forall P l) (split_crlf s).
Proof.
  induction k as [|k IH]; intros s Hk Hs; [lia|]. destruct s as [|c s]; [by repeat constructor|].
  apply list.Forall_cons in Hs as [Hc Hs]. cbn [length] in Hk.
  destruct (split_crlf_cons c s) as [(s2 & -> & -> & ->)|(Hn & w & ws & Ew & ->)].
  - constructor; [done|]. apply IH; [cbn in Hk; lia|]. by apply list.Forall_cons in Hs as [_ Hs].
  - specialize (IH s ltac:(lia) Hs). rewrite Ew in IH. apply list.Forall_cons in IH as [[Hw HP] Hws].
    constructor; [|done]. split; [|by constructor]. cbn [no_crlf]. rewrite Hw, andb_true_r. apply negb_true_iff.
    destruct (c =? CR); [|done]. destruct (starts LF w) eqn:E; [|done]. apply (split_crlf_first _ _ _ Ew) in E. by rewrite E in Hn.
Qed.

(** The end of a head is the first empty line. *)
Lemma find_head_end_line l t :
  l <> [] -> no_crlf l = true -> starts CR t && starts LF (drop 1 t) = false ->
  find_head_end (l ++ CR :: LF :: t) = (fun e => length l + 2 + e)%nat <$> find_head_end t.
Proof.
  intros Hne Hl Ht. clear Hne. induction l as [|c l IH].
  - cbn [app find_head_end length]. rewrite bool_decide_false; [|].
    + rewrite bool_decide_false by (by intros [=]). by destruct (find_head_end t).
    + cbn [take crlf app]. intros [= E]. destruct t as [|a [|b t]]; [done..|]. cbn in E. injection E as -> ->. done.
  - cbn [no_crlf] in Hl. apply andb_true_iff in Hl as [Hc Hl]. cbn [app find_head_end]. rewrite IH by done.
    rewrite bool_decide_false; [by destruct (find_head_end t)|]. destruct l as [|d l]; cbn [app take]; [by intros [=]|].
    intros [= -> -> _]. done.
Qed.

Lemma find_head_end_last l t :
  no_crlf l = true -> find_head_end (l ++ CR :: LF :: CR :: LF :: t) = Some (length l + 4)%nat.
Proof.
  induction l as [|c l IH]; [done|]. cbn [no_crlf]. intros [Hc Hl]%andb_true_iff. cbn [app find_head_end]. rewrite IH by done.
  rewrite bool_decide_false; [done|]. destruct l as [|d l]; cbn [app take]; [by intros [=]|]. intros [= -> -> _]. done.
Qed.

Definition line_ok (l : str) : Prop := l <> [] /\ no_crlf l = true /\ Forall scalar l.

(** The text of a head with these lines. *)
Definition text_of (ls : list str) : str := concat ((fun l => l ++ crlf) <$> ls) ++ crlf.

Lemma text_of_cons l ls : text_of (l :: ls) = l ++ CR :: LF :: text_of ls.
Proof. unfold text_of. cbn. by rewrite <- !app_assoc. Qed.

Lemma as_bytes_line l ls : as_bytes (text_of (l :: ls)) = as_bytes l ++ CR :: LF :: as_bytes (text_of ls).
Proof. by rewrite text_of_cons, as_bytes_app. Qed.

Lemma split_text ls : Forall line_ok ls -> split_crlf (text_of ls) = ls ++ [[]; []].
Proof. induction 1 as [|l ls (_ & Hl & _) _ IH]; [done|]. by rewrite text_of_cons, split_crlf_line, IH. Qed.

Lemma text_scalar ls : Forall line_ok ls -> Forall scalar (text_of ls).
Proof.
  assert (scalar CR /\ scalar LF) as [Hcr Hlf] by (unfold scalar, CR, LF; lia).
  induction 1 as [|l ls (_ & _ & Hl) _ IH]; [by repeat constructor|]. rewrite text_of_cons. apply Forall_app. by repeat constructor.
Qed.

Lemma as_bytes_nonnil l : l <> [] -> as_bytes l <> [].
Proof. destruct l as [|c l]; [done|]. intros _. rewrite as_bytes_cons. pose proof (utf8_char_length c). by destruct (utf8_char c); [cbn in *; lia|]. Qed.

Lemma find_head_end_text l ls rest :
  line_ok l -> Forall line_ok ls ->
  find_head_end (as_bytes (text_of (l :: ls)) ++ rest) = Some (length (as_bytes (text_of (l :: ls)))).
Proof.
  intros Hl Hls. revert l Hl. induction Hls as [|l2 ls Hl2 _ IH]; intros l (Hne & Hl & Hs).
  - rewrite as_bytes_line. change (as_bytes (text_of [])) with [CR; LF]. rewrite <- app_assoc. cbn [app].
    rewrite find_head_end_last by (by apply no_crlf_as_bytes). f_equal. rewrite length_app. cbn. lia.
  - rewrite as_bytes_line, <- app_assoc. cbn [app]. rewrite find_head_end_line.
    + rewrite IH by done. cbn. f_equal. rewrite length_app. cbn. lia.
    + by apply as_bytes_nonnil.
    + by apply no_crlf_as_bytes.
    + destruct Hl2 as (Hne2 & Hl2 & Hs2). apply as_bytes_nonnil in Hne2. apply no_crlf_as_bytes in Hl2; [|done].
      rewrite as_bytes_line. destruct (as_bytes l2) as [|x [|y b]]; [done|by rewrite andb_false_r|].
      cbn in Hl2 |- *. apply andb_true_iff in Hl2 as [Hl2%negb_true_iff _]. done.
Qed.

(** ** Header fields *)

(** A header as [parse] makes them and as a rule must have it. *)
Definition field_ok (nv : str * str) : Prop :=
  nv.1 <> [] /\ existsb blank nv.1 = false /\ Forall (fun c => c <> 58) nv.1 /\
  no_crlf nv.1 = true /\ Forall scalar nv.1 /\ trim nv.2 = nv.2 /\ no_crlf nv.2 = true /\ Forall scalar nv.2.

Definition field_line (nv : str * str) : str := nv.1 ++ 58 :: 32 :: nv.2.

Lemma field_line_ok nv : field_ok nv -> line_ok (field_line nv).
Proof.
  intros (Hne & _ & _ & Hn & Hs & _ & Hv & Hsv). unfold field_line. split_and!.
  - by destruct nv.1.
  - apply no_crlf_mid; [done..|]. by apply (no_crlf_mid [] 32).
  - apply Forall_app. split; [done|]. repeat constructor; [unfold scalar; lia..|done].
Qed.

Lemma parse_headers_fields hs : Forall field_ok hs -> parse_headers ((field_line <$> hs) ++ [[]; []]) = Ok hs.
Proof.
  induction 1 as [|[n v] hs (Hne & Hb & H58 & _ & _ & Ht & _ & _) _ IH]; [done|]. cbn [fst snd] in *.
  cbn [fmap list_fmap app parse_headers]. change (field_line (n, v)) with (n ++ 58 :: 32 :: v).
  rewrite split_once_app by done. rewrite Hb. destruct n as [|c n]; [done|]. cbn [existsb] in Hb.
  apply orb_false_iff in Hb as [Hc _]. cbn [app orb]. rewrite Hc. cbn [fmap list_fmap] in IH. rewrite IH.
  change (trim (32 :: v)) with (trim v). by rewrite Ht.
Qed.

Lemma parse_headers_ok ls : forall hs,
  Forall (fun l => no_crlf l = true /\ Forall scalar l) ls -> parse_headers ls = Ok hs -> Forall field_ok hs.
Proof.
  induction ls as [|l ls IH]; intros hs Hl E; [injection E as <-; constructor|]. cbn [parse_headers] in E.
  apply list.Forall_cons in Hl as [[Hn Hs] Hl]. destruct l as [|c l]; [injection E as <-; constructor|].
  destruct (blank c); [done|]. destruct (split_once 58 (c :: l)) as [[name value]|] eqn:Eo; [|done].
  destruct (_ || existsb blank name) eqn:Eb; [done|]. apply orb_false_iff in Eb as [Hne Hb].
  destruct (parse_headers ls) as [rest| | |]; cbn in E; [|done..]. injection E as <-. constructor; [|by apply IH].
  apply split_once_inv in Eo as [Ecl H58]. rewrite Ecl in Hn, Hs. apply no_crlf_app_inv in Hn as [Hn1 Hn2].
  apply (no_crlf_app_inv [58]) in Hn2 as [_ Hn2]. apply Forall_app in Hs as [Hs1 Hs2]. apply list.Forall_cons in Hs2 as [_ Hs2].
  destruct (trim_infix value) as (a & b & Ev). unfold field_ok. cbn [fst snd].
  split_and!; [by destruct name|done..|apply trim_idem| |].
  - rewrite Ev in Hn2. by apply no_crlf_app_inv in Hn2 as [_ [Hn2 _]%no_crlf_app_inv].
  - rewrite Ev in Hs2. by apply Forall_app in Hs2 as [_ [Hs2 _]%Forall_app].
Qed.

(** ** Heads *)

Definition request_line (h : RequestHead) : str := h_method h ++ 32 :: h_target h ++ 32 :: h_version h.

(** A head that was read. *)
Definition head_wf (h : RequestHead) : Prop :=
  line_ok (request_line h) /\ split 32 (request_line h) = [h_method h; h_target h; h_version h] /\
  is_Some (strip_prefix (lit "HTTP/1.") (h_version h)) /\ Forall field_ok (h_headers h).

Lemma parse_wf buf h : bytes buf -> parse buf = Ok h -> head_wf h.
Proof.
  intros Hb E. unfold parse in E. destruct (find_head_end buf) as [e|]; [|by case_match].
  destruct (MAX_HEAD <? Z.of_nat e); [done|]. destruct (from_utf8 (take e buf)) as [text|] eqn:Eu; [|done].
  apply from_utf8_scalar in Eu as [Hs _]; [|by apply Forall_take].
  pose proof (split_crlf_lines scalar _ text (Nat.lt_succ_diag_r _) Hs) as Hls. unfold parse_text in E.
  destruct (split_crlf text) as [|rl ls]; [done|]. apply list.Forall_cons in Hls as [[Hrl Hrs] Hls].
  destruct (split 32 rl) as [|m [|t [|v [|? ?]]]] eqn:Es; [done..| |done]. destruct (strip_prefix _ v) as [?|] eqn:Ev; [|done].
  destruct (parse_headers ls) as [hs| | |] eqn:Eh; cbn in E; [|done..]. injection E as <-.
  assert (request_line (mkHead m t v hs e) = rl) as Er by (by rewrite <- (join_split 32 rl), Es).
  unfold head_wf. rewrite Er. cbn [h_method h_target h_version h_headers]. split_and!; [split_and!; [|done..]|done|by eexists|by eapply parse_headers_ok].
  intros ->. discriminate Es.
Qed.

Lemma parse_lines h hs rest :
  head_wf h -> Forall field_ok hs ->
  Z.of_nat (length (as_bytes (text_of (request_line h :: (field_line <$> hs))))) <= MAX_HEAD ->
  parse (as_bytes (text_of (request_line h :: (field_line <$> hs))) ++ rest) =
  Ok (mkHead (h_method h) (h_target h) (h_version h) hs (length (as_bytes (text_of (request_line h :: (field_line <$> hs)))))).
Proof.
  intros (Hrl & Hsp & [x Hv] & _) Hhs Hlen.
  assert (Forall line_ok (field_line <$> hs)) as Hls.
  { apply Forall_fmap. eapply list.Forall_impl; [done|]. intros nv. apply field_line_ok. }
  unfold parse. rewrite find_head_end_text by done. rewrite (proj2 (Z.ltb_ge _ _)) by lia.
  rewrite take_app_length, from_utf8_bytes by (apply text_scalar; by constructor).
  unfold parse_text. rewrite split_text by (by constructor). cbn [app]. rewrite Hsp, Hv.
  by rewrite parse_headers_fields.
Qed.

Definition kept (n : str) (hs : list (str * str)) : list (str * str) :=
  List.filter (fun '(name, _) => negb (eq_ignore_ascii_case n name)) hs.

Lemma render_text_lines n v h :
  render_text [(n, v)] h = text_of (request_line h :: (field_line <$> kept n (h_headers h) ++ [(n, v)])).
Proof.
  assert (forall hs : list (str * str), concat (header_line <$> hs) = concat ((fun l => l ++ crlf) <$> (field_line <$> hs))) as Hh.
  { intros hs. induction hs as [|nv hs IH]; [done|]. cbn. rewrite IH. f_equal. unfold header_line, field_line.
    by rewrite <- app_assoc. }
  assert (List.filter (fun '(name, _) => negb (existsb (fun '(n0, _) => eq_ignore_ascii_case n0 name) [(n, v)])) (h_headers h) =
    kept n (h_headers h)) as Hk.
  { apply List.filter_ext. intros [a b]. cbn [existsb]. by rewrite orb_false_r. }
  unfold render_text. rewrite !Hh, Hk. rewrite text_of_cons. unfold text_of, request_line. rewrite !fmap_app, concat_app, <- !app_assoc.
  cbn [app]. rewrite <- app_assoc. done.
Qed.

Lemma render_parses n v h rest :
  head_wf h -> field_ok (n, v) -> Z.of_nat (length (render_with [(n, v)] h)) <= MAX_HEAD ->
  parse (render_with [(n, v)] h ++ rest) =
  Ok (mkHead (h_method h) (h_target h) (h_version h) (kept n (h_headers h) ++ [(n, v)]) (length (render_with [(n, v)] h))).
Proof.
  intros Hwf Hf. unfold render_with. rewrite render_text_lines. intros Hlen. rewrite parse_lines; [done..| |done].
  destruct Hwf as (_ & _ & _ & Hh). apply Forall_app. split; [|by apply Forall_singleton].
  apply List.Forall_forall. intros nv [Hin _]%filter_In. rewrite List.Forall_forall in Hh. by apply Hh.
Qed.

(** ** Values *)

Lemma eq_ignore_sym a b : eq_ignore_ascii_case a b = eq_ignore_ascii_case b a.
Proof. unfold eq_ignore_ascii_case, str_eqb. apply bool_decide_ext. split; congruence. Qed.

Lemma eq_ignore_trans a b c :
  eq_ignore_ascii_case a b = true -> eq_ignore_ascii_case b c = eq_ignore_ascii_case a c.
Proof. unfold eq_ignore_ascii_case. intros E%str_eqb_eq. by rewrite E. Qed.

Lemma values_of_app name a b : values_of name (a ++ b) = values_of name a ++ values_of name b.
Proof. unfold values_of. by rewrite List.filter_app, fmap_app. Qed.

Lemma values_of_kept n hs : values_of n (kept n hs) = [].
Proof.
  induction hs as [|[a b] hs IH]; [done|]. cbn [kept List.filter]. destruct (eq_ignore_ascii_case n a) eqn:E; [done|].
  unfold values_of. cbn [negb List.filter]. rewrite eq_ignore_sym, E. done.
Qed.

Lemma values_of_other name n hs : eq_ignore_ascii_case n name = false -> values_of name (kept n hs) = values_of name hs.
Proof.
  intros Hn. induction hs as [|[a b] hs IH]; [done|]. unfold values_of in *. cbn [kept List.filter].
  fold (kept n hs). destruct (eq_ignore_ascii_case n a) eqn:E; cbn [negb List.filter].
  - rewrite IH. rewrite (eq_ignore_trans _ _ name E), Hn. done.
  - destruct (eq_ignore_ascii_case a name); [cbn; by f_equal|done].
Qed.

(** C13: what the origin reads of a rewritten head is the guest's request with the
    credential in it: the same method, target and version; the headers that were
    not the credential's, in order; the credential's header once, with the rule's
    value; every other header with the values the guest gave; and, when the rule
    does not name a framing header, a body that ends where the proxy ends it. What
    follows the head does not change how it is read. *)
Theorem injected_head_reads_back n v buf h rest :
  bytes buf -> parse buf = Ok h -> field_ok (n, v) -> Z.of_nat (length (render_with [(n, v)] h)) <= MAX_HEAD ->
  exists h', parse (render_with [(n, v)] h ++ rest) = Ok h' /\ h_len h' = length (render_with [(n, v)] h) /\
    h_method h' = h_method h /\ h_target h' = h_target h /\ h_version h' = h_version h /\
    values_of n (h_headers h') = [v] /\
    (forall name, eq_ignore_ascii_case n name = false -> values_of name (h_headers h') = values_of name (h_headers h)) /\
    (eq_ignore_ascii_case n (lit "transfer-encoding") = false -> eq_ignore_ascii_case n (lit "content-length") = false ->
     body_mode (h_headers h') = body_mode (h_headers h)).
Proof.
  intros Hb Hp Hf Hl. apply parse_wf in Hp; [|done]. eexists. split; [by apply render_parses|]. cbn [h_len h_method h_target h_version h_headers].
  assert (forall name, eq_ignore_ascii_case n name = false ->
    values_of name (kept n (h_headers h) ++ [(n, v)]) = values_of name (h_headers h)) as Ho.
  { intros name Hn. rewrite values_of_app, values_of_other by done. unfold values_of at 2. cbn [List.filter]. rewrite Hn.
    cbn. by rewrite app_nil_r. }
  split_and!; [done..| |done|].
  - rewrite values_of_app, values_of_kept. unfold values_of. cbn [List.filter].
    assert (eq_ignore_ascii_case n n = true) as -> by (by apply str_eqb_eq). done.
  - intros H1 H2. unfold body_mode. by rewrite !Ho.
Qed.

Lemma injected_head_reads_back_witness :
  exists h, parse demo_request = Ok h /\
    exists h', parse (render_with [(lit "Authorization", lit "Bearer s3")] h ++ []) = Ok h' /\
      values_of (lit "Authorization") (h_headers h) = [lit "mine"] /\
      values_of (lit "Authorization") (h_headers h') = [lit "Bearer s3"].
Proof.
  assert ((match parse demo_request with
           | Ok h => (Z.of_nat (length (render_with [(lit "Authorization", lit "Bearer s3")] h)) <=? MAX_HEAD) &&
                     bool_decide (values_of (lit "Authorization") (h_headers h) = [lit "mine"])
           | _ => false
           end) = true) as H by (vm_compute; reflexivity).
  destruct (parse demo_request) as [h| | |] eqn:E; [|discriminate H..].
  apply andb_true_iff in H as [Hl%Z.leb_le Hm%bool_decide_eq_true]. exists h. split; [reflexivity|].
  assert (field_ok (lit "Authorization", lit "Bearer s3")) as Hf.
  { unfold field_ok. cbn [fst snd]. split_and!; [discriminate|reflexivity|by repeat constructor|reflexivity| |reflexivity..|];
      by apply ascii_scalar. }
  destruct (injected_head_reads_back (lit "Authorization") (lit "Bearer s3") demo_request h []
    (bytesb_bytes demo_request eq_refl) E Hf Hl) as (h' & Hp & _ & _ & _ & _ & Hv & _).
  exists h'. exact (conj Hp (conj Hm Hv)).
Defined.

(** ** Where the reading is laxer than it says *)

(** Lines are split at CR LF only, so a line feed inside a header's value stays
    there: the guest's own copy of the credential's header, which an origin that
    ends lines at a line feed reads, is written out beside the rule's, although
    every copy is meant to be dropped. *)
Theorem bare_lf_keeps_guest_copy :
  let h := mkHead (lit "GET") (lit "/") (lit "HTTP/1.1") [(lit "X", lit "a" ++ [LF] ++ lit "Authorization: mine")] 44 in
  parse (lit "GET / HTTP/1.1" ++ crlf ++ lit "X: a" ++ [LF] ++ lit "Authorization: mine" ++ crlf ++ crlf) = Ok h /\
    values_of (lit "Authorization") (h_headers h) = [] /\
    render_with [(lit "Authorization", lit "Bearer s3")] h =
      lit "GET / HTTP/1.1" ++ crlf ++ lit "X: a" ++ [LF] ++ lit "Authorization: mine" ++ crlf ++
      lit "Authorization: Bearer s3" ++ crlf ++ crlf.
Proof. cbv zeta. split; [|split]; vm_compute; reflexivity. Qed.

(** A head with a framing header behind a line feed is a request without a body
    here. *)
Theorem bare_lf_hides_framing :
  let h := mkHead (lit "GET") (lit "/") (lit "HTTP/1.1") [(lit "X", lit "a" ++ [LF] ++ lit "Content-Length: 5")] 42 in
  parse (lit "GET / HTTP/1.1" ++ crlf ++ lit "X: a" ++ [LF] ++ lit "Content-Length: 5" ++ crlf ++ crlf) = Ok h /\
    body_mode (h_headers h) = Ok BodyEmpty.
Proof. cbv zeta. split; vm_compute; reflexivity. Qed.

(** A chunk's extension may hold a line feed: where an origin ends the size line
    there, this scanner reads on. *)
Theorem extension_may_hold_lf :
  consume Size (lit "2;" ++ [LF] ++ lit "xx" ++ crlf ++ lit "hi" ++ crlf ++ lit "0" ++ crlf ++ crlf) = Ok (16%nat, Done).
Proof. vm_compute. reflexivity. Qed.

(** An injection is counted when its head is rewritten: when the next request in
    the same bytes is malformed the connection ends with nothing written to the
    origin, and the injection is on record. *)
Theorem unsent_injection_is_recorded :
  let data := lit "GET / HTTP/1.1" ++ crlf ++ crlf ++ lit "GET / HTTP/2" ++ crlf ++ crlf in
  length (o_events (process demo_injector data)) = 1%nat /\
  feed data true (pump_start demo_injector) = Err (BadRequest (Malformed BadVersion)).
Proof. cbv zeta. split; vm_compute; reflexivity. Qed.
