(* ===== verification/Base64.v ===== *)
(** * Base64 ([src/chm/src/credproxy/base64.rs])

    The encoder that renders Basic credentials and PEM bodies, and the decoder of
    the host's trust anchors. The decoder gets back what the encoder was given; it is
    laxer than its comment says about input that no encoder writes. *)

From Stdlib Require Import ZArith Lia Bool.
From stdpp Require Import base numbers list list_numbers option.
From S2P Require Import Prelude Text.

Definition ALPHABET : str := lit "ABCDEFGHIJKLMNOPQRSTUVWXYZabcdefghijklmnopqrstuvwxyz0123456789+/".

(** [ALPHABET[v as usize & 0x3f]]. *)
Definition letter (v : Z) : Z := nth (Z.to_nat (Z.land v 0x3f)) ALPHABET 0.

Definition group (b0 b1 b2 : Z) : Z := Z.lor (Z.lor (Z.shiftl b0 16) (Z.shiftl b1 8)) b2.

(** [encode]: [chunks(3)] are the cases. *)
Fixpoint encode (bytes : list Z) : str :=
  match bytes with
  | [] => []
  | [b0] =>
      let n := group b0 0 0 in [letter (Z.shiftr n 18); letter (Z.shiftr n 12); 61; 61]
  | [b0; b1] =>
      let n := group b0 b1 0 in
      [letter (Z.shiftr n 18); letter (Z.shiftr n 12); letter (Z.shiftr n 6); 61]
  | b0 :: b1 :: b2 :: rest =>
      let n := group b0 b1 b2 in
      letter (Z.shiftr n 18) :: letter (Z.shiftr n 12) :: letter (Z.shiftr n 6) :: letter n :: encode rest
  end.

Definition is_ascii_whitespace (c : Z) : bool := (c =? 32) || (c =? 9) || (c =? 10) || (c =? 12) || (c =? 13).

Definition letter_value (c : Z) : option Z :=
  if in_range 65 91 c then Some (c - 65)
  else if in_range 97 123 c then Some (c - 97 + 26)
  else if in_range 48 58 c then Some (c - 48 + 52)
  else if c =? 43 then Some 62
  else if c =? 47 then Some 63
  else None.

Record Decoder := mkDecoder { acc : Z; bits : Z; padding : Z; out : list Z }.

(** One byte of the text. *)
Definition decode_byte (c : Z) (d : Decoder) : option Decoder :=
  if is_ascii_whitespace c then Some d
  else if c =? 61 then Some (mkDecoder (acc d) (bits d) (padding d + 1) (out d))
  else if 0 <? padding d then None
  else
    v ← letter_value c;
    let a := Z.lor (u32 (Z.shiftl (acc d) 6)) v in
    let b := bits d + 6 in
    if 8 <=? b then Some (mkDecoder a (b - 8) (padding d) (out d ++ [u8 (Z.shiftr a (b - 8))]))
    else Some (mkDecoder a b (padding d) (out d)).

Fixpoint decode_loop (text : list Z) (d : Decoder) : option Decoder :=
  match text with
  | [] => Some d
  | c :: text => d ← decode_byte c d; decode_loop text d
  end.

Definition decode (text : list Z) : option (list Z) :=
  d ← decode_loop text (mkDecoder 0 0 0 []);
  if (0 <? bits d) && negb (Z.land (acc d) (Z.shiftl 1 (bits d) - 1) =? 0) then None
  else if 2 <? padding d then None
  else Some (out d).

(** ** Letters *)

Lemma letter_range v : let c := letter v in
  is_ascii_whitespace c = false /\ (c =? 61) = false /\ in_range 33 127 c = true.
Proof.
  assert (forall k, (k < 64)%nat -> let c := nth k ALPHABET 0 in
    is_ascii_whitespace c || (c =? 61) || negb (in_range 33 127 c) = false) as Hk.
  { intros k Hlt. assert (forallb (fun k => negb (let c := nth k ALPHABET 0 in
      is_ascii_whitespace c || (c =? 61) || negb (in_range 33 127 c))) (seq 0 64) = true) as H by (vm_compute; reflexivity).
    rewrite forallb_forall in H. specialize (H k). rewrite in_seq in H. cbv zeta in *.
    specialize (H ltac:(lia)). by apply negb_true_iff in H. }
  cbv zeta. unfold letter. change 0x3f with (Z.ones 6). rewrite Z.land_ones by lia.
  specialize (Hk (Z.to_nat (v mod 2 ^ 6))). pose proof (Z.mod_pos_bound v (2 ^ 6) ltac:(lia)). cbv zeta in Hk.
  specialize (Hk ltac:(lia)). apply orb_false_iff in Hk as [[H1 H2]%orb_false_iff H3%negb_false_iff]. done.
Qed.

Lemma letter_value_letter v : letter_value (letter v) = Some (v mod 64).
Proof.
  assert (forall k, (k < 64)%nat -> letter_value (nth k ALPHABET 0) = Some (Z.of_nat k)) as Hk.
  { intros k Hlt. assert (forallb (fun k => bool_decide (letter_value (nth k ALPHABET 0) = Some (Z.of_nat k))) (seq 0 64) = true)
      as H by (vm_compute; reflexivity).
    rewrite forallb_forall in H. specialize (H k). rewrite in_seq in H. specialize (H ltac:(lia)).
    by apply bool_decide_eq_true in H. }
  unfold letter. change 0x3f with (Z.ones 6). rewrite Z.land_ones by lia. change (2 ^ 6) with 64.
  pose proof (Z.mod_pos_bound v 64 ltac:(lia)). rewrite Hk by lia. by rewrite Z2Nat.id by lia.
Qed.

(** A letter adds six bits; what the shift drops is never looked at. *)
Definition push6 (a v : Z) : Z := a mod 2 ^ 26 * 64 + v.

Lemma decode_letter a b p o v :
  0 <= a -> p = 0 ->
  decode_byte (letter v) (mkDecoder a b p o) =
  let a := push6 a (v mod 64) in
  if 8 <=? b + 6 then Some (mkDecoder a (b + 6 - 8) 0 (o ++ [u8 (Z.shiftr a (b + 6 - 8))]))
  else Some (mkDecoder a (b + 6) 0 o).
Proof.
  intros Ha ->. destruct (letter_range v) as (Hw & He & _). unfold decode_byte. rewrite Hw, He, letter_value_letter.
  cbn [padding acc bits out mbind option_bind]. change (0 <? 0) with false. cbv iota.
  assert (Z.lor (u32 (Z.shiftl a 6)) (v mod 64) = push6 a (v mod 64)) as ->; [|done].
  unfold u32, push6. rewrite Z.shiftl_mul_pow2 by lia. replace (2 ^ 32) with (2 ^ 26 * 2 ^ 6) by done.
  rewrite Z.mul_mod_distr_r by lia. rewrite <- Z.shiftl_mul_pow2 by lia.
  rewrite lor_shiftl_add by (first [lia | apply Z.mod_pos_bound; lia]). done.
Qed.

Lemma push6_nonneg a v : 0 <= a -> 0 <= v -> 0 <= push6 a v.
Proof. intros Ha Hv. unfold push6. pose proof (Z.mod_pos_bound a (2 ^ 26) ltac:(lia)). lia. Qed.

(** Two letters hold the byte that ends in the second. *)
Lemma push_byte k a v w : 0 <= k <= 4 -> 0 <= v < 64 -> 0 <= w < 64 ->
  u8 (Z.shiftr (push6 (push6 a v) w) k) = (v * 64 + w) / 2 ^ k mod 2 ^ 8.
Proof.
  intros Hk Hv Hw. unfold u8, push6. rewrite Z.shiftr_div_pow2 by lia.
  assert (k = 0 \/ k = 1 \/ k = 2 \/ k = 3 \/ k = 4) as [->|[->|[->|[->| ->]]]] by lia; cbn [Z.pow Z.pow_pos Pos.iter Z.mul Pos.mul];
    Z.div_mod_to_equations; lia.
Qed.

Lemma group_add b0 b1 b2 :
  0 <= b0 < 256 -> 0 <= b1 < 256 -> 0 <= b2 < 256 -> group b0 b1 b2 = (b0 * 256 + b1) * 256 + b2.
Proof.
  intros H0 H1 H2. unfold group. rewrite <- Z.lor_assoc, (lor_shiftl_add b1), lor_shiftl_add by lia. lia.
Qed.

(** The four letters of three bytes. *)
Lemma group_letters b0 b1 b2 : 0 <= b0 < 256 -> 0 <= b1 < 256 -> 0 <= b2 < 256 ->
  let n := group b0 b1 b2 in
  Z.shiftr n 18 mod 64 = b0 / 4 /\ Z.shiftr n 12 mod 64 = b0 mod 4 * 16 + b1 / 16 /\
  Z.shiftr n 6 mod 64 = b1 mod 16 * 4 + b2 / 64 /\ n mod 64 = b2 mod 64.
Proof.
  intros H0 H1 H2. cbv zeta. rewrite group_add, !Z.shiftr_div_pow2 by lia.
  split_and!; cbn [Z.pow Z.pow_pos Pos.iter Z.mul Pos.mul]; Z.div_mod_to_equations; lia.
Qed.

(** The decoder on the letters of a group, from an empty accumulator. *)
Lemma decode_letter_1 a o v rest : 0 <= a ->
  decode_loop (letter v :: rest) (mkDecoder a 0 0 o) = decode_loop rest (mkDecoder (push6 a (v mod 64)) 6 0 o).
Proof. intros Ha. cbn [decode_loop]. by rewrite decode_letter. Qed.

Lemma decode_letter_next k a x o v rest : 0 <= a -> 0 <= x < 64 -> k = 6 \/ k = 4 \/ k = 2 ->
  decode_loop (letter v :: rest) (mkDecoder (push6 a x) k 0 o) =
  decode_loop rest (mkDecoder (push6 (push6 a x) (v mod 64)) (k - 2) 0
                      (o ++ [(x * 64 + v mod 64) / 2 ^ (k - 2) mod 2 ^ 8])).
Proof.
  intros Ha Hx Hk. cbn [decode_loop]. rewrite decode_letter by (try apply push6_nonneg; lia). cbv zeta.
  rewrite (proj2 (Z.leb_le _ _)) by lia. replace (k + 6 - 8) with (k - 2) by lia.
  rewrite push_byte by (try apply Z.mod_pos_bound; lia). done.
Qed.

(** Between groups. *)
Definition between (d : Decoder) : Prop := 0 <= acc d /\ bits d = 0 /\ padding d = 0.

Lemma decode_three b0 b1 b2 rest d :
  is_u8 b0 -> is_u8 b1 -> is_u8 b2 -> between d ->
  exists d', between d' /\ out d' = out d ++ [b0; b1; b2] /\
    decode_loop (encode (b0 :: b1 :: b2 :: rest)) d = decode_loop (encode rest) d'.
Proof.
  unfold is_u8. change (2 ^ 8) with 256. intros H0 H1 H2 (Ha & Hb & Hp). destruct d as [a b p o].
  cbn [acc bits padding out] in *. subst b p. destruct (group_letters b0 b1 b2) as (E0 & E1 & E2 & E3); [lia..|].
  eexists. split; [|split]; cycle 2.
  - cbn [encode]. cbv zeta. rewrite decode_letter_1 by done.
    rewrite !decode_letter_next by (try apply push6_nonneg; try apply Z.mod_pos_bound; try apply push6_nonneg; try apply Z.mod_pos_bound; lia).
    rewrite E0, E1, E2, E3. reflexivity.
  - repeat split; cbn [acc bits padding]. repeat apply push6_nonneg; Z.div_mod_to_equations; lia.
  - cbn [out]. rewrite <- !app_assoc. cbn [app Z.sub Z.add Z.opp Z.pos_sub Pos.pred_double Z.pow Z.pow_pos Pos.iter Z.mul Pos.mul].
    do 2 f_equal; [|f_equal; [|f_equal]]; Z.div_mod_to_equations; lia.
Qed.

(** The end of [decode]. *)
Definition finish (d : Decoder) : option (list Z) :=
  if (0 <? bits d) && negb (Z.land (acc d) (Z.shiftl 1 (bits d) - 1) =? 0) then None
  else if 2 <? padding d then None else Some (out d).

Lemma finish_padded a v k p o :
  0 < k -> 0 <= p <= 2 -> (a mod 2 ^ 26 * 64 + v) mod 2 ^ k = 0 -> finish (mkDecoder (push6 a v) k p o) = Some o.
Proof.
  intros Hk Hp Hv. unfold finish, push6. cbn [bits acc padding out]. rewrite Z.shiftl_mul_pow2, Z.mul_1_l by lia.
  replace (2 ^ k - 1) with (Z.ones k) by (rewrite Z.ones_equiv; lia). rewrite Z.land_ones, Hv by lia.
  rewrite andb_false_r. by rewrite (proj2 (Z.ltb_ge _ _)) by lia.
Qed.

Lemma decode_one b0 d : is_u8 b0 -> between d -> (d' ← decode_loop (encode [b0]) d; finish d') = Some (out d ++ [b0]).
Proof.
  unfold is_u8. change (2 ^ 8) with 256. intros H0 (Ha & Hb & Hp). destruct d as [a b p o]. cbn [acc bits padding out] in *. subst b p.
  destruct (group_letters b0 0 0) as (E0 & E1 & _); [lia..|]. cbn [encode]. cbv zeta. rewrite decode_letter_1 by done.
  rewrite decode_letter_next by (try apply Z.mod_pos_bound; lia). rewrite E0, E1. cbn [decode_loop].
  unfold decode_byte. cbn [is_ascii_whitespace Z.eqb Pos.eqb orb mbind option_bind acc bits padding out].
  rewrite finish_padded; [|lia|lia|Z.div_mod_to_equations; lia]. do 3 f_equal. change (2 ^ (6 - 2)) with 16. change (2 ^ 8) with 256.
  Z.div_mod_to_equations; lia.
Qed.

Lemma decode_two b0 b1 d :
  is_u8 b0 -> is_u8 b1 -> between d -> (d' ← decode_loop (encode [b0; b1]) d; finish d') = Some (out d ++ [b0; b1]).
Proof.
  unfold is_u8. change (2 ^ 8) with 256. intros H0 H1 (Ha & Hb & Hp). destruct d as [a b p o]. cbn [acc bits padding out] in *. subst b p.
  destruct (group_letters b0 b1 0) as (E0 & E1 & E2 & _); [lia..|]. cbn [encode]. cbv zeta. rewrite decode_letter_1 by done.
  rewrite !decode_letter_next by (try apply push6_nonneg; try apply Z.mod_pos_bound; lia). rewrite E0, E1, E2. cbn [decode_loop].
  unfold decode_byte. cbn [is_ascii_whitespace Z.eqb Pos.eqb orb mbind option_bind acc bits padding out].
  rewrite finish_padded; [|lia|lia|Z.div_mod_to_equations; lia]. rewrite <- app_assoc. cbn [app].
  change (2 ^ (6 - 2)) with 16. change (2 ^ (6 - 2 - 2)) with 4. change (2 ^ 8) with 256.
  do 3 f_equal; [|f_equal]; Z.div_mod_to_equations; lia.
Qed.

Lemma decode_encode_loop (k : nat) : forall bs d,
  (length bs < k)%nat -> bytes bs -> between d -> (d' ← decode_loop (encode bs) d; finish d') = Some (out d ++ bs).
Proof.
  induction k as [|k IH]; intros bs d Hk Hbs Hd; [lia|]. destruct bs as [|b0 [|b1 [|b2 bs]]].
  - destruct d as [a b p o]. destruct Hd as (Ha & Hb & Hp). cbn [acc bits padding] in *. subst b p. cbn. by rewrite app_nil_r.
  - apply decode_one; [by inversion Hbs|done].
  - apply decode_two; [by inversion Hbs|by do 2 (apply list.Forall_cons in Hbs as [? Hbs])|done].
  - apply list.Forall_cons in Hbs as [H0 Hbs]. apply list.Forall_cons in Hbs as [H1 Hbs]. apply list.Forall_cons in Hbs as [H2 Hbs].
    destruct (decode_three b0 b1 b2 bs d H0 H1 H2 Hd) as (d' & Hd' & Ho & ->). rewrite IH; [|cbn in Hk; lia|done..].
    rewrite Ho, <- app_assoc. done.
Qed.

Lemma decode_encode bs : bytes bs -> decode (encode bs) = Some bs.
Proof. intros Hb. apply (decode_encode_loop (S (length bs)) bs (mkDecoder 0 0 0 [])); [lia|done|by unfold between]. Qed.

(** Decoding gives back what was encoded. *)
Theorem base64_roundtrip bs : bytes bs -> decode (encode bs) = Some bs.
Proof. apply decode_encode. Qed.

Lemma base64_roundtrip_witness : decode (encode [0; 255; 16; 250]) = Some [0; 255; 16; 250].
Proof. apply base64_roundtrip. by apply bytesb_bytes. Defined.

(** What holds of the letters and of the padding holds of an encoding. *)
Lemma encode_letters (P : Z -> Prop) (k : nat) : (forall v, P (letter v)) -> P 61 ->
  forall bs, (length bs < k)%nat -> Forall P (encode bs).
Proof.
  intros Hl Hp. induction k as [|k IH]; intros bs Hk; [lia|]. destruct bs as [|b0 [|b1 [|b2 bs]]]; cbn [encode]; cbv zeta;
    repeat (apply list.Forall_cons; split; [first [apply Hl | exact Hp]|]); try constructor.
  apply IH. cbn in Hk. lia.
Qed.

(** The text of an encoding is printable and without blanks. *)
Lemma encode_printable (k : nat) : forall bs, (length bs < k)%nat -> Forall (fun c => 33 <= c < 127) (encode bs).
Proof.
  apply encode_letters; [|lia]. intros v. destruct (letter_range v) as (_ & _ & H). by apply in_range_spec in H.
Qed.

(** No letter is a dash. *)
Lemma encode_no_dash bs : Forall (fun c => c <> 45) (encode bs).
Proof.
  apply (encode_letters _ (S (length bs))); [|lia|lia]. intros v E. pose proof (letter_value_letter v) as H. by rewrite E in H.
Qed.

Lemma encode_nonnil b bs : encode (b :: bs) <> [].
Proof. by destruct bs as [|? [|? ?]]. Qed.

(** A last group without its padding, and a single letter that stands for no byte,
    are decoded although truncated groups are meant to be refused. *)
Theorem truncated_group_accepted : decode (lit "QQ") = Some [65] /\ decode (lit "QUJDA") = Some (lit "ABC").
Proof. split; vm_compute; reflexivity. Qed.
