(* ===== verification/OciEntry.v ===== *)
(** * What a layer entry may do to the root file system

    [src/chm/src/oci/entry.rs]: an entry of an image's layer becomes a [Verdict] by
    looking at its path, its kind and its mode alone. A path is a text; its parts
    are what lies between the slashes. [height] counts how deep a walk over parts
    ends, and the theorems say what is accepted in terms of it. *)

From Stdlib Require Import ZArith Lia Bool String.
From stdpp Require Import base numbers list list_numbers option.
From S2P Require Import Prelude Text TextFacts.

#[local] Open Scope Z_scope.

(** ** Entries and verdicts *)

Definition WHITEOUT_PREFIX : str := lit ".wh.".
Definition OPAQUE_MARKER : str := lit ".wh..wh..opq".
Definition S_ISUID : Z := 2048.
Definition S_ISGID : Z := 1024.
Definition SLASH : Z := 47.

Inductive EntryKind :=
| File (mode size : Z)
| Directory (mode : Z)
| Symlink (target : str)
| Hardlink (target : str).

Record RawEntry := mkRaw { re_path : str; re_kind : EntryKind }.

Inductive Refusal :=
| Traversal (path : str)
| Absolute (path : str)
| SymlinkEscape (path target : str)
| HardlinkEscape (path target : str)
| SuidStripped (path : str) (mode : Z)
| EmptyPath.

Inductive Verdict :=
| ArchiveRoot
| Accept (path : str) (kind : EntryKind) (notes : list Refusal)
| Whiteout (path : str)
| Opaque (dir : str)
| Reject (why : Refusal).

#[global] Instance entry_kind_eq_dec : EqDecision EntryKind.
Proof. solve_decision. Defined.

Definition starts_with_slash (s : str) : bool := match s with c :: _ => c =? SLASH | [] => false end.

Definition is_here (part : str) : bool := str_eqb part [] || str_eqb part (lit ".").

Definition is_up (part : str) : bool := str_eqb part (lit "..").

(** ** The operations *)

Fixpoint normalize_loop (parts : list str) (out : list str) : option (list str) :=
  match parts with
  | [] => Some out
  | part :: parts =>
      if is_here part then normalize_loop parts out
      else if is_up part then
        match out with
        | [] => None
        | _ => normalize_loop parts (removelast out)
        end
      else normalize_loop parts (out ++ [part])
  end.

Definition normalize (path : str) : res Refusal str :=
  match path with
  | [] => Err EmptyPath
  | _ =>
      if starts_with_slash path then Err (Absolute path)
      else
        match normalize_loop (split SLASH path) [] with
        | None => Err (Traversal path)
        | Some [] => Err EmptyPath
        | Some out => Ok (join [SLASH] out)
        end
  end.

Fixpoint stays_loop (parts : list str) (depth : nat) : bool :=
  match parts with
  | [] => true
  | part :: parts =>
      if is_here part then stays_loop parts depth
      else if is_up part then
        match depth with
        | O => false
        | S depth => stays_loop parts depth
        end
      else stays_loop parts (S depth)
  end.

Definition symlink_stays_inside (link_path target : str) : bool :=
  if starts_with_slash target then true
  else stays_loop (split SLASH target) (length (split SLASH link_path) - 1).

Definition dir_base (path : str) : str * str :=
  match rsplit_once SLASH path with
  | Some (d, b) => (d, b)
  | None => ([], path)
  end.

Definition strip_suid (mode : Z) : Z := Z.land mode (Z.lxor (Z.lor S_ISUID S_ISGID) (2 ^ 32 - 1)).

Definition decide (entry : RawEntry) : Verdict :=
  let trimmed := trim_end_matches (Z.eqb SLASH) (re_path entry) in
  if str_eqb trimmed [] || str_eqb trimmed (lit ".") then ArchiveRoot
  else
    match normalize (re_path entry) with
    | Ok path =>
        let '(dir, base) := dir_base path in
        if str_eqb base OPAQUE_MARKER then Opaque dir
        else
          match strip_prefix WHITEOUT_PREFIX base with
          | Some name =>
              match name with
              | [] => Reject EmptyPath
              | _ =>
                  Whiteout (match dir with
                            | [] => name
                            | _ => dir ++ [SLASH] ++ name
                            end)
              end
          | None =>
              match re_kind entry with
              | Symlink target =>
                  if symlink_stays_inside path target then Accept path (Symlink target) []
                  else Reject (SymlinkEscape path target)
              | Hardlink target =>
                  match normalize target with
                  | Ok t => Accept path (Hardlink t) []
                  | _ => Reject (HardlinkEscape path target)
                  end
              | File mode size =>
                  let cleaned := strip_suid mode in
                  Accept path (File cleaned size) (if cleaned =? mode then [] else [SuidStripped path mode])
              | Directory mode => Accept path (Directory (strip_suid mode)) []
              end
          end
    | Err r => Reject r
    | _ => Reject EmptyPath
    end.

(** ** Heights *)

(** How a part moves a walk: down by one name, nowhere, or up. *)
Definition climb (part : str) : Z := if is_here part then 0 else if is_up part then -1 else 1.

Fixpoint height (parts : list str) : Z :=
  match parts with
  | [] => 0
  | p :: parts => climb p + height parts
  end.

(** A walk that starts [d] names below the root and never leaves it. *)
Definition never_above (d : Z) (parts : list str) : Prop := forall k, 0 <= d + height (take k parts).

Definition is_name (part : str) : Prop := is_here part = false /\ is_up part = false.

(** A path of names only, which says the same to everyone who walks it. *)
Definition proper (path : str) : Prop := Forall is_name (split SLASH path).

Lemma never_above_start d ps : never_above d ps -> 0 <= d.
Proof. intros H. specialize (H O). change (take 0 ps) with (@nil str) in H. cbn [height] in H. lia. Qed.

Lemma never_above_nil d : never_above d [] <-> 0 <= d.
Proof.
  split; [intros H; specialize (H O); cbn in H; lia|]. intros H k. rewrite take_nil. cbn. lia.
Qed.

Lemma never_above_cons d p ps : never_above d (p :: ps) <-> 0 <= d /\ never_above (d + climb p) ps.
Proof.
  split.
  - intros H. split; [specialize (H O); cbn in H; lia|]. intros k. specialize (H (S k)). cbn [take height] in H. lia.
  - intros [H0 H] [|k]; [cbn; lia|]. specialize (H k). cbn [take height]. lia.
Qed.

Lemma height_app a b : height (a ++ b) = height a + height b.
Proof. induction a as [|p a IH]; cbn [app height]; [done|]. rewrite IH. lia. Qed.

Lemma never_above_app d a b : never_above d (a ++ b) <-> never_above d a /\ never_above (d + height a) b.
Proof.
  revert d. induction a as [|p a IH]; intros d; cbn [app].
  - cbn [height]. rewrite Z.add_0_r, never_above_nil. split; [|tauto].
    intros H. split; [by eapply never_above_start|done].
  - rewrite !never_above_cons, IH. cbn [height]. rewrite Z.add_assoc. tauto.
Qed.

Lemma height_names ps : Forall is_name ps -> height ps = Z.of_nat (length ps).
Proof.
  induction 1 as [|p ps [H1 H2] _ IH]; [done|]. cbn [height length]. unfold climb. rewrite H1, H2. lia.
Qed.

Lemma never_above_names d ps : 0 <= d -> Forall is_name ps -> never_above d ps.
Proof.
  intros Hd H k. rewrite height_names; [lia|]. by apply Forall_take.
Qed.

(** ** Normalising *)

Lemma split_free c s : Forall (Forall (fun x => x <> c)) (split c s).
Proof.
  induction s as [|x s IH]; cbn [split]; [by repeat constructor|]. destruct (Z.eqb_spec c x) as [->|Hx].
  - by constructor.
  - destruct (split c s) as [|w ws]; [by repeat constructor; congruence|].
    apply list.Forall_cons in IH as [Hw Hws]. constructor; [|done]. constructor; [congruence|done].
Qed.

Lemma split_join c ws : ws <> [] -> Forall (Forall (fun x => x <> c)) ws -> split c (join [c] ws) = ws.
Proof.
  intros Hne H. induction H as [|w ws Hw Hws IH]; [done|]. destruct ws as [|v ws]; [by apply split_none|].
  change (join [c] (w :: v :: ws)) with (w ++ c :: join [c] (v :: ws)). by rewrite split_app, IH.
Qed.

Lemma removelast_length {A} (l : list A) : l <> [] -> Z.of_nat (length (removelast l)) = Z.of_nat (length l) - 1.
Proof.
  intros H. destruct l as [|x l] using rev_ind; [done|]. rewrite removelast_last, length_app. cbn. lia.
Qed.

Lemma Forall_removelast {A} (P : A -> Prop) l : Forall P l -> Forall P (removelast l).
Proof.
  intros H. destruct l as [|x l _] using rev_ind; [done|]. rewrite removelast_last. by apply Forall_app in H as [? _].
Qed.

Lemma length_snoc {A} (l : list A) x : Z.of_nat (length (l ++ [x])) = Z.of_nat (length l) + 1.
Proof. rewrite length_app. cbn. lia. Qed.

Ltac by_walk IH Hc :=
  match goal with
  | |- ~ _ => intros [_ ?]%Hc; by apply IH
  | _ => destruct IH as [IH1 IH2]; split; [apply Hc; split; [lia|exact IH1]|lia]
  end.

(** The loop succeeds exactly on a walk that never leaves the root, and what it
    leaves behind is as deep as the walk. *)
Lemma normalize_loop_spec parts : forall out,
  match normalize_loop parts out with
  | Some r => never_above (Z.of_nat (length out)) parts /\ Z.of_nat (length r) = Z.of_nat (length out) + height parts
  | None => ~ never_above (Z.of_nat (length out)) parts
  end.
Proof.
  induction parts as [|p parts IH]; intros out; cbn [normalize_loop]; [rewrite never_above_nil; cbn; lia|].
  cbn [height]. pose proof (never_above_cons (Z.of_nat (length out)) p parts) as Hc. unfold climb in *.
  destruct (is_here p) eqn:E1.
  { specialize (IH out). rewrite Z.add_0_r in Hc. destruct (normalize_loop parts out); by_walk IH Hc. }
  destruct (is_up p) eqn:E2.
  - destruct out as [|x out]; [rewrite Hc; intros [_ H%never_above_start]; cbn in H; lia|].
    specialize (IH (removelast (x :: out))). rewrite removelast_length in IH by done.
    change (Z.of_nat (length (x :: out)) + -1) with (Z.of_nat (length (x :: out)) - 1) in Hc.
    destruct (normalize_loop parts (removelast (x :: out))); by_walk IH Hc.
  - specialize (IH (out ++ [p])). rewrite length_snoc in IH.
    destruct (normalize_loop parts (out ++ [p])); by_walk IH Hc.
Qed.

Lemma normalize_loop_names (P : str -> Prop) parts : forall out r,
  Forall (fun p => P p /\ is_name p) out -> Forall P parts -> normalize_loop parts out = Some r ->
  Forall (fun p => P p /\ is_name p) r.
Proof.
  induction parts as [|p parts IH]; intros out r Ho Hp; cbn [normalize_loop]; [by intros [= <-]|].
  apply list.Forall_cons in Hp as [Hp Hps]. destruct (is_here p) eqn:E1; [by apply IH|]. destruct (is_up p) eqn:E2.
  - destruct out as [|x out]; [done|]. apply IH; [|done]. by apply Forall_removelast.
  - apply IH; [|done]. apply Forall_app. split; [done|]. by repeat constructor.
Qed.

Lemma normalize_loop_id parts : forall out, Forall is_name parts -> normalize_loop parts out = Some (out ++ parts).
Proof.
  induction parts as [|p parts IH]; intros out H; cbn [normalize_loop]; [by rewrite app_nil_r|].
  apply list.Forall_cons in H as [[H1 H2] H]. rewrite H1, H2, IH by done. by rewrite <- app_assoc.
Qed.

Lemma proper_cons path : proper path -> path <> [] /\ starts_with_slash path = false.
Proof.
  unfold proper. destruct path as [|c path]; [by intros [[[=] _] _]%list.Forall_cons|].
  cbn [split starts_with_slash]. rewrite (Z.eqb_sym c). destruct (SLASH =? c); [by intros [[[=] _] _]%list.Forall_cons|done].
Qed.

Lemma normalize_proper path : proper path -> normalize path = Ok path.
Proof.
  intros H. destruct (proper_cons _ H) as [Hne Hs]. unfold normalize. rewrite Hs, normalize_loop_id by done.
  cbn [app]. pose proof (split_nonnil SLASH path) as Hp. destruct path as [|c path]; [done|].
  destruct (split SLASH (c :: path)) as [|w ws] eqn:E; [done|]. rewrite <- E. f_equal. apply join_split.
Qed.

Lemma normalize_ok path q :
  normalize path = Ok q ->
  exists out, normalize_loop (split SLASH path) [] = Some out /\ out <> [] /\ q = join [SLASH] out /\ split SLASH q = out.
Proof.
  unfold normalize. destruct path as [|c path]; [done|]. destruct (starts_with_slash _); [done|].
  destruct (normalize_loop _ []) as [[|w ws]|] eqn:E; try done. intros Hq.
  assert (q = join [SLASH] (w :: ws)) as -> by congruence. exists (w :: ws). split_and!; [done..|].
  apply split_join; [done|].
  pose proof (normalize_loop_names (Forall (fun x => x <> SLASH)) _ _ _ (Forall_nil_2 _) (split_free SLASH (c :: path)) E) as H.
  eapply list.Forall_impl; [exact H|]. by intros ? [? _].
Qed.

Lemma normalize_is_proper path q : normalize path = Ok q -> proper q.
Proof.
  intros (out & E & _ & _ & Hs)%normalize_ok. unfold proper. rewrite Hs.
  eapply list.Forall_impl; [eapply (normalize_loop_names (fun _ => True)); [constructor| |exact E]|].
  - by apply Forall_true.
  - by intros ? [_ ?].
Qed.

Lemma normalize_depth path q : normalize path = Ok q -> Z.of_nat (length (split SLASH q)) = height (split SLASH path).
Proof.
  intros (out & E & _ & _ & ->)%normalize_ok. pose proof (normalize_loop_spec (split SLASH path) []) as H. rewrite E in H.
  cbn in H. lia.
Qed.

(** ** What a path may be *)

(** A path is taken exactly when it is relative, the walk over its parts never
    leaves the root on the way and ends below it; what it becomes is a path of
    names, as many as the walk is deep, which normalising leaves as it is. *)
Theorem normalize_exact path :
  ((exists q, normalize path = Ok q) <->
   starts_with_slash path = false /\ never_above 0 (split SLASH path) /\ 0 < height (split SLASH path)) /\
  (forall q, normalize path = Ok q ->
     proper q /\ Z.of_nat (length (split SLASH q)) = height (split SLASH path) /\ normalize q = Ok q).
Proof.
  split.
  - pose proof (normalize_loop_spec (split SLASH path) []) as H. cbn [length] in H. change (Z.of_nat 0) with 0 in H.
    unfold normalize. destruct path as [|c path]; [split; [by intros [q E]|intros (_ & _ & Hh); by vm_compute in Hh]|].
    destruct (starts_with_slash (c :: path)); [split; [by intros [q E]|by intros [E _]]|].
    destruct (normalize_loop _ []) as [[|w ws]|].
    + destruct H as [_ H]. cbn [length] in H. split; [by intros [q E]|intros (_ & _ & Hh); lia].
    + destruct H as [Ha H]. cbn [length] in H. split; [intros _; split_and!; [done..|lia]|by eexists].
    + split; [by intros [q E]|by intros (_ & Ha & _)].
  - intros q E. pose proof (normalize_is_proper _ _ E) as Hp. split_and!; [done|by apply normalize_depth|by apply normalize_proper].
Qed.

(** ** Symbolic links *)

Lemma stays_loop_spec parts : forall depth, stays_loop parts depth = true <-> never_above (Z.of_nat depth) parts.
Proof.
  induction parts as [|p parts IH]; intros depth; cbn [stays_loop]; [rewrite never_above_nil; split; [lia|done]|].
  rewrite never_above_cons. unfold climb. destruct (is_here p) eqn:E1.
  { rewrite Z.add_0_r, IH. split; [split; [lia|done]|tauto]. }
  destruct (is_up p) eqn:E2.
  - destruct depth as [|depth]; [split; [done|by intros [_ H%never_above_start]]|]. rewrite IH.
    replace (Z.of_nat (S depth) + -1) with (Z.of_nat depth) by lia. split; [split; [lia|done]|tauto].
  - rewrite IH. replace (Z.of_nat (S depth)) with (Z.of_nat depth + 1) by lia. split; [split; [lia|done]|tauto].
Qed.

(** The path a relative target names, beside the link. *)
Definition beside (link_path target : str) : str :=
  match rsplit_once SLASH link_path with
  | Some (dir, _) => dir ++ SLASH :: target
  | None => target
  end.

Lemma split_app_general c a b : split c (a ++ c :: b) = split c a ++ split c b.
Proof.
  induction a as [|x a IH]; cbn [app split]; [by rewrite Z.eqb_refl|]. rewrite IH. destruct (c =? x); [done|].
  pose proof (split_nonnil c a). by destruct (split c a).
Qed.

Lemma rsplit_once_inv c s a b : rsplit_once c s = Some (a, b) -> s = a ++ c :: b /\ Forall (fun x => x <> c) b.
Proof.
  unfold rsplit_once. destruct (split_once c (rev s)) as [[b' a']|] eqn:E; [|done]. intros [= <- <-].
  apply split_once_inv in E as [E H]. split; [|by apply Forall_rev].
  apply (f_equal (@rev Z)) in E. rewrite rev_involutive, rev_app_distr in E. cbn in E. by rewrite <- app_assoc in E.
Qed.

Lemma split_once_none c s : split_once c s = None -> Forall (fun x => x <> c) s.
Proof.
  induction s as [|x s IH]; [done|]. cbn. destruct (Z.eqb_spec c x); [done|]. destruct (split_once c s) as [[? ?]|]; [done|].
  intros _. constructor; [congruence|]. by apply IH.
Qed.

Lemma rsplit_once_none c s : rsplit_once c s = None -> Forall (fun x => x <> c) s.
Proof.
  unfold rsplit_once. destruct (split_once c (rev s)) as [[? ?]|] eqn:E; [done|]. intros _.
  apply split_once_none in E. by apply Forall_rev in E; rewrite rev_involutive in E.
Qed.

Lemma beside_parts link target :
  exists dir, split SLASH (beside link target) = dir ++ split SLASH target /\
    length dir = (length (split SLASH link) - 1)%nat /\ (proper link -> Forall is_name dir) /\
    (dir = [] -> beside link target = target) /\
    (dir <> [] -> proper link -> starts_with_slash (beside link target) = false).
Proof.
  unfold beside, proper. destruct (rsplit_once SLASH link) as [[d b]|] eqn:E.
  - apply rsplit_once_inv in E as [-> Hb]. rewrite !split_app_general. exists (split SLASH d). rewrite (split_none _ b) by done.
    rewrite length_app. cbn [length]. split_and!; [done|lia|by intros [? _]%Forall_app|by intros ?%split_nonnil|].
    intros _ [H _]%Forall_app. destruct (proper_cons d H) as [Hd Hs]. by destruct d.
  - apply rsplit_once_none in E. exists []. by rewrite (split_none _ link).
Qed.

(** The two guards agree: a relative target stays inside exactly when the path it
    names beside its link does not climb above the root on its way. *)
Lemma stays_inside_iff link target :
  proper link -> starts_with_slash target = false ->
  (symlink_stays_inside link target = true <-> forall why, normalize (beside link target) <> Err (Traversal why)).
Proof.
  intros Hl Ht. unfold symlink_stays_inside. rewrite Ht, stays_loop_spec.
  destruct (beside_parts link target) as (dir & Es & Hlen & Hn & H0 & H1). specialize (Hn Hl). rewrite <- Hlen.
  assert (starts_with_slash (beside link target) = false) as Hs.
  { destruct dir; [by rewrite H0|by apply H1]. }
  assert (never_above 0 (split SLASH (beside link target)) <-> never_above (Z.of_nat (length dir)) (split SLASH target)) as Ha.
  { rewrite Es, never_above_app, (height_names dir) by done. split; [tauto|]. split; [by apply never_above_names|done]. }
  rewrite <- Ha. unfold normalize. pose proof (normalize_loop_spec (split SLASH (beside link target)) []) as H.
  cbn [length] in H. change (Z.of_nat 0) with 0 in H. rewrite Hs.
  destruct (beside link target) as [|c path]; [split; [done|]; intros _; by apply never_above_cons, conj; [|by apply never_above_nil]|].
  destruct (normalize_loop _ []) as [[|w ws]|]; [destruct H as [H _]; by split..|]. split; [done|]. intros Hx. by destruct (Hx (c :: path)).
Qed.

(** ** Verdicts *)

Lemma trim_slashes_height s : height (split SLASH (trim_end_matches (Z.eqb SLASH) s)) = height (split SLASH s).
Proof.
  induction s as [|x s IH] using rev_ind; [done|]. rewrite trim_end_snoc. destruct (Z.eqb_spec SLASH x) as [<-|Hx]; [|done].
  rewrite IH. change [SLASH] with (SLASH :: []). rewrite split_app_general, height_app.
  change (height (split SLASH [])) with 0. lia.
Qed.

Lemma normalize_not_root path q : normalize path = Ok q ->
  let t := trim_end_matches (Z.eqb SLASH) path in str_eqb t [] || str_eqb t (lit ".") = false.
Proof.
  intros E%normalize_depth. rewrite <- trim_slashes_height in E.
  assert (length (split SLASH q) <> O) as Hq by (by intros ?%nil_length_inv%split_nonnil). cbv zeta. unfold str_eqb. apply orb_false_intro; apply bool_decide_eq_false; intros Et; rewrite Et in E.
  - change (height (split SLASH [])) with 0 in E. lia.
  - change (height (split SLASH (lit "."))) with 0 in E. lia.
Qed.

Definition kind_allowed (path : str) (kind : EntryKind) : Prop :=
  match kind with
  | Symlink target => symlink_stays_inside path target = true
  | Hardlink target => exists q, normalize target = Ok q
  | _ => True
  end.

(** An entry is accepted exactly when its path can be taken, its name is not a
    marker and its link, if it is one, stays inside. *)
Theorem decide_accepts_iff e :
  (exists path kind notes, decide e = Accept path kind notes) <->
  exists path, normalize (re_path e) = Ok path /\ strip_prefix WHITEOUT_PREFIX (dir_base path).2 = None /\
    kind_allowed path (re_kind e).
Proof.
  unfold decide. split.
  - intros (path & kind & notes & H). destruct (_ || _); [done|]. destruct (normalize (re_path e)) as [p|r| |]; try done.
    destruct (dir_base p) as [dir base] eqn:Eb. destruct (str_eqb base OPAQUE_MARKER); [done|].
    destruct (strip_prefix WHITEOUT_PREFIX base) as [[|c n]|] eqn:Ew; try done. exists p. rewrite Eb. split_and!; [done..|].
    unfold kind_allowed. destruct (re_kind e) as [| |t|t]; [done..| |].
    + by destruct (symlink_stays_inside p t).
    + destruct (normalize t); [by eexists|done..].
  - intros (p & E & Ew & Hk). rewrite (normalize_not_root _ _ E), E. destruct (dir_base p) as [dir base]. cbn [snd] in Ew.
    rewrite Ew. destruct (str_eqb base OPAQUE_MARKER) eqn:Eo; [unfold str_eqb in Eo; apply bool_decide_eq_true in Eo; by subst|].
    unfold kind_allowed in Hk. destruct (re_kind e) as [mode size|mode|t|t]; [by repeat eexists..| |].
    + rewrite Hk. by repeat eexists.
    + destruct Hk as [q ->]. by repeat eexists.
Qed.

Lemma strip_suid_bits mode b : 0 <= b < 32 ->
  Z.testbit (strip_suid mode) b = Z.testbit mode b && negb ((b =? 10) || (b =? 11)).
Proof.
  intros Hb. unfold strip_suid. rewrite Z.land_spec. f_equal.
  assert (forallb (fun b => eqb (Z.testbit (Z.lxor (Z.lor S_ISUID S_ISGID) (2 ^ 32 - 1)) b) (negb ((b =? 10) || (b =? 11))))
            (seqZ 0 32) = true) as H by reflexivity.
  rewrite forallb_forall in H. apply eqb_prop, H, list_elem_of_In, elem_of_seqZ. lia.
Qed.

Lemma kept_bits mode b : 0 <= b < 32 -> b <> 10 -> b <> 11 -> Z.testbit (strip_suid mode) b = Z.testbit mode b.
Proof.
  intros Hb H1 H2. rewrite strip_suid_bits by done.
  rewrite (proj2 (Z.eqb_neq b 10)), (proj2 (Z.eqb_neq b 11)) by done. apply andb_true_r.
Qed.

Lemma strip_suid_clears mode : Z.land (strip_suid mode) (Z.lor S_ISUID S_ISGID) = 0.
Proof. unfold strip_suid. rewrite <- Z.land_assoc. apply Z.land_0_r. Qed.

(** C14: what is accepted can do no harm: the path is made of names below the root; the
    setuid and setgid bits are gone and every other bit of the mode is as it was; a
    symbolic link is the entry's, and a relative one does not climb above the root;
    a hard link names a path below the root; and a note says so whenever a bit of a
    file was removed. *)
Theorem accepted_entry_safe e path kind notes :
  decide e = Accept path kind notes ->
  proper path /\
  match re_kind e, kind with
  | File mode size, File mode' size' =>
      size' = size /\ Z.land mode' (Z.lor S_ISUID S_ISGID) = 0 /\
      (forall b, 0 <= b < 32 -> b <> 10 -> b <> 11 -> Z.testbit mode' b = Z.testbit mode b) /\
      (notes = [] /\ mode' = mode \/ notes = [SuidStripped path mode] /\ mode' <> mode)
  | Directory mode, Directory mode' =>
      Z.land mode' (Z.lor S_ISUID S_ISGID) = 0 /\
      (forall b, 0 <= b < 32 -> b <> 10 -> b <> 11 -> Z.testbit mode' b = Z.testbit mode b)
  | Symlink target, Symlink target' =>
      target' = target /\
      (starts_with_slash target = true \/ forall why, normalize (beside path target) <> Err (Traversal why))
  | Hardlink target, Hardlink target' => normalize target = Ok target' /\ proper target'
  | _, _ => False
  end.
Proof.
  unfold decide. destruct (_ || _); [done|]. destruct (normalize (re_path e)) as [p|r| |] eqn:E; try done.
  destruct (dir_base p) as [dir base]. destruct (str_eqb base OPAQUE_MARKER); [done|].
  destruct (strip_prefix WHITEOUT_PREFIX base) as [[|c n]|]; try done.
  pose proof (normalize_is_proper _ _ E) as Hp. destruct (re_kind e) as [mode size|mode|t|t].
  - intros [= <- <- <-]. split_and!; [done..|apply strip_suid_clears|apply kept_bits|].
    destruct (Z.eqb_spec (strip_suid mode) mode); [by left|by right].
  - intros [= <- <- <-]. split_and!; [done|apply strip_suid_clears|apply kept_bits].
  - destruct (symlink_stays_inside p t) eqn:Es; [|done]. intros [= <- <- <-]. split_and!; [done..|].
    destruct (starts_with_slash t) eqn:Et; [by left|right]. by apply stays_inside_iff.
  - destruct (normalize t) as [q|r| |] eqn:Et; try done. intros [= <- <- <-].
    split_and!; [done..|by eapply normalize_is_proper].
Qed.

Lemma accepted_entry_safe_witness :
  decide (mkRaw (lit "./usr//bin/../bin/su") (File 2541 5)) =
    Accept (lit "usr/bin/su") (File 493 5) [SuidStripped (lit "usr/bin/su") 2541] /\ proper (lit "usr/bin/su").
Proof.
  assert (decide (mkRaw (lit "./usr//bin/../bin/su") (File 2541 5)) =
    Accept (lit "usr/bin/su") (File 493 5) [SuidStripped (lit "usr/bin/su") 2541]) as H by (vm_compute; reflexivity).
  split; [exact H|]. apply (accepted_entry_safe _ _ _ _ H).
Defined.
