(* ===== verification/OciRootfs.v ===== *)
(** * Layers into one root file system

    [Rootfs] of [src/chm/src/oci/initramfs.rs] and [src/chm/src/oci/apply.rs]: the
    entries of an image's layers, judged by [OciEntry], put, replace and delete
    nodes of a map from paths to nodes. The map of the code is ordered; where its
    order shows, [keys] lists the paths in it. *)

From Stdlib Require Import ZArith Lia Bool String.
From stdpp Require Import base numbers list list_numbers option gmap sorting.
From S2P Require Import Prelude Text TextFacts OciEntry.

#[local] Open Scope Z_scope.

(** ** The root file system *)

Record Node := mkNode { n_kind : EntryKind; n_data : list Z }.

#[global] Instance node_eq_dec : EqDecision Node.
Proof. solve_decision. Defined.

Definition Rootfs : Type := gmap str Node.

(** The order of [String], which is that of the scalar values. *)
Fixpoint str_leb (a b : str) : bool :=
  match a, b with
  | [], _ => true
  | _, [] => false
  | x :: a, y :: b => (x <? y) || ((x =? y) && str_leb a b)
  end.

Definition str_le (a b : str) : Prop := str_leb a b = true.

#[global] Instance str_le_dec a b : Decision (str_le a b) := bool_eq_dec (str_leb a b) true.

Definition keys (fs : Rootfs) : list str := merge_sort str_le ((map_to_list fs).*1).

Definition rootfs_contains (fs : Rootfs) (path : str) : bool := bool_decide (is_Some (fs !! path)).

Definition kind_of (fs : Rootfs) (path : str) : option EntryKind := n_kind <$> fs !! path.

Definition rootfs_insert (fs : Rootfs) (path : str) (kind : EntryKind) (data : list Z) : Rootfs :=
  <[path := mkNode kind data]> fs.

Definition under (dir path : str) : bool := match strip_prefix (dir ++ [SLASH]) path with Some _ => true | None => false end.

Definition push_part (acc part : str) : str :=
  match acc with
  | [] => part
  | _ => acc ++ [SLASH] ++ part
  end.

Definition link_target (acc target : str) : str :=
  match strip_prefix [SLASH] target with
  | Some abs => abs
  | None =>
      match rsplit_once SLASH acc with
      | Some (parent, _) => parent ++ [SLASH] ++ target
      | None => target
      end
  end.

Fixpoint follow (n : nat) (fs : Rootfs) (acc : str) : str :=
  match n with
  | O => acc
  | S n =>
      match kind_of fs acc with
      | Some (Symlink target) => follow n fs (link_target acc target)
      | _ => acc
      end
  end.

Definition resolve_parents (fs : Rootfs) (path : str) : str :=
  match rsplit_once SLASH path with
  | None => path
  | Some (dir, name) =>
      foldl (fun acc part => follow 32 fs (push_part acc part)) [] (split SLASH dir) ++ [SLASH] ++ name
  end.

(** [retain] by a test of the key. *)
Definition retain (keep : str -> bool) (fs : Rootfs) : Rootfs := filter (fun kv : str * Node => keep kv.1 = true) fs.

Definition whiteout (fs : Rootfs) (path : str) : Rootfs :=
  retain (fun k => negb (str_eqb k path) && negb (under path k)) fs.

Definition opaque (fs : Rootfs) (dir : str) : Rootfs :=
  match dir with
  | [] => ∅
  | _ => retain (fun k => negb (under dir k)) fs
  end.

Fixpoint growing (acc : str) (parts : list str) : list str :=
  match parts with
  | [] => []
  | p :: parts => push_part acc p :: growing (push_part acc p) parts
  end.

Definition parents (path : str) : list str := growing [] (removelast (split SLASH path)).

Definition needed (fs : Rootfs) : list str :=
  concat ((fun path => List.filter (fun d => negb (rootfs_contains fs d)) (parents path)) <$> keys fs).

Definition materialize_parents (fs : Rootfs) : Rootfs :=
  foldl (fun fs dir => if rootfs_contains fs dir then fs else rootfs_insert fs dir (Directory 493) []) fs (needed fs).

Fixpoint hardlink_loop (n : nat) (fs : Rootfs) (key : str) (kind : EntryKind) : option str :=
  match n with
  | O => None
  | S n =>
      match kind with
      | Hardlink target =>
          match kind_of fs target with
          | Some kind => hardlink_loop n fs target kind
          | None => None
          end
      | _ => Some key
      end
  end.

Definition resolve_hardlink (fs : Rootfs) (start : str) : option str :=
  match kind_of fs start with
  | Some kind => hardlink_loop 32 fs start kind
  | None => None
  end.

(** ** Applying layers *)

Record TarEntry := mkTarEntry { te_raw : RawEntry; te_data : list Z }.

Record Layer := mkLayer { l_entries : list TarEntry; l_skipped : list (str * str) }.

Record Report := mkReport {
  rp_refused : list Refusal;
  rp_sanitised : list Refusal;
  rp_skipped_nodes : list str;
  rp_whiteouts : Z;
  rp_opaques : Z;
  rp_aliased_dirs : Z }.

Definition report_default : Report := mkReport [] [] [] 0 0 0.

Definition refuse (r : Refusal) (rp : Report) : Report :=
  mkReport (rp_refused rp ++ [r]) (rp_sanitised rp) (rp_skipped_nodes rp) (rp_whiteouts rp) (rp_opaques rp) (rp_aliased_dirs rp).

Definition sanitise (notes : list Refusal) (rp : Report) : Report :=
  mkReport (rp_refused rp) (rp_sanitised rp ++ notes) (rp_skipped_nodes rp) (rp_whiteouts rp) (rp_opaques rp) (rp_aliased_dirs rp).

Definition skip_nodes (ns : list str) (rp : Report) : Report :=
  mkReport (rp_refused rp) (rp_sanitised rp) (rp_skipped_nodes rp ++ ns) (rp_whiteouts rp) (rp_opaques rp) (rp_aliased_dirs rp).

Definition count (w o a : Z) (rp : Report) : Report :=
  mkReport (rp_refused rp) (rp_sanitised rp) (rp_skipped_nodes rp) (rp_whiteouts rp + w) (rp_opaques rp + o) (rp_aliased_dirs rp + a).

(** [trim_start_matches] with the text [./]. *)
Fixpoint trim_here (s : str) : str :=
  match s with
  | a :: b :: rest => if (a =? 46) && (b =? SLASH) then trim_here rest else s
  | _ => s
  end.

Definition apply_accepted (fs : Rootfs) (rp : Report) (path : str) (kind : EntryKind) (data : list Z) : Rootfs * Report :=
  let path := resolve_parents fs path in
  match kind, kind_of fs path with
  | Directory _, Some (Symlink _) => (fs, count 0 0 1 rp)
  | Hardlink target, _ =>
      let src := resolve_parents fs (trim_here target) in
      if rootfs_contains fs src then (rootfs_insert fs path (Hardlink src) [], rp)
      else (fs, refuse (HardlinkEscape path target) rp)
  | _, _ => (rootfs_insert fs path kind data, rp)
  end.

Definition apply_entry (st : Rootfs * Report) (e : TarEntry) : Rootfs * Report :=
  let '(fs, rp) := st in
  match decide (te_raw e) with
  | Accept path kind notes => apply_accepted fs (sanitise notes rp) path kind (te_data e)
  | Whiteout path => (whiteout fs (resolve_parents fs path), count 1 0 0 rp)
  | Opaque dir => (opaque fs (resolve_parents fs dir), count 0 1 0 rp)
  | ArchiveRoot => (fs, rp)
  | Reject r => (fs, refuse r rp)
  end.

Definition skipped_text (node : str * str) : str := lit "`" ++ node.1 ++ lit "` is a " ++ node.2.

Definition apply_layer (st : Rootfs * Report) (l : Layer) : Rootfs * Report :=
  foldl apply_entry (st.1, skip_nodes (skipped_text <$> l_skipped l) st.2) (l_entries l).

Definition apply (layers : list Layer) : Rootfs * Report :=
  let '(fs, rp) := foldl apply_layer (∅, report_default) layers in
  (materialize_parents fs, rp).

(** ** The last entry that touches a path decides it *)

Inductive Effect :=
| Put (path : str) (node : Node)
| Remove (path : str)
| ClearUnder (dir : str).

Definition perform (fs : Rootfs) (e : Effect) : Rootfs :=
  match e with
  | Put path node => <[path := node]> fs
  | Remove path => whiteout fs path
  | ClearUnder dir => opaque fs dir
  end.

(** What an entry does to a root file system, if anything. *)
Definition effect_of (fs : Rootfs) (e : TarEntry) : option Effect :=
  match decide (te_raw e) with
  | Accept path kind _ =>
      let path := resolve_parents fs path in
      match kind, kind_of fs path with
      | Directory _, Some (Symlink _) => None
      | Hardlink target, _ =>
          let src := resolve_parents fs (trim_here target) in
          if rootfs_contains fs src then Some (Put path (mkNode (Hardlink src) [])) else None
      | _, _ => Some (Put path (mkNode kind (te_data e)))
      end
  | Whiteout path => Some (Remove (resolve_parents fs path))
  | Opaque dir => Some (ClearUnder (resolve_parents fs dir))
  | _ => None
  end.

Fixpoint effects (fs : Rootfs) (es : list TarEntry) : list Effect :=
  match es with
  | [] => []
  | e :: es =>
      match effect_of fs e with
      | Some eff => eff :: effects (perform fs eff) es
      | None => effects fs es
      end
  end.

Definition touches (p : str) (e : Effect) : bool :=
  match e with
  | Put q _ => str_eqb p q
  | Remove q => str_eqb p q || under q p
  | ClearUnder d => str_eqb d [] || under d p
  end.

(** The node the effects leave at a path that held [old]. *)
Fixpoint left_at (p : str) (effs : list Effect) (old : option Node) : option Node :=
  match effs with
  | [] => old
  | e :: effs =>
      left_at p effs (if touches p e then match e with Put _ n => Some n | _ => None end else old)
  end.

Lemma empty_lookup p : (∅ : Rootfs) !! p = None.
Proof. apply lookup_empty. Qed.

Lemma retain_lookup keep fs p : retain keep fs !! p = if keep p then fs !! p else None.
Proof.
  unfold retain. destruct (keep p) eqn:E.
  - destruct (fs !! p) as [n|] eqn:Ep; [by apply map_lookup_filter_Some_2|]. apply map_lookup_filter_None. by left.
  - apply map_lookup_filter_None. right. intros n _. cbn. by rewrite E.
Qed.

Lemma perform_lookup fs e p :
  perform fs e !! p = if touches p e then match e with Put _ n => Some n | _ => None end else fs !! p.
Proof.
  destruct e as [q n|q|d]; cbn [perform touches].
  - unfold str_eqb. case_bool_decide as E; [subst; apply lookup_insert_eq|]. by apply lookup_insert_ne.
  - unfold whiteout. rewrite retain_lookup. by destruct (str_eqb p q), (under q p).
  - unfold opaque. destruct d as [|c d]; [apply lookup_empty|]. rewrite retain_lookup.
    change (str_eqb (c :: d) []) with false. by destruct (under (c :: d) p).
Qed.

Lemma left_at_perform p effs : forall fs, foldl perform fs effs !! p = left_at p effs (fs !! p).
Proof.
  induction effs as [|e effs IH]; intros fs; cbn [foldl left_at]; [done|]. by rewrite IH, perform_lookup.
Qed.

Lemma apply_entry_effect fs rp e :
  (apply_entry (fs, rp) e).1 = match effect_of fs e with Some eff => perform fs eff | None => fs end.
Proof.
  cbn [apply_entry]. unfold effect_of. destruct (decide (te_raw e)) as [|path kind notes|path|dir|why]; try done.
  unfold apply_accepted. destruct kind as [mode size|mode|t|t]; [done| |done|].
  - by destruct (kind_of fs _) as [[]|].
  - by destruct (rootfs_contains fs _).
Qed.

Lemma apply_entries_effects es : forall st, (foldl apply_entry st es).1 = foldl perform st.1 (effects st.1 es).
Proof.
  induction es as [|e es IH]; intros [fs rp]; [done|]. cbn [foldl effects fst]. rewrite IH, apply_entry_effect.
  by destruct (effect_of fs e).
Qed.

(** The root file system before the missing directories are added. *)
Definition applied (layers : list Layer) : Rootfs := (foldl apply_layer (∅, report_default) layers).1.

Lemma apply_layer_effects st l : (apply_layer st l).1 = foldl perform st.1 (effects st.1 (l_entries l)).
Proof. unfold apply_layer. by rewrite apply_entries_effects. Qed.

Lemma effects_app es es' : forall fs, effects fs (es ++ es') = effects fs es ++ effects (foldl perform fs (effects fs es)) es'.
Proof.
  induction es as [|e es IH]; intros fs; cbn [app effects]; [done|]. destruct (effect_of fs e); [|by rewrite IH].
  cbn [app foldl]. by rewrite IH.
Qed.

Lemma applied_effects layers : forall st,
  (foldl apply_layer st layers).1 = foldl perform st.1 (effects st.1 (concat (l_entries <$> layers))).
Proof.
  induction layers as [|l layers IH]; intros st; [done|]. cbn [foldl fmap list_fmap concat].
  rewrite IH, apply_layer_effects, effects_app, foldl_app. done.
Qed.

(** ** Parent directories *)

Lemma elem_of_keys fs p : p ∈ keys fs <-> is_Some (fs !! p).
Proof.
  unfold keys. rewrite (merge_sort_Permutation str_le), list_elem_of_fmap. split.
  - intros ([k n] & -> & H). apply elem_of_map_to_list in H. by eexists.
  - intros [n H]. exists (p, n). split; [done|]. by apply elem_of_map_to_list.
Qed.

Lemma rootfs_contains_iff fs p : rootfs_contains fs p = true <-> is_Some (fs !! p).
Proof. unfold rootfs_contains. by rewrite bool_decide_eq_true. Qed.

Lemma elem_of_needed fs d : d ∈ needed fs <-> fs !! d = None /\ exists p, is_Some (fs !! p) /\ d ∈ parents p.
Proof.
  unfold needed. rewrite list_elem_of_In, in_concat. split.
  - intros (l & Hl & Hd). apply list_elem_of_In, list_elem_of_fmap in Hl as (p & -> & Hp). apply filter_In in Hd as [Hd Hc].
    apply elem_of_keys in Hp. split; [|exists p; split; [done|by apply list_elem_of_In]].
    apply eq_None_not_Some. intros H%rootfs_contains_iff. by rewrite H in Hc.
  - intros (Hn & p & Hp & Hd). eexists. split; [apply list_elem_of_In, list_elem_of_fmap; exists p; split; [done|by apply elem_of_keys]|].
    apply filter_In. split; [by apply list_elem_of_In|]. destruct (rootfs_contains fs d) eqn:E; [|done].
    apply rootfs_contains_iff in E as [n E]. congruence.
Qed.

Lemma rootfs_insert_lookup fs path kind data p :
  rootfs_insert fs path kind data !! p = if str_eqb p path then Some (mkNode kind data) else fs !! p.
Proof. apply (perform_lookup fs (Put path (mkNode kind data))). Qed.

Lemma add_dirs_lookup ds : forall fs p,
  foldl (fun fs dir => if rootfs_contains fs dir then fs else rootfs_insert fs dir (Directory 493) []) fs ds !! p =
  match fs !! p with
  | Some n => Some n
  | None => if bool_decide (p ∈ ds) then Some (mkNode (Directory 493) []) else None
  end.
Proof.
  induction ds as [|d ds IH]; intros fs p; cbn [foldl]; [by destruct (fs !! p)|].
  rewrite IH. destruct (rootfs_contains fs d) eqn:E.
  - apply rootfs_contains_iff in E as [n E]. destruct (fs !! p) eqn:Ep; [done|].
    rewrite (bool_decide_ext (p ∈ d :: ds) (p ∈ ds)); [done|]. rewrite elem_of_cons. split; [|tauto]. intros [->|?]; congruence.
  - rewrite rootfs_insert_lookup. unfold str_eqb. case_bool_decide as Hd; [subst p|].
    + rewrite (bool_decide_true (d ∈ d :: ds)) by by left.
      destruct (fs !! d) eqn:Ed; [|done]. by rewrite (proj2 (rootfs_contains_iff fs d)) in E by (by rewrite Ed).
    + destruct (fs !! p); [done|].
      rewrite (bool_decide_ext (p ∈ d :: ds) (p ∈ ds)); [done|]. rewrite elem_of_cons. tauto.
Qed.

Lemma materialize_lookup fs p :
  materialize_parents fs !! p =
  match fs !! p with
  | Some n => Some n
  | None => if bool_decide (p ∈ needed fs) then Some (mkNode (Directory 493) []) else None
  end.
Proof. apply add_dirs_lookup. Qed.

Lemma growing_app acc ps qs : growing acc (ps ++ qs) = growing acc ps ++ growing (foldl push_part acc ps) qs.
Proof. revert acc. induction ps as [|p ps IH]; intros acc; [done|]. cbn [app growing foldl]. by rewrite IH. Qed.

Lemma foldl_push_nonnil ps : forall acc, acc <> [] -> foldl push_part acc ps = join [SLASH] (acc :: ps).
Proof.
  induction ps as [|p ps IH]; intros acc Ha; [done|]. cbn [foldl]. rewrite IH by (by destruct acc).
  destruct acc as [|c acc]; [done|]. change (join [SLASH] ((c :: acc) :: p :: ps)) with ((c :: acc) ++ SLASH :: join [SLASH] (p :: ps)).
  destruct ps as [|q ps]; [done|].
  change (push_part (c :: acc) p) with ((c :: acc) ++ SLASH :: p).
  change (join [SLASH] (p :: q :: ps)) with (p ++ SLASH :: join [SLASH] (q :: ps)).
  change (join [SLASH] (((c :: acc) ++ SLASH :: p) :: q :: ps)) with (((c :: acc) ++ SLASH :: p) ++ SLASH :: join [SLASH] (q :: ps)).
  by rewrite <- app_assoc.
Qed.

(** A directory that pushing parts can lead to. *)
Definition grown (acc : str) : Prop := starts_with_slash acc = false.

Lemma pushed_split acc : grown acc -> foldl push_part [] (split SLASH acc) = acc.
Proof.
  intros Hg. pose proof (join_split SLASH acc) as Hj. destruct (split SLASH acc) as [|w ws] eqn:E; [by apply split_nonnil in E|].
  cbn [foldl]. change (push_part [] w) with w. destruct w as [|c w]; [|by rewrite foldl_push_nonnil].
  destruct ws as [|v ws]; [done|]. rewrite <- Hj in Hg. done.
Qed.

Lemma grown_parents acc : grown acc -> growing [] (split SLASH acc) = parents acc ++ [acc].
Proof.
  intros Hg. unfold parents. pose proof (split_nonnil SLASH acc) as Hne.
  rewrite (app_removelast_last [] Hne) at 1. rewrite growing_app. f_equal. cbn [growing]. f_equal.
  pose proof (pushed_split acc Hg) as H. rewrite (app_removelast_last [] Hne), foldl_app in H. exact H.
Qed.

Lemma push_grown acc p : grown acc -> Forall (fun x => x <> SLASH) p -> grown (push_part acc p).
Proof.
  unfold grown. destruct acc as [|c acc]; [|done]. intros _ H. destruct p as [|c p]; [done|]. cbn.
  apply list.Forall_cons in H as [H _]. by apply Z.eqb_neq.
Qed.

Lemma parents_push acc p : grown acc -> Forall (fun x => x <> SLASH) p ->
  parents (push_part acc p) = match acc with [] => [] | _ => parents acc ++ [acc] end.
Proof.
  intros Hg Hp. destruct acc as [|c acc]; [unfold parents; cbn [push_part]; by rewrite split_none|].
  unfold parents at 1. change (push_part (c :: acc) p) with ((c :: acc) ++ SLASH :: p).
  rewrite split_app_general, (split_none _ p), removelast_last by done. by apply grown_parents.
Qed.

(** The parents of a parent are parents. *)
Lemma growing_closed ps : forall acc d,
  grown acc -> Forall (Forall (fun x => x <> SLASH)) ps -> d ∈ growing acc ps ->
  forall x, x ∈ parents d -> x ∈ parents acc \/ x = acc /\ acc <> [] \/ x ∈ growing acc ps.
Proof.
  induction ps as [|p ps IH]; intros acc d Hg Hps; cbn [growing]; [by intros ?%not_elem_of_nil|].
  apply list.Forall_cons in Hps as [Hp Hps]. assert (forall x, x ∈ parents (push_part acc p) -> x ∈ parents acc \/ x = acc /\ acc <> []) as H0.
  { intros x. rewrite parents_push by done. destruct acc as [|c acc]; [by intros ?%not_elem_of_nil|].
    rewrite elem_of_app, list_elem_of_singleton. intros [?| ->]; [by left|by right]. }
  intros [->|Hd]%elem_of_cons x Hx.
  - destruct (H0 x Hx) as [?|?]; [by left|by right; left].
  - destruct (IH (push_part acc p) d (push_grown _ _ Hg Hp) Hps Hd x Hx) as [H|[[-> _]|H]].
    + destruct (H0 x H) as [?|?]; [by left|by right; left].
    + right. right. by left.
    + right. right. by right.
Qed.

Lemma parents_closed p d x : d ∈ parents p -> x ∈ parents d -> x ∈ parents p.
Proof.
  intros Hd Hx. 
  destruct (growing_closed _ [] d eq_refl (Forall_removelast _ _ (split_free SLASH p)) Hd x Hx) as [H|[[_ H]|H]]; [by apply not_elem_of_nil in H|done|done].
Qed.

Lemma materialized_parents fs p n d : materialize_parents fs !! p = Some n -> d ∈ parents p -> is_Some (materialize_parents fs !! d).
Proof.
  rewrite !materialize_lookup. intros Hp Hd. destruct (fs !! d) as [m|] eqn:Ed; [by eexists|].
  rewrite bool_decide_true; [by eexists|]. apply elem_of_needed. split; [done|]. destruct (fs !! p) as [m|] eqn:Ep.
  - exists p. by rewrite Ep.
  - case_bool_decide as H; [|done]. apply elem_of_needed in H as (_ & q & Hq & Hpq). exists q. split; [done|]. by eapply parents_closed.
Qed.


(** ** Confinement *)

Definition no_up (path : str) : Prop := Forall (fun part => is_up part = false) (split SLASH path).

(** What a kind may hold in a root file system that stays within its root. *)
Definition kind_clean (kind : EntryKind) : Prop :=
  match kind with
  | File mode _ | Directory mode => Z.land mode (Z.lor S_ISUID S_ISGID) = 0
  | Symlink target | Hardlink target => no_up target
  end.

Definition confined (fs : Rootfs) : Prop := forall p n, fs !! p = Some n -> no_up p /\ kind_clean (n_kind n).

Lemma no_up_app a b : no_up (a ++ SLASH :: b) <-> no_up a /\ no_up b.
Proof. unfold no_up. by rewrite split_app_general, Forall_app. Qed.

Lemma no_up_nil : no_up [].
Proof. by repeat constructor. Qed.

Lemma no_up_proper p : proper p -> no_up p.
Proof. intros H. eapply list.Forall_impl; [exact H|]. by intros ? [_ ?]. Qed.

Lemma no_up_abs p : no_up (SLASH :: p) -> no_up p.
Proof. intros [_ H]%(no_up_app [] p). done. Qed.

Lemma no_up_push acc part : no_up acc -> no_up part -> no_up (push_part acc part).
Proof. destruct acc as [|c acc]; [done|]. intros Ha Hp. by apply no_up_app. Qed.

Lemma no_up_link acc target : no_up acc -> no_up target -> no_up (link_target acc target).
Proof.
  intros Ha Ht. unfold link_target. destruct (strip_prefix [SLASH] target) as [a|] eqn:E.
  { apply strip_prefix_inv in E. subst. by apply no_up_abs. }
  destruct (rsplit_once SLASH acc) as [[d b]|] eqn:Er; [|done]. apply rsplit_once_inv in Er as [-> _].
  apply no_up_app in Ha as [Ha _]. by apply no_up_app.
Qed.

Lemma no_up_follow n fs : confined fs -> forall acc, no_up acc -> no_up (follow n fs acc).
Proof.
  intros Hc. induction n as [|n IH]; intros acc Ha; [done|]. cbn [follow]. unfold kind_of.
  destruct (fs !! acc) as [[kind data]|] eqn:E; cbn; [|done]. destruct kind as [| |t|]; try done.
  apply IH, no_up_link; [done|]. by destruct (Hc _ _ E).
Qed.

Lemma no_up_resolve fs path : confined fs -> no_up path -> no_up (resolve_parents fs path).
Proof.
  intros Hc Hp. unfold resolve_parents. destruct (rsplit_once SLASH path) as [[dir name]|] eqn:E; [|done].
  apply rsplit_once_inv in E as [-> _]. apply no_up_app in Hp as [Hd Hn]. apply no_up_app. split; [|done].
  pose proof (split_free SLASH dir) as Hf. unfold no_up in Hd. assert (no_up []) as Ha by apply no_up_nil. revert Hd Hf Ha.
  generalize (@nil Z : str) as acc. induction (split SLASH dir) as [|p ps IH]; intros acc Hd Hf Ha; [done|]. cbn [foldl].
  apply list.Forall_cons in Hd as [Hp Hd], Hf as [Hpf Hf]. apply IH; [done..|]. apply no_up_follow; [done|]. apply no_up_push; [done|].
  unfold no_up. rewrite split_none by done. by repeat constructor.
Qed.

Lemma trim_here_proper t : proper t -> trim_here t = t.
Proof.
  destruct t as [|a [|b t]]; [done..|]. intros H. cbn [trim_here].
  destruct (Z.eqb_spec a 46) as [->|]; [|done]. destruct (Z.eqb_spec b SLASH) as [->|]; [|done].
  exfalso. unfold proper in H. change (46 :: SLASH :: t) with ([46] ++ SLASH :: t) in H. rewrite split_app_general in H. by apply list.Forall_cons in H as [[[=] _] _].
Qed.

Lemma accepted_clean e path kind notes :
  decide e = Accept path kind notes -> (forall t, re_kind e = Symlink t -> no_up t) -> 
  proper path /\ kind_clean kind /\ match kind with Hardlink t => proper t | _ => True end.
Proof.
  unfold decide. destruct (_ || _); [done|]. destruct (normalize (re_path e)) as [p|r| |] eqn:E; try done.
  destruct (dir_base p) as [dir base]. destruct (str_eqb base OPAQUE_MARKER); [done|].
  destruct (strip_prefix WHITEOUT_PREFIX base) as [[|c n]|]; try done.
  pose proof (normalize_is_proper _ _ E) as Hp. destruct (re_kind e) as [mode size|mode|t|t].
  - intros [= <- <- <-] _. split_and!; [done|apply strip_suid_clears|done].
  - intros [= <- <- <-] _. split_and!; [done|apply strip_suid_clears|done].
  - destruct (symlink_stays_inside p t); [|done]. intros [= <- <- <-] H. split_and!; [done|by apply H|done].
  - destruct (normalize t) as [q|r| |] eqn:Et; try done. intros [= <- <- <-] _. apply normalize_is_proper in Et.
    split_and!; [done|by apply no_up_proper|done].
Qed.

Lemma perform_confined fs e :
  confined fs -> match e with Put p n => no_up p /\ kind_clean (n_kind n) | _ => True end -> confined (perform fs e).
Proof.
  intros Hc He p n. rewrite perform_lookup. destruct (touches p e) eqn:Et; [|apply Hc]. destruct e as [q m| |]; [|done..].
  intros [= <-]. cbn in Et. unfold str_eqb in Et. apply bool_decide_eq_true in Et. by subst.
Qed.

Lemma effect_confined fs e eff :
  confined fs -> (forall t, re_kind (te_raw e) = Symlink t -> no_up t) -> effect_of fs e = Some eff -> confined (perform fs eff).
Proof.
  intros Hc Ht E. apply perform_confined; [done|]. unfold effect_of in E.
  destruct (decide (te_raw e)) as [|path kind notes|path|dir|why] eqn:Ed; try done; [|by injection E as <-..].
  destruct (accepted_clean _ _ _ _ Ed Ht) as (Hp & Hk & Hh). pose proof (no_up_resolve fs path Hc (no_up_proper _ Hp)) as Hr.
  destruct kind as [mode size|mode|t|t].
  - by injection E as <-.
  - destruct (kind_of fs _) as [[]|]; try done; by injection E as <-.
  - by injection E as <-.
  - destruct (rootfs_contains fs _); [|done]. injection E as <-. split; [done|]. cbn. apply no_up_resolve; [done|].
    rewrite trim_here_proper by done. by apply no_up_proper.
Qed.

Lemma effects_confined es : forall fs,
  confined fs -> Forall (fun e => forall t, re_kind (te_raw e) = Symlink t -> no_up t) es -> confined (foldl perform fs (effects fs es)).
Proof.
  induction es as [|e es IH]; intros fs Hc Hes; [done|]. apply list.Forall_cons in Hes as [He Hes]. cbn [effects].
  destruct (effect_of fs e) as [eff|] eqn:E; [|by apply IH]. cbn [foldl]. apply IH; [|done]. by eapply effect_confined.
Qed.

Lemma no_up_growing ps : forall acc d,
  no_up acc -> Forall (fun p => is_up p = false) ps -> Forall (Forall (fun x => x <> SLASH)) ps -> d ∈ growing acc ps -> no_up d.
Proof.
  induction ps as [|p ps IH]; intros acc d Ha Hp Hf; cbn [growing]; [by intros ?%not_elem_of_nil|].
  apply list.Forall_cons in Hp as [Hp Hps], Hf as [Hf Hfs].
  assert (no_up (push_part acc p)) by (apply no_up_push; [done|]; unfold no_up; rewrite split_none by done; by repeat constructor).
  intros [->|Hd]%elem_of_cons; [done|]. by eapply IH.
Qed.

Lemma no_up_parents p d : no_up p -> d ∈ parents p -> no_up d.
Proof.
  intros Hp. apply no_up_growing; [apply no_up_nil|by apply Forall_removelast|apply Forall_removelast, split_free].
Qed.

Lemma materialize_confined fs : confined fs -> confined (materialize_parents fs).
Proof.
  intros Hc p n. rewrite materialize_lookup. destruct (fs !! p) as [m|] eqn:E; [intros [= <-]; by apply Hc|].
  case_bool_decide as H; [|done]. intros [= <-]. split; [|done]. apply elem_of_needed in H as (_ & q & [m Hq] & Hd).
  eapply no_up_parents; [|exact Hd]. by destruct (Hc _ _ Hq).
Qed.


(** ** Links among the parents *)

Definition not_link (fs : Rootfs) (d : str) : Prop := forall t, kind_of fs d <> Some (Symlink t).

(** Every link that lies in real directories names a place that does. *)
Definition direct (fs : Rootfs) : Prop :=
  forall d t, kind_of fs d = Some (Symlink t) ->
    grown (link_target d t) /\ link_target d t <> [] /\ Forall (not_link fs) (parents (link_target d t)).

(** No chain of links is longer than is followed. *)
Definition short (fs : Rootfs) : Prop := forall d, not_link fs (follow 32 fs d).

Definition in_real (fs : Rootfs) (d : str) : Prop := grown d /\ d <> [] /\ Forall (not_link fs) (parents d).

Lemma follow_in_real n fs : direct fs -> forall d, in_real fs d -> in_real fs (follow n fs d).
Proof.
  intros Hd. induction n as [|n IH]; intros d Hr; [done|]. cbn [follow].
  destruct (kind_of fs d) as [[| |t|]|] eqn:E; try done. apply IH. by apply Hd.
Qed.

Lemma push_in_real fs acc p :
  acc = [] \/ in_real fs acc /\ not_link fs acc -> p <> [] -> Forall (fun x => x <> SLASH) p -> in_real fs (push_part acc p).
Proof.
  intros Ha Hp Hf. assert (grown acc) as Hg by (by destruct Ha as [->|[[? _] _]]).
  split_and!; [by apply push_grown|by destruct acc|]. rewrite parents_push by done. destruct acc as [|c acc]; [done|].
  destruct Ha as [|[(_ & _ & Ha) Hn]]; [done|]. apply Forall_app. split; [done|by repeat constructor].
Qed.

(** Where the links are direct and their chains short, a path is rewritten to one
    with no link among its parents. *)
Theorem resolved_parents_real fs path :
  direct fs -> short fs -> proper path -> Forall (not_link fs) (parents (resolve_parents fs path)).
Proof.
  intros Hd Hs Hp. unfold resolve_parents. destruct (rsplit_once SLASH path) as [[dir name]|] eqn:E.
  - apply rsplit_once_inv in E as [-> Hn]. unfold proper in Hp. rewrite split_app_general in Hp. apply Forall_app in Hp as [Hp _].
    pose proof (split_free SLASH dir) as Hf. pose proof (split_nonnil SLASH dir) as Hne.
    enough (forall acc, acc = [] /\ split SLASH dir <> [] \/ in_real fs acc /\ not_link fs acc ->
      let d := foldl (fun acc part => follow 32 fs (push_part acc part)) acc (split SLASH dir) in in_real fs d /\ not_link fs d) as H.
    { specialize (H [] (or_introl (conj eq_refl Hne))). destruct H as [(Hg & Hd0 & Hr) Hl]. revert Hg Hd0 Hr Hl.
      generalize (foldl (fun acc part => follow 32 fs (push_part acc part)) [] (split SLASH dir)) as d. intros d Hg Hd0 Hr Hl.
      replace (d ++ [SLASH] ++ name) with (push_part d name) by (by destruct d). rewrite parents_push by done.
      destruct d; [done|]. apply Forall_app. split; [done|by repeat constructor]. }
    clear Hne. induction (split SLASH dir) as [|p ps IH]; intros acc Ha; [destruct Ha as [[_ ?]|?]; done|].
    apply list.Forall_cons in Hp as [[Hp _] Hps], Hf as [Hf Hfs]. cbn [foldl]. apply IH; [done..|]. right. split; [|apply Hs].
    apply follow_in_real; [done|]. apply push_in_real; [tauto|by intros ->|done].
  - apply rsplit_once_none in E. unfold parents. rewrite split_none by done. constructor.
Qed.

(** ** What the code does not do *)

Definition entry_at (path : str) (kind : EntryKind) (data : list Z) : TarEntry := mkTarEntry (mkRaw path kind) data.

Definition layer_of (es : list TarEntry) : Layer := mkLayer es [].

(** A target is not normalised before it is followed: an image whose every entry
    is accepted puts a file at a path that climbs, above the root even when the
    target is absolute. *)
Theorem climbing_link_is_followed :
  let es := [entry_at (lit "a/up") (Symlink (lit "..")) []; entry_at (lit "a/up/x") (File 420 1) [1];
             entry_at (lit "out") (Symlink (lit "/../..")) []; entry_at (lit "out/y") (File 420 1) [2]] in
  let '(fs, rp) := apply [layer_of es] in
  rp_refused rp = [] /\ fs !! lit "a/../x" = Some (mkNode (File 420 1) [1]) /\
  fs !! lit "../../y" = Some (mkNode (File 420 1) [2]) /\ fs !! lit "x" = None.
Proof. vm_compute. done. Qed.

(** A chain that does not end within 32 links is not left alone: the path is moved
    to wherever the last of them points. *)
Theorem endless_chain_moves_path :
  let fs := (apply [layer_of [entry_at (lit "a") (Symlink (lit "b")) []; entry_at (lit "b") (Symlink (lit "c")) [];
                              entry_at (lit "c") (Symlink (lit "a")) []]]).1 in
  resolve_parents fs (lit "a/x") = lit "c/x".
Proof. vm_compute. done. Qed.

(** A target of several parts is taken over whole: the link among them stays. *)
Theorem linked_target_keeps_link :
  let fs := (apply [layer_of [entry_at (lit "b") (Symlink (lit "d")) []; entry_at (lit "a") (Symlink (lit "b/c")) []]]).1 in
  resolve_parents fs (lit "a/x") = lit "b/c/x" /\ kind_of fs (lit "b") = Some (Symlink (lit "d")).
Proof. vm_compute. done. Qed.

(** A file that replaces a directory leaves the directory's contents in place. *)
Theorem file_over_directory_keeps_children :
  let fs := (apply [layer_of [entry_at (lit "d") (Directory 493) []; entry_at (lit "d/x") (File 420 1) [1]];
                    layer_of [entry_at (lit "d") (File 420 1) [2]]]).1 in
  kind_of fs (lit "d") = Some (File 420 1) /\ kind_of fs (lit "d/x") = Some (File 420 1).
Proof. vm_compute. done. Qed.

(** A marker clears what its own layer put into the directory before it. *)
Theorem marker_clears_own_layer :
  let fs := (apply [layer_of [entry_at (lit "d") (Directory 493) []; entry_at (lit "d/x") (File 420 1) [1];
                              entry_at (lit "d/.wh..wh..opq") (File 0 0) []]]).1 in
  kind_of fs (lit "d") = Some (Directory 493) /\ kind_of fs (lit "d/x") = None.
Proof. vm_compute. done. Qed.

(** A hard link from a file to itself is accepted and takes the file's content. *)
Theorem self_link_loses_content :
  let '(fs, rp) := apply [layer_of [entry_at (lit "x") (File 420 1) [1]; entry_at (lit "x") (Hardlink (lit "x")) []]] in
  rp_refused rp = [] /\ fs !! lit "x" = Some (mkNode (Hardlink (lit "x")) []) /\ resolve_hardlink fs (lit "x") = None.
Proof. vm_compute. done. Qed.

(** ** Witnesses *)

(** A base image with a merged [/usr] and a layer that installs through the link. *)
Definition demo_layers : list Layer :=
  [layer_of [entry_at (lit "./") (Directory 493) []; entry_at (lit "bin") (Symlink (lit "usr/bin")) []];
   layer_of [entry_at (lit "bin/") (Directory 493) []; entry_at (lit "bin/su") (File 2541 2) [35; 33]]].

Lemma no_climb_links es :
  forallb (fun e => match re_kind (te_raw e) with Symlink t => forallb (fun x => negb (is_up x)) (split SLASH t) | _ => true end) es = true ->
  Forall (fun e => forall t, re_kind (te_raw e) = Symlink t -> no_up t) es.
Proof.
  rewrite forallb_forall. intros H. apply List.Forall_forall. intros e He t Et. specialize (H e He). cbv beta in H. rewrite Et in H.
  rewrite forallb_forall in H. apply List.Forall_forall. intros x Hx. by apply negb_true_iff, H.
Qed.

