(* ===== verification/OciCpio.v ===== *)
(** * The cpio archive of a root file system

    [src/chm/src/oci/initramfs.rs]: [write_cpio] lays a [Rootfs] out as a newc
    archive, and [read_cpio_file] finds a file in one. [records] is the list of
    records the archive is made of. *)

From Stdlib Require Import ZArith Lia Bool String.
From stdpp Require Import base numbers list list_numbers option gmap sorting.
From S2P Require Import Prelude Text TextFacts Dns Utf8 OciEntry OciRootfs.

#[local] Open Scope Z_scope.

(** ** Records *)

Definition MAGIC : str := lit "070701".
Definition S_IFREG : Z := 32768.
Definition S_IFDIR : Z := 16384.
Definition S_IFLNK : Z := 40960.

Definition hex_char (d : Z) : Z := if d <? 10 then 48 + d else 55 + d.

(** [{v:08X}] of a [u32]. *)
Definition hex8 (v : Z) : list Z := (fun i => hex_char (Z.land (Z.shiftr v (4 * i)) 15)) <$> [7; 6; 5; 4; 3; 2; 1; 0].

Definition pad4 (written : Z) : list Z := if written mod 4 =? 0 then [] else repeat 0 (Z.to_nat (4 - written mod 4)).

Definition record (ino nlink mode : Z) (name : str) (body : list Z) : list Z :=
  let name_bytes := as_bytes name in
  let namesize := Z.of_nat (length name_bytes) + 1 in
  let h := MAGIC ++ concat (hex8 <$> [ino; mode; 0; 0; nlink; 0; u32 (Z.of_nat (length body)); 0; 0; 0; 0; u32 namesize; 0]) in
  h ++ name_bytes ++ [0] ++ pad4 (Z.of_nat (length h) + namesize) ++ body ++ pad4 (Z.of_nat (length body)).

(** ** Hard links *)

Fixpoint link_loop (n : nat) (files : Rootfs) (cur : str) : option str :=
  match n with
  | O => None
  | S n =>
      match kind_of files cur with
      | Some (Hardlink target) => link_loop n files target
      | Some _ => Some cur
      | None => None
      end
  end.

Definition resolve_link (files : Rootfs) (start : str) : option str := link_loop 32 files start.

Definition anchor_of (fs : Rootfs) (path : str) : str :=
  match kind_of fs path with
  | Some (Hardlink target) => default path (resolve_link fs target)
  | _ => path
  end.

(** ** Writing *)

Record Groups := mkGroups { ino_of : gmap str Z; nlink_of : gmap str Z; next_ino : Z }.

Definition group_step (fs : Rootfs) (g : Groups) (path : str) : Groups :=
  let anchor := anchor_of fs path in
  let '(ino, inos, next) :=
    match ino_of g !! anchor with
    | Some v => (v, ino_of g, next_ino g)
    | None => (next_ino g, <[anchor := next_ino g]> (ino_of g), u32 (next_ino g + 1))
    end in
  mkGroups (<[path := ino]> inos) (<[anchor := u32 (default 0 (nlink_of g !! anchor) + 1)]> (nlink_of g)) next.

Definition groups (fs : Rootfs) : Groups := foldl (group_step fs) (mkGroups ∅ ∅ 1) (keys fs).

Fixpoint emit (fs : Rootfs) (g : Groups) (paths : list str) (body_written : gmap Z bool) : list Z :=
  match paths with
  | [] => []
  | path :: paths =>
      match fs !! path with
      | None => emit fs g paths body_written
      | Some node =>
          let name := lit "./" ++ path in
          let ino := default 1 (ino_of g !! path) in
          let anchor := anchor_of fs path in
          let nlink := default 1 (nlink_of g !! anchor) in
          let first := negb (default false (body_written !! ino)) in
          match n_kind node with
          | Directory mode =>
              record ino 1 (Z.lor S_IFDIR (Z.land mode 4095)) name [] ++ emit fs g paths body_written
          | File mode _ =>
              let body := if first then n_data node else [] in
              record ino nlink (Z.lor S_IFREG (Z.land mode 4095)) name body ++ emit fs g paths (<[ino := true]> body_written)
          | Symlink target =>
              record ino 1 (Z.lor S_IFLNK 511) name (as_bytes target) ++ emit fs g paths body_written
          | Hardlink _ =>
              let body := match first, fs !! anchor with
                          | true, Some n => n_data n
                          | _, _ => []
                          end in
              record ino nlink (Z.lor S_IFREG 493) name body ++ emit fs g paths (<[ino := true]> body_written)
          end
      end
  end.

Definition write_cpio (rootfs : Rootfs) : list Z :=
  emit rootfs (groups rootfs) (keys rootfs) ∅ ++ record 0 1 0 (lit "TRAILER!!!") [].

(** ** Reading *)

(** [get(a..b)] of a slice. *)
Definition get_range (a b : Z) (d : list Z) : option (list Z) :=
  if (0 <=? a) && (a <=? b) && (b <=? Z.of_nat (length d)) then Some (take (Z.to_nat (b - a)) (drop (Z.to_nat a) d)) else None.

Definition next_multiple_of_4 (n : Z) : Z := if n mod 4 =? 0 then n else n + (4 - n mod 4).

Definition cpio_field (d : list Z) (k : Z) : option Z :=
  raw ← get_range (6 + k * 8) (6 + (k + 1) * 8) d; s ← from_utf8 raw; from_str_radix 16 64 s.

(** [d] is the archive from the code's index on. An index is at most the length of
    the archive and a step below 2^34, so no sum overflows. *)
Fixpoint read_loop (fuel : nat) (d : list Z) (want : str) : res unit (option (list Z)) :=
  match fuel with
  | O => NoFuel
  | S fuel =>
      if Z.of_nat (length d) <? 110 then Ok None
      else if negb (bool_decide (take 6 d = as_bytes MAGIC)) then Ok None
      else
        match cpio_field d 6, cpio_field d 11 with
        | Some filesize, Some namesize =>
            if namesize =? 0 then Ok None
            else
              match get_range 110 (110 + namesize - 1) d with
              | None => Ok None
              | Some raw =>
                  let name := utf8_lossy raw in
                  if str_eqb name (lit "TRAILER!!!") then Ok None
                  else
                    let data_at := next_multiple_of_4 (110 + namesize) in
                    if str_eqb (trim_here name) want then Ok (get_range data_at (data_at + filesize) d)
                    else read_loop fuel (drop (Z.to_nat (data_at + next_multiple_of_4 filesize)) d) want
              end
        | _, _ => Ok None
        end
  end.

Definition read_cpio_file (d : list Z) (want : str) : res unit (option (list Z)) := read_loop (S (length d)) d want.

(** ** Reading a record back *)

Record Rec := mkRec { r_ino : Z; r_nlink : Z; r_mode : Z; r_name : str; r_body : list Z }.

Definition rec_bytes (r : Rec) : list Z := record (r_ino r) (r_nlink r) (r_mode r) (r_name r) (r_body r).

Definition rec_ok (r : Rec) : Prop :=
  Forall scalar (r_name r) /\ Z.of_nat (length (as_bytes (r_name r))) + 1 < 2 ^ 32 /\ Z.of_nat (length (r_body r)) < 2 ^ 32.

Lemma hex_char_digit d : 0 <= d < 16 -> to_digit 16 (hex_char d) = Some d /\ 48 <= hex_char d < 128.
Proof.
  intros Hd. assert (forallb (fun d => bool_decide (to_digit 16 (hex_char d) = Some d) && (48 <=? hex_char d) && (hex_char d <? 128))
    (seqZ 0 16) = true) as H by reflexivity.
  rewrite forallb_forall in H. specialize (H d). rewrite <- list_elem_of_In, elem_of_seqZ in H.
  apply andb_true_iff in H as [[H1%bool_decide_eq_true H2]%andb_true_iff H3]; [|lia]. split; [done|lia].
Qed.

Lemma hex_digit_range v i : 0 <= Z.land (Z.shiftr v (4 * i)) 15 < 16.
Proof. change 15 with (Z.ones 4). rewrite Z.land_ones by lia. apply Z.mod_pos_bound. lia. Qed.

Lemma push_hex v j : is_u32 v -> 0 <= j ->
  push_digit 16 64 (Some (v / 16 ^ (j + 1))) (hex_char (Z.land (Z.shiftr v (4 * j)) 15)) = Some (v / 16 ^ j).
Proof.
  intros Hv Hj. unfold push_digit. cbn. rewrite (proj1 (hex_char_digit _ (hex_digit_range v j))). cbn.
  assert (v / 16 ^ (j + 1) * 16 + Z.land (Z.shiftr v (4 * j)) 15 = v / 16 ^ j) as ->.
  { change 15 with (Z.ones 4). rewrite Z.land_ones, Z.shiftr_div_pow2, Z.pow_mul_r by lia. change (2 ^ 4) with 16.
    rewrite Z.pow_add_r, Z.pow_1_r, <- Z.div_div by lia. pose proof (Z.div_mod (v / 16 ^ j) 16). lia. }
  unfold is_u32 in Hv. assert (v / 16 ^ j <= v) by (apply Z.div_le_upper_bound; [lia|]; nia).
  rewrite (proj2 (Z.ltb_lt _ _)) by lia. done.
Qed.

Lemma hex8_digits v : is_u32 v -> foldl (push_digit 16 64) (Some 0) (hex8 v) = Some v.
Proof.
  intros Hv. unfold hex8. cbn [fmap list_fmap foldl].
  assert (Some 0 = Some (v / 16 ^ (7 + 1))) as -> by (f_equal; symmetry; apply Z.div_small; exact Hv).
  rewrite (push_hex v 7) by (done || lia). change 7 with (6 + 1) at 1. rewrite (push_hex v 6) by (done || lia).
  change 6 with (5 + 1) at 1. rewrite (push_hex v 5) by (done || lia). change 5 with (4 + 1) at 1.
  rewrite (push_hex v 4) by (done || lia). change 4 with (3 + 1) at 1. rewrite (push_hex v 3) by (done || lia).
  change 3 with (2 + 1) at 1. rewrite (push_hex v 2) by (done || lia). change 2 with (1 + 1) at 1.
  rewrite (push_hex v 1) by (done || lia). change 1 with (0 + 1) at 1. rewrite (push_hex v 0) by (done || lia).
  f_equal. apply Z.div_1_r.
Qed.

Lemma hex8_ascii v : Forall (fun c => 48 <= c < 128) (hex8 v).
Proof. unfold hex8. apply Forall_fmap, Forall_true. intros i. by apply hex_char_digit, hex_digit_range. Qed.

Lemma hex8_reads v : is_u32 v -> (s ← from_utf8 (hex8 v); from_str_radix 16 64 s) = Some v.
Proof.
  intros Hv. pose proof (hex8_ascii v) as Ha.
  assert (from_utf8 (hex8 v) = Some (hex8 v)) as ->.
  { rewrite <- (as_bytes_ascii (hex8 v)) at 1 by (eapply list.Forall_impl; [exact Ha|]; cbn; lia).
    apply from_utf8_bytes. eapply list.Forall_impl; [exact Ha|]. intros c Hc. left. cbn in Hc. lia. }
  cbn [mbind option_bind]. unfold from_str_radix. pose proof (hex8_digits v Hv) as Hd.
  destruct (hex8 v) as [|c s] eqn:E; [done|]. apply list.Forall_cons in Ha as [Hc _]. cbn [strip_prefix].
  rewrite (proj2 (Z.eqb_neq 43 c)) by lia. exact Hd.
Qed.

Definition header (ino nlink mode filesize namesize : Z) : list Z :=
  MAGIC ++ concat (hex8 <$> [ino; mode; 0; 0; nlink; 0; filesize; 0; 0; 0; 0; namesize; 0]).

Lemma header_length ino nlink mode filesize namesize : length (header ino nlink mode filesize namesize) = 110%nat.
Proof. done. Qed.

Lemma header_fields ino nlink mode filesize namesize rest :
  take 6 (header ino nlink mode filesize namesize ++ rest) = MAGIC /\
  (is_u32 filesize -> cpio_field (header ino nlink mode filesize namesize ++ rest) 6 = Some filesize) /\
  (is_u32 namesize -> cpio_field (header ino nlink mode filesize namesize ++ rest) 11 = Some namesize).
Proof.
  split; [done|]. assert (forall a b, 0 <= a -> a <= b -> b <= 110 ->
    get_range a b (header ino nlink mode filesize namesize ++ rest) =
    Some (take (Z.to_nat (b - a)) (drop (Z.to_nat a) (header ino nlink mode filesize namesize)))) as H.
  { intros a b Ha Hab Hb. unfold get_range. rewrite length_app, header_length.
    rewrite (proj2 (Z.leb_le 0 a)), (proj2 (Z.leb_le a b)), (proj2 (Z.leb_le b _)) by lia. cbn [andb]. f_equal.
    rewrite drop_app_le by (rewrite header_length; lia). rewrite take_app_le; [done|]. rewrite length_drop, header_length. lia. }
  unfold cpio_field. split; intros Hu; rewrite H by lia; apply hex8_reads; exact Hu.
Qed.

Lemma pad4_length n : 0 <= n -> n + Z.of_nat (length (pad4 n)) = next_multiple_of_4 n.
Proof.
  intros Hn. unfold pad4, next_multiple_of_4. destruct (n mod 4 =? 0); [cbn; lia|]. rewrite repeat_length.
  pose proof (Z.mod_pos_bound n 4). lia.
Qed.

Lemma u32_small x : is_u32 x -> u32 x = x.
Proof. intros H. by apply Z.mod_small. Qed.

Lemma rec_bytes_eq r : rec_ok r ->
  let nb := as_bytes (r_name r) in
  let namesize := Z.of_nat (length nb) + 1 in
  let filesize := Z.of_nat (length (r_body r)) in
  rec_bytes r = header (r_ino r) (r_nlink r) (r_mode r) filesize namesize ++
    nb ++ [0] ++ pad4 (110 + namesize) ++ r_body r ++ pad4 filesize.
Proof.
  intros (_ & Hn & Hb). cbv zeta. unfold rec_bytes, record. cbv zeta. rewrite !u32_small by (unfold is_u32; lia). done.
Qed.

Lemma get_range_mid a b l m n :
  Z.of_nat (length l) = a -> Z.of_nat (length m) = b - a -> get_range a b (l ++ m ++ n) = Some m.
Proof.
  intros Ha Hb. unfold get_range. rewrite !length_app.
  rewrite (proj2 (Z.leb_le 0 a)), (proj2 (Z.leb_le a b)), (proj2 (Z.leb_le b _)) by lia. cbn [andb]. f_equal.
  rewrite <- Ha, Nat2Z.id, drop_app_length. replace (Z.to_nat (b - Z.of_nat (length l))) with (length m) by lia.
  apply take_app_length.
Qed.

(** Reading a record takes its body if its name is the one wanted and goes on
    behind it otherwise. *)
Lemma read_record fuel r rest want : rec_ok r ->
  read_loop (S fuel) (rec_bytes r ++ rest) want =
  if str_eqb (r_name r) (lit "TRAILER!!!") then Ok None
  else if str_eqb (trim_here (r_name r)) want then Ok (Some (r_body r))
  else read_loop fuel rest want.
Proof.
  intros Hr. rewrite (rec_bytes_eq r Hr). destruct Hr as (Hs & Hn & Hb). set (nb := as_bytes (r_name r)) in *.
  set (ns := Z.of_nat (length nb) + 1) in *. set (fsz := Z.of_nat (length (r_body r))) in *.
  set (h := header (r_ino r) (r_nlink r) (r_mode r) fsz ns). rewrite <- !app_assoc.
  destruct (header_fields (r_ino r) (r_nlink r) (r_mode r) fsz ns
    (nb ++ [0] ++ pad4 (110 + ns) ++ r_body r ++ pad4 fsz ++ rest)) as (Hm & H6 & H11). fold h in Hm, H6, H11.
  assert (length h = 110%nat) as Hh by apply header_length.
  cbn [read_loop]. rewrite (proj2 (Z.ltb_ge _ 110)) by (rewrite length_app, Hh; lia).
  rewrite bool_decide_true by exact Hm. cbn [negb]. rewrite H6, H11 by (unfold is_u32; lia).
  rewrite (proj2 (Z.eqb_neq ns 0)) by lia.
  rewrite (get_range_mid 110 (110 + ns - 1) h nb) by lia.
  assert (utf8_lossy nb = r_name r) as -> by (unfold utf8_lossy, nb; by apply utf8_lossy_loop_bytes).
  destruct (str_eqb (r_name r) (lit "TRAILER!!!")); [done|].
  pose proof (pad4_length (110 + ns) ltac:(lia)) as Hp1. pose proof (pad4_length fsz ltac:(lia)) as Hp2.
  destruct (str_eqb (trim_here (r_name r)) want).
  - f_equal. rewrite !(app_assoc h), !(app_assoc (h ++ nb)), (app_assoc (_ ++ [0])). apply get_range_mid; [|lia].
    rewrite !length_app, Hh. cbn [length]. lia.
  - f_equal. rewrite !(app_assoc h), !(app_assoc (h ++ nb)), (app_assoc (_ ++ [0])), (app_assoc _ (r_body r)), (app_assoc _ (pad4 fsz)).
    apply drop_app_length'. rewrite !length_app, Hh. cbn [length]. lia.
Qed.

Lemma cpio_field_range d k v : cpio_field d k = Some v -> 0 <= v < 2 ^ 64.
Proof.
  unfold cpio_field. destruct (get_range _ _ d) as [raw|]; [|done]. cbn. destruct (from_utf8 raw) as [s|]; [|done]. cbn.
  by apply from_str_radix_range.
Qed.

Lemma next_multiple_le n : n <= next_multiple_of_4 n.
Proof. unfold next_multiple_of_4. pose proof (Z.mod_pos_bound n 4). destruct (n mod 4 =? 0); lia. Qed.

(** Reading ends for every archive. *)
Lemma read_loop_settles fuel : forall d want, (length d < fuel)%nat -> read_loop fuel d want <> NoFuel.
Proof.
  induction fuel as [|fuel IH]; intros d want Hd; [lia|]. cbn [read_loop].
  destruct (Z.ltb_spec (Z.of_nat (length d)) 110) as [|Hl]; [done|]. destruct (negb _); [done|].
  destruct (cpio_field d 6) as [fsz|] eqn:E6; [|done]. destruct (cpio_field d 11) as [ns|] eqn:E11; [|done].
  destruct (ns =? 0); [done|]. destruct (get_range 110 _ d) as [raw|] eqn:Eg; [|done]. destruct (str_eqb _ _); [done|].
  destruct (str_eqb _ want); [done|]. apply IH. rewrite length_drop.
  apply cpio_field_range in E6, E11. pose proof (next_multiple_le fsz). pose proof (next_multiple_le (110 + ns)). lia.
Qed.

(** ** The records of an archive *)

Definition regular (fs : Rootfs) (p : str) : bool :=
  match kind_of fs p with
  | Some (File _ _) | Some (Hardlink _) => true
  | _ => false
  end.

Definition ino_at (g : Groups) (p : str) : Z := default 1 (ino_of g !! p).

(** The content a name stands for: its own, or its group's. *)
Definition content (fs : Rootfs) (p : str) (n : Node) : list Z :=
  match n_kind n with
  | Directory _ => []
  | Symlink target => as_bytes target
  | File _ _ => n_data n
  | Hardlink _ => match fs !! anchor_of fs p with Some m => n_data m | None => [] end
  end.

Definition mode_at (n : Node) : Z :=
  match n_kind n with
  | Directory mode => Z.lor S_IFDIR (Z.land mode 4095)
  | File mode _ => Z.lor S_IFREG (Z.land mode 4095)
  | Symlink _ => Z.lor S_IFLNK 511
  | Hardlink _ => Z.lor S_IFREG 493
  end.

Definition rec_at (fs : Rootfs) (g : Groups) (p : str) (n : Node) (first : bool) : Rec :=
  mkRec (ino_at g p) (if regular fs p then default 1 (nlink_of g !! anchor_of fs p) else 1) (mode_at n) (lit "./" ++ p)
    (if regular fs p && negb first then [] else content fs p n).

(** Whether a regular file or link among [before] has the inode. *)
Definition written (fs : Rootfs) (g : Groups) (before : list str) (ino : Z) : bool :=
  existsb (fun q => regular fs q && (ino_at g q =? ino)) before.

Fixpoint records_from (fs : Rootfs) (g : Groups) (before paths : list str) : list Rec :=
  match paths with
  | [] => []
  | p :: paths =>
      match fs !! p with
      | Some n => [rec_at fs g p n (negb (written fs g before (ino_at g p)))]
      | None => []
      end ++ records_from fs g (before ++ [p]) paths
  end.

Definition records (fs : Rootfs) : list Rec := records_from fs (groups fs) [] (keys fs).

Lemma emit_records fs g paths : forall before bw,
  (forall i, default false (bw !! i) = written fs g before i) ->
  emit fs g paths bw = concat (rec_bytes <$> records_from fs g before paths).
Proof.
  induction paths as [|p paths IH]; intros before bw Hbw; cbn [emit records_from]; [done|].
  assert (forall i, written fs g (before ++ [p]) i = written fs g before i || (regular fs p && (ino_at g p =? i))) as Hw.
  { intros i. unfold written. rewrite existsb_app. cbn [existsb]. by rewrite orb_false_r. }
  assert (regular fs p = false -> forall i, default false (bw !! i) = written fs g (before ++ [p]) i) as Hsame.
  { intros Hr i. by rewrite Hw, Hr, orb_false_r. }
  assert (regular fs p = true -> forall i, default false (<[ino_at g p := true]> bw !! i) = written fs g (before ++ [p]) i) as Hnew.
  { intros Hr i. rewrite Hw, Hr. cbn [andb]. destruct (Z.eqb_spec (ino_at g p) i) as [<-|Hi].
    - by rewrite lookup_insert_eq, orb_true_r.
    - by rewrite lookup_insert_ne, orb_false_r by done. }
  unfold regular, kind_of in Hsame, Hnew. destruct (fs !! p) as [[kind data]|] eqn:E; [|by apply IH, Hsame].
  cbn [fmap list_fmap app concat]. fold (ino_at g p). rewrite Hbw. unfold rec_bytes at 1, rec_at, mode_at, content, regular, kind_of.
  rewrite E. cbn [fmap option_fmap option_map n_kind n_data r_ino r_nlink r_mode r_name r_body andb] in *. rewrite negb_involutive.
  destruct kind as [mode size|mode|t|t].
  - f_equal; [by destruct (written fs g before (ino_at g p))|]. by apply IH, Hnew.
  - f_equal. by apply IH, Hsame.
  - f_equal. by apply IH, Hsame.
  - f_equal; [|by apply IH, Hnew]. by destruct (written fs g before (ino_at g p)), (fs !! anchor_of fs p).
Qed.

Lemma write_cpio_records fs : write_cpio fs = concat (rec_bytes <$> records fs) ++ record 0 1 0 (lit "TRAILER!!!") [].
Proof. unfold write_cpio, records. by rewrite (emit_records _ _ _ []). Qed.

(** ** The order of the paths *)

Lemma str_leb_refl a : str_leb a a = true.
Proof. induction a as [|x a IH]; [done|]. cbn. by rewrite Z.eqb_refl, IH, orb_true_r. Qed.

Lemma str_leb_trans a : forall b c, str_leb a b = true -> str_leb b c = true -> str_leb a c = true.
Proof.
  induction a as [|x a IH]; intros [|y b] [|z c]; cbn; try done.
  rewrite !orb_true_iff, !andb_true_iff, !Z.ltb_lt, !Z.eqb_eq. intros [H1|[-> H1]] [H2|[-> H2]]; [left; lia|by left..|].
  right. split; [done|]. by eapply IH.
Qed.

Lemma str_leb_total a : forall b, str_leb a b = true \/ str_leb b a = true.
Proof.
  induction a as [|x a IH]; intros [|y b]; [by left..|by right|]. cbn.
  rewrite !orb_true_iff, !andb_true_iff, !Z.ltb_lt, !Z.eqb_eq. destruct (IH b), (Z.lt_total x y) as [|[->|]]; tauto.
Qed.

Lemma str_leb_antisym a : forall b, str_leb a b = true -> str_leb b a = true -> a = b.
Proof.
  induction a as [|x a IH]; intros [|y b]; cbn; try done.
  rewrite !orb_true_iff, !andb_true_iff, !Z.ltb_lt, !Z.eqb_eq. intros [H1|[-> H1]] [H2|[H3 H2]]; try lia. f_equal. by apply IH.
Qed.

#[global] Instance str_le_trans_inst : Transitive str_le.
Proof. intros a b c. apply str_leb_trans. Qed.

#[global] Instance str_le_total_inst : Total str_le.
Proof. intros a b. apply str_leb_total. Qed.

Lemma keys_nodup fs : NoDup (keys fs).
Proof. unfold keys. rewrite (merge_sort_Permutation str_le). apply NoDup_fst_map_to_list. Qed.

Lemma keys_sorted fs : StronglySorted str_le (keys fs).
Proof. apply StronglySorted_merge_sort; apply _. Qed.

(** Of two paths the lesser is listed first. *)
Lemma keys_split fs p : is_Some (fs !! p) ->
  exists before after, keys fs = before ++ p :: after /\ p ∉ before /\
    forall q, q ∈ before <-> is_Some (fs !! q) /\ str_le q p /\ q <> p.
Proof.
  intros H%elem_of_keys. apply list_elem_of_split in H as (a & b & E). exists a, b. split; [done|].
  pose proof (keys_nodup fs) as Hn. rewrite E in Hn. apply NoDup_app in Hn as (_ & Hd & [Hp _]%NoDup_cons).
  pose proof (keys_sorted fs) as Hs. rewrite E in Hs. apply StronglySorted_app in Hs as (Ha & _ & [Hb _]%StronglySorted_cons).
  split; [intros H; apply (Hd p H); by left|]. intros q. split.
  - intros Hq. split_and!; [|apply Ha; [done|by left]|intros ->; apply (Hd p Hq); by left].
    apply elem_of_keys. rewrite E. apply elem_of_app. by left.
  - intros (Hk & Hl & Hne). apply elem_of_keys in Hk. rewrite E in Hk. apply elem_of_app in Hk as [?|[->|Hk]%elem_of_cons]; [done..|].
    exfalso. apply Hne, str_leb_antisym; [exact Hl|]. rewrite list.Forall_forall in Hb. by apply Hb.
Qed.

Lemma str_leb_prefix a b : str_leb a (a ++ b) = true.
Proof. induction a as [|x a IH]; [done|]. cbn. by rewrite Z.eqb_refl, IH, orb_true_r. Qed.

Lemma push_part_length acc p : acc <> [] -> (length acc < length (push_part acc p))%nat.
Proof. destruct acc as [|c acc]; [done|]. intros _. unfold push_part. rewrite !length_app. cbn. lia. Qed.

Lemma growing_prefix ps : forall acc d, d ∈ growing acc ps -> exists r, foldl push_part acc ps = d ++ r.
Proof.
  assert (forall qs acc, exists r, foldl push_part acc qs = acc ++ r) as H.
  { induction qs as [|q qs IH]; intros acc; [exists []; by rewrite app_nil_r|]. cbn [foldl]. destruct (IH (push_part acc q)) as [r ->].
    destruct acc as [|c acc]; [by eexists|]. exists (SLASH :: q ++ r). unfold push_part. by rewrite <- !app_assoc. }
  induction ps as [|p ps IH]; intros acc d; cbn [growing foldl]; [by intros ?%not_elem_of_nil|].
  intros [->|Hd]%elem_of_cons; [apply H|by apply IH].
Qed.

(** A parent is a proper prefix of its path. *)
Lemma parents_before p d : grown p -> d ∈ parents p -> str_le d p /\ d <> p.
Proof.
  intros Hg Hd. unfold parents in Hd. pose proof (split_nonnil SLASH p) as Hne. pose proof (pushed_split p Hg) as Hp.
  assert (exists ps x, split SLASH p = ps ++ [x] /\ removelast (split SLASH p) = ps) as (ps & x & El & Ers)
    by (eexists _, _; split; [exact (app_removelast_last [] Hne)|done]).
  rewrite Ers in Hd. rewrite El, foldl_app in Hp. cbn [foldl] in Hp. destruct (growing_prefix _ _ _ Hd) as [r Er].
  assert (foldl push_part [] ps <> []) as Hn.
  { intros E0. rewrite E0 in Hp. cbn in Hp. destruct ps as [|q ps]; [by apply not_elem_of_nil in Hd|].
    rewrite <- Hp in El. assert (Forall (fun y => y <> SLASH) x) as Hf.
    { pose proof (split_free SLASH p) as Hf. rewrite <- Hp in Hf. rewrite El in Hf. by apply Forall_app in Hf as [_ [? _]%list.Forall_cons]. }
    rewrite (split_none _ x Hf) in El. apply (f_equal length) in El. rewrite length_app in El. cbn in El. lia. }
  pose proof (push_part_length _ x Hn) as Hl. rewrite Hp, Er in Hl. split.
  - destruct d as [|c d]; [done|]. rewrite <- Hp, Er. unfold str_le, push_part. rewrite <- app_assoc. apply str_leb_prefix.
  - intros ->. rewrite length_app in Hl. lia.
Qed.

(** ** Groups of hard links *)

Lemma link_loop_real n fs : forall cur a, link_loop n fs cur = Some a -> anchor_of fs a = a.
Proof.
  induction n as [|n IH]; intros cur a; [done|]. cbn [link_loop]. destruct (kind_of fs cur) as [[| | |t]|] eqn:E; try done; [..|apply IH];
    intros [= <-]; unfold anchor_of; by rewrite E.
Qed.

Lemma anchor_idem fs p : anchor_of fs (anchor_of fs p) = anchor_of fs p.
Proof.
  destruct (kind_of fs p) as [[| | |t]|] eqn:E; try (unfold anchor_of at 2 3; by rewrite E; unfold anchor_of; rewrite E).
  assert (anchor_of fs p = default p (resolve_link fs t)) as Ea by (unfold anchor_of; by rewrite E).
  rewrite Ea. destruct (resolve_link fs t) as [a|] eqn:El; cbn; [by eapply link_loop_real|done].
Qed.

(** The two walks along a chain of hard links agree. *)
Lemma hardlink_loop_agrees fs n : forall start kind, kind_of fs start = Some kind ->
  hardlink_loop n fs start kind = link_loop n fs start.
Proof.
  induction n as [|n IH]; intros start kind E; [done|]. cbn [hardlink_loop link_loop]. rewrite E.
  destruct kind as [| | |t]; try done. destruct (kind_of fs t) as [k|] eqn:Et; [by apply IH|].
  destruct n; cbn; [done|by rewrite Et].
Qed.

Lemma resolve_hardlink_agrees fs start : resolve_hardlink fs start = resolve_link fs start.
Proof.
  unfold resolve_hardlink, resolve_link. destruct (kind_of fs start) as [k|] eqn:E; [by apply hardlink_loop_agrees|].
  cbn [link_loop]. by rewrite E.
Qed.

Record grouped (fs : Rootfs) (paths : list str) (g : Groups) : Prop := {
  gr_next : 1 <= next_ino g <= 1 + Z.of_nat (length paths);
  gr_range x i : ino_of g !! x = Some i -> 1 <= i < next_ino g;
  gr_dom x i : ino_of g !! x = Some i -> exists q, q ∈ paths /\ (x = q \/ x = anchor_of fs q);
  gr_at q : q ∈ paths -> is_Some (ino_of g !! anchor_of fs q) /\ ino_of g !! q = ino_of g !! anchor_of fs q;
  gr_inj q r : q ∈ paths -> r ∈ paths -> ino_of g !! anchor_of fs q = ino_of g !! anchor_of fs r -> anchor_of fs q = anchor_of fs r;
  gr_links a : default 0 (nlink_of g !! a) = Z.of_nat (length (List.filter (fun q => str_eqb (anchor_of fs q) a) paths)) }.

(** One step: the path and its anchor have the group's inode, old or new. *)
Lemma group_step_lookup fs g p :
  let a := anchor_of fs p in
  exists ino, (ino_of g !! a = Some ino \/ ino_of g !! a = None /\ ino = next_ino g) /\
    next_ino (group_step fs g p) = match ino_of g !! a with Some _ => next_ino g | None => u32 (next_ino g + 1) end /\
    forall x, ino_of (group_step fs g p) !! x = if str_eqb x p || str_eqb x a then Some ino else ino_of g !! x.
Proof.
  intros a. unfold group_step. fold a. destruct (ino_of g !! a) as [v|] eqn:E.
  - exists v. split_and!; [by left|done|]. intros x. cbn [ino_of]. unfold str_eqb. case_bool_decide as Hx; [subst; apply lookup_insert_eq|].
    rewrite lookup_insert_ne by done. cbn [orb]. by case_bool_decide; [subst|].
  - exists (next_ino g). split_and!; [by right|done|]. intros x. cbn [ino_of]. unfold str_eqb.
    case_bool_decide as Hx; [subst; apply lookup_insert_eq|]. rewrite lookup_insert_ne by done. cbn [orb].
    case_bool_decide as Hy; [subst; apply lookup_insert_eq|]. by rewrite lookup_insert_ne.
Qed.

Lemma str_eqb_refl x : str_eqb x x = true.
Proof. unfold str_eqb. by rewrite bool_decide_true. Qed.

Lemma str_eqb_neq x y : x <> y -> str_eqb x y = false.
Proof. intros H. unfold str_eqb. by rewrite bool_decide_false. Qed.

Lemma anchor_known fs paths g p i : grouped fs paths g -> ino_of g !! anchor_of fs p = Some i ->
  exists q, q ∈ paths /\ anchor_of fs q = anchor_of fs p.
Proof.
  intros Hg H. destruct (gr_dom _ _ _ Hg _ _ H) as (q & Hq & [E|E]); exists q; split; try done. rewrite <- E. apply anchor_idem.
Qed.

Lemma anchor_of_anchor fs p q : anchor_of fs q = p -> anchor_of fs p = p.
Proof. intros <-. apply anchor_idem. Qed.

Lemma group_step_nlink fs g p :
  nlink_of (group_step fs g p) = <[anchor_of fs p := u32 (default 0 (nlink_of g !! anchor_of fs p) + 1)]> (nlink_of g).
Proof. unfold group_step. by destruct (ino_of g !! anchor_of fs p). Qed.

Lemma group_step_links fs paths g p x : grouped fs paths g -> Z.of_nat (length paths) + 2 < 2 ^ 32 ->
  default 0 (nlink_of (group_step fs g p) !! x) =
  Z.of_nat (length (List.filter (fun q => str_eqb (anchor_of fs q) x) (paths ++ [p]))).
Proof.
  intros Hg Hn. rewrite group_step_nlink, List.filter_app, length_app, !(gr_links _ _ _ Hg). cbn [List.filter].
  unfold str_eqb at 3. case_bool_decide as E; [subst x|].
  - rewrite lookup_insert_eq. cbn [default from_option length id]. rewrite u32_small; [unfold id; lia|]. unfold is_u32.
    pose proof (filter_length_le (fun q => str_eqb (anchor_of fs q) (anchor_of fs p)) paths). lia.
  - rewrite lookup_insert_ne, (gr_links _ _ _ Hg) by done. cbn [length]. lia.
Qed.

Lemma group_step_grouped fs paths g p :
  grouped fs paths g -> p ∉ paths -> Z.of_nat (length paths) + 2 < 2 ^ 32 -> grouped fs (paths ++ [p]) (group_step fs g p).
Proof.
  intros Hg Hp Hn. destruct (group_step_lookup fs g p) as (ino & Hi & Hnext & Hl). set (a := anchor_of fs p) in *.
  pose proof (gr_next _ _ _ Hg) as Hx.
  assert (next_ino g <= next_ino (group_step fs g p) <= next_ino g + 1 /\ 1 <= ino < next_ino (group_step fs g p)) as [Hx1 Hx2].
  { rewrite Hnext. destruct Hi as [Hi|[Hi ->]]; rewrite Hi.
    - apply (gr_range _ _ _ Hg) in Hi. lia.
    - rewrite u32_small by (unfold is_u32; lia). lia. }
  assert (ino_of (group_step fs g p) !! a = Some ino) as Ha by (by rewrite Hl, str_eqb_refl, orb_true_r).
  assert (forall q, q ∈ paths -> anchor_of fs q <> a ->
    ino_of (group_step fs g p) !! anchor_of fs q = ino_of g !! anchor_of fs q) as Hold.
  { intros q Hq Hne. rewrite Hl, !str_eqb_neq; [done|done|]. intros E. apply Hne. rewrite E. symmetry. by eapply anchor_of_anchor. }
  split.
  - rewrite length_snoc. lia.
  - intros x i. rewrite Hl. destruct (_ || _); [intros [= <-]; lia|]. intros H%(gr_range _ _ _ Hg). lia.
  - intros x i. rewrite Hl. unfold str_eqb. case_bool_decide; [intros _; exists p; split; [apply elem_of_app; right; by left|by left]|].
    cbn [orb]. case_bool_decide; [intros _; exists p; split; [apply elem_of_app; right; by left|by right]|].
    intros (q & Hq & H')%(gr_dom _ _ _ Hg). exists q. split; [apply elem_of_app; by left|done].
  - intros q [Hq| ->%list_elem_of_singleton]%elem_of_app; [|fold a; rewrite Ha; split; [done|]; by rewrite Hl, str_eqb_refl].
    destruct (gr_at _ _ _ Hg q Hq) as [Hs Hq'].
    destruct (base.decide (anchor_of fs q = a)) as [E|E].
    + rewrite E, Ha. split; [done|]. rewrite Hl. destruct (_ || _); [done|]. rewrite Hq', E. rewrite E in Hs. destruct Hs as [i Hs].
      destruct Hi as [?|[? _]]; congruence.
    + rewrite Hold by done. split; [done|]. rewrite Hl, !str_eqb_neq; [done|..].
      * intros ->. unfold a in E. by rewrite anchor_idem in E.
      * by intros ->.
  - assert (forall r, r ∈ paths -> anchor_of fs r <> a -> ino_of (group_step fs g p) !! anchor_of fs r <> Some ino) as Hd.
    { intros r Hr Hne E. rewrite Hold in E by done. destruct Hi as [Hi|[_ ->]].
      - destruct (anchor_known fs paths g p ino Hg Hi) as (q & Hq & Eq). apply Hne. unfold a. rewrite <- Eq.
        apply (gr_inj _ _ _ Hg); [done..|]. rewrite E, Eq. symmetry. exact Hi.
      - apply (gr_range _ _ _ Hg) in E. lia. }
    assert (forall q, q ∈ paths ++ [p] -> anchor_of fs q = a \/ q ∈ paths) as Hc.
    { intros q [Hq| ->%list_elem_of_singleton]%elem_of_app; [by right|by left]. }
    intros q r Hq Hr E. destruct (base.decide (anchor_of fs q = a)) as [Eq|Eq], (base.decide (anchor_of fs r = a)) as [Er|Er]; [congruence| | |].
    + exfalso. destruct (Hc r Hr) as [?|Hr']; [done|]. apply (Hd r Hr' Er). by rewrite <- E, Eq.
    + exfalso. destruct (Hc q Hq) as [?|Hq']; [done|]. apply (Hd q Hq' Eq). by rewrite E, Er.
    + destruct (Hc q Hq) as [?|Hq']; [done|]. destruct (Hc r Hr) as [?|Hr']; [done|].
      apply (gr_inj _ _ _ Hg); [done..|]. by rewrite !Hold in E by done.
  - intros x. by apply group_step_links.
Qed.

Lemma groups_grouped fs : Z.of_nat (length (keys fs)) + 1 < 2 ^ 32 -> grouped fs (keys fs) (groups fs).
Proof.
  intros Hn. unfold groups. enough (forall ks done g, grouped fs done g -> NoDup (done ++ ks) ->
    Z.of_nat (length (done ++ ks)) + 1 < 2 ^ 32 -> grouped fs (done ++ ks) (foldl (group_step fs) g ks)) as H.
  { apply (H (keys fs) []); [|apply keys_nodup|done]. split; cbn [ino_of nlink_of next_ino].
    - cbn. lia.
    - intros x i. by rewrite lookup_empty.
    - intros x i. by rewrite lookup_empty.
    - by intros q ?%not_elem_of_nil.
    - by intros q r ?%not_elem_of_nil.
    - done. }
  clear. induction ks as [|k ks IH]; intros done g Hg Hd Hn; cbn [foldl]; [by rewrite app_nil_r|].
  rewrite (cons_middle k), app_assoc in *. apply IH; [|done..]. apply group_step_grouped; [done| |].
  - apply NoDup_app in Hd as (Hd & _). apply NoDup_app in Hd as (_ & Hd & _). intros Hk. apply (Hd k Hk). by left.
  - rewrite !length_app in Hn. cbn [length] in Hn. lia.
Qed.

(** ** What the archive holds *)

(** No name before [p] is another name of the same file. *)
Definition leads (fs : Rootfs) (p : str) : bool :=
  negb (existsb (fun q => regular fs q && str_eqb (anchor_of fs q) (anchor_of fs p) && str_leb q p && negb (str_eqb q p)) (keys fs)).

Definition small (fs : Rootfs) : Prop := Z.of_nat (length (keys fs)) + 1 < 2 ^ 32.

Lemma same_ino fs p q : small fs -> is_Some (fs !! p) -> is_Some (fs !! q) ->
  (ino_at (groups fs) p = ino_at (groups fs) q <-> anchor_of fs p = anchor_of fs q).
Proof.
  intros Hs Hp%elem_of_keys Hq%elem_of_keys. pose proof (groups_grouped fs Hs) as Hg. unfold ino_at.
  destruct (gr_at _ _ _ Hg p Hp) as [[i Hi] ->], (gr_at _ _ _ Hg q Hq) as [[j Hj] ->]. split; [|by intros ->].
  rewrite Hi, Hj. cbn. intros ->. apply (gr_inj _ _ _ Hg); [done..|]. congruence.
Qed.

Lemma written_leads fs before p after : small fs -> keys fs = before ++ p :: after ->
  (forall q, q ∈ before <-> is_Some (fs !! q) /\ str_le q p /\ q <> p) -> is_Some (fs !! p) ->
  written fs (groups fs) before (ino_at (groups fs) p) = negb (leads fs p).
Proof.
  intros Hs E Hb Hp. unfold leads. rewrite negb_involutive. apply eq_true_iff_eq. unfold written.
  rewrite !existsb_exists. split.
  - intros (q & Hq%list_elem_of_In & [Hr Hi%Z.eqb_eq]%andb_true_iff). pose proof (proj1 (Hb q) Hq) as (Hk & Hle & Hne). exists q.
    split; [apply list_elem_of_In; by apply elem_of_keys|]. apply same_ino in Hi; [|done..].
    by rewrite Hr, Hi, Hle, str_eqb_refl, str_eqb_neq.
  - intros (q & Hq%list_elem_of_In & [[[Hr Ha]%andb_true_iff Hle]%andb_true_iff Hne]%andb_true_iff). exists q.
    unfold str_eqb in Ha, Hne. apply bool_decide_eq_true in Ha. apply negb_true_iff, bool_decide_eq_false in Hne.
    apply elem_of_keys in Hq. split; [apply list_elem_of_In; by apply Hb|]. rewrite Hr. cbn. apply Z.eqb_eq. by apply same_ino.
Qed.

Lemma records_from_app fs g a : forall before b,
  records_from fs g before (a ++ b) = records_from fs g before a ++ records_from fs g (before ++ a) b.
Proof.
  induction a as [|p a IH]; intros before b; cbn [app records_from]; [by rewrite app_nil_r|].
  rewrite IH, <- !app_assoc. done.
Qed.

Lemma records_names fs g ps : forall before, Forall (fun p => is_Some (fs !! p)) ps ->
  r_name <$> records_from fs g before ps = (fun p => lit "./" ++ p) <$> ps.
Proof.
  induction ps as [|p ps IH]; intros before H; [done|]. apply list.Forall_cons in H as [[n Hn] H]. cbn [records_from fmap list_fmap].
  rewrite Hn. cbn [app fmap list_fmap]. f_equal. by apply IH.
Qed.

(** The record of a path and what is around it. *)
Lemma records_split fs p n : small fs -> fs !! p = Some n ->
  exists before after, keys fs = before ++ p :: after /\ p ∉ before /\
    records fs = records_from fs (groups fs) [] before ++
      rec_at fs (groups fs) p n (leads fs p) :: records_from fs (groups fs) (before ++ [p]) after.
Proof.
  intros Hs Hn. assert (is_Some (fs !! p)) as Hp by (by rewrite Hn). destruct (keys_split fs p Hp) as (bf & af & E & Hni & Hb).
  exists bf, af. split_and!; [done..|]. unfold records. rewrite E, records_from_app. cbn [app records_from]. rewrite Hn.
  cbn [app]. rewrite (written_leads fs bf p af) by done. by rewrite negb_involutive.
Qed.

Definition fits (fs : Rootfs) : Prop :=
  small fs /\
  forall p n, fs !! p = Some n ->
    proper p /\ Forall scalar p /\ Z.of_nat (length (as_bytes p)) + 3 < 2 ^ 32 /\ Z.of_nat (length (content fs p n)) < 2 ^ 32.

Lemma rec_at_ok fs g p n first : fits fs -> fs !! p = Some n -> rec_ok (rec_at fs g p n first).
Proof.
  intros [_ H] E. destruct (H p n E) as (_ & Hs & Hl & Hb). split_and!; cbn [r_name r_body rec_at].
  - apply Forall_app. split; [|done]. by apply ascii_scalar.
  - rewrite as_bytes_app, length_app. change (length (as_bytes (lit "./"))) with 2%nat. lia.
  - destruct (_ && _); [cbn; lia|done].
Qed.

Lemma records_from_ok fs g ps : fits fs -> forall before, Forall rec_ok (records_from fs g before ps).
Proof.
  intros Hf. induction ps as [|p ps IH]; intros before; [constructor|]. cbn [records_from].
  destruct (fs !! p) as [n|] eqn:E; [|apply IH]. constructor; [by apply rec_at_ok|apply IH].
Qed.

Lemma trim_name fs p n : fits fs -> fs !! p = Some n -> trim_here (lit "./" ++ p) = p.
Proof. intros [_ H] E. destruct (H p n E) as [Hp _]. exact (trim_here_proper p Hp). Qed.

Lemma rec_bytes_long r : (1 <= length (rec_bytes r))%nat.
Proof. unfold rec_bytes, record. rewrite !length_app. cbn. lia. Qed.

(** Records of other names are read over. *)
Lemma read_over rs : forall fuel rest want,
  Forall rec_ok rs -> Forall (fun r => str_eqb (r_name r) (lit "TRAILER!!!") = false /\ str_eqb (trim_here (r_name r)) want = false) rs ->
  (length (concat (rec_bytes <$> rs) ++ rest) < fuel)%nat ->
  exists fuel', (length rest < fuel')%nat /\ read_loop fuel (concat (rec_bytes <$> rs) ++ rest) want = read_loop fuel' rest want.
Proof.
  induction rs as [|r rs IH]; intros fuel rest want Hok Hn Hf; [by exists fuel|].
  apply list.Forall_cons in Hok as [Hr Hok], Hn as [[H1 H2] Hn]. cbn [fmap list_fmap concat] in *. rewrite <- app_assoc in *.
  destruct fuel as [|fuel]; [lia|]. rewrite read_record, H1, H2 by done. apply IH; [done..|].
  rewrite length_app in Hf. pose proof (rec_bytes_long r). lia.
Qed.

(** C21: what is written is what is read: in the archive of a root file system, the
    record of each path holds the content of its node, and of the names of one
    file the first one does and the others are empty. *)
Theorem cpio_reads_back fs p n :
  fits fs -> fs !! p = Some n ->
  read_cpio_file (write_cpio fs) p = Ok (Some (if regular fs p && negb (leads fs p) then [] else content fs p n)).
Proof.
  intros Hf Hn. destruct (records_split fs p n (proj1 Hf) Hn) as (bf & af & E & Hni & Er).
  rewrite write_cpio_records, Er, fmap_app, concat_app, fmap_cons, <- app_assoc. cbn [concat]. rewrite <- app_assoc.
  unfold read_cpio_file. edestruct (read_over (records_from fs (groups fs) [] bf)) as (fuel & Hl & ->).
  - by apply records_from_ok.
  - assert (Forall (fun q => is_Some (fs !! q)) bf) as Hb.
    { apply list.Forall_forall. intros q Hq. apply elem_of_keys. rewrite E. apply elem_of_app. by left. }
    apply (Forall_fmap r_name (fun nm => str_eqb nm (lit "TRAILER!!!") = false /\ str_eqb (trim_here nm) p = false)).
    rewrite records_names by done. apply Forall_fmap, list.Forall_forall. intros q Hq. rewrite list.Forall_forall in Hb.
    destruct (Hb q Hq) as [m Hm].
    change (str_eqb (lit "./" ++ q) (lit "TRAILER!!!") = false /\ str_eqb (trim_here (lit "./" ++ q)) p = false). rewrite (trim_name fs q m) by done. split; [done|]. apply str_eqb_neq. by intros ->.
  - apply Nat.lt_succ_diag_r.
  - destruct fuel as [|fuel]; [lia|]. rewrite read_record by (by apply rec_at_ok). cbn [r_name r_body rec_at].
    rewrite (trim_name fs p n) by done. by rewrite str_eqb_refl.
Qed.

(** A parent that is there is listed before its child. *)
Lemma parent_listed_first fs p d : is_Some (fs !! p) -> is_Some (fs !! d) -> grown p -> d ∈ parents p ->
  exists a b c, keys fs = a ++ d :: b ++ p :: c.
Proof.
  intros Hp Hd Hg Hin. destruct (parents_before p d Hg Hin) as [Hle Hne]. destruct (keys_split fs p Hp) as (bf & af & E & _ & Hb).
  destruct (list_elem_of_split bf d) as (a & b & ->); [by apply Hb|]. exists a, b, af. by rewrite E, <- app_assoc.
Qed.

(** C28: the archive of an imported image has a record for every parent directory of
    a file, before the record of the file: the kernel, which creates nothing on its
    own, finds the directory there. *)
Theorem image_archive_order layers p d :
  let fs := (apply layers).1 in
  is_Some (fs !! p) -> grown p -> d ∈ parents p ->
  write_cpio fs = concat (rec_bytes <$> records fs) ++ record 0 1 0 (lit "TRAILER!!!") [] /\
  exists a b c, r_name <$> records fs = a ++ (lit "./" ++ d) :: b ++ (lit "./" ++ p) :: c.
Proof.
  intros fs [n Hp] Hg Hd. split; [apply write_cpio_records|]. destruct (parent_listed_first fs p d) as (a & b & c & E); [by eexists| |done..|].
  - unfold fs, apply in *. destruct (foldl _ _ _) as [fs0 rep]. by eapply materialized_parents.
  - exists ((fun q => lit "./" ++ q) <$> a), ((fun q => lit "./" ++ q) <$> b), ((fun q => lit "./" ++ q) <$> c).
    unfold records. rewrite records_names, E; [by rewrite fmap_app; cbn; rewrite fmap_app|].
    apply list.Forall_forall. intros q Hq. by apply elem_of_keys.
Qed.

Lemma image_archive_order_witness : exists layers p d,
  (is_Some ((apply layers).1 !! p) /\ grown p /\ d ∈ parents p) /\
  exists a b c, r_name <$> records (apply layers).1 = a ++ (lit "./" ++ d) :: b ++ (lit "./" ++ p) :: c.
Proof.
  set (file := mkTarEntry (mkRaw (lit "etc/hosts") (File 420 2)) [1; 2]).
  exists [mkLayer [file] []], (lit "etc/hosts"), (lit "etc").
  assert (lit "etc" ∈ parents (lit "etc/hosts")) as Hd by (vm_compute; left).
  assert (is_Some ((apply [mkLayer [file] []]).1 !! lit "etc/hosts")) as Hp by (vm_compute; by eexists).
  split; [done|]. by apply (image_archive_order [mkLayer [file] []] (lit "etc/hosts") (lit "etc")).
Defined.

(** The archive is one record per path, in an order in which a directory comes
    before what it holds, and a trailer; two records have one inode exactly when
    their paths are names of one file, and the record of a file counts its names. *)
Theorem cpio_layout fs :
  small fs ->
  exists recs, write_cpio fs = concat (rec_bytes <$> recs) ++ record 0 1 0 (lit "TRAILER!!!") [] /\
    r_name <$> recs = (fun p => lit "./" ++ p) <$> keys fs /\
    (forall p d, is_Some (fs !! p) -> is_Some (fs !! d) -> grown p -> d ∈ parents p -> exists a b c, keys fs = a ++ d :: b ++ p :: c) /\
    (forall p n, fs !! p = Some n -> exists r, r ∈ recs /\ r_name r = lit "./" ++ p /\ r_mode r = mode_at n /\
       (regular fs p = true -> r_nlink r = Z.of_nat (length (List.filter (fun q => str_eqb (anchor_of fs q) (anchor_of fs p)) (keys fs)))) /\
       forall q m, fs !! q = Some m -> exists s, s ∈ recs /\ r_name s = lit "./" ++ q /\
         (r_ino r = r_ino s <-> anchor_of fs p = anchor_of fs q)).
Proof.
  intros Hs. exists (records fs). split_and!; [apply write_cpio_records| |apply parent_listed_first|].
  - apply records_names, list.Forall_forall. intros q Hq. by apply elem_of_keys.
  - assert (forall p n, fs !! p = Some n -> rec_at fs (groups fs) p n (leads fs p) ∈ records fs) as Hin.
    { intros p n Hn. destruct (records_split fs p n Hs Hn) as (bf & af & _ & _ & ->). apply elem_of_app. right. by left. }
    intros p n Hn. exists (rec_at fs (groups fs) p n (leads fs p)). split_and!; [by apply Hin|done..| |].
    + intros Hr. cbn [r_nlink rec_at]. rewrite Hr. pose proof (groups_grouped fs Hs) as Hg. rewrite <- (gr_links _ _ _ Hg).
      destruct (nlink_of (groups fs) !! anchor_of fs p) eqn:El; [done|]. exfalso.
      pose proof (gr_links _ _ _ Hg (anchor_of fs p)) as H0. rewrite El in H0. cbn in H0.
      assert (p ∈ List.filter (fun q => str_eqb (anchor_of fs q) (anchor_of fs p)) (keys fs)) as Hp.
      { apply list_elem_of_In, filter_In. split; [apply list_elem_of_In, elem_of_keys; by eexists|apply str_eqb_refl]. }
      destruct (List.filter _ _); [by apply not_elem_of_nil in Hp|cbn in H0; lia].
    + intros q m Hm. exists (rec_at fs (groups fs) q m (leads fs q)). split_and!; [by apply Hin|done|].
      apply same_ino; [done|by eexists..].
Qed.

(** ** What the archive does not keep *)

(** Every name of a linked file but its own carries the mode 755: a private file
    has two records of one inode with different modes. *)
Theorem linked_file_mode_lost :
  let fs : Rootfs := <[lit "a" := mkNode (File 384 1) [7]]> (<[lit "b" := mkNode (Hardlink (lit "a")) []]> ∅) in
  (fun r => (r_ino r, r_mode r)) <$> records fs = [(1, 33152); (1, 33261)].
Proof. vm_compute. done. Qed.

(** A hard link to a symbolic link becomes an empty file. *)
Theorem link_to_symlink_is_empty_file :
  let fs : Rootfs := <[lit "a" := mkNode (Symlink (lit "t")) []]> (<[lit "b" := mkNode (Hardlink (lit "a")) []]> ∅) in
  (fun r => (r_mode r, r_body r)) <$> records fs = [(41471, lit "t"); (33261, [])].
Proof. vm_compute. done. Qed.

(** ** Witnesses *)

Definition demo_rootfs : Rootfs := rootfs_insert ∅ (lit "init") (File 493 2) [35; 33].

Lemma demo_fits : fits demo_rootfs.
Proof.
  split; [vm_compute; reflexivity|]. intros p n H. unfold demo_rootfs in H. rewrite rootfs_insert_lookup, empty_lookup in H. unfold str_eqb in H.
  case_bool_decide as E; [|done]. injection H as <-. subst p. split_and!.
  - apply Forall_singleton. by vm_compute.
  - by apply ascii_scalar.
  - vm_compute. reflexivity.
  - vm_compute. reflexivity.
Qed.

Lemma cpio_reads_back_witness : read_cpio_file (write_cpio demo_rootfs) (lit "init") = Ok (Some [35; 33]).
Proof.
  rewrite (cpio_reads_back demo_rootfs (lit "init") (mkNode (File 493 2) [35; 33])); [vm_compute; reflexivity|exact demo_fits|].
  vm_compute. reflexivity.
Defined.

Lemma cpio_layout_witness : exists recs,
  write_cpio demo_rootfs = concat (rec_bytes <$> recs) ++ record 0 1 0 (lit "TRAILER!!!") [] /\ r_name <$> recs = [lit "./init"].
Proof.
  destruct (cpio_layout demo_rootfs) as (recs & H1 & H2 & _); [exact (proj1 demo_fits)|]. exists recs. split; [exact H1|].
  rewrite H2. vm_compute. reflexivity.
Defined.
