(* ===== verification/OciTar.v ===== *)
(** * Reading a layer

    [src/chm/src/oci/targz.rs]: the tar reader of image layers, from the
    decompressed bytes on. The stream is the list of bytes that are still to come;
    errors of the host's decompression are not modelled. An index in the middle of
    a character is a panic, as in Rust. *)

From Stdlib Require Import ZArith Lia Bool String.
From stdpp Require Import base numbers list list_numbers option.
From S2P Require Import Prelude Text TextFacts Dns Utf8 OciEntry OciRootfs.

#[local] Open Scope Z_scope.

Definition BLOCK : Z := 512.

Inductive TarError :=
| UnreadableSize
| PastLimit (limit : Z)
| ShortBody
| ShortPadding
| MidHeader.

(** ** Fields *)

Definition checked_u64 (v : Z) : option Z := if v <? 2 ^ 64 then Some v else None.

Fixpoint base256 (v : Z) (bs : list Z) : option Z :=
  match bs with
  | [] => Some v
  | b :: bs => m ← checked_u64 (v * 256); s ← checked_u64 (m + b); base256 s bs
  end.

Fixpoint take_while (p : Z -> bool) (l : list Z) : list Z :=
  match l with
  | [] => []
  | x :: l => if p x then x :: take_while p l else []
  end.

Definition octal (field : list Z) : option Z :=
  if match field with b :: _ => negb (Z.land b 128 =? 0) | [] => false end then
    match field with
    | b :: rest => base256 (Z.land b 127) rest
    | [] => None
    end
  else
    let s := take_while (fun b => negb (b =? 0) && negb (b =? 32)) field in
    match s with
    | [] => Some 0
    | _ => from_str_radix 8 64 (trim s)
    end.

Definition cstr (field : list Z) : str := utf8_lossy (take_while (fun b => negb (b =? 0)) field).

Definition padding (size : Z) : Z := if size mod BLOCK =? 0 then 0 else BLOCK - size mod BLOCK.

(** ** Extended headers *)

Definition is_boundary (s : list Z) (k : Z) : bool :=
  match s !! Z.to_nat k with
  | Some b => negb (is_cont b)
  | None => k =? Z.of_nat (length s)
  end.

(** [&s[a..b]] of a text, by the indices of its bytes. *)
Definition text_range (s : list Z) (a b : Z) : res TarError (list Z) :=
  if (a <=? b) && (b <=? Z.of_nat (length s)) && is_boundary s a && is_boundary s b
  then Ok (take (Z.to_nat (b - a)) (drop (Z.to_nat a) s)) else Panic.

Fixpoint pax_loop (fuel : nat) (rest : list Z) (key : str) : res TarError (option str) :=
  match fuel with
  | O => NoFuel
  | S fuel =>
      match split_once 32 rest with
      | None => Ok None
      | Some (num, _) =>
          let sp := Z.of_nat (length num) in
          match from_str_radix 10 64 num with
          | None => Ok None
          | Some len =>
              if (len =? 0) || (Z.of_nat (length rest) <? len) then Ok None
              else
                record ← text_range rest (sp + 1) len;
                let next := (rest ← text_range rest len (Z.of_nat (length rest)); pax_loop fuel rest key) in
                match split_once 61 record with
                | Some (k, v) =>
                    if bool_decide (k = as_bytes key) then Ok (Some (trim_end_matches (Z.eqb 10) (utf8_lossy v))) else next
                | None => next
                end
          end
      end
  end.

Definition pax_field (data : list Z) (key : str) : res TarError (option str) :=
  let text := as_bytes (utf8_lossy data) in pax_loop (S (length text)) text key.

(** ** Layers *)

Record TarState := mkTar {
  t_path : option str;
  t_link : option str;
  t_total : Z;
  t_entries : list TarEntry;
  t_skipped : list (str * str) }.

Definition field (a b : Z) (header : list Z) : list Z := take (Z.to_nat (b - a)) (drop (Z.to_nat a) header).

Definition entry_name (st : TarState) (header : list Z) : str :=
  match t_path st with
  | Some p => p
  | None =>
      let prefix := cstr (field 345 500 header) in
      let base := cstr (field 0 100 header) in
      match prefix with
      | [] => base
      | _ => prefix ++ [SLASH] ++ base
      end
  end.

Definition entry_link (st : TarState) (header : list Z) : str :=
  match t_link st with
  | Some l => l
  | None => cstr (field 157 257 header)
  end.

(** [u32::try_from(octal(..).unwrap_or(0o644)).unwrap_or(0o644)]. *)
Definition entry_mode (header : list Z) : Z :=
  let m := default 420 (octal (field 100 108 header)) in if m <? 2 ^ 32 then m else 420.

Definition skipped_kind (typeflag : Z) : str :=
  if typeflag =? 51 then lit "character device"
  else if typeflag =? 52 then lit "block device"
  else if typeflag =? 54 then lit "FIFO"
  else lit "unsupported entry type".

Definition add_entry (header body : list Z) (size : Z) (st : TarState) : TarState :=
  let typeflag := peek 156 header in
  let name := entry_name st header in
  let linkname := entry_link st header in
  let mode := entry_mode header in
  let push kind := mkTar None None (t_total st) (t_entries st ++ [mkTarEntry (mkRaw name kind) body]) (t_skipped st) in
  if (typeflag =? 48) || (typeflag =? 0) || (typeflag =? 55) then push (File mode size)
  else if typeflag =? 53 then push (Directory mode)
  else if typeflag =? 50 then push (Symlink linkname)
  else if typeflag =? 49 then push (Hardlink linkname)
  else mkTar None None (t_total st) (t_entries st) (t_skipped st ++ [(name, skipped_kind typeflag)]).

Definition set_names (p l : option str) (st : TarState) : TarState := mkTar p l (t_total st) (t_entries st) (t_skipped st).

Definition tar_record (header body : list Z) (size : Z) (st : TarState) : res TarError TarState :=
  let typeflag := peek 156 header in
  if typeflag =? 76 then Ok (set_names (Some (cstr body)) (t_link st) st)
  else if typeflag =? 75 then Ok (set_names (t_path st) (Some (cstr body)) st)
  else if typeflag =? 120 then
    p ← pax_field body (lit "path");
    l ← pax_field body (lit "linkpath");
    Ok (set_names (match p with Some _ => p | None => t_path st end) (match l with Some _ => l | None => t_link st end) st)
  else if typeflag =? 103 then Ok st
  else Ok (add_entry header body size st).

Fixpoint layer_loop (fuel : nat) (limit : Z) (stream : list Z) (st : TarState) : res TarError TarState :=
  match fuel with
  | O => NoFuel
  | S fuel =>
      match stream with
      | [] => Ok st
      | _ =>
          if Z.of_nat (length stream) <? BLOCK then Err MidHeader
          else
            let header := take (Z.to_nat BLOCK) stream in
            let stream := drop (Z.to_nat BLOCK) stream in
            if forallb (Z.eqb 0) header then Ok st
            else
              match octal (field 124 136 header) with
              | None => Err UnreadableSize
              | Some size =>
                  let total := Z.min (t_total st + size) (2 ^ 64 - 1) in
                  if limit <? total then Err (PastLimit limit)
                  else if Z.of_nat (length stream) <? size then Err ShortBody
                  else
                    let body := take (Z.to_nat size) stream in
                    let stream := drop (Z.to_nat size) stream in
                    if Z.of_nat (length stream) <? padding size then Err ShortPadding
                    else
                      st ← tar_record header body size (mkTar (t_path st) (t_link st) total (t_entries st) (t_skipped st));
                      layer_loop fuel limit (drop (Z.to_nat (padding size)) stream) st
              end
      end
  end.

Definition read_layer (stream : list Z) (limit_bytes : Z) : res TarError Layer :=
  st ← layer_loop (S (length stream)) limit_bytes stream (mkTar None None 0 [] []);
  Ok (mkLayer (t_entries st) (t_skipped st)).

(** ** Every layer is read to an end *)

Lemma text_range_ok s a b r : text_range s a b = Ok r -> r = take (Z.to_nat (b - a)) (drop (Z.to_nat a) s) /\ a <= b <= Z.of_nat (length s).
Proof.
  unfold text_range. destruct (_ && _) eqn:E; [|done]. intros [= <-]. split; [done|].
  apply andb_true_iff in E as [[[E1 E2]%andb_true_iff _]%andb_true_iff _]. lia.
Qed.

Lemma pax_loop_settles fuel : forall rest key, (length rest < fuel)%nat -> pax_loop fuel rest key <> NoFuel.
Proof.
  induction fuel as [|fuel IH]; intros rest key Hf; [lia|]. cbn [pax_loop].
  destruct (split_once 32 rest) as [[num r]|]; [|done]. destruct (from_str_radix 10 64 num) as [len|] eqn:El; [|done].
  apply from_str_radix_range in El; [|lia..]. destruct ((len =? 0) || _) eqn:E0; [done|]. apply orb_false_iff in E0 as [E0 E1].
  destruct (text_range rest _ len) as [record| | |] eqn:Er; try done; [cbn [mbind res_bind_inst]|by unfold text_range in Er; destruct (_ && _)].
  assert (forall k, (rest ← text_range rest len (Z.of_nat (length rest)); pax_loop fuel rest k) <> NoFuel) as Hn.
  { intros k. destruct (text_range rest len _) as [rest'| | |] eqn:Et; try done; [|by unfold text_range in Et; destruct (_ && _)].
    apply text_range_ok in Et as [-> _]. apply IH. rewrite length_take, length_drop. lia. }
  destruct (split_once 61 record) as [[k v]|]; [|apply Hn]. case_bool_decide; [done|apply Hn].
Qed.

Lemma pax_field_settles data key : pax_field data key <> NoFuel.
Proof. apply pax_loop_settles. lia. Qed.

Lemma base256_nonneg bs : forall v n, 0 <= v -> Forall (fun b => 0 <= b) bs -> base256 v bs = Some n -> 0 <= n.
Proof.
  induction bs as [|b bs IH]; intros v n Hv Hb; cbn [base256]; [by intros [= <-]|]. apply list.Forall_cons in Hb as [Hb Hbs].
  destruct (checked_u64 (v * 256)) as [m|] eqn:Em; [|done]. cbn [mbind option_bind].
  destruct (checked_u64 (m + b)) as [k|] eqn:Ek; [|done]. cbn [mbind option_bind].
  unfold checked_u64 in Em, Ek. destruct (v * 256 <? _); [|done]. destruct (m + b <? _); [|done]. apply IH; [|done]. simplify_eq. lia.
Qed.

Lemma octal_nonneg f n : bytes f -> octal f = Some n -> 0 <= n.
Proof.
  intros Hb. unfold octal. destruct f as [|b f]; [by intros [= <-]|]. destruct (negb _).
  - apply list.Forall_cons in Hb as [Hb Hf]. apply base256_nonneg; [apply Z.land_nonneg; lia|].
    eapply list.Forall_impl; [exact Hf|]. unfold is_u8. lia.
  - destruct (take_while _ _); [by intros [= <-]|]. intros H%from_str_radix_range; lia.
Qed.

Lemma tar_record_settles header body size st : tar_record header body size st <> NoFuel.
Proof.
  unfold tar_record. destruct (_ =? 76); [done|]. destruct (_ =? 75); [done|]. destruct (_ =? 120).
  - pose proof (pax_field_settles body (lit "path")). pose proof (pax_field_settles body (lit "linkpath")).
    destruct (pax_field body (lit "path")); try done. cbn [mbind res_bind_inst]. by destruct (pax_field body (lit "linkpath")).
  - by destruct (_ =? 103).
Qed.

Lemma layer_loop_settles fuel : forall limit stream st,
  (length stream < fuel)%nat -> layer_loop fuel limit stream st <> NoFuel.
Proof.
  induction fuel as [|fuel IH]; intros limit stream st Hf; [lia|]. cbn [layer_loop]. destruct stream as [|b stream]; [done|].
  destruct (Z.ltb_spec (Z.of_nat (length (b :: stream))) BLOCK) as [|Hl]; [done|]. destruct (forallb _ _); [done|].
  destruct (octal _) as [size|]; [|done]. destruct (_ <? _); [done|]. destruct (_ <? size); [done|]. destruct (_ <? padding size); [done|].
  match goal with |- context [tar_record ?h ?bd ?sz ?s] => pose proof (tar_record_settles h bd sz s); destruct (tar_record h bd sz s) end; try done.
  cbn [mbind res_bind_inst]. apply IH. rewrite !length_drop. unfold BLOCK in *. lia.
Qed.

(** ** What is read is bounded *)

Definition held (es : list TarEntry) : Z := foldr (fun e n => Z.of_nat (length (te_data e)) + n) 0 es.

Definition sizes_true (es : list TarEntry) : Prop :=
  Forall (fun e => match re_kind (te_raw e) with File _ size => size = Z.of_nat (length (te_data e)) | _ => True end) es.

Lemma held_snoc es e : held (es ++ [e]) = held es + Z.of_nat (length (te_data e)).
Proof. unfold held. induction es as [|x es IH]; cbn; [lia|]. rewrite IH. lia. Qed.

Definition bounded (limit : Z) (st : TarState) : Prop :=
  held (t_entries st) <= t_total st <= limit /\ sizes_true (t_entries st).

Lemma add_entry_bounded header body size limit st : size = Z.of_nat (length body) ->
  held (t_entries st) + size <= t_total st <= limit -> sizes_true (t_entries st) -> bounded limit (add_entry header body size st).
Proof.
  intros Hs Ht Hz. assert (forall kind, (forall m s, kind = File m s -> s = size) ->
    bounded limit (mkTar None None (t_total st) (t_entries st ++ [mkTarEntry (mkRaw (entry_name st header) kind) body]) (t_skipped st))) as Hp.
  { intros kind Hk. split; cbn [t_entries t_total]; [rewrite held_snoc; cbn [te_data]; lia|].
    apply Forall_app. split; [done|]. constructor; [|done]. cbn. destruct kind; try done. by rewrite (Hk _ _ eq_refl). }
  unfold add_entry. cbv zeta. destruct (_ || _); [apply Hp; by intros ? ? [= _ <-]|].
  destruct (_ =? 53); [by apply Hp|]. destruct (_ =? 50); [by apply Hp|]. destruct (_ =? 49); [by apply Hp|].
  split; [cbn [t_entries t_total]; lia|done].
Qed.

Lemma tar_record_bounded header body size limit st st' : size = Z.of_nat (length body) ->
  held (t_entries st) + size <= t_total st <= limit -> sizes_true (t_entries st) ->
  tar_record header body size st = Ok st' -> bounded limit st'.
Proof.
  intros Hs Ht Hz. assert (forall p l, bounded limit (set_names p l st)) as Hn by (intros p l; split; [cbn [t_entries t_total set_names]; lia|done]).
  unfold tar_record. destruct (_ =? 76); [by intros [= <-]|]. destruct (_ =? 75); [by intros [= <-]|]. destruct (_ =? 120).
  - destruct (pax_field body (lit "path")); try done. cbn [mbind res_bind_inst]. destruct (pax_field body (lit "linkpath")); try done.
    cbn [mbind res_bind_inst]. by intros [= <-].
  - destruct (_ =? 103); [intros [= <-]; split; [lia|done]|]. intros [= <-]. by apply add_entry_bounded.
Qed.

Lemma layer_loop_bounded fuel : forall limit stream st st',
  limit < 2 ^ 64 - 1 -> bytes stream -> bounded limit st -> layer_loop fuel limit stream st = Ok st' -> bounded limit st'.
Proof.
  induction fuel as [|fuel IH]; intros limit stream st st' Hl Hb Hst; [done|]. cbn [layer_loop].
  destruct stream as [|b stream]; [by intros [= <-]|]. destruct (_ <? BLOCK); [done|]. destruct (forallb _ _); [by intros [= <-]|].
  set (rest := drop (Z.to_nat BLOCK) (b :: stream)). assert (bytes rest) as Hr by (by apply Forall_drop).
  destruct (octal _) as [size|] eqn:Eo; [|done].
  apply octal_nonneg in Eo; [|by apply Forall_take, Forall_drop, Forall_take].
  destruct (Z.ltb_spec limit (Z.min (t_total st + size) (2 ^ 64 - 1))); [done|].
  destruct (Z.ltb_spec (Z.of_nat (length rest)) size); [done|]. destruct (_ <? padding size); [done|].
  destruct Hst as [Ht Hz]. destruct (tar_record _ _ _ _) as [st1| | |] eqn:Et; try done. cbn [mbind res_bind_inst].
  apply IH; [done|by apply Forall_drop, Forall_drop|]. eapply tar_record_bounded; [| | |exact Et]; cbn [t_entries t_total].
  - rewrite length_take. lia.
  - lia.
  - done.
Qed.

(** Reading a layer always comes to an end, and what it holds in memory is within
    the limit, however large the sizes in the headers are; a file's size is that of
    the content that was read. *)
Theorem layer_bounded stream limit :
  bytes stream -> 0 <= limit < 2 ^ 64 - 1 ->
  read_layer stream limit <> NoFuel /\
  forall l, read_layer stream limit = Ok l -> held (l_entries l) <= limit /\ sizes_true (l_entries l).
Proof.
  intros Hb Hl. unfold read_layer. pose proof (layer_loop_settles (S (length stream)) limit stream (mkTar None None 0 [] []) ltac:(lia)) as Hn.
  destruct (layer_loop _ _ _ _) as [st| | |] eqn:E; try done. split; [done|]. intros l [= <-].
  apply layer_loop_bounded in E as [H1 H2]; [cbn [l_entries]; split; [lia|done]|lia|done|]. split; [cbn; lia|constructor].
Qed.

(** ** A writer to read back

    The ustar layout: the fields the reader looks at, with anything in the others. *)

Fixpoint octal_digits (n : nat) (v : Z) : list Z :=
  match n with
  | O => []
  | S n => octal_digits n (v / 8) ++ [48 + v mod 8]
  end.

Definition zero_padded (n : nat) (l : list Z) : list Z := l ++ repeat 0 (n - length l).

Record Ustar := mkUstar {
  u_base : str; u_mode : Z; u_ids : list Z; u_mid : list Z; u_type : Z; u_link : str; u_magic : list Z; u_prefix : str;
  u_tail : list Z; u_body : list Z }.

Definition ustar_fields (u : Ustar) : list (list Z) :=
  [zero_padded 100 (as_bytes (u_base u)); octal_digits 7 (u_mode u) ++ [0]; u_ids u;
   octal_digits 11 (Z.of_nat (length (u_body u))) ++ [0]; u_mid u; [u_type u]; zero_padded 100 (as_bytes (u_link u));
   u_magic u; zero_padded 155 (as_bytes (u_prefix u)); u_tail u].

Definition ustar_bytes (u : Ustar) : list Z :=
  concat (ustar_fields u) ++ u_body u ++ repeat 0 (Z.to_nat (padding (Z.of_nat (length (u_body u))))).

(** A name that a field of [n] bytes can hold. *)
Definition name_fits (n : nat) (s : str) : Prop := Forall (fun c => scalar c /\ c <> 0) s /\ (length (as_bytes s) <= n)%nat.

Definition ustar_ok (u : Ustar) : Prop :=
  name_fits 100 (u_base u) /\ name_fits 100 (u_link u) /\ name_fits 155 (u_prefix u) /\
  length (u_ids u) = 16%nat /\ length (u_mid u) = 20%nat /\ length (u_magic u) = 88%nat /\ length (u_tail u) = 12%nat /\
  0 <= u_mode u < 8 ^ 7 /\ Z.of_nat (length (u_body u)) < 8 ^ 11.

Lemma octal_digits_length n v : length (octal_digits n v) = n.
Proof. revert v. induction n as [|n IH]; intros v; [done|]. cbn [octal_digits]. rewrite length_app, IH. cbn. lia. Qed.

Lemma octal_digits_range n v : Forall (fun c => 48 <= c < 56) (octal_digits n v).
Proof.
  revert v. induction n as [|n IH]; intros v; [constructor|]. cbn [octal_digits]. apply Forall_app. split; [apply IH|].
  constructor; [|done]. pose proof (Z.mod_pos_bound v 8). lia.
Qed.

Lemma octal_digits_value n : forall v, 0 <= v < 8 ^ Z.of_nat n -> 8 ^ Z.of_nat n <= 2 ^ 64 ->
  foldl (push_digit 8 64) (Some 0) (octal_digits n v) = Some v.
Proof.
  induction n as [|n IH]; intros v Hv Hn; [cbn in *; f_equal; lia|]. cbn [octal_digits]. rewrite foldl_app.
  rewrite Nat2Z.inj_succ, Z.pow_succ_r in Hv, Hn by lia.
  pose proof (Z.pow_pos_nonneg 8 (Z.of_nat n) ltac:(lia) ltac:(lia)).
  rewrite IH; [|split; [apply Z.div_pos; lia|apply Z.div_lt_upper_bound; lia]|lia].
  pose proof (Z.mod_pos_bound v 8 ltac:(lia)). pose proof (Z.div_mod v 8 ltac:(lia)).
  assert (to_digit 8 (48 + v mod 8) = Some (v mod 8)) as Hd.
  { unfold to_digit, in_range. rewrite (proj2 (Z.leb_le 48 _)), (proj2 (Z.ltb_lt _ 58)) by lia. cbn [andb].
    rewrite (proj2 (Z.ltb_lt _ 8)) by lia. f_equal. lia. }
  cbn [foldl]. unfold push_digit. cbn [mbind option_bind]. rewrite Hd. cbn [mbind option_bind].
  replace (v / 8 * 8 + v mod 8) with v by lia. by rewrite (proj2 (Z.ltb_lt _ _)) by lia.
Qed.

Lemma take_while_app p a x b : Forall (fun c => p c = true) a -> p x = false -> take_while p (a ++ x :: b) = a.
Proof. intros H Hx. induction H as [|c a Hc _ IH]; cbn; [by rewrite Hx|]. by rewrite Hc, IH. Qed.

Lemma take_while_all p a : Forall (fun c => p c = true) a -> take_while p a = a.
Proof. induction 1 as [|c a Hc _ IH]; [done|]. cbn. by rewrite Hc, IH. Qed.

Lemma octal_reads n v rest : 0 <= v < 8 ^ Z.of_nat (S n) -> 8 ^ Z.of_nat (S n) <= 2 ^ 64 ->
  octal (octal_digits (S n) v ++ 0 :: rest) = Some v.
Proof.
  intros Hv Hn. pose proof (octal_digits_range (S n) v) as Hr. pose proof (octal_digits_length (S n) v) as Hl.
  pose proof (octal_digits_value (S n) v Hv Hn) as Hd. set (ds := octal_digits (S n) v) in *. unfold octal.
  rewrite take_while_app; [|eapply list.Forall_impl; [exact Hr|]; cbn; intros; lia|done].
  rewrite trim_visible by (eapply list.Forall_impl; [exact Hr|]; intros c Hc; apply visible_range; cbn in Hc; lia).
  destruct ds as [|c ds]; [done|]. apply list.Forall_cons in Hr as [Hc _]. cbn [app].
  assert (Z.land c 128 = 0) as -> by (assert (c ∈ seqZ 48 8) as Hin by (apply elem_of_seqZ; lia);
    change (seqZ 48 8) with [48; 49; 50; 51; 52; 53; 54; 55] in Hin; repeat (apply elem_of_cons in Hin as [->|Hin]; [done|]); by apply not_elem_of_nil in Hin).
  change (negb (0 =? 0)) with false. unfold from_str_radix. cbn [strip_prefix]. rewrite (proj2 (Z.eqb_neq 43 c)) by lia. exact Hd.
Qed.

Lemma utf8_char_nonzero c : scalar c -> c <> 0 -> Forall (fun b => negb (b =? 0) = true) (utf8_char c).
Proof.
  intros Hc H0. destruct (Z_lt_ge_dec c 128) as [Hl|Hh].
  - rewrite utf8_char_low by (unfold scalar in Hc; lia). constructor; [|done]. by rewrite (proj2 (Z.eqb_neq c 0)).
  - eapply list.Forall_impl; [apply utf8_char_high; [done|lia]|]. intros b Hb. cbn in Hb. by rewrite (proj2 (Z.eqb_neq b 0)) by lia.
Qed.

Lemma as_bytes_nonzero s : Forall (fun c => scalar c /\ c <> 0) s -> Forall (fun b => negb (b =? 0) = true) (as_bytes s).
Proof.
  induction 1 as [|c s [Hc H0] _ IH]; [constructor|]. rewrite as_bytes_cons. apply Forall_app. split; [by apply utf8_char_nonzero|done].
Qed.

Lemma lossy_bytes s : Forall scalar s -> utf8_lossy (as_bytes s) = s.
Proof. intros H. by apply utf8_lossy_loop_bytes. Qed.

Lemma named_scalar s : Forall (fun c => scalar c /\ c <> 0) s -> Forall scalar s.
Proof. intros H. eapply list.Forall_impl; [exact H|]. by intros c [? _]. Qed.

Lemma cstr_nul s rest : Forall (fun c => scalar c /\ c <> 0) s -> cstr (as_bytes s ++ 0 :: rest) = s.
Proof.
  intros H. unfold cstr. rewrite take_while_app by (done || by apply as_bytes_nonzero). by apply lossy_bytes, named_scalar.
Qed.

Lemma cstr_reads n s : name_fits n s -> cstr (zero_padded n (as_bytes s)) = s.
Proof.
  intros [H Hl]. unfold zero_padded. destruct (n - length (as_bytes s))%nat as [|k] eqn:E; [|by apply cstr_nul].
  rewrite app_nil_r. unfold cstr. rewrite take_while_all by (by apply as_bytes_nonzero). by apply lossy_bytes, named_scalar.
Qed.

Lemma zero_padded_length n l : (length l <= n)%nat -> length (zero_padded n l) = n.
Proof. intros H. unfold zero_padded. rewrite length_app, repeat_length. lia. Qed.

(** The field that the lengths of the ones before it lead to. *)
Lemma field_at pre f post a b rest : Z.of_nat (length (concat pre)) = a -> Z.of_nat (length f) = b - a ->
  field a b (concat (pre ++ f :: post) ++ rest) = f.
Proof.
  intros Ha Hb. unfold field. rewrite concat_app, <- app_assoc. rewrite <- Ha at 2. rewrite Nat2Z.id, drop_app_length. cbn [concat].
  rewrite <- app_assoc. replace (Z.to_nat (b - a)) with (length f) by lia. apply take_app_length.
Qed.

Lemma peek_at pre x post a : length (concat pre) = a -> peek a (concat (pre ++ [x] :: post)) = x.
Proof.
  intros <-. unfold peek. rewrite concat_app. cbn [concat]. by rewrite lookup_app_r, Nat.sub_diag by lia.
Qed.

(** The ten fields of a header, found where the reader looks for them. *)
Lemma ten_fields f0 f1 f2 f3 f4 t f6 f7 f8 f9 :
  length f0 = 100%nat -> length f1 = 8%nat -> length f2 = 16%nat -> length f3 = 12%nat -> length f4 = 20%nat ->
  length f6 = 100%nat -> length f7 = 88%nat -> length f8 = 155%nat -> length f9 = 12%nat ->
  let h := concat [f0; f1; f2; f3; f4; [t]; f6; f7; f8; f9] in
  length h = 512%nat /\ field 0 100 h = f0 /\ field 100 108 h = f1 /\ field 124 136 h = f3 /\ peek 156 h = t /\
  field 157 257 h = f6 /\ field 345 500 h = f8.
Proof.
  intros H0 H1 H2 H3 H4 H6 H7 H8 H9 h.
  assert (forall pre f post a b, [f0; f1; f2; f3; f4; [t]; f6; f7; f8; f9] = pre ++ f :: post ->
    Z.of_nat (length (concat pre)) = a -> Z.of_nat (length f) = b - a -> field a b h = f) as Hf.
  { intros pre f post a b E Ha Hb. unfold h. rewrite E, <- (app_nil_r (concat _)). by apply field_at. }
  split_and!.
  - unfold h. cbn [concat]. rewrite !length_app, H0, H1, H2, H3, H4, H6, H7, H8, H9. done.
  - by apply (Hf [] f0 [f1; f2; f3; f4; [t]; f6; f7; f8; f9]); [|cbn|rewrite H0].
  - apply (Hf [f0] f1 [f2; f3; f4; [t]; f6; f7; f8; f9]); [done|cbn [concat]; rewrite !length_app, H0; done|by rewrite H1].
  - apply (Hf [f0; f1; f2] f3 [f4; [t]; f6; f7; f8; f9]); [done|cbn [concat]; rewrite !length_app, H0, H1, H2; done|by rewrite H3].
  - apply (peek_at [f0; f1; f2; f3; f4] t [f6; f7; f8; f9]). cbn [concat]. rewrite !length_app, H0, H1, H2, H3, H4. done.
  - apply (Hf [f0; f1; f2; f3; f4; [t]] f6 [f7; f8; f9]);
      [done|cbn [concat]; rewrite !length_app, H0, H1, H2, H3, H4; done|by rewrite H6].
  - apply (Hf [f0; f1; f2; f3; f4; [t]; f6; f7] f8 [f9]);
      [done|cbn [concat]; rewrite !length_app, H0, H1, H2, H3, H4, H6, H7; done|by rewrite H8].
Qed.

Definition u_path (u : Ustar) : str :=
  match u_prefix u with
  | [] => u_base u
  | p => p ++ [SLASH] ++ u_base u
  end.

(** What the reader finds in a header. *)
Lemma ustar_reads u : ustar_ok u ->
  let h := concat (ustar_fields u) in
  length h = 512%nat /\ forallb (Z.eqb 0) h = false /\ octal (field 124 136 h) = Some (Z.of_nat (length (u_body u))) /\
  peek 156 h = u_type u /\ entry_mode h = u_mode u /\
  (forall st, t_path st = None -> entry_name st h = u_path u) /\ (forall st, t_link st = None -> entry_link st h = u_link u).
Proof.
  intros Hu h. destruct Hu as (H1 & H2 & H3 & L2 & L4 & L7 & L9 & Hm & Hb).
  destruct (ten_fields (zero_padded 100 (as_bytes (u_base u))) (octal_digits 7 (u_mode u) ++ [0]) (u_ids u)
    (octal_digits 11 (Z.of_nat (length (u_body u))) ++ [0]) (u_mid u) (u_type u) (zero_padded 100 (as_bytes (u_link u)))
    (u_magic u) (zero_padded 155 (as_bytes (u_prefix u))) (u_tail u)) as (E & E0 & E1 & E3 & Et & E6 & E8);
    [by apply zero_padded_length, H1|by rewrite length_app, octal_digits_length|done|by rewrite length_app, octal_digits_length|
     done|by apply zero_padded_length, H2|done|by apply zero_padded_length, H3|done|].
  fold (ustar_fields u) in *. fold h in E, E0, E1, E3, Et, E6, E8.
  split_and!; [done| | |done| | |].
  - destruct (forallb (Z.eqb 0) h) eqn:Ef; [|done]. rewrite forallb_forall in Ef.
    assert (In (48 + u_mode u mod 8) h) as Hin.
    { unfold h, ustar_fields. cbn [concat octal_digits]. rewrite !in_app_iff. cbn [In]. tauto. }
    apply Ef, Z.eqb_eq in Hin. pose proof (Z.mod_pos_bound (u_mode u) 8). lia.
  - rewrite E3. apply (octal_reads 10). all: change (8 ^ Z.of_nat 11) with (8 ^ 11); lia.
  - unfold entry_mode. rewrite E1, (octal_reads 6) by (change (8 ^ Z.of_nat 7) with (8 ^ 7); lia). cbn [default from_option id].
    by rewrite (proj2 (Z.ltb_lt _ _)) by lia.
  - intros st Hst. unfold entry_name. rewrite Hst, E0, E8, !cstr_reads by done. unfold u_path. by destruct (u_prefix u).
  - intros st Hst. unfold entry_link. by rewrite Hst, E6, cstr_reads.
Qed.

(** ** Long names *)

Definition pax_text (len : Z) (key value : str) : str := dec len ++ 32 :: key ++ 61 :: value ++ [10].

Lemma dec_ascii n : 0 <= n -> as_bytes (dec n) = dec n.
Proof. intros H. apply as_bytes_ascii. eapply list.Forall_impl; [by apply dec_range|]. cbn. lia. Qed.

Definition ascii_key (key : str) : Prop := key <> [] /\ Forall (fun c => 0 <= c < 128 /\ c <> 61) key.

Section pax.
Context (len : Z) (key value : str) (Hk : ascii_key key) (Hv : Forall scalar value).
Context (Hlen : len = Z.of_nat (length (as_bytes (pax_text len key value)))) (Hmax : len < 10 ^ 19).

Let body : list Z := key ++ 61 :: as_bytes value ++ [10].

Lemma pax_bytes : as_bytes (pax_text len key value) = dec len ++ 32 :: body.
Proof.
  unfold pax_text, body. rewrite as_bytes_app, dec_ascii, as_bytes_cons, as_bytes_app, as_bytes_cons, as_bytes_app by lia.
  rewrite (as_bytes_ascii key); [done|]. destruct Hk as [_ H]. eapply list.Forall_impl; [exact H|]. cbn. tauto.
Qed.

Lemma pax_record_range :
  text_range (dec len ++ 32 :: body) (Z.of_nat (length (dec len)) + 1) len = Ok body /\
  text_range (dec len ++ 32 :: body) len len = Ok [].
Proof.
  rewrite pax_bytes in Hlen. pose proof Hlen as Hl. rewrite length_app in Hl. cbn [length] in Hl. destruct Hk as [Hne Hf].
  assert (is_boundary (dec len ++ 32 :: body) len = true) as Hb.
  { unfold is_boundary. rewrite lookup_ge_None_2 by lia. apply Z.eqb_eq. exact Hlen. }
  assert (is_boundary (dec len ++ 32 :: body) (Z.of_nat (length (dec len)) + 1) = true) as Ha.
  { unfold is_boundary. rewrite lookup_app_r by lia. replace (Z.to_nat _ - _)%nat with 1%nat by lia.
    unfold body. destruct key as [|c k]; [done|]. apply list.Forall_cons in Hf as [Hc _]. cbn [lookup list_lookup app].
    unfold is_cont, in_range. rewrite (proj2 (Z.leb_gt 128 c)) by lia. done. }
  unfold text_range. rewrite <- Hlen, Ha, Hb. rewrite (proj2 (Z.leb_le _ len)), Z.leb_refl by lia. cbn [andb]. split; f_equal.
  - rewrite (cons_middle 32), app_assoc, drop_app_ge by (rewrite length_app; cbn; lia).
    replace (Z.to_nat _ - _)%nat with 0%nat by (rewrite length_app; cbn; lia). rewrite drop_0. apply take_ge. lia.
  - by replace (Z.to_nat (len - len)) with 0%nat by lia.
Qed.

Lemma pax_scalar : Forall scalar (pax_text len key value).
Proof.
  destruct Hk as [_ Hf]. unfold pax_text. assert (scalar 32 /\ scalar 61 /\ scalar 10) as (H1 & H2 & H3) by (unfold scalar; lia).
  apply Forall_app. split; [eapply list.Forall_impl; [apply dec_range; lia|]; intros c Hc; left; cbn in Hc; lia|].
  constructor; [done|]. apply Forall_app. split; [eapply list.Forall_impl; [exact Hf|]; intros c Hc; left; cbn in Hc; lia|].
  constructor; [done|]. apply Forall_app. by split; [|constructor].
Qed.

(** The record answers its own key and no other. *)
Lemma pax_answers k fuel : ascii_key k -> trim_end_matches (Z.eqb 10) value = value ->
  pax_loop (S (S fuel)) (dec len ++ 32 :: body) k = Ok (if bool_decide (k = key) then Some value else None).
Proof.
  intros Hk' Ht. destruct pax_record_range as [R1 R2]. rewrite pax_bytes in Hlen.
  assert (forall x, ascii_key x -> as_bytes x = x) as Hid.
  { intros x [_ Hx]. apply as_bytes_ascii. eapply list.Forall_impl; [exact Hx|]. cbn. tauto. }
  cbn [pax_loop]. rewrite split_once_app by (apply dec_free; lia). rewrite from_str_radix_dec by lia.
  rewrite (proj2 (Z.eqb_neq len 0)), (proj2 (Z.ltb_ge _ len)) by (rewrite ?length_app in *; cbn [length] in *; lia). cbn [orb].
  rewrite R1. cbn [mbind res_bind_inst]. unfold body. rewrite split_once_app.
  2: { destruct Hk as [_ Hf]. eapply list.Forall_impl; [exact Hf|]. cbn. tauto. }
  rewrite (Hid k) by done. fold body. rewrite <- Hlen, R2. cbn [mbind res_bind_inst pax_loop split_once].
  case_bool_decide as E1; case_bool_decide as E2; try congruence; try done. do 2 f_equal.
  change (as_bytes value ++ [10]) with (as_bytes value ++ as_bytes [10]). rewrite <- as_bytes_app, lossy_bytes.
  - by rewrite trim_end_snoc.
  - apply Forall_app. split; [done|]. constructor; [left; lia|done].
Qed.

Lemma pax_field_answers k : ascii_key k -> trim_end_matches (Z.eqb 10) value = value ->
  pax_field (as_bytes (pax_text len key value)) k = Ok (if bool_decide (k = key) then Some value else None).
Proof.
  intros Hk' Ht. unfold pax_field. rewrite lossy_bytes, pax_bytes by apply pax_scalar.
  replace (S (length (dec len ++ 32 :: body))) with (S (S (length (dec len) + length body))) by (rewrite length_app; cbn; lia).
  by apply pax_answers.
Qed.
End pax.

(** ** Reading back what a writer wrote *)

Lemma padding_range n : 0 <= n -> 0 <= padding n < BLOCK.
Proof. intros H. unfold padding, BLOCK. pose proof (Z.mod_pos_bound n 512 ltac:(lia)). destruct (Z.eqb_spec (n mod 512) 0); lia. Qed.

Definition with_total (n : Z) (st : TarState) : TarState :=
  mkTar (t_path st) (t_link st) (t_total st + n) (t_entries st) (t_skipped st).

(** One entry of the archive is one round of the loop. *)
Lemma layer_step fuel limit u rest st : ustar_ok u -> 0 <= t_total st ->
  t_total st + Z.of_nat (length (u_body u)) <= limit -> limit < 2 ^ 64 - 1 ->
  layer_loop (S fuel) limit (ustar_bytes u ++ rest) st =
  (st ← tar_record (concat (ustar_fields u)) (u_body u) (Z.of_nat (length (u_body u))) (with_total (Z.of_nat (length (u_body u))) st);
   layer_loop fuel limit rest st).
Proof.
  intros Hu Ht Hl Hmax. destruct (ustar_reads u Hu) as (E & Ez & Es & _). unfold ustar_bytes.
  set (h := concat (ustar_fields u)) in *. set (n := Z.of_nat (length (u_body u))) in *. rewrite <- !app_assoc.
  pose proof (padding_range n ltac:(lia)) as Hp. cbn [layer_loop].
  destruct (h ++ u_body u ++ repeat 0 (Z.to_nat (padding n)) ++ rest) as [|b l] eqn:El.
  { apply (f_equal length) in El. rewrite length_app, E in El. cbn in El. lia. }
  rewrite <- El. clear b l El. rewrite (proj2 (Z.ltb_ge _ BLOCK)) by (rewrite length_app, E; unfold BLOCK; lia).
  change (Z.to_nat BLOCK) with 512%nat. rewrite <- E, take_app_length, drop_app_length, Ez, Es.
  rewrite Z.min_l by lia. rewrite (proj2 (Z.ltb_ge limit _)) by lia.
  rewrite (proj2 (Z.ltb_ge _ n)) by (rewrite length_app; lia).
  replace (Z.to_nat n) with (length (u_body u)) by lia. rewrite take_app_length, drop_app_length.
  rewrite (proj2 (Z.ltb_ge _ (padding n))) by (rewrite length_app, repeat_length; lia).
  rewrite drop_app_length' by (by rewrite repeat_length). done.
Qed.

Definition u_kind (u : Ustar) : EntryKind :=
  if (u_type u =? 48) || (u_type u =? 0) || (u_type u =? 55) then File (u_mode u) (Z.of_nat (length (u_body u)))
  else if u_type u =? 53 then Directory (u_mode u)
  else if u_type u =? 50 then Symlink (u_link u)
  else Hardlink (u_link u).

(** An entry with its name in its header, or in a record before it: a GNU long
    name or a PAX path. *)
Inductive Carrier :=
| Inline
| Before (name : str) (how : Ustar).

Record Item := mkItem { it_carrier : Carrier; it_main : Ustar }.

Definition carrier_ok (c : Carrier) : Prop :=
  match c with
  | Inline => True
  | Before name how =>
      ustar_ok how /\ Forall (fun c => scalar c /\ c <> 0) name /\
      (u_type how = 76 /\ u_body how = as_bytes name ++ [0] \/
       u_type how = 120 /\ trim_end_matches (Z.eqb 10) name = name /\
         let len := Z.of_nat (length (u_body how)) in u_body how = as_bytes (pax_text len (lit "path") name))
  end.

Definition item_ok (i : Item) : Prop :=
  carrier_ok (it_carrier i) /\ ustar_ok (it_main i) /\ u_type (it_main i) ∈ [0; 48; 49; 50; 53; 55].

Definition carrier_bytes (c : Carrier) : list Z := match c with Inline => [] | Before _ how => ustar_bytes how end.

Definition item_bytes (i : Item) : list Z := carrier_bytes (it_carrier i) ++ ustar_bytes (it_main i).

Definition carrier_size (c : Carrier) : Z := match c with Inline => 0 | Before _ how => Z.of_nat (length (u_body how)) end.

Definition item_size (i : Item) : Z := carrier_size (it_carrier i) + Z.of_nat (length (u_body (it_main i))).

Definition item_name (i : Item) : str := match it_carrier i with Inline => u_path (it_main i) | Before name _ => name end.

Definition item_entry (i : Item) : TarEntry := mkTarEntry (mkRaw (item_name i) (u_kind (it_main i))) (u_body (it_main i)).

Lemma ascii_key_lit k : k <> [] -> forallb (fun c => (0 <=? c) && (c <? 128) && negb (c =? 61)) k = true -> ascii_key k.
Proof.
  intros Hne H. split; [done|]. rewrite forallb_forall in H. apply List.Forall_forall. intros c Hc. specialize (H c Hc). lia.
Qed.

(** A carrier leaves its name for the next entry. *)
Lemma carrier_record name how st : carrier_ok (Before name how) ->
  tar_record (concat (ustar_fields how)) (u_body how) (Z.of_nat (length (u_body how))) st = Ok (set_names (Some name) (t_link st) st).
Proof.
  intros (Hu & Hn & Hh). destruct (ustar_reads how Hu) as (_ & _ & _ & Et & _). unfold tar_record. rewrite Et.
  destruct Hh as [[-> Hb]|(-> & Htr & Hb)].
  - change (76 =? 76) with true. rewrite Hb. by rewrite cstr_nul.
  - change (120 =? 76) with false. change (120 =? 75) with false. change (120 =? 120) with true. cbv iota.
    assert (Z.of_nat (length (u_body how)) < 10 ^ 19) as Hmax by (destruct Hu as (_ & _ & _ & _ & _ & _ & _ & _ & ?); lia).
    cbv zeta in Hb. remember (Z.of_nat (length (u_body how))) as len eqn:El. rewrite Hb in El |- *. rename El into Hlen.
    pose proof (named_scalar _ Hn) as Hs. assert (ascii_key (lit "path")) as Hk by (by apply ascii_key_lit).
    rewrite !(pax_field_answers _ (lit "path") name Hk Hs Hlen Hmax) by (done || by apply ascii_key_lit). done.
Qed.

(** An entry is recorded with the name that was left for it, or its own. *)
Lemma main_record i st name : item_ok i -> t_path st = name -> t_link st = None ->
  item_name i = default (u_path (it_main i)) name ->
  let u := it_main i in
  tar_record (concat (ustar_fields u)) (u_body u) (Z.of_nat (length (u_body u))) st =
  Ok (mkTar None None (t_total st) (t_entries st ++ [item_entry i]) (t_skipped st)).
Proof.
  intros (_ & Hu & Ht) Hp Hl Hname u. destruct (ustar_reads u Hu) as (_ & _ & _ & Et & Em & En & Elk).
  assert (entry_name st (concat (ustar_fields u)) = item_name i) as Hn.
  { rewrite Hname. destruct name as [nm|]; [unfold entry_name; by rewrite Hp|by apply En]. }
  unfold tar_record, add_entry, item_entry, u_kind. rewrite Et, Hn, Em, (Elk st Hl). fold u in Ht. fold u.
  repeat (apply elem_of_cons in Ht as [Ht|Ht]; [rewrite Ht; done|]). by apply not_elem_of_nil in Ht.
Qed.

Definition items_size (its : list Item) : Z := foldr (fun i n => item_size i + n) 0 its.

Lemma item_size_nonneg i : 0 <= item_size i.
Proof. unfold item_size, carrier_size. destruct (it_carrier i); lia. Qed.

Lemma items_size_nonneg its : 0 <= items_size its.
Proof. unfold items_size. induction its as [|i its IH]; cbn [foldr]; [lia|]. pose proof (item_size_nonneg i). lia. Qed.

(** The names carried over an entry, gone after it. *)
Definition between (st : TarState) : Prop := t_path st = None /\ t_link st = None /\ 0 <= t_total st.

Lemma item_step fuel limit i rest st : item_ok i -> between st -> t_total st + item_size i <= limit -> limit < 2 ^ 64 - 1 ->
  exists fuel', (fuel <= fuel')%nat /\
    layer_loop (S (S fuel)) limit (item_bytes i ++ rest) st =
    layer_loop fuel' limit rest (mkTar None None (t_total st + item_size i) (t_entries st ++ [item_entry i]) (t_skipped st)).
Proof.
  intros Hi (Hp & Hl & Ht) Hs Hmax. unfold item_bytes, item_size in *. pose proof Hi as (Hc & Hu & _).
  destruct (it_carrier i) as [|name how] eqn:Ec; cbn [carrier_bytes carrier_size app] in *.
  - exists (S fuel). split; [lia|]. rewrite layer_step by (done || lia). rewrite (main_record i _ None);
      [|done..|by unfold item_name; rewrite Ec].
    cbn [mbind res_bind_inst with_total t_total t_entries t_skipped]. by rewrite Z.add_0_l.
  - exists fuel. split; [lia|]. rewrite <- app_assoc. destruct Hc as (Hu' & Hc). rewrite layer_step by (done || lia).
    rewrite (carrier_record name how) by done. cbn [mbind res_bind_inst]. rewrite layer_step by (done || (cbn; lia)).
    rewrite (main_record i _ (Some name)); [|done..|by unfold item_name; rewrite Ec].
    cbn [mbind res_bind_inst with_total set_names t_total t_entries t_skipped]. by rewrite Z.add_assoc.
Qed.

Lemma ustar_bytes_long u : ustar_ok u -> (2 <= length (ustar_bytes u))%nat.
Proof. intros Hu. destruct (ustar_reads u Hu) as (E & _). unfold ustar_bytes. rewrite length_app, E. lia. Qed.

Lemma items_read limit tail its : limit < 2 ^ 64 - 1 -> Forall item_ok its -> forall fuel st,
  between st -> t_total st + items_size its <= limit ->
  (length (concat (item_bytes <$> its) ++ repeat 0%Z 512 ++ tail) < fuel)%nat ->
  layer_loop fuel limit (concat (item_bytes <$> its) ++ repeat 0 512 ++ tail) st =
  Ok (mkTar None None (t_total st + items_size its) (t_entries st ++ (item_entry <$> its)) (t_skipped st)).
Proof.
  intros Hmax His. induction His as [|i its Hi _ IH]; intros fuel st Hst Hs Hf.
  - destruct fuel as [|fuel]; [lia|]. destruct Hst as (Hp & Hl & _). destruct st as [p l t es sk]. cbn in Hp, Hl. subst.
    cbn [fmap list_fmap concat app items_size foldr t_total t_entries t_skipped]. rewrite Z.add_0_r, app_nil_r. cbn [layer_loop].
    rewrite (proj2 (Z.ltb_ge _ BLOCK)) by (rewrite length_app, repeat_length; unfold BLOCK; lia).
    change (Z.to_nat BLOCK) with 512%nat. rewrite take_app_length' by (by rewrite repeat_length). done.
  - cbn [fmap list_fmap concat items_size foldr] in *. fold (items_size its) in *. rewrite <- app_assoc in *.
    pose proof (items_size_nonneg its) as Hn. pose proof Hi as (_ & Hu & _). pose proof (ustar_bytes_long _ Hu) as Hlong.
    rewrite length_app in Hf. unfold item_bytes in Hf at 1. rewrite length_app in Hf.
    destruct fuel as [|[|fuel]]; [lia..|]. destruct (item_step fuel limit i (concat (item_bytes <$> its) ++ repeat 0 512 ++ tail) st Hi Hst ltac:(lia) Hmax) as (fuel' & Hfl & ->).
    pose proof (item_size_nonneg i). destruct Hst as (_ & _ & Ht). rewrite IH.
    + cbn [t_total t_entries t_skipped]. by rewrite Z.add_assoc, <- app_assoc.
    + split_and!; [done..|cbn; lia].
    + cbn [t_total]. lia.
    + lia.
Qed.

(** C22: A layer is read as it was written: of an archive in the ustar layout, its names
    in the headers or carried before them as a GNU long name or a PAX path, every
    entry comes back in order with its path, kind, mode, link and content. *)
Theorem tar_reads_back items tail limit :
  Forall item_ok items -> items_size items <= limit -> limit < 2 ^ 64 - 1 ->
  read_layer (concat (item_bytes <$> items) ++ repeat 0 512 ++ tail) limit = Ok (mkLayer (item_entry <$> items) []).
Proof.
  intros Hi Hs Hmax. unfold read_layer. rewrite items_read; [done|done|done|by split_and!|cbn; lia|lia].
Qed.

(** ** What the reader gets wrong *)

(** A record of an extended header whose length ends within its length field is a
    panic, and so is one that ends inside a character. *)
Theorem short_pax_record_panics :
  pax_field (lit "1 path=x") (lit "path") = Panic /\ pax_field (lit "9 path=a" ++ [195; 169; 10]) (lit "path") = Panic.
Proof. vm_compute. done. Qed.

(** A number behind leading spaces, as some writers pad it, is read as zero. *)
Theorem leading_space_reads_zero : octal (lit "     644" ++ [0]) = Some 0.
Proof. done. Qed.

(** ** Witnesses *)

Definition demo_file : Ustar :=
  mkUstar (lit "usr/bin/env") 493 (repeat 48 16) (repeat 48 20) 48 [] (repeat 0 88) [] (repeat 0 12) [35; 33].

Lemma demo_item_ok : item_ok (mkItem Inline demo_file).
Proof.
  assert (forall s, forallb (in_range 1 128) s = true -> Forall (fun c => scalar c /\ c <> 0) s) as Hs.
  { intros s H. rewrite forallb_forall in H. apply List.Forall_forall. intros c Hc. specialize (H c Hc). apply in_range_spec in H.
    unfold scalar. lia. }
  split; [done|]. split; [|right; by left]. unfold ustar_ok, name_fits. cbn [demo_file u_base u_link u_prefix u_ids u_mid u_magic u_tail u_mode u_body].
  split_and!; try (by apply Hs); try done; try (vm_compute; lia).
Qed.

Lemma tar_reads_back_witness :
  read_layer (item_bytes (mkItem Inline demo_file) ++ repeat 0 512) 1024 =
  Ok (mkLayer [mkTarEntry (mkRaw (lit "usr/bin/env") (File 493 2)) [35; 33]] []).
Proof.
  pose proof (tar_reads_back [mkItem Inline demo_file] [] 1024) as H. cbn [fmap list_fmap concat] in H. rewrite !app_nil_r in H.
  apply H; [by apply Forall_singleton, demo_item_ok|vm_compute; congruence|lia].
Defined.

Lemma layer_bounded_witness :
  bytes (repeat 0 512) /\ read_layer (repeat 0 512) 1024 <> NoFuel.
Proof.
  assert (bytes (repeat 0 512)) as Hb by (apply List.Forall_forall; intros x Hx%repeat_spec; subst; vm_compute; intuition congruence).
  split; [done|]. apply (layer_bounded (repeat 0 512) 1024); [done|lia].
Defined.
