(* ===== verification/OciRef.v ===== *)
(** * Image references

    [src/chm/src/oci/reference.rs]: what a reference such as [ubuntu:24.04] means,
    with the defaults filled in, and how it is written back. *)

From Stdlib Require Import ZArith Lia Bool String.
From stdpp Require Import base numbers list list_numbers option.
From S2P Require Import Prelude Text TextFacts Dns Utf8 OciEntry.

#[local] Open Scope Z_scope.

Definition DOCKER_HUB : str := lit "registry-1.docker.io".

Record Reference := mkRef { rf_registry : str; rf_repository : str; rf_reference : str; rf_by_digest : bool }.

Inductive RefError := EmptyReference | NoRepository (input : str) | BadDigest (digest : str).

Definition display (r : Reference) : str :=
  rf_registry r ++ [SLASH] ++ rf_repository r ++ (if rf_by_digest r then lit "@" else lit ":") ++ rf_reference r.

Definition has_char (c : Z) (s : str) : bool := existsb (Z.eqb c) s.

Definition is_host (segment : str) : bool := str_eqb segment (lit "localhost") || has_char 46 segment || has_char 58 segment.

Definition is_sha256 (d : str) : bool :=
  match strip_prefix (lit "sha256:") d with
  | Some _ => Z.of_nat (length (as_bytes d)) =? 7 + 64
  | None => false
  end.

Definition parse_ref (input : str) : res RefError Reference :=
  let input := trim input in
  match input with
  | [] => Err EmptyReference
  | _ =>
      let '(name_and_tag, digest) := match split_once 64 input with Some (n, d) => (n, Some d) | None => (input, None) end in
      let '(registry, remainder) :=
        match split_once SLASH name_and_tag with
        | Some (first, rest) => if is_host first then (first, rest) else (DOCKER_HUB, name_and_tag)
        | None => (DOCKER_HUB, name_and_tag)
        end in
      let '(repository, tag) :=
        match digest with
        | Some _ => (remainder, None)
        | None =>
            match rsplit_once 58 remainder with
            | Some (r, t) => if negb (has_char SLASH t) then (r, Some t) else (remainder, None)
            | None => (remainder, None)
            end
        end in
      match repository with
      | [] => Err (NoRepository input)
      | _ =>
          let repository :=
            if str_eqb registry DOCKER_HUB && negb (has_char SLASH repository) then lit "library/" ++ repository else repository in
          match digest with
          | Some d => if is_sha256 d then Ok (mkRef registry repository d true) else Err (BadDigest d)
          | None => Ok (mkRef registry repository (default (lit "latest") tag) false)
          end
      end
  end.

(** ** Parts of a reference *)

Definition free (c : Z) (s : str) : Prop := Forall (fun x => x <> c) s.

Lemma has_char_free c s : has_char c s = false <-> free c s.
Proof.
  unfold has_char, free. induction s as [|x s IH]; [by split|]. cbn. rewrite orb_false_iff, IH, list.Forall_cons, Z.eqb_neq. intuition congruence.
Qed.

Lemma free_app c a b : free c (a ++ b) <-> free c a /\ free c b.
Proof. apply Forall_app. Qed.

Lemma split_once_none_app c s : free c s -> split_once c s = None.
Proof.
  induction 1 as [|x s Hx _ IH]; [done|]. cbn. rewrite (proj2 (Z.eqb_neq c x)) by congruence. by rewrite IH.
Qed.

Lemma rsplit_once_app c a b : free c b -> rsplit_once c (a ++ c :: b) = Some (a, b).
Proof.
  intros H. unfold rsplit_once. rewrite rev_app_distr. cbn [rev]. rewrite <- app_assoc. cbn [app].
  rewrite split_once_app by (by apply Forall_rev). by rewrite !rev_involutive.
Qed.

(** What a parsed reference is made of: enough to read it back. *)
Record parsed (r : Reference) : Prop := {
  pr_host : is_host (rf_registry r) = true;
  pr_registry : free SLASH (rf_registry r) /\ free 64 (rf_registry r);
  pr_repository : rf_repository r <> [] /\ free 64 (rf_repository r);
  pr_library : rf_registry r = DOCKER_HUB -> has_char SLASH (rf_repository r) = true;
  pr_reference : if rf_by_digest r then is_sha256 (rf_reference r) = true
                 else free 64 (rf_reference r) /\ free 58 (rf_reference r) /\ free SLASH (rf_reference r);
  pr_trim : trim (display r) = display r }.

Lemma parsed_reads r : parsed r -> parse_ref (display r) = Ok r.
Proof.
  intros [Hh [Hs Ha] [Hne Hra] Hl Hr Ht]. unfold parse_ref. rewrite Ht. destruct r as [reg repo ref dig].
  cbn [rf_registry rf_repository rf_reference rf_by_digest display] in *.
  assert (forall x, (if str_eqb reg DOCKER_HUB && negb (has_char SLASH repo) then x else repo) = repo) as Hlib.
  { intros x. destruct (str_eqb reg DOCKER_HUB) eqn:E; [|done]. unfold str_eqb in E. apply bool_decide_eq_true in E. by rewrite Hl. }
  assert (forall {A} (x y : A), match repo with [] => x | _ => y end = y) as Hm by (by destruct repo).
  assert (forall x, reg ++ [SLASH] ++ repo ++ x <> []) as Hnn by (by destruct reg).
  destruct dig.
  - assert (reg ++ [SLASH] ++ repo ++ lit "@" ++ ref = (reg ++ SLASH :: repo) ++ 64 :: ref) as E by (by rewrite <- app_assoc).
    unfold display. cbn [rf_registry rf_repository rf_reference rf_by_digest].
    destruct (reg ++ [SLASH] ++ repo ++ lit "@" ++ ref) eqn:E0; [by apply Hnn in E0|]. rewrite E, split_once_app.
    2: { apply free_app. split; [done|]. by constructor. }
    rewrite split_once_app, Hh by done. by rewrite Hm, Hlib, Hr.
  - destruct Hr as (R1 & R2 & R3). unfold display. cbn [rf_registry rf_repository rf_reference rf_by_digest].
    destruct (reg ++ [SLASH] ++ repo ++ lit ":" ++ ref) eqn:E0; [by apply Hnn in E0|]. rewrite <- E0.
    rewrite split_once_none_app.
    2: { apply free_app. split; [done|]. apply free_app. split; [by repeat constructor|]. apply free_app. split; [done|].
         apply free_app. split; [by repeat constructor|done]. }
    change (reg ++ [SLASH] ++ repo ++ lit ":" ++ ref) with (reg ++ SLASH :: (repo ++ 58 :: ref)).
    rewrite split_once_app, Hh, rsplit_once_app by done. rewrite (proj2 (has_char_free _ _) R3). cbn [negb].
    by rewrite Hm, Hlib.
Qed.

(** ** Reading back *)

Lemma trim_display reg repo mark tail : reg <> [] -> (forall c w, reg = c :: w -> is_whitespace c = false) -> is_whitespace mark = false ->
  (tail = [] \/ exists a, trim (a ++ tail) = a ++ tail) -> trim (reg ++ [SLASH] ++ repo ++ [mark] ++ tail) = reg ++ [SLASH] ++ repo ++ [mark] ++ tail.
Proof.
  intros Hne Hc Hm Ht. destruct reg as [|c reg]; [done|]. specialize (Hc _ _ eq_refl). destruct tail as [|z tail].
  - rewrite app_nil_r, !app_assoc. by apply trim_ends.
  - destruct Ht as [|[a Ht]]; [done|]. rewrite !app_assoc. by apply (trim_joined _ _ a).
Qed.

Lemma free_split_once c d s a b : split_once c s = Some (a, b) -> free d s -> free d a /\ free d b.
Proof. intros [-> _]%split_once_inv [Ha [_ Hb]%list.Forall_cons]%free_app. done. Qed.

(** The registry and what follows it. *)
Lemma registry_split n reg rest :
  match split_once SLASH n with
  | Some (first, r) => if is_host first then (first, r) else (DOCKER_HUB, n)
  | None => (DOCKER_HUB, n)
  end = (reg, rest) -> free 64 n -> n <> [] -> (forall c w, n = c :: w -> is_whitespace c = false) ->
  is_host reg = true /\ free SLASH reg /\ free 64 reg /\ free 64 rest /\ reg <> [] /\
  (forall c w, reg = c :: w -> is_whitespace c = false) /\ exists pre, n = pre ++ rest.
Proof.
  intros H Hf Hne Hw. assert ((reg, rest) = (DOCKER_HUB, n) -> is_host reg = true /\ free SLASH reg /\ free 64 reg /\ free 64 rest /\ reg <> [] /\
    (forall c w, reg = c :: w -> is_whitespace c = false) /\ exists pre, n = pre ++ rest) as Hub.
  { intros [= -> ->]. split_and!; [done|by apply has_char_free|by apply has_char_free|done|done|by intros c w [= <- _]|by exists []]. }
  destruct (split_once SLASH n) as [[first r]|] eqn:E; [|by apply Hub]. destruct (is_host first) eqn:Eh; [|by apply Hub].
  injection H as <- <-. pose proof (free_split_once _ _ _ _ _ E Hf) as [F1 F2]. apply split_once_inv in E as [-> Hs].
  destruct first as [|c w]; [done|]. split_and!; [done..|intros c' w' [= <- _]; by eapply Hw|]. exists ((c :: w) ++ [SLASH]). by rewrite <- app_assoc.
Qed.

Definition in_library (registry repository : str) : str :=
  if str_eqb registry DOCKER_HUB && negb (has_char SLASH repository) then lit "library/" ++ repository else repository.

Lemma in_library_spec registry repository : repository <> [] -> free 64 repository ->
  (in_library registry repository <> [] /\ free 64 (in_library registry repository)) /\
  (registry = DOCKER_HUB -> has_char SLASH (in_library registry repository) = true).
Proof.
  intros Hne Hf. unfold in_library. destruct (str_eqb registry DOCKER_HUB) eqn:E; cbn [andb].
  - destruct (has_char SLASH repository) eqn:Es; cbn [negb]; [by split|]. split; [|done]. split; [done|].
    apply free_app. split; [by apply has_char_free|done].
  - split; [done|]. intros ->. unfold str_eqb in E. by rewrite bool_decide_true in E.
Qed.

(** The parts of a reference with its registry and its tail known. *)
Lemma parsed_intro reg rest repo ref (dig : bool) :
  is_host reg = true -> free SLASH reg -> free 64 reg -> reg <> [] -> (forall c w, reg = c :: w -> is_whitespace c = false) ->
  repo <> [] -> free 64 repo -> in_library reg repo = rest ->
  (if dig then is_sha256 ref = true else free 64 ref /\ free 58 ref /\ free SLASH ref) ->
  (ref = [] \/ exists a, trim (a ++ ref) = a ++ ref) -> parsed (mkRef reg rest ref dig).
Proof.
  intros H1 H2 H3 H4 H5 H6 H7 <- H8 H9. destruct (in_library_spec reg repo H6 H7) as [H10 H11].
  split; cbn [rf_registry rf_repository rf_reference rf_by_digest]; try done. unfold display. cbn [rf_registry rf_repository rf_reference rf_by_digest].
  by destruct dig; apply trim_display.
Qed.

Lemma nonempty_match {A B} (l : list A) (x y : B) : l <> [] -> match l with [] => x | _ :: _ => y end = y.
Proof. by destruct l. Qed.

Lemma parse_ref_parsed s r : parse_ref s = Ok r -> parsed r.
Proof.
  unfold parse_ref. pose proof (trim_idem s) as Ht. set (input := trim s) in *. clearbody input. clear s.
  assert (forall c w, input = c :: w -> is_whitespace c = false) as Hc.
  { intros c w ->. by eapply trimmed_head. }
  destruct (base.decide (input = [])) as [->|Hne]; [done|]. rewrite (nonempty_match input) by done.
  destruct (split_once 64 input) as [[n d]|] eqn:Ea.
  - pose proof (split_once_inv _ _ _ _ Ea) as [Ei Hn].
    destruct (match split_once SLASH n with Some _ => _ | None => _ end) as [reg rest] eqn:Er.
    destruct (base.decide (rest = [])) as [->|Hrest]; [done|]. rewrite (nonempty_match rest) by done.
    assert (n <> []) as Hn0 by (intros ->; by injection Er as _ <-).
    destruct (registry_split _ _ _ Er Hn Hn0) as (R1 & R2 & R3 & R4 & R5 & R6 & _).
    { intros c w ->. by eapply Hc. }
    destruct (is_sha256 d) eqn:Ed; [|done]. intros [= <-]. apply (parsed_intro _ _ rest); try done.
    right. exists (n ++ [64]). by replace ((n ++ [64]) ++ d) with input by (by rewrite <- app_assoc).
  - destruct (match split_once SLASH input with Some _ => _ | None => _ end) as [reg rest] eqn:Er.
    apply split_once_none in Ea. destruct (registry_split _ _ _ Er Ea Hne Hc) as (R1 & R2 & R3 & R4 & R5 & R6 & pre & Epre).
    assert (forall repo, rest = repo -> repo <> [] -> parsed (mkRef reg (in_library reg repo) (lit "latest") false)) as Hlatest.
    { intros repo -> Hr. apply (parsed_intro _ _ repo); try done; [by split_and!; apply has_char_free|]. right. by exists []. }
    destruct (rsplit_once 58 rest) as [[r0 t]|] eqn:Et.
    + destruct (has_char SLASH t) eqn:Es; cbn [negb].
      * destruct (base.decide (rest = [])) as [->|Hrest]; [done|]. rewrite (nonempty_match rest) by done. intros [= <-]. by apply Hlatest.
      * destruct (base.decide (r0 = [])) as [->|Hr0]; [done|]. rewrite (nonempty_match r0) by done. intros [= <-].
        apply rsplit_once_inv in Et as [-> Ht58]. apply free_app in R4 as [R4 [_ R4']%list.Forall_cons].
        apply (parsed_intro _ _ r0); try done; [split_and!; [done..|by apply has_char_free]|].
        right. exists (pre ++ r0 ++ [58]). by replace ((pre ++ r0 ++ [58]) ++ t) with input by (by rewrite <- !app_assoc).
    + destruct (base.decide (rest = [])) as [->|Hrest]; [done|]. rewrite (nonempty_match rest) by done. intros [= <-]. by apply Hlatest.
Qed.

(** A reference that was understood is written back as one that means the same,
    with every default filled in. *)
Theorem reference_roundtrip s r : parse_ref s = Ok r -> parse_ref (display r) = Ok r.
Proof. intros H. by apply parsed_reads, (parse_ref_parsed s). Qed.

Lemma reference_roundtrip_witness :
  parse_ref (lit "ubuntu") = Ok (mkRef DOCKER_HUB (lit "library/ubuntu") (lit "latest") false) /\
  parse_ref (lit "registry-1.docker.io/library/ubuntu:latest") = Ok (mkRef DOCKER_HUB (lit "library/ubuntu") (lit "latest") false).
Proof.
  assert (parse_ref (lit "ubuntu") = Ok (mkRef DOCKER_HUB (lit "library/ubuntu") (lit "latest") false)) as H by (vm_compute; reflexivity).
  split; [exact H|]. exact (reference_roundtrip _ _ H).
Defined.

(** ** What the parser gets wrong *)

(** A tag before a digest becomes part of the repository's name. *)
Theorem tag_kept_with_digest :
  parse_ref (lit "ubuntu:24.04@sha256:" ++ repeat 97 64) =
  Ok (mkRef DOCKER_HUB (lit "library/ubuntu:24.04") (lit "sha256:" ++ repeat 97 64) true).
Proof. vm_compute. done. Qed.

(** The 64 characters of a digest need not be hexadecimal. *)
Theorem digest_not_hex :
  parse_ref (lit "a@sha256:" ++ repeat 122 64) = Ok (mkRef DOCKER_HUB (lit "library/a") (lit "sha256:" ++ repeat 122 64) true).
Proof. vm_compute. done. Qed.
