(* ===== verification/Der.v ===== *)
(** * The DER writer

    [src/chm/src/credproxy/der.rs]: tags, lengths and the values certificates are
    made of. [Der] is the tree a certificate stands for, [encode_der] its bytes by
    the writer's functions and [read_der] a reader of the format. [civil_from_unix]
    is checked against a calendar that counts days. *)

From Stdlib Require Import ZArith Lia Bool String.
From stdpp Require Import base numbers list list_numbers option.
From S2P Require Import Prelude Text TextFacts Dns.

#[local] Open Scope Z_scope.

(** ** The writer *)

Definition TAG_BOOLEAN : Z := 1.
Definition TAG_INTEGER : Z := 2.
Definition TAG_BIT_STRING : Z := 3.
Definition TAG_OCTET_STRING : Z := 4.
Definition TAG_OID : Z := 6.
Definition TAG_UTF8_STRING : Z := 12.
Definition TAG_UTC_TIME : Z := 23.
Definition TAG_SEQUENCE : Z := 48.
Definition TAG_SET : Z := 49.

Definition context (n : Z) : Z := Z.lor 160 n.
Definition context_primitive (n : Z) : Z := Z.lor 128 n.

(** [iter().position(|b| *b != 0)]. *)
Fixpoint first_nonzero (l : list Z) : option nat :=
  match l with
  | [] => None
  | b :: l => if b =? 0 then S <$> first_nonzero l else Some O
  end.

Definition push_len (len : Z) : list Z :=
  if len <? 128 then [len]
  else
    let bytes := be_bytes 8 len in
    let significant := drop (default (length bytes - 1)%nat (first_nonzero bytes)) bytes in
    Z.lor 128 (Z.of_nat (length significant)) :: significant.

Definition tlv (tag : Z) (value : list Z) : list Z := [tag] ++ push_len (Z.of_nat (length value)) ++ value.

Definition seq_ (elements : list (list Z)) : list Z := tlv TAG_SEQUENCE (concat elements).
Definition set_ (elements : list (list Z)) : list Z := tlv TAG_SET (concat elements).
Definition explicit (n : Z) (inner : list Z) : list Z := tlv (context n) inner.

Definition uint_value (magnitude : list Z) : list Z :=
  let trimmed := drop (default (length magnitude) (first_nonzero magnitude)) magnitude in
  match trimmed with
  | [] => [0]
  | b :: _ => (if Z.land b 128 =? 0 then [] else [0]) ++ trimmed
  end.
Definition uint (magnitude : list Z) : list Z := tlv TAG_INTEGER (uint_value magnitude).

Definition uint_small (v : Z) : list Z := uint (be_bytes 4 v).
Definition boolean (v : bool) : list Z := tlv TAG_BOOLEAN [if v then 255 else 0].
Definition bit_string_bits (unused : Z) (bs : list Z) : list Z := tlv TAG_BIT_STRING (unused :: bs).
Definition bit_string (bs : list Z) : list Z := bit_string_bits 0 bs.
Definition oid (encoded : list Z) : list Z := tlv TAG_OID encoded.
Definition octet_string (bs : list Z) : list Z := tlv TAG_OCTET_STRING bs.
Definition utf8_string (s : str) : list Z := tlv TAG_UTF8_STRING (as_bytes s).

Record Civil := mkCivil { c_year : Z; c_month : Z; c_day : Z; c_hour : Z; c_minute : Z; c_second : Z }.

(** Euclidean division by a positive number is that of [Z]; the divisions of
    numbers that are not negative are too. *)
Definition civil_from_unix (unix_secs : Z) : Civil :=
  let days := unix_secs / 86400 in
  let secs_of_day := unix_secs mod 86400 in
  let z := days + 719468 in
  let era := z / 146097 in
  let doe := z mod 146097 in
  let yoe := (doe - doe / 1460 + doe / 36524 - doe / 146096) / 365 in
  let y := yoe + era * 400 in
  let doy := doe - (365 * yoe + yoe / 4 - yoe / 100) in
  let mp := (5 * doy + 2) / 153 in
  let d := doy - (153 * mp + 2) / 5 + 1 in
  let m := if mp <? 10 then mp + 3 else mp - 9 in
  let year := if m <=? 2 then y + 1 else y in
  mkCivil year m d (secs_of_day / 3600) (secs_of_day mod 3600 / 60) (secs_of_day mod 60).

(** [{:02}]. *)
Definition two_digits (n : Z) : str := if (0 <=? n) && (n <? 10) then 48 :: dec n else dec n.

Definition utc_text (c : Civil) : str :=
  two_digits (Z.rem (c_year c) 100) ++ two_digits (c_month c) ++ two_digits (c_day c) ++
  two_digits (c_hour c) ++ two_digits (c_minute c) ++ two_digits (c_second c) ++ lit "Z".

Definition utc_time (unix_secs : Z) : list Z := tlv TAG_UTC_TIME (as_bytes (utc_text (civil_from_unix unix_secs))).

(** ** Reading tags and lengths *)

Definition read_len (bs : list Z) : option (Z * list Z) :=
  match bs with
  | [] => None
  | b :: bs =>
      if b <? 128 then Some (b, bs)
      else
        let n := Z.to_nat (b - 128) in
        if (length bs <? n)%nat then None else Some (be_val (take n bs), drop n bs)
  end.

Definition read_tlv (bs : list Z) : option (Z * list Z * list Z) :=
  match bs with
  | [] => None
  | tag :: bs =>
      '(len, bs) ← read_len bs;
      if Z.of_nat (length bs) <? len then None else Some (tag, take (Z.to_nat len) bs, drop (Z.to_nat len) bs)
  end.

Lemma first_nonzero_spec l : match first_nonzero l with
  | Some k => (k < length l)%nat /\ be_val (drop k l) = be_val l
  | None => be_val l = 0
  end.
Proof.
  assert (forall b l, be_val (b :: l) = be_val l + 2 ^ (8 * Z.of_nat (length l)) * b) as Hc.
  { intros b k. unfold be_val. cbn [rev]. rewrite le_val_app, length_rev. cbn. lia. }
  induction l as [|b l IH]; [done|]. cbn [first_nonzero]. destruct (Z.eqb_spec b 0) as [->|Hb]; [|cbn; lia].
  destruct (first_nonzero l) as [k|]; cbn [fmap option_fmap option_map length drop]; rewrite Hc; [|lia]. destruct IH. split; [lia|]. lia.
Qed.

Lemma read_push_len n rest : 0 <= n < 2 ^ 64 -> read_len (push_len n ++ rest) = Some (n, rest).
Proof.
  intros Hn. unfold push_len. destruct (Z.ltb_spec n 128) as [Hs|Hs]; cbn [app read_len].
  - by rewrite (proj2 (Z.ltb_lt n 128)).
  - pose proof (first_nonzero_spec (be_bytes 8 n)) as Hf. rewrite be_val_bytes in Hf. change (8 * Z.of_nat 8) with 64 in Hf.
    rewrite Z.mod_small in Hf by lia. destruct (first_nonzero (be_bytes 8 n)) as [k|]; [|lia]. destruct Hf as [Hk Hv].
    rewrite length_be_bytes in Hk. cbn [default from_option]. unfold id. set (sig := drop k (be_bytes 8 n)) in *.
    assert (length sig = (8 - k)%nat) as Hl by (unfold sig; by rewrite length_drop, length_be_bytes).
    assert (Z.lor 128 (Z.of_nat (length sig)) = 128 + Z.of_nat (length sig)) as ->.
    { rewrite Hl. do 8 (destruct k as [|k]; [done|]). lia. }
    rewrite (proj2 (Z.ltb_ge _ 128)) by lia. replace (Z.to_nat (128 + Z.of_nat (length sig) - 128)) with (length sig) by lia.
    rewrite length_app, (proj2 (Nat.ltb_ge _ _)) by lia. by rewrite take_app_length, drop_app_length, Hv.
Qed.

Lemma read_tlv_app tag value rest : Z.of_nat (length value) < 2 ^ 64 -> read_tlv (tlv tag value ++ rest) = Some (tag, value, rest).
Proof.
  intros H. unfold tlv, read_tlv. rewrite <- !app_assoc. cbn [app]. rewrite read_push_len by lia. cbn [mbind option_bind].
  rewrite length_app, (proj2 (Z.ltb_ge _ _)) by lia. by rewrite Nat2Z.id, take_app_length, drop_app_length.
Qed.

(** ** Trees *)

Inductive Der :=
| Prim (tag : Z) (value : list Z)
| Cons (tag : Z) (parts : list Der).

Fixpoint encode_der (d : Der) : list Z :=
  match d with
  | Prim tag value => tlv tag value
  | Cons tag parts => tlv tag (concat (map encode_der parts))
  end.

(** Bit 5 of a tag says that the value is made of elements. *)
Fixpoint read_der (fuel : nat) (bs : list Z) : option (Der * list Z) :=
  match fuel with
  | O => None
  | S fuel =>
      '(tag, value, rest) ← read_tlv bs;
      if Z.testbit tag 5 then parts ← read_ders fuel value; Some (Cons tag parts, rest)
      else Some (Prim tag value, rest)
  end
with read_ders (fuel : nat) (bs : list Z) : option (list Der) :=
  match fuel with
  | O => None
  | S fuel =>
      match bs with
      | [] => Some []
      | _ => '(d, rest) ← read_der fuel bs; ds ← read_ders fuel rest; Some (d :: ds)
      end
  end.

Fixpoint weight (d : Der) : nat :=
  match d with
  | Prim _ _ => 1
  | Cons _ parts => 2 + list_sum (map (fun p => S (weight p)) parts)
  end.

Fixpoint der_ok (d : Der) : Prop :=
  match d with
  | Prim tag value => Z.testbit tag 5 = false /\ Z.of_nat (length value) < 2 ^ 64
  | Cons tag parts =>
      Z.testbit tag 5 = true /\ Z.of_nat (length (concat (map encode_der parts))) < 2 ^ 64 /\
      fold_right (fun p P => der_ok p /\ P) True parts
  end.

Lemma encode_der_nonnil d : encode_der d <> [].
Proof. by destruct d. Qed.

(** A tree is read back from its bytes, whatever follows them. *)
Lemma der_reads_back : forall fuel d rest, (weight d <= fuel)%nat -> der_ok d -> read_der fuel (encode_der d ++ rest) = Some (d, rest).
Proof.
  induction fuel as [fuel IH] using (well_founded_induction Nat.lt_wf_0). intros d rest Hf Hok.
  destruct fuel as [|fuel]; [destruct d; cbn in Hf; lia|]. destruct d as [tag value|tag parts]; cbn [read_der encode_der].
  - destruct Hok as [Ht Hl]. rewrite read_tlv_app by done. cbn [mbind option_bind]. by rewrite Ht.
  - destruct Hok as (Ht & Hl & Hp). rewrite read_tlv_app by done. cbn [mbind option_bind]. rewrite Ht. cbn [weight] in Hf.
    enough (forall n ps, (n <= fuel)%nat -> (S (list_sum (map (fun p => S (weight p)) ps)) <= n)%nat ->
      fold_right (fun p P => der_ok p /\ P) True ps -> read_ders n (concat (map encode_der ps)) = Some ps) as H.
    { by rewrite (H fuel parts) by (done || lia). }
    clear -IH. intros n ps. revert n. induction ps as [|p ps IHp]; intros n Hn Hw Hps; (destruct n as [|n]; [cbn in Hw; lia|]); [done|].
    change (list_sum (map (fun p => S (weight p)) (p :: ps))) with (S (weight p) + list_sum (map (fun p => S (weight p)) ps))%nat in Hw.
    destruct Hps as [Hp Hps]. cbn [map concat read_ders].
    destruct (encode_der p ++ concat (map encode_der ps)) as [|b l] eqn:E.
    { apply app_eq_nil in E as [E _]. by apply encode_der_nonnil in E. }
    rewrite <- E. rewrite (IH n) by (done || lia). cbn [mbind option_bind]. by rewrite IHp by (done || lia).
Qed.

(** ** The calendar *)

Definition leap (y : Z) : bool := (y mod 4 =? 0) && (negb (y mod 100 =? 0) || (y mod 400 =? 0)).

Definition month_lengths (l : bool) : list Z := [31; if l then 29 else 28; 31; 30; 31; 30; 31; 31; 30; 31; 30; 31].

Definition month_length (l : bool) (m : Z) : Z := default 0 (month_lengths l !! Z.to_nat (m - 1)).

Definition days_before_month (l : bool) (m : Z) : Z := foldr Z.add 0 (take (Z.to_nat (m - 1)) (month_lengths l)).

(** Days from the first of January of the year 1 to that of the year [y]. *)
Definition days_before_year (y : Z) : Z := 365 * (y - 1) + (y - 1) / 4 - (y - 1) / 100 + (y - 1) / 400.

(** Days since the first of January 1970. *)
Definition day_number (y m d : Z) : Z := days_before_year y + days_before_month (leap y) m + (d - 1) - 719162.

Lemma leap_count y : (if leap y then 1 else 0) = y / 4 - (y - 1) / 4 - (y / 100 - (y - 1) / 100) + (y / 400 - (y - 1) / 400).
Proof.
  assert (forall k, 0 < k -> y / k - (y - 1) / k = if y mod k =? 0 then 1 else 0) as Hk.
  { intros k Hk. pose proof (Z.div_mod y k). pose proof (Z.div_mod (y - 1) k).
    pose proof (Z.mod_pos_bound y k Hk). pose proof (Z.mod_pos_bound (y - 1) k Hk). destruct (Z.eqb_spec (y mod k) 0); nia. }
  pose proof (Hk 4 ltac:(lia)) as H4. pose proof (Hk 100 ltac:(lia)) as H100. pose proof (Hk 400 ltac:(lia)) as H400.
  assert (y mod 100 = 0 -> y mod 4 = 0) by (Z.to_euclidean_division_equations; lia).
  assert (y mod 400 = 0 -> y mod 100 = 0) by (Z.to_euclidean_division_equations; lia). unfold leap.
  destruct (Z.eqb_spec (y mod 4) 0), (Z.eqb_spec (y mod 100) 0), (Z.eqb_spec (y mod 400) 0); cbn [andb negb orb]; lia.
Qed.

(** A year has 365 days or, if it is a leap year, 366. *)
Lemma year_length y : days_before_year (y + 1) = days_before_year y + (if leap y then 366 else 365).
Proof. pose proof (leap_count y). unfold days_before_year. replace (y + 1 - 1) with y by lia. destruct (leap y); lia. Qed.

(** A day counted from the first of March, and the month and day it is. *)
Definition month_day (doy : Z) : Z * Z :=
  let mp := (5 * doy + 2) / 153 in (if mp <? 10 then mp + 3 else mp - 9, doy - (153 * mp + 2) / 5 + 1).

Definition month_day_ok (doy : Z) : bool :=
  let '(m, d) := month_day doy in
  forallb (fun l =>
    if m <=? 2 then negb (l || (doy <? 365)) || ((1 <=? m) && (1 <=? d) && (d <=? month_length l m) && (days_before_month l m + (d - 1) =? doy - 306))
    else (m <=? 12) && (1 <=? d) && (d <=? month_length l m) && (days_before_month l m + (d - 1) =? doy + 59 + (if l then 1 else 0)))
    [true; false].

Lemma month_day_all doy : 0 <= doy <= 365 -> month_day_ok doy = true.
Proof.
  intros H. assert (forallb month_day_ok (seqZ 0 366) = true) as Ha by (vm_compute; reflexivity).
  rewrite forallb_forall in Ha. apply Ha, list_elem_of_In, elem_of_seqZ. lia.
Qed.

(** The year of a day of a 400-year era, counted from March. *)
Lemma year_of_era doe : 0 <= doe < 146097 ->
  let yoe := (doe - doe / 1460 + doe / 36524 - doe / 146096) / 365 in
  let doy := doe - (365 * yoe + yoe / 4 - yoe / 100) in
  0 <= yoe < 400 /\ 0 <= doy <= 365 /\ (doy = 365 -> leap (yoe + 1) = true).
Proof.
  intros H yoe doy. assert (0 <= yoe < 400) by (unfold yoe; Z.to_euclidean_division_equations; lia). split; [done|].
  assert (0 <= doy <= 365) by (unfold doy, yoe in *; Z.to_euclidean_division_equations; lia). split; [done|]. intros E.
  pose proof (leap_count (yoe + 1)). destruct (leap (yoe + 1)); [done|]. unfold doy, yoe in *. Z.to_euclidean_division_equations; lia.
Qed.

Lemma leap_era y era : leap (y + era * 400) = leap y.
Proof.
  unfold leap. assert (forall k q, 0 < k -> k * q = 400 -> (y + era * 400) mod k = y mod k) as H.
  { intros k q Hk <-. replace (y + era * (k * q)) with (y + (era * q) * k) by lia. apply Z.mod_add. lia. }
  rewrite (H 4 100), (H 100 4), (H 400 1) by lia. done.
Qed.

Lemma march_year yoe era : 0 <= yoe < 400 -> let y := yoe + era * 400 in
  y / 4 - y / 100 + y / 400 = yoe / 4 - yoe / 100 + 97 * era.
Proof.
  intros H y. unfold y. replace ((yoe + era * 400) / 4) with ((yoe + (era * 100) * 4) / 4) by (f_equal; lia).
  replace ((yoe + era * 400) / 100) with ((yoe + (era * 4) * 100) / 100) by (f_equal; lia). rewrite !Z.div_add by lia.
  rewrite (Z.div_small yoe 400) by lia. lia.
Qed.

Definition valid_date (y m d : Z) : Prop := 1 <= m <= 12 /\ 1 <= d <= month_length (leap y) m.

(** The day of an era, as a date. *)
Lemma date_of_day yoe doy era : 0 <= yoe < 400 -> 0 <= doy <= 365 -> (doy = 365 -> leap (yoe + 1) = true) ->
  let y := yoe + era * 400 in
  let '(m, d) := month_day doy in
  let year := if m <=? 2 then y + 1 else y in
  valid_date year m d /\ day_number year m d = era * 146097 + 365 * yoe + yoe / 4 - yoe / 100 + doy - 719468.
Proof.
  intros Hy Hd Hl y. pose proof (month_day_all doy Hd) as Hm. unfold month_day_ok in Hm. destruct (month_day doy) as [m d].
  pose proof (march_year yoe era Hy) as Hmy. fold y in Hmy. cbv zeta in Hmy. cbv zeta. cbn [forallb] in Hm.
  unfold valid_date, day_number, days_before_year. destruct (Z.leb_spec m 2) as [Hm2|Hm2].
  - replace (y + 1 - 1) with y by lia.
    assert (leap (y + 1) || (doy <? 365) = true) as Hlp.
    { unfold y. replace (yoe + era * 400 + 1) with (yoe + 1 + era * 400) by lia. rewrite leap_era.
      destruct (Z.ltb_spec doy 365); [apply orb_true_r|]. by rewrite Hl by lia. }
    destruct (leap (y + 1)); rewrite ?Hlp in Hm; cbn [orb negb] in Hm; cbn [orb] in Hlp; rewrite ?Hlp in Hm; cbn [orb negb andb] in Hm; lia.
  - pose proof (leap_count y) as Hc. destruct (leap y); cbn [andb] in Hm; lia.
Qed.

(** The civil date and time of an instant are the ones the calendar gives: a valid
    date, a time of day, and together the number of seconds they came from. *)
Theorem civil_exact t :
  let c := civil_from_unix t in
  valid_date (c_year c) (c_month c) (c_day c) /\ 0 <= c_hour c < 24 /\ 0 <= c_minute c < 60 /\ 0 <= c_second c < 60 /\
  day_number (c_year c) (c_month c) (c_day c) * 86400 + c_hour c * 3600 + c_minute c * 60 + c_second c = t.
Proof.
  unfold civil_from_unix. set (z := t / 86400 + 719468). set (doe := z mod 146097).
  pose proof (Z.mod_pos_bound z 146097 ltac:(lia)) as Hd. destruct (year_of_era doe Hd) as (H1 & H2 & H3). cbv zeta in H1, H2, H3.
  set (yoe := (doe - doe / 1460 + doe / 36524 - doe / 146096) / 365) in *.
  set (doy := doe - (365 * yoe + yoe / 4 - yoe / 100)) in *. pose proof (date_of_day yoe doy (z / 146097) H1 H2 H3) as H.
  unfold month_day in H. cbv zeta in H. cbn [c_year c_month c_day c_hour c_minute c_second]. destruct H as [Hv Hn].
  split; [exact Hv|]. rewrite Hn. pose proof (Z.div_mod z 146097). fold doe in H. unfold doy, z in *. clear Hv Hn.
  split_and!; Z.to_euclidean_division_equations; lia.
Qed.

(** ** Times *)

Definition pair_val (a b : Z) : Z := (a - 48) * 10 + (b - 48).

(** The instant a UTCTime names, its two digits of a year read as RFC 5280 does. *)
Definition read_utc (s : list Z) : option Z :=
  match s with
  | [y1; y2; m1; m2; d1; d2; h1; h2; i1; i2; s1; s2; 90] =>
      let yy := pair_val y1 y2 in
      let year := if 50 <=? yy then 1900 + yy else 2000 + yy in
      Some (day_number year (pair_val m1 m2) (pair_val d1 d2) * 86400 + pair_val h1 h2 * 3600 + pair_val i1 i2 * 60 + pair_val s1 s2)
  | _ => None
  end.

Lemma two_digits_pair n : 0 <= n < 100 -> exists a b, two_digits n = [a; b] /\ pair_val a b = n /\ 48 <= a < 58 /\ 48 <= b < 58.
Proof.
  intros H. assert (forallb (fun n => match two_digits n with
    | [a; b] => (pair_val a b =? n) && in_range 48 58 a && in_range 48 58 b | _ => false end) (seqZ 0 100) = true) as Ha by (vm_compute; reflexivity).
  rewrite forallb_forall in Ha. specialize (Ha n). rewrite <- list_elem_of_In, elem_of_seqZ in Ha. specialize (Ha ltac:(lia)).
  destruct (two_digits n) as [|a [|b [|c l]]]; try done. exists a, b. unfold in_range in Ha. split; [done|]. lia.
Qed.

Lemma month_length_le l m : 1 <= m <= 12 ->
  days_before_month l m + month_length l m <= (if l then 366 else 365) /\ 0 <= days_before_month l m /\ month_length l m <= 31.
Proof.
  intros H. assert (forallb (fun m => forallb (fun l => (days_before_month l m + month_length l m <=? (if l then 366 else 365)) && (0 <=? days_before_month l m) &&
    (month_length l m <=? 31)) [true; false]) (seqZ 1 12) = true) as Ha by (vm_compute; reflexivity).
  rewrite forallb_forall in Ha. specialize (Ha m). rewrite <- list_elem_of_In, elem_of_seqZ in Ha. specialize (Ha ltac:(lia)).
  cbn [forallb] in Ha. destruct l; lia.
Qed.

Lemma year_bounds y m d : valid_date y m d -> -7305 <= day_number y m d < 29220 -> 1950 <= y < 2050.
Proof.
  intros [Hm Hd] Hn. pose proof (month_length_le (leap y) m Hm) as (H1 & H2 & _). pose proof (year_length y) as Hy.
  assert (days_before_year y < 748382 /\ 711857 < days_before_year (y + 1)) as Hw.
  { unfold day_number in Hn. destruct (leap y); lia. }
  unfold days_before_year in Hw. replace (y + 1 - 1) with y in Hw by lia. clear -Hw. Z.to_euclidean_division_equations; lia.
Qed.

Lemma year_window t : -631152000 <= t < 2524608000 -> 1950 <= c_year (civil_from_unix t) < 2050.
Proof.
  intros Ht. destruct (civil_exact t) as (Hv & Hh & Hi & Hs & He). apply (year_bounds _ _ _ Hv). lia.
Qed.

Lemma utc_text_reads c :
  1950 <= c_year c < 2050 -> 1 <= c_month c <= 12 -> 1 <= c_day c <= 31 -> 0 <= c_hour c < 24 -> 0 <= c_minute c < 60 -> 0 <= c_second c < 60 ->
  read_utc (as_bytes (utc_text c)) =
  Some (day_number (c_year c) (c_month c) (c_day c) * 86400 + c_hour c * 3600 + c_minute c * 60 + c_second c).
Proof.
  intros Hy Hm Hd Hh Hi Hs. unfold utc_text. assert (Z.rem (c_year c) 100 = c_year c mod 100) as -> by (apply Z.rem_mod_nonneg; lia).
  destruct (two_digits_pair (c_year c mod 100)) as (y1 & y2 & -> & Ey & Y1 & Y2); [apply Z.mod_pos_bound; lia|].
  destruct (two_digits_pair (c_month c)) as (m1 & m2 & -> & Em & M1 & M2); [lia|].
  destruct (two_digits_pair (c_day c)) as (d1 & d2 & -> & Ed & D1 & D2); [lia|].
  destruct (two_digits_pair (c_hour c)) as (h1 & h2 & -> & Eh & H1 & H2); [lia|].
  destruct (two_digits_pair (c_minute c)) as (i1 & i2 & -> & Ei & I1 & I2); [lia|].
  destruct (two_digits_pair (c_second c)) as (s1 & s2 & -> & Es & S1 & S2); [lia|].
  change (lit "Z") with [90]. cbn [app].
  rewrite as_bytes_ascii by (repeat (constructor; [lia|]); constructor). cbn [read_utc]. rewrite Ey, Em, Ed, Eh, Ei, Es.
  assert ((if 50 <=? c_year c mod 100 then 1900 + c_year c mod 100 else 2000 + c_year c mod 100) = c_year c) as ->; [|done].
  destruct (Z.leb_spec 50 (c_year c mod 100)); Z.to_euclidean_division_equations; lia.
Qed.

(** A time written into a certificate is the time it was made from, from 1950 to
    the end of 2049. *)
Theorem utc_time_reads_back t : -631152000 <= t < 2524608000 -> read_utc (as_bytes (utc_text (civil_from_unix t))) = Some t.
Proof.
  intros Ht. pose proof (year_window t Ht) as Hy. destruct (civil_exact t) as ([Hm Hd] & Hh & Hi & Hs & He).
  pose proof (month_length_le (leap (c_year (civil_from_unix t))) _ Hm) as (_ & _ & Hl). rewrite utc_text_reads by lia. by rewrite He.
Qed.

(** ** Whole values *)

Fixpoint tags_ok (d : Der) : bool :=
  match d with
  | Prim tag _ => negb (Z.testbit tag 5)
  | Cons tag parts => Z.testbit tag 5 && forallb tags_ok parts
  end.

Definition read_all (bs : list Z) : option Der :=
  match read_der (2 * length bs) bs with
  | Some (d, []) => Some d
  | _ => None
  end.

Section der_ind.
Context (P : Der -> Prop) (Hprim : forall tag value, P (Prim tag value)) (Hcons : forall tag parts, Forall P parts -> P (Cons tag parts)).

Fixpoint der_induction (d : Der) : P d :=
  match d with
  | Prim tag value => Hprim tag value
  | Cons tag parts =>
      Hcons tag parts ((fix all l : Forall P l :=
        match l with [] => Forall_nil_2 P | x :: l => Forall_cons_2 P x l (der_induction x) (all l) end) parts)
  end.
End der_ind.

Lemma tlv_length tag value : (2 + length value <= length (tlv tag value))%nat.
Proof.
  unfold tlv. rewrite !length_app. cbn [length]. assert (1 <= length (push_len (Z.of_nat (length value))))%nat; [|lia].
  unfold push_len. destruct (_ <? _); cbn; lia.
Qed.

Lemma weight_bound d : (weight d < 2 * length (encode_der d))%nat.
Proof.
  induction d as [tag value|tag parts IH] using der_induction; cbn [weight encode_der].
  - pose proof (tlv_length tag value). lia.
  - pose proof (tlv_length tag (concat (map encode_der parts))).
    enough (list_sum (map (fun p => S (weight p)) parts) <= 2 * length (concat (map encode_der parts)))%nat by lia.
    clear H. induction IH as [|p ps Hp _ IHp]; [cbn; lia|]. cbn [map concat]. rewrite length_app.
    change (list_sum (S (weight p) :: map (fun p => S (weight p)) ps)) with (S (weight p) + list_sum (map (fun p => S (weight p)) ps))%nat. lia.
Qed.

Lemma der_ok_short d : tags_ok d = true -> Z.of_nat (length (encode_der d)) < 2 ^ 64 -> der_ok d.
Proof.
  induction d as [tag value|tag parts IH] using der_induction; cbn [tags_ok encode_der der_ok].
  - intros Ht Hl. pose proof (tlv_length tag value). split; [by apply negb_true_iff|lia].
  - intros [Ht Hp]%andb_true_iff Hl. pose proof (tlv_length tag (concat (map encode_der parts))). split_and!; [done|lia|].
    assert (Z.of_nat (length (concat (map encode_der parts))) < 2 ^ 64) as Hc by lia. clear Ht Hl H.
    induction IH as [|p ps Hi _ IHp]; [done|]. cbn [forallb map concat] in *. apply andb_true_iff in Hp as [Hp Hps].
    rewrite length_app in Hc. split; [apply Hi; [done|lia]|apply IHp; [done|lia]].
Qed.

(** What was written is the only thing its bytes can mean. *)
Lemma read_all_encode d : tags_ok d = true -> Z.of_nat (length (encode_der d)) < 2 ^ 64 -> read_all (encode_der d) = Some d.
Proof.
  intros Ht Hl. unfold read_all. pose proof (weight_bound d).
  pose proof (der_reads_back (2 * length (encode_der d)) d [] ltac:(lia) (der_ok_short d Ht Hl)) as Hr. rewrite app_nil_r in Hr. by rewrite Hr.
Qed.
