(* ===== verification/ProxyCa.v ===== *)
(** * The certificate authority of the credential proxy

    [src/chm/src/credproxy/ca.rs]: the workspace's CA, the leaf it mints for a host,
    the cache of leaves and the PEM files. Keys, signatures, digests and random
    bytes are [ring]'s: a class with the laws the code relies on. Its state is the
    source of randomness. The directory is the key and the certificate file. *)

From Stdlib Require Import ZArith Lia Bool String.
From stdpp Require Import base numbers list list_numbers option gmap.
From S2P Require Import Prelude Text TextFacts Dns Utf8 Egress Base64 HttpProxy CredRules Der.

#[local] Open Scope Z_scope.

(** ** ring *)

Class Crypto (R K : Type) := {
  generate_pkcs8 : R -> option (list Z) * R;
  from_pkcs8 : list Z -> option K;
  public_key : K -> list Z;
  sign : K -> list Z -> R -> option (list Z) * R;
  sha256 : list Z -> list Z;
  fill : nat -> R -> option (list Z) * R }.

Class CryptoLaws (R K : Type) {C : Crypto R K} := {
  verify : list Z -> list Z -> list Z -> bool;
  sign_verifies k m r s r' : sign k m r = (Some s, r') -> verify (public_key k) m s = true;
  sha256_length m : length (sha256 m) = 32%nat;
  fill_bytes n r bs r' : fill n r = (Some bs, r') -> length bs = n /\ bytes bs;
  generated_parses r key r' : generate_pkcs8 r = (Some key, r') -> is_Some (from_pkcs8 key) }.

Inductive CaError := NoGeneratedKey | NoSignature | NoSerial | BadStoredKey | NotPem.

(** ** PEM *)

Fixpoint chunks64 (fuel : nat) (l : list Z) : list (list Z) :=
  match fuel, l with
  | O, _ | _, [] => []
  | S fuel, _ => take 64 l :: chunks64 fuel (drop 64 l)
  end.

Definition begin_line (label : str) : str := lit "-----BEGIN " ++ label ++ lit "-----".
Definition end_line (label : str) : str := lit "-----END " ++ label ++ lit "-----".

Definition pem_encode (der_bytes : list Z) (label : str) : str :=
  let b64 := encode der_bytes in
  begin_line label ++ [10] ++ concat ((fun c => c ++ [10]) <$> chunks64 (length b64) b64) ++ end_line label ++ [10].

(** [lines()]: no last line after a final line feed, and no carriage return before one. *)
Definition text_lines (s : str) : list str :=
  let ls := split 10 s in
  (fun l => if ends_with [13] l then removelast l else l) <$> (if bool_decide (List.last ls [] = []) then removelast ls else ls).

Fixpoint pem_loop (label : str) (ls : list str) (body : option str) (out : list (list Z)) : list (list Z) :=
  match ls with
  | [] => out
  | l :: ls =>
      let line := trim l in
      if str_eqb line (begin_line label) then pem_loop label ls (Some []) out
      else if str_eqb line (end_line label) then
        match body with
        | Some b =>
            match decode (as_bytes b) with
            | Some bytes => pem_loop label ls None (out ++ [bytes])
            | None => pem_loop label ls None out
            end
        | None => pem_loop label ls None out
        end
      else pem_loop label ls (match body with Some b => Some (b ++ line) | None => None end) out
  end.

Definition pem_decode_all (pem label : str) : list (list Z) := pem_loop label (text_lines pem) None [].

Definition pem_decode (pem label : str) : option (list Z) := head (pem_decode_all pem label).

(** ** Certificates *)

Definition LEAF_VALIDITY_SECS : Z := 7 * 24 * 60 * 60.
Definition CA_VALIDITY_SECS : Z := 2 * 365 * 24 * 60 * 60.
Definition BACKDATE_SECS : Z := 3600.

Definition EC_PUBLIC_KEY : list Z := [42; 134; 72; 206; 61; 2; 1].
Definition PRIME256V1 : list Z := [42; 134; 72; 206; 61; 3; 1; 7].
Definition ECDSA_SHA256 : list Z := [42; 134; 72; 206; 61; 4; 3; 2].
Definition COMMON_NAME : list Z := [85; 4; 3].
Definition ORGANIZATION : list Z := [85; 4; 10].
Definition SUBJECT_KEY_ID : list Z := [85; 29; 14].
Definition KEY_USAGE : list Z := [85; 29; 15].
Definition SUBJECT_ALT_NAME : list Z := [85; 29; 17].
Definition BASIC_CONSTRAINTS : list Z := [85; 29; 19].
Definition AUTHORITY_KEY_ID : list Z := [85; 29; 35].
Definition EXT_KEY_USAGE : list Z := [85; 29; 37].
Definition SERVER_AUTH : list Z := [43; 6; 1; 5; 5; 7; 3; 1].

Definition sig_alg : list Z := seq_ [oid ECDSA_SHA256].

Definition spki (public_point : list Z) : list Z := seq_ [seq_ [oid EC_PUBLIC_KEY; oid PRIME256V1]; bit_string public_point].

Definition validity (not_before not_after : Z) : list Z := seq_ [utc_time not_before; utc_time not_after].

Definition rdn_sequence (attrs : list (list Z * str)) : list Z :=
  seq_ (map (fun '(o, value) => set_ [seq_ [oid o; utf8_string value]]) attrs).

Definition ca_name : list Z := rdn_sequence [(ORGANIZATION, lit "Gimbal Local"); (COMMON_NAME, lit "Gimbal Local credential proxy CA")].

Definition subject_cn (host : str) : list Z :=
  if Z.of_nat (length (as_bytes host)) <=? 64 then rdn_sequence [(COMMON_NAME, host)] else seq_ [].

(** The tag and the bytes of a GeneralName. *)
Definition general_name (host : str) : Z * list Z :=
  match parse_ipaddr host with
  | Some (V4 v4) => (context_primitive 7, be_bytes 4 v4)
  | Some (V6 v6) => (context_primitive 7, concat (be_bytes 2 <$> v6))
  | None => (context_primitive 2, as_bytes host)
  end.
Definition san (host : str) : list Z := seq_ [tlv (general_name host).1 (general_name host).2].

Definition extension (o : list Z) (critical : bool) (value : list Z) : list Z :=
  seq_ ([oid o] ++ (if critical then [boolean true] else []) ++ [octet_string value]).

Section ca.
Context {R K : Type} {C : Crypto R K}.

Definition key_id (public_point : list Z) : list Z := take 20 (sha256 public_point).

Definition random_serial (r : R) : res CaError (list Z * R) :=
  match fill 16 r with
  | (Some (b :: bs), r) => let b := Z.land b 127 in Ok ((if b =? 0 then 1 else b) :: bs, r)
  | (Some [], _) => Panic
  | (None, _) => Err NoSerial
  end.

Definition keypair (pkcs8 : list Z) : res CaError K := match from_pkcs8 pkcs8 with Some k => Ok k | None => Err BadStoredKey end.

Definition finish (tbs : list Z) (pair : K) (r : R) : res CaError (list Z * R) :=
  match sign pair tbs r with
  | (Some sig, r) => Ok (seq_ [tbs; sig_alg; bit_string sig], r)
  | (None, _) => Err NoSignature
  end.

Definition generate (r : R) : res CaError (list Z * R) :=
  match generate_pkcs8 r with
  | (Some key, r) => Ok (key, r)
  | (None, _) => Err NoGeneratedKey
  end.

Definition ca_tbs (serial public : list Z) (now : Z) : list Z :=
  seq_ [explicit 0 (uint_small 2); uint serial; sig_alg; ca_name; validity (now - BACKDATE_SECS) (now + CA_VALIDITY_SECS); ca_name;
        spki public;
        explicit 3 (seq_ [extension BASIC_CONSTRAINTS true (seq_ [boolean true; uint_small 0]);
                          extension KEY_USAGE true (bit_string_bits 1 [6]);
                          extension SUBJECT_KEY_ID false (octet_string (key_id public))])].

Definition self_signed_ca (pair : K) (now : Z) (r : R) : res CaError (list Z * R) :=
  s ← random_serial r; finish (ca_tbs s.1 (public_key pair) now) pair s.2.

Record Leaf := mkLeaf { lf_cert : list Z; lf_key : list Z; lf_ca : list Z }.

Record ProxyCa := mkCa { ca_key : list Z; ca_cert : list Z; ca_subject : list Z; ca_ski : list Z; ca_leaves : gmap str Leaf }.

Definition from_parts (key_pkcs8 cert_der : list Z) : res CaError ProxyCa :=
  pair ← keypair key_pkcs8; Ok (mkCa key_pkcs8 cert_der ca_name (key_id (public_key pair)) ∅).

Record CaDir := mkCaDir { d_key : option (list Z); d_cert : option str }.

Definition CERTIFICATE : str := lit "CERTIFICATE".

Definition load_files (key : list Z) (pem : str) : res CaError ProxyCa :=
  match pem_decode pem CERTIFICATE with
  | Some cert => from_parts key cert
  | None => Err NotPem
  end.

Definition load_or_create (dir : CaDir) (now : Z) (r : R) : res CaError (ProxyCa * CaDir * R) :=
  match d_key dir, d_cert dir with
  | Some key, Some pem => ca ← load_files key pem; Ok (ca, dir, r)
  | _, _ =>
      g ← generate r;
      pair ← keypair g.1;
      c ← self_signed_ca pair now g.2;
      ca ← from_parts g.1 c.1;
      Ok (ca, mkCaDir (Some g.1) (Some (pem_encode c.1 CERTIFICATE)), c.2)
  end.

Definition load_existing (dir : CaDir) : res CaError (option ProxyCa) :=
  match d_key dir, d_cert dir with
  | Some key, Some pem => ca ← load_files key pem; Ok (Some ca)
  | _, _ => Ok None
  end.

Definition ephemeral (now : Z) (r : R) : res CaError (ProxyCa * R) :=
  g ← generate r;
  pair ← keypair g.1;
  c ← self_signed_ca pair now g.2;
  ca ← from_parts g.1 c.1;
  Ok (ca, c.2).

Definition cert_pem (ca : ProxyCa) : str := pem_encode (ca_cert ca) CERTIFICATE.

Definition leaf_tbs (serial subject ski leaf_public : list Z) (host : str) (now : Z) : list Z :=
  seq_ [explicit 0 (uint_small 2); uint serial; sig_alg; subject; validity (now - BACKDATE_SECS) (now + LEAF_VALIDITY_SECS);
        subject_cn host; spki leaf_public;
        explicit 3 (seq_ [extension BASIC_CONSTRAINTS true (seq_ []);
                          extension KEY_USAGE true (bit_string_bits 7 [128]);
                          extension EXT_KEY_USAGE false (seq_ [oid SERVER_AUTH]);
                          extension SUBJECT_ALT_NAME false (san host);
                          extension SUBJECT_KEY_ID false (octet_string (key_id leaf_public));
                          extension AUTHORITY_KEY_ID false (seq_ [tlv (context_primitive 0) ski])])].

Definition sign_leaf (ca : ProxyCa) (host : str) (now : Z) (leaf_public : list Z) (ca_pair : K) (r : R) : res CaError (list Z * R) :=
  s ← random_serial r; finish (leaf_tbs s.1 (ca_subject ca) (ca_ski ca) leaf_public host now) ca_pair s.2.

Definition leaf_for (ca : ProxyCa) (host : str) (now : Z) (r : R) : res CaError (Leaf * ProxyCa * R) :=
  let key := to_ascii_lowercase host in
  match ca_leaves ca !! key with
  | Some hit => Ok (hit, ca, r)
  | None =>
      g ← generate r;
      leaf_pair ← keypair g.1;
      ca_pair ← keypair (ca_key ca);
      c ← sign_leaf ca key now (public_key leaf_pair) ca_pair g.2;
      let leaf := mkLeaf c.1 g.1 (ca_cert ca) in
      Ok (leaf, mkCa (ca_key ca) (ca_cert ca) (ca_subject ca) (ca_ski ca) (<[key := leaf]> (ca_leaves ca)), c.2)
  end.
End ca.

(** ** The trees of certificates *)

Definition sig_alg_tree : Der := Cons TAG_SEQUENCE [Prim TAG_OID ECDSA_SHA256].

Definition spki_tree (public_point : list Z) : Der :=
  Cons TAG_SEQUENCE [Cons TAG_SEQUENCE [Prim TAG_OID EC_PUBLIC_KEY; Prim TAG_OID PRIME256V1]; Prim TAG_BIT_STRING (0 :: public_point)].

Definition time_tree (t : Z) : Der := Prim TAG_UTC_TIME (as_bytes (utc_text (civil_from_unix t))).

Definition name_tree (attrs : list (list Z * str)) : Der :=
  Cons TAG_SEQUENCE (map (fun '(o, value) => Cons TAG_SET [Cons TAG_SEQUENCE [Prim TAG_OID o; Prim TAG_UTF8_STRING (as_bytes value)]]) attrs).

Definition ca_name_tree : Der := name_tree [(ORGANIZATION, lit "Gimbal Local"); (COMMON_NAME, lit "Gimbal Local credential proxy CA")].

Definition subject_tree (host : str) : Der :=
  name_tree (if Z.of_nat (length (as_bytes host)) <=? 64 then [(COMMON_NAME, host)] else []).

Definition ext_tree (o : list Z) (critical : bool) (value : Der) : Der :=
  Cons TAG_SEQUENCE ([Prim TAG_OID o] ++ (if critical then [Prim TAG_BOOLEAN [255]] else []) ++ [Prim TAG_OCTET_STRING (encode_der value)]).

Definition san_tree (host : str) : Der := Cons TAG_SEQUENCE [Prim (general_name host).1 (general_name host).2].

(** What a minted certificate says. *)
Definition leaf_tree (serial leaf_id ca_id leaf_public : list Z) (host : str) (now : Z) : Der :=
  Cons TAG_SEQUENCE
    [Cons (context 0) [Prim TAG_INTEGER [2]]; Prim TAG_INTEGER serial; sig_alg_tree; ca_name_tree;
     Cons TAG_SEQUENCE [time_tree (now - BACKDATE_SECS); time_tree (now + LEAF_VALIDITY_SECS)];
     subject_tree host; spki_tree leaf_public;
     Cons (context 3) [Cons TAG_SEQUENCE
       [ext_tree BASIC_CONSTRAINTS true (Cons TAG_SEQUENCE []);
        ext_tree KEY_USAGE true (Prim TAG_BIT_STRING [7; 128]);
        ext_tree EXT_KEY_USAGE false (Cons TAG_SEQUENCE [Prim TAG_OID SERVER_AUTH]);
        ext_tree SUBJECT_ALT_NAME false (san_tree host);
        ext_tree SUBJECT_KEY_ID false (Prim TAG_OCTET_STRING leaf_id);
        ext_tree AUTHORITY_KEY_ID false (Cons TAG_SEQUENCE [Prim (context_primitive 0) ca_id])]]].

Definition signed_tree (tbs : Der) (sig : list Z) : Der := Cons TAG_SEQUENCE [tbs; sig_alg_tree; Prim TAG_BIT_STRING (0 :: sig)].

Lemma rdn_encode attrs : rdn_sequence attrs = encode_der (name_tree attrs).
Proof.
  unfold rdn_sequence, name_tree, seq_. cbn [encode_der]. do 2 f_equal. rewrite map_map. apply map_ext. intros [o v].
  unfold set_, seq_. cbn [encode_der map concat]. rewrite !app_nil_r. done.
Qed.

Lemma subject_encode host : subject_cn host = encode_der (subject_tree host).
Proof. unfold subject_cn, subject_tree. destruct (_ <=? _); [apply rdn_encode|done]. Qed.

Lemma explicit_encode n d : explicit n (encode_der d) = encode_der (Cons (context n) [d]).
Proof. unfold explicit. cbn [encode_der map concat]. by rewrite app_nil_r. Qed.

Lemma seq_encode ds : seq_ (map encode_der ds) = encode_der (Cons TAG_SEQUENCE ds).
Proof. done. Qed.

Lemma ext_encode o critical d : extension o critical (encode_der d) = encode_der (ext_tree o critical d).
Proof. by destruct critical. Qed.

Lemma leaf_encode {R K} {C : Crypto R K} b bs ca_id leaf_public host now : 0 < b < 128 ->
  leaf_tbs (b :: bs) ca_name ca_id leaf_public host now = encode_der (leaf_tree (b :: bs) (key_id leaf_public) ca_id leaf_public host now).
Proof.
  intros Hb. unfold leaf_tbs. assert (uint (b :: bs) = encode_der (Prim TAG_INTEGER (b :: bs))) as ->.
  { unfold uint, uint_value. cbn [first_nonzero]. rewrite (proj2 (Z.eqb_neq b 0)) by lia. cbn [default from_option drop id].
    assert (Z.land b 128 = 0) as ->; [|done]. apply Z.bits_inj'. intros i Hi. rewrite Z.land_spec, Z.bits_0.
    change 128 with (2 ^ 7). rewrite Z.pow2_bits_eqb by lia. destruct (Z.eqb_spec 7 i) as [<-|]; [|apply andb_false_r].
    rewrite andb_true_r. by apply Z.bits_above_log2; [lia|apply Z.log2_lt_pow2; lia]. }
  rewrite subject_encode. unfold ca_name. rewrite rdn_encode.
  change (uint_small 2) with (encode_der (Prim TAG_INTEGER [2])).
  change (seq_ (@nil (list Z))) with (encode_der (Cons TAG_SEQUENCE [])).
  change (bit_string_bits 7 [128]) with (encode_der (Prim TAG_BIT_STRING [7; 128])).
  change (octet_string (key_id leaf_public)) with (encode_der (Prim TAG_OCTET_STRING (key_id leaf_public))).
  change (seq_ [oid SERVER_AUTH]) with (encode_der (Cons TAG_SEQUENCE [Prim TAG_OID SERVER_AUTH])).
  change (san host) with (encode_der (san_tree host)).
  change (seq_ [tlv (context_primitive 0) ca_id]) with (encode_der (Cons TAG_SEQUENCE [Prim (context_primitive 0) ca_id])).
  rewrite !ext_encode. unfold leaf_tree. rewrite <- seq_encode. cbn [map]. rewrite <- !explicit_encode. reflexivity.
Qed.

Lemma leaf_tags serial leaf_id ca_id leaf_public host now sig :
  tags_ok (signed_tree (leaf_tree serial leaf_id ca_id leaf_public host now) sig) = true.
Proof.
  assert (tags_ok (subject_tree host) = true) as Hs by (unfold subject_tree; by destruct (_ <=? _)).
  unfold signed_tree, leaf_tree. cbn [tags_ok forallb]. by rewrite Hs.
Qed.

Lemma san_tags host : tags_ok (san_tree host) = true.
Proof. unfold san_tree, general_name. by destruct (parse_ipaddr host) as [[|]|]. Qed.

(** ** What a minted certificate says *)

Lemma ok_triple {E A B D : Type} (a a' : A) (b b' : B) (d d' : D) : @Ok E _ (a, b, d) = Ok (a', b', d') -> a = a' /\ b = b' /\ d = d'.
Proof. by intros [= <- <- <-]. Qed.

Section minted.
Context {R K : Type} {C : Crypto R K} {L : CryptoLaws R K}.

Lemma serial_positive r s r' : random_serial r = Ok (s, r') -> exists b bs, s = b :: bs /\ 0 < b < 128 /\ length bs = 15%nat /\ bytes bs.
Proof.
  unfold random_serial. destruct (fill 16 r) as [[[|b bs]|] r1] eqn:E; try done. apply fill_bytes in E as [Hl Hb].
  apply list.Forall_cons in Hb as [Hb Hbs]. intros [= <- _]. eexists _, bs. split; [done|]. cbn in Hl.
  split; [|split; [lia|done]]. assert (0 <= Z.land b 127 < 128).
  { change 127 with (Z.ones 7). rewrite Z.land_ones by lia. apply Z.mod_pos_bound. lia. }
  destruct (Z.eqb_spec (Z.land b 127) 0); lia.
Qed.

(** C23: the certificate minted for a host reads as what it should say: it is issued by
    this CA and signed with its key, for a week from now; its serial number is
    positive; it names the host, as an address or as a name, and no other; it is
    for servers and is no CA itself; and it carries the identifier of the CA's key. *)
Theorem leaf_certificate ca host now r leaf ca' r' k :
  ca_subject ca = ca_name -> from_pkcs8 (ca_key ca) = Some k -> ca_leaves ca !! to_ascii_lowercase host = None ->
  leaf_for ca host now r = Ok (leaf, ca', r') -> Z.of_nat (length (lf_cert leaf)) < 2 ^ 63 ->
  -631152000 <= now - BACKDATE_SECS -> now + LEAF_VALIDITY_SECS < 2524608000 ->
  exists serial leaf_key sig,
    let name := to_ascii_lowercase host in
    let tbs := leaf_tree serial (key_id (public_key leaf_key)) (ca_ski ca) (public_key leaf_key) name now in
    read_all (lf_cert leaf) = Some (signed_tree tbs sig) /\ verify (public_key k) (encode_der tbs) sig = true /\
    from_pkcs8 (lf_key leaf) = Some leaf_key /\ lf_ca leaf = ca_cert ca /\
    (length serial = 16%nat /\ exists b bs, serial = b :: bs /\ 0 < b < 128) /\
    read_utc (as_bytes (utc_text (civil_from_unix (now - BACKDATE_SECS)))) = Some (now - BACKDATE_SECS) /\
    read_utc (as_bytes (utc_text (civil_from_unix (now + LEAF_VALIDITY_SECS)))) = Some (now + LEAF_VALIDITY_SECS) /\
    ca_leaves ca' !! name = Some leaf.
Proof.
  intros Hsub Hk Hmiss Hleaf Hlen Hb Ha. unfold leaf_for in Hleaf. rewrite Hmiss in Hleaf. unfold generate in Hleaf.
  destruct (generate_pkcs8 r) as [[key|] r1]; [|done]. cbn [mbind res_bind_inst fst snd] in Hleaf. unfold keypair in Hleaf.
  destruct (from_pkcs8 key) as [lk|] eqn:El; [|done]. rewrite Hk in Hleaf. cbn [mbind res_bind_inst] in Hleaf. unfold sign_leaf in Hleaf.
  destruct (random_serial r1) as [[s r2]| | |] eqn:Es; try done. cbn [mbind res_bind_inst fst snd] in Hleaf. unfold finish in Hleaf.
  destruct (serial_positive _ _ _ Es) as (b & bs & -> & Hb0 & Hl & _). rewrite Hsub, leaf_encode in Hleaf by done.
  set (tbs := leaf_tree (b :: bs) (key_id (public_key lk)) (ca_ski ca) (public_key lk) (to_ascii_lowercase host) now) in *.
  destruct (sign k (encode_der tbs) r2) as [[sig|] r3] eqn:Esig; [|done]. cbn [mbind res_bind_inst fst snd] in Hleaf.
  apply ok_triple in Hleaf as (<- & <- & _). exists (b :: bs), lk, sig. cbv zeta. fold tbs.
  change (seq_ [encode_der tbs; sig_alg; bit_string sig]) with (encode_der (signed_tree tbs sig)) in *. cbn [lf_cert lf_key lf_ca ca_leaves] in *.
  split_and!; [apply read_all_encode; [apply leaf_tags|lia]|by eapply sign_verifies|done|done|cbn; lia|by eexists _, _|
    apply utc_time_reads_back|apply utc_time_reads_back|apply lookup_insert_eq]; unfold BACKDATE_SECS, LEAF_VALIDITY_SECS in *; lia.
Qed.
End minted.

(** ** PEM files *)

Lemma concat_chunks fuel : forall l, (length l <= fuel)%nat -> concat (chunks64 fuel l) = l.
Proof.
  induction fuel as [|fuel IH]; intros l Hl; (destruct l as [|x l]; [done|]); [cbn in Hl; lia|].
  change (chunks64 (S fuel) (x :: l)) with (take 64 (x :: l) :: chunks64 fuel (drop 64 (x :: l))). cbn [concat].
  rewrite IH by (rewrite length_drop; cbn in *; lia). apply take_drop.
Qed.

Lemma chunks_forall (P : Z -> Prop) fuel : forall l, Forall P l -> Forall (fun c => c <> [] /\ Forall P c) (chunks64 fuel l).
Proof.
  induction fuel as [|fuel IH]; intros l Hl; [constructor|]. destruct l as [|x l]; [constructor|].
  change (chunks64 (S fuel) (x :: l)) with (take 64 (x :: l) :: chunks64 fuel (drop 64 (x :: l))).
  constructor; [split; [done|by apply Forall_take]|]. by apply IH, Forall_drop.
Qed.

Lemma split_text_lines ls rest : Forall (Forall (fun x => x <> 10)) ls -> split 10 (concat ((fun c => c ++ [10]) <$> ls) ++ rest) = ls ++ split 10 rest.
Proof.
  induction 1 as [|l ls Hl _ IH]; [done|]. cbn [fmap list_fmap concat]. rewrite <- !app_assoc. cbn [app]. by rewrite split_app, IH.
Qed.

Lemma text_lines_of ls : Forall (Forall (fun x => x <> 10 /\ x <> 13)) ls -> text_lines (concat ((fun c => c ++ [10]) <$> ls)) = ls.
Proof.
  intros H. unfold text_lines. rewrite <- (app_nil_r (concat _)), split_text_lines.
  2: { eapply list.Forall_impl; [exact H|]. intros l Hl. eapply list.Forall_impl; [exact Hl|]. by intros x [? _]. }
  change (split 10 []) with [@nil Z]. rewrite List.last_last, removelast_last, bool_decide_true by done.
  induction H as [|l ls Hl _ IH]; [done|]. cbn [fmap list_fmap]. f_equal; [|exact IH].
  destruct (ends_with [13] l) eqn:E; [|done]. exfalso. unfold ends_with in E.
  destruct l as [|x l _] using rev_ind; [done|]. rewrite rev_app_distr in E. apply Forall_app in Hl as [_ [[_ Hx] _]%list.Forall_cons].
  cbn [rev app strip_prefix] in E. by rewrite (proj2 (Z.eqb_neq 13 x)) in E by congruence.
Qed.

Definition label_ok (label : str) : Prop := Forall (fun c => 32 <= c < 127) label.

Lemma dashed_line word label : label_ok word -> label_ok label -> let l := 45 :: word ++ label ++ lit "-----" in
  trim l = l /\ Forall (fun x => x <> 10 /\ x <> 13) l.
Proof.
  intros Hw Hl l. unfold l. split.
  - rewrite app_assoc. by apply trim_fixed.
  - constructor; [lia|]. apply Forall_app. split; [|apply Forall_app; split; [|by repeat constructor]].
    all: eapply list.Forall_impl; [eassumption|]; cbn; lia.
Qed.

(** Lines between the marks are gathered as they are. *)
Lemma pem_body label cs : forall b out ls,
  Forall (fun c => c <> [] /\ Forall (fun x => 33 <= x < 127 /\ x <> 45) c) cs ->
  pem_loop label (cs ++ ls) (Some b) out = pem_loop label ls (Some (b ++ concat cs)) out.
Proof.
  induction cs as [|c cs IH]; intros b out ls H; [cbn; by rewrite app_nil_r|]. apply list.Forall_cons in H as [[Hne Hc] H].
  cbn [app pem_loop concat]. assert (trim c = c) as ->.
  { apply trim_visible. eapply list.Forall_impl; [exact Hc|]. intros x [Hx _]. by apply visible_range. }
  assert (forall l, str_eqb c (45 :: l) = false) as Hd.
  { intros l. unfold str_eqb. apply bool_decide_eq_false. intros ->. apply list.Forall_cons in Hc as [[_ ?] _]. done. }
  unfold begin_line, end_line. change (lit "-----BEGIN ") with (45 :: lit "----BEGIN "). change (lit "-----END ") with (45 :: lit "----END ").
  cbn [app]. rewrite !Hd. rewrite IH by done. by rewrite <- app_assoc.
Qed.

(** A certificate written as PEM is read back whole. *)
Lemma pem_reads_back der label : bytes der -> label_ok label -> pem_decode (pem_encode der label) label = Some der.
Proof.
  intros Hd Hl. unfold pem_decode, pem_decode_all, pem_encode. set (b64 := encode der). set (cs := chunks64 (length b64) b64).
  assert (Forall (fun x => 33 <= x < 127 /\ x <> 45) b64) as Hb.
  { apply Forall_and. split; [apply (encode_printable (S (length der))); lia|apply encode_no_dash]. }
  pose proof (chunks_forall _ (length b64) b64 Hb) as Hc. fold cs in Hc.
  assert (label_ok (lit "----BEGIN ") /\ label_ok (lit "----END ")) as [Kb Ke] by (split; repeat (constructor; [done|]); constructor).
  destruct (dashed_line _ label Kb Hl) as [Tb Fb]. destruct (dashed_line _ label Ke Hl) as [Te Fe].
  change (45 :: lit "----BEGIN " ++ label ++ lit "-----") with (begin_line label) in Tb, Fb.
  change (45 :: lit "----END " ++ label ++ lit "-----") with (end_line label) in Te, Fe.
  replace (begin_line label ++ [10] ++ concat ((fun c => c ++ [10]) <$> cs) ++ end_line label ++ [10])
    with (concat ((fun c => c ++ [10]) <$> (begin_line label :: cs ++ [end_line label]))).
  2: { cbn [fmap list_fmap concat]. rewrite fmap_app, concat_app. cbn [fmap list_fmap concat]. by rewrite app_nil_r, <- !app_assoc. }
  rewrite text_lines_of.
  2: { constructor; [done|]. apply Forall_app. split; [|by constructor]. eapply list.Forall_impl; [exact Hc|].
       intros c [_ H]. eapply list.Forall_impl; [exact H|]. cbn. lia. }
  cbn [pem_loop]. rewrite Tb. unfold str_eqb at 1. rewrite bool_decide_true by done. rewrite pem_body by done. cbn [app pem_loop].
  rewrite Te. assert (str_eqb (end_line label) (begin_line label) = false) as ->.
  { unfold str_eqb. apply bool_decide_eq_false. by intros [=]. }
  unfold str_eqb at 1. rewrite bool_decide_true by done. unfold cs. rewrite concat_chunks by lia.
  rewrite as_bytes_ascii by (eapply list.Forall_impl; [exact Hb|]; cbn; lia). unfold b64. by rewrite decode_encode.
Qed.

Section files.
Context {R K : Type} {C : Crypto R K}.

(** A CA that was created is the one that is loaded from then on: the same key, the
    same certificate and the same identifier, with nothing minted yet. *)
Theorem created_ca_reloads dir now r ca dir' r' :
  d_key dir = None \/ d_cert dir = None -> load_or_create dir now r = Ok (ca, dir', r') -> bytes (ca_cert ca) ->
  load_existing dir' = Ok (Some ca) /\ forall now2 r2, load_or_create dir' now2 r2 = Ok (ca, dir', r2).
Proof.
  intros Hn H Hb. assert (load_or_create dir now r = (g ← generate r; pair ← keypair g.1; c ← self_signed_ca pair now g.2;
    ca ← from_parts g.1 c.1; Ok (ca, mkCaDir (Some g.1) (Some (pem_encode c.1 CERTIFICATE)), c.2))) as E.
  { unfold load_or_create. destruct (d_key dir), (d_cert dir); try done. by destruct Hn. }
  rewrite E in H. clear E. destruct (generate r) as [[key r1]| | |]; try done. cbn [mbind res_bind_inst fst snd] in H.
  destruct (keypair key) as [k| | |] eqn:Ek; try done. cbn [mbind res_bind_inst] in H.
  destruct (self_signed_ca k now r1) as [[cert r2]| | |]; try done. cbn [mbind res_bind_inst fst snd] in H.
  assert (from_parts key cert = Ok (mkCa key cert ca_name (key_id (public_key k)) ∅)) as Ef by (unfold from_parts; by rewrite Ek).
  rewrite Ef in H. cbn [mbind res_bind_inst] in H. apply ok_triple in H as (<- & <- & _). cbn [ca_cert] in Hb.
  assert (load_files key (pem_encode cert CERTIFICATE) = Ok (mkCa key cert ca_name (key_id (public_key k)) ∅)) as El.
  { unfold load_files. rewrite pem_reads_back; [exact Ef|done|]. repeat (constructor; [done|]); constructor. }
  unfold load_existing, load_or_create. cbn [d_key d_cert]. by rewrite El.
Qed.

(** A CA that is kept only in memory is the one that a directory without one would
    be given, which holds its key and the certificate the guest installs. *)
Lemma ephemeral_as_created now r :
  load_or_create (mkCaDir None None) now r =
  (x ← ephemeral now r; Ok (x.1, mkCaDir (Some (ca_key x.1)) (Some (cert_pem x.1)), x.2)).
Proof.
  unfold load_or_create, ephemeral. cbn [d_key d_cert]. destruct (generate r) as [[key r1]| | |]; try done.
  cbn [mbind res_bind_inst fst snd]. destruct (keypair key) as [k| | |] eqn:Ek; try done. cbn [mbind res_bind_inst].
  destruct (self_signed_ca k now r1) as [[cert r2]| | |]; try done. cbn [mbind res_bind_inst fst snd].
  unfold from_parts. rewrite Ek. done.
Qed.

(** A leaf that was minted is served for as long as the proxy runs: the time of a
    later request is not looked at, so once its week is over the guest gets an
    expired certificate, although leaves are said to be minted again on demand. *)
Theorem expired_leaf_served ca host now r leaf ca' r' :
  leaf_for ca host now r = Ok (leaf, ca', r') -> forall later r2, leaf_for ca' host later r2 = Ok (leaf, ca', r2).
Proof.
  intros H later r2. assert (ca_leaves ca' !! to_ascii_lowercase host = Some leaf) as E; [|unfold leaf_for; by rewrite E].
  unfold leaf_for in H. destruct (ca_leaves ca !! to_ascii_lowercase host) as [hit|] eqn:Eh.
  { apply ok_triple in H as (<- & <- & _). done. }
  destruct (generate r) as [g| | |]; try done. cbn [mbind res_bind_inst] in H. destruct (keypair g.1) as [k| | |]; try done.
  cbn [mbind res_bind_inst] in H. destruct (keypair (ca_key ca)) as [k2| | |]; try done. cbn [mbind res_bind_inst] in H.
  destruct (sign_leaf _ _ _ _ _ _) as [c| | |]; try done. cbn [mbind res_bind_inst] in H. apply ok_triple in H as (<- & <- & _).
  cbn [ca_leaves]. apply lookup_insert_eq.
Qed.
End files.

(** ** Witnesses *)

(** A ring with a counter for its randomness and keys that sign with their bytes. *)
#[export] Instance toy_ring : Crypto Z (list Z) := {|
  generate_pkcs8 r := (Some [r mod 256; 7], r + 1);
  from_pkcs8 key := Some key;
  public_key k := 4 :: k;
  sign k m r := (Some k, r);
  sha256 m := repeat (Z.of_nat (length m) mod 256) 32;
  fill n r := (Some (repeat (r mod 256) n), r + 1) |}.

#[export] Instance toy_ring_laws : CryptoLaws Z (list Z).
Proof.
  refine {| verify p m s := bool_decide (p = 4 :: s) |}.
  - intros k m r s r' [= <- _]. by apply bool_decide_eq_true.
  - intros m. apply repeat_length.
  - intros n r bs r' [= <- _]. split; [apply repeat_length|]. apply List.Forall_forall. intros x Hx%repeat_spec. subst.
    unfold is_u8. apply Z.mod_pos_bound. lia.
  - intros r key r' [= <- _]. by eexists.
Defined.

Definition demo_created : res CaError (ProxyCa * CaDir * Z) := load_or_create (mkCaDir None None) 1785404460 5.

Definition demo_ca : ProxyCa := match demo_created with Ok (ca, _, _) => ca | _ => mkCa [] [] [] [] ∅ end.

Definition demo_dir : CaDir := match demo_created with Ok (_, dir, _) => dir | _ => mkCaDir None None end.

Definition demo_leaf : Leaf :=
  match leaf_for demo_ca (lit "API.example.com") 1785404460 9 with Ok (l, _, _) => l | _ => mkLeaf [] [] [] end.

Lemma leaf_certificate_witness :
  exists serial leaf_key sig,
    read_all (lf_cert demo_leaf) =
    Some (signed_tree (leaf_tree serial (key_id (public_key leaf_key)) (ca_ski demo_ca) (public_key leaf_key) (lit "api.example.com") 1785404460) sig).
Proof.
  destruct (leaf_for demo_ca (lit "API.example.com") 1785404460 9) as [[[leaf ca'] r']| | |] eqn:E; [|by vm_compute in E..].
  assert (demo_leaf = leaf) as -> by (unfold demo_leaf; by rewrite E).
  assert (Z.of_nat (length (lf_cert demo_leaf)) <? 2 ^ 63 = true) as Hl by (vm_compute; reflexivity).
  unfold demo_leaf in Hl. rewrite E in Hl. apply Z.ltb_lt in Hl.
  assert (from_pkcs8 (ca_key demo_ca) = Some [5; 7]) as Hk by (vm_compute; reflexivity).
  assert (ca_leaves demo_ca !! to_ascii_lowercase (lit "API.example.com") = None) as Hm by (vm_compute; reflexivity).
  assert (ca_subject demo_ca = ca_name) as Hs by (vm_compute; reflexivity).
  destruct (leaf_certificate demo_ca (lit "API.example.com") 1785404460 9 leaf ca' r' [5; 7] Hs Hk Hm E Hl ltac:(vm_compute; congruence)
    ltac:(vm_compute; congruence)) as (serial & leaf_key & sig & H & _).
  exists serial, leaf_key, sig. exact H.
Defined.

Lemma created_ca_reloads_witness : load_existing demo_dir = Ok (Some demo_ca).
Proof.
  destruct demo_created as [[[ca dir] r]| | |] eqn:E; [|by vm_compute in E..].
  assert (demo_ca = ca /\ demo_dir = dir) as [-> ->] by (unfold demo_ca, demo_dir; by rewrite E).
  apply (created_ca_reloads (mkCaDir None None) 1785404460 5 ca dir r (or_introl eq_refl) E).
  assert (bytesb (ca_cert demo_ca) = true) as Hb by (vm_compute; reflexivity). unfold demo_ca in Hb. rewrite E in Hb. by apply bytesb_bytes.
Defined.
